(* ===== verification/_CoqProject ===== *)
-Q . S2P
Prelude.v
Text.v
QqDns.v
QqCodec.v
Reassembly.v
QqEngine.v
QqConfig.v
Inflate.v
InflateSpec.v
InflateBits.v
InflateHuffman.v
InflateRefine.v
Gunzip.v
QrCode.v
QrField.v
QrBlocks.v
QrSymbol.v
QrPatterns.v
QrZigzag.v
QrMask.v
QrRead.v
QrSvg.v
QrProps.v
ProxyMetrics.v
ProxyParams.v
ProxyConfig.v
ProxyPackets.v
ProxyTransform.v
ProxyCover.v
ProxySip.v
ProxyProps.v
ProxyDialog.v
ProxyCalls.v
ProxyDialogSpec.v
ProxyCallsProps.v
HttpServer.v
HttpReader.v
HttpHead.v
HttpBody.v
HttpServe.v
HttpProps.v
HttpQuery.v
HttpRouter.v
ApiRoutes.v
HttpCookie.v
Totp.v
ApiLimits.v
ApiSession.v
ApiSessionProps.v
NetAddr.v
Cidr.v
NetAlloc.v
Firewall.v
FirewallSpec.v
FirewallProps.v
FirewallEnforce.v
FirewallDns.v
FirewallTarget.v
FirewallCalls.v
FirewallLive.v
Encoding.v
Rng.v
WgParams.v
WgParamsProps.v
WgNetlink.v
WgNetlinkProps.v
WgCb3.v
WgConfig.v
WgIni.v
WgConfigProps.v
PrivHelper.v
PrivHelperProps.v
Varint.v
QuicPackets.v
QuicResponder.v
QuicParse.v
QuicFlight.v
QuicProps.v
