(* ===== verification/Prelude.v ===== *)
(** * Verification of coffeeblack-vpn

    A model of the parts of the server that compute: they take bytes from the
    network or from the database and produce bytes or state.  Rust functions are
    Rocq functions on the same data; mutation is state passing; every call that
    can fail returns a [result], in which a panic ([Stuck Panicked]) is different
    from an error ([Err]).  Lists of bytes are lists of [Z] with [bytes_ok];
    machine integers are [Z] with their wrap-around written out ([wrap]);
    lengths and indices ([usize]) are [nat], because no buffer of the program
    reaches 2^64 bytes, and theorems that need the bound state it.

    ** Parts

    The DNS tunnel ([src/src/qqdns]).  Datagrams of a client are cut into
    fragments, each the name of a DNS query; the other side reassembles them.
    - [QqDns] ([dns.rs]): queries and replies on the wire, suffix matching.
    - [QqCodec] ([codec.rs]): base 32, fixed-width numbers, the label budget, the
      fragmenter and the parser of one fragment.
    - [Reassembly] ([reassembly.rs]): the table of slots, one step per event
      (a fragment, a sweep), with the clock as an argument.
    - [QqEngine] ([engine.rs]): one turn of each task; the tunnel end to end.
    - [QqConfig] ([config.rs], [db.rs]): from the settings row to a configuration.

    The decompressor ([src/src/inflate.rs]).
    - [Inflate]: the code.  [InflateSpec]: RFC 1951 and 1952 as relations.
    - [InflateBits], [InflateHuffman], [InflateRefine]: the output window and the bit
      reader, the tables, and the refinement, block by block.
    - [Gunzip]: the theorems on whole files.

    QR codes ([src/src/qr.rs]).
    - [QrCode]: tables, data codewords, error correction, interleaving.
    - [QrSymbol]: function patterns, placement, masks, penalties, [encode].
    - [QrField], [QrBlocks], [QrPatterns], [QrZigzag], [QrMask]: the
      field and Reed-Solomon division, the inverse of interleaving, which
      modules are reserved, and that placement visits each data module once.
    - [QrRead]: a reader of symbols.  [QrSvg]: the markup and a reader of it.
      [QrProps]: the theorems.

    The obfuscation proxy ([src/src/proxy]).
    - [ProxyParams] ([config.rs]): the packet parameters, parsed and validated.
    - [ProxyConfig] ([supervisor.rs]): the parameters as the supervisor writes
      them for the proxy, and what the proxy reads back.
    - [ProxyPackets] ([responder.rs], up to line 692): which packet type or probe
      a datagram is, and the replies to probes.
    - [ProxyTransform] ([transform.rs]): padding rewritten to look like QUIC, DNS,
      STUN or SIP.  [ProxyCover], [ProxySip]: what is written, in closed form,
      and readers of those protocols.  [ProxyProps]: the theorems.
    - [ProxyDialog] ([responder.rs] from line 695): SIP dialogs, their responses
      and stages.  [ProxyDialogSpec]: the responses as a reader sees them.
    - [ProxyCalls] ([proxy.rs], [handle_sip_probe]): the dialogs of all clients, a
      handler in two steps around its sends, and the deferred tasks, as a step
      relation.  [ProxyCallsProps]: invariants over every interleaving.
    - [ProxyMetrics] ([metrics.rs]): token buckets, the byte budget and the client
      table; each compare-and-swap loop also as tasks that interleave.

    - [Varint] ([quic_handshake.rs], [trusttunnel/deeplink.rs]): integers of
      variable length.  [QuicPackets] ([quic_handshake.rs]): packets and frames, over
      the class [QuicCrypto].  [QuicResponder] (same file): the ClientHello
      reassembled, the flight of the class [QuicTls] as datagrams, the table.
      [QuicParse], [QuicFlight]: what each stage makes of its input; [QuicProps]: the responder among other traffic.

    The web server ([src/src/http]) and its sessions ([src/src/api]).
    - [HttpServer] ([server.rs]): one connection, from the events of its socket to
      the bytes written; the [http] crate is the class [HttpCrate] with its laws,
      the router an argument.  [HttpReader], [HttpHead], [HttpBody], [HttpServe]:
      lines, heads, bodies and the loop; [HttpProps]: the theorems.
    - [HttpQuery] ([query.rs]): percent decoding and pairs.  [HttpRouter]
      ([router.rs]): patterns and dispatch.  [ApiRoutes] ([api/mod.rs],
      [main.rs]): the table of routes.  [HttpCookie] ([cookie.rs]): the jar.
    - [Totp] ([api/session.rs]): base 32 and one-time codes.  [ApiLimits] (same
      file): the limits on attempts.  [ApiSession] (same file, [api/mod.rs]): the
      shared state and the handlers, a login as steps.  [ApiSessionProps]: the
      interleaving of logins with everything else, and the theorems.

    The firewall and the addresses of the clients ([src/src/firewall.rs],
    [src/src/cidr.rs], [src/src/db.rs], [src/src/api]).
    - [NetAddr]: parsing and printing of addresses, of the standard library.
      [Cidr] ([cidr.rs]): prefixes of both families and their hosts.
    - [NetAlloc] ([db.rs], [admin.rs], [wg/config_gen.rs]): the table of clients,
      the next free address, creation, and the change of network.
    - [Firewall] ([firewall.rs]): the text of the transactions.  [FirewallSpec]: a
      reader of nftables rules and the verdict of a chain.  [FirewallProps],
      [FirewallEnforce], [FirewallDns]: the text as that reader sees it, and the
      packets the client rules and the DNS rules let through.
    - [FirewallTarget] ([api/clients.rs]): the validators of targets.
    - [FirewallCalls] ([firewall.rs], [supervisor.rs]): the calls of [nft], over the
      class [Nft]; [FirewallLive]: what they leave, under the laws [NftLaws].

    WireGuard settings ([src/src/wg], [src/src/rng.rs], [src/src/privhelper.rs]).
    - [Encoding] ([encoding.rs]): hexadecimal.  [Rng] ([rng.rs]): bounded draws over
      the random source of the system.
    - [WgParams] ([wg/params.rs]): the obfuscation parameters, generated and
      validated, with the grammar of init packets.  [WgParamsProps]: the theorems.
    - [WgNetlink] ([wg/kernel.rs]): the query for the generation of the kernel
      module and its answer.  [WgNetlinkProps]: messages as netlink lays them out.
    - [WgCb3] ([wg/cb3.rs]): the settings of version 3.  [WgConfig]
      ([wg/config_gen.rs], [wg/mod.rs]): the configurations of the server and of a
      client.  [WgIni]: what replacing leaves, and a reader of configurations;
      [WgConfigProps]: both texts as that reader sees them.
    - [PrivHelper] ([privhelper.rs]): the root process behind its socket, over the
      class [Host] of commands.  [PrivHelperProps]: the hooks as [awg-quick] reads
      them, and the state after any requests.

    [Text] models the string operations of the standard library that several
    parts apply.  This file has the [result] monad, loops, bytes and bit strings,
    and lemmas on lists.

    ** What the theorems show

    - Total: parsers and handlers return on every input, without a panic
      ([handle_dns_request_safe], [wan_recv_total],
      [apply_cb_transform_safe], and [gunzip_correct] for every byte string).
    - Round trips: queries, fragment headers, base 32, numbers, QR symbols and
      their SVG, configuration text, networks.
    - Refinement: the tunnel delivers each datagram once and whole
      ([tunnel_end_to_end], [reassembly_exactly_once], [reassembly_integrity]);
      [gunzip] accepts exactly the files of the RFCs and gives their content.
    - The imitations are well formed for a reader of the protocol that shares no
      definition with the code, and the payload is untouched.
    - The web server: a connection answers the requests that its bytes spell, in
      order, however they are cut ([pipelined_requests_answered],
      [serve_connection_sound], [segmentation_prefix]); dispatch is by the most
      specific route and the routes do not overlap ([app_dispatch_exact]).
    - Sessions: each was opened by a login that found an enabled row of the users
      table and gave its password and code ([sessions_are_earned]), and is open
      until it times out or is closed ([login_session_life]); attempts and
      their store are bounded ([attempt_limits]).
    - The firewall: whatever the rows hold, the text is the rules meant, and the
      chain lets through what an enabled client's targets permit, in every
      protocol where a target names no port ([firewall_enforces]); peers' DNS goes
      to the target or nowhere ([dns_never_leaks]); a rebuild leaves both in force,
      with each jump once ([rebuild_in_force]); accepted targets are opened
      ([validated_target_opens]).
    - Addresses: prefixes ([prefix_correct]); a new client has the first free host
      ([create_client_fresh]); a change of network keeps them apart
      ([change_cidr_renumbers]).
    - WireGuard: generated parameters are valid and survive the database
      ([generated_params_valid]); every init packet of the documented grammar is
      accepted, and the accepted grammar is exact ([init_spec_exact]); draws are
      uniform ([draws_unbiased]); both ends of a tunnel read the settings of the rows
      ([tunnel_ends_agree]); the module is recognised ([netlink_query_correct]); whoever speaks to the helper, it runs fixed
      commands and its own hooks, and a bare hook name ([helper_hooks_only]).
    - QUIC probes: a ClientHello in pieces is answered with the flight for it
      ([quic_probe_answered]); no address is sent more than three times what it
      sent, and memory is bounded ([quic_responder_safe]).
    - Invariants: slot tables, send offsets, disjoint header ranges, SIP dialogs;
      rate limits under any interleaving ([probe_budget_ceiling],
      [token_bucket_rate]); stages of calls ([sip_stage_changes]).

    ** Fuel

    Every loop with fuel is shown to have enough: names of DNS messages take a
    turn per label and a label has two bytes or more (129 turns for 255 bytes);
    the readers of a message take at most a turn per byte; decimal numbers have at
    most 20 digits below 2^64; gzip members and blocks consume input.  No theorem
    has a hypothesis that a function returns, except where it is a case of a
    statement that covers the others as well.

    ** Parameters

    JSON parsing (serde_json) and the hash of the standard library are arguments
    of the definitions that use them; so are the clock, the random secret of the
    padding transforms, addresses, and what the limits and the socket answer to a
    SIP datagram.  The two steps of a SIP handler are atomic, which the code
    guarantees only up to the locks of single dialogs.  In the web server HMAC,
    Argon2, random tokens and the clock are arguments; writes to the socket
    succeed, locks are not poisoned, statements of the database succeed, and its
    users table is a finite map.  [nft] is a class: it takes a transaction or refuses
    it, and a listing names the jumps of a chain; there the platform is Linux and
    the privileged helper is off.  The random source is a sequence of words, for
    the generation of parameters a fair one: every value comes again, in runs as
    long as one likes.  The commands that the helper runs are the class [Host]; the
    JSON reader, the Base64 codec and the Unicode table of letters are arguments.
    The keys and the TLS connection of rustls are classes: sealing is undone by the
    holder of the same keys ([QuicLaws]), and a connection does not write for ever
    ([TlsLaws]).
    The table of clients is a finite map whose statements fail only on its unique
    columns.

    ** Not modelled

    Sockets, tasks and locks (tokio), processes and files, SQL, TLS and the
    cryptography of libraries; the handlers of the web interface, which are glue
    between these; the text written for bundled programs (Tor, Xray);
    the mirror of the firewall in iptables-legacy.
    In the proxy, the relays and sessions, and DNS forwarding.  TrustTunnel links are still to be done. *)
From stdpp Require Export base numbers list decidable.
From stdpp Require Export strings.
From Stdlib Require Export ZArith Lia.
From Stdlib Require Export Ascii.

Create HintDb vpn discriminated.
Create Rewrite HintDb vpn.

(** ** Fallible code

    A call of the source ends in one of three ways: it returns [Ok], it
    returns [Err], or it does not return a value at all.  [Stuck Panicked] is a
    Rust panic (an index or a slice out of range, a failed [expect]);
    [Stuck OutOfFuel] only exists in the model: a loop whose fuel was too
    small.  Each component proves which calls can never be stuck.  The stdpp
    bind notation [x ← e; k] plays the role of the [?] operator. *)
Inductive stuck : Set := Panicked | OutOfFuel.

Inductive result (E A : Type) : Type :=
  | Ok (a : A)
  | Err (e : E)
  | Stuck (s : stuck).
Arguments Ok {E A} a.
Arguments Err {E A} e.
Arguments Stuck {E A} s.

#[export] Instance result_ret {E} : MRet (result E) := fun A a => Ok a.
#[export] Instance result_bind {E} : MBind (result E) := fun A B f m =>
  match m with Ok a => f a | Err e => Err e | Stuck s => Stuck s end.
#[export] Instance result_fmap {E} : FMap (result E) := fun A B f m =>
  match m with Ok a => Ok (f a) | Err e => Err e | Stuck s => Stuck s end.

#[export] Instance stuck_eq_dec : EqDecision stuck.
Proof. solve_decision. Defined.
#[export] Instance result_eq_dec {E A} `{EqDecision E, EqDecision A} :
  EqDecision (result E A).
Proof. solve_decision. Defined.

(** The call returned to its caller, with a value or with an error. *)
Definition returns {E A} (r : result E A) : Prop :=
  match r with Stuck _ => False | _ => True end.

Lemma returns_bind {E A B} (m : result E A) (f : A -> result E B) :
  returns m -> (forall a, m = Ok a -> returns (f a)) -> returns (m ≫= f).
Proof. destruct m; cbn; eauto. Qed.

Lemma bind_Ok {E A B} (m : result E A) (f : A -> result E B) b :
  (m ≫= f) = Ok b -> exists a, m = Ok a /\ f a = Ok b.
Proof. destruct m; cbn; [eauto | discriminate..]. Qed.

Lemma bind_Ok_eq {E A B} (a : A) (f : A -> result E B) : (Ok a ≫= f) = f a.
Proof. done. Qed.

(** Reduce a chain of binds in a hypothesis that it returned [Ok]. *)
Ltac inv_ok H :=
  repeat match type of H with
  | (_ ≫= _) = Ok _ =>
      let x := fresh "x" in let Hx := fresh "Hx" in
      apply bind_Ok in H as (x & Hx & H)
  | Ok _ = Ok _ => injection H as H
  | Err _ = Ok _ => discriminate H
  | Stuck _ = Ok _ => discriminate H
  end.

(** [Option::ok_or] and [Result::ok]. *)
Definition ok_or {E A} (e : E) (o : option A) : result E A :=
  match o with Some a => Ok a | None => Err e end.
Definition result_ok {E A} (r : result E A) : option A :=
  match r with Ok a => Some a | _ => None end.

(** [l[i]] and [&l[a..b]]: both panic out of range. *)
Definition index {E A} (l : list A) (i : nat) : result E A :=
  match l !! i with Some x => Ok x | None => Stuck Panicked end.
Definition slice {E A} (l : list A) (a b : nat) : result E (list A) :=
  if decide (a ≤ b ≤ length l) then Ok (take (b - a) (drop a l)) else Stuck Panicked.

Lemma index_Some {E A} (l : list A) i x : l !! i = Some x -> index (E := E) l i = Ok x.
Proof. unfold index. by intros ->. Qed.

Lemma index_lt {E A} (l : list A) i :
  i < length l -> exists x, l !! i = Some x /\ index (E := E) l i = Ok x.
Proof.
  intros [x Hx]%lookup_lt_is_Some_2. exists x. split; [done|]. by apply index_Some.
Qed.

Lemma slice_ok {E A} (l : list A) a b :
  a ≤ b -> b ≤ length l -> slice (E := E) l a b = Ok (take (b - a) (drop a l)).
Proof. intros. unfold slice. by rewrite decide_True by lia. Qed.

(** [l[i] = v], and a subtraction of [usize]. *)
Definition update {E A} (l : list A) (i : nat) (v : A) : result E (list A) :=
  if decide (i < length l) then Ok (<[i := v]> l) else Stuck Panicked.
Definition usize_sub {E} (a b : nat) : result E nat :=
  if decide (a < b) then Stuck Panicked else Ok (a - b).

Lemma update_ok {E A} (l : list A) i v :
  i < length l -> update (E := E) l i v = Ok (<[i := v]> l).
Proof. intros. unfold update. by rewrite decide_True. Qed.

Lemma usize_sub_ok {E} a b : b ≤ a -> usize_sub (E := E) a b = Ok (a - b).
Proof. intros. unfold usize_sub. by rewrite decide_False by lia. Qed.

(** [for x in l { .. }], its body a state transformer. *)
Fixpoint for_each {E A S} (l : list A) (f : S -> A -> result E S) (s : S) : result E S :=
  match l with
  | [] => Ok s
  | x :: l => s ← f s x; for_each l f s
  end.

Lemma for_each_app {E A S} l1 l2 (f : S -> A -> result E S) s :
  for_each (l1 ++ l2) f s = (s ← for_each l1 f s; for_each l2 f s).
Proof.
  revert s. induction l1 as [|x l1 IH]; intros s; [done|].
  cbn [app for_each]. destruct (f s x); cbn; [apply IH|done|done].
Qed.

(** [l.iter().enumerate()]. *)
Definition enumerate_from {A} (j : nat) (l : list A) : list (nat * A) :=
  zip (seq j (length l)) l.
Definition enumerate {A} (l : list A) : list (nat * A) := enumerate_from 0 l.

(** A loop of pure steps that keep an invariant is a fold. *)
Lemma for_each_foldl {E A S} (P : S -> Prop) (Q : A -> Prop) (f : S -> A -> result E S) g l s :
  (forall s x, P s -> Q x -> f s x = Ok (g s x) /\ P (g s x)) ->
  Forall Q l -> P s -> for_each l f s = Ok (foldl g s l) /\ P (foldl g s l).
Proof.
  intros Hf Hl. revert s. induction Hl as [|x l Hx _ IH]; intros s Hs; [done|].
  cbn [for_each foldl]. destruct (Hf s x Hs Hx) as [-> Hs']. rewrite bind_Ok_eq. by apply IH.
Qed.

Lemma for_each_ext {E A S} l (f g : S -> A -> result E S) s :
  (forall s x, x ∈ l -> f s x = g s x) -> for_each l f s = for_each l g s.
Proof.
  revert s. induction l as [|x l IH]; intros s H; [done|]. cbn [for_each].
  rewrite H by apply list_elem_of_here. destruct (g s x); cbn; [|done|done].
  apply IH. intros. apply H. by apply list_elem_of_further.
Qed.

(** Two nested loops are one loop over the pairs. *)
Definition pairs {A B} (l1 : list A) (l2 : list B) : list (A * B) :=
  l1 ≫= fun a => pair a <$> l2.

Lemma elem_of_pairs {A B} (l1 : list A) (l2 : list B) a b :
  (a, b) ∈ pairs l1 l2 <-> a ∈ l1 /\ b ∈ l2.
Proof.
  unfold pairs. rewrite list_elem_of_bind. split.
  - intros (a' & (b' & [= -> ->] & Hb)%list_elem_of_fmap & Ha). done.
  - intros [Ha Hb]. exists a. split; [|done]. apply list_elem_of_fmap. by exists b.
Qed.

Lemma NoDup_pairs {A B} (l1 : list A) (l2 : list B) :
  NoDup l1 -> NoDup l2 -> NoDup (pairs l1 l2).
Proof.
  intros H1 H2. apply NoDup_bind; [| |done].
  - intros a a' b _ _ (x & -> & _)%list_elem_of_fmap (y & [= <- _] & _)%list_elem_of_fmap. done.
  - intros a _. apply NoDup_fmap_2; [|done]. by intros x y [= ->].
Qed.

Lemma length_pairs {A B} (l1 : list A) (l2 : list B) :
  length (pairs l1 l2) = length l1 * length l2.
Proof.
  unfold pairs. induction l1 as [|a l1 IH]; [done|].
  rewrite bind_cons, length_app, length_fmap, IH. done.
Qed.

Lemma for_each_fmap {E A B S} (g : A -> B) l (f : S -> B -> result E S) s :
  for_each (g <$> l) f s = for_each l (fun s a => f s (g a)) s.
Proof.
  revert s. induction l as [|x l IH]; intros s; [done|]. cbn [fmap list_fmap for_each].
  destruct (f s (g x)); cbn; [apply IH|done..].
Qed.

Lemma for_each_bind {E A B S} (g : A -> list B) l (f : S -> B -> result E S) s :
  for_each (l ≫= g) f s = for_each l (fun s a => for_each (g a) f s) s.
Proof.
  revert s. induction l as [|x l IH]; intros s; [done|]. rewrite bind_cons, for_each_app.
  cbn [for_each]. destruct (for_each (g x) f s); cbn; [apply IH|done..].
Qed.

Lemma for_each_nested {E A B S} (l1 : list A) (l2 : list B) (f : S -> A * B -> result E S) s :
  for_each l1 (fun s a => for_each l2 (fun s b => f s (a, b)) s) s = for_each (pairs l1 l2) f s.
Proof.
  unfold pairs. rewrite for_each_bind. apply for_each_ext. intros s' a _.
  by rewrite for_each_fmap.
Qed.

(** A loop keeps an invariant that each of its steps keeps. *)
Lemma for_each_inv {E A S} (P : S -> Prop) (f : S -> A -> result E S) l s :
  (forall s x, x ∈ l -> P s -> exists s', f s x = Ok s' /\ P s') ->
  P s -> exists s', for_each l f s = Ok s' /\ P s'.
Proof.
  revert s. induction l as [|x l IH]; intros s Hf Hs; [by exists s|]. cbn [for_each].
  destruct (Hf s x ltac:(apply list_elem_of_here) Hs) as (s1 & -> & H1). cbn.
  apply IH; [|done]. intros. apply Hf; [by apply list_elem_of_further|done].
Qed.

(** ** Machine words

    A [w]-bit unsigned integer is a [Z]; [wrap w] is the value a register of
    that width keeps. *)
Definition wrap (w : Z) (z : Z) : Z := z mod 2 ^ w.

Definition u8 := wrap 8.
Definition u16 := wrap 16.
Definition u32 := wrap 32.
Definition u64 := wrap 64.

Definition byte_ok (b : Z) : Prop := (0 ≤ b < 256)%Z.
#[export] Instance byte_ok_dec b : Decision (byte_ok b).
Proof. unfold byte_ok. apply _. Defined.

Abbreviation bytes := (list Z).
Abbreviation bytes_ok := (Forall byte_ok).

(** Source byte literals: [b'c'] and [b"..."]. *)
Definition b8 (c : ascii) : Z := Z.of_N (N_of_ascii c).
Arguments b8 _%_char_scope.
Definition bstr (s : string) : bytes := b8 <$> String.list_ascii_of_string s.
Arguments bstr _%_string_scope.

Lemma wrap_small w z : (0 ≤ z < 2 ^ w)%Z -> wrap w z = z.
Proof. intros. by apply Z.mod_small. Qed.

Lemma wrap_range w z : (0 ≤ w)%Z -> (0 ≤ wrap w z < 2 ^ w)%Z.
Proof. intros. apply Z.mod_pos_bound. by apply Z.pow_pos_nonneg. Qed.

Lemma u8_range z : byte_ok (u8 z).
Proof. apply wrap_range. lia. Qed.
#[export] Hint Resolve u8_range : vpn.

Lemma u8_small z : byte_ok z -> u8 z = z.
Proof. intros. by apply wrap_small. Qed.

Lemma testbit_wrap w z i :
  (0 ≤ w)%Z -> Z.testbit (wrap w z) i = bool_decide (i < w)%Z && Z.testbit z i.
Proof.
  intros Hw. unfold wrap. rewrite Z.testbit_mod_pow2 by done.
  f_equal. apply eq_true_iff_eq. rewrite Z.ltb_lt, bool_decide_eq_true. done.
Qed.

Lemma byte_testbit_high b i : byte_ok b -> (8 ≤ i)%Z -> Z.testbit b i = false.
Proof.
  intros Hb Hi. rewrite <- (u8_small b Hb). unfold u8.
  rewrite testbit_wrap by lia. case_bool_decide; [lia | done].
Qed.

Lemma testbit_high w z i :
  (0 ≤ z < 2 ^ w)%Z -> (0 ≤ w ≤ i)%Z -> Z.testbit z i = false.
Proof.
  intros Hz Hi. rewrite <- (wrap_small w z Hz), testbit_wrap by lia.
  case_bool_decide; [lia | done].
Qed.

(** ** Finite checks

    A property of the integers below a literal bound is decided by evaluating
    it on each of them. *)
Lemma forall_below (P : Z -> bool) (n : nat) :
  forallb P (seqZ 0 (Z.of_nat n)) = true ->
  forall z, (0 ≤ z < Z.of_nat n)%Z -> P z = true.
Proof.
  intros H z Hz. rewrite forallb_forall in H. apply H.
  apply list_elem_of_In, elem_of_seqZ. lia.
Qed.

Lemma forall_below2 (P : Z -> Z -> bool) (n m : nat) :
  forallb (fun a => forallb (P a) (seqZ 0 (Z.of_nat m))) (seqZ 0 (Z.of_nat n)) = true ->
  forall a b, (0 ≤ a < Z.of_nat n)%Z -> (0 ≤ b < Z.of_nat m)%Z -> P a b = true.
Proof.
  intros H a b Ha Hb.
  pose proof (forall_below _ n H a Ha) as H'. by apply (forall_below (P a) m).
Qed.

Lemma forall_below_dec (P : Z -> Prop) `{forall z, Decision (P z)} (n : nat) :
  forallb (fun z => bool_decide (P z)) (seqZ 0 (Z.of_nat n)) = true ->
  forall z, (0 ≤ z < Z.of_nat n)%Z -> P z.
Proof.
  intros H' z Hz. apply (bool_decide_eq_true_1 (P z)).
  exact (forall_below _ n H' z Hz).
Qed.

(** Close a decidable goal about concrete data by evaluation. *)
Ltac evaluate :=
  match goal with |- ?P => apply (bool_decide_eq_true_1 P); vm_compute; reflexivity end.

(** ** Bit strings, most significant bit first *)
Fixpoint to_bits (w : nat) (z : Z) : list bool :=
  match w with
  | O => []
  | S w' => Z.testbit z (Z.of_nat w') :: to_bits w' z
  end.

Definition of_bits (l : list bool) : Z :=
  foldl (fun a b => (2 * a + Z.b2z b)%Z) 0%Z l.

Lemma length_to_bits w z : length (to_bits w z) = w.
Proof. induction w; cbn; congruence. Qed.
#[export] Hint Rewrite length_to_bits : vpn.

Lemma to_bits_ext w z z' :
  (forall i, (0 ≤ i < Z.of_nat w)%Z -> Z.testbit z i = Z.testbit z' i) ->
  to_bits w z = to_bits w z'.
Proof.
  induction w as [|w IH]; intros H; cbn; [done|].
  f_equal; [apply H; lia | apply IH; intros; apply H; lia].
Qed.

Lemma to_bits_app n k z :
  to_bits (k + n) z = to_bits k (Z.shiftr z (Z.of_nat n)) ++ to_bits n z.
Proof.
  induction k as [|k IH]; cbn; [done|]. rewrite IH. f_equal.
  rewrite Z.shiftr_spec by lia. f_equal. lia.
Qed.

Lemma of_bits_app l1 l2 :
  of_bits (l1 ++ l2) = (of_bits l1 * 2 ^ Z.of_nat (length l2) + of_bits l2)%Z.
Proof.
  unfold of_bits. rewrite foldl_app.
  generalize (foldl (fun a b => (2 * a + Z.b2z b)%Z) 0%Z l1) as c.
  induction l2 as [|b l2 IH] using rev_ind; intros c; cbn; [lia|].
  rewrite !foldl_app, length_app. cbn. rewrite IH.
  rewrite Nat2Z.inj_add, Z.pow_add_r by lia. cbn. lia.
Qed.

Lemma of_to_bits w z : of_bits (to_bits w z) = wrap (Z.of_nat w) z.
Proof.
  induction w as [|w IH].
  - cbn. unfold wrap. by rewrite Z.mod_1_r.
  - change (to_bits (S w) z) with ([Z.testbit z (Z.of_nat w)] ++ to_bits w z).
    rewrite of_bits_app, length_to_bits, IH. unfold of_bits; cbn.
    unfold wrap. rewrite Nat2Z.inj_succ, <- Z.add_1_r.
    rewrite Z.pow_add_r, Z.pow_1_r by lia.
    rewrite Z.rem_mul_r by lia.
    rewrite Z.testbit_spec' by lia. lia.
Qed.

Lemma of_bits_range l : (0 ≤ of_bits l < 2 ^ Z.of_nat (length l))%Z.
Proof.
  induction l as [|b l IH] using rev_ind; [done|].
  rewrite of_bits_app, length_app, Nat2Z.inj_add, Z.pow_add_r by lia.
  change (of_bits [b]) with (Z.b2z b). change (2 ^ Z.of_nat (length [b]))%Z with 2%Z.
  destruct b; cbn [Z.b2z]; lia.
Qed.

Lemma to_of_bits l : to_bits (length l) (of_bits l) = l.
Proof.
  induction l as [|b l IH]; [done|]. cbn [length to_bits].
  assert (of_bits (b :: l) = Z.b2z b * 2 ^ Z.of_nat (length l) + of_bits l)%Z as ->
    by apply (of_bits_app [b] l).
  pose proof (of_bits_range l) as Hr.
  set (n := Z.of_nat (length l)) in *. f_equal.
  - rewrite Z.testbit_eqb by lia.
    rewrite Z.div_add_l by lia. rewrite Z.div_small by lia. by destruct b.
  - rewrite <- IH at 3. apply to_bits_ext. intros i Hi.
    rewrite <- (Z.mod_pow2_bits_low _ n i) by lia.
    rewrite <- (Z.mod_pow2_bits_low (of_bits l) n i) by lia.
    f_equal. rewrite Z.add_comm. by rewrite Z.mod_add by lia.
Qed.

Lemma to_bits_inj w z z' :
  (0 ≤ z < 2 ^ Z.of_nat w)%Z -> (0 ≤ z' < 2 ^ Z.of_nat w)%Z ->
  to_bits w z = to_bits w z' -> z = z'.
Proof.
  intros Hz Hz' H. apply (f_equal of_bits) in H.
  by rewrite !of_to_bits, !wrap_small in H.
Qed.

Lemma to_bits_wrap w k z :
  (Z.of_nat w ≤ k)%Z -> to_bits w (wrap k z) = to_bits w z.
Proof.
  intros H. apply to_bits_ext. intros i Hi. rewrite testbit_wrap by lia.
  case_bool_decide; [done | lia].
Qed.

Lemma lookup_to_bits n z i :
  i < n -> to_bits n z !! i = Some (Z.testbit z (Z.of_nat (n - 1 - i))).
Proof.
  revert i. induction n as [|n IH]; intros i Hi; [lia|].
  change (to_bits (S n) z) with (Z.testbit z (Z.of_nat n) :: to_bits n z).
  destruct i as [|i]; cbn [lookup list_lookup]; [do 3 f_equal; lia|].
  rewrite IH by lia. do 3 f_equal. lia.
Qed.

Lemma to_bits_zero w : to_bits w 0 = replicate w false.
Proof. induction w; cbn; [done|]. by rewrite IHw, Z.testbit_0_l. Qed.

(** Appending a [k]-bit value below an accumulator, in a 64-bit register. *)
Lemma to_bits_push n k (acc v : Z) :
  (0 ≤ v < 2 ^ Z.of_nat k)%Z -> (Z.of_nat (n + k) ≤ 64)%Z ->
  to_bits (n + k) (u64 (Z.lor (Z.shiftl acc (Z.of_nat k)) v))
  = to_bits n acc ++ to_bits k v.
Proof.
  intros Hv Hn. unfold u64. rewrite to_bits_wrap by done.
  rewrite to_bits_app. f_equal; apply to_bits_ext; intros i Hi.
  - rewrite Z.shiftr_spec, Z.lor_spec, Z.shiftl_spec by lia.
    rewrite (testbit_high (Z.of_nat k) v) by lia.
    rewrite orb_false_r. f_equal. lia.
  - rewrite Z.lor_spec, Z.shiftl_spec_low by lia. done.
Qed.

(** Cutting a bit string into groups is injective up to a short remainder. *)
Lemma groups_inj (w : nat) (l1 l2 : list Z) (r1 r2 : list bool) :
  0 < w ->
  Forall (fun z => 0 ≤ z < 2 ^ Z.of_nat w)%Z l1 ->
  Forall (fun z => 0 ≤ z < 2 ^ Z.of_nat w)%Z l2 ->
  length r1 < w -> length r2 < w ->
  (l1 ≫= to_bits w) ++ r1 = (l2 ≫= to_bits w) ++ r2 ->
  l1 = l2 /\ r1 = r2.
Proof.
  intros Hw H1. revert l2. induction H1 as [|z1 l1 Hz1 H1 IH]; intros l2 H2 Hr1 Hr2 E.
  - destruct l2 as [|z2 l2]; [done|]. apply (f_equal length) in E. cbn in E.
    rewrite !length_app, length_to_bits in E. lia.
  - destruct H2 as [|z2 l2 Hz2 H2].
    + apply (f_equal length) in E. cbn in E.
      rewrite !length_app, length_to_bits in E. lia.
    + cbn in E. rewrite <- !app_assoc in E.
      apply app_inj_1 in E as [Ez E]; [|by rewrite !length_to_bits].
      apply to_bits_inj in Ez as ->; [|done..].
      destruct (IH l2 H2 Hr1 Hr2 E) as [-> ->]. done.
Qed.

#[global] Arguments to_bits : simpl never.
#[global] Arguments of_bits : simpl never.

(** ** Lists *)

(** [slice::split]: the pieces between the elements that satisfy [p]; there
    is always at least one. *)
Fixpoint split_on {A} (p : A -> bool) (l : list A) : list (list A) :=
  match l with
  | [] => [[]]
  | x :: l' =>
      if p x then [] :: split_on p l'
      else match split_on p l' with
           | [] => [[x]]
           | h :: t => (x :: h) :: t
           end
  end.

(** The inverse operation, [join]. *)
Fixpoint join_with {A} (sep : A) (ls : list (list A)) : list A :=
  match ls with
  | [] => []
  | [l] => l
  | l :: ls' => l ++ sep :: join_with sep ls'
  end.

Lemma split_on_nonempty {A} (p : A -> bool) l : split_on p l <> [].
Proof. destruct l as [|x l]; cbn; [done|]. destruct (p x); [done|]. by case_match. Qed.

Lemma split_on_none {A} (p : A -> bool) l :
  Forall (fun x => p x = false) l -> split_on p l = [l].
Proof. induction 1 as [|x l Hx _ IH]; cbn; [done|]. by rewrite Hx, IH. Qed.

Lemma split_on_app_sep {A} (p : A -> bool) l x l' :
  Forall (fun x => p x = false) l -> p x = true ->
  split_on p (l ++ x :: l') = l :: split_on p l'.
Proof.
  intros Hl Hx. induction Hl as [|y l Hy _ IH]; cbn; [by rewrite Hx|].
  by rewrite Hy, IH.
Qed.

Lemma split_join {A} (p : A -> bool) sep ls :
  p sep = true -> ls <> [] -> Forall (Forall (fun x => p x = false)) ls ->
  split_on p (join_with sep ls) = ls.
Proof.
  intros Hs Hne Hls. induction Hls as [|l ls Hl Hls IH]; [done|].
  destruct ls as [|l2 ls]; [by apply split_on_none|].
  change (join_with sep (l :: l2 :: ls)) with (l ++ sep :: join_with sep (l2 :: ls)).
  rewrite split_on_app_sep by done. by rewrite IH.
Qed.

Lemma split_on_pieces {A} (p : A -> bool) l :
  Forall (Forall (fun x => p x = false)) (split_on p l).
Proof.
  induction l as [|x l IH]; cbn; [by repeat constructor|].
  destruct (p x) eqn:E; [by constructor|].
  destruct (split_on p l); inversion_clear IH; repeat (constructor; auto).
Qed.

Lemma split_on_Forall {A} (P : A -> Prop) (p : A -> bool) l :
  Forall P l -> Forall (Forall P) (split_on p l).
Proof.
  induction 1 as [|x l Hx _ IH]; cbn; [by repeat (constructor; auto)|].
  destruct (p x); [by constructor|].
  destruct (split_on p l); inversion_clear IH; repeat (constructor; auto).
Qed.

(** [to_ascii_lowercase]. *)
Definition to_ascii_lower (c : Z) : Z :=
  if decide (65 ≤ c ≤ 90)%Z then (c + 32)%Z else c.

Lemma to_ascii_lower_id c : ~ (65 ≤ c ≤ 90)%Z -> to_ascii_lower c = c.
Proof. intros. unfold to_ascii_lower. by rewrite decide_False. Qed.

(** Big-endian 16-bit fields: [to_be_bytes] and [from_be_bytes]. *)
Definition be16 (v : Z) : bytes := [u8 (Z.shiftr v 8); u8 v].
Definition of_be16 (hi lo : Z) : Z := Z.lor (Z.shiftl hi 8) lo.

Lemma of_be16_be16 v :
  (0 ≤ v < 2 ^ 16)%Z -> of_be16 (u8 (Z.shiftr v 8)) (u8 v) = v.
Proof.
  intros Hv. unfold of_be16, u8. apply Z.bits_inj'. intros i Hi.
  rewrite Z.lor_spec, Z.shiftl_spec, !testbit_wrap by lia.
  destruct (decide (i < 8)%Z).
  - rewrite (bool_decide_true (i < 8)%Z) by done.
    rewrite (Z.testbit_neg_r _ (i - 8)) by lia. by rewrite andb_false_r.
  - rewrite (bool_decide_false (i < 8)%Z) by done. rewrite Z.shiftr_spec by lia.
    replace (i - 8 + 8)%Z with i by lia. cbn. rewrite orb_false_r.
    case_bool_decide; [done|]. symmetry. apply (testbit_high 16); lia.
Qed.

Lemma lor_range n a b :
  (0 ≤ a < 2 ^ n)%Z -> (0 ≤ b < 2 ^ n)%Z -> (0 ≤ Z.lor a b < 2 ^ n)%Z.
Proof.
  intros Ha Hb. assert (0 ≤ Z.lor a b)%Z by (apply Z.lor_nonneg; lia). split; [done|].
  assert (0 ≤ n)%Z by (destruct (decide (0 ≤ n)%Z); [done|rewrite Z.pow_neg_r in Ha; lia]).
  destruct (decide (Z.lor a b = 0)%Z) as [->|]; [lia|].
  destruct (decide (n = 0)%Z) as [->|].
  { assert (a = 0 /\ b = 0)%Z as [-> ->] by lia. done. }
  apply Z.log2_lt_pow2; [lia|]. rewrite Z.log2_lor by lia.
  apply Z.max_lub_lt; (destruct (decide (a = 0)%Z), (decide (b = 0)%Z); subst; cbn; try lia);
    apply Z.log2_lt_pow2; lia.
Qed.

Lemma land_range n a b :
  (0 ≤ n)%Z -> (0 ≤ b < 2 ^ n)%Z -> (0 ≤ Z.land a b < 2 ^ n)%Z.
Proof.
  intros Hn Hb. rewrite <- (wrap_small n b Hb). unfold wrap.
  rewrite <- Z.land_ones, Z.land_assoc, Z.land_ones by done.
  apply Z.mod_pos_bound. by apply Z.pow_pos_nonneg.
Qed.

Lemma of_be16_range hi lo : byte_ok hi -> byte_ok lo -> (0 ≤ of_be16 hi lo < 2 ^ 16)%Z.
Proof.
  unfold byte_ok. intros Hh Hl. apply lor_range; [|lia].
  rewrite Z.shiftl_mul_pow2 by lia. lia.
Qed.

Lemma length_be16 v : length (be16 v) = 2.
Proof. done. Qed.

Lemma be16_bytes v : bytes_ok (be16 v).
Proof. repeat constructor; apply u8_range. Qed.
#[export] Hint Resolve be16_bytes : vpn.

(** [chunks(k)]: consecutive groups of [k], the last one possibly shorter. *)
Fixpoint chunks_go {A} (fuel k : nat) (l : list A) : list (list A) :=
  match fuel, l with
  | S fuel, _ :: _ => take k l :: chunks_go fuel k (drop k l)
  | _, _ => []
  end.
Definition chunks {A} (k : nat) (l : list A) : list (list A) := chunks_go (length l) k l.

Lemma chunks_go_fuel {A} k n m (l : list A) :
  0 < k -> length l ≤ n -> length l ≤ m -> chunks_go n k l = chunks_go m k l.
Proof.
  intros Hk. revert m l. induction n as [|n IH]; intros [|m] [|x l] Hn Hm;
    cbn in *; try done; try lia.
  f_equal. apply IH; rewrite length_drop; cbn; lia.
Qed.

Lemma chunks_step {A} k (l : list A) :
  0 < k -> l <> [] -> chunks k l = take k l :: chunks k (drop k l).
Proof.
  intros Hk Hl. destruct l as [|x l]; [done|]. unfold chunks at 1. cbn [length chunks_go].
  f_equal. apply chunks_go_fuel; rewrite ?length_drop; cbn; lia.
Qed.

(** Induction on the groups of a list. *)
Lemma chunks_ind {A} k (P : list A -> Prop) :
  0 < k -> P [] -> (forall l, l <> [] -> P (drop k l) -> P l) -> forall l, P l.
Proof.
  intros Hk H0 HS l.
  remember (length l) as n eqn:Hn. revert l Hn.
  induction n as [n IH] using lt_wf_ind. intros l ->.
  destruct l as [|x l]; [done|]. apply HS; [done|].
  eapply IH; [|done]. rewrite length_drop. cbn. lia.
Qed.

Lemma concat_chunks {A} k (l : list A) : 0 < k -> mjoin (chunks k l) = l.
Proof.
  intros Hk. revert l. apply (chunks_ind k); [done..|intros l Hl IH].
  rewrite chunks_step by done. csimpl. by rewrite IH, take_drop.
Qed.

Lemma chunks_bounds {A} k (l : list A) :
  0 < k -> Forall (fun c => 0 < length c ≤ k) (chunks k l).
Proof.
  intros Hk. revert l. apply (chunks_ind k); [done|constructor|intros l Hl IH].
  rewrite chunks_step by done. constructor; [|done].
  rewrite length_take. destruct l; cbn in *; [done|lia].
Qed.

(** The number of groups is the rounded-up quotient. *)
Lemma length_chunks {A} k (l : list A) :
  0 < k -> length (chunks k l) = (length l + k - 1) `div` k.
Proof.
  intros Hk. revert l. apply (chunks_ind k); [done| |intros l Hl IH].
  - cbn. rewrite Nat.div_small by lia. done.
  - rewrite chunks_step by done. cbn [length]. rewrite IH, length_drop.
    assert (0 < length l) by (destruct l; [done|cbn; lia]).
    destruct (decide (length l ≤ k)).
    + replace (length l - k + k - 1) with (k - 1) by lia.
      rewrite Nat.div_small by lia.
      replace (length l + k - 1) with (1 * k + (length l - 1)) by lia.
      rewrite Nat.div_add_l, Nat.div_small by lia. lia.
    + replace (length l + k - 1) with (1 * k + (length l - k + k - 1)) by lia.
      rewrite Nat.div_add_l by lia. lia.
Qed.
