(* ===== verification/Text.v ===== *)
(** * Text

    The parts of the standard library that the source applies to strings (their
    UTF-8 bytes here): trimming, splitting, prefixes, and decimal numbers both
    ways. *)
From S2P Require Import Prelude.

(** ** Definitions *)

(** The UTF-8 encodings of the characters [str::trim] removes (Unicode
    White_Space). *)
Definition WHITE_SPACE : list bytes :=
  [[9]; [10]; [11]; [12]; [13]; [32]; [194; 133]; [194; 160]; [225; 154; 128];
   [226; 128; 128]; [226; 128; 129]; [226; 128; 130]; [226; 128; 131]; [226; 128; 132];
   [226; 128; 133]; [226; 128; 134]; [226; 128; 135]; [226; 128; 136]; [226; 128; 137];
   [226; 128; 138]; [226; 128; 168]; [226; 128; 169]; [226; 128; 175]; [226; 129; 159];
   [227; 128; 128]]%Z.

Fixpoint first_match (ws : list bytes) (s : bytes) : option bytes :=
  match ws with
  | [] => None
  | w :: ws => if decide (take (length w) s = w) then Some (drop (length w) s) else first_match ws s
  end.

Fixpoint trim_go (fuel : nat) (ws : list bytes) (s : bytes) : bytes :=
  match fuel with
  | O => s
  | S fuel => match first_match ws s with Some s' => trim_go fuel ws s' | None => s end
  end.

Definition trim_start (s : bytes) : bytes := trim_go (length s) WHITE_SPACE s.
Definition trim_end (s : bytes) : bytes :=
  reverse (trim_go (length s) (reverse <$> WHITE_SPACE) (reverse s)).
Definition trim (s : bytes) : bytes := trim_end (trim_start s).

(** [Display] of an integer of at most 64 bits. *)
Fixpoint decimal_go (fuel : nat) (n : Z) (acc : bytes) : bytes :=
  match fuel with
  | O => acc
  | S fuel =>
      let acc := (48 + n mod 10)%Z :: acc in
      if decide (n / 10 = 0)%Z then acc else decimal_go fuel (n / 10) acc
  end.
Definition decimal (n : Z) : bytes :=
  if decide (n < 0)%Z then b8 "-" :: decimal_go 20 (- n) [] else decimal_go 20 n [].

(** [str::parse] at an unsigned type: an optional [+], then at least one decimal
    digit, up to the bound of the type. *)
Fixpoint parse_digits (acc : Z) (s : bytes) : option Z :=
  match s with
  | [] => Some acc
  | c :: s =>
      if decide (48 ≤ c ≤ 57)%Z then parse_digits (acc * 10 + (c - 48)) s else None
  end.

Definition parse_uint (max : Z) (s : bytes) : option Z :=
  let digits := match s with c :: s' => if decide (c = b8 "+") then s' else s | [] => s end in
  match digits with
  | [] => None
  | _ => n ← parse_digits 0 digits; if decide (n ≤ max)%Z then Some n else None
  end.

(** [rsplit_once] and [split_once]. *)
Fixpoint rsplit_once (sep : Z) (s : bytes) : option (bytes * bytes) :=
  match s with
  | [] => None
  | c :: s' =>
      match rsplit_once sep s' with
      | Some (a, b) => Some (c :: a, b)
      | None => if decide (c = sep) then Some ([], s') else None
      end
  end.

Fixpoint split_once (sep : Z) (s : bytes) : option (bytes * bytes) :=
  match s with
  | [] => None
  | c :: s =>
      if decide (c = sep) then Some ([], s)
      else '(a, b) ← split_once sep s; Some (c :: a, b)
  end.

(** [strip_prefix]. *)
Fixpoint strip_prefix (p s : bytes) : option bytes :=
  match p, s with
  | [], _ => Some s
  | c :: p, c' :: s => if decide (c = c') then strip_prefix p s else None
  | _ :: _, [] => None
  end.

(** [u8::is_ascii_digit]. *)
Definition is_ascii_digit (c : Z) : bool := bool_decide (48 ≤ c ≤ 57)%Z.

(** [u8::is_ascii_whitespace], [split_ascii_whitespace], [eq_ignore_ascii_case]. *)
Definition is_ascii_whitespace (c : Z) : bool := bool_decide (c ∈ [32; 9; 10; 12; 13]%Z).
Definition words (s : bytes) : list bytes := filter (fun w => w <> []) (split_on is_ascii_whitespace s).
Definition eq_ignore_ascii_case (a b : bytes) : bool :=
  bool_decide (to_ascii_lower <$> a = to_ascii_lower <$> b).

(** [join] with a string between. *)
Fixpoint join_text (sep : bytes) (ls : list bytes) : bytes :=
  match ls with
  | [] => []
  | [l] => l
  | l :: ls => l ++ sep ++ join_text sep ls
  end.

(** [str::contains] of a string. *)
Fixpoint str_contains (needle s : bytes) : bool :=
  bool_decide (is_Some (strip_prefix needle s)) || match s with [] => false | _ :: s => str_contains needle s end.

(** [split_whitespace]: the pieces between Unicode white space, none empty. *)
Fixpoint split_whitespace_go (fuel : nat) (word : bytes) (s : bytes) : list bytes :=
  match fuel with
  | O => []
  | S fuel =>
      match s with
      | [] => if decide (word = []) then [] else [word]
      | c :: s' =>
          match first_match WHITE_SPACE s with
          | Some r => if decide (word = []) then split_whitespace_go fuel [] r else word :: split_whitespace_go fuel [] r
          | None => split_whitespace_go fuel (word ++ [c]) s'
          end
      end
  end.
Definition split_whitespace (s : bytes) : list bytes := split_whitespace_go (S (length s)) [] s.

(** [str::replace] of a pattern that is not empty. *)
Fixpoint str_replace_go (fuel : nat) (pat w s : bytes) : bytes :=
  match fuel, s with
  | O, _ | _, [] => s
  | S fuel, c :: s' =>
      match strip_prefix pat s with
      | Some r => w ++ str_replace_go fuel pat w r
      | None => c :: str_replace_go fuel pat w s'
      end
  end.
Definition str_replace (pat w s : bytes) : bytes := str_replace_go (length s) pat w s.

(** The characters of a UTF-8 text, each as its bytes. *)
Fixpoint chars (s : bytes) : list bytes :=
  match s with
  | [] => []
  | c :: s =>
      match chars s with
      | (d :: w) :: ws => if bool_decide (0x80 ≤ d < 0xC0)%Z then (c :: d :: w) :: ws else [c] :: (d :: w) :: ws
      | ws => [c] :: ws
      end
  end.

(** ** Lemmas *)

Lemma rsplit_once_spec sep s a b :
  rsplit_once sep s = Some (a, b) -> s = a ++ sep :: b /\ sep ∉ b.
Proof.
  revert a. induction s as [|c s IH]; intros a H; cbn in H; [done|].
  destruct (rsplit_once sep s) as [[a' b']|] eqn:E.
  - injection H as <- <-. by destruct (IH a' eq_refl) as [-> ?].
  - case_decide as Hc; [|done]. injection H as <- <-. subst c. split; [done|]. clear IH.
    revert E. induction s as [|c s IHs]; cbn; intros E; [by apply not_elem_of_nil|].
    destruct (rsplit_once sep s) as [[]|]; [done|]. case_decide; [done|].
    apply not_elem_of_cons. split; [congruence|]. by apply IHs.
Qed.

Lemma parse_digits_nonneg acc s n : (0 ≤ acc)%Z -> parse_digits acc s = Some n -> (0 ≤ n)%Z.
Proof.
  revert acc. induction s as [|c s IH]; intros acc Ha H; cbn in H; [simplify_eq; lia|].
  case_decide; [|done]. apply IH in H; [done|]. lia.
Qed.

Lemma parse_uint_range max s n : parse_uint max s = Some n -> (0 ≤ n ≤ max)%Z.
Proof.
  unfold parse_uint. destruct (match s with [] => s | c :: s' => _ end) as [|c l]; [done|].
  destruct (parse_digits 0 (c :: l)) as [m|] eqn:E; csimpl; [|done].
  case_decide; [|done]. intros [= <-]. apply parse_digits_nonneg in E; lia.
Qed.

Lemma split_once_spec sep s a b :
  split_once sep s = Some (a, b) <-> s = a ++ sep :: b /\ sep ∉ a.
Proof.
  split.
  - revert a. induction s as [|c s IH]; intros a H; cbn in H; [done|].
    case_decide as Hc.
    + injection H as <- <-. subst c. split; [done|]. apply not_elem_of_nil.
    + destruct (split_once sep s) as [[a' b']|]; csimpl in H; [|done]. injection H as <- <-.
      destruct (IH a' eq_refl) as [-> Ha]. split; [done|]. apply not_elem_of_cons. by split.
  - intros [-> Ha]. induction a as [|c a IH]; cbn; [by rewrite decide_True|].
    apply not_elem_of_cons in Ha as [Hc Ha]. rewrite decide_False by done. by rewrite IH.
Qed.

Lemma split_once_None sep s : split_once sep s = None <-> sep ∉ s.
Proof.
  induction s as [|c s IH]; cbn; [split; [|done]; intros _; apply not_elem_of_nil|].
  rewrite not_elem_of_cons. case_decide as Hc; [naive_solver|].
  destruct (split_once sep s) as [[]|]; cbn; naive_solver.
Qed.

Lemma strip_prefix_app p s : strip_prefix p (p ++ s) = Some s.
Proof. induction p as [|c p IH]; cbn; [done|]. by rewrite decide_True. Qed.

Lemma strip_prefix_Some p s r : strip_prefix p s = Some r -> s = p ++ r.
Proof.
  revert s. induction p as [|c p IH]; intros s H; cbn in H; [by injection H|].
  destruct s as [|c' s]; [done|]. case_decide; [|done]. subst. cbn. f_equal. by apply IH.
Qed.

(** ** Decimal numbers *)

Definition digit (c : Z) : Prop := (48 ≤ c ≤ 57)%Z.

Lemma parse_digits_app acc l1 l2 :
  parse_digits acc (l1 ++ l2) = (n ← parse_digits acc l1; parse_digits n l2).
Proof.
  revert acc. induction l1 as [|c l1 IH]; intros acc; cbn; [done|]. case_decide; [apply IH|done].
Qed.

Lemma parse_digits_Some acc l : Forall digit l -> is_Some (parse_digits acc l).
Proof.
  intros Hl. revert acc. induction Hl as [|c l Hc _ IH]; intros acc; cbn; [by eexists|].
  by rewrite decide_True.
Qed.

Lemma decimal_go_spec fuel n acc :
  (0 ≤ n < 10 ^ Z.of_nat fuel)%Z -> 0 < fuel ->
  exists ds, decimal_go fuel n acc = ds ++ acc /\ Forall digit ds /\ ds <> []
    /\ parse_digits 0 ds = Some n.
Proof.
  revert n acc. induction fuel as [|fuel IH]; intros n acc Hn Hf; [lia|]. cbn [decimal_go].
  pose proof (Z.mod_pos_bound n 10 ltac:(lia)) as Hm. pose proof (Z.div_mod n 10 ltac:(lia)) as Hd.
  assert (digit (48 + n mod 10)) as Hdig by (unfold digit; lia).
  case_decide as E.
  - exists [(48 + n mod 10)%Z]. split_and!; [done|by constructor|done|].
    cbn. rewrite decide_True by done. f_equal. lia.
  - rewrite Nat2Z.inj_succ, Z.pow_succ_r in Hn by lia.
    assert (0 ≤ n / 10)%Z by (apply Z.div_pos; lia).
    assert (n / 10 < 10 ^ Z.of_nat fuel)%Z by (apply Z.div_lt_upper_bound; lia).
    destruct fuel as [|fuel]; [cbn in *; lia|].
    destruct (IH (n / 10)%Z ((48 + n mod 10) :: acc)%Z) as (ds & E1 & Hds & Hne & Hp); [lia..|].
    exists (ds ++ [(48 + n mod 10)%Z]). split_and!.
    + rewrite E1. by rewrite <- app_assoc.
    + apply Forall_app. by split; [|constructor].
    + by destruct ds.
    + rewrite parse_digits_app, Hp. cbn. rewrite decide_True by done. f_equal. lia.
Qed.

(** Every [u64] prints as digits that parse back to it. *)
Lemma decimal_spec n :
  (0 ≤ n < 2 ^ 64)%Z ->
  Forall digit (decimal n) /\ decimal n <> [] /\ parse_digits 0 (decimal n) = Some n.
Proof.
  intros Hn. unfold decimal. rewrite decide_False by lia.
  destruct (decimal_go_spec 20 n []) as (ds & -> & H); [cbn; lia|lia|]. by rewrite app_nil_r.
Qed.

Lemma decimal_digits n : (0 ≤ n < 2 ^ 64)%Z -> Forall digit (decimal n).
Proof. intros Hn. by apply decimal_spec. Qed.

Lemma digits_uint max l :
  l <> [] -> Forall digit l ->
  parse_uint max l = n ← parse_digits 0 l; if decide (n ≤ max)%Z then Some n else None.
Proof.
  intros Hne Hl. unfold parse_uint. destruct l as [|c l]; [done|].
  inversion Hl as [|? ? Hc]; subst. unfold digit in Hc.
  rewrite (decide_False (P := c = b8 "+")); [done|]. unfold b8. cbn. lia.
Qed.

Lemma parse_uint_decimal max n :
  (0 ≤ n < 2 ^ 64)%Z -> (n ≤ max)%Z -> parse_uint max (decimal n) = Some n.
Proof.
  intros Hn Hm. destruct (decimal_spec n Hn) as (Hd & Hne & Hp).
  rewrite digits_uint by done. rewrite Hp. cbn. by rewrite decide_True.
Qed.

Lemma decimal_inj n m :
  (0 ≤ n < 2 ^ 64)%Z -> (0 ≤ m < 2 ^ 64)%Z -> decimal n = decimal m -> n = m.
Proof.
  intros Hn Hm E. destruct (decimal_spec n Hn) as (_ & _ & Hp).
  destruct (decimal_spec m Hm) as (_ & _ & Hq). rewrite E in Hp. congruence.
Qed.

(** Digits are over at the first other character. *)
Fixpoint span {A} (p : A -> bool) (l : list A) : list A * list A :=
  match l with
  | [] => ([], [])
  | x :: l' => if p x then let '(a, b) := span p l' in (x :: a, b) else ([], l)
  end.

Lemma span_app {A} (p : A -> bool) l1 x l2 :
  Forall (fun x => p x = true) l1 -> p x = false -> span p (l1 ++ x :: l2) = (l1, x :: l2).
Proof.
  intros Hl Hx. induction Hl as [|y l1 Hy _ IH]; cbn; [by rewrite Hx|]. by rewrite Hy, IH.
Qed.

Lemma span_decimal n c s :
  (0 ≤ n < 2 ^ 64)%Z -> is_ascii_digit c = false ->
  span is_ascii_digit (decimal n ++ c :: s) = (decimal n, c :: s).
Proof.
  intros Hn Hc. apply span_app; [|done]. eapply Forall_impl; [by apply decimal_digits|].
  intros d Hd. by apply bool_decide_eq_true_2.
Qed.

(** [uN::from_str_radix(_, 16)]: an optional [+], then hexadecimal digits. *)
Definition hex_value (c : Z) : option Z :=
  if decide (48 ≤ c ≤ 57)%Z then Some (c - 48)%Z
  else if decide (97 ≤ c ≤ 102)%Z then Some (c - 97 + 10)%Z
  else if decide (65 ≤ c ≤ 70)%Z then Some (c - 65 + 10)%Z
  else None.

Fixpoint parse_hex_digits (acc : Z) (s : bytes) : option Z :=
  match s with
  | [] => Some acc
  | c :: s => d ← hex_value c; parse_hex_digits (acc * 16 + d) s
  end.

Definition parse_hex (max : Z) (s : bytes) : option Z :=
  let digits := match s with c :: s' => if decide (c = b8 "+") then s' else s | [] => s end in
  match digits with
  | [] => None
  | _ => n ← parse_hex_digits 0 digits; if decide (n ≤ max)%Z then Some n else None
  end.

Lemma hex_value_range c d : hex_value c = Some d -> (0 ≤ d < 16)%Z.
Proof. unfold hex_value. repeat case_decide; intros; simplify_eq; lia. Qed.

Lemma parse_hex_digits_nonneg acc s n :
  (0 ≤ acc)%Z -> parse_hex_digits acc s = Some n -> (0 ≤ n)%Z.
Proof.
  revert acc. induction s as [|c s IH]; intros acc Ha H; cbn in H; [simplify_eq; lia|].
  destruct (hex_value c) as [d|] eqn:E; cbn in H; [|done]. apply hex_value_range in E.
  apply IH in H; [done|]. lia.
Qed.

Lemma parse_hex_range max s n : parse_hex max s = Some n -> (0 ≤ n ≤ max)%Z.
Proof.
  unfold parse_hex. destruct (match s with [] => s | c :: s' => _ end) as [|c l]; [done|].
  destruct (parse_hex_digits 0 (c :: l)) as [m|] eqn:E; csimpl; [|done].
  case_decide; [|done]. intros [= <-]. apply parse_hex_digits_nonneg in E; lia.
Qed.

(** ** Trimming leaves printable text alone *)

Definition graph (c : Z) : Prop := (33 ≤ c ≤ 126)%Z.
#[export] Instance graph_dec c : Decision (graph c).
Proof. unfold graph. apply _. Defined.

Lemma white_space_bytes : Forall (fun w => exists d w', w = d :: w' /\ ~ graph d) WHITE_SPACE
  /\ Forall (fun w => exists d w', w = d :: w' /\ ~ graph d) (reverse <$> WHITE_SPACE).
Proof.
  unfold graph. split; unfold WHITE_SPACE; cbn [fmap list_fmap]; cbv [reverse rev_append];
    repeat constructor; eexists _, _; (split; [reflexivity|lia]).
Qed.

Lemma first_match_None ws c s :
  Forall (fun w => exists d w', w = d :: w' /\ ~ graph d) ws -> graph c ->
  first_match ws (c :: s) = None.
Proof.
  intros Hws Hc. induction Hws as [|w ws (d & w' & -> & Hd) _ IH]; cbn [first_match]; [done|].
  rewrite decide_False; [done|]. cbn [length take]. intros [= -> _]. done.
Qed.

Lemma trim_go_id fuel ws s :
  Forall (fun w => exists d w', w = d :: w' /\ ~ graph d) ws ->
  (forall c, head s = Some c -> graph c) -> s <> [] -> trim_go fuel ws s = s.
Proof.
  intros Hws Hc Hne. destruct fuel as [|fuel]; [done|]. cbn [trim_go].
  destruct s as [|c s]; [done|]. rewrite first_match_None; [done|done|]. by apply Hc.
Qed.

Lemma trim_id s : s <> [] -> Forall graph s -> trim s = s.
Proof.
  intros Hne Hs. destruct white_space_bytes as [H1 H2]. unfold trim, trim_end, trim_start.
  assert (forall t : bytes, Forall graph t -> forall c, head t = Some c -> graph c) as Hh.
  { intros t Ht c E. destruct Ht; by simplify_eq/=. }
  rewrite (trim_go_id _ _ s) by (done || by apply Hh).
  rewrite trim_go_id, reverse_involutive; [done|done| |].
  - apply Hh. by apply Forall_reverse.
  - intros E. apply Hne. rewrite <- (reverse_involutive s), E. done.
Qed.

Lemma digits_graph s : Forall digit s -> Forall graph s.
Proof. intros Hs. eapply Forall_impl; [exact Hs|]. unfold digit, graph. lia. Qed.

Lemma trim_decimal n : (0 ≤ n < 2 ^ 64)%Z -> trim (decimal n) = decimal n.
Proof.
  intros Hn. destruct (decimal_spec n Hn) as (Hd & Hne & _). apply trim_id; [done|].
  by apply digits_graph.
Qed.

(** ** UTF-8 *)

Definition cont_in (lo hi c : Z) : bool := bool_decide (lo ≤ c)%Z && bool_decide (c ≤ hi)%Z.

(** [str::from_utf8] accepts exactly the well-formed byte sequences of Unicode
    (table 3-7 of the standard). *)
Fixpoint utf8_valid (s : bytes) : bool :=
  match s with
  | [] => true
  | a :: s1 =>
      if cont_in 0 127 a then utf8_valid s1 else
      match s1 with
      | [] => false
      | b :: s2 =>
          if cont_in 194 223 a then cont_in 128 191 b && utf8_valid s2 else
          match s2 with
          | [] => false
          | c :: s3 =>
              let lead2 :=
                if decide (a = 224)%Z then cont_in 160 191 b
                else if decide (a = 237)%Z then cont_in 128 159 b
                else (cont_in 225 236 a || cont_in 238 239 a) && cont_in 128 191 b in
              if lead2 then cont_in 128 191 c && utf8_valid s3 else
              match s3 with
              | [] => false
              | d :: s4 =>
                  let lead3 :=
                    if decide (a = 240)%Z then cont_in 144 191 b
                    else if decide (a = 244)%Z then cont_in 128 143 b
                    else cont_in 241 243 a && cont_in 128 191 b in
                  lead3 && cont_in 128 191 c && cont_in 128 191 d && utf8_valid s4
              end
          end
      end
  end.

Lemma utf8_ascii s : Forall (fun c => 0 ≤ c < 128)%Z s -> utf8_valid s = true.
Proof.
  induction 1 as [|c s Hc _ IH]; [done|]. cbn [utf8_valid]. unfold cont_in.
  by rewrite !bool_decide_true by lia.
Qed.
