(* ===== verification/QqDns.v ===== *)
(** * QQ-DNS message framing ([src/src/qqdns/dns.rs])

    Building and parsing the DNS messages that carry the tunnel: wire-encoded
    names, the query the sender emits, the question parser of the
    authoritative side, the empty NOERROR answer, and the suffix match that
    recognises our own domains.  [resolve_addr] is a call of the resolver of
    the operating system and is not modelled. *)
From S2P Require Import Prelude Text.

Inductive DnsError : Set := Malformed | NotAQuery.

#[export] Instance DnsError_eq_dec : EqDecision DnsError.
Proof. solve_decision. Defined.

Definition MAX_QNAME_TOTAL_LEN : nat := 255.

(** ** Names *)

Definition is_dot (c : Z) : bool := bool_decide (c = b8 ".").

Definition lower_label (l : bytes) : bytes := to_ascii_lower <$> l.

Definition is_nonempty (l : bytes) : bool :=
  match l with [] => false | _ :: _ => true end.

Definition label_domain (domain : bytes) : list bytes :=
  lower_label <$> List.filter is_nonempty (split_on is_dot domain).

(** One length-prefixed label: [label.len() as u8], then the bytes. *)
Definition wire_label (l : bytes) : bytes := u8 (Z.of_nat (length l)) :: l.

Definition encode_qname (domain : bytes) : bytes :=
  foldl (fun out label => if is_nonempty label then out ++ wire_label label else out)
    [] (split_on is_dot domain) ++ [0%Z].

(** The [while i < data.len()] loop of [insert_dots].  A zero [max_sub] never
    reaches the loop: the capacity computation divides by it. *)
Fixpoint insert_dots_loop {E} (fuel : nat) (data : bytes) (max_sub i : nat) (out : bytes)
    : result E bytes :=
  match fuel with
  | O => Stuck OutOfFuel
  | S fuel =>
      if decide (i < length data) then
        let end_ := (i + max_sub) `min` length data in
        seg ← slice data i end_;
        insert_dots_loop fuel data max_sub end_ (out ++ wire_label seg)
      else Ok out
  end.

Definition insert_dots {E} (data : bytes) (max_sub : nat) : result E bytes :=
  if decide (max_sub = 0) then Stuck Panicked
  else insert_dots_loop (S (length data)) data max_sub 0 [].

(** ** Messages *)

Definition build_dns_query (qname_encoded : bytes) (q_id qtype : Z) : bytes :=
  be16 q_id ++ be16 256 ++ be16 1 ++ be16 0 ++ be16 0 ++ be16 0
  ++ qname_encoded ++ be16 qtype ++ be16 1.

Record ParsedQuery : Set := mkParsedQuery {
  qid : Z;
  qflags : Z;
  labels : list bytes;
  qtype : Z;
  next_question : nat;
}.

Definition index_be16 {E} (data : bytes) (i : nat) : result E Z :=
  hi ← index data i; lo ← index data (i + 1); mret (of_be16 hi lo).

Fixpoint handle_question_loop (fuel : nat) (data : bytes) (offset : nat)
    (labels : list bytes) (total_len : nat)
    : result DnsError (list bytes * Z * nat) :=
  match fuel with
  | O => Stuck OutOfFuel
  | S fuel =>
      let len_data := length data in
      if decide (offset < len_data) then
        b ← index data offset;
        let label_len := Z.to_nat b in
        if decide (label_len = 0) then
          if decide (len_data < offset + 5) then Err Malformed else
          qtype ← index_be16 data (offset + 1);
          qclass ← index_be16 data (offset + 3);
          if decide (qclass <> 1%Z) then Err Malformed
          else Ok (labels, qtype, offset + 5)
        else if decide (63 < label_len) then Err Malformed
        else
          let start := offset + 1 in
          let offset := start + label_len in
          if decide (len_data < offset) then Err Malformed else
          let total_len := total_len + (1 + label_len) in
          if decide (MAX_QNAME_TOTAL_LEN < total_len) then Err Malformed else
          label ← slice data start offset;
          handle_question_loop fuel data offset (labels ++ [lower_label label]) total_len
      else Err Malformed
  end.

Definition handle_question (data : bytes) (offset : nat)
    : result DnsError (list bytes * Z * nat) :=
  handle_question_loop (S (length data)) data offset [] 0.

Definition handle_dns_request (data : bytes) : result DnsError ParsedQuery :=
  if decide (length data < 17) then Err Malformed else
  qid ← index_be16 data 0;
  qflags ← index_be16 data 2;
  qdcount ← index_be16 data 4;
  if decide (qdcount <> 1%Z) then Err Malformed else
  if decide (Z.land qflags 32768 <> 0%Z) then Err NotAQuery else
  '(labels, qtype, next_question) ← handle_question data 12;
  mret (mkParsedQuery qid qflags labels qtype next_question).

Definition response_flags (qflags : Z) : Z :=
  Z.lor (Z.lor 33792 (Z.land qflags 30992))
        (Z.shiftl (Z.b2z (bool_decide (Z.land qflags 30720 <> 0%Z))) 2).

Definition create_noerror_empty_response (qid qflags : Z) (question : bytes) : bytes :=
  be16 qid ++ be16 (response_flags qflags) ++ be16 1 ++ be16 0 ++ be16 0 ++ be16 0
  ++ question.

Fixpoint match_recv_suffix (labels : list bytes) (recv_domains : list (list bytes))
    : option nat :=
  match recv_domains with
  | [] => None
  | rd :: rest =>
      let n := length rd in
      if decide (n = 0 \/ length labels < n) then match_recv_suffix labels rest
      else if decide (drop (length labels - n) labels = rd) then Some n
      else match_recv_suffix labels rest
  end.

(** [host:port], split at the last colon. *)
Definition split_host_port (s : bytes) : option (bytes * Z) :=
  '(host, port) ← rsplit_once (b8 ":") s;
  port ← parse_uint 65535 port;
  Some (host, port).

(** ** Wire names

    The specification of the name encoders: the concatenation of the
    length-prefixed labels. *)
Definition wire_labels (ls : list bytes) : bytes := ls ≫= wire_label.

(** A label the wire format can carry. *)
Definition label_ok (l : bytes) : Prop := 0 < length l ≤ 63 /\ bytes_ok l.

Lemma wire_labels_cons l ls : wire_labels (l :: ls) = wire_label l ++ wire_labels ls.
Proof. done. Qed.

Lemma wire_labels_app ls1 ls2 :
  wire_labels (ls1 ++ ls2) = wire_labels ls1 ++ wire_labels ls2.
Proof. unfold wire_labels. by rewrite bind_app. Qed.

Lemma length_wire_labels ls :
  length (wire_labels ls) = length (mjoin ls) + length ls.
Proof.
  induction ls as [|l ls IH]; [done|]. rewrite wire_labels_cons.
  change (mjoin (l :: ls)) with (l ++ mjoin ls).
  unfold wire_label. rewrite !length_app, IH. cbn. lia.
Qed.

Lemma encode_qname_wire domain :
  encode_qname domain
  = wire_labels (List.filter is_nonempty (split_on is_dot domain)) ++ [0%Z].
Proof.
  unfold encode_qname. f_equal.
  generalize (split_on is_dot domain) as ls. intros ls.
  rewrite <- (app_nil_l (wire_labels _)). generalize (@nil Z) as acc.
  induction ls as [|l ls IH]; intros acc; cbn; [by rewrite app_nil_r|].
  rewrite IH. destruct (is_nonempty l); [|done].
  cbn. by rewrite <- app_assoc.
Qed.

Lemma insert_dots_loop_spec {E} max_sub fuel data i out :
  0 < max_sub -> length data - i < fuel -> i ≤ length data ->
  insert_dots_loop (E := E) fuel data max_sub i out
  = Ok (out ++ wire_labels (chunks max_sub (drop i data))).
Proof.
  intros Hk. revert i out.
  induction fuel as [|fuel IH]; intros i out Hf Hi; [lia|]. cbn.
  case_decide as Hlt.
  - rewrite slice_ok by lia. cbn. rewrite IH by lia.
    assert (drop i data <> []).
    { intros H%(f_equal length). rewrite length_drop in H. cbn in H. lia. }
    rewrite (chunks_step _ (drop i data)), wire_labels_cons by done.
    rewrite <- app_assoc. do 3 f_equal.
    + f_equal. destruct (decide (i + max_sub ≤ length data)).
      * f_equal; lia.
      * rewrite !take_ge; [done|rewrite length_drop; lia..].
    + rewrite drop_drop. destruct (decide (i + max_sub ≤ length data)).
      * do 3 f_equal. lia.
      * rewrite !drop_ge by lia. done.
  - rewrite drop_ge by lia. cbn. by rewrite app_nil_r.
Qed.

Lemma insert_dots_spec {E} data max_sub :
  0 < max_sub ->
  insert_dots (E := E) data max_sub = Ok (wire_labels (chunks max_sub data)).
Proof.
  intros. unfold insert_dots. rewrite decide_False by lia.
  rewrite insert_dots_loop_spec by lia. done.
Qed.

(** ** The question parser *)

Lemma index_be16_be16 {E} (p : bytes) v tail i :
  i = length p -> (0 ≤ v < 2 ^ 16)%Z ->
  index_be16 (E := E) (p ++ be16 v ++ tail) i = Ok v.
Proof.
  intros -> Hv. unfold index_be16.
  change (be16 v ++ tail) with (u8 (Z.shiftr v 8) :: u8 v :: tail).
  rewrite (index_Some _ (length p) (u8 (Z.shiftr v 8))) by by apply list_lookup_middle.
  cbn. rewrite (index_Some _ (length p + 1) (u8 v)); cbn; [by rewrite of_be16_be16|].
  rewrite cons_middle, app_assoc. apply list_lookup_middle. rewrite length_app. cbn. lia.
Qed.

(** The parser always returns, whatever the datagram. *)
Lemma index_be16_lt {E} (data : bytes) i :
  i + 1 < length data -> exists v, index_be16 (E := E) data i = Ok v.
Proof.
  intros Hi. unfold index_be16.
  destruct (index_lt (E := E) data i) as (hi & _ & ->); [lia|]. cbn.
  destruct (index_lt (E := E) data (i + 1)) as (lo & _ & ->); [lia|]. cbn. eauto.
Qed.

Lemma handle_question_loop_returns fuel data offset ls total :
  length data - offset < fuel ->
  returns (handle_question_loop fuel data offset ls total).
Proof.
  revert offset ls total.
  induction fuel as [|fuel IH]; intros offset ls total Hf; [lia|]. cbn.
  case_decide as Ho; [|done].
  destruct (index_lt (E := DnsError) data offset) as (b & _ & ->); [lia|]. cbn.
  case_decide; [case_decide; [done|]|].
  - destruct (index_be16_lt (E := DnsError) data (offset + 1)) as [? ->]; [lia|].
    destruct (index_be16_lt (E := DnsError) data (offset + 3)) as [? ->]; [lia|].
    cbn. by case_decide.
  - do 3 (case_decide; [done|]). rewrite slice_ok by lia. apply IH. lia.
Qed.

(** What a successful parse guarantees about the labels it returns. *)
Lemma handle_question_loop_bounds fuel data offset ls total res q n :
  bytes_ok data -> total = length (wire_labels ls) -> total ≤ MAX_QNAME_TOTAL_LEN ->
  Forall label_ok ls ->
  handle_question_loop fuel data offset ls total = Ok (res, q, n) ->
  length (wire_labels res) ≤ MAX_QNAME_TOTAL_LEN /\ Forall label_ok res
  /\ offset + 5 ≤ n ≤ length data.
Proof.
  intros Hd. revert offset ls total.
  induction fuel as [|fuel IH]; intros offset ls total Ht Hmax Hls H; [done|].
  cbn in H. case_decide as Ho; [|done]. inv_ok H. case_decide as Hz.
  - case_decide; [done|]. inv_ok H. case_decide; [done|]. inv_ok H. subst.
    simplify_eq. split_and!; [done|done|lia|lia].
  - case_decide as H63; [done|]. case_decide as Hoff; [done|].
    case_decide as Htot; [done|]. rewrite slice_ok in H by lia. cbn in H.
    eapply IH in H as (? & ? & ?); [split_and!; try done; lia| |lia|].
    + rewrite wire_labels_app, length_app. cbn. unfold lower_label.
      rewrite app_nil_r, length_fmap, length_take, length_drop. lia.
    + apply Forall_app. split; [done|]. apply Forall_singleton. split.
      * unfold lower_label. rewrite length_fmap, length_take, length_drop. lia.
      * unfold lower_label. apply Forall_fmap, Forall_take, Forall_drop.
        eapply Forall_impl; [done|]. intros c. unfold byte_ok, compose, to_ascii_lower.
        case_decide; lia.
Qed.

Lemma take_app_exact {A} n (l1 l2 : list A) : n = length l1 -> take n (l1 ++ l2) = l1.
Proof. intros ->. apply take_app_length. Qed.

Lemma drop_app_exact {A} n (l1 l2 : list A) : n = length l1 -> drop n (l1 ++ l2) = l2.
Proof. intros ->. apply drop_app_length. Qed.

(** Parsing reads back the labels of a well-formed name, lowercased. *)
Lemma handle_question_loop_wire fuel p ls qt tail acc total :
  Forall label_ok ls -> (0 ≤ qt < 2 ^ 16)%Z ->
  total + length (wire_labels ls) ≤ MAX_QNAME_TOTAL_LEN -> length ls < fuel ->
  handle_question_loop fuel (p ++ wire_labels ls ++ 0%Z :: be16 qt ++ be16 1 ++ tail)
    (length p) acc total
  = Ok (acc ++ (lower_label <$> ls), qt, length p + length (wire_labels ls) + 5).
Proof.
  intros Hls Hqt. revert p acc total fuel.
  induction Hls as [|l ls [Hl Hb] Hls IH]; intros p acc total fuel Htot Hf;
    (destruct fuel as [|fuel]; [cbn in Hf; lia|]); cbn [handle_question_loop].
  - cbn [wire_labels mbind list_bind app]. rewrite decide_True by (rewrite length_app; cbn; lia).
    rewrite (index_Some _ (length p) 0%Z) by by apply list_lookup_middle. cbn [mbind result_bind].
    rewrite decide_True by done.
    rewrite decide_False by (rewrite length_app; cbn; lia).
    rewrite cons_middle, (app_assoc p).
    rewrite (index_be16_be16 (p ++ [0%Z]) qt _ (length p + 1)) by (rewrite ?length_app; done). cbn [mbind result_bind].
    rewrite (app_assoc (p ++ _)), (index_be16_be16 ((p ++ _) ++ be16 qt) 1 _ (length p + 3))
      by (rewrite ?length_app; cbn; lia).
    cbn [mbind result_bind]. rewrite decide_False by (intros ?; congruence).
    rewrite app_nil_r. cbn. do 2 f_equal. lia.
  - rewrite wire_labels_cons in *. unfold wire_label in *. cbn [app] in *.
    rewrite length_cons, length_app in Htot.
    rewrite decide_True by (rewrite length_app; cbn; lia).
    rewrite (index_Some _ (length p) (u8 (Z.of_nat (length l)))) by by apply list_lookup_middle.
    cbn [mbind result_bind].
    rewrite u8_small by (unfold byte_ok; lia). rewrite Nat2Z.id.
    rewrite decide_False, decide_False by lia.
    rewrite decide_False by (rewrite !length_app, length_cons, !length_app; lia).
    unfold MAX_QNAME_TOTAL_LEN in *. rewrite decide_False by lia.
    rewrite slice_ok by (rewrite ?length_app, ?length_cons, ?length_app; lia).
    cbn [mbind result_bind]. set (u := Z.of_nat (length l)).
    rewrite cons_middle, (app_assoc p).
    rewrite (drop_app_exact _ (p ++ [u])) by (rewrite length_app; cbn; lia).
    rewrite <- (app_assoc l), take_app_exact by lia.
    rewrite (app_assoc (p ++ [u]) l). replace (length p + 1 + length l)
      with (length ((p ++ [u]) ++ l)) by (rewrite !length_app; cbn; lia).
    rewrite IH by (cbn in *; lia).
    cbn [fmap list_fmap]. rewrite <- !app_assoc, !length_app. cbn [app length].
    do 2 f_equal. rewrite length_app. lia.
Qed.

Definition query_header (q_id : Z) : bytes :=
  be16 q_id ++ be16 256 ++ be16 1 ++ be16 0 ++ be16 0 ++ be16 0.

(** A datagram that starts with this id, these flags and a QDCOUNT of one is
    parsed by its question. *)
Lemma handle_dns_request_header i f rest :
  (0 ≤ i < 2 ^ 16)%Z -> (0 ≤ f < 2 ^ 16)%Z -> 5 ≤ length rest ->
  handle_dns_request
    (be16 i ++ be16 f ++ be16 1 ++ be16 0 ++ be16 0 ++ be16 0 ++ rest)
  = (if decide (Z.land f 32768 <> 0%Z) then Err NotAQuery else
     '(ls, q, n) ← handle_question
        (be16 i ++ be16 f ++ be16 1 ++ be16 0 ++ be16 0 ++ be16 0 ++ rest) 12;
     mret (mkParsedQuery i f ls q n)).
Proof.
  intros Hi Hf Hr. unfold handle_dns_request.
  rewrite decide_False by (rewrite !length_app, !length_be16; lia).
  pose proof (index_be16_be16 (E := DnsError) []) as E0. cbn [app] in E0.
  rewrite (E0 i _ 0) by done. cbn [mbind result_bind].
  rewrite (index_be16_be16 (be16 i) f _ 2) by done. cbn [mbind result_bind].
  rewrite (app_assoc (be16 i)), (index_be16_be16 (be16 i ++ be16 f) 1 _ 4) by done.
  cbn [mbind result_bind]. rewrite decide_False by (intros ?; congruence).
  rewrite <- !app_assoc. done.
Qed.

Lemma handle_dns_request_wire q_id f ls qt :
  Forall label_ok ls -> (0 ≤ q_id < 2 ^ 16)%Z -> (0 ≤ f < 2 ^ 16)%Z ->
  Z.land f 32768 = 0%Z -> (0 ≤ qt < 2 ^ 16)%Z ->
  length (wire_labels ls) ≤ MAX_QNAME_TOTAL_LEN ->
  handle_dns_request
    (be16 q_id ++ be16 f ++ be16 1 ++ be16 0 ++ be16 0 ++ be16 0
     ++ (wire_labels ls ++ [0%Z]) ++ be16 qt ++ be16 1)
  = Ok (mkParsedQuery q_id f (lower_label <$> ls) qt
          (12 + (length (wire_labels ls) + 1) + 4)).
Proof.
  intros Hls Hid Hf Hq Hqt Hlen.
  rewrite handle_dns_request_header by
    (done || (rewrite !length_app, !length_be16; cbn; lia)).
  rewrite decide_False by (intros ?; congruence).
  unfold handle_question.
  set (h := be16 q_id ++ be16 f ++ be16 1 ++ be16 0 ++ be16 0 ++ be16 0).
  match goal with |- context [S (length ?d)] =>
    replace d with (h ++ wire_labels ls ++ 0%Z :: be16 qt ++ be16 1 ++ [])
      by (unfold h; rewrite <- !app_assoc; reflexivity)
  end.
  change 12 with (length h) at 1. rewrite handle_question_loop_wire.
  - cbn. do 2 f_equal. lia.
  - done.
  - done.
  - lia.
  - rewrite !length_app, length_wire_labels. lia.
Qed.

(** ** Answers *)

Lemma index_be16_range {E} (data : bytes) i v :
  bytes_ok data -> index_be16 (E := E) data i = Ok v -> (0 ≤ v < 2 ^ 16)%Z.
Proof.
  intros Hd H. unfold index_be16 in H. inv_ok H. injection H as <-.
  unfold index in *. destruct (data !! i) eqn:E1; [|done]. destruct (data !! (i + 1)) eqn:E2; [|done].
  simplify_eq. apply of_be16_range; by eapply Forall_lookup_1.
Qed.

Lemma handle_dns_request_fields data p :
  bytes_ok data -> handle_dns_request data = Ok p ->
  (0 ≤ qid p < 2 ^ 16)%Z /\ (0 ≤ qflags p < 2 ^ 16)%Z
  /\ Z.land (qflags p) 32768 = 0%Z
  /\ length (wire_labels (labels p)) ≤ MAX_QNAME_TOTAL_LEN /\ Forall label_ok (labels p)
  /\ 17 ≤ next_question p ≤ length data.
Proof.
  unfold handle_dns_request. intros Hd H. case_decide; [done|]. inv_ok H.
  case_decide; [done|]. case_decide as Hq; [done|]. inv_ok H. destruct x2 as [[ls q] n].
  injection H as <-. cbn. unfold handle_question in Hx2.
  apply handle_question_loop_bounds in Hx2 as (? & ? & ?);
    [|done|done|cbn; lia|constructor].
  split_and!; try done; try lia; try (by eapply index_be16_range);
    try (apply (index_be16_range data 0 _ Hd Hx)); try (apply (index_be16_range data 2 _ Hd Hx0)).
Qed.

Lemma handle_dns_request_returns data : returns (handle_dns_request data).
Proof.
  unfold handle_dns_request. case_decide; [done|].
  destruct (index_be16_lt (E := DnsError) data 0) as [a ->]; [lia|].
  destruct (index_be16_lt (E := DnsError) data 2) as [b ->]; [lia|].
  destruct (index_be16_lt (E := DnsError) data 4) as [c ->]; [lia|].
  cbn [mbind result_bind]. do 2 (case_decide; [done|]).
  apply returns_bind; [apply handle_question_loop_returns; lia|].
  intros [[ls q] n] _. exact I.
Qed.

Lemma response_flags_range f : (0 ≤ response_flags f < 2 ^ 16)%Z.
Proof.
  unfold response_flags. apply lor_range; [apply lor_range; [lia|]|].
  - by apply (land_range 16).
  - by destruct (bool_decide _).
Qed.

Lemma response_flags_qr f : Z.land (response_flags f) 32768 <> 0%Z.
Proof.
  intros H. apply (f_equal (fun z => Z.testbit z 15)) in H.
  unfold response_flags in H. rewrite Z.land_spec, !Z.lor_spec in H. by cbn in H.
Qed.

Lemma response_rejected q_id f question :
  (0 ≤ q_id < 2 ^ 16)%Z -> 5 ≤ length question ->
  handle_dns_request (create_noerror_empty_response q_id f question) = Err NotAQuery.
Proof.
  intros Hq Hl. unfold create_noerror_empty_response.
  pose proof (response_flags_range f).
  rewrite handle_dns_request_header by done.
  by rewrite decide_True by apply response_flags_qr.
Qed.

Lemma question_slice {E} data p :
  bytes_ok data -> handle_dns_request data = Ok p ->
  exists question, slice (E := E) data 12 (next_question p) = Ok question /\ 5 ≤ length question.
Proof.
  intros Hd H. destruct (handle_dns_request_fields _ _ Hd H) as (_ & _ & _ & _ & _ & Hn).
  rewrite slice_ok by lia. eexists. split; [done|]. rewrite length_take, length_drop. lia.
Qed.

(** ** Properties *)

(** C35: parsing an arbitrary datagram never panics and never runs away: the
    parser returns, and what it accepts is a query (QR clear) whose labels
    have 1 to 63 bytes and at most 255 wire bytes together, and whose
    question lies inside the datagram. *)
Theorem handle_dns_request_safe (data : bytes) :
  bytes_ok data ->
  returns (handle_dns_request data)
  /\ forall p, handle_dns_request data = Ok p ->
       Z.land (qflags p) 32768 = 0%Z
       /\ Forall label_ok (labels p)
       /\ length (wire_labels (labels p)) ≤ MAX_QNAME_TOTAL_LEN
       /\ 17 ≤ next_question p ≤ length data.
Proof.
  intros Hd. split; [apply handle_dns_request_returns|]. intros p Hp.
  destruct (handle_dns_request_fields _ _ Hd Hp) as (_ & _ & ? & ? & ? & ?). done.
Qed.

Definition sample_query : bytes :=
  build_dns_query (encode_qname (bstr "Ab.example.com")) 4660 28.

Lemma handle_dns_request_safe_witness :
  bytes_ok sample_query
  /\ returns (handle_dns_request sample_query).
Proof.
  assert (bytes_ok sample_query) as H by evaluate.
  split; [exact H|]. apply (handle_dns_request_safe sample_query H).
Defined.

(** Query round trip.  A query built for a domain whose labels the wire format
    can carry is parsed back into that domain's lowercased labels, with its
    id and type, and the question ends where the message ends. *)
Theorem query_round_trip (domain : bytes) (q_id qt : Z) :
  Forall label_ok (List.filter is_nonempty (split_on is_dot domain)) ->
  length (encode_qname domain) ≤ MAX_QNAME_TOTAL_LEN + 1 ->
  (0 ≤ q_id < 2 ^ 16)%Z -> (0 ≤ qt < 2 ^ 16)%Z ->
  handle_dns_request (build_dns_query (encode_qname domain) q_id qt)
  = Ok (mkParsedQuery q_id 256 (label_domain domain) qt
          (length (build_dns_query (encode_qname domain) q_id qt))).
Proof.
  intros Hl Hlen Hid Hqt. unfold build_dns_query, label_domain.
  rewrite encode_qname_wire in *. rewrite length_app in Hlen. change (length [0%Z]) with 1 in Hlen.
  rewrite handle_dns_request_wire by (done || lia).
  do 2 f_equal. rewrite !length_app. cbn. lia.
Qed.

Lemma query_round_trip_witness :
  label_domain (bstr "Ab.example.com") = [bstr "ab"; bstr "example"; bstr "com"]
  /\ handle_dns_request sample_query
     = Ok (mkParsedQuery 4660 256 (label_domain (bstr "Ab.example.com")) 28 (length sample_query)).
Proof.
  split; [vm_compute; reflexivity|].
  apply (query_round_trip (bstr "Ab.example.com") 4660 28); [|evaluate|lia|lia].
  unfold label_ok. evaluate.
Defined.

(** No response loop.  The answer to any parsed query echoes its question
    behind a 12-byte header and is itself rejected as a response, so two
    engines pointed at each other cannot ping-pong. *)
Theorem response_not_a_query (data : bytes) (p : ParsedQuery) :
  bytes_ok data -> handle_dns_request data = Ok p ->
  exists question,
    slice (E := Empty_set) data 12 (next_question p) = Ok question
    /\ drop 12 (create_noerror_empty_response (qid p) (qflags p) question) = question
    /\ handle_dns_request (create_noerror_empty_response (qid p) (qflags p) question)
       = Err NotAQuery.
Proof.
  intros Hd H. destruct (question_slice (E := Empty_set) _ _ Hd H) as (q & Hq & Hl).
  exists q. split_and!; [done|done|]. apply response_rejected; [|done].
  by destruct (handle_dns_request_fields _ _ Hd H) as [? _].
Qed.

Lemma response_not_a_query_witness :
  exists p question, handle_dns_request sample_query = Ok p
    /\ handle_dns_request (create_noerror_empty_response (qid p) (qflags p) question)
       = Err NotAQuery.
Proof.
  assert (bytes_ok sample_query) as H by evaluate.
  assert (is_Some (result_ok (handle_dns_request sample_query))) as [p Hp]
    by (vm_compute; eexists; reflexivity).
  assert (handle_dns_request sample_query = Ok p) as E
    by (destruct (handle_dns_request sample_query); cbn in Hp; congruence).
  destruct (response_not_a_query sample_query p H E) as (q & _ & _ & Hr).
  exists p, q. split; [exact E|exact Hr].
Defined.

(** Split_host_port accepts exactly [host:port] with the port after the last
    colon, and the port it returns is a 16-bit number. *)
Theorem split_host_port_spec (s : bytes) (host : bytes) (port : Z) :
  split_host_port s = Some (host, port) ->
  exists digits, s = host ++ b8 ":" :: digits /\ b8 ":" ∉ digits
    /\ parse_uint 65535 digits = Some port /\ (0 ≤ port ≤ 65535)%Z.
Proof.
  unfold split_host_port. destruct (rsplit_once (b8 ":") s) as [[h d]|] eqn:E; [|done].
  apply rsplit_once_spec in E as [-> Hd]. csimpl. intros H.
  destruct (parse_uint 65535 d) as [n|] eqn:Hn; [|done]. injection H as <- <-.
  exists d. do 3 (split; [done|]). by apply parse_uint_range in Hn.
Qed.

Lemma split_host_port_spec_witness :
  exists digits, bstr "::1:443" = bstr "::1" ++ b8 ":" :: digits.
Proof.
  destruct (split_host_port_spec (bstr "::1:443") (bstr "::1") 443) as (d & H & _);
    [vm_compute; reflexivity|].
  exists d. exact H.
Defined.
