(* ===== verification/QqCodec.v ===== *)
(** * QQ-DNS wire codec ([src/src/qqdns/codec.rs])

    Base32 without padding, the fixed-width base32 numbers, the computation of
    how much data one name carries, the fragmenter that turns a datagram into
    wire-encoded names and the parser of one fragment's header. *)
From S2P Require Import Prelude QqDns.

Inductive CodecError : Set :=
  | InvalidBase32 (c : Z)
  | UnknownMagic (c : Z)
  | ShortHeader
  | DomainTooSmall.

#[export] Instance CodecError_eq_dec : EqDecision CodecError.
Proof. solve_decision. Defined.

Definition B32_ALPHABET : bytes := bstr "abcdefghijklmnopqrstuvwxyz234567".
Definition DATA_OFFSET_WIDTH : nat := 3.
Definition TOTAL_DATA_OFFSET : Z := Z.shiftl 1 (5 * Z.of_nat DATA_OFFSET_WIDTH).

(** [B32_ALPHABET[v as usize]]; every call masks [v] to five bits. *)
Definition b32_char (v : Z) : Z := B32_ALPHABET !!! Z.to_nat v.

Definition b32_value (c : Z) : Z :=
  if decide (97 ≤ c ≤ 122)%Z then (c - 97)%Z
  else if decide (65 ≤ c ≤ 90)%Z then (c - 65)%Z
  else if decide (50 ≤ c ≤ 55)%Z then (c - 50 + 26)%Z
  else (-1)%Z.

(** ** Base32 strings *)

(** [while nbits >= 5 { nbits -= 5; out.push(..) }]. *)
Fixpoint b32_drain (fuel : nat) (out : bytes) (bits : Z) (nbits : nat) : bytes * nat :=
  match fuel with
  | O => (out, nbits)
  | S fuel =>
      if decide (5 ≤ nbits) then
        let nbits := nbits - 5 in
        b32_drain fuel
          (out ++ [b32_char (Z.land (Z.shiftr bits (Z.of_nat nbits)) 31)]) bits nbits
      else (out, nbits)
  end.

Fixpoint b32_encode_loop (data : bytes) (out : bytes) (bits : Z) (nbits : nat)
    : bytes * Z * nat :=
  match data with
  | [] => (out, bits, nbits)
  | b :: data =>
      let bits := u64 (Z.lor (Z.shiftl bits 8) b) in
      let nbits := nbits + 8 in
      let '(out, nbits) := b32_drain nbits out bits nbits in
      b32_encode_loop data out bits nbits
  end.

Definition b32_encode_nopad_lower (data : bytes) : bytes :=
  let '(out, bits, nbits) := b32_encode_loop data [] 0 0 in
  if decide (0 < nbits) then
    out ++ [b32_char (Z.land (u64 (Z.shiftl bits (5 - Z.of_nat nbits))) 31)]
  else out.

Fixpoint b32_decode_loop (s : bytes) (out : bytes) (bits : Z) (nbits : nat)
    : result CodecError bytes :=
  match s with
  | [] => Ok out
  | c :: s =>
      let v := b32_value c in
      if decide (v < 0)%Z then Err (InvalidBase32 c) else
      let bits := u64 (Z.lor (Z.shiftl bits 5) v) in
      let nbits := nbits + 5 in
      if decide (8 ≤ nbits) then
        let nbits := nbits - 8 in
        b32_decode_loop s (out ++ [u8 (Z.shiftr bits (Z.of_nat nbits))]) bits nbits
      else b32_decode_loop s out bits nbits
  end.

Definition b32_decode_nopad (s : bytes) : result CodecError bytes :=
  b32_decode_loop s [] 0 0.

(** ** Base32 numbers *)

(** [for i in (0..width).rev() { result[i] = ..; n >>= 5 }]. *)
Fixpoint number_to_base32_loop (i : nat) (n : Z) (result : bytes) : bytes :=
  match i with
  | O => result
  | S i => number_to_base32_loop i (Z.shiftr n 5) (<[i := b32_char (Z.land n 31)]> result)
  end.

Definition number_to_base32_lower (n : Z) (width : nat) : bytes :=
  number_to_base32_loop width n (replicate width 0%Z).

Fixpoint base32_to_number_loop (s : bytes) (value : Z) : result CodecError Z :=
  match s with
  | [] => Ok value
  | c :: s =>
      let v := b32_value c in
      if decide (v < 0)%Z then Err (InvalidBase32 c)
      else base32_to_number_loop s (u32 (u32 (Z.shiftl value 5) + v))
  end.

Definition base32_to_number (s : bytes) : result CodecError Z :=
  base32_to_number_loop s 0.

(** ** Fitting data in a name

    [i64] division truncates towards zero; the operands are non-negative
    wherever the quotient is used. *)
Definition compute_max_m (s max_allowed : Z) : Z :=
  if decide (max_allowed ≤ 0)%Z then 0%Z else
  let q := Z.quot max_allowed (s + 1) in
  let remaining := (max_allowed - q * (s + 1))%Z in
  let r := Z.max (remaining - 1) 0 in
  (q * s + r)%Z.

Definition get_chunk_len
    (max_encoded_domain_len qname_encoded_len max_sub_len data_offset_width : Z)
    : result CodecError nat :=
  let max_allowed := (max_encoded_domain_len - qname_encoded_len)%Z in
  let m := compute_max_m max_sub_len max_allowed in
  let chunk_len := (m - data_offset_width - 2)%Z in
  if decide (chunk_len ≤ 0)%Z then Err DomainTooSmall else Ok (Z.to_nat chunk_len).

Record SendDomain : Set := mkSendDomain {
  qname_encoded : bytes;
  chunk_len : nat;
}.

(** ** Fragmenting *)

Definition magic_more (i : nat) : Z :=
  if decide (Z.land (Z.of_nat i) 32 <> 0)%Z then b8 "8" else b8 "0".
Definition magic_last (i : nat) : Z :=
  if decide (Z.land (Z.of_nat i) 32 <> 0)%Z then b8 "9" else b8 "1".

Fixpoint final_domains_loop {E} (fuel : nat) (data data_offset_bytes : bytes)
    (send_domains : list SendDomain) (max_sub_len : nat)
    (send_domain_idx i s_index : nat) (final_domains : list bytes)
    : result E (list bytes) :=
  match fuel with
  | O => Stuck OutOfFuel
  | S fuel =>
      if decide (i = 64) then Ok [] else
      sd ← index send_domains send_domain_idx;
      let send_domain_idx := (send_domain_idx + 1) `mod` length send_domains in
      let end_ := (s_index + chunk_len sd) `min` length data in
      chunk_slice ← slice data s_index end_;
      let s_index := s_index + chunk_len sd in
      let frag_char := b32_char (Z.land (Z.of_nat i) 31) in
      let c_loop := bool_decide (s_index < length data) in
      let magic := if c_loop then magic_more i else magic_last i in
      let labeled := data_offset_bytes ++ [frag_char] ++ [magic] ++ chunk_slice in
      dotted ← insert_dots labeled max_sub_len;
      let final_domains := final_domains ++ [dotted ++ qname_encoded sd] in
      if c_loop then
        final_domains_loop fuel data data_offset_bytes send_domains max_sub_len
          send_domain_idx (i + 1) s_index final_domains
      else Ok final_domains
  end.

Definition get_base32_final_domains {E} (data : bytes) (data_offset : Z)
    (send_domain_idx : nat) (send_domains : list SendDomain)
    (max_sub_len data_offset_width : nat) : result E (list bytes) :=
  let data := b32_encode_nopad_lower data in
  final_domains_loop 65 data (number_to_base32_lower data_offset data_offset_width)
    send_domains max_sub_len send_domain_idx 0 0 [].

(** ** Parsing a fragment *)

Record ChunkData : Set := mkChunkData {
  data_offset : Z;
  fragment_part : nat;
  last_fragment : bool;
  chunk : bytes;
}.

Definition get_chunk_data (data : bytes) (data_offset_width : nat)
    : result CodecError ChunkData :=
  if decide (length data < data_offset_width + 2) then Err ShortHeader else
  prefix ← slice data 0 data_offset_width;
  data_offset ← base32_to_number prefix;
  frag_c ← index data data_offset_width;
  let frag_raw := b32_value frag_c in
  if decide (frag_raw < 0)%Z then Err (InvalidBase32 frag_c) else
  magic ← index data (data_offset_width + 1);
  '(fragment_part, last_fragment) ←
    (if decide (magic = b8 "0") then Ok (frag_raw, false)
     else if decide (magic = b8 "1") then Ok (frag_raw, true)
     else if decide (magic = b8 "8") then Ok (Z.lor frag_raw 32, false)
     else if decide (magic = b8 "9") then Ok (Z.lor frag_raw 32, true)
     else Err (UnknownMagic magic));
  chunk ← slice data (data_offset_width + 2) (length data);
  mret (mkChunkData data_offset (Z.to_nat fragment_part) last_fragment chunk).

(** ** Alphabet facts, by evaluation *)

Abbreviation digit5 := (fun v => 0 ≤ v < 32)%Z.

Lemma b32_value_char v : digit5 v -> b32_value (b32_char v) = v.
Proof.
  revert v. by apply (forall_below_dec (fun v => b32_value (b32_char v) = v) 32).
Qed.

Lemma b32_char_lower v : digit5 v -> to_ascii_lower (b32_char v) = b32_char v.
Proof.
  revert v.
  by apply (forall_below_dec (fun v => to_ascii_lower (b32_char v) = b32_char v) 32).
Qed.

(** Letters decode alike in both cases. *)
Lemma b32_value_lower c : byte_ok c -> b32_value (to_ascii_lower c) = b32_value c.
Proof.
  revert c.
  by apply (forall_below_dec (fun c => b32_value (to_ascii_lower c) = b32_value c) 256).
Qed.

Lemma b32_char_byte v : digit5 v -> byte_ok (b32_char v).
Proof. revert v. by apply (forall_below_dec (fun v => byte_ok (b32_char v)) 32). Qed.
#[export] Hint Resolve b32_char_byte : vpn.

Lemma land31 z : Z.land z 31 = wrap 5 z.
Proof. apply (Z.land_ones z 5). lia. Qed.

Lemma digit5_land z : (0 ≤ Z.land z 31 < 32)%Z.
Proof. rewrite land31. apply (wrap_range 5). lia. Qed.
#[export] Hint Resolve digit5_land : vpn.

Lemma to_bits_land31 z : to_bits 5 (Z.land z 31) = to_bits 5 z.
Proof. rewrite land31. apply to_bits_wrap. lia. Qed.

(** ** Base32 round trip

    The invariant of both loops is stated on the bit string: what has been
    output, followed by the pending low bits of the accumulator, is the input
    read so far. *)
Lemma b32_drain_spec fuel out bits nbits :
  nbits ≤ 5 * fuel + 4 ->
  exists vs n',
    b32_drain fuel out bits nbits = (out ++ (b32_char <$> vs), n')
    /\ Forall digit5 vs /\ n' < 5
    /\ to_bits nbits bits = (vs ≫= to_bits 5) ++ to_bits n' bits.
Proof.
  revert out nbits. induction fuel as [|fuel IH]; intros out nbits Hf; cbn.
  - exists [], nbits. rewrite app_nil_r. split_and!; [done|constructor|lia|done].
  - case_decide.
    + edestruct (IH (out ++ [b32_char (Z.land (Z.shiftr bits (Z.of_nat (nbits - 5))) 31)])
        (nbits - 5)) as (vs & n' & -> & Hvs & Hn & Hb); [lia|].
      eexists (_ :: vs), n'. split_and!; [|constructor; [|done]|done|].
      * rewrite <- app_assoc. done.
      * apply digit5_land.
      * rewrite bind_cons, to_bits_land31, <- app_assoc, <- Hb.
        replace nbits with (5 + (nbits - 5)) at 1 by lia. apply to_bits_app.
    + exists [], nbits. rewrite app_nil_r. split_and!; [done|constructor|lia|done].
Qed.

Lemma b32_encode_loop_spec data out bits nbits :
  bytes_ok data -> nbits < 5 ->
  exists vs bits' n',
    b32_encode_loop data out bits nbits = (out ++ (b32_char <$> vs), bits', n')
    /\ Forall digit5 vs /\ n' < 5
    /\ to_bits nbits bits ++ (data ≫= to_bits 8) = (vs ≫= to_bits 5) ++ to_bits n' bits'.
Proof.
  intros Hd. revert out bits nbits.
  induction Hd as [|b data Hb Hd IH]; intros out bits nbits Hn; cbn [b32_encode_loop].
  - exists [], bits, nbits. rewrite !app_nil_r. split_and!; [done|constructor|done|done].
  - destruct (b32_drain_spec (nbits + 8) out (u64 (Z.lor (Z.shiftl bits 8) b)) (nbits + 8))
      as (vs1 & n1 & -> & Hv1 & Hn1 & Hb1); [lia|].
    edestruct IH as (vs2 & bits' & n' & -> & Hv2 & Hn' & Hb2); [exact Hn1|].
    exists (vs1 ++ vs2), bits', n'. split_and!; [|by apply Forall_app|done|].
    + by rewrite fmap_app, app_assoc.
    + rewrite bind_cons, bind_app, <- app_assoc, <- Hb2.
      rewrite (app_assoc (vs1 ≫= _)), <- Hb1.
      rewrite (to_bits_push nbits 8) by (done || lia). by rewrite !app_assoc.
Qed.

(** The encoder groups the input bits by five, padding the last group with
    zero bits. *)
Lemma b32_encode_spec data :
  bytes_ok data ->
  exists vs pad,
    b32_encode_nopad_lower data = b32_char <$> vs
    /\ Forall digit5 vs /\ pad < 5
    /\ (vs ≫= to_bits 5) = (data ≫= to_bits 8) ++ replicate pad false.
Proof.
  intros Hd. unfold b32_encode_nopad_lower.
  destruct (b32_encode_loop_spec data [] 0 0 Hd) as (vs & bits & n & -> & Hv & Hn & Hb); [lia|].
  change (to_bits 0 0) with (@nil bool) in Hb. rewrite app_nil_l in Hb.
  case_decide as Hpos.
  - eexists (vs ++ [_]), (5 - n). split_and!.
    + by rewrite fmap_app.
    + apply Forall_app. split; [done|]. apply Forall_singleton, digit5_land.
    + lia.
    + rewrite bind_app, Hb, <- app_assoc. f_equal. rewrite bind_singleton.
      rewrite to_bits_land31. unfold u64. rewrite to_bits_wrap by lia.
      replace 5 with (n + (5 - n)) at 1 by lia. rewrite to_bits_app.
      f_equal.
      * apply to_bits_ext. intros i Hi. rewrite Z.shiftr_spec, Z.shiftl_spec by lia.
        f_equal. lia.
      * rewrite <- to_bits_zero. apply to_bits_ext. intros i Hi.
        rewrite Z.shiftl_spec_low, Z.testbit_0_l by lia. done.
  - exists vs, 0. replace n with 0 in Hb by lia. cbn in *.
    rewrite app_nil_r in *. split_and!; [done|done|lia|by rewrite Hb].
Qed.

Lemma b32_decode_loop_spec s out bits nbits vs :
  b32_value <$> s = vs -> Forall digit5 vs -> nbits < 8 ->
  exists ds r,
    b32_decode_loop s out bits nbits = Ok (out ++ ds)
    /\ bytes_ok ds /\ length r < 8
    /\ to_bits nbits bits ++ (vs ≫= to_bits 5) = (ds ≫= to_bits 8) ++ r.
Proof.
  intros <-. revert out bits nbits.
  induction s as [|c s IH]; intros out bits nbits Hv Hn; cbn [b32_decode_loop fmap list_fmap].
  - exists [], (to_bits nbits bits). rewrite length_to_bits, !app_nil_r.
    split_and!; [done|constructor|done|done].
  - inversion_clear Hv as [|? ? Hc Hs]. rewrite decide_False by lia.
    set (bits1 := u64 _).
    assert (to_bits (nbits + 5) bits1 = to_bits nbits bits ++ to_bits 5 (b32_value c)) as E.
    { unfold bits1. apply to_bits_push; [done|lia]. }
    case_decide as H8.
    + destruct (IH (out ++ [u8 (Z.shiftr bits1 (Z.of_nat (nbits + 5 - 8)))])
        bits1 (nbits + 5 - 8) Hs) as (ds & r & -> & Hds & Hr & Hb); [lia|].
      eexists (_ :: ds), r. split_and!; [by rewrite <- app_assoc| |done|].
      * constructor; [apply u8_range|done].
      * rewrite !bind_cons, app_assoc, <- E, <- (app_assoc (to_bits 8 _)), <- Hb.
        rewrite app_assoc. f_equal.
        unfold u8. rewrite to_bits_wrap by lia.
        replace (nbits + 5) with (8 + (nbits + 5 - 8)) at 1 by lia. apply to_bits_app.
    + destruct (IH out bits1 (nbits + 5) Hs) as (ds & r & -> & Hds & Hr & Hb); [lia|].
      exists ds, r. split_and!; [done..|]. rewrite bind_cons, app_assoc, <- E. done.
Qed.

Lemma b32_values_chars vs : Forall digit5 vs -> b32_value <$> (b32_char <$> vs) = vs.
Proof.
  intros Hv. induction Hv as [|v vs Hv _ IH]; [done|].
  csimpl. by rewrite b32_value_char, IH.
Qed.

(** The decoder only looks at the digit values, so any string with the digit
    values of an encoding decodes to the encoded bytes. *)
Lemma b32_decode_encode_values data s :
  bytes_ok data -> b32_value <$> s = b32_value <$> b32_encode_nopad_lower data ->
  b32_decode_nopad s = Ok data.
Proof.
  intros Hd Hs. destruct (b32_encode_spec data Hd) as (vs & pad & He & Hv & Hp & Hb).
  rewrite He, b32_values_chars in Hs by done.
  destruct (b32_decode_loop_spec s [] 0 0 vs Hs Hv) as (ds & r & E & Hds & Hr & Hb'); [lia|].
  unfold b32_decode_nopad. rewrite E, app_nil_l. f_equal.
  change (to_bits 0 0) with (@nil bool) in Hb'. rewrite app_nil_l in Hb'.
  rewrite Hb in Hb'. symmetry in Hb'.
  eapply groups_inj in Hb' as [-> _]; [done|lia|done|done|done|].
  rewrite length_replicate. lia.
Qed.

(** ** Base32 numbers *)

Fixpoint base32_digits (i : nat) (n : Z) : list Z :=
  match i with
  | O => []
  | S i => base32_digits i (Z.shiftr n 5) ++ [Z.land n 31]
  end.

Lemma base32_digits_ok i n : Forall digit5 (base32_digits i n).
Proof.
  revert n. induction i as [|i IH]; intros n; cbn; [constructor|].
  apply Forall_app. split; [apply IH | apply Forall_singleton, digit5_land].
Qed.

Lemma length_base32_digits i n : length (base32_digits i n) = i.
Proof.
  revert n. induction i as [|i IH]; intros n; cbn; [done|].
  rewrite length_app, IH. cbn. lia.
Qed.

Lemma number_to_base32_loop_spec i n r :
  i ≤ length r ->
  number_to_base32_loop i n r = (b32_char <$> base32_digits i n) ++ drop i r.
Proof.
  revert n r. induction i as [|i IH]; intros n r Hr; cbn [number_to_base32_loop base32_digits].
  - by rewrite drop_0.
  - rewrite IH by (rewrite length_insert; lia).
    rewrite fmap_app, <- app_assoc. f_equal. cbn.
    destruct (lookup_lt_is_Some_2 r i) as [x Hx]; [lia|].
    rewrite (drop_S _ (b32_char (Z.land n 31))) by (apply list_lookup_insert_eq; lia).
    f_equal. rewrite drop_insert_lt by lia. done.
Qed.

Lemma number_to_base32_lower_spec n w :
  number_to_base32_lower n w = b32_char <$> base32_digits w n.
Proof.
  unfold number_to_base32_lower.
  rewrite number_to_base32_loop_spec by (rewrite length_replicate; lia).
  rewrite drop_ge by (rewrite length_replicate; lia). apply app_nil_r.
Qed.

Lemma base32_to_number_loop_app ds1 ds2 v v' :
  base32_to_number_loop ds1 v = Ok v' ->
  base32_to_number_loop (ds1 ++ ds2) v = base32_to_number_loop ds2 v'.
Proof.
  revert v. induction ds1 as [|c ds1 IH]; intros v H; cbn in *; [congruence|].
  case_decide; [done|]. by apply IH.
Qed.

Lemma base32_to_number_digits w n :
  (5 * Z.of_nat w ≤ 32)%Z -> (0 ≤ n < 2 ^ (5 * Z.of_nat w))%Z ->
  base32_to_number (b32_char <$> base32_digits w n) = Ok n.
Proof.
  unfold base32_to_number. revert n.
  induction w as [|w IH]; intros n Hw Hn; cbn [base32_digits].
  - cbn. f_equal. cbn in Hn. lia.
  - rewrite fmap_app. erewrite base32_to_number_loop_app; [|apply IH; [lia|]].
    2:{ rewrite Z.shiftr_div_pow2 by lia. split; [apply Z.div_pos; lia|].
        apply Z.div_lt_upper_bound; [lia|]. rewrite <- Z.pow_add_r by lia.
        replace (5 + 5 * Z.of_nat w)%Z with (5 * Z.of_nat (S w))%Z by lia. apply Hn. }
    cbn. rewrite b32_value_char by apply digit5_land.
    pose proof (digit5_land n). rewrite decide_False by lia. f_equal.
    assert (n < 2 ^ 32)%Z.
    { eapply Z.lt_le_trans; [apply Hn|]. apply Z.pow_le_mono_r; lia. }
    rewrite land31 in *. unfold u32.
    rewrite Z.shiftl_mul_pow2, Z.shiftr_div_pow2 by lia.
    assert (n = 2 ^ 5 * (n / 2 ^ 5) + wrap 5 n)%Z as Hm by (unfold wrap; apply Z.div_mod; lia).
    assert (0 ≤ n / 2 ^ 5)%Z by (apply Z.div_pos; lia).
    rewrite (wrap_small 32 (n / 2 ^ 5 * 2 ^ 5)) by lia. rewrite wrap_small; lia.
Qed.

(** ** How much data fits in a name *)

(** The length of [m] characters cut into labels of at most [s]. *)
Definition labelled_len (s m : Z) : Z := (m + (m + s - 1) / s)%Z.

Lemma compute_max_m_nonneg s a : (0 ≤ s)%Z -> (0 ≤ compute_max_m s a)%Z.
Proof.
  intros Hs. unfold compute_max_m. case_decide; [lia|].
  assert (0 ≤ Z.quot a (s + 1))%Z by (apply Z.quot_pos; lia). lia.
Qed.

Lemma labelled_len_eq s q r :
  (1 ≤ s)%Z -> (0 ≤ q)%Z -> (0 ≤ r ≤ s)%Z ->
  labelled_len s (q * s + r) = (q * (s + 1) + r + (if decide (r = 0) then 0 else 1))%Z.
Proof.
  intros Hs Hq Hr. unfold labelled_len.
  replace (q * s + r + s - 1)%Z with (q * s + (r + s - 1))%Z by lia.
  rewrite Z.div_add_l by lia. case_decide.
  - subst. rewrite Z.div_small by lia. lia.
  - replace (r + s - 1)%Z with (1 * s + (r - 1))%Z by lia.
    rewrite Z.div_add_l, Z.div_small by lia. lia.
Qed.

Lemma compute_max_m_split s a :
  (1 ≤ s)%Z -> (0 < a)%Z ->
  exists q rem, (0 ≤ q)%Z /\ (0 ≤ rem ≤ s)%Z /\ a = (q * (s + 1) + rem)%Z
    /\ compute_max_m s a = (q * s + Z.max (rem - 1) 0)%Z.
Proof.
  intros Hs Ha. exists (a / (s + 1))%Z, (a mod (s + 1))%Z.
  pose proof (Z.div_mod a (s + 1)). pose proof (Z.mod_pos_bound a (s + 1)).
  assert (0 ≤ a / (s + 1))%Z by (apply Z.div_pos; lia).
  split_and!; [lia..|]. unfold compute_max_m.
  rewrite decide_False, Z.quot_div_nonneg by lia. do 2 f_equal. lia.
Qed.

Lemma compute_max_m_fits s a :
  (1 ≤ s)%Z -> (0 ≤ a)%Z -> (labelled_len s (compute_max_m s a) ≤ a)%Z.
Proof.
  intros Hs Ha. destruct (decide (a = 0)%Z) as [->|].
  { change (compute_max_m s 0) with 0%Z. unfold labelled_len. rewrite Z.div_small; lia. }
  destruct (compute_max_m_split s a) as (q & rem & ? & ? & -> & ->); [lia..|].
  rewrite labelled_len_eq by lia. case_decide; lia.
Qed.

Lemma labelled_len_mono s m m' :
  (1 ≤ s)%Z -> (m ≤ m')%Z -> (labelled_len s m ≤ labelled_len s m')%Z.
Proof.
  intros Hs Hm. unfold labelled_len.
  assert ((m + s - 1) / s ≤ (m' + s - 1) / s)%Z by (apply Z.div_le_mono; lia). lia.
Qed.

Lemma compute_max_m_maximal s a m :
  (1 ≤ s)%Z -> (0 ≤ a)%Z -> (compute_max_m s a < m)%Z -> (a < labelled_len s m)%Z.
Proof.
  intros Hs Ha Hm. eapply Z.lt_le_trans;
    [|apply (labelled_len_mono s (compute_max_m s a + 1)); lia].
  destruct (decide (a = 0)%Z) as [->|].
  { change (compute_max_m s 0) with 0%Z. unfold labelled_len.
    replace (0 + 1 + s - 1)%Z with s by lia. rewrite Z.div_same; lia. }
  destruct (compute_max_m_split s a) as (q & rem & ? & ? & -> & ->); [lia..|].
  replace (q * s + Z.max (rem - 1) 0 + 1)%Z with (q * s + (Z.max (rem - 1) 0 + 1))%Z by lia.
  rewrite labelled_len_eq by lia. rewrite decide_False by lia. lia.
Qed.

(** ** The fragmenter

    Its specification: the encoded datagram is cut into parts, part [i] gets
    the header of fragment [i], and the result is the wire name of its labels
    followed by the name of the send domain whose turn it is. *)
#[export] Instance SendDomain_inhabited : Inhabited SendDomain := populate (mkSendDomain [] 0).

Definition frag_magic (i : nat) (last : bool) : Z :=
  if last then magic_last i else magic_more i.

Definition fragment_body (off : bytes) (i : nat) (last : bool) (part : bytes) : bytes :=
  off ++ [b32_char (Z.land (Z.of_nat i) 31)] ++ [frag_magic i last] ++ part.

Definition fragment_name (off : bytes) (sd : SendDomain) (max_sub i : nat) (last : bool)
    (part : bytes) : bytes :=
  wire_labels (chunks max_sub (fragment_body off i last part)) ++ qname_encoded sd.

Fixpoint fragment_names (off : bytes) (sds : list SendDomain) (max_sub sdi i : nat)
    (parts : list bytes) : list bytes :=
  match parts with
  | [] => []
  | part :: rest =>
      fragment_name off (sds !!! sdi) max_sub i (negb (bool_decide (0 < length rest))) part
      :: fragment_names off sds max_sub ((sdi + 1) `mod` length sds) (i + 1) rest
  end.

(** Every part fits its send domain, and only an empty datagram has an empty
    part. *)
Fixpoint parts_fit (sds : list SendDomain) (sdi : nat) (parts : list bytes) : Prop :=
  match parts with
  | [] => True
  | part :: rest =>
      length part ≤ chunk_len (sds !!! sdi)
      /\ parts_fit sds ((sdi + 1) `mod` length sds) rest
  end.

Lemma final_domains_loop_spec {E} fuel data off sds max_sub sdi i s acc :
  0 < max_sub -> sdi < length sds -> Forall (fun sd => 0 < chunk_len sd) sds ->
  i ≤ 64 -> 64 - i < fuel -> s ≤ length data ->
  final_domains_loop (E := E) fuel data off sds max_sub sdi i s acc = Ok []
  \/ exists parts,
      final_domains_loop (E := E) fuel data off sds max_sub sdi i s acc
      = Ok (acc ++ fragment_names off sds max_sub sdi i parts)
      /\ mjoin parts = drop s data /\ parts <> [] /\ i + length parts ≤ 64
      /\ parts_fit sds sdi parts
      /\ (s < length data -> Forall (fun p => p <> []) parts).
Proof.
  intros Hsub Hsdi Hpos. revert sdi i s acc Hsdi.
  induction fuel as [|fuel IH]; intros sdi i s acc Hsdi Hi Hf Hs; [lia|].
  cbn [final_domains_loop]. case_decide as H64; [by left|].
  destruct (index_lt (E := E) sds sdi) as (sd & Hsd & ->); [done|]. cbn [mbind result_bind].
  assert (sds !!! sdi = sd) as Hsd' by by apply list_lookup_total_correct.
  assert (0 < chunk_len sd) by by eapply Forall_lookup_1 in Hpos.
  rewrite slice_ok by lia. cbn [mbind result_bind].
  rewrite insert_dots_spec by done. cbn [mbind result_bind].
  set (part := take _ (drop s data)).
  assert (length part = (s + chunk_len sd) `min` length data - s) as Hpl
    by (unfold part; rewrite length_take, length_drop; lia).
  case_bool_decide as Hmore.
  - assert ((sdi + 1) `mod` length sds < length sds) by (apply Nat.mod_upper_bound; lia).
    destruct (IH ((sdi + 1) `mod` length sds) (i + 1) (s + chunk_len sd)
      (acc ++ [fragment_name off sd max_sub i false part]))
      as [HE|(parts & HE & HJ & HN & HL & HF & HX)]; [lia..|by left|].
    right. exists (part :: parts). split_and!; [|..|done|cbn; lia| |].
    + cbn [fragment_names]. rewrite Hsd', bool_decide_true by (destruct parts; cbn; done || lia).
      etrans; [exact HE|]. by rewrite <- app_assoc.
    + change (mjoin (part :: parts)) with (part ++ mjoin parts). rewrite HJ. unfold part. rewrite Nat.min_l by lia.
      replace (s + chunk_len sd - s) with (chunk_len sd) by lia.
      by rewrite <- drop_drop, take_drop.
    + cbn. rewrite Hsd'. split; [lia|done].
    + intros _. constructor; [|by auto].
      intros Hp%(f_equal length). rewrite Hpl in Hp. cbn in Hp. lia.
  - right. exists [part]. split_and!; [|..|done|cbn; lia| |].
    + cbn. by rewrite Hsd'.
    + cbn. rewrite app_nil_r. unfold part. apply take_ge. rewrite length_drop. lia.
    + cbn. rewrite Hsd'. split; [lia|done].
    + intros Hlt. repeat constructor. intros Hp%(f_equal length). rewrite Hpl in Hp. cbn in Hp. lia.
Qed.

(** A datagram that fits 64 fragments of the smallest send domain is never
    dropped. *)
Lemma final_domains_loop_fits {E} fuel data off sds max_sub sdi i s acc c :
  0 < max_sub -> sdi < length sds -> Forall (fun sd => c ≤ chunk_len sd) sds -> 0 < c ->
  i < 64 -> 64 - i < fuel -> s ≤ length data -> length data - s ≤ (64 - i) * c ->
  exists fds,
    final_domains_loop (E := E) fuel data off sds max_sub sdi i s acc = Ok fds
    /\ length acc < length fds.
Proof.
  intros Hsub Hsdi Hpos Hc. revert sdi i s acc Hsdi.
  induction fuel as [|fuel IH]; intros sdi i s acc Hsdi Hi Hf Hs Hlen; [lia|].
  cbn [final_domains_loop]. rewrite decide_False by lia.
  destruct (index_lt (E := E) sds sdi) as (sd & Hsd & ->); [done|]. cbn [mbind result_bind].
  assert (c ≤ chunk_len sd) by (eapply Forall_lookup_1 in Hpos; [|done]; done).
  rewrite slice_ok by lia. cbn [mbind result_bind].
  rewrite insert_dots_spec by done. cbn [mbind result_bind].
  case_bool_decide.
  - edestruct IH as (fds & -> & Hl); [apply Nat.mod_upper_bound; lia|..]; cycle -1.
    + eexists. split; [done|]. rewrite length_app in Hl. cbn in Hl. lia.
    + destruct (decide (i = 63)) as [->|]; [lia|]. lia.
    + lia.
    + lia.
    + nia.
  - eexists. split; [done|]. rewrite length_app. cbn. lia.
Qed.

(** ** Fragment headers *)

Lemma fragment_header_values i :
  (0 ≤ i < 64)%Z ->
  (if decide (Z.land i 32 <> 0) then Z.lor (Z.land i 31) 32 else Z.land i 31)%Z = i.
Proof.
  revert i. by apply (forall_below_dec (fun i =>
    (if decide (Z.land i 32 <> 0) then Z.lor (Z.land i 31) 32 else Z.land i 31)%Z = i) 64).
Qed.

(** The parser recovers the offset, the index, the last flag and the part
    from what the fragmenter wrote. *)
Lemma get_chunk_data_fragment w n i last part :
  (5 * Z.of_nat w ≤ 32)%Z -> (0 ≤ n < 2 ^ (5 * Z.of_nat w))%Z -> i < 64 ->
  get_chunk_data (fragment_body (number_to_base32_lower n w) i last part) w
  = Ok (mkChunkData n i last part).
Proof.
  intros Hw Hn Hi. rewrite number_to_base32_lower_spec.
  set (off := b32_char <$> base32_digits w n).
  assert (length off = w) as Hoff by (unfold off; by rewrite length_fmap, length_base32_digits).
  unfold get_chunk_data, fragment_body.
  rewrite decide_False by (rewrite !length_app; cbn; lia).
  rewrite (slice_ok _ 0 w) by (rewrite ?length_app; lia). cbn [mbind result_bind].
  rewrite drop_0, Nat.sub_0_r, take_app_exact by done.
  assert (base32_to_number off = Ok n) as -> by by apply base32_to_number_digits.
  cbn [mbind result_bind].
  rewrite (index_Some _ w (b32_char (Z.land (Z.of_nat i) 31)))
    by by apply list_lookup_middle. cbn [mbind result_bind].
  rewrite b32_value_char by apply digit5_land.
  pose proof (digit5_land (Z.of_nat i)). rewrite decide_False by lia.
  rewrite (index_Some _ (w + 1) (frag_magic i last)); cbn [mbind result_bind].
  2:{ rewrite (app_assoc off). apply list_lookup_middle. rewrite length_app. cbn. lia. }
  pose proof (fragment_header_values (Z.of_nat i)) as Hv.
  rewrite slice_ok by (rewrite ?length_app; cbn; lia).
  rewrite (app_assoc off), (app_assoc (off ++ _)), drop_app_exact
    by (rewrite !length_app; cbn; lia).
  rewrite take_ge by (rewrite ?length_app; cbn; lia).
  unfold frag_magic, magic_last, magic_more.
  specialize (Hv ltac:(lia)). revert Hv.
  destruct last, (decide (Z.land (Z.of_nat i) 32 <> 0%Z)); intros Hv;
    repeat (case_decide; try congruence; try discriminate);
    cbn; rewrite Hv, Nat2Z.id; done.
Qed.

(** ** Fragment sizes *)

Lemma length_wire_chunks k (l : bytes) :
  0 < k -> Z.of_nat (length (wire_labels (chunks k l)))
           = labelled_len (Z.of_nat k) (Z.of_nat (length l)).
Proof.
  intros Hk. rewrite length_wire_labels, concat_chunks, length_chunks by done.
  unfold labelled_len. rewrite Nat2Z.inj_add, Nat2Z.inj_div. do 2 f_equal. lia.
Qed.

Lemma fragment_name_length max_encoded max_sub w off sd i last part :
  0 < max_sub -> length off = w ->
  get_chunk_len max_encoded (Z.of_nat (length (qname_encoded sd))) (Z.of_nat max_sub)
    (Z.of_nat w) = Ok (chunk_len sd) ->
  length part ≤ chunk_len sd ->
  (Z.of_nat (length (fragment_name off sd max_sub i last part)) ≤ max_encoded)%Z.
Proof.
  intros Hsub Hoff Hc Hp. unfold get_chunk_len in Hc.
  case_decide as Hlt; [done|]. injection Hc as Hc.
  unfold fragment_name. rewrite length_app, Nat2Z.inj_add, length_wire_chunks by done.
  set (a := (max_encoded - Z.of_nat (length (qname_encoded sd)))%Z) in *.
  assert (0 < a)%Z.
  { destruct (decide (0 < a)%Z); [done|]. exfalso. revert Hlt.
    unfold compute_max_m. rewrite decide_True by lia. lia. }
  pose proof (compute_max_m_fits (Z.of_nat max_sub) a ltac:(lia) ltac:(lia)).
  pose proof (labelled_len_mono (Z.of_nat max_sub)
    (Z.of_nat (length (fragment_body off i last part)))
    (compute_max_m (Z.of_nat max_sub) a) ltac:(lia)) as Hm.
  ospecialize (Hm _); [|lia].
  unfold fragment_body. rewrite !length_app. cbn. lia.
Qed.

Lemma length_number_to_base32 n w : length (number_to_base32_lower n w) = w.
Proof. by rewrite number_to_base32_lower_spec, length_fmap, length_base32_digits. Qed.

(** ** Character classes of what goes on the wire *)

(** Nothing the fragmenter writes is changed by the lower-casing of the DNS
    parser. *)
Abbreviation stable_char := (fun c => byte_ok c /\ to_ascii_lower c = c).

Lemma b32_chars_stable vs : Forall digit5 vs -> Forall stable_char (b32_char <$> vs).
Proof.
  intros H. apply Forall_fmap. eapply Forall_impl; [done|].
  intros v Hv. split; [by apply b32_char_byte | by apply b32_char_lower].
Qed.

Lemma fragment_body_stable n w i last part :
  Forall stable_char part ->
  Forall stable_char (fragment_body (number_to_base32_lower n w) i last part).
Proof.
  intros Hp. unfold fragment_body. rewrite number_to_base32_lower_spec.
  rewrite !Forall_app, !Forall_singleton. split_and!; [..|done].
  - apply b32_chars_stable, base32_digits_ok.
  - apply b32_char_byte, digit5_land.
  - apply b32_char_lower, digit5_land.
  - unfold frag_magic, magic_last, magic_more. destruct last; case_decide; done.
  - unfold frag_magic, magic_last, magic_more. destruct last; case_decide; done.
Qed.

Lemma b32_encode_stable data :
  bytes_ok data -> Forall stable_char (b32_encode_nopad_lower data).
Proof.
  intros Hd. destruct (b32_encode_spec data Hd) as (vs & ? & -> & Hv & _).
  by apply b32_chars_stable.
Qed.

Lemma b32_encode_nonempty data :
  bytes_ok data -> data <> [] -> b32_encode_nopad_lower data <> [].
Proof.
  intros Hd Hne E. pose proof (b32_decode_encode_values data [] Hd) as H.
  rewrite E in H. specialize (H eq_refl). cbn in H. congruence.
Qed.

(** ** Properties *)

(** Base32 round trip, case included.  Whatever the resolvers do to the case of
    the letters, decoding returns the bytes that were encoded. *)
Theorem b32_round_trip (data s : bytes) :
  bytes_ok data -> bytes_ok s -> lower_label s = b32_encode_nopad_lower data ->
  b32_decode_nopad s = Ok data.
Proof.
  intros Hd Hs E. apply b32_decode_encode_values; [done|]. rewrite <- E. unfold lower_label.
  rewrite <- list_fmap_compose. apply list_fmap_ext. intros i c Hc. cbn.
  symmetry. apply b32_value_lower. by eapply Forall_lookup_1.
Qed.

Lemma b32_round_trip_witness :
  b32_encode_nopad_lower (bstr "foobar") = bstr "mzxw6ytboi"
  /\ b32_decode_nopad (bstr "MzXW6yTBOi") = Ok (bstr "foobar").
Proof.
  split; [vm_compute; reflexivity|].
  apply (b32_round_trip (bstr "foobar") (bstr "MzXW6yTBOi")); evaluate.
Defined.

(** The fixed-width numbers round trip over their whole range, always in
    [width] characters. *)
Theorem base32_number_round_trip (n : Z) (width : nat) :
  (5 * Z.of_nat width ≤ 32)%Z -> (0 ≤ n < 2 ^ (5 * Z.of_nat width))%Z ->
  base32_to_number (number_to_base32_lower n width) = Ok n
  /\ length (number_to_base32_lower n width) = width.
Proof.
  intros Hw Hn. split; [|apply length_number_to_base32].
  rewrite number_to_base32_lower_spec. by apply base32_to_number_digits.
Qed.

Lemma base32_number_round_trip_witness :
  base32_to_number (number_to_base32_lower 31337 3) = Ok 31337%Z.
Proof. apply (base32_number_round_trip 31337 3); lia. Defined.

(** Compute_max_m is optimal: its result, cut into labels of [s], fits the
    budget with the length bytes counted, and no larger number of characters
    does. *)
Theorem compute_max_m_optimal (s max_allowed : Z) :
  (1 ≤ s)%Z -> (0 ≤ max_allowed)%Z ->
  (0 ≤ compute_max_m s max_allowed)%Z
  /\ (labelled_len s (compute_max_m s max_allowed) ≤ max_allowed)%Z
  /\ forall m, (labelled_len s m ≤ max_allowed)%Z -> (m ≤ compute_max_m s max_allowed)%Z.
Proof.
  intros Hs Ha. split; [apply compute_max_m_nonneg; lia|].
  split; [by apply compute_max_m_fits|]. intros m Hm.
  destruct (decide (m ≤ compute_max_m s max_allowed)%Z) as [|Hgt]; [done|].
  pose proof (compute_max_m_maximal s max_allowed m Hs Ha ltac:(lia)). lia.
Qed.

Lemma compute_max_m_optimal_witness :
  compute_max_m 63 241 = 237%Z /\ (labelled_len 63 237 ≤ 241)%Z.
Proof.
  split; [vm_compute; reflexivity|].
  apply (compute_max_m_optimal 63 241); lia.
Defined.

(** A table whose entries were fitted by [get_chunk_len]. *)
Definition fitted (max_encoded : Z) (max_sub w : nat) (sds : list SendDomain) : Prop :=
  Forall (fun sd => get_chunk_len max_encoded (Z.of_nat (length (qname_encoded sd)))
                      (Z.of_nat max_sub) (Z.of_nat w) = Ok (chunk_len sd)) sds.

Lemma fitted_positive max_encoded max_sub w sds :
  fitted max_encoded max_sub w sds -> Forall (fun sd => 0 < chunk_len sd) sds.
Proof.
  intros Hf. eapply Forall_impl; [exact Hf|]. intros sd. unfold get_chunk_len.
  case_decide; [done|]. intros [= <-]. lia.
Qed.

Lemma fragment_names_fit max_encoded max_sub w off sds sdi i parts :
  fitted max_encoded max_sub w sds -> 0 < max_sub -> length off = w -> sdi < length sds ->
  parts_fit sds sdi parts ->
  Forall (fun fd => (Z.of_nat (length fd) ≤ max_encoded)%Z)
    (fragment_names off sds max_sub sdi i parts).
Proof.
  intros Hf Hsub Hoff. revert sdi i. induction parts as [|p ps IH]; intros sdi i Hsdi Hp;
    cbn in *; [constructor|]. destruct Hp as [Hp Hps]. constructor.
  - destruct (lookup_lt_is_Some_2 sds sdi Hsdi) as [sd Hsd].
    rewrite (list_lookup_total_correct _ _ _ Hsd) in *.
    eapply fragment_name_length; [done|exact Hoff| |done].
    by apply (Forall_lookup_1 _ _ _ _ Hf Hsd).
  - apply IH; [apply Nat.mod_upper_bound; lia|done].
Qed.

(** The fragmenter is total and its names fit.  With a fitted table it never
    panics; it returns at most 64 names, each within [max_encoded_domain_len]
    (the debug assertion of the source); the names are the wire encodings of
    consecutive parts of the base32 form; and it drops nothing that fits 64
    fragments of the smallest domain. *)
Theorem final_domains_total (data : bytes) (off : Z) (sdi : nat) (sds : list SendDomain)
    (max_sub w c : nat) (max_encoded : Z) :
  fitted max_encoded max_sub w sds -> 0 < max_sub -> sdi < length sds -> 0 < c ->
  Forall (fun sd => c ≤ chunk_len sd) sds ->
  exists fds,
    get_base32_final_domains (E := Empty_set) data off sdi sds max_sub w = Ok fds
    /\ length fds ≤ 64
    /\ Forall (fun fd => (Z.of_nat (length fd) ≤ max_encoded)%Z) fds
    /\ (fds = [] \/ exists parts,
          fds = fragment_names (number_to_base32_lower off w) sds max_sub sdi 0 parts
          /\ mjoin parts = b32_encode_nopad_lower data)
    /\ (length (b32_encode_nopad_lower data) ≤ 64 * c -> fds <> []).
Proof.
  intros Hf Hsub Hsdi Hcp Hc. unfold get_base32_final_domains.
  set (data32 := b32_encode_nopad_lower data).
  pose proof (fitted_positive _ _ _ _ Hf) as Hpos.
  pose proof (fun H => final_domains_loop_fits (E := Empty_set) 65 data32
    (number_to_base32_lower off w) sds max_sub sdi 0 0 [] c
    Hsub Hsdi Hc Hcp ltac:(lia) ltac:(lia) ltac:(lia) H) as Hfits.
  destruct (final_domains_loop_spec (E := Empty_set) 65 data32 (number_to_base32_lower off w) sds
    max_sub sdi 0 0 [] Hsub Hsdi Hpos) as [E|(parts & E & HJ & HN & HL & HF & _)]; [lia..| |].
  - exists []. rewrite E in *. split_and!; [done|cbn; lia|constructor|by left|].
    intros H. destruct Hfits as (? & [= <-] & Hl); [lia|]. cbn in Hl. lia.
  - rewrite E. eexists. split; [done|]. cbn [app]. split_and!.
    + enough (forall i j, length (fragment_names (number_to_base32_lower off w) sds max_sub i j parts)
        = length parts) as -> by lia.
      clear. induction parts as [|p ps IH]; intros i j; cbn; [done|]. by rewrite IH.
    + eapply fragment_names_fit; try done. apply length_number_to_base32.
    + right. by exists parts.
    + intros _. by destruct parts.
Qed.

Definition sample_domain : SendDomain := mkSendDomain (encode_qname (bstr "t.example.com")) 52.

Lemma final_domains_total_witness :
  exists fds, get_base32_final_domains (E := Empty_set) (bstr "hello, tunnel") 7 0
                [sample_domain] 30 3 = Ok fds /\ fds <> [].
Proof.
  destruct (final_domains_total (bstr "hello, tunnel") 7 0 [sample_domain] 30 3 52 74)
    as (fds & E & _ & _ & _ & Hne).
  - unfold fitted. constructor; [vm_compute; reflexivity|constructor].
  - lia.
  - cbn; lia.
  - lia.
  - constructor; [cbn; lia|constructor].
  - exists fds. split; [exact E|]. apply Hne. apply Nat.leb_le. vm_compute. reflexivity.
Defined.

(** Fragment headers round trip.  The parser recovers offset, index, last flag
    and part from what the fragmenter writes, for every index below 64. *)
Theorem fragment_header_round_trip (w : nat) (n : Z) (i : nat) (last : bool) (part : bytes) :
  (5 * Z.of_nat w ≤ 32)%Z -> (0 ≤ n < 2 ^ (5 * Z.of_nat w))%Z -> i < 64 ->
  get_chunk_data (fragment_body (number_to_base32_lower n w) i last part) w
  = Ok (mkChunkData n i last part).
Proof. apply get_chunk_data_fragment. Qed.

Lemma fragment_header_round_trip_witness :
  get_chunk_data (fragment_body (number_to_base32_lower 12345 3) 37 true (bstr "mzxw6")) 3
  = Ok (mkChunkData 12345 37 true (bstr "mzxw6")).
Proof. apply (fragment_header_round_trip 3 12345 37 true (bstr "mzxw6")); lia. Defined.
