(* ===== verification/Reassembly.v ===== *)
(** * QQ-DNS fragment reassembly ([src/src/qqdns/reassembly.rs])

    The table of slots behind [DataHandler]'s mutex, one per data offset.
    Every call of [new_data_event] and every tick of the sweeper runs under
    the lock, so a history of the component is a sequence of these two
    operations.  Instants are integers (one unit of the monotonic clock);
    [now.duration_since(t)] saturates at zero. *)
From stdpp Require Import gmap sets.
From S2P Require Import Prelude.

Definition NUM_SLOTS : nat := 64.

Record Assembly : Set := mkAssembly {
  parts : list (option bytes);
  rec_nums : nat;
  biggest_index_plus_one : nat;
  seen_last_fragment : bool;
}.

Inductive Slot : Set :=
  | Empty
  | Assembling (asm : Assembly) (created_at : Z)
  | Done (created_at : Z)
  | Rejected (created_at : Z).

Record Inner : Set := mkInner {
  slots : list Slot;
  assemble_time : Z;
}.

Definition new (offsets_size : nat) (assemble_time : Z) : Inner :=
  mkInner (replicate offsets_size Empty) assemble_time.

Definition duration_since (now t : Z) : Z := Z.max 0 (now - t).

Definition expired (now assemble_time : Z) (s : Slot) : bool :=
  match s with
  | Empty => false
  | Assembling _ created_at | Done created_at | Rejected created_at =>
      bool_decide (assemble_time ≤ duration_since now created_at)%Z
  end.

Definition expire (now assemble_time : Z) (s : Slot) : Slot :=
  if expired now assemble_time s then Empty else s.

(** One pass of the sweeper task. *)
Definition sweep (now : Z) (g : Inner) : Inner :=
  mkInner (expire now (assemble_time g) <$> slots g) (assemble_time g).

(** [part.as_deref().unwrap_or(&[])]. *)
Definition part_bytes (p : option bytes) : bytes := default [] p.

(** The [match &mut g.slots[key]] of [new_data_event]: the new contents of
    the slot and what the call returns. *)
Definition slot_event {E} (now : Z) (s : Slot) (fragment_part : nat)
    (last_fragment : bool) (data : bytes) : result E (Slot * option bytes) :=
  match s with
  | Done _ | Rejected _ => Ok (s, None)
  | Empty =>
      let biggest := fragment_part + 1 in
      if last_fragment && bool_decide (biggest = 1) then Ok (Done now, Some data)
      else
        let fresh := replicate NUM_SLOTS None in
        _ ← index fresh fragment_part;
        Ok (Assembling
              (mkAssembly (<[fragment_part := Some data]> fresh) 1 biggest last_fragment)
              now, None)
  | Assembling asm created_at =>
      old ← index (parts asm) fragment_part;
      match old with
      | Some _ => Ok (s, None)
      | None =>
          let ps := <[fragment_part := Some data]> (parts asm) in
          let rec := rec_nums asm + 1 in
          let fp_po := fragment_part + 1 in
          let p_biggest := biggest_index_plus_one asm in
          let biggest_updated := bool_decide (p_biggest < fp_po) in
          let biggest := if biggest_updated then fp_po else p_biggest in
          let p_seen_last := seen_last_fragment asm in
          if (last_fragment && p_seen_last)
             || (biggest_updated && p_seen_last)
             || (negb biggest_updated && last_fragment)
          then Ok (Rejected now, None)
          else
            let seen_last := last_fragment || p_seen_last in
            if seen_last && bool_decide (rec = biggest) then
              got ← slice ps 0 rec;
              Ok (Done now, Some (mjoin (part_bytes <$> got)))
            else
              Ok (Assembling
                    (mkAssembly ps rec biggest (if last_fragment then true else p_seen_last))
                    created_at, None)
      end
  end.

Definition new_data_event {E} (now : Z) (g : Inner) (key : nat) (fragment_part : nat)
    (last_fragment : bool) (data : bytes) : result E (Inner * option bytes) :=
  if decide (NUM_SLOTS ≤ fragment_part) then Ok (g, None)
  else match slots g !! key with
  | None => Ok (g, None)
  | Some s =>
      let s := expire now (assemble_time g) s in
      '(s', out) ← slot_event now s fragment_part last_fragment data;
      Ok (mkInner (<[key := s']> (slots g)) (assemble_time g), out)
  end.

(** ** Histories *)

Record fragment : Set := mkFragment {
  at_time : Z;
  to_key : nat;
  part_no : nat;
  is_last : bool;
  payload : bytes;
}.

Inductive event : Set :=
  | Deliver (f : fragment)
  | Sweep (now : Z).

Definition step {E} (g : Inner) (e : event) : result E (Inner * option bytes) :=
  match e with
  | Deliver f => new_data_event (at_time f) g (to_key f) (part_no f) (is_last f) (payload f)
  | Sweep now => Ok (sweep now g, None)
  end.

(** What the calls of a history return, in order. *)
Fixpoint run {E} (g : Inner) (es : list event) : result E (Inner * list (option bytes)) :=
  match es with
  | [] => Ok (g, [])
  | e :: es =>
      '(g, out) ← step g e;
      '(g, outs) ← run g es;
      Ok (g, out :: outs)
  end.

(** ** The assembly invariant

    [rec_nums] counts the present parts, [biggest_index_plus_one] is one past
    the highest of them, and an assembly that is still open is not complete. *)
Definition present (ps : list (option bytes)) (i : nat) : Prop :=
  exists c, ps !! i = Some (Some c).

Definition count (ps : list (option bytes)) : nat := length (omap id ps).

Record asm_ok (a : Assembly) : Prop := {
  ok_len : length (parts a) = NUM_SLOTS;
  ok_rec : rec_nums a = count (parts a);
  ok_top : 0 < biggest_index_plus_one a
           /\ present (parts a) (biggest_index_plus_one a - 1);
  ok_max : forall i, present (parts a) i -> i < biggest_index_plus_one a;
  ok_open : seen_last_fragment a = true -> rec_nums a <> biggest_index_plus_one a;
}.

Definition slot_ok (s : Slot) : Prop :=
  match s with Assembling a _ => asm_ok a | _ => True end.

Definition inner_ok (g : Inner) : Prop := Forall slot_ok (slots g).

(** ** Counting present parts *)

Lemma present_cons_0 p ps : present (p :: ps) 0 <-> is_Some p.
Proof.
  unfold present, is_Some. split; intros [c Hc].
  - cbn in Hc. simplify_eq. eauto.
  - subst. exists c. done.
Qed.

Lemma present_cons_S p ps i : present (p :: ps) (S i) <-> present ps i.
Proof. done. Qed.

Lemma present_insert ps i j d :
  i < length ps -> present (<[i := Some d]> ps) j <-> i = j \/ present ps j.
Proof.
  intros Hi. unfold present. rewrite list_lookup_insert.
  case_decide as Hc; [|naive_solver].
  destruct Hc as [-> _]. split; [by left|]. intros _. by exists d.
Qed.

Lemma count_cons p ps : count (p :: ps) = (if p then 1 else 0) + count ps.
Proof. unfold count. by destruct p. Qed.

Lemma count_insert ps i d :
  ps !! i = Some None -> count (<[i := Some d]> ps) = S (count ps).
Proof.
  revert i. induction ps as [|p ps IH]; intros [|i] H; simplify_eq/=.
  - rewrite !count_cons. lia.
  - change (count (p :: <[i:=Some d]> ps) = S (count (p :: ps))).
    rewrite !count_cons, IH by done. lia.
Qed.

Lemma count_bounded ps n :
  (forall i, present ps i -> i < n) ->
  count ps ≤ n
  /\ (count ps = n -> (forall i, i < n -> present ps i)
      /\ mjoin (part_bytes <$> take n ps) = mjoin (omap id ps)).
Proof.
  revert n. induction ps as [|p ps IH]; intros n Hb.
  - split; [cbn; lia|]. cbn. intros <-. split; [lia|done].
  - destruct n as [|n].
    + destruct p as [c|]; 
      [exfalso; specialize (Hb 0); rewrite present_cons_0 in Hb; ospecialize (Hb _); [by eexists|lia]|].
      destruct (IH 0) as [H0 H1]; [intros i Hi; specialize (Hb (S i) Hi); lia|].
      rewrite count_cons. cbn. split; [lia|]. intros Hc. split; [lia|].
      destruct (H1 ltac:(lia)) as [_ HJ]. by rewrite take_0 in HJ.
    + destruct (IH n) as [H0 H1]; [intros i Hi; specialize (Hb (S i) Hi); lia|].
      rewrite count_cons. destruct p as [c|].
      * split; [lia|]. intros Hc. destruct (H1 ltac:(lia)) as [HP HJ]. split.
        -- intros [|i] Hi; [by apply present_cons_0|]. apply present_cons_S, HP. lia.
        -- change (c ++ mjoin (part_bytes <$> take n ps) = c ++ mjoin (omap id ps)).
           by rewrite HJ.
      * split; [lia|]. intros Hc. lia.
Qed.

Lemma count_full ps n :
  (forall i, present ps i <-> i < n) -> count ps = n.
Proof.
  revert n. induction ps as [|p ps IH]; intros n H.
  - destruct n; [done|]. destruct (proj2 (H 0)) as [c Hc]; [lia|done].
  - rewrite count_cons. destruct n as [|n].
    + destruct p as [c|]; [pose proof (proj1 (H 0) (ex_intro _ c eq_refl)); lia|].
      cbn. apply IH. intros i. specialize (H (S i)). rewrite present_cons_S in H. rewrite H. lia.
    + pose proof (proj1 (present_cons_0 p ps) (proj2 (H 0) ltac:(lia))) as [c ->].
      cbn. f_equal. apply IH. intros i. rewrite <- (present_cons_S (Some c)), H. lia.
Qed.

Lemma count_replicate_None n : count (replicate n None) = 0.
Proof. induction n; [done|]. by rewrite replicate_S, count_cons. Qed.

Lemma present_replicate_None n i : ~ present (replicate n None) i.
Proof. intros [c Hc]. apply lookup_replicate in Hc as [? _]. done. Qed.

(** ** The invariant is preserved and no call is stuck *)

Lemma slot_ok_expire now t s : slot_ok s -> slot_ok (expire now t s).
Proof. unfold expire. by destruct (expired now t s). Qed.

Lemma new_ok n t : inner_ok (new n t).
Proof. apply Forall_replicate. done. Qed.

Lemma sweep_ok now g : inner_ok g -> inner_ok (sweep now g).
Proof.
  unfold inner_ok, sweep. cbn. intros H. apply Forall_fmap.
  eapply Forall_impl; [done|]. intros s. apply slot_ok_expire.
Qed.

Lemma slot_event_ok {E} now s i l d :
  slot_ok s -> i < NUM_SLOTS ->
  exists s' out, slot_event (E := E) now s i l d = Ok (s', out) /\ slot_ok s'.
Proof.
  intros Hs Hi. destruct s as [|a t|t|t]; cbn [slot_event]; [..|eauto|eauto].
  - destruct (l && bool_decide (i + 1 = 1)) eqn:E1; [by do 2 eexists|].
    rewrite (index_Some _ i None) by by apply lookup_replicate.
    cbn [mbind result_bind]. do 2 eexists. split; [done|].
    assert (i < length (replicate NUM_SLOTS (@None bytes))) by by rewrite length_replicate.
    constructor; cbn [parts rec_nums biggest_index_plus_one seen_last_fragment].
    + by rewrite length_insert, length_replicate.
    + rewrite count_insert by by apply lookup_replicate. by rewrite count_replicate_None.
    + split; [lia|]. apply present_insert; [done|]. left. lia.
    + intros j [->|[]%present_replicate_None]%present_insert; [lia|done].
    + intros ->. apply andb_false_iff in E1 as [|E1]; [done|].
      apply bool_decide_eq_false in E1. lia.
  - destruct Hs as [Hlen Hrec [Hpos Htop] Hmax Hopen].
    destruct (index_lt (E := E) (parts a) i) as (o & Ho & ->); [by rewrite Hlen|].
    cbn [mbind result_bind]. destruct o as [c|].
    { do 2 eexists. split; [done|]. by constructor. }
    assert (i < length (parts a)) as Hil by by rewrite Hlen.
    set (big := if bool_decide _ then i + 1 else _).
    assert (forall j, present (<[i:=Some d]> (parts a)) j -> j < big) as Hmax'.
    { intros j [->|Hj%Hmax]%present_insert; [..|done]; unfold big; case_bool_decide; lia. }
    assert (count (<[i:=Some d]> (parts a)) = rec_nums a + 1) as Hcnt
      by (rewrite count_insert, Hrec by done; lia).
    assert (big ≤ NUM_SLOTS) as Hbig.
    { destruct Htop as [c Hc%lookup_lt_Some]. rewrite Hlen in Hc.
      unfold big. case_bool_decide; lia. }
    destruct (l && _ || _ || _) eqn:Erej; [by do 2 eexists|].
    destruct ((l || seen_last_fragment a) && _) eqn:Ecomp.
    { rewrite slice_ok; [by do 2 eexists|lia|].
      rewrite length_insert, Hlen.
      pose proof (count_bounded _ _ Hmax') as [Hle _]. rewrite Hcnt in Hle. etrans; [exact Hle|exact Hbig]. }
    do 2 eexists. split; [done|].
    constructor; cbn [parts rec_nums biggest_index_plus_one seen_last_fragment].
    + by rewrite length_insert.
    + by rewrite Hcnt.
    + unfold big. clear Erej Ecomp. case_bool_decide.
      * split; [lia|]. apply present_insert; [done|]. left. lia.
      * split; [done|]. apply present_insert; [done|]. by right.
    + done.
    + intros Hl Heq. apply andb_false_iff in Ecomp as [Hc|Hc].
      * destruct l; cbn in *; congruence.
      * apply bool_decide_eq_false in Hc. done.
Qed.

Lemma step_ok {E} g e :
  inner_ok g -> exists g' out, step (E := E) g e = Ok (g', out) /\ inner_ok g'.
Proof.
  intros Hg. destruct e as [f|now]; cbn [step]; [|eauto using sweep_ok].
  unfold new_data_event. case_decide; [eauto|].
  destruct (slots g !! to_key f) as [s|] eqn:Hs; [|eauto].
  destruct (slot_event_ok (E := E) (at_time f) (expire (at_time f) (assemble_time g) s)
    (part_no f) (is_last f) (payload f)) as (s' & out & -> & Hs'); [|lia|].
  { apply slot_ok_expire. eapply Forall_lookup_1; eauto. }
  cbn. do 2 eexists. split; [done|]. by apply Forall_insert.
Qed.

Lemma run_ok {E} g es :
  inner_ok g ->
  exists g' outs, run (E := E) g es = Ok (g', outs) /\ inner_ok g' /\ length outs = length es.
Proof.
  revert g. induction es as [|e es IH]; intros g Hg; cbn [run]; [by do 2 eexists|].
  destruct (step_ok (E := E) g e Hg) as (g1 & o & -> & Hg1). cbn [mbind result_bind].
  destruct (IH g1 Hg1) as (g2 & os & -> & Hg2 & Hl). cbn [mbind result_bind].
  do 2 eexists. split_and!; [done|done|]. cbn. by rewrite Hl.
Qed.

(** ** One key at a time

    The slots are independent: what a history does to one key only depends
    on the fragments for that key and on the sweeps. *)
Definition key_step {E} (at_ : Z) (key : nat) (s : Slot) (e : event)
    : result E (Slot * option bytes) :=
  match e with
  | Sweep now => Ok (expire now at_ s, None)
  | Deliver f =>
      if decide (to_key f = key /\ part_no f < NUM_SLOTS) then
        slot_event (at_time f) (expire (at_time f) at_ s) (part_no f) (is_last f) (payload f)
      else Ok (s, None)
  end.

Fixpoint key_run {E} (at_ : Z) (key : nat) (s : Slot) (es : list event)
    : result E (Slot * list bytes) :=
  match es with
  | [] => Ok (s, [])
  | e :: es =>
      '(s, out) ← key_step at_ key s e;
      '(s, outs) ← key_run at_ key s es;
      Ok (s, option_list out ++ outs)
  end.

(** The messages that the calls for [key] returned. *)
Definition for_key (key : nat) (e : event) : bool :=
  match e with Deliver f => bool_decide (to_key f = key) | Sweep _ => false end.

Fixpoint emitted (key : nat) (es : list event) (outs : list (option bytes)) : list bytes :=
  match es, outs with
  | e :: es, o :: outs =>
      (if for_key key e then option_list o else []) ++ emitted key es outs
  | _, _ => []
  end.

Lemma step_key {E} g e g' o key s :
  step (E := E) g e = Ok (g', o) -> slots g !! key = Some s ->
  exists s', key_step (E := E) (assemble_time g) key s e
             = Ok (s', if for_key key e then o else None)
    /\ slots g' !! key = Some s' /\ assemble_time g' = assemble_time g.
Proof.
  intros H Hs. destruct e as [f|now]; cbn [step key_step for_key] in *.
  - unfold new_data_event in H. destruct (decide (NUM_SLOTS ≤ part_no f)).
    + rewrite decide_False by lia. simplify_eq. exists s. by case_bool_decide.
    + destruct (decide (to_key f = key)) as [<-|Hk].
      * rewrite decide_True by (split; [done|lia]). rewrite bool_decide_true by done.
        rewrite Hs in H. inv_ok H. destruct x as [s' out]. simplify_eq. exists s'.
        split_and!; [done|cbn|done]. apply list_lookup_insert_eq. by eapply lookup_lt_Some.
      * rewrite decide_False by tauto. rewrite bool_decide_false by done. exists s.
        destruct (slots g !! to_key f) as [sf|]; [|by simplify_eq].
        inv_ok H. destruct x as [s' out]. simplify_eq. split_and!; [done|cbn|done].
        by rewrite list_lookup_insert_ne.
  - simplify_eq. eexists. split_and!; [done| |done]. cbn. by rewrite list_lookup_fmap, Hs.
Qed.

Lemma run_key {E} g es g' outs key s :
  run (E := E) g es = Ok (g', outs) -> slots g !! key = Some s ->
  exists s', key_run (E := E) (assemble_time g) key s es = Ok (s', emitted key es outs)
    /\ slots g' !! key = Some s'.
Proof.
  revert g s outs. induction es as [|e es IH]; intros g s outs H Hs; cbn [run key_run] in *.
  - simplify_eq. by exists s.
  - inv_ok H. destruct x as [g1 o]. inv_ok H. destruct x as [g2 os]. simplify_eq.
    destruct (step_key _ _ _ _ _ _ Hx Hs) as (s1 & -> & Hs1 & Ha). cbn [mbind result_bind].
    destruct (IH g1 s1 os Hx0 Hs1) as (s2 & HE & Hs2). rewrite Ha in HE. rewrite HE.
    cbn [mbind result_bind emitted]. exists s2. split; [|done].
    do 3 f_equal. by destruct (for_key key e).
Qed.

(** ** Completeness

    The honest history of one datagram: every fragment for the key is a part
    of [ps], numbered and flagged as the sender does, inside one assembly
    window.  Order, duplicates, other keys' traffic and sweeps are arbitrary.
    The state of the slot is then determined by the set of parts seen. *)
Definition genuine (ps : list bytes) (f : fragment) : Prop :=
  ps !! part_no f = Some (payload f)
  /\ is_last f = bool_decide (part_no f + 1 = length ps).

Definition in_window (t0 at_ t : Z) : Prop := (t0 ≤ t < t0 + at_)%Z.

Definition honest (key : nat) (ps : list bytes) (t0 at_ : Z) (e : event) : Prop :=
  match e with
  | Deliver f => to_key f = key -> genuine ps f /\ in_window t0 at_ (at_time f)
  | Sweep now => in_window t0 at_ now
  end.

(** The parts of [ps] that a history delivered to the key. *)
Definition delivers (key : nat) (es : list event) (i : nat) : Prop :=
  exists f, Deliver f ∈ es /\ to_key f = key /\ part_no f = i.

Definition complete (n : nat) (seen : gset nat) : Prop := set_seq 0 n ⊆ seen.
#[export] Instance complete_dec n seen : Decision (complete n seen).
Proof. unfold complete. apply _. Defined.

Record assembling (ps : list bytes) (t0 : Z) (seen : gset nat) (a : Assembly) (t : Z) : Prop := {
  as_ok : asm_ok a;
  as_time : (t0 ≤ t)%Z;
  as_parts : forall i c, parts a !! i = Some (Some c) <-> i ∈ seen /\ ps !! i = Some c;
  as_last : seen_last_fragment a = bool_decide (length ps - 1 ∈ seen);
}.

Inductive slot_sees (ps : list bytes) (t0 : Z) (seen : gset nat) : Slot -> Prop :=
  | sees_empty : seen = ∅ -> slot_sees ps t0 seen Empty
  | sees_some a t :
      assembling ps t0 seen a t -> ~ complete (length ps) seen ->
      slot_sees ps t0 seen (Assembling a t)
  | sees_all t : (t0 ≤ t)%Z -> complete (length ps) seen -> slot_sees ps t0 seen (Done t).

Lemma slot_sees_expire ps t0 at_ now seen s :
  slot_sees ps t0 seen s -> in_window t0 at_ now -> expire now at_ s = s.
Proof.
  intros Hs [H1 H2]. unfold expire, expired, duration_since.
  destruct Hs as [|? ? []|]; [done|..]; rewrite bool_decide_false by lia; done.
Qed.

Lemma assembling_present ps t0 seen a t i :
  assembling ps t0 seen a t -> (forall j, j ∈ seen -> j < length ps) ->
  present (parts a) i <-> i ∈ seen.
Proof.
  intros [_ _ Hp _] Hseen. unfold present. setoid_rewrite Hp. split; [naive_solver|].
  intros Hi. destruct (lookup_lt_is_Some_2 ps i) as [c Hc]; [by apply Hseen|]. eauto.
Qed.


Lemma complete_spec n seen : complete n seen <-> (forall i, i < n -> i ∈ seen).
Proof.
  unfold complete. rewrite elem_of_subseteq. setoid_rewrite elem_of_set_seq.
  split; intros H i Hi; apply H; lia.
Qed.

Lemma parts_complete ps seen l :
  (forall i c, l !! i = Some (Some c) <-> i ∈ seen /\ ps !! i = Some c) ->
  complete (length ps) seen ->
  part_bytes <$> take (length ps) l = ps.
Proof.
  intros Hp Hc. rewrite complete_spec in Hc. apply list_eq. intros i.
  rewrite list_lookup_fmap. destruct (decide (i < length ps)) as [Hi|Hi].
  - rewrite lookup_take_lt by done.
    destruct (lookup_lt_is_Some_2 ps i Hi) as [c Hpc]. rewrite Hpc.
    by rewrite (proj2 (Hp i c)) by auto.
  - rewrite lookup_take_ge, lookup_ge_None_2 by lia. done.
Qed.

(** What a call returns: the whole datagram when its part completes it. *)
Definition completes (ps : list bytes) (seen : gset nat) (i : nat) : option bytes :=
  if decide (complete (length ps) ({[ i ]} ∪ seen) /\ ~ complete (length ps) seen)
  then Some (mjoin ps) else None.

Definition within (ps : list bytes) (seen : gset nat) : Prop :=
  forall j, j ∈ seen -> j < length ps.

Lemma within_add ps seen i : within ps seen -> i < length ps -> within ps ({[ i ]} ∪ seen).
Proof. intros H Hi j. set_unfold. intros [->|]; auto. Qed.

Lemma not_complete_empty (ps : list bytes) i : i < length ps -> ~ complete (length ps) ∅.
Proof. rewrite complete_spec. intros Hi H. specialize (H i Hi). set_solver. Qed.

Lemma complete_singleton (ps : list bytes) i :
  i < length ps -> complete (length ps) ({[ i ]} ∪ ∅) <-> length ps = 1.
Proof.
  intros Hi. rewrite complete_spec. split.
  - intros H. pose proof (H 0 ltac:(lia)) as H0. destruct (decide (length ps = 1)); [done|].
    pose proof (H 1 ltac:(lia)) as H1. set_unfold. naive_solver lia.
  - intros H1 j Hj. replace j with i by lia. set_solver.
Qed.

Lemma genuine_empty {E} ps t0 f :
  length ps ≤ NUM_SLOTS -> genuine ps f -> (t0 ≤ at_time f)%Z ->
  exists s', slot_event (E := E) (at_time f) Empty (part_no f) (is_last f) (payload f)
             = Ok (s', completes ps ∅ (part_no f))
    /\ slot_sees ps t0 ({[ part_no f ]} ∪ ∅) s'.
Proof.
  intros Hn [Hp Hl] Ht. pose proof (lookup_lt_Some _ _ _ Hp) as Hi.
  destruct (slot_event_ok (E := E) (at_time f) Empty (part_no f) (is_last f) (payload f))
    as (s' & o & H & Hok); [done|lia|]. rewrite H. revert H.
  pose proof (complete_singleton ps (part_no f) Hi) as Hc.
  pose proof (not_complete_empty ps (part_no f) Hi).
  set (i := part_no f) in *. unfold completes. rewrite Hl. cbn [slot_event].
  destruct (bool_decide (i + 1 = length ps) && bool_decide (i + 1 = 1)) eqn:E1.
  - apply andb_true_iff in E1 as [E1%bool_decide_eq_true E2%bool_decide_eq_true].
    intros [= <- <-]. rewrite decide_True by (split; [apply Hc; lia|done]).
    eexists. split; [|apply sees_all; [done|apply Hc; lia]]. do 3 f_equal.
    destruct ps as [|p [|]]; cbn in *; [lia| |lia].
    rewrite app_nil_r. replace i with 0 in Hp by lia. cbn in Hp. by injection Hp.
  - rewrite (index_Some _ i None) by (apply lookup_replicate; split; [done|lia]).
    cbn [mbind result_bind]. set (fresh := replicate NUM_SLOTS None). intros [= <- <-].
    assert (length ps <> 1) as Hne.
    { intros H1. rewrite !bool_decide_true in E1 by lia. done. }
    rewrite decide_False by tauto. eexists. split; [done|].
    apply sees_some; [|tauto]. split; [done|done|..]; cbn [parts seen_last_fragment].
    + intros j c. rewrite list_lookup_insert.
      assert (length fresh = NUM_SLOTS) as -> by apply length_replicate.
      destruct (decide (i = j ∧ i < NUM_SLOTS)) as [[-> _]|Hd].
      * set_unfold. split; [intros [= <-]; tauto|intros [_ ?]; congruence].
      * split; [intros [??]%lookup_replicate; done|].
        set_unfold. intros [[->|[]] _]. destruct Hd. lia.
    + apply bool_decide_ext. set_unfold. lia.
Qed.

Lemma seen_add (seen : gset nat) i : i ∈ seen -> {[ i ]} ∪ seen = seen.
Proof. set_solver. Qed.

Lemma genuine_duplicate {E} ps t0 seen s f :
  genuine ps f -> within ps seen -> part_no f ∈ seen -> length ps ≤ NUM_SLOTS ->
  slot_sees ps t0 seen s ->
  slot_event (E := E) (at_time f) s (part_no f) (is_last f) (payload f) = Ok (s, None).
Proof.
  intros [Hp _] Hw Hin Hn Hs. destruct Hs as [->|a t Ha Hc|t Ht Hc]; [set_solver| |done].
  cbn [slot_event]. destruct Ha as [Hok _ Hps _].
  rewrite (index_Some _ _ (Some (payload f))) by by apply Hps.
  done.
Qed.

(** A new part of an open assembly. *)
Section new_part.
Context (ps : list bytes) (t0 : Z) (seen : gset nat) (a : Assembly) (t : Z) (i : nat).
Context (d : bytes).
#[local] Set Default Proof Using "All".
Hypothesis (Hn : length ps ≤ NUM_SLOTS) (Hp : ps !! i = Some d).
Hypothesis (Hw : within ps seen) (Hni : i ∉ seen).
Hypothesis (Ha : assembling ps t0 seen a t).

Definition big : nat :=
  if bool_decide (biggest_index_plus_one a < i + 1) then i + 1
  else biggest_index_plus_one a.

Lemma new_lt : i < length ps.
Proof. by eapply lookup_lt_Some. Qed.

Lemma new_vacant : parts a !! i = Some None.
Proof.
  pose proof new_lt. destruct Ha as [[Hlen _ _ _ _] _ Hps _].
  destruct (lookup_lt_is_Some_2 (parts a) i) as [[c|] Hc]; [lia| |done].
  destruct Hni. by apply (Hps i c).
Qed.

Lemma new_parts j c :
  <[i:=Some d]> (parts a) !! j = Some (Some c) <-> j ∈ ({[i]} ∪ seen) /\ ps !! j = Some c.
Proof.
  pose proof new_lt. destruct Ha as [[Hlen _ _ _ _] _ Hps _].
  rewrite list_lookup_insert, Hlen.
  destruct (decide (i = j ∧ i < NUM_SLOTS)) as [[<- _]|Hd].
  - set_unfold. split; [intros [= <-]; tauto|intros [_ ?]; congruence].
  - rewrite Hps. set_unfold. split; [tauto|]. intros [[->|?] ?]; [|done].
    destruct Hd. lia.
Qed.

Lemma new_present j : present (<[i:=Some d]> (parts a)) j <-> j ∈ ({[i]} ∪ seen).
Proof.
  pose proof new_lt. unfold present. setoid_rewrite new_parts. split; [intros [? []]; done|].
  intros Hj. destruct (lookup_lt_is_Some_2 ps j) as [c Hc].
  { by apply (within_add ps seen i). }
  by exists c.
Qed.

(** The old bound is that of the parts seen. *)
Lemma top_seen : 0 < biggest_index_plus_one a ≤ length ps
  /\ biggest_index_plus_one a - 1 ∈ seen
  /\ (forall j, j ∈ seen -> j < biggest_index_plus_one a).
Proof.
  pose proof (fun j => assembling_present ps t0 seen a t j Ha Hw) as Hpres.
  destruct Ha as [[_ _ [Hpos Htop] Hmax _] _ _ _].
  rewrite Hpres in Htop. setoid_rewrite Hpres in Hmax.
  split_and!; [lia| |done|done]. specialize (Hw _ Htop). lia.
Qed.

Lemma seen_last_iff : seen_last_fragment a = true <-> length ps - 1 ∈ seen.
Proof. destruct Ha as [_ _ _ ->]. apply bool_decide_eq_true. Qed.

Lemma new_not_rejected (last := bool_decide (i + 1 = length ps))
    (upd := bool_decide (biggest_index_plus_one a < i + 1)) :
  last && seen_last_fragment a || upd && seen_last_fragment a || negb upd && last = false.
Proof.
  pose proof new_lt as Hi. pose proof top_seen as (Hb & Htop & Hmax).
  pose proof seen_last_iff as Hsl.
  assert (i + 1 = length ps -> length ps - 1 ∉ seen) as Hlast
    by (intros; by replace (length ps - 1) with i by lia).
  rewrite !orb_false_iff, !andb_false_iff, negb_false_iff. unfold last, upd.
  rewrite !bool_decide_eq_false, bool_decide_eq_true, <- not_true_iff_false, Hsl.
  split_and!.
  - destruct (decide (i + 1 = length ps)); auto.
  - destruct (decide (length ps - 1 ∈ seen)) as [H%Hmax|]; [left; lia|by right].
  - destruct (decide (i + 1 = length ps)) as [H|]; [left|by right].
    assert (biggest_index_plus_one a - 1 <> i) by (intros E; by rewrite E in Htop). lia.
Qed.

Lemma new_big : big ≤ length ps /\ (forall j, j ∈ {[i]} ∪ seen -> j < big).
Proof.
  pose proof new_lt. pose proof top_seen as (Hb & _ & Hmax). unfold big. split.
  - case_bool_decide; lia.
  - intros j Hj. set_unfold in Hj. destruct Hj as [->|Hj%Hmax]; case_bool_decide; lia.
Qed.

Lemma new_count : count (<[i:=Some d]> (parts a)) = rec_nums a + 1.
Proof.
  rewrite count_insert by apply new_vacant. destruct Ha as [[_ -> _ _ _] _ _ _]. lia.
Qed.

Lemma new_done :
  (bool_decide (i + 1 = length ps) || seen_last_fragment a) && bool_decide (rec_nums a + 1 = big)
  = bool_decide (complete (length ps) ({[ i ]} ∪ seen)).
Proof.
  pose proof new_lt as Hi. pose proof new_big as [Hb Hmax]. apply eq_true_iff_eq.
  rewrite andb_true_iff, orb_true_iff, !bool_decide_eq_true, seen_last_iff, complete_spec.
  split.
  - intros [Hlast Hrec]. rewrite <- new_count in Hrec.
    assert (big = length ps) as Hbe.
    { apply Nat.le_antisymm; [done|].
      assert (length ps - 1 < big); [|lia]. apply Hmax. set_unfold.
      destruct Hlast; [left; lia|by right]. }
    setoid_rewrite <- new_present in Hmax.
    destruct (count_bounded _ _ Hmax) as [_ Hfull].
    destruct (Hfull Hrec) as [Hall _]. intros j Hj. apply new_present, Hall. lia.
  - intros Hall.
    assert (big = length ps) as Hbe.
    { apply Nat.le_antisymm; [done|].
      assert (length ps - 1 < big); [|lia]. apply Hmax, Hall. lia. }
    split.
    + ospecialize (Hall (length ps - 1) _); [lia|]. set_unfold in Hall.
      destruct Hall; [left; lia|by right].
    + rewrite <- new_count, Hbe. apply count_full. intros j. rewrite new_present. split; [|apply Hall].
      intros Hj%Hmax. lia.
Qed.
#[local] Unset Default Proof Using.
End new_part.

Lemma genuine_assembling {E} ps t0 seen a t f :
  length ps ≤ NUM_SLOTS -> genuine ps f -> within ps seen -> part_no f ∉ seen ->
  assembling ps t0 seen a t -> ~ complete (length ps) seen -> (t0 ≤ at_time f)%Z ->
  exists s', slot_event (E := E) (at_time f) (Assembling a t) (part_no f) (is_last f) (payload f)
             = Ok (s', completes ps seen (part_no f))
    /\ slot_sees ps t0 ({[ part_no f ]} ∪ seen) s'.
Proof.
  intros Hn [Hp Hl] Hw Hni Ha Hnc Ht.
  destruct (slot_event_ok (E := E) (at_time f) (Assembling a t) (part_no f) (is_last f)
    (payload f)) as (s' & o & H & Hok); [apply Ha|apply lookup_lt_Some in Hp; lia|].
  rewrite H. revert H. cbn [slot_event].
  pose proof (new_parts _ _ _ _ _ _ _ Hn Hp Hw Hni Ha) as Hparts.
  pose proof (new_done _ _ _ _ _ _ _ Hn Hp Hw Hni Ha) as Hdone.
  rewrite (index_Some _ _ None) by (by eapply new_vacant). cbn [mbind result_bind].
  rewrite Hl, (new_not_rejected _ _ _ _ _ _ _ Hn Hp Hw Hni Ha).
  change (if bool_decide (biggest_index_plus_one a < part_no f + 1)
          then part_no f + 1 else biggest_index_plus_one a) with (big a (part_no f)).
  rewrite Hdone. unfold completes.
  destruct (decide (complete (length ps) ({[part_no f]} ∪ seen))) as [Hc|Hc].
  - rewrite (bool_decide_true (complete _ _)), decide_True by tauto.
    assert (rec_nums a + 1 = length ps) as Hrec.
    { rewrite <- (new_count _ _ _ _ _ _ _ Hn Hp Hw Hni Ha). apply count_full. intros j.
      rewrite (new_present _ _ _ _ _ _ _ Hn Hp Hw Hni Ha). split.
      - apply within_add; [done|]. by eapply lookup_lt_Some.
      - by apply complete_spec. }
    rewrite Hrec, slice_ok; [|lia|].
    2:{ rewrite length_insert. destruct Ha as [[-> _ _ _ _] _ _ _]. done. }
    cbn [mbind result_bind]. intros [= <- <-]. eexists. split; [|by apply sees_all].
    rewrite drop_0, Nat.sub_0_r, (parts_complete ps _ _ Hparts) by done. done.
  - rewrite (bool_decide_false (complete _ _)), decide_False by tauto.
    intros [= <- <-]. eexists. split; [done|]. apply sees_some; [|done].
    destruct Ha as [_ Htt _ Hsl]. split; [done|done|done|]. cbn. rewrite Hsl.
    apply lookup_lt_Some in Hp. case_bool_decide as Hlast.
    + symmetry. apply bool_decide_eq_true. set_unfold. left. lia.
    + apply bool_decide_ext. set_unfold. split; [by right|]. intros [|]; [lia|done].
Qed.

Lemma genuine_step {E} ps t0 at_ seen s f :
  length ps ≤ NUM_SLOTS -> genuine ps f -> within ps seen -> in_window t0 at_ (at_time f) ->
  slot_sees ps t0 seen s ->
  exists s', slot_event (E := E) (at_time f) (expire (at_time f) at_ s)
               (part_no f) (is_last f) (payload f)
             = Ok (s', completes ps seen (part_no f))
    /\ slot_sees ps t0 ({[ part_no f ]} ∪ seen) s'.
Proof.
  intros Hn Hg Hw Ht Hs. rewrite (slot_sees_expire _ _ _ _ _ _ Hs Ht). destruct Ht as [Ht _].
  destruct (decide (part_no f ∈ seen)) as [Hin|Hni].
  - rewrite (genuine_duplicate ps t0 seen) by done. unfold completes.
    rewrite seen_add, decide_False by tauto. by exists s.
  - destruct Hs as [->|a t Ha Hnc|t Hto Hc].
    + by apply genuine_empty.
    + by apply (genuine_assembling _ _ _ _ _ _ Hn Hg Hw Hni Ha Hnc), Ht.
    + destruct Hni. rewrite complete_spec in Hc. apply Hc.
      destruct Hg as [Hp _]. by eapply lookup_lt_Some.
Qed.

(** The parts seen after a history. *)
Fixpoint seen_by (key : nat) (seen : gset nat) (es : list event) : gset nat :=
  match es with
  | [] => seen
  | Deliver f :: es =>
      seen_by key (if decide (to_key f = key) then {[ part_no f ]} ∪ seen else seen) es
  | Sweep _ :: es => seen_by key seen es
  end.

Lemma seen_by_spec key seen es i : i ∈ seen_by key seen es <-> i ∈ seen \/ delivers key es i.
Proof.
  revert seen. unfold delivers. induction es as [|[f|now] es IH]; intros seen; cbn [seen_by].
  - set_solver.
  - rewrite IH. setoid_rewrite elem_of_cons. case_decide as Hk; set_unfold; naive_solver.
  - rewrite IH. setoid_rewrite elem_of_cons. set_unfold. naive_solver.
Qed.

Lemma seen_by_mono key seen es : seen ⊆ seen_by key seen es.
Proof. intros i Hi. apply seen_by_spec. by left. Qed.

Lemma complete_mono n s1 s2 : s1 ⊆ s2 -> complete n s1 -> complete n s2.
Proof. unfold complete. set_solver. Qed.

Definition emits (ps : list bytes) (before after : gset nat) : list bytes :=
  if decide (complete (length ps) after /\ ~ complete (length ps) before)
  then [mjoin ps] else [].

Lemma honest_key_run {E} key ps t0 at_ seen s es :
  length ps ≤ NUM_SLOTS -> within ps seen -> slot_sees ps t0 seen s ->
  Forall (honest key ps t0 at_) es ->
  exists s', key_run (E := E) at_ key s es = Ok (s', emits ps seen (seen_by key seen es))
    /\ slot_sees ps t0 (seen_by key seen es) s'.
Proof.
  intros Hn Hw Hs Hes. revert seen s Hw Hs.
  induction Hes as [|e es He Hes IH]; intros seen s Hw Hs; cbn [key_run].
  { exists s. unfold emits. cbn [seen_by]. by rewrite decide_False by tauto. }
  destruct e as [f|now]; cbn [honest key_step seen_by] in *.
  - destruct (decide (to_key f = key)) as [Hk|Hk].
    + destruct (He Hk) as [Hg Ht]. assert (part_no f < length ps) as Hi.
      { destruct Hg as [Hp _]. by eapply lookup_lt_Some. }
      rewrite decide_True by (split; [done|lia]).
      destruct (genuine_step (E := E) ps t0 at_ seen s f) as (s1 & -> & Hs1); [done..|].
      cbn [mbind result_bind].
      edestruct IH as (s2 & -> & Hs2); [by apply within_add|done|].
      cbn [mbind result_bind]. exists s2. split; [|done]. do 2 f_equal.
      pose proof (complete_mono (length ps) seen ({[part_no f]} ∪ seen) ltac:(set_solver)).
      pose proof (complete_mono (length ps) _ _ (seen_by_mono key ({[part_no f]} ∪ seen) es)).
      unfold completes, emits. repeat case_decide; tauto || done.
    + rewrite decide_False by tauto. cbn [mbind result_bind].
      destruct (IH seen s Hw Hs) as (s2 & -> & Hs2). by exists s2.
  - cbn [mbind result_bind]. rewrite (slot_sees_expire _ _ _ _ _ _ Hs He).
    destruct (IH seen s Hw Hs) as (s2 & -> & Hs2). by exists s2.
Qed.

(** ** Integrity

    Whatever the history, honest or not, what a call returns is the
    concatenation of parts [0..n] that were delivered for that very key, the
    last of them and no other flagged last.  The first of these deliveries opens
    the assembly, the last is the call itself, and each comes less than the
    window after the first. *)
Definition origin (at_ : Z) (key : nat) (past : list event) (k0 : nat) (t : Z) (i : nat) (c : bytes)
    (last : bool) : Prop :=
  exists k f, k0 ≤ k /\ past !! k = Some (Deliver f) /\ to_key f = key /\ part_no f = i /\ payload f = c
    /\ is_last f = last /\ (k = k0 \/ (at_time f < t + at_)%Z).

Definition assembled (at_ : Z) (key : nat) (es : list event) (j : nat) (m : bytes) : Prop :=
  exists ps k0 f0 f1, 0 < length ps ≤ NUM_SLOTS /\ m = mjoin ps /\ k0 ≤ j
    /\ es !! k0 = Some (Deliver f0) /\ to_key f0 = key /\ ps !! part_no f0 = Some (payload f0)
    /\ es !! j = Some (Deliver f1) /\ to_key f1 = key /\ ps !! part_no f1 = Some (payload f1)
    /\ forall i c, ps !! i = Some c ->
         origin at_ key (take (S j) es) k0 (at_time f0) i c (bool_decide (i + 1 = length ps)).

Definition slot_origin (at_ : Z) (key : nat) (past : list event) (s : Slot) : Prop :=
  match s with
  | Assembling a t => exists k0 f0,
      past !! k0 = Some (Deliver f0) /\ to_key f0 = key /\ at_time f0 = t
      /\ parts a !! part_no f0 = Some (Some (payload f0))
      /\ forall i c, parts a !! i = Some (Some c) ->
           origin at_ key past k0 t i c (seen_last_fragment a && bool_decide (i + 1 = biggest_index_plus_one a))
  | _ => True
  end.

Lemma origin_mono at_ key past es k0 t i c l :
  origin at_ key past k0 t i c l -> origin at_ key (past ++ es) k0 t i c l.
Proof. intros (k & f & Hk & Hf & H). exists k, f. split; [done|]. split; [by apply lookup_app_l_Some|done]. Qed.

Lemma slot_origin_mono at_ key past es s :
  slot_origin at_ key past s -> slot_origin at_ key (past ++ es) s.
Proof.
  destruct s; cbn; [done|..|done|done]. intros (k0 & f0 & Hf & Hk & Ht & Hp & H). exists k0, f0.
  split; [by apply lookup_app_l_Some|]. split_and!; [done..|]. intros i c Hc. by apply origin_mono, H.
Qed.

Lemma assembled_mono at_ key past es j m :
  assembled at_ key past j m -> assembled at_ key (past ++ es) j m.
Proof.
  intros (ps & k0 & f0 & f1 & Hn & Hm & Hj & H0 & K0 & P0 & H1 & K1 & P1 & H). exists ps, k0, f0, f1.
  split_and!; [lia..|done|done|by apply lookup_app_l_Some|done|done|by apply lookup_app_l_Some|done|done|].
  intros i c Hc. apply lookup_lt_Some in H1. rewrite take_app_le by lia. by apply H.
Qed.

(** The flags of an accepted part agree with its position. *)
Lemma accepted_flags (a : Assembly) i l :
  asm_ok a -> parts a !! i = Some None ->
  l && seen_last_fragment a
    || bool_decide (biggest_index_plus_one a < i + 1) && seen_last_fragment a
    || negb (bool_decide (biggest_index_plus_one a < i + 1)) && l = false ->
  l = (l || seen_last_fragment a) && bool_decide (i + 1 = big a i)
  /\ (forall j c, parts a !! j = Some (Some c) ->
       seen_last_fragment a && bool_decide (j + 1 = biggest_index_plus_one a)
       = (l || seen_last_fragment a) && bool_decide (j + 1 = big a i)).
Proof.
  intros [_ _ [Hpos [ct Htop]] Hmax _] Hv. unfold big.
  assert (biggest_index_plus_one a <> i + 1) as Hne.
  { intros E. rewrite E, Nat.add_sub in Htop. congruence. }
  destruct l, (seen_last_fragment a); cbn; try done;
    case_bool_decide as Hup; try done; intros _.
  - split; [by rewrite bool_decide_true|]. intros j c Hj. symmetry.
    apply bool_decide_eq_false. intros ?. assert (j = i) as -> by lia. congruence.
  - split; [by rewrite bool_decide_false by lia|]. done.
Qed.

Lemma accepted_origin at_ key past k0 a t f :
  asm_ok a -> k0 ≤ length past -> to_key f = key -> (at_time f < t + at_)%Z ->
  (forall i c, parts a !! i = Some (Some c) ->
     origin at_ key past k0 t i c (seen_last_fragment a && bool_decide (i + 1 = biggest_index_plus_one a))) ->
  parts a !! part_no f = Some None ->
  is_last f && seen_last_fragment a
    || bool_decide (biggest_index_plus_one a < part_no f + 1) && seen_last_fragment a
    || negb (bool_decide (biggest_index_plus_one a < part_no f + 1)) && is_last f = false ->
  forall i c, <[part_no f := Some (payload f)]> (parts a) !! i = Some (Some c) ->
    origin at_ key (past ++ [Deliver f]) k0 t i c
      ((is_last f || seen_last_fragment a) && bool_decide (i + 1 = big a (part_no f))).
Proof.
  intros Hs Hk0 Hk Hfr Ho Hv Hrej i c Hc.
  destruct (accepted_flags a (part_no f) (is_last f) Hs Hv Hrej) as [Hnew Hold].
  apply list_lookup_insert_Some in Hc as [(<- & [= <-] & _)|[_ Hc]].
  - exists (length past), f. rewrite lookup_app_r, Nat.sub_diag by done. split_and!; try done. by right.
  - rewrite <- (Hold _ _ Hc). by apply origin_mono, Ho.
Qed.

Lemma accepted_complete (a : Assembly) i d :
  asm_ok a -> parts a !! i = Some None -> rec_nums a + 1 = big a i ->
  let ps := part_bytes <$> take (big a i) (<[i := Some d]> (parts a)) in
  0 < length ps ≤ NUM_SLOTS /\ length ps = big a i
  /\ forall j c, ps !! j = Some c <-> <[i := Some d]> (parts a) !! j = Some (Some c).
Proof.
  intros [Hlen Hrec [Hpos [ct Htop]] Hmax _] Hv Hb ps. pose proof (lookup_lt_Some _ _ _ Hv).
  assert (forall j, present (<[i:=Some d]> (parts a)) j -> j < big a i) as Hm.
  { intros j [->|Hj%Hmax]%present_insert; [..|done]; unfold big; case_bool_decide; lia. }
  destruct (count_bounded _ _ Hm) as [_ Hfull].
  rewrite count_insert, <- Hrec in Hfull by done. destruct Hfull as [Hall _]; [lia|].
  assert (big a i ≤ NUM_SLOTS) as Hle.
  { apply lookup_lt_Some in Htop. unfold big. case_bool_decide; lia. }
  assert (length ps = big a i) as Hps.
  { unfold ps. rewrite length_fmap, length_take, length_insert. lia. }
  split_and!; [lia|lia|done|]. intros j c. split; intros Hj.
  2: { unfold ps. rewrite list_lookup_fmap, lookup_take_lt by (apply Hm; by exists c). by rewrite Hj. }
  pose proof (lookup_lt_Some _ _ _ Hj) as Hjl. rewrite Hps in Hjl.
  unfold ps in Hj. rewrite list_lookup_fmap, lookup_take_lt in Hj by done.
  destruct (Hall j Hjl) as [c' Hc']. rewrite Hc' in Hj |- *. by injection Hj as <-.
Qed.

Lemma slot_event_origin {E} at_ key past s f s' o :
  slot_ok s -> slot_origin at_ key past s -> to_key f = key -> part_no f < NUM_SLOTS ->
  (forall a t, s = Assembling a t -> (at_time f < t + at_)%Z) ->
  slot_event (E := E) (at_time f) s (part_no f) (is_last f) (payload f) = Ok (s', o) ->
  slot_origin at_ key (past ++ [Deliver f]) s'
  /\ forall m, o = Some m -> assembled at_ key (past ++ [Deliver f]) (length past) m.
Proof.
  intros Hs Ho Hk Hi Hw H. set (past' := past ++ [Deliver f]).
  assert (past' !! length past = Some (Deliver f)) as Hlast by by apply list_lookup_middle.
  assert (take (S (length past)) past' = past') as Htake by (apply take_ge; unfold past'; rewrite length_app; cbn; lia).
  destruct s as [|a t|t|t]; cbn [slot_event] in H; [|..|by simplify_eq|by simplify_eq].
  - assert (origin at_ key past' (length past) (at_time f) (part_no f) (payload f) (is_last f)) as Hf
      by (exists (length past), f; split_and!; try done; by left).
    destruct (is_last f && _) eqn:E1.
    + simplify_eq. split; [done|]. intros m [= <-]. apply andb_true_iff in E1 as [E1 E2%bool_decide_eq_true].
      assert (part_no f = 0) as E0 by lia. exists [payload f], (length past), f, f. rewrite E0, E1, Htake in *.
      split_and!; [cbn; lia|unfold NUM_SLOTS; cbn; lia|cbn; by rewrite app_nil_r|done..|].
      by intros i c [-> <-]%list_lookup_singleton_Some.
    + rewrite (index_Some _ _ None) in H by (apply lookup_replicate; split; [done|lia]).
      cbn [mbind result_bind] in H. set (fr := replicate NUM_SLOTS None) in *. simplify_eq.
      split; [|done]. cbn [slot_origin parts seen_last_fragment biggest_index_plus_one].
      exists (length past), f. split_and!; [done..| |].
      * apply list_lookup_insert_eq. unfold fr. by rewrite length_replicate.
      * intros i c Hc. apply list_lookup_insert_Some in Hc as [(<- & [= <-] & _)|[_ Hc]].
        -- by rewrite bool_decide_true, andb_true_r.
        -- by apply lookup_replicate in Hc as [? _].
  - destruct (index_lt (E := E) (parts a) (part_no f)) as (old & Hold & Hidx);
      [destruct Hs as [-> _ _ _ _]; done|].
    rewrite Hidx in H. cbn [mbind result_bind] in H.
    destruct old as [c|]; [simplify_eq; split; [by apply slot_origin_mono|done]|].
    destruct (is_last f && _ || _ || _) eqn:Erej; [by simplify_eq|].
    destruct Ho as (k0 & f0 & Hf0 & Hk0 & Ht & Hp0 & Ho). pose proof (lookup_lt_Some _ _ _ Hf0) as Hlt.
    pose proof (accepted_origin at_ key past k0 a t f Hs ltac:(lia) Hk (Hw a t eq_refl) Ho Hold Erej) as Hor.
    assert (part_no f <> part_no f0) as Hne by congruence.
    assert (part_no f < length (parts a)) as Hlen by by eapply lookup_lt_Some.
    assert (<[part_no f := Some (payload f)]> (parts a) !! part_no f0 = Some (Some (payload f0))) as Hp0'
      by by rewrite list_lookup_insert_ne.
    assert (past' !! k0 = Some (Deliver f0)) as Hf0' by by apply lookup_app_l_Some.
    fold (big a (part_no f)) in H.
    destruct ((is_last f || seen_last_fragment a) && _) eqn:Ecomp.
    + apply andb_true_iff in Ecomp as [Elast Erec%bool_decide_eq_true].
      rewrite Elast in Hor. rewrite Erec in H.
      destruct (accepted_complete a (part_no f) (payload f) Hs Hold Erec) as (Hn & Hl & Hps).
      inv_ok H. unfold slice in Hx. case_decide; [|done]. simplify_eq. split; [done|].
      intros m [= <-]. rewrite drop_0, Nat.sub_0_r.
      eexists _, k0, f0, f. rewrite Htake. split; [exact Hn|]. split; [done|]. split; [lia|].
      split; [done|]. split; [done|]. split; [by apply Hps|]. split; [done|]. split; [done|].
      split; [by apply Hps, list_lookup_insert_eq|]. intros i c Hc. rewrite Hl. by apply Hor, Hps.
    + simplify_eq. split; [|done]. cbn. exists k0, f0. split_and!; [done..|]. intros i c Hc.
      by destruct (is_last f); apply Hor.
Qed.

Lemma slot_origin_expire at_ at' key past now s :
  slot_origin at_ key past s -> slot_origin at_ key past (expire now at' s).
Proof. unfold expire. by destruct (expired now at' s). Qed.

Lemma key_step_origin {E} at_ key past s e s' o :
  slot_ok s -> slot_origin at_ key past s ->
  key_step (E := E) at_ key s e = Ok (s', o) ->
  slot_origin at_ key (past ++ [e]) s'
  /\ forall m, o = Some m -> assembled at_ key (past ++ [e]) (length past) m.
Proof.
  intros Hs Ho H. destruct e as [f|now]; cbn [key_step] in H.
  - case_decide as Hk.
    + destruct Hk as [Hk Hi]. pose proof (slot_ok_expire (at_time f) at_ s Hs) as Hs1.
      eapply slot_event_origin; [exact Hs1|by apply slot_origin_expire|done|done| |exact H].
      intros a t Heq. unfold expire in Heq. destruct (expired (at_time f) at_ s) eqn:Ex; [done|].
      subst s. cbn in Ex. apply bool_decide_eq_false in Ex. unfold duration_since in Ex. lia.
    + simplify_eq. split; [by apply slot_origin_mono|done].
  - simplify_eq. split; [|done]. by apply slot_origin_mono, slot_origin_expire.
Qed.

(** Every slot of the table says where its parts came from. *)
Definition table_origin (past : list event) (g : Inner) : Prop :=
  forall key s, slots g !! key = Some s -> slot_origin (assemble_time g) key past s.

Lemma step_origin {E} past g e g' o :
  inner_ok g -> table_origin past g -> step (E := E) g e = Ok (g', o) ->
  inner_ok g' /\ assemble_time g' = assemble_time g /\ length (slots g') = length (slots g) /\ table_origin (past ++ [e]) g'
  /\ forall m, o = Some m -> exists f, e = Deliver f /\ assembled (assemble_time g) (to_key f) (past ++ [e]) (length past) m.
Proof.
  intros Hg Ho H. destruct (step_ok (E := E) g e Hg) as (g1 & o1 & H1 & Hg1). rewrite H in H1. injection H1 as <- <-.
  assert (assemble_time g' = assemble_time g /\ length (slots g') = length (slots g)) as [Ht Hl].
  { destruct e as [f|now]; cbn [step] in H; [|injection H as <- _; cbn; by rewrite length_fmap].
    unfold new_data_event in H. case_decide; [by simplify_eq|]. destruct (slots g !! to_key f); [|by simplify_eq].
    inv_ok H. destruct x. simplify_eq. cbn. by rewrite length_insert. }
  split; [done|]. split; [done|]. split; [done|]. split.
  - intros key s' Hs'. destruct (lookup_lt_is_Some_2 (slots g) key) as [s Hs]; [rewrite <- Hl; by eapply lookup_lt_Some|].
    destruct (step_key _ _ _ _ _ _ H Hs) as (s2 & Hk & Hs2 & _). rewrite Hs2 in Hs'. injection Hs' as ->. rewrite Ht.
    apply key_step_origin with (past := past) in Hk as [Hk _]; [done|exact (Forall_lookup_1 _ _ _ _ Hg Hs)|by apply Ho].
  - intros m ->. destruct e as [f|now]; [|done]. exists f. split; [done|].
    destruct (slots g !! to_key f) as [s|] eqn:Hs.
    + destruct (step_key _ _ _ _ _ _ H Hs) as (s2 & Hk & _). cbn [for_key] in Hk. rewrite bool_decide_true in Hk by done.
      apply key_step_origin with (past := past) in Hk as [_ Hk]; [by apply Hk|exact (Forall_lookup_1 _ _ _ _ Hg Hs)|by apply Ho].
    + exfalso. cbn [step] in H. unfold new_data_event in H. rewrite Hs in H. by case_decide.
Qed.

Lemma run_origin {E} past g es g' outs :
  inner_ok g -> table_origin past g -> run (E := E) g es = Ok (g', outs) ->
  forall j m, outs !! j = Some (Some m) ->
    exists f, es !! j = Some (Deliver f) /\ assembled (assemble_time g) (to_key f) (past ++ es) (length past + j) m.
Proof.
  revert past g outs. induction es as [|e es IH]; intros past g outs Hg Ho H j m Hj; cbn [run] in H; [by simplify_eq|].
  inv_ok H. destruct x as [g1 o]. inv_ok H. destruct x as [g2 os]. simplify_eq.
  destruct (step_origin _ _ _ _ _ Hg Ho Hx) as (Hg1 & Ht & _ & Ho1 & Hm).
  change (past ++ e :: es) with (past ++ [e] ++ es). rewrite app_assoc. destruct j as [|j]; cbn in Hj.
  - injection Hj as ->. destruct (Hm m eq_refl) as (f & -> & Ha). exists f. split; [done|]. rewrite Nat.add_0_r. by apply assembled_mono.
  - destruct (IH _ _ _ Hg1 Ho1 Hx0 j m Hj) as (f & Hf & Ha). exists f. split; [done|]. rewrite Ht, length_app in Ha.
    cbn in Ha. by replace (length past + S j) with (length past + 1 + j) by lia.
Qed.

Lemma new_lookup n at_ key : key < n -> slots (new n at_) !! key = Some Empty.
Proof. intros. cbn. apply lookup_replicate. done. Qed.

(** The events that can touch the slot of [key]. *)
Definition concerns (key : nat) (e : event) : Prop :=
  match e with Deliver f => to_key f = key | Sweep _ => True end.
#[export] Instance concerns_dec key e : Decision (concerns key e).
Proof. destruct e; cbn; apply _. Defined.

Lemma key_run_concerns {E} at_ key s es :
  key_run (E := E) at_ key s es = key_run at_ key s (filter (concerns key) es).
Proof.
  revert s. induction es as [|e es IH]; intros s; [done|]. rewrite filter_cons.
  case_decide as Hc; cbn [key_run].
  - destruct (key_step at_ key s e) as [[s1 o]| |]; cbn [mbind result_bind]; [|done..].
    by rewrite IH.
  - destruct e as [f|]; cbn in *; [|done]. rewrite decide_False by tauto.
    cbn [mbind result_bind]. rewrite IH.
    by destruct (key_run at_ key s (filter _ es)) as [[]| |].
Qed.

Lemma honest_history {E} (n : nat) (at_ t0 : Z) (key : nat) (ps : list bytes)
    (es : list event) :
  key < n -> 0 < length ps ≤ NUM_SLOTS ->
  Forall (honest key ps t0 at_) es ->
  exists g outs,
    run (E := E) (new n at_) es = Ok (g, outs)
    /\ ((forall i, i < length ps -> delivers key es i) ->
        emitted key es outs = [mjoin ps])
    /\ (forall i, i < length ps -> ~ delivers key es i ->
        emitted key es outs = []).
Proof.
  intros Hk [Hpos Hn] Hes.
  destruct (run_ok (E := E) (new n at_) es (new_ok n at_)) as (g & outs & H & _ & _).
  exists g, outs. split; [done|].
  destruct (run_key _ _ _ _ key Empty H (new_lookup n at_ key Hk)) as (s & Hrun & _).
  destruct (honest_key_run (E := E) key ps t0 at_ ∅ Empty es) as (s' & Hrun' & _);
    [done|intros j; set_solver|by apply sees_empty|done|].
  cbn in Hrun. rewrite Hrun' in Hrun. injection Hrun as _ <-. unfold emits.
  split.
  - intros Hall. rewrite decide_True; [done|]. rewrite !complete_spec.
    setoid_rewrite seen_by_spec. split; [intros; right; auto|].
    intros H0. specialize (H0 0 Hpos). set_solver.
  - intros i Hi Hnd. rewrite decide_False; [done|]. intros [Hall _].
    rewrite complete_spec in Hall. specialize (Hall i Hi).
    apply seen_by_spec in Hall as [?|?]; [set_solver|done].
Qed.

(** C28: exactly-once delivery.  If a datagram's fragments reach the table inside one
    assembly window, in any order, with any duplicates, interleaved with any
    traffic for other offsets and any sweeps, then the calls for its offset
    return its joined parts exactly once when every part arrived, and nothing
    otherwise; no call panics. *)
Theorem reassembly_exactly_once (n : nat) (at_ t0 : Z) (key : nat) (ps : list bytes)
    (es : list event) :
  key < n -> 0 < length ps ≤ NUM_SLOTS ->
  Forall (honest key ps t0 at_) es ->
  exists g outs,
    run (E := Empty_set) (new n at_) es = Ok (g, outs)
    /\ ((forall i, i < length ps -> delivers key es i) ->
        emitted key es outs = [mjoin ps])
    /\ (forall i, i < length ps -> ~ delivers key es i ->
        emitted key es outs = []).
Proof. apply honest_history. Qed.

(** Two parts, delivered out of order with a duplicate, next to a fragment for
    another offset. *)
Definition sample_history : list event :=
  [Deliver (mkFragment 5 7 1 true (bstr "yz"));
   Deliver (mkFragment 6 9 0 true (bstr "other"));
   Deliver (mkFragment 6 7 1 true (bstr "yz"));
   Sweep 8;
   Deliver (mkFragment 9 7 0 false (bstr "wx"))].

Lemma reassembly_exactly_once_witness :
  exists g outs, run (E := Empty_set) (new 16 100) sample_history = Ok (g, outs)
    /\ emitted 7 sample_history outs = [bstr "wxyz"].
Proof.
  destruct (reassembly_exactly_once 16 100 5 7 [bstr "wx"; bstr "yz"] sample_history)
    as (g & outs & Hr & Hall & _).
  - lia.
  - unfold NUM_SLOTS. cbn. lia.
  - unfold sample_history. repeat constructor; cbn; intros; unfold in_window, genuine; cbn;
      try lia; try discriminate; (split; [split; reflexivity|lia]).
  - exists g, outs. split; [exact Hr|]. apply Hall. intros i Hi.
    destruct i as [|[|i]]; [| |cbn in Hi; lia].
    + exists (mkFragment 9 7 0 false (bstr "wx")).
      split; [apply list_elem_of_lookup_2 with 4; reflexivity|split; reflexivity].
    + exists (mkFragment 5 7 1 true (bstr "yz")).
      split; [apply list_elem_of_lookup_2 with 0; reflexivity|split; reflexivity].
Defined.

(** C29: integrity against arbitrary traffic.  Every history, hostile ones
    included, runs without a panic.  Each message that a call returns is the
    concatenation of parts [0..n], all delivered for the offset of that call,
    with exactly the final one flagged last.  One of them is the part that the
    call delivers itself; another, or the same, is the first to have been
    delivered, and the others came after it and less than the window after its
    arrival. *)
Theorem reassembly_integrity (n : nat) (at_ : Z) (es : list event) :
  exists g outs,
    run (E := Empty_set) (new n at_) es = Ok (g, outs) /\ length outs = length es
    /\ inner_ok g
    /\ forall j m, outs !! j = Some (Some m) ->
         exists f, es !! j = Some (Deliver f) /\ assembled at_ (to_key f) es j m.
Proof.
  destruct (run_ok (E := Empty_set) (new n at_) es (new_ok n at_)) as (g & outs & H & Hg & Hl).
  exists g, outs. split_and!; [done..|]. intros j m Hj.
  apply (run_origin [] _ _ _ _ (new_ok n at_)) with (j := j) (m := m) in H; [done| |done].
  intros key s Hs. cbn in Hs. by apply lookup_replicate in Hs as [-> _].
Qed.

Lemma reassembly_integrity_witness : assembled 100 7 sample_history 4 (bstr "wxyz").
Proof.
  destruct (reassembly_integrity 16 100 sample_history) as (g & outs & Hr & _ & _ & Ha).
  assert (outs !! 4 = Some (Some (bstr "wxyz"))) as Ho.
  { vm_compute in Hr. injection Hr as _ <-. vm_compute. reflexivity. }
  destruct (Ha 4 _ Ho) as (f & Hf & Hm). injection Hf as <-. exact Hm.
Defined.

(** Offsets do not interfere.  What the table returns for one offset is a
    function of the fragments for that offset and of the sweeps alone. *)
Theorem reassembly_key_independence (n : nat) (at_ : Z) (key : nat) (es1 es2 : list event)
    (g1 g2 : Inner) (outs1 outs2 : list (option bytes)) :
  key < n ->
  filter (concerns key) es1 = filter (concerns key) es2 ->
  run (E := Empty_set) (new n at_) es1 = Ok (g1, outs1) ->
  run (E := Empty_set) (new n at_) es2 = Ok (g2, outs2) ->
  emitted key es1 outs1 = emitted key es2 outs2 /\ slots g1 !! key = slots g2 !! key.
Proof.
  intros Hk Hf H1 H2.
  destruct (run_key _ _ _ _ key Empty H1 (new_lookup n at_ key Hk)) as (s1 & R1 & S1).
  destruct (run_key _ _ _ _ key Empty H2 (new_lookup n at_ key Hk)) as (s2 & R2 & S2).
  cbn in R1, R2. rewrite key_run_concerns, Hf, <- key_run_concerns, R2 in R1.
  injection R1 as <- <-. by rewrite S1, S2.
Qed.

Lemma reassembly_key_independence_witness :
  exists g1 o1 g2 o2,
    run (E := Empty_set) (new 16 100) sample_history = Ok (g1, o1)
    /\ run (E := Empty_set) (new 16 100) (filter (concerns 7) sample_history) = Ok (g2, o2)
    /\ emitted 7 sample_history o1 = emitted 7 (filter (concerns 7) sample_history) o2.
Proof.
  destruct (run_ok (E := Empty_set) (new 16 100) sample_history (new_ok 16 100))
    as (g1 & o1 & H1 & _).
  destruct (run_ok (E := Empty_set) (new 16 100) (filter (concerns 7) sample_history)
    (new_ok 16 100)) as (g2 & o2 & H2 & _).
  exists g1, o1, g2, o2. split; [exact H1|]. split; [exact H2|].
  apply (reassembly_key_independence 16 100 7 sample_history
    (filter (concerns 7) sample_history) g1 g2 o1 o2); [lia|reflexivity|exact H1|exact H2].
Defined.
