(* ===== verification/QqEngine.v ===== *)
(** * The QQ-DNS duplex engine ([src/src/qqdns/engine.rs])

    One step of each task of the engine: [h_recv] on one datagram of the local
    application, [wan_send_worker] on one queued job, [wan_recv] on one
    datagram of the listener.  Sockets and addresses are opaque; a send socket
    is its index in [send_socks].  What the network or the queue did is an
    argument of the step. *)
From stdpp Require Import gmap sets.
From S2P Require Import Prelude QqDns QqCodec Reassembly.

Definition PACKETS_QUEUE_SIZE : nat := 1024.
(** [Duration::from_secs(13)], in milliseconds. *)
Definition ASSEMBLE_TIME : Z := 13000.

Record EngineConfig : Set := mkEngineConfig {
  dns_ips : list bytes;
  send_interface_ip : bytes;
  receive_interface_ip : bytes;
  receive_port : Z;
  send_domains : list bytes;
  recv_domains : list bytes;
  h_in_address : bytes;
  h_out_address : option bytes;
  max_domain_len : Z;
  max_sub_len : Z;
  retries : nat;
  send_query_type : Z;
  packets_send_interval : Z;
  packets_wait_time_limit : Z;
  send_sock_numbers : nat;
}.

Inductive ConfigError : Set :=
  | DnsIpsEmpty
  | SendDomainsEmpty
  | RecvDomainsEmpty
  | NoSendSocks
  | MaxDomainLenTooLarge
  | MaxSubLenTooLarge
  | NoRoom (domain : bytes) (e : CodecError).

(** [max_domain_len + 2] is an addition of [usize]. *)
Definition max_encoded (cfg : EngineConfig) : Z := u64 (max_domain_len cfg + 2).

Definition validate (cfg : EngineConfig) : result ConfigError unit :=
  if decide (dns_ips cfg = []) then Err DnsIpsEmpty
  else if decide (send_domains cfg = []) then Err SendDomainsEmpty
  else if decide (recv_domains cfg = []) then Err RecvDomainsEmpty
  else if decide (send_sock_numbers cfg = 0) then Err NoSendSocks
  else if decide (255 < max_encoded cfg)%Z then Err MaxDomainLenTooLarge
  else if decide (63 < max_sub_len cfg)%Z then Err MaxSubLenTooLarge
  else Ok ().

Fixpoint build_send_domains_loop (max_enc max_sub : Z) (ds : list bytes) (out : list SendDomain)
    : result ConfigError (list SendDomain) :=
  match ds with
  | [] => Ok out
  | d :: ds =>
      let qname := encode_qname (lower_label d) in
      match get_chunk_len max_enc (Z.of_nat (length qname)) max_sub
              (Z.of_nat DATA_OFFSET_WIDTH) with
      | Ok chunk_len =>
          build_send_domains_loop max_enc max_sub ds (out ++ [mkSendDomain qname chunk_len])
      | Err e => Err (NoRoom d e)
      | Stuck s => Stuck s
      end
  end.

Definition build_send_domains (cfg : EngineConfig) : result ConfigError (list SendDomain) :=
  build_send_domains_loop (max_encoded cfg) (max_sub_len cfg) (send_domains cfg) [].

(** What [start] computes before it binds its sockets. *)
Definition start_tables (cfg : EngineConfig)
    : result ConfigError (list SendDomain * list (list bytes)) :=
  _ ← validate cfg;
  sds ← build_send_domains cfg;
  mret (sds, (fun d => label_domain (lower_label d)) <$> recv_domains cfg).

(** [rr_seed], with the old value of the counter and the clock as inputs; the
    second component is the new value of the counter. *)
Definition rr_seed (counter clock modulus : Z) : Z * Z :=
  if decide (modulus ≤ 1)%Z then (0%Z, counter)
  else (Z.modulo (Z.lxor counter clock) modulus, u64 (counter + 11400714819323198485)%Z).

(** ** Sending *)

Section engine.
Context {Addr : Type} `{EqDecision Addr}.

Record SendJob : Type := mkSendJob {
  frags : list (nat * bytes);
  entry_time : Z;
  curr_try : nat;
}.

(** A bounded channel: its queue, and whether the worker still holds the
    receiving end. *)
Record Channel : Type := mkChannel { queue : list SendJob; open_ : bool }.

Inductive TrySend : Type := Sent (c : Channel) | Full | Closed.

Definition try_send (c : Channel) (job : SendJob) : TrySend :=
  if negb (open_ c) then Closed
  else if decide (PACKETS_QUEUE_SIZE ≤ length (queue c)) then Full
  else Sent (mkChannel (queue c ++ [job]) true).

(** Everything a loop turn of [h_recv] may change. *)
Record HState : Type := mkHState {
  send_sock_index : nat;
  query_id : Z;
  data_offset_ctr : Z;
  res_index : nat;
  send_domain_index : nat;
  last_h_addr : option Addr;
  senders : list Channel;
}.

(** The task goes on, or returns because the engine is shutting down. *)
Inductive Flow : Type := Continue | Return.

(** [for fd in &final_domains { .. }]. *)
Fixpoint build_frags {E} (fds : list bytes) (qtype : Z) (n_socks sock : nat) (qid : Z)
    (frags : list (nat * bytes)) : result E (list (nat * bytes) * nat * Z) :=
  match fds with
  | [] => Ok (frags, sock, qid)
  | fd :: fds =>
      let query := build_dns_query fd qid qtype in
      s ← index (seq 0 n_socks) sock;
      build_frags fds qtype n_socks ((sock + 1) `mod` n_socks) (u16 (qid + 1))
        (frags ++ [(s, query)])
  end.

(** [for curr_try in 0..tries { .. }]. *)
Fixpoint enqueue {E} (n try_ : nat) (frags : list (nat * bytes)) (now : Z) (n_res res : nat)
    (chans : list Channel) : result E (nat * list Channel * Flow) :=
  match n with
  | O => Ok (res, chans, Continue)
  | S n =>
      c ← index chans res;
      match try_send c (mkSendJob frags now try_) with
      | Sent c' => enqueue n (try_ + 1) frags now n_res ((res + 1) `mod` n_res) (<[res := c']> chans)
      | Full => enqueue n (try_ + 1) frags now n_res ((res + 1) `mod` n_res) chans
      | Closed => Ok (res, chans, Return)
      end
  end.

(** One datagram [data] received from [src]: the new state, the fragments
    built for it if it is sent, and whether the task goes on. *)
Definition h_recv_step {E} (cfg : EngineConfig) (sds : list SendDomain) (n_res : nat)
    (use_fixed : bool) (now : Z) (st : HState) (src : Addr) (data : bytes)
    : result E (HState * list (nat * bytes) * Flow) :=
  if decide (length data = 0) then Ok (st, [], Continue) else
  if use_fixed && negb (bool_decide (last_h_addr st = Some src)) then Ok (st, [], Continue)
  else
    let addr := if use_fixed then last_h_addr st else Some src in
    let n_socks := send_sock_numbers cfg in
    let st1 := mkHState (send_sock_index st) (query_id st) (data_offset_ctr st)
                 (res_index st) (send_domain_index st) addr (senders st) in
    final_domains ← get_base32_final_domains data (data_offset_ctr st)
      (send_domain_index st) sds (Z.to_nat (max_sub_len cfg)) DATA_OFFSET_WIDTH;
    if decide (final_domains = []) then Ok (st1, [], Continue) else
    let off := Z.land (data_offset_ctr st + 1) (TOTAL_DATA_OFFSET - 1) in
    let sdi := (send_domain_index st + length final_domains) `mod` length sds in
    '(frags, sock, qid) ← build_frags final_domains (send_query_type cfg) n_socks
      (send_sock_index st) (query_id st) [];
    '(res, chans, flow) ← enqueue (retries cfg + 1) 0 frags now n_res (res_index st) (senders st);
    Ok (mkHState sock qid off res sdi addr chans, frags, flow).

(** A job popped by [wan_send_worker] after waiting [elapsed]: the sends it
    attempts, [send_ok] telling whether the [k]-th of them succeeds. *)
Fixpoint worker_loop {E} (fuel k : nat) (job : SendJob) (send_ok : nat -> bool)
    (sent : list (nat * bytes)) : result E (list (nat * bytes)) :=
  match fuel with
  | O => Ok sent
  | S fuel =>
      let n := length (frags job) in
      let reverse := bool_decide (Z.land (Z.of_nat (curr_try job)) 1 = 1%Z) in
      let i := if reverse then n - 1 - k else k in
      f ← index (frags job) i;
      if send_ok k then worker_loop fuel (k + 1) job send_ok (sent ++ [f])
      else Ok (sent ++ [f])
  end.

Definition worker_step {E} (now wait_limit : Z) (job : SendJob) (send_ok : nat -> bool)
    : result E (list (nat * bytes)) :=
  if decide (wait_limit < duration_since now (entry_time job))%Z then Ok []
  else worker_loop (length (frags job)) 0 job send_ok [].

(** ** Receiving *)

(** What one datagram made [wan_recv] do. *)
Record WanOut : Type := mkWanOut {
  emitted_to : option (Addr * bytes);
  response : option bytes;
}.

(** The data part of a parsed query: the labels before the suffix. *)
Definition data_labels {E} (labels : list bytes) (suffix : nat) : result E bytes :=
  ls ← slice labels 0 (length labels - suffix);
  Ok (mjoin (M := list) ls).

(** The fragment of a query that reaches the reassembly table. *)
Definition accepted_chunk (data_with_header : bytes) : option ChunkData :=
  if negb (is_nonempty data_with_header) then None else
  match get_chunk_data data_with_header DATA_OFFSET_WIDTH with
  | Ok cd =>
      let bad := bool_decide (fragment_part cd = 63) && negb (last_fragment cd) in
      if negb bad && is_nonempty (chunk cd) then Some cd else None
  | _ => None
  end.

Definition deliver (dest : option Addr) (joined : option bytes) : option (Addr * bytes) :=
  j ← joined; p ← result_ok (b32_decode_nopad j); d ← dest; Some (d, p).

Definition wan_recv_step {E} (rds : list (list bytes)) (dest : option Addr) (now : Z)
    (dh : Inner) (raw : bytes) : result E (Inner * WanOut) :=
  match handle_dns_request raw with
  | Stuck s => Stuck s
  | Err _ => Ok (dh, mkWanOut None None)
  | Ok parsed =>
      match match_recv_suffix (labels parsed) rds with
      | None => Ok (dh, mkWanOut None None)
      | Some suffix =>
          data_with_header ← data_labels (labels parsed) suffix;
          '(dh, joined) ←
            (match accepted_chunk data_with_header with
             | Some cd => new_data_event now dh (Z.to_nat (data_offset cd)) (fragment_part cd)
                            (last_fragment cd) (chunk cd)
             | None => Ok (dh, None)
             end);
          question ← slice raw 12 (next_question parsed);
          Ok (dh, mkWanOut (deliver dest joined)
                (Some (create_noerror_empty_response (qid parsed) (qflags parsed) question)))
      end
  end.

(** Histories of the listener: its datagrams and the ticks of the sweeper. *)
Inductive wan_event : Type :=
  | Datagram (now : Z) (raw : bytes)
  | SweepTick (now : Z).

Fixpoint wan_run {E} (rds : list (list bytes)) (dest : option Addr) (dh : Inner)
    (es : list wan_event) : result E (Inner * list WanOut) :=
  match es with
  | [] => Ok (dh, [])
  | Datagram now raw :: es =>
      '(dh, o) ← wan_recv_step rds dest now dh raw;
      '(dh, os) ← wan_run rds dest dh es;
      Ok (dh, o :: os)
  | SweepTick now :: es =>
      '(dh, os) ← wan_run rds dest (sweep now dh) es;
      Ok (dh, mkWanOut None None :: os)
  end.

Definition wan_new : Inner := new (Z.to_nat TOTAL_DATA_OFFSET) ASSEMBLE_TIME.
End engine.

(** ** The tables of [start] *)

(** The labels a configured domain contributes to a name. *)
Definition domain_labels (d : bytes) : list bytes :=
  List.filter is_nonempty (split_on is_dot (lower_label d)).

(** Entry [sd] of the table was computed for the domain [d]. *)
Definition send_entry (max_enc max_sub : Z) (d : bytes) (sd : SendDomain) : Prop :=
  qname_encoded sd = encode_qname (lower_label d)
  /\ get_chunk_len max_enc (Z.of_nat (length (qname_encoded sd))) max_sub
       (Z.of_nat DATA_OFFSET_WIDTH) = Ok (chunk_len sd).

Lemma build_send_domains_loop_spec max_enc max_sub ds out sds :
  build_send_domains_loop max_enc max_sub ds out = Ok sds ->
  exists new, sds = out ++ new /\ Forall2 (send_entry max_enc max_sub) ds new.
Proof.
  revert out. induction ds as [|d ds IH]; intros out H; cbn [build_send_domains_loop] in H.
  - injection H as <-. exists []. by rewrite app_nil_r.
  - destruct (get_chunk_len _ _ _ _) as [n| |] eqn:E; [|done..].
    apply IH in H as (new & -> & Hnew). eexists (_ :: new).
    rewrite <- app_assoc. split; [done|]. constructor; [|done]. by split.
Qed.

Lemma get_chunk_len_pos max_enc q s w n :
  get_chunk_len max_enc q s w = Ok n -> (0 ≤ w)%Z -> 0 < n.
Proof.
  unfold get_chunk_len. intros H Hw. case_decide; [done|]. injection H as <-. lia.
Qed.

Lemma get_chunk_len_sub max_enc q s w n :
  get_chunk_len max_enc q s w = Ok n -> (0 ≤ w)%Z -> (0 ≤ s)%Z -> (1 ≤ s)%Z.
Proof.
  unfold get_chunk_len. intros H Hw Hs. destruct (decide (s = 0)%Z) as [->|]; [|lia].
  revert H. unfold compute_max_m. change (0 + 1)%Z with 1%Z. rewrite Z.quot_1_r.
  rewrite decide_True; [done|]. case_decide; lia.
Qed.

Lemma start_tables_spec cfg sds rds :
  start_tables cfg = Ok (sds, rds) ->
  (max_encoded cfg ≤ 255)%Z /\ (max_sub_len cfg ≤ 63)%Z /\ 0 < send_sock_numbers cfg
  /\ sds <> []
  /\ Forall2 (send_entry (max_encoded cfg) (max_sub_len cfg)) (send_domains cfg) sds
  /\ rds = (fun d => label_domain (lower_label d)) <$> recv_domains cfg.
Proof.
  unfold start_tables, validate. intros H. inv_ok H.
  repeat (case_decide; [done|]). injection H as <- <-.
  apply build_send_domains_loop_spec in Hx0 as (new & -> & Hf). cbn [app].
  split_and!; [lia|lia|lia| |done|done].
  intros ->. inversion Hf. congruence.
Qed.

Lemma lower_label_length l : length (lower_label l) = length l.
Proof. apply length_fmap. Qed.

Lemma lower_label_idem l : lower_label (lower_label l) = lower_label l.
Proof.
  unfold lower_label. rewrite <- list_fmap_compose. apply list_fmap_ext. intros _ c _.
  cbn. unfold to_ascii_lower. repeat case_decide; lia.
Qed.

Lemma label_domain_lower d : label_domain (lower_label d) = lower_label <$> domain_labels d.
Proof. done. Qed.

(** ** The queries of one datagram *)

Lemma fragment_name_wire max_enc max_sub off d sd m i last part :
  send_entry max_enc max_sub d sd ->
  fragment_name off sd m i last part
  = wire_labels (chunks m (fragment_body off i last part) ++ domain_labels d) ++ [0%Z].
Proof.
  intros [Hq _]. unfold fragment_name. rewrite Hq, encode_qname_wire, wire_labels_app.
  by rewrite <- app_assoc.
Qed.

Lemma lower_stable l : Forall stable_char l -> lower_label l = l.
Proof.
  unfold lower_label. induction 1 as [|c l [_ Hc] _ IH]; [done|]. csimpl. by rewrite Hc, IH.
Qed.

Lemma chunks_Forall {A} (P : A -> Prop) k l : 0 < k -> Forall P l -> Forall (Forall P) (chunks k l).
Proof.
  intros Hk. revert l. apply (chunks_ind k (fun l => Forall P l -> Forall (Forall P) (chunks k l)));
    [done|constructor|]. intros l Hl IH H.
  rewrite chunks_step by done. constructor; [by apply Forall_take|].
  by apply IH, Forall_drop.
Qed.

Lemma chunks_label_ok k l :
  0 < k ≤ 63 -> Forall stable_char l -> Forall label_ok (chunks k l).
Proof.
  intros Hk Hl. pose proof (chunks_bounds k l ltac:(lia)) as Hb.
  pose proof (chunks_Forall _ k l ltac:(lia) Hl) as Hc.
  apply Forall_forall. intros c Hin. rewrite Forall_forall in Hb, Hc.
  specialize (Hb c Hin). specialize (Hc c Hin). split; [lia|].
  eapply Forall_impl; [exact Hc|]. by intros ? [].
Qed.

Lemma lower_chunks k l :
  0 < k -> Forall stable_char l -> lower_label <$> chunks k l = chunks k l.
Proof.
  intros Hk Hl. pose proof (chunks_Forall _ k l Hk Hl) as Hc.
  induction Hc as [|c cs Hc _ IH]; [done|]. cbn. by rewrite lower_stable, IH.
Qed.

(** The peer parses a fragment's query into the fragment's labels and those
    of the send domain. *)
Lemma fragment_query_parsed max_enc m off d sd i last part q_id qt :
  send_entry max_enc (Z.of_nat m) d sd -> (max_enc ≤ 255)%Z -> 0 < m ≤ 63 ->
  length off = DATA_OFFSET_WIDTH -> length part ≤ chunk_len sd ->
  Forall stable_char (fragment_body off i last part) -> Forall label_ok (domain_labels d) ->
  (0 ≤ q_id < 2 ^ 16)%Z -> (0 ≤ qt < 2 ^ 16)%Z ->
  exists n, handle_dns_request (build_dns_query (fragment_name off sd m i last part) q_id qt)
    = Ok (mkParsedQuery q_id 256
            (chunks m (fragment_body off i last part) ++ label_domain (lower_label d)) qt n).
Proof.
  intros Hsd Hmax Hm Hoff Hp Hb Hd Hid Hqt.
  pose proof Hsd as [Hq Hc].
  pose proof (fragment_name_length _ m _ off sd i last part ltac:(lia) Hoff Hc Hp) as Hlen.
  rewrite (fragment_name_wire _ _ _ _ _ _ _ _ _ Hsd) in *. unfold build_dns_query.
  rewrite length_app in Hlen. cbn in Hlen.
  eexists. rewrite handle_dns_request_wire; [|..].
  - rewrite fmap_app, lower_chunks by (done || lia). by rewrite label_domain_lower.
  - apply Forall_app. split; [by apply chunks_label_ok|done].
  - done.
  - done.
  - done.
  - done.
  - unfold MAX_QNAME_TOTAL_LEN. lia.
Qed.

(** ** Recognising our own domains *)

(** No receive domain is a proper subdomain of another one. *)
Definition suffix_free (rds : list (list bytes)) : Prop :=
  forall r1 r2, r1 ∈ rds -> r2 ∈ rds -> r1 <> [] -> r1 `suffix_of` r2 -> r1 = r2.

Lemma match_recv_suffix_Some ls rds n :
  match_recv_suffix ls rds = Some n ->
  exists rd, rd ∈ rds /\ rd <> [] /\ n = length rd /\ n ≤ length ls /\ rd `suffix_of` ls.
Proof.
  induction rds as [|rd rds IH]; cbn; [done|]. case_decide as H1.
  - intros (r & ? & ?)%IH. exists r. split; [by right|done].
  - case_decide as H2.
    + intros [= <-]. exists rd. split_and!; [by left| |done|lia|].
      * intros ->. cbn in H1. lia.
      * exists (take (length ls - length rd) ls). rewrite <- H2 at 2. by rewrite take_drop.
    + intros (r & ? & ?)%IH. exists r. split; [by right|done].
Qed.

Lemma match_recv_suffix_None ls rds rd :
  match_recv_suffix ls rds = None -> rd ∈ rds -> rd <> [] -> ~ rd `suffix_of` ls.
Proof.
  intros H Hin Hne [pre ->]. revert H. induction Hin as [r rds|r rds r' Hin IH]; cbn.
  - rewrite length_app, decide_False by (destruct r; cbn; [done|lia]).
    rewrite drop_app_exact by lia. by rewrite decide_True.
  - repeat case_decide; eauto; done.
Qed.

Lemma suffix_of_comparable {A} (l r1 r2 : list A) :
  r1 `suffix_of` l -> r2 `suffix_of` l -> r1 `suffix_of` r2 \/ r2 `suffix_of` r1.
Proof.
  intros [k1 ->] [k2 E].
  apply app_eq_inv in E as [(k & -> & ->)|(k & -> & ->)]; [left|right]; by exists k.
Qed.

Lemma match_recv_suffix_own rds pre dl :
  suffix_free rds -> dl ∈ rds -> dl <> [] ->
  match_recv_suffix (pre ++ dl) rds = Some (length dl).
Proof.
  intros Hsf Hin Hne. assert (dl `suffix_of` pre ++ dl) as Hs by by exists pre.
  destruct (match_recv_suffix (pre ++ dl) rds) as [n|] eqn:E.
  - apply match_recv_suffix_Some in E as (rd & Hrd & Hrne & -> & _ & Hrs). do 2 f_equal.
    destruct (suffix_of_comparable _ _ _ Hrs Hs) as [H|H]; [by apply Hsf|symmetry; by apply Hsf].
  - exfalso. by eapply match_recv_suffix_None in E.
Qed.

(** ** The listener as a client of the reassembly table *)

(** The fragment that a datagram contributes, if any. *)
Definition wan_fragment (rds : list (list bytes)) (now : Z) (raw : bytes) : option fragment :=
  match handle_dns_request raw with
  | Ok parsed =>
      suffix ← match_recv_suffix (labels parsed) rds;
      cd ← accepted_chunk (mjoin (take (length (labels parsed) - suffix) (labels parsed)));
      Some (mkFragment now (Z.to_nat (data_offset cd)) (fragment_part cd) (last_fragment cd)
              (chunk cd))
  | _ => None
  end.

Lemma wan_recv_step_spec {Addr E} rds (dest : option Addr) now dh raw :
  inner_ok dh -> bytes_ok raw ->
  exists dh' out, wan_recv_step (E := E) rds dest now dh raw = Ok (dh', out) /\ inner_ok dh'
    /\ match wan_fragment rds now raw with
       | Some f => exists j, step (E := E) dh (Deliver f) = Ok (dh', j)
                    /\ emitted_to out = deliver dest j
       | None => dh' = dh /\ emitted_to out = None
       end.
Proof.
  intros Hdh Hraw. unfold wan_recv_step, wan_fragment.
  pose proof (handle_dns_request_returns raw) as Hret.
  destruct (handle_dns_request raw) as [p| |] eqn:Hp; [|by do 2 eexists|done].
  destruct (match_recv_suffix (labels p) rds) as [n|] eqn:Hn; [|by do 2 eexists].
  apply match_recv_suffix_Some in Hn as (_ & _ & _ & _ & Hle & _).
  pose proof (handle_dns_request_fields raw p Hraw Hp) as (_ & _ & _ & _ & _ & Hnext).
  unfold data_labels. rewrite (slice_ok (labels p) 0) by lia. cbn [mbind result_bind option_bind].
  rewrite ?drop_0, ?Nat.sub_0_r.
  destruct (accepted_chunk _) as [cd|]; cbn [mbind result_bind option_bind].
  - destruct (step_ok (E := E) dh (Deliver (mkFragment now (Z.to_nat (data_offset cd))
      (fragment_part cd) (last_fragment cd) (chunk cd))) Hdh) as (dh' & j & Hj & Hok).
    cbn [step at_time to_key part_no is_last payload] in Hj. rewrite Hj.
    cbn [mbind result_bind]. rewrite (slice_ok raw) by lia. do 2 eexists. split; [done|].
    split; [done|]. exists j. split; [exact Hj|done].
  - rewrite (slice_ok raw) by lia. by do 2 eexists.
Qed.

(** The reassembly history of a listener's history. *)
Definition to_event (rds : list (list bytes)) (e : wan_event) : list event :=
  match e with
  | Datagram now raw =>
      match wan_fragment rds now raw with Some f => [Deliver f] | None => [] end
  | SweepTick now => [Sweep now]
  end.

Definition wan_key (rds : list (list bytes)) (e : wan_event) : option nat :=
  match e with
  | Datagram now raw => to_key <$> wan_fragment rds now raw
  | SweepTick _ => None
  end.

Definition wan_bytes_ok (e : wan_event) : Prop :=
  match e with Datagram _ raw => bytes_ok raw | SweepTick _ => True end.

(** What the history handed to the local application for one offset. *)
Fixpoint wan_delivered {Addr} (rds : list (list bytes)) (key : nat) (es : list wan_event)
    (outs : list (@WanOut Addr)) : list (Addr * bytes) :=
  match es, outs with
  | e :: es, o :: outs =>
      (if decide (wan_key rds e = Some key) then option_list (emitted_to o) else [])
      ++ wan_delivered rds key es outs
  | _, _ => []
  end.

Lemma wan_run_spec {Addr E} rds (dest : option Addr) dh es :
  inner_ok dh -> Forall wan_bytes_ok es ->
  exists dh' outs os,
    wan_run (E := E) rds dest dh es = Ok (dh', outs) /\ inner_ok dh'
    /\ run (E := E) dh (es ≫= to_event rds) = Ok (dh', os)
    /\ forall key, wan_delivered rds key es outs
         = omap (fun m => deliver dest (Some m)) (emitted key (es ≫= to_event rds) os).
Proof.
  intros Hdh Hes. revert dh Hdh. induction Hes as [|e es He Hes IH]; intros dh Hdh.
  { by exists dh, [], []. }
  destruct e as [now raw|now]; rewrite bind_cons; cbn [wan_run to_event].
  - destruct (wan_recv_step_spec (E := E) rds dest now dh raw Hdh He)
      as (dh1 & out & -> & Hok & Hf). cbn [mbind result_bind].
    destruct (IH dh1 Hok) as (dh2 & outs & os & -> & Hok2 & Hrun & Hdel).
    cbn [mbind result_bind].
    destruct (wan_fragment rds now raw) as [f|] eqn:Hfr; cbn [app].
    + destruct Hf as (j & Hj & Hout). exists dh2, (out :: outs), (j :: os).
      split_and!; [done|done| |].
      * cbn [app run]. rewrite Hj. cbn [mbind result_bind]. by rewrite Hrun.
      * intros key. cbn [wan_delivered wan_key emitted for_key]. rewrite Hfr. csimpl.
        rewrite Hdel, omap_app, Hout. f_equal. case_decide as Hk.
        -- injection Hk as Hk. rewrite bool_decide_true by done.
           destruct j as [m|]; [|done]. cbn. by destruct (deliver dest (Some m)).
        -- by rewrite bool_decide_false by congruence.
    + destruct Hf as [-> Hout]. exists dh2, (out :: outs), os. split_and!; [done..|].
      intros key. cbn [wan_delivered wan_key]. rewrite Hfr. cbn. by rewrite Hdel.
  - destruct (IH (sweep now dh) (sweep_ok now dh Hdh)) as (dh2 & outs & os & -> & Hok2 & Hrun & Hdel).
    cbn [mbind result_bind]. exists dh2, (mkWanOut None None :: outs), (None :: os).
    split_and!; [done|done| |].
    + cbn [app run step mbind result_bind]. by rewrite Hrun.
    + intros key. cbn [wan_delivered wan_key emitted for_key app]. by rewrite Hdel.
Qed.

(** ** One loop turn of the sender *)

Lemma length_fragment_names off sds m sdi i parts :
  length (fragment_names off sds m sdi i parts) = length parts.
Proof. revert sdi i. induction parts as [|p ps IH]; intros sdi i; cbn; congruence. Qed.

Lemma fragment_names_lookup off sds m sdi i parts k part :
  sdi < length sds -> parts_fit sds sdi parts -> parts !! k = Some part ->
  exists sd, sd ∈ sds /\ length part ≤ chunk_len sd
    /\ fragment_names off sds m sdi i parts !! k
       = Some (fragment_name off sd m (i + k) (bool_decide (k + 1 = length parts)) part).
Proof.
  revert sdi i k. induction parts as [|p ps IH]; intros sdi i k Hsdi Hfit Hk; [done|].
  destruct Hfit as [Hp Hfit]. destruct k as [|k]; cbn in Hk.
  - injection Hk as <-. exists (sds !!! sdi). split_and!; [|done|].
    + apply list_elem_of_lookup_2 with sdi. by apply list_lookup_lookup_total_lt.
    + cbn. rewrite Nat.add_0_r. do 3 f_equal. destruct ps; cbn; [done|].
      repeat case_bool_decide; lia || done.
  - destruct (IH ((sdi + 1) `mod` length sds) (i + 1) k) as (sd & ? & ? & E); [|done|done|].
    { apply Nat.mod_upper_bound. lia. }
    exists sd. split_and!; [done..|].
    change (fragment_names off sds m ((sdi + 1) `mod` length sds) (i + 1) ps !! k
      = Some (fragment_name off sd m (i + S k) (bool_decide (S k + 1 = length (p :: ps))) part)).
    rewrite E. cbn [length].
    replace (i + 1 + k) with (i + S k) by lia.
    by rewrite (bool_decide_ext (k + 1 = length ps) (S k + 1 = S (length ps))) by lia.
Qed.

Definition is_query (qt : Z) (n_socks : nat) (fd : bytes) (f : nat * bytes) : Prop :=
  f.1 < n_socks /\ exists q_id, (0 ≤ q_id < 2 ^ 16)%Z /\ f.2 = build_dns_query fd q_id qt.

Lemma build_frags_spec {E} fds qt n sock q_id acc :
  sock < n -> (0 ≤ q_id < 2 ^ 16)%Z ->
  exists fr sock' q_id',
    build_frags (E := E) fds qt n sock q_id acc = Ok (acc ++ fr, sock', q_id')
    /\ Forall2 (is_query qt n) fds fr /\ sock' < n /\ (0 ≤ q_id' < 2 ^ 16)%Z.
Proof.
  revert sock q_id acc. induction fds as [|fd fds IH]; intros sock q_id acc Hs Hq; cbn [build_frags].
  - exists [], sock, q_id. rewrite app_nil_r. split_and!; try done; lia.
  - rewrite (index_Some _ sock sock) by (by apply lookup_seq_lt). cbn [mbind result_bind].
    destruct (IH ((sock + 1) `mod` n) (u16 (q_id + 1)) (acc ++ [(sock, build_dns_query fd q_id qt)]))
      as (fr & s' & q' & -> & Hf & Hs' & Hq').
    { apply Nat.mod_upper_bound. lia. }
    { apply (wrap_range 16). lia. }
    eexists (_ :: fr), s', q'. rewrite <- app_assoc. split_and!; [done| |done|lia|lia].
    constructor; [|done]. split; [done|]. by exists q_id.
Qed.

Section sender.
Context {Addr : Type} `{EqDecision Addr}.
Implicit Types st : HState (Addr := Addr).

Definition channel_ok (c : Channel) : Prop := length (queue c) ≤ PACKETS_QUEUE_SIZE.

(** The indices a running [h_recv] keeps are in range and its queues within
    their capacity. *)
Record h_ok (cfg : EngineConfig) (sds : list SendDomain) (n_res : nat)
    (st : @HState Addr) : Prop := {
  h_sock : send_sock_index st < send_sock_numbers cfg;
  h_qid : (0 ≤ query_id st < 2 ^ 16)%Z;
  h_off : (0 ≤ data_offset_ctr st < TOTAL_DATA_OFFSET)%Z;
  h_res : res_index st < n_res;
  h_dom : send_domain_index st < length sds;
  h_n : length (senders st) = n_res;
  h_queues : Forall channel_ok (senders st);
}.

Lemma try_send_ok c job :
  channel_ok c ->
  match try_send c job with Sent c' => channel_ok c' | Full | Closed => True end.
Proof.
  intros Hc. unfold try_send. destruct (open_ c); [|done]. cbn [negb].
  case_decide; [done|]. unfold channel_ok in *. cbn. rewrite length_app. cbn. lia.
Qed.

Lemma enqueue_ok {E} n k fr now n_res res chans :
  res < n_res -> length chans = n_res -> Forall channel_ok chans ->
  exists res' chans' flow,
    enqueue (E := E) n k fr now n_res res chans = Ok (res', chans', flow)
    /\ res' < n_res /\ length chans' = n_res /\ Forall channel_ok chans'.
Proof.
  revert k res chans. induction n as [|n IH]; intros k res chans Hr Hn Hc; cbn [enqueue].
  { by exists res, chans, Continue. }
  destruct (index_lt (E := E) chans res) as (c & Hlk & ->); [lia|]. cbn [mbind result_bind].
  pose proof (try_send_ok c (mkSendJob fr now k)) as Ht.
  assert ((res + 1) `mod` n_res < n_res) by (apply Nat.mod_upper_bound; lia).
  destruct (try_send c _) as [c'| |]; [|by apply IH|by exists res, chans, Return].
  apply IH; [done|by rewrite length_insert|]. apply Forall_insert; [done|].
  apply Ht. by eapply Forall_lookup_1.
Qed.

Lemma next_offset off :
  (0 ≤ off)%Z -> (0 ≤ Z.land (off + 1) (TOTAL_DATA_OFFSET - 1) < TOTAL_DATA_OFFSET)%Z.
Proof.
  intros Ho. change (TOTAL_DATA_OFFSET - 1)%Z with (Z.ones 15).
  rewrite Z.land_ones by lia. apply Z.mod_pos_bound. done.
Qed.

Lemma sds_positive cfg sds rds :
  start_tables cfg = Ok (sds, rds) -> Forall (fun sd => 0 < chunk_len sd) sds.
Proof.
  intros (_ & _ & _ & _ & Hf & _)%start_tables_spec. clear -Hf.
  induction Hf as [|d sd ds sds [_ Hc] _ IH]; constructor; [|done].
  eapply get_chunk_len_pos; [exact Hc|lia].
Qed.

Lemma max_sub_positive cfg sds rds :
  start_tables cfg = Ok (sds, rds) -> (0 ≤ max_sub_len cfg)%Z -> (1 ≤ max_sub_len cfg ≤ 63)%Z.
Proof.
  intros (_ & H63 & _ & Hne & Hf & _)%start_tables_spec Hs.
  destruct Hf as [|d sd ds sds [_ Hc] _]; [done|].
  apply get_chunk_len_sub in Hc; lia.
Qed.

Lemma h_recv_step_spec {E} cfg sds rds n_res use_fixed now st src data :
  start_tables cfg = Ok (sds, rds) -> (0 ≤ max_sub_len cfg)%Z -> h_ok cfg sds n_res st ->
  exists st' fr flow,
    h_recv_step (E := E) cfg sds n_res use_fixed now st src data = Ok (st', fr, flow)
    /\ h_ok cfg sds n_res st'
    /\ (fr = [] \/ exists parts,
          let off := number_to_base32_lower (data_offset_ctr st) DATA_OFFSET_WIDTH in
          Forall2 (is_query (send_query_type cfg) (send_sock_numbers cfg))
            (fragment_names off sds (Z.to_nat (max_sub_len cfg)) (send_domain_index st) 0 parts) fr
          /\ mjoin parts = b32_encode_nopad_lower data /\ parts <> [] /\ length parts ≤ 64
          /\ parts_fit sds (send_domain_index st) parts
          /\ (b32_encode_nopad_lower data <> [] -> Forall (fun p => p <> []) parts)).
Proof.
  intros Hst Hsub [Hsock Hqid Hoff Hres Hdom Hn Hqs]. unfold h_recv_step.
  case_decide; [by do 3 eexists; split_and!; [|constructor|left]|].
  destruct (use_fixed && _); [by do 3 eexists; split_and!; [|constructor|left]|].
  pose proof (sds_positive _ _ _ Hst) as Hpos.
  pose proof (max_sub_positive _ _ _ Hst Hsub) as Hm.
  set (data32 := b32_encode_nopad_lower data).
  unfold get_base32_final_domains. fold data32.
  destruct (final_domains_loop_spec (E := E) 65 data32
    (number_to_base32_lower (data_offset_ctr st) DATA_OFFSET_WIDTH) sds
    (Z.to_nat (max_sub_len cfg)) (send_domain_index st) 0 0 [])
    as [->|(parts & -> & HJ & HN & HL & HF & HX)]; [lia|done|done|lia|lia|lia|..];
    cbn [mbind result_bind app].
  { rewrite decide_True by done. by do 3 eexists; split_and!; [|constructor|left]. }
  set (fds := fragment_names _ _ _ _ _ _) in *.
  assert (length fds = length parts) as Hfl by apply length_fragment_names.
  rewrite decide_False by (intros E0; rewrite E0 in Hfl; by destruct parts).
  destruct (build_frags_spec (E := E) fds (send_query_type cfg) (send_sock_numbers cfg)
    (send_sock_index st) (query_id st) []) as (fr & sock' & q' & -> & Hfr & Hs' & Hq'); [done..|].
  cbn [mbind result_bind app].
  destruct (enqueue_ok (E := E) (retries cfg + 1) 0 fr now n_res (res_index st) (senders st))
    as (res' & chans' & flow & -> & Hr' & Hn' & Hc'); [done..|].
  cbn [mbind result_bind]. do 3 eexists. split_and!; [done|..].
  - constructor; cbn; try done; try lia; [apply next_offset; lia|].
    apply Nat.mod_upper_bound. lia.
  - right. exists parts. split_and!; try done. intros Hne. apply HX.
    destruct data32; [done|cbn; lia].
Qed.
End sender.

(** ** The two ends together *)

(** A receive domain that is listed before every other one that contains it or is
    contained in it: the listener takes the first that is a suffix of a name. *)
Definition listed_first (rds : list (list bytes)) (dl : list bytes) : Prop :=
  exists before after, rds = before ++ dl :: after
    /\ Forall (fun r => r <> [] -> ~ r `suffix_of` dl /\ ~ dl `suffix_of` r) before.

(** The peer receives on the sender's domains, and none of them is hidden by another. *)
Record peer_ok (cfg : EngineConfig) (rds : list (list bytes)) : Prop := {
  peer_labels : Forall (fun d => Forall label_ok (domain_labels d)) (send_domains cfg);
  peer_covers : Forall (fun d => listed_first rds (label_domain (lower_label d))
                                 /\ label_domain (lower_label d) <> []) (send_domains cfg);
}.

Lemma match_recv_suffix_first rds pre dl :
  listed_first rds dl -> dl <> [] -> match_recv_suffix (pre ++ dl) rds = Some (length dl).
Proof.
  intros (before & after & -> & Hb) Hne. induction Hb as [|r before Hr _ IH]; cbn.
  - rewrite length_app, decide_False by (destruct dl; cbn; [done|lia]).
    rewrite drop_app_exact by lia. by rewrite decide_True.
  - case_decide as H1; [exact IH|]. case_decide as H2; [|exact IH]. exfalso.
    assert (r <> []) as Hrne by (intros ->; cbn in H1; lia). destruct (Hr Hrne) as [Hn1 Hn2].
    assert (r `suffix_of` pre ++ dl) as Hs.
    { exists (take (length (pre ++ dl) - length r) (pre ++ dl)). rewrite <- H2 at 2. by rewrite take_drop. }
    destruct (suffix_of_comparable _ _ dl Hs) as [H|H]; [by exists pre|done|done].
Qed.

Lemma accepted_chunk_fragment off k last part :
  (0 ≤ off < TOTAL_DATA_OFFSET)%Z -> k < 64 -> (k = 63 -> last = true) -> part <> [] ->
  accepted_chunk (fragment_body (number_to_base32_lower off DATA_OFFSET_WIDTH) k last part)
  = Some (mkChunkData off k last part).
Proof.
  intros Hoff Hk Hl Hp. unfold accepted_chunk.
  assert (is_nonempty (fragment_body (number_to_base32_lower off DATA_OFFSET_WIDTH) k last part)
          = true) as ->.
  { unfold fragment_body, DATA_OFFSET_WIDTH. rewrite number_to_base32_lower_spec. done. }
  cbn [negb]. rewrite get_chunk_data_fragment by done. cbn [fragment_part last_fragment chunk].
  destruct part as [|c part]; [done|]. cbn [is_nonempty]. rewrite andb_true_r.
  case_bool_decide as H63; [|done]. by rewrite Hl.
Qed.

Lemma query_fragment cfg sds rds0 rds off sd k last part q_id now :
  start_tables cfg = Ok (sds, rds0) -> (0 ≤ max_sub_len cfg)%Z -> peer_ok cfg rds ->
  (0 ≤ send_query_type cfg < 2 ^ 16)%Z -> (0 ≤ q_id < 2 ^ 16)%Z ->
  (0 ≤ off < TOTAL_DATA_OFFSET)%Z -> sd ∈ sds ->
  k < 64 -> (k = 63 -> last = true) ->
  part <> [] -> length part ≤ chunk_len sd -> Forall stable_char part ->
  wan_fragment rds now
    (build_dns_query
       (fragment_name (number_to_base32_lower off DATA_OFFSET_WIDTH) sd
          (Z.to_nat (max_sub_len cfg)) k last part) q_id (send_query_type cfg))
  = Some (mkFragment now (Z.to_nat off) k last part).
Proof.
  intros Hst Hsub [Hlab Hcov] Hqt Hqid Hoff Hsd Hk Hl Hp Hlen Hstab.
  pose proof (max_sub_positive _ _ _ Hst Hsub) as Hm.
  apply start_tables_spec in Hst as (Hmax & _ & _ & _ & Hf & _).
  apply list_elem_of_lookup_1 in Hsd as [j Hj].
  destruct (Forall2_lookup_r _ _ _ _ _ Hf Hj) as (d & Hd & Hent).
  rewrite <- (Z2Nat.id (max_sub_len cfg)) in Hent by done.
  pose proof (Forall_lookup_1 _ _ _ _ Hlab Hd) as Hlok.
  destruct (Forall_lookup_1 _ _ _ _ Hcov Hd) as [Hin Hne].
  set (body := fragment_body (number_to_base32_lower off DATA_OFFSET_WIDTH) k last part).
  destruct (fragment_query_parsed _ (Z.to_nat (max_sub_len cfg))
    (number_to_base32_lower off DATA_OFFSET_WIDTH) d sd k last part q_id
    (send_query_type cfg) Hent) as (n & Hparse);
    [done|lia|apply length_number_to_base32|done|by apply fragment_body_stable|done..|].
  unfold wan_fragment. rewrite Hparse. cbn [labels].
  rewrite match_recv_suffix_first by done. cbn [mbind option_bind].
  rewrite length_app, Nat.add_sub, take_app_length, concat_chunks by lia.
  by rewrite accepted_chunk_fragment.
Qed.

(** A history of the peer that carries this datagram's queries: each event
    for the offset is one of the queries, everything is inside the window. *)
Definition carries (rds : list (list bytes)) (qs : list bytes) (key : nat) (t0 : Z)
    (e : wan_event) : Prop :=
  match e with
  | Datagram now raw =>
      bytes_ok raw /\ (wan_key rds e = Some key -> raw ∈ qs /\ in_window t0 ASSEMBLE_TIME now)
  | SweepTick now => in_window t0 ASSEMBLE_TIME now
  end.

Definition arrives (es : list wan_event) (raw : bytes) : Prop :=
  exists now, Datagram now raw ∈ es.

Section transfer.
Context (rds : list (list bytes)) (qs : list bytes) (key : nat) (t0 : Z) (ps : list bytes).
Hypothesis (Hq : forall k q, qs !! k = Some q -> exists part, ps !! k = Some part
  /\ forall now, wan_fragment rds now q
     = Some (mkFragment now key k (bool_decide (k + 1 = length ps)) part)).

Lemma carries_honest es :
  Forall (carries rds qs key t0) es ->
  Forall (honest key ps t0 ASSEMBLE_TIME) (es ≫= to_event rds).
Proof.
  induction 1 as [|e es He _ IH]; [constructor|]. rewrite bind_cons.
  apply Forall_app. split; [|done]. destruct e as [now raw|now]; cbn in *.
  - destruct He as [_ He]. destruct (wan_fragment rds now raw) as [f|] eqn:Hf; [|constructor].
    apply Forall_singleton. intros Hk. cbn in He.
    destruct He as [Hin Hw]; [by rewrite Hk|].
    apply list_elem_of_lookup_1 in Hin as [k Hk'].
    destruct (Hq _ _ Hk') as (part & Hpart & Hfr). rewrite Hfr in Hf. injection Hf as <-.
    split; [|done]. by split.
  - by apply Forall_singleton.
Qed.

Lemma arrives_delivers es k q :
  qs !! k = Some q -> arrives es q -> delivers key (es ≫= to_event rds) k.
Proof.
  intros Hk [now Hin]. destruct (Hq _ _ Hk) as (part & _ & Hfr).
  eexists. split_and!; [|..].
  - apply list_elem_of_bind. eexists. split; [|exact Hin]. cbn. rewrite Hfr.
    apply list_elem_of_singleton. done.
  - done.
  - done.
Qed.
End transfer.

Lemma length_is_query qt n fds fr : Forall2 (is_query qt n) fds fr -> length fds = length fr.
Proof. apply Forall2_length. Qed.

Lemma Forall_mjoin_inv {A} (P : A -> Prop) ls : Forall P (mjoin ls) -> Forall (Forall P) ls.
Proof.
  induction ls as [|l ls IH]; [constructor|]. change (mjoin (l :: ls)) with (l ++ mjoin ls).
  intros [Hl Hls]%Forall_app. constructor; auto.
Qed.

(** Each query sent for the datagram is, at the peer, one of its parts. *)
Lemma sent_query_fragment {Addr : Type} (cfg : EngineConfig) sds rds0 rds n_res
    (st : HState (Addr := Addr)) data parts frags :
  start_tables cfg = Ok (sds, rds0) -> (0 ≤ max_sub_len cfg)%Z ->
  (0 ≤ send_query_type cfg < 2 ^ 16)%Z -> peer_ok cfg rds ->
  h_ok cfg sds n_res st -> bytes_ok data ->
  Forall2 (is_query (send_query_type cfg) (send_sock_numbers cfg))
    (fragment_names (number_to_base32_lower (data_offset_ctr st) DATA_OFFSET_WIDTH) sds
       (Z.to_nat (max_sub_len cfg)) (send_domain_index st) 0 parts) frags ->
  mjoin parts = b32_encode_nopad_lower data -> length parts ≤ 64 ->
  parts_fit sds (send_domain_index st) parts -> Forall (fun p => p <> []) parts ->
  forall k q, (snd <$> frags) !! k = Some q -> exists part, parts !! k = Some part
    /\ forall now, wan_fragment rds now q
       = Some (mkFragment now (Z.to_nat (data_offset_ctr st)) k
                 (bool_decide (k + 1 = length parts)) part).
Proof.
  intros Hst Hsub Hqt Hpeer Hok Hdata Hf HJ HL Hfit Hnon.
  assert (Forall (Forall stable_char) parts) as Hstab.
  { apply Forall_mjoin_inv. rewrite HJ. by apply b32_encode_stable. }
  intros k q Hk. rewrite list_lookup_fmap in Hk.
  destruct (frags !! k) as [[s q']|] eqn:Hfk; [|done]. injection Hk as ->.
  destruct (Forall2_lookup_r _ _ _ _ _ Hf Hfk) as (fd & Hfd & _ & q_id & Hqid & Hbq).
  pose proof (lookup_lt_Some _ _ _ Hfd) as Hlt. rewrite length_fragment_names in Hlt.
  destruct (lookup_lt_is_Some_2 parts k Hlt) as [part Hpart]. exists part. split; [done|].
  destruct (fragment_names_lookup (number_to_base32_lower (data_offset_ctr st) DATA_OFFSET_WIDTH)
    sds (Z.to_nat (max_sub_len cfg)) (send_domain_index st) 0 parts k part)
    as (sd & Hsd & Hlen & E); [apply Hok|done|done|].
  rewrite E in Hfd. injection Hfd as <-. cbn in Hbq. rewrite Hbq. intros now'.
  eapply query_fragment; try done; [apply Hok|lia| |..].
  - intros ->. apply bool_decide_eq_true. lia.
  - by eapply Forall_lookup_1 in Hnon.
  - by eapply Forall_lookup_1 in Hstab.
Qed.

(** ** The pacing worker *)

Lemma odd_of_nat n : Z.odd (Z.of_nat n) = Nat.odd n.
Proof.
  induction n as [|n IH]; [done|].
  by rewrite Nat2Z.inj_succ, Z.odd_succ, Nat.odd_succ, <- Z.negb_odd, <- Nat.negb_odd, IH.
Qed.

Lemma worker_loop_all {E} fuel k (job : SendJob) acc :
  fuel + k = length (frags job) ->
  let order := if bool_decide (Z.land (Z.of_nat (curr_try job)) 1 = 1%Z)
               then reverse (frags job) else frags job in
  worker_loop (E := E) fuel k job (fun _ => true) acc = Ok (acc ++ drop k order).
Proof.
  intros Hk order. assert (length order = length (frags job)) as Hlen.
  { unfold order. case_bool_decide; [apply length_reverse|done]. }
  revert k acc Hk. induction fuel as [|fuel IH]; intros k acc Hk; cbn [worker_loop].
  - rewrite drop_ge by lia. by rewrite app_nil_r.
  - set (i := if bool_decide _ then _ else _).
    destruct (lookup_lt_is_Some_2 order k) as [f Hf]; [lia|].
    assert (frags job !! i = Some f) as Hi.
    { rewrite <- Hf. unfold i, order. case_bool_decide; [|done].
      rewrite reverse_lookup by lia. f_equal. lia. }
    rewrite (index_Some _ i f Hi). cbn [mbind result_bind]. rewrite IH by lia.
    rewrite <- app_assoc. do 2 f_equal. rewrite (drop_S order f k) by done.
    by rewrite Nat.add_1_r.
Qed.

(** C1: the tunnel delivers.  Take any datagram that the sending engine accepts and
    turns into queries, and a peer that receives on the sender's domains, where none of
    these is listed after another receive domain that contains it or is contained in it
    (the listener takes the first suffix listed, so such a domain is hidden).  In every
    history of the peer's listener whose sweeps lie within one assembly window and in
    which all those queries arrive within it (in any order, any of them any number of
    times, mixed with arbitrary other datagrams that do not use the same offset), the
    local application at [dest] is handed exactly that datagram, exactly once, and the
    listener never panics. *)
Theorem tunnel_end_to_end {Addr : Type} `{EqDecision Addr}
    (cfg : EngineConfig) (sds : list SendDomain) (rds0 rds : list (list bytes)) (n_res : nat)
    (use_fixed : bool) (now : Z) (st st' : HState (Addr := Addr)) (src dest : Addr)
    (data : bytes) (frags : list (nat * bytes)) (flow : Flow) (t0 : Z) (es : list wan_event) :
  start_tables cfg = Ok (sds, rds0) -> (0 ≤ max_sub_len cfg)%Z ->
  (0 ≤ send_query_type cfg < 2 ^ 16)%Z -> peer_ok cfg rds ->
  h_ok cfg sds n_res st -> bytes_ok data ->
  h_recv_step (E := Empty_set) cfg sds n_res use_fixed now st src data = Ok (st', frags, flow) ->
  frags <> [] ->
  Forall (carries rds (snd <$> frags) (Z.to_nat (data_offset_ctr st)) t0) es ->
  Forall (fun f => arrives es f.2) frags ->
  exists dh outs,
    wan_run (E := Empty_set) rds (Some dest) wan_new es = Ok (dh, outs)
    /\ wan_delivered rds (Z.to_nat (data_offset_ctr st)) es outs = [(dest, data)].
Proof.
  intros Hst Hsub Hqt Hpeer Hok Hdata Hstep Hne Hes Harr.
  set (key := Z.to_nat (data_offset_ctr st)) in *.
  destruct (h_recv_step_spec (E := Empty_set) cfg sds rds0 n_res use_fixed now st src data
    Hst Hsub Hok) as (st1 & fr1 & flow1 & E1 & _ & Hcases).
  rewrite Hstep in E1. injection E1 as <- <- <-.
  destruct Hcases as [|(parts & Hf & HJ & HN & HL & Hfit & Hnon)]; [done|].
  assert (data <> []) as Hdne.
  { intros ->. cbn in Hstep. by injection Hstep as _ <- _. }
  specialize (Hnon (b32_encode_nonempty data Hdata Hdne)).
  pose proof (sent_query_fragment _ _ _ _ _ _ _ _ _ Hst Hsub Hqt Hpeer Hok Hdata Hf HJ HL Hfit Hnon)
    as Hq. fold key in Hq.
  destruct (wan_run_spec (E := Empty_set) rds (Some dest) wan_new es)
    as (dh & outs & os & Hrun & _ & Hos & Hdel); [apply new_ok| |].
  { eapply Forall_impl; [exact Hes|]. intros [? ?|?]; [by intros []|done]. }
  exists dh, outs. split; [done|]. rewrite Hdel.
  destruct (honest_history (E := Empty_set) (Z.to_nat TOTAL_DATA_OFFSET) ASSEMBLE_TIME t0 key parts
    (es ≫= to_event rds)) as (g & os' & Hg & Hall & _).
  { destruct Hok. unfold key. lia. }
  { destruct parts; [done|cbn in *; unfold NUM_SLOTS; lia]. }
  { by eapply carries_honest. }
  unfold wan_new in Hos. rewrite Hg in Hos. injection Hos as _ ->.
  rewrite Hall, HJ.
  - cbn. by rewrite (b32_decode_encode_values data).
  - intros k Hk. assert (length frags = length parts) as Hfl
      by (by rewrite <- (length_is_query _ _ _ _ Hf), length_fragment_names).
    destruct (lookup_lt_is_Some_2 frags k) as [f Hfk]; [lia|].
    eapply arrives_delivers; [exact Hq| |by eapply Forall_lookup_1 in Harr].
    by rewrite list_lookup_fmap, Hfk.
Qed.

(** A configuration of both ends, for the concrete checks. *)
Definition sample_cfg : EngineConfig :=
  mkEngineConfig [bstr "9.9.9.9"] (bstr "0.0.0.0") (bstr "0.0.0.0") 53
    [bstr "T.example.com"] [bstr "u.example.org"] (bstr "127.0.0.1:9000") None 60 20 1 28 0 1000 2.
Definition sample_sds : list SendDomain :=
  match start_tables sample_cfg with Ok (sds, _) => sds | _ => [] end.
Definition sample_peer_rds : list (list bytes) := [label_domain (bstr "t.example.com")].
Definition sample_state : HState (Addr := nat) :=
  mkHState 0 65535 32767 0 0 None [mkChannel [] true].
Definition sample_data : bytes := bstr "a datagram of two fragments ....".
Definition sample_step : HState (Addr := nat) * list (nat * bytes) * Flow :=
  match h_recv_step (E := Empty_set) sample_cfg sample_sds 1 false 0 sample_state 77 sample_data with
  | Ok r => r
  | _ => (sample_state, [], Continue)
  end.
(** Last fragment first, then everything twice. *)
Definition sample_arrivals : list wan_event :=
  (fun q => Datagram 10 q)
    <$> (reverse (snd <$> sample_step.1.2) ++ (snd <$> sample_step.1.2)).

Lemma tunnel_end_to_end_witness :
  2 ≤ length sample_step.1.2
  /\ exists dh outs,
    wan_run (E := Empty_set) sample_peer_rds (Some 99) wan_new sample_arrivals = Ok (dh, outs)
    /\ wan_delivered sample_peer_rds 32767 sample_arrivals outs = [(99, sample_data)].
Proof.
  split; [evaluate|].
  apply (tunnel_end_to_end (Addr := nat) sample_cfg sample_sds
    [label_domain (bstr "u.example.org")] sample_peer_rds 1 false 0 sample_state
    sample_step.1.1 77 99 sample_data sample_step.1.2 sample_step.2 0 sample_arrivals).
  - vm_compute. reflexivity.
  - cbn. lia.
  - cbn. lia.
  - split.
    + unfold label_ok. evaluate.
    + constructor; [|constructor]. split; [|discriminate].
      exists [], []. split; [vm_compute; reflexivity|constructor].
  - split; [evaluate|evaluate|evaluate|evaluate|evaluate|reflexivity|].
    constructor; [unfold channel_ok; evaluate|constructor].
  - evaluate.
  - vm_compute. reflexivity.
  - vm_compute. discriminate.
  - apply Forall_forall. intros e (q & -> & Hq)%list_elem_of_fmap.
    assert (q ∈ sample_step.1.2.*2) as Hin.
    { apply elem_of_app in Hq as [Hq|Hq]; [apply elem_of_reverse in Hq; exact Hq|exact Hq]. }
    split; [|intros _; split; [exact Hin|unfold in_window, ASSEMBLE_TIME; lia]].
    clear Hq. revert q Hin. apply Forall_forall. evaluate.
  - apply Forall_forall. intros f Hf. exists 10%Z. apply list_elem_of_fmap. exists f.2.
    split; [reflexivity|]. apply elem_of_app. right. apply list_elem_of_fmap. exists f.
    split; [reflexivity|exact Hf].
Defined.

(** C36: the listener survives anything.  Whatever bytes arrive, [wan_recv] neither
    panics nor leaves the reassembly table inconsistent, and it answers
    exactly the queries that parse and name one of our domains, with a
    response that no engine parses as a query. *)
Theorem wan_recv_total {Addr : Type} (rds : list (list bytes)) (dest : option Addr) (now : Z)
    (dh : Inner) (raw : bytes) :
  inner_ok dh -> bytes_ok raw ->
  exists dh' out,
    wan_recv_step (E := Empty_set) rds dest now dh raw = Ok (dh', out) /\ inner_ok dh'
    /\ (is_Some (response out) <->
         exists p, handle_dns_request raw = Ok p /\ is_Some (match_recv_suffix (labels p) rds))
    /\ (forall r, response out = Some r -> handle_dns_request r = Err NotAQuery).
Proof.
  intros Hdh Hraw.
  destruct (wan_recv_step_spec (E := Empty_set) rds dest now dh raw Hdh Hraw)
    as (dh' & out & E & Hok & _). exists dh', out. split; [done|]. split; [done|].
  unfold wan_recv_step in E.
  destruct (handle_dns_request raw) as [p|e|s] eqn:Hp; [| |done].
  2:{ simplify_eq. split; [|done]. split; [by intros []|by intros (? & ? & _)]. }
  destruct (match_recv_suffix (labels p) rds) as [n|] eqn:Hn.
  2:{ simplify_eq. split; [|done]. split; [by intros []|].
      intros (p' & [= <-] & Hs). rewrite Hn in Hs. by destruct Hs. }
  inv_ok E. destruct x0 as [dh1 j]. inv_ok E. simplify_eq. cbn [response].
  destruct (question_slice (E := Empty_set) raw p Hraw Hp) as (q & Hq & Hl).
  rewrite Hq in Hx1. injection Hx1 as <-. split.
  - split; [|eauto]. intros _. exists p. by rewrite Hn.
  - intros r [= <-]. apply response_rejected; [|done].
    by destruct (handle_dns_request_fields _ _ Hraw Hp).
Qed.

Lemma wan_recv_total_witness :
  exists dh' out,
    wan_recv_step (E := Empty_set) sample_peer_rds (Some 99) 0 wan_new (bstr "garbage")
    = Ok (dh', out) /\ inner_ok dh'.
Proof.
  destruct (wan_recv_total sample_peer_rds (Some 99) 0 wan_new (bstr "garbage"))
    as (dh' & out & H & Hok & _); [apply new_ok|evaluate|].
  exists dh', out. split; [exact H|exact Hok].
Defined.

(** The sender stays in range.  From a state whose indices and queues are in
    range, one turn of [h_recv] on any datagram from anyone neither panics
    nor leaves that range: the queues stay within their capacity, the offset
    within the offset space. *)
Theorem h_recv_in_range {Addr : Type} `{EqDecision Addr} (cfg : EngineConfig)
    (sds : list SendDomain) (rds : list (list bytes)) (n_res : nat) (use_fixed : bool) (now : Z)
    (st : HState (Addr := Addr)) (src : Addr) (data : bytes) :
  start_tables cfg = Ok (sds, rds) -> (0 ≤ max_sub_len cfg)%Z -> h_ok cfg sds n_res st ->
  exists st' frags flow,
    h_recv_step (E := Empty_set) cfg sds n_res use_fixed now st src data = Ok (st', frags, flow)
    /\ h_ok cfg sds n_res st' /\ length frags ≤ 64.
Proof.
  intros Hst Hsub Hok.
  destruct (h_recv_step_spec (E := Empty_set) cfg sds rds n_res use_fixed now st src data
    Hst Hsub Hok) as (st' & fr & flow & E & Hok' & Hc).
  exists st', fr, flow. split_and!; [done..|].
  destruct Hc as [->|(parts & Hf & _ & _ & HL & _)]; [cbn; lia|].
  apply length_is_query in Hf. rewrite length_fragment_names in Hf. lia.
Qed.

Lemma h_recv_in_range_witness :
  exists st' frags flow,
    h_recv_step (E := Empty_set) sample_cfg sample_sds 1 false 0 sample_state 77 sample_data
    = Ok (st', frags, flow) /\ h_ok sample_cfg sample_sds 1 st'.
Proof.
  destruct (h_recv_in_range (Addr := nat) sample_cfg sample_sds [label_domain (bstr "u.example.org")]
    1 false 0 sample_state 77 sample_data) as (st' & fr & flow & H & Hok & _).
  - vm_compute. reflexivity.
  - cbn. lia.
  - split; [evaluate|evaluate|evaluate|evaluate|evaluate|reflexivity|].
    constructor; [unfold channel_ok; evaluate|constructor].
  - exists st', fr, flow. split; [exact H|exact Hok].
Defined.

(** The server role is closed to strangers.  With a fixed local address a
    datagram from any other source changes nothing and sends nothing. *)
Theorem h_recv_gate {Addr : Type} `{EqDecision Addr} (cfg : EngineConfig)
    (sds : list SendDomain) (n_res : nat) (now : Z) (st : HState (Addr := Addr)) (src : Addr)
    (data : bytes) :
  last_h_addr st <> Some src ->
  h_recv_step (E := Empty_set) cfg sds n_res true now st src data = Ok (st, [], Continue).
Proof.
  intros Hne. unfold h_recv_step. case_decide; [done|].
  by rewrite bool_decide_false by done.
Qed.

Lemma h_recv_gate_witness :
  h_recv_step (E := Empty_set) sample_cfg sample_sds 1 true 0 sample_state 77 sample_data
  = Ok (sample_state, [], Continue).
Proof. apply (h_recv_gate sample_cfg sample_sds 1 0 sample_state 77 sample_data). discriminate. Defined.

(** The worker sends everything it should.  A job that waited past the limit is
    dropped whole; any other has each of its fragments sent exactly once, in
    order on even tries and in reverse order on odd ones. *)
Theorem worker_sends_each_once (now wait_limit : Z) (job : SendJob) :
  worker_step (E := Empty_set) now wait_limit job (fun _ => true)
  = Ok (if decide (wait_limit < duration_since now (entry_time job))%Z then []
        else if Nat.odd (curr_try job) then reverse (frags job) else frags job).
Proof.
  unfold worker_step. case_decide; [done|]. rewrite worker_loop_all by lia. cbn [app].
  rewrite drop_0. do 2 f_equal.
  assert (Z.land (Z.of_nat (curr_try job)) 1 = Z.b2z (Nat.odd (curr_try job))) as ->.
  { change 1%Z with (Z.ones 1). rewrite Z.land_ones by lia.
    rewrite <- Z.bit0_mod, Z.bit0_odd. f_equal. apply odd_of_nat. }
  by destruct (Nat.odd _).
Qed.

(** Suffix matching is sound and complete: [Some n] means that the last [n]
    labels are one of our domains, [None] that no domain is a suffix; and
    when no receive domain is a proper subdomain of another the match is the
    domain itself, whatever data labels precede it. *)
Theorem match_recv_suffix_correct (ls : list bytes) (rds : list (list bytes)) :
  (forall n, match_recv_suffix ls rds = Some n ->
     exists rd, rd ∈ rds /\ rd <> [] /\ n = length rd /\ n ≤ length ls /\ rd `suffix_of` ls)
  /\ (match_recv_suffix ls rds = None ->
      forall rd, rd ∈ rds -> rd <> [] -> ~ rd `suffix_of` ls)
  /\ (suffix_free rds -> forall pre dl, ls = pre ++ dl -> dl ∈ rds -> dl <> [] ->
      match_recv_suffix ls rds = Some (length dl)).
Proof.
  split_and!.
  - intros n. apply match_recv_suffix_Some.
  - intros H rd. by apply match_recv_suffix_None.
  - intros Hsf pre dl -> Hin Hne. by apply match_recv_suffix_own.
Qed.

(** With nested receive domains the first listed one wins: a query for the inner
    domain then keeps one of its labels as tunnel data. *)
Example nested_domains_shadow :
  match_recv_suffix [bstr "data"; bstr "t"; bstr "example"; bstr "com"]
    [[bstr "example"; bstr "com"]; [bstr "t"; bstr "example"; bstr "com"]] = Some 2.
Proof. reflexivity. Qed.
