(* ===== verification/QqConfig.v ===== *)
(** * QQ-DNS configuration ([src/src/qqdns/config.rs])

    The checks that decide whether the transport runs, and the engine
    configuration built from the settings row.  Strings are their UTF-8
    bytes.  The JSON parser is third-party code: its [from_str] on a string
    array is the parameter of the section. *)
From S2P Require Import Prelude Text QqDns QqCodec QqEngine.

Record QqdnsSettings : Set := mkQqdnsSettings {
  s_enabled : bool;
  s_dns_ips : bytes;
  s_send_domains : bytes;
  s_recv_domains : bytes;
  s_send_interface_ip : bytes;
  s_receive_interface_ip : bytes;
  s_receive_port : Z;
  s_h_in_address : bytes;
  s_cb_target_port : Z;
  s_max_domain_len : Z;
  s_max_sub_len : Z;
  s_retries : Z;
  s_send_query_type : Z;
  s_packets_send_interval_ms : Z;
  s_packets_wait_time_limit_ms : Z;
  s_send_sock_numbers : Z;
}.

(** The two columns of the interface row that are read here. *)
Record Interface : Set := mkInterface { if_enabled : bool; if_port : Z }.

Inductive Disabled : Set :=
  | TransportDisabled
  | InterfaceDisabled
  | NoResolvers
  | NoSendDomains
  | NoRecvDomains
  | BadHInAddress
  | ReceivePortRange
  | TargetPortRange
  | MaxDomainLenRange
  | MaxSubLenRange
  | NoSendSockets.

Lemma build_send_domains_loop_cases max_enc max_sub ds out :
  (exists sds, build_send_domains_loop max_enc max_sub ds out = Ok sds)
  \/ exists d, d ∈ ds /\ build_send_domains_loop max_enc max_sub ds out = Err (NoRoom d DomainTooSmall).
Proof.
  revert out. induction ds as [|d ds IH]; intros out; cbn [build_send_domains_loop];
    [left; by eexists|].
  unfold get_chunk_len. case_decide.
  - right. exists d. split; [by left|done].
  - edestruct IH as [[sds ->]|(d' & Hd & ->)]; [left; by eexists|].
    right. exists d'. split; [by right|done].
Qed.

Lemma start_tables_cases cfg :
  validate cfg = Ok () ->
  (exists sds rds, start_tables cfg = Ok (sds, rds))
  \/ exists d, d ∈ send_domains cfg /\ start_tables cfg = Err (NoRoom d DomainTooSmall).
Proof.
  intros Hv. unfold start_tables, build_send_domains. rewrite Hv. cbn [mbind result_bind].
  destruct (build_send_domains_loop_cases (max_encoded cfg) (max_sub_len cfg) (send_domains cfg) [])
    as [[sds ->]|(d & Hd & ->)]; [left; by do 2 eexists|]. right. by exists d.
Qed.

Section config.
(** [serde_json::from_str::<Vec<String>>(s).ok()]. *)
Context (from_str : bytes -> option (list bytes)).

Definition parse_json_list (s : bytes) : list bytes :=
  List.filter is_nonempty (trim <$> default [] (from_str s)).

Definition effective_cb_target (settings : QqdnsSettings) (iface_port : Z) : Z :=
  if decide (s_cb_target_port settings <> 0%Z) then s_cb_target_port settings else iface_port.

Definition should_remain_disabled (settings : QqdnsSettings) (iface : Interface)
    : option Disabled :=
  if negb (s_enabled settings) then Some TransportDisabled
  else if negb (if_enabled iface) then Some InterfaceDisabled
  else if decide (parse_json_list (s_dns_ips settings) = []) then Some NoResolvers
  else if decide (parse_json_list (s_send_domains settings) = []) then Some NoSendDomains
  else if decide (parse_json_list (s_recv_domains settings) = []) then Some NoRecvDomains
  else if decide (split_host_port (s_h_in_address settings) = None) then Some BadHInAddress
  else if decide (~ (1 ≤ s_receive_port settings ≤ 65535)%Z) then Some ReceivePortRange
  else
    let target := effective_cb_target settings (if_port iface) in
    if decide (~ (1 ≤ target ≤ 65535)%Z) then Some TargetPortRange
    else if decide (s_max_domain_len settings < 20 \/ 253 < s_max_domain_len settings)%Z
    then Some MaxDomainLenRange
    else if decide (s_max_sub_len settings < 1 \/ 63 < s_max_sub_len settings)%Z
    then Some MaxSubLenRange
    else if decide (s_send_sock_numbers settings < 1)%Z then Some NoSendSockets
    else None.

Definition build_engine_config (settings : QqdnsSettings) (iface : Interface)
    : result Disabled EngineConfig :=
  match should_remain_disabled settings iface with
  | Some reason => Err reason
  | None =>
      let target := effective_cb_target settings (if_port iface) in
      let send_ip :=
        if decide (trim (s_send_interface_ip settings) = []) then bstr "0.0.0.0"
        else trim (s_send_interface_ip settings) in
      Ok (mkEngineConfig
        (parse_json_list (s_dns_ips settings))
        send_ip
        (trim (s_receive_interface_ip settings))
        (u16 (s_receive_port settings))
        (parse_json_list (s_send_domains settings))
        (parse_json_list (s_recv_domains settings))
        (trim (s_h_in_address settings))
        (Some (bstr "127.0.0.1:" ++ decimal target))
        (u64 (s_max_domain_len settings))
        (u64 (s_max_sub_len settings))
        (Z.to_nat (Z.max (s_retries settings) 0))
        (u16 (s_send_query_type settings))
        (u64 (Z.max (s_packets_send_interval_ms settings) 0))
        (u64 (Z.max (s_packets_wait_time_limit_ms settings) 1))
        (Z.to_nat (u64 (s_send_sock_numbers settings))))
  end.

(** Columns of the settings row are [i64]. *)
Definition settings_ok (s : QqdnsSettings) : Prop :=
  (s_send_sock_numbers s < 2 ^ 63)%Z.

(** Configurations built from the settings are ones the engine accepts: its
    own validation succeeds, the sender's preconditions hold, and the only
    start-up refusal left is a send domain with no room for data. *)
Theorem built_config_valid (settings : QqdnsSettings) (iface : Interface) (cfg : EngineConfig) :
  settings_ok settings ->
  build_engine_config settings iface = Ok cfg ->
  validate cfg = Ok ()
  /\ (1 ≤ max_sub_len cfg ≤ 63)%Z /\ (22 ≤ max_encoded cfg ≤ 255)%Z
  /\ (0 ≤ send_query_type cfg < 2 ^ 16)%Z
  /\ ((exists sds rds, start_tables cfg = Ok (sds, rds))
      \/ exists d, d ∈ send_domains cfg /\ start_tables cfg = Err (NoRoom d DomainTooSmall)).
Proof.
  unfold settings_ok, build_engine_config, should_remain_disabled. intros Hs H.
  do 2 (destruct (negb _); [done|]). repeat (case_decide; [done|]).
  injection H as <-. set (cfg := mkEngineConfig _ _ _ _ _ _ _ _ _ _ _ _ _ _ _).
  assert (max_encoded cfg = s_max_domain_len settings + 2)%Z as Hme.
  { unfold max_encoded, cfg, u64. cbn [max_domain_len].
    rewrite (wrap_small 64 (s_max_domain_len settings)) by lia. apply wrap_small. lia. }
  assert (max_sub_len cfg = s_max_sub_len settings) as Hms by (apply wrap_small; lia).
  assert (send_sock_numbers cfg <> 0) as Hsock.
  { cbn. unfold u64. rewrite wrap_small by lia. lia. }
  assert (validate cfg = Ok ()) as Hv.
  { unfold validate. rewrite !decide_False by (done || lia). done. }
  split; [done|]. split; [lia|]. split; [lia|].
  split; [apply (wrap_range 16); lia|]. by apply start_tables_cases.
Qed.
End config.

(** Settings as the migration creates them, with a parser stub that reads a
    one-element array [["x"]] of plain ASCII. *)
Definition sample_from_str (s : bytes) : option (list bytes) :=
  Some [take (length s - 4) (drop 2 s)].

Definition sample_settings : QqdnsSettings :=
  mkQqdnsSettings true (b8 "[" :: 34%Z :: bstr " 9.9.9.9 " ++ [34%Z; b8 "]"])
    (b8 "[" :: 34%Z :: bstr "t.example.com" ++ [34%Z; b8 "]"])
    (b8 "[" :: 34%Z :: bstr "u.example.org" ++ [34%Z; b8 "]"])
    [] (bstr "0.0.0.0") 53 (bstr " 127.0.0.1:51821") 0 101 63 (-3) 28 0 0 2.

Lemma built_config_valid_witness :
  exists cfg,
    build_engine_config sample_from_str sample_settings (mkInterface true 51820) = Ok cfg
    /\ h_out_address cfg = Some (bstr "127.0.0.1:51820")
    /\ dns_ips cfg = [bstr "9.9.9.9"] /\ retries cfg = 0
    /\ validate cfg = Ok ().
Proof.
  eexists. split; [vm_compute; reflexivity|].
  split; [vm_compute; reflexivity|]. split; [vm_compute; reflexivity|].
  split; [vm_compute; reflexivity|].
  apply (built_config_valid sample_from_str sample_settings (mkInterface true 51820));
    [unfold settings_ok; cbn; lia|vm_compute; reflexivity].
Defined.
