(* ===== verification/Inflate.v ===== *)
(** * Gzip and DEFLATE decompression ([src/src/inflate.rs])

    The decompressor as it is written: the 64-bit bit reader, the flat-table
    canonical Huffman decoder, the sliding-window sink with its running
    CRC, the block and symbol loops and the gzip container.  The writer is a
    [Vec<u8>] (the case of [gunzip]), whose [write_all] cannot fail.
    The specification and the refinement proof are in the next two files. *)
From S2P Require Import Prelude.

Inductive InflateError : Set :=
  | TruncatedDeflate
  | TruncatedStored
  | LengthExceeds15
  | OverSubscribed
  | Incomplete
  | EmptyCode
  | InvalidCode
  | BadDistance
  | StoredLengthCheck
  | TooManyCodes
  | RepeatWithoutPrevious
  | RepeatOverrun
  | ZeroRunOverrun
  | InvalidClenSymbol
  | InvalidDistSymbol
  | InvalidLitSymbol
  | ReservedBlock
  | GzTooShort
  | GzMagic
  | GzMethod
  | GzReservedFlags
  | GzExtra
  | GzUnterminated
  | GzHeaderCrc
  | GzTrailer
  | GzCrcMismatch
  | GzLengthMismatch.

Definition MAX_BITS : nat := 15.
(** In [Z]: the unary form of these would be evaluated on every byte. *)
Definition WINDOW : Z := 32 * 1024.
Definition FLUSH_AT : Z := 1024 * 1024.

Definition LENGTH_BASE : list Z :=
  [3; 4; 5; 6; 7; 8; 9; 10; 11; 13; 15; 17; 19; 23; 27; 31; 35; 43; 51; 59; 67; 83; 99; 115; 131;
   163; 195; 227; 258]%Z.
Definition LENGTH_EXTRA : list nat :=
  [0; 0; 0; 0; 0; 0; 0; 0; 1; 1; 1; 1; 2; 2; 2; 2; 3; 3; 3; 3; 4; 4; 4; 4; 5; 5; 5; 5; 0].
Definition DIST_BASE : list Z :=
  [1; 2; 3; 4; 5; 7; 9; 13; 17; 25; 33; 49; 65; 97; 129; 193; 257; 385; 513; 769; 1025; 1537;
   2049; 3073; 4097; 6145; 8193; 12289; 16385; 24577]%Z.
Definition DIST_EXTRA : list nat :=
  [0; 0; 0; 0; 1; 1; 2; 2; 3; 3; 4; 4; 5; 5; 6; 6; 7; 7; 8; 8; 9; 9; 10; 10; 11; 11; 12; 12; 13;
   13].
Definition CLEN_ORDER : list nat :=
  [16; 17; 18; 0; 8; 7; 9; 6; 10; 5; 11; 4; 12; 3; 13; 2; 14; 1; 15].

Abbreviation res := (result InflateError).

(** ** Bit reader *)

Record BitReader : Set := mkBitReader {
  data : bytes;
  pos : nat;
  buf : Z;
  cnt : nat;
}.

Definition br_new (data : bytes) : BitReader := mkBitReader data 0 0 0.

(** [while self.cnt <= 56 && self.pos < self.data.len()]: the count starts at
    zero at least, so eight turns always exhaust the loop. *)
Fixpoint refill_loop (fuel : nat) (br : BitReader) : BitReader :=
  match fuel with
  | O => br
  | S fuel =>
      if decide (cnt br ≤ 56) then
        match data br !! pos br with
        | Some b =>
            refill_loop fuel
              (mkBitReader (data br) (pos br + 1)
                 (Z.lor (buf br) (u64 (Z.shiftl b (Z.of_nat (cnt br))))) (cnt br + 8))
        | None => br
        end
      else br
  end.
Definition refill (br : BitReader) : BitReader := refill_loop 8 br.

Definition peek (br : BitReader) (n : nat) : Z * BitReader :=
  let br := if decide (cnt br < n) then refill br else br in
  (u32 (Z.land (buf br) (u64 (Z.shiftl 1 (Z.of_nat n)) - 1)), br).

Definition consume (br : BitReader) (n : nat) : res BitReader :=
  let br := if decide (cnt br < n) then refill br else br in
  if decide (cnt br < n) then Err TruncatedDeflate
  else Ok (mkBitReader (data br) (pos br) (Z.shiftr (buf br) (Z.of_nat n)) (cnt br - n)).

Definition bits (br : BitReader) (n : nat) : res (Z * BitReader) :=
  if decide (n = 0) then Ok (0%Z, br) else
  let '(v, br) := peek br n in
  br ← consume br n;
  Ok (v, br).

Definition align (br : BitReader) : BitReader :=
  let drop := cnt br `mod` 8 in
  mkBitReader (data br) (pos br) (Z.shiftr (buf br) (Z.of_nat drop)) (cnt br - drop).

(** [self.pos - buffered] would underflow if more whole bytes were buffered
    than read. *)
Definition read_bytes (br : BitReader) (n : nat) : res (bytes * BitReader) :=
  let buffered := cnt br `div` 8 in
  if decide (pos br < buffered) then Stuck Panicked else
  let start := pos br - buffered in
  if decide (length (data br) < start + n) then Err TruncatedStored else
  out ← slice (data br) start (start + n);
  Ok (out, mkBitReader (data br) (start + n) 0 0).

Definition byte_pos (br : BitReader) : res nat :=
  let buffered := cnt br `div` 8 in
  if decide (pos br < buffered) then Stuck Panicked else Ok (pos br - buffered).

(** ** Huffman codes *)

Record Huffman : Set := mkHuffman {
  table : list Z;
  hbits : nat;
}.

Definition reverse_bits (v : Z) (n : nat) : Z :=
  foldl (fun out i =>
    Z.lor out (Z.shiftl (Z.land (Z.shiftr v (Z.of_nat i)) 1) (Z.of_nat (n - 1 - i))))
    0%Z (seq 0 n).

(** [for &l in lengths { .. counts[l] += 1 }]. *)
Fixpoint count_lengths (lengths : list nat) (counts : list Z) : res (list Z) :=
  match lengths with
  | [] => Ok counts
  | l :: lengths =>
      if decide (MAX_BITS < l) then Err LengthExceeds15 else
      c ← index counts l;
      count_lengths lengths (<[l := u16 (c + 1)]> counts)
  end.

(** [(1..=MAX_BITS).rev().find(..)]. *)
Fixpoint find_max (l : nat) (counts : list Z) : res nat :=
  match l with
  | O => Ok 0
  | S l' => c ← index counts l; if decide (0 < c)%Z then Ok l else find_max l' counts
  end.

(** [for &count in &counts[1..=max]]. *)
Fixpoint kraft (counts : list Z) (left_ : Z) : res Z :=
  match counts with
  | [] => Ok left_
  | c :: counts =>
      let left_ := (2 * left_ - c)%Z in
      if decide (left_ < 0)%Z then Err OverSubscribed else kraft counts left_
  end.

(** [for l in 1..=max]. *)
Fixpoint next_codes (n l : nat) (counts next_code : list Z) (code : Z) : res (list Z) :=
  match n with
  | O => Ok next_code
  | S n =>
      c ← index counts (l - 1);
      let code := u32 (Z.shiftl (code + c) 1) in
      next_codes n (l + 1) counts (<[l := code]> next_code) code
  end.

(** [while i < size { table[i] = entry; i += step }]. *)
Fixpoint fill_table (fuel size step i : nat) (entry : Z) (t : list Z) : res (list Z) :=
  match fuel with
  | O => if decide (i < size) then Stuck OutOfFuel else Ok t
  | S fuel =>
      if decide (i < size) then
        _ ← index t i;
        fill_table fuel size step (i + step) entry (<[i := entry]> t)
      else Ok t
  end.

Definition entry_of (sym len : nat) : Z :=
  Z.lor (u32 (Z.shiftl (Z.of_nat sym) 16)) (Z.of_nat len).

(** [for (sym, &len) in lengths.iter().enumerate()]. *)
Fixpoint assign_codes (sym : nat) (lengths : list nat) (size : nat) (next_code t : list Z)
    : res (list Z) :=
  match lengths with
  | [] => Ok t
  | len :: lengths =>
      if decide (len = 0) then assign_codes (sym + 1) lengths size next_code t
      else
        code ← index next_code len;
        let next_code := <[len := u32 (code + 1)]> next_code in
        let rev := Z.to_nat (reverse_bits code len) in
        t ← fill_table size size (2 ^ len) rev (entry_of sym len) t;
        assign_codes (sym + 1) lengths size next_code t
  end.

Definition huffman_new (lengths : list nat) : res Huffman :=
  counts ← count_lengths lengths (replicate (MAX_BITS + 1) 0%Z);
  let counts := <[0 := 0%Z]> counts in
  max ← find_max MAX_BITS counts;
  if decide (max = 0) then Ok (mkHuffman [0%Z] 0) else
  used ← slice counts 1 (max + 1);
  left_ ← kraft used 1;
  let symbol_total := u16 (foldr Z.add 0%Z used) in
  if decide (0 < left_ /\ symbol_total <> 1)%Z then Err Incomplete else
  next_code ← next_codes max 1 counts (replicate (MAX_BITS + 2) 0%Z) 0;
  let size := 2 ^ max in
  t ← assign_codes 0 lengths size next_code (replicate size 0%Z);
  Ok (mkHuffman t max).

Definition decode (h : Huffman) (br : BitReader) : res (nat * BitReader) :=
  if decide (hbits h = 0) then Err EmptyCode else
  let '(idx, br) := peek br (hbits h) in
  entry ← index (table h) (Z.to_nat idx);
  let len := Z.to_nat (Z.land entry 65535) in
  if decide (len = 0) then Err InvalidCode else
  br ← consume br len;
  Ok (Z.to_nat (u16 (Z.shiftr entry 16)), br).

(** ** CRC-32 *)

Fixpoint crc_shift (n : nat) (c : Z) : Z :=
  match n with
  | O => c
  | S n =>
      crc_shift n (if decide (Z.land c 1 <> 0)%Z
                   then Z.lxor 3988292384 (Z.shiftr c 1) else Z.shiftr c 1)
  end.
Definition crc_table : list Z := crc_shift 8 <$> seqZ 0 256.

Definition crc32_update (crc : Z) (data : bytes) : Z :=
  foldl (fun crc b =>
    Z.lxor (crc_table !!! Z.to_nat (Z.land (Z.lxor crc b) 255)) (Z.shiftr crc 8)) crc data.

Definition crc32 (data : bytes) : Z := Z.lxor (crc32_update 4294967295 data) 4294967295.

(** ** Sink *)

Record Sink : Set := mkSink {
  out : bytes;
  sbuf : bytes;
  flushed : nat;
  crc : Z;
}.

Definition sink_new (out : bytes) : Sink := mkSink out [] 0 4294967295.

Definition flush_old (s : Sink) : Sink :=
  let keep := Z.to_nat (WINDOW `min` Z.of_nat (length (sbuf s))) in
  let upto := length (sbuf s) - keep in
  if decide (upto = 0) then s else
  mkSink (out s ++ take upto (sbuf s)) (drop upto (sbuf s)) (flushed s + upto)
    (crc32_update (crc s) (take upto (sbuf s))).

Definition maybe_flush (s : Sink) : Sink :=
  if decide (FLUSH_AT + WINDOW ≤ Z.of_nat (length (sbuf s)))%Z then flush_old s else s.

Definition push (s : Sink) (b : Z) : Sink :=
  maybe_flush (mkSink (out s) (sbuf s ++ [b]) (flushed s) (crc s)).

Definition extend (s : Sink) (bs : bytes) : Sink :=
  maybe_flush (mkSink (out s) (sbuf s ++ bs) (flushed s) (crc s)).

(** [for src in (have - dist)..(have - dist + len)]: the buffer grows while it
    is read. *)
Fixpoint copy_loop (len src : nat) (b : bytes) : res bytes :=
  match len with
  | O => Ok b
  | S len => x ← index b src; copy_loop len (src + 1) (b ++ [x])
  end.

Definition copy_back (s : Sink) (dist len : nat) : res Sink :=
  let have := length (sbuf s) in
  if decide (dist = 0 \/ have < dist) then Err BadDistance else
  b ← copy_loop len (have - dist) (sbuf s);
  Ok (maybe_flush (mkSink (out s) b (flushed s) (crc s))).

(** [(writer, total, crc)] after [finish]. *)
Definition finish (s : Sink) : bytes * nat * Z :=
  (out s ++ sbuf s, flushed s + length (sbuf s),
   Z.lxor (crc32_update (crc s) (sbuf s)) 4294967295).

(** ** DEFLATE *)

Definition fixed_literal_lengths : list nat :=
  replicate 144 8 ++ replicate 112 9 ++ replicate 24 7 ++ replicate 8 8.

Definition le16 (lo hi : Z) : Z := Z.lor lo (Z.shiftl hi 8).
Definition le32 (a b c d : Z) : Z :=
  Z.lor a (Z.lor (Z.shiftl b 8) (Z.lor (Z.shiftl c 16) (Z.shiftl d 24))).

Fixpoint inflate_symbols (fuel : nat) (br : BitReader) (sink : Sink) (lit dist : Huffman)
    : res (BitReader * Sink) :=
  match fuel with
  | O => Stuck OutOfFuel
  | S fuel =>
      '(sym, br) ← decode lit br;
      if decide (sym ≤ 255) then
        inflate_symbols fuel br (push sink (Z.of_nat sym)) lit dist
      else if decide (sym = 256) then Ok (br, sink)
      else if decide (sym ≤ 285) then
        let idx := sym - 257 in
        lbase ← index LENGTH_BASE idx;
        lextra ← index LENGTH_EXTRA idx;
        '(lv, br) ← bits br lextra;
        let len := Z.to_nat (lbase + lv) in
        '(dsym, br) ← decode dist br;
        if decide (length DIST_BASE ≤ dsym) then Err InvalidDistSymbol else
        dbase ← index DIST_BASE dsym;
        dextra ← index DIST_EXTRA dsym;
        '(dv, br) ← bits br dextra;
        let d := Z.to_nat (dbase + dv) in
        sink ← copy_back sink d len;
        inflate_symbols fuel br sink lit dist
      else Err InvalidLitSymbol
  end.

(** [for &slot in CLEN_ORDER.iter().take(hclen)]. *)
Fixpoint read_clen (slots : list nat) (br : BitReader) (clen : list nat)
    : res (list nat * BitReader) :=
  match slots with
  | [] => Ok (clen, br)
  | slot :: slots =>
      '(v, br) ← bits br 3;
      _ ← index clen slot;
      read_clen slots br (<[slot := Z.to_nat v]> clen)
  end.

(** [lengths[i..i + n].fill(prev)]. *)
Definition fill_range (i n : nat) (v : nat) (l : list nat) : list nat :=
  take i l ++ replicate n v ++ drop (i + n) l.

(** [while i < total]. *)
Fixpoint read_lengths (fuel total i : nat) (clen_code : Huffman) (br : BitReader)
    (lengths : list nat) : res (list nat * BitReader) :=
  match fuel with
  | O => Stuck OutOfFuel
  | S fuel =>
      if decide (i < total) then
        '(sym, br) ← decode clen_code br;
        if decide (sym ≤ 15) then
          _ ← index lengths i;
          read_lengths fuel total (i + 1) clen_code br (<[i := sym]> lengths)
        else if decide (sym = 16) then
          if decide (i = 0) then Err RepeatWithoutPrevious else
          prev ← index lengths (i - 1);
          '(v, br) ← bits br 2;
          let n := 3 + Z.to_nat v in
          if decide (total < i + n) then Err RepeatOverrun else
          read_lengths fuel total (i + n) clen_code br (fill_range i n prev lengths)
        else if decide (sym = 17) then
          '(v, br) ← bits br 3;
          let n := 3 + Z.to_nat v in
          if decide (total < i + n) then Err ZeroRunOverrun else
          read_lengths fuel total (i + n) clen_code br lengths
        else if decide (sym = 18) then
          '(v, br) ← bits br 7;
          let n := 11 + Z.to_nat v in
          if decide (total < i + n) then Err ZeroRunOverrun else
          read_lengths fuel total (i + n) clen_code br lengths
        else Err InvalidClenSymbol
      else Ok (lengths, br)
  end.

Definition read_dynamic_tables (br : BitReader) : res (Huffman * Huffman * BitReader) :=
  '(v, br) ← bits br 5; let hlit := Z.to_nat v + 257 in
  '(v, br) ← bits br 5; let hdist := Z.to_nat v + 1 in
  '(v, br) ← bits br 4; let hclen := Z.to_nat v + 4 in
  if decide (286 < hlit \/ 30 < hdist) then Err TooManyCodes else
  '(clen, br) ← read_clen (take hclen CLEN_ORDER) br (replicate 19 0);
  clen_code ← huffman_new clen;
  let total := hlit + hdist in
  '(lengths, br) ← read_lengths (S total) total 0 clen_code br (replicate total 0);
  lit_lengths ← slice lengths 0 hlit;
  lit ← huffman_new lit_lengths;
  dist_lengths ← slice lengths hlit (length lengths);
  dist ← huffman_new dist_lengths;
  Ok (lit, dist, br).

(** Every turn of the symbol and block loops reads at least one bit. *)
Definition loop_fuel (br : BitReader) : nat := S (8 * length (data br)).

Fixpoint inflate_blocks (fuel : nat) (br : BitReader) (sink : Sink) : res (BitReader * Sink) :=
  match fuel with
  | O => Stuck OutOfFuel
  | S fuel =>
      '(v, br) ← bits br 1;
      let last := bool_decide (v = 1%Z) in
      '(btype, br) ← bits br 2;
      '(br, sink) ←
        (if decide (btype = 0%Z) then
           let br := align br in
           '(header, br) ← read_bytes br 4;
           h0 ← index header 0; h1 ← index header 1; h2 ← index header 2; h3 ← index header 3;
           let len := le16 h0 h1 in
           let nlen := le16 h2 h3 in
           if decide (nlen <> u16 (Z.lnot len)) then Err StoredLengthCheck else
           '(data, br) ← read_bytes br (Z.to_nat len);
           Ok (br, extend sink data)
         else if decide (btype = 1%Z) then
           lit ← huffman_new fixed_literal_lengths;
           dist ← huffman_new (replicate 32 5);
           inflate_symbols (loop_fuel br) br sink lit dist
         else if decide (btype = 2%Z) then
           '(lit, dist, br) ← read_dynamic_tables br;
           inflate_symbols (loop_fuel br) br sink lit dist
         else Err ReservedBlock);
      if last then Ok (br, sink) else inflate_blocks fuel br sink
  end.

(** ** Gzip container *)

Definition flag (flags m : Z) : bool := bool_decide (Z.land flags m <> 0%Z).

(** [gz[p..].iter().position(|&b| b == 0)]. *)
Fixpoint position_nul (l : bytes) : option nat :=
  match l with
  | [] => None
  | b :: l => if decide (b = 0%Z) then Some 0 else S <$> position_nul l
  end.

Definition skip_string (gz : bytes) (p : nat) : res nat :=
  tail ← slice gz p (length gz);
  end_ ← ok_or GzUnterminated (position_nul tail);
  Ok (p + (end_ + 1)).

(** FEXTRA: a length, then that many bytes. *)
Definition skip_extra (gz : bytes) (p : nat) : res nat :=
  if decide (length gz < p + 2) then Err GzExtra else
  x0 ← index gz p; x1 ← index gz (p + 1);
  let p := p + (2 + Z.to_nat (le16 x0 x1)) in
  if decide (length gz < p) then Err GzExtra else Ok p.

Definition parse_header (gz : bytes) : res nat :=
  if decide (length gz < 18) then Err GzTooShort else
  g0 ← index gz 0; g1 ← index gz 1;
  if decide (g0 <> 31 \/ g1 <> 139)%Z then Err GzMagic else
  g2 ← index gz 2;
  if decide (g2 <> 8)%Z then Err GzMethod else
  flags ← index gz 3;
  if flag flags 224 then Err GzReservedFlags else
  let p := 10 in
  p ← (if flag flags 4 then skip_extra gz p else Ok p);
  p ← (if flag flags 8 then skip_string gz p else Ok p);
  p ← (if flag flags 16 then skip_string gz p else Ok p);
  if flag flags 2 then
    let p := p + 2 in if decide (length gz < p) then Err GzHeaderCrc else Ok p
  else Ok p.

Definition index_le32 (gz : bytes) (i : nat) : res Z :=
  a ← index gz i; b ← index gz (i + 1); c ← index gz (i + 2); d ← index gz (i + 3);
  Ok (le32 a b c d).

(** The stream of one member: what was written in all, the member's length and
    CRC, and where the reader stopped. *)
Definition inflate_stream (stream out : bytes) : res (bytes * nat * Z * nat) :=
  let br := br_new stream in
  '(br, sink) ← inflate_blocks (loop_fuel br) br (sink_new out);
  bp ← byte_pos br;
  let '(out, written, crc) := finish sink in
  Ok (out, written, crc, bp).

(** The two checks of the trailer. *)
Definition check_trailer (gz : bytes) (end_ : nat) (written : nat) (crc : Z) : res unit :=
  if decide (length gz < end_ + 8) then Err GzTrailer else
  want_crc ← index_le32 gz end_;
  want_len ← index_le32 gz (end_ + 4);
  if decide (crc <> want_crc) then Err GzCrcMismatch else
  if decide (want_len <> u32 (Z.of_nat written)) then Err GzLengthMismatch else Ok ().

(** One turn of the member loop: the new offset, what was written, and its
    length. *)
Definition gunzip_member (gz : bytes) (offset : nat) (out : bytes) : res (nat * bytes * nat) :=
  member ← slice gz offset (length gz);
  body ← parse_header member;
  let start := offset + body in
  stream ← slice gz start (length gz);
  '(out, written, crc, bp) ← inflate_stream stream out;
  let end_ := start + bp in
  _ ← check_trailer gz end_ written crc;
  Ok (end_ + 8, out, written).

Fixpoint gunzip_loop (fuel : nat) (gz : bytes) (offset : nat) (total : Z) (out : bytes)
    : res (bytes * Z) :=
  match fuel with
  | O => Stuck OutOfFuel
  | S fuel =>
      '(offset, out, written) ← gunzip_member gz offset out;
      let total := u64 (total + Z.of_nat written) in
      rest ← slice gz offset (length gz);
      if forallb (fun b => bool_decide (b = 0%Z)) rest then Ok (out, total)
      else gunzip_loop fuel gz offset total out
  end.

Definition gunzip_to_writer (gz : bytes) (out : bytes) : res (bytes * Z) :=
  gunzip_loop (S (length gz)) gz 0 0 out.

Definition gunzip (gz : bytes) : res bytes :=
  '(out, _) ← gunzip_to_writer gz []; Ok out.
