(* ===== verification/InflateSpec.v ===== *)
(** * DEFLATE and gzip, declaratively (RFC 1951, RFC 1952)

    The specification that [Inflate] is proved to implement: a stream is a
    list of bits, a code word is the canonical one of its symbol, the output
    is the whole output, the CRC is the bitwise one.  The grammar of blocks,
    members and files is a set of inductive relations. *)
From S2P Require Import Prelude Inflate.

(** ** Bit streams, least significant bit first *)

Definition lsb_bits (n : nat) (z : Z) : list bool := reverse (to_bits n z).
Definition of_lsb (l : list bool) : Z := of_bits (reverse l).
Definition stream_bits (d : bytes) : list bool := d ≫= lsb_bits 8.

(** The next [n] bits hold [v]. *)
Definition reads (n : nat) (bs : list bool) (v : Z) (bs' : list bool) : Prop :=
  exists b, bs = b ++ bs' /\ length b = n /\ v = of_lsb b.

(** Up to the next byte boundary. *)
Definition aligned (bs : list bool) : list bool := drop (length bs `mod` 8) bs.

(** ** Canonical codes *)

Definition count_of (l : nat) (lengths : list nat) : nat :=
  length (filter (fun x => x = l) lengths).

(** How many symbols use code words of length [l]. *)
Definition used (lengths : list nat) (l : nat) : nat :=
  match l with O => 0 | S _ => count_of l lengths end.

Fixpoint first_code (lengths : list nat) (l : nat) : nat :=
  match l with
  | O => 0
  | S l' => 2 * (first_code lengths l' + used lengths l')
  end.

(** The code word of a symbol: symbols of one length are numbered in order. *)
Definition code_word (lengths : list nat) (sym : nat) : option (list bool) :=
  match lengths !! sym with
  | Some (S n as len) =>
      Some (to_bits len (Z.of_nat (first_code lengths len + count_of len (take sym lengths))))
  | _ => None
  end.

(** Stream [bs] starts with the code word of [sym]. *)
Definition decodes (lengths : list nat) (bs : list bool) (sym : nat) (bs' : list bool) : Prop :=
  exists c, code_word lengths sym = Some c /\ bs = c ++ bs'.

(** The space a code claims, in units of 2^-15. *)
Definition kraft_sum (lengths : list nat) : nat :=
  sum_list_with (fun l => match l with O => 0 | S _ => 2 ^ (15 - l) end) lengths.

(** The codes DEFLATE admits: empty, complete, or of a single symbol. *)
Definition valid_code (lengths : list nat) : Prop :=
  Forall (fun l => l ≤ 15) lengths
  /\ (Forall (fun l => l = 0) lengths
      \/ kraft_sum lengths = 2 ^ 15
      \/ (kraft_sum lengths ≤ 2 ^ 15 /\ length (filter (fun l => l <> 0) lengths) = 1)).

(** ** Blocks *)

(** The LZ77 match, on the whole output; source and target may overlap. *)
Fixpoint lz_copy (len dist : nat) (out : bytes) : bytes :=
  match len with
  | O => out
  | S len => lz_copy len dist (out ++ [out !!! (length out - dist)])
  end.

Inductive symbols (lit dist : list nat) :
    list bool -> bytes -> list bool -> bytes -> Prop :=
  | symbols_literal bs out sym bs1 bs' out' :
      decodes lit bs sym bs1 -> sym ≤ 255 ->
      symbols lit dist bs1 (out ++ [Z.of_nat sym]) bs' out' ->
      symbols lit dist bs out bs' out'
  | symbols_end bs out bs' :
      decodes lit bs 256 bs' -> symbols lit dist bs out bs' out
  | symbols_match bs out sym lbase lextra lv dsym dbase dextra dv bs1 bs2 bs3 bs4 bs' out' :
      decodes lit bs sym bs1 -> 257 ≤ sym ->
      LENGTH_BASE !! (sym - 257) = Some lbase -> LENGTH_EXTRA !! (sym - 257) = Some lextra ->
      reads lextra bs1 lv bs2 ->
      decodes dist bs2 dsym bs3 ->
      DIST_BASE !! dsym = Some dbase -> DIST_EXTRA !! dsym = Some dextra ->
      reads dextra bs3 dv bs4 ->
      Z.to_nat (dbase + dv) ≤ length out ->
      symbols lit dist bs4 (lz_copy (Z.to_nat (lbase + lv)) (Z.to_nat (dbase + dv)) out) bs' out' ->
      symbols lit dist bs out bs' out'.

(** The code-length sequence of a dynamic block, of [total] lengths. *)
Inductive code_lengths (code : list nat) (total : nat) :
    list bool -> list nat -> list bool -> list nat -> Prop :=
  | code_lengths_done bs ls : length ls = total -> code_lengths code total bs ls bs ls
  | code_lengths_one bs ls sym bs1 bs' ls' :
      length ls < total -> decodes code bs sym bs1 -> sym ≤ 15 ->
      code_lengths code total bs1 (ls ++ [sym]) bs' ls' ->
      code_lengths code total bs ls bs' ls'
  | code_lengths_repeat bs ls prev v bs1 bs2 bs' ls' :
      length ls < total -> decodes code bs 16 bs1 -> last ls = Some prev -> reads 2 bs1 v bs2 ->
      length ls + (3 + Z.to_nat v) ≤ total ->
      code_lengths code total bs2 (ls ++ replicate (3 + Z.to_nat v) prev) bs' ls' ->
      code_lengths code total bs ls bs' ls'
  | code_lengths_zeros3 bs ls v bs1 bs2 bs' ls' :
      length ls < total -> decodes code bs 17 bs1 -> reads 3 bs1 v bs2 ->
      length ls + (3 + Z.to_nat v) ≤ total ->
      code_lengths code total bs2 (ls ++ replicate (3 + Z.to_nat v) 0) bs' ls' ->
      code_lengths code total bs ls bs' ls'
  | code_lengths_zeros7 bs ls v bs1 bs2 bs' ls' :
      length ls < total -> decodes code bs 18 bs1 -> reads 7 bs1 v bs2 ->
      length ls + (11 + Z.to_nat v) ≤ total ->
      code_lengths code total bs2 (ls ++ replicate (11 + Z.to_nat v) 0) bs' ls' ->
      code_lengths code total bs ls bs' ls'.

(** The code-length code lengths, three bits each, in their shuffled order. *)
Inductive clen_fields : list nat -> list bool -> list nat -> list bool -> list nat -> Prop :=
  | clen_nil bs cl : clen_fields [] bs cl bs cl
  | clen_cons slot slots bs v bs1 cl bs' cl' :
      reads 3 bs v bs1 -> clen_fields slots bs1 (<[slot := Z.to_nat v]> cl) bs' cl' ->
      clen_fields (slot :: slots) bs cl bs' cl'.

Definition dynamic_tables (bs : list bool) (lit dist : list nat) (bs' : list bool) : Prop :=
  exists v1 v2 v3 bs1 bs2 bs3 bs4 clen,
    reads 5 bs v1 bs1 /\ reads 5 bs1 v2 bs2 /\ reads 4 bs2 v3 bs3
    /\ Z.to_nat v1 + 257 ≤ 286 /\ Z.to_nat v2 + 1 ≤ 30
    /\ clen_fields (take (Z.to_nat v3 + 4) CLEN_ORDER) bs3 (replicate 19 0) bs4 clen
    /\ valid_code clen
    /\ code_lengths clen (Z.to_nat v1 + 257 + (Z.to_nat v2 + 1)) bs4 [] bs' (lit ++ dist)
    /\ length lit = Z.to_nat v1 + 257
    /\ valid_code lit /\ valid_code dist.

Inductive block : list bool -> bytes -> list bool -> bytes -> Prop :=
  | block_stored bs out v0 len nlen d bs1 bs2 bs3 bs' :
      reads 2 bs v0 bs1 -> v0 = 0%Z ->
      reads 16 (aligned bs1) len bs2 -> reads 16 bs2 nlen bs3 -> nlen = u16 (Z.lnot len) ->
      bytes_ok d -> Z.of_nat (length d) = len -> bs3 = stream_bits d ++ bs' ->
      block bs out bs' (out ++ d)
  | block_fixed bs out bs1 bs' out' :
      reads 2 bs 1 bs1 ->
      symbols fixed_literal_lengths (replicate 32 5) bs1 out bs' out' ->
      block bs out bs' out'
  | block_dynamic bs out lit dist bs1 bs2 bs' out' :
      reads 2 bs 2 bs1 -> dynamic_tables bs1 lit dist bs2 ->
      symbols lit dist bs2 out bs' out' ->
      block bs out bs' out'.

Inductive blocks : list bool -> bytes -> list bool -> bytes -> Prop :=
  | blocks_last bs out bs1 bs' out' :
      reads 1 bs 1 bs1 -> block bs1 out bs' out' -> blocks bs out bs' out'
  | blocks_more bs out bs1 bs2 out1 bs' out' :
      reads 1 bs 0 bs1 -> block bs1 out bs2 out1 -> blocks bs2 out1 bs' out' ->
      blocks bs out bs' out'.

(** ** The container *)

Definition crc_step (c : Z) (b : bool) : Z :=
  if xorb (Z.testbit c 0) b then Z.lxor 3988292384 (Z.shiftr c 1) else Z.shiftr c 1.

(** The CRC-32 of RFC 1952, bit by bit. *)
Definition crc32_bitwise (d : bytes) : Z :=
  Z.lxor (foldl crc_step 4294967295%Z (stream_bits d)) 4294967295.

Definition le32_bytes (v : Z) : bytes :=
  [u8 v; u8 (Z.shiftr v 8); u8 (Z.shiftr v 16); u8 (Z.shiftr v 24)].

(** An optional NUL-terminated string. *)
Definition nul_string (present : bool) (s : bytes) : Prop :=
  if present then exists t, s = t ++ [0%Z] /\ 0%Z ∉ t else s = [].

(** One member header. *)
Definition header (h : bytes) : Prop :=
  exists flags fixed extra name comment hcrc,
    h = [31; 139; 8; flags]%Z ++ fixed ++ extra ++ name ++ comment ++ hcrc
    /\ length fixed = 6
    /\ flag flags 224 = false
    /\ (if flag flags 4 then
          exists lo hi x, extra = lo :: hi :: x /\ Z.of_nat (length x) = le16 lo hi
        else extra = [])
    /\ nul_string (flag flags 8) name /\ nul_string (flag flags 16) comment
    /\ length hcrc = if flag flags 2 then 2 else 0.

(** One member: header, compressed data, CRC and length of what it expands to. *)
Definition member (gz out rest : bytes) : Prop :=
  18 ≤ length gz /\ bytes_ok rest /\
  exists h body bs,
    gz = h ++ body /\ header h
    /\ blocks (stream_bits body) [] bs out
    /\ aligned bs = stream_bits (le32_bytes (crc32_bitwise out)
                                 ++ le32_bytes (Z.of_nat (length out)) ++ rest).

(** A file: members in sequence, then zero padding. *)
Inductive gzip_file : bytes -> bytes -> Prop :=
  | gzip_last gz out rest :
      member gz out rest -> Forall (fun b => b = 0%Z) rest -> gzip_file gz out
  | gzip_more gz out rest out' :
      member gz out rest -> ~ Forall (fun b => b = 0%Z) rest -> gzip_file rest out' ->
      gzip_file gz (out ++ out').

(** ** Facts about bit streams *)

Lemma length_lsb_bits n z : length (lsb_bits n z) = n.
Proof. unfold lsb_bits. by rewrite length_reverse, length_to_bits. Qed.

Lemma lsb_bits_app n k z :
  lsb_bits (n + k) z = lsb_bits n z ++ lsb_bits k (Z.shiftr z (Z.of_nat n)).
Proof.
  unfold lsb_bits. rewrite (Nat.add_comm n k), to_bits_app. by rewrite reverse_app.
Qed.

Lemma lsb_bits_ext n z z' :
  (forall i, (0 ≤ i < Z.of_nat n)%Z -> Z.testbit z i = Z.testbit z' i) ->
  lsb_bits n z = lsb_bits n z'.
Proof. intros H. unfold lsb_bits. by rewrite (to_bits_ext _ _ _ H). Qed.

Lemma of_lsb_bits n z : of_lsb (lsb_bits n z) = wrap (Z.of_nat n) z.
Proof. unfold of_lsb, lsb_bits. by rewrite reverse_involutive, of_to_bits. Qed.

Lemma lsb_of_lsb l : lsb_bits (length l) (of_lsb l) = l.
Proof.
  unfold lsb_bits, of_lsb. rewrite <- length_reverse, to_of_bits. apply reverse_involutive.
Qed.

Lemma of_lsb_range l : (0 ≤ of_lsb l < 2 ^ Z.of_nat (length l))%Z.
Proof. unfold of_lsb. rewrite <- length_reverse. apply of_bits_range. Qed.

Lemma of_lsb_app l1 l2 :
  of_lsb (l1 ++ l2) = (of_lsb l1 + of_lsb l2 * 2 ^ Z.of_nat (length l1))%Z.
Proof.
  unfold of_lsb. rewrite reverse_app, of_bits_app, length_reverse. lia.
Qed.

Lemma length_stream_bits d : length (stream_bits d) = 8 * length d.
Proof.
  induction d as [|b d IH]; [done|]. unfold stream_bits in *. rewrite bind_cons, length_app, IH.
  rewrite length_lsb_bits. cbn. lia.
Qed.

Lemma stream_bits_app d1 d2 : stream_bits (d1 ++ d2) = stream_bits d1 ++ stream_bits d2.
Proof. apply bind_app. Qed.

Lemma drop_stream_bits n d : drop (8 * n) (stream_bits d) = stream_bits (drop n d).
Proof.
  destruct (decide (n ≤ length d)).
  - rewrite <- (take_drop n d) at 1. rewrite stream_bits_app. apply drop_app_length'.
    rewrite length_stream_bits, length_take. lia.
  - rewrite !drop_ge by (rewrite ?length_stream_bits; lia). done.
Qed.

Lemma take_stream_bits n d : take (8 * n) (stream_bits d) = stream_bits (take n d).
Proof.
  destruct (decide (n ≤ length d)).
  - rewrite <- (take_drop n d) at 1. rewrite stream_bits_app. apply take_app_length'.
    rewrite length_stream_bits, length_take. lia.
  - rewrite !take_ge by (rewrite ?length_stream_bits; lia). done.
Qed.

Lemma lsb8_inj b b' : byte_ok b -> byte_ok b' -> lsb_bits 8 b = lsb_bits 8 b' -> b = b'.
Proof.
  intros Hb Hb' H. unfold lsb_bits in H. apply (inj reverse) in H.
  by apply (to_bits_inj 8) in H.
Qed.

Lemma stream_bits_inj d d' :
  bytes_ok d -> bytes_ok d' -> stream_bits d = stream_bits d' -> d = d'.
Proof.
  intros Hd. revert d'. induction Hd as [|b d Hb Hd IH]; intros d' Hd' E.
  - destruct Hd' as [|b' d']; [done|]. apply (f_equal length) in E.
    rewrite !length_stream_bits in E. cbn in E. lia.
  - destruct Hd' as [|b' d' Hb' Hd'].
    + apply (f_equal length) in E. rewrite !length_stream_bits in E. cbn in E. lia.
    + unfold stream_bits in E. rewrite !bind_cons in E.
      apply app_inj_1 in E as [E1 E2]; [|by rewrite !length_lsb_bits].
      apply lsb8_inj in E1 as ->; [|done..]. by rewrite (IH d').
Qed.

Lemma reads_fun n bs v v' bs1 bs1' :
  reads n bs v bs1 -> reads n bs v' bs1' -> v = v' /\ bs1 = bs1'.
Proof.
  intros (b & -> & Hb & ->) (b' & E & Hb' & ->).
  apply app_inj_1 in E as [-> ->]; [done|congruence].
Qed.
