(* ===== verification/InflateBits.v ===== *)
(** * The window, the CRC and the bit reader of the decompressor

    The sink keeps only the last 32 KiB and a running CRC; it stands for the whole output,
    with the bitwise CRC of RFC 1952.  The 64-bit buffer of [Inflate.BitReader] is a window
    on the bit stream of its data: each operation is a function of the remaining bits. *)
From S2P Require Import Prelude Inflate InflateSpec.

(** ** CRC *)

Definition crc_shift1 (c : Z) : Z :=
  if decide (Z.land c 1 <> 0)%Z then Z.lxor 3988292384 (Z.shiftr c 1) else Z.shiftr c 1.

Lemma crc_shift_S n c : crc_shift (S n) c = crc_shift n (crc_shift1 c).
Proof. done. Qed.

Lemma land1_testbit c : Z.land c 1 = Z.b2z (Z.testbit c 0).
Proof. rewrite Z.bit0_mod. apply (Z.land_ones c 1). lia. Qed.

Lemma crc_shift1_testbit c :
  crc_shift1 c = if Z.testbit c 0 then Z.lxor 3988292384 (Z.shiftr c 1) else Z.shiftr c 1.
Proof. unfold crc_shift1. rewrite land1_testbit. by destruct (Z.testbit c 0). Qed.

(** Xoring high bits commutes with the shift. *)
Lemma crc_shift1_xor a h :
  crc_shift1 (Z.lxor a (Z.shiftl h 1)) = Z.lxor (crc_shift1 a) h.
Proof.
  rewrite !crc_shift1_testbit, Z.lxor_spec, Z.shiftl_spec_low, xorb_false_r by lia.
  rewrite Z.shiftr_lxor, Z.shiftr_shiftl_l, Z.sub_diag, Z.shiftl_0_r by lia.
  destruct (Z.testbit a 0); [symmetry; apply Z.lxor_assoc|done].
Qed.

Lemma crc_shift_xor n a h :
  crc_shift n (Z.lxor a (Z.shiftl h (Z.of_nat n))) = Z.lxor (crc_shift n a) h.
Proof.
  revert a. induction n as [|n IH]; intros a; [by rewrite Z.shiftl_0_r|].
  rewrite !crc_shift_S. rewrite Nat2Z.inj_succ, <- Z.add_1_r, <- Z.shiftl_shiftl by lia.
  by rewrite crc_shift1_xor, IH.
Qed.

(** Feeding the bits of [b] one by one is xoring them in and shifting. *)
Lemma crc_step_shift1 c b : crc_step c b = crc_shift1 (Z.lxor c (Z.b2z b)).
Proof.
  unfold crc_step. rewrite crc_shift1_testbit, Z.lxor_spec, Z.b2z_bit0.
  assert (Z.shiftr (Z.lxor c (Z.b2z b)) 1 = Z.shiftr c 1) as ->; [|done].
  rewrite Z.shiftr_lxor. destruct b; cbn; apply Z.lxor_0_r.
Qed.

Lemma lsb_bits_S n b : lsb_bits (S n) b = Z.testbit b 0 :: lsb_bits n (Z.shiftr b 1).
Proof. change (S n) with (1 + n). rewrite lsb_bits_app. done. Qed.

Lemma split_low b : b = Z.lxor (Z.b2z (Z.testbit b 0)) (Z.shiftl (Z.shiftr b 1) 1).
Proof.
  apply Z.bits_inj'. intros i Hi. rewrite Z.lxor_spec. destruct (decide (i = 0)%Z) as [->|].
  - rewrite Z.b2z_bit0, Z.shiftl_spec_low by lia. by rewrite xorb_false_r.
  - rewrite Z.shiftl_spec, Z.shiftr_spec by lia.
    rewrite (testbit_high 1 (Z.b2z _)) by (destruct (Z.testbit b 0); cbn; lia).
    rewrite xorb_false_l. f_equal. lia.
Qed.

Lemma crc_steps n c b :
  (0 ≤ b < 2 ^ Z.of_nat n)%Z -> foldl crc_step c (lsb_bits n b) = crc_shift n (Z.lxor c b).
Proof.
  revert c b. induction n as [|n IH]; intros c b Hb.
  - assert (b = 0)%Z as -> by (cbn in Hb; lia). cbn. by rewrite Z.lxor_0_r.
  - rewrite lsb_bits_S. cbn [foldl]. rewrite IH, crc_step_shift1, crc_shift_S.
    + f_equal. rewrite (split_low b) at 3. by rewrite <- Z.lxor_assoc, crc_shift1_xor.
    + rewrite Z.shiftr_div_pow2 by lia. split; [apply Z.div_pos; lia|].
      apply Z.div_lt_upper_bound; [lia|]. rewrite Nat2Z.inj_succ, Z.pow_succ_r in Hb by lia.
      change (2 ^ 1)%Z with 2%Z. lia.
Qed.

Lemma crc_table_lookup v : (0 ≤ v < 256)%Z -> crc_table !!! Z.to_nat v = crc_shift 8 v.
Proof.
  intros Hv. apply list_lookup_total_correct. unfold crc_table.
  rewrite list_lookup_fmap, lookup_seqZ_lt by lia. cbn [fmap option_fmap option_map]. do 2 f_equal. lia.
Qed.

Lemma split_byte x : x = Z.lxor (Z.land x 255) (Z.shiftl (Z.shiftr x 8) 8).
Proof.
  apply Z.bits_inj'. intros i Hi. rewrite Z.lxor_spec, Z.land_spec.
  change 255%Z with (Z.ones 8). destruct (decide (i < 8)%Z).
  - rewrite Z.ones_spec_low, Z.shiftl_spec_low by lia. by rewrite andb_true_r, xorb_false_r.
  - rewrite Z.ones_spec_high, Z.shiftl_spec, Z.shiftr_spec by lia.
    rewrite andb_false_r, xorb_false_l. f_equal. lia.
Qed.

#[local] Opaque crc_shift crc_table.

Lemma crc32_update_bitwise crc d :
  bytes_ok d -> crc32_update crc d = foldl crc_step crc (stream_bits d).
Proof.
  intros Hd. revert crc. unfold crc32_update, stream_bits.
  induction Hd as [|b d Hb Hd IH]; intros crc; [done|]. cbn [foldl]. rewrite bind_cons, foldl_app.
  rewrite IH. f_equal. unfold byte_ok in Hb. rewrite (crc_steps 8) by lia.
  set (x := Z.lxor crc b).
  pose proof (crc_shift_xor 8 (Z.land x 255) (Z.shiftr x 8)) as E.
  change (Z.of_nat 8) with 8%Z in E. rewrite <- split_byte in E. rewrite E.
  rewrite crc_table_lookup by (apply (land_range 8); lia).
  f_equal. unfold x. rewrite Z.shiftr_lxor. rewrite (Z.shiftr_div_pow2 b), Z.div_small by lia.
  by rewrite Z.lxor_0_r.
Qed.

Lemma crc32_spec d : bytes_ok d -> crc32 d = crc32_bitwise d.
Proof. intros Hd. unfold crc32, crc32_bitwise. by rewrite crc32_update_bitwise. Qed.

Lemma crc32_update_app crc d1 d2 :
  crc32_update crc (d1 ++ d2) = crc32_update (crc32_update crc d1) d2.
Proof. unfold crc32_update. by rewrite foldl_app. Qed.

(** ** The window *)

(** The sink stands for the output [o] of its member, after [pre] of earlier
    members. *)
Definition sink_has (pre : bytes) (s : Sink) (o : bytes) : Prop :=
  exists f, out s = pre ++ f /\ o = f ++ sbuf s /\ flushed s = length f
    /\ crc s = crc32_update 4294967295 f
    /\ (f = [] \/ (WINDOW ≤ Z.of_nat (length (sbuf s)))%Z).

Lemma sink_new_has pre : sink_has pre (sink_new pre) [].
Proof. exists []. rewrite app_nil_r. split_and!; [done..|by left]. Qed.

Lemma flush_has pre s o : sink_has pre s o -> sink_has pre (maybe_flush s) o.
Proof.
  intros (f & Ho & -> & Hf & Hc & Hw). unfold maybe_flush.
  case_decide as Hlen; [|by exists f]. unfold flush_old.
  set (upto := length (sbuf s) - _). case_decide; [by exists f|].
  exists (f ++ take upto (sbuf s)). cbn [out sbuf flushed crc].
  assert (Z.of_nat upto = Z.of_nat (length (sbuf s)) - WINDOW)%Z as Hu.
  { unfold upto, WINDOW, FLUSH_AT in *. lia. }
  split_and!.
  - by rewrite Ho, app_assoc.
  - by rewrite <- app_assoc, take_drop.
  - rewrite length_app, length_take, Hf. unfold WINDOW in Hu. lia.
  - by rewrite crc32_update_app, <- Hc.
  - right. rewrite length_drop. lia.
Qed.

Lemma append_has pre s o d :
  sink_has pre s o -> sink_has pre (mkSink (out s) (sbuf s ++ d) (flushed s) (crc s)) (o ++ d).
Proof.
  intros (f & Ho & -> & Hf & Hc & Hw). exists f. cbn. rewrite <- app_assoc.
  split_and!; [done..|]. destruct Hw as [?|?]; [by left|right].
  rewrite length_app. lia.
Qed.

Lemma push_has pre s o b : sink_has pre s o -> sink_has pre (push s b) (o ++ [b]).
Proof. intros H. by apply flush_has, append_has. Qed.

Lemma extend_has pre s o d : sink_has pre s o -> sink_has pre (extend s d) (o ++ d).
Proof. intros H. by apply flush_has, append_has. Qed.

Lemma length_lz_copy len dist o : length (lz_copy len dist o) = length o + len.
Proof.
  revert o. induction len as [|len IH]; intros o; cbn; [lia|]. rewrite IH, length_app. cbn. lia.
Qed.

Lemma copy_loop_spec {len dist b} :
  0 < dist -> dist ≤ length b ->
  copy_loop len (length b - dist) b = Ok (lz_copy len dist b).
Proof.
  intros Hd. revert b. induction len as [|len IH]; intros b Hb; cbn [copy_loop lz_copy]; [done|].
  destruct (lookup_lt_is_Some_2 b (length b - dist)) as [x Hx]; [lia|].
  rewrite (index_Some _ _ x) by done. cbn [mbind result_bind].
  rewrite (list_lookup_total_correct _ _ _ Hx).
  rewrite <- IH by (rewrite length_app; lia). f_equal. rewrite length_app. cbn. lia.
Qed.

Lemma lz_copy_app len dist f b :
  dist ≤ length b -> 0 < dist -> lz_copy len dist (f ++ b) = f ++ lz_copy len dist b.
Proof.
  intros Hb Hd. revert b Hb. induction len as [|len IH]; intros b Hb; cbn [lz_copy]; [done|].
  rewrite <- app_assoc, IH by (rewrite length_app; lia). do 2 f_equal.
  f_equal. f_equal. rewrite length_app.
  destruct (lookup_lt_is_Some_2 b (length b - dist)) as [x Hx]; [lia|].
  rewrite (list_lookup_total_correct b _ x Hx). apply list_lookup_total_correct.
  rewrite lookup_app_r by lia. rewrite <- Hx. f_equal. lia.
Qed.

(** A match within DEFLATE's range is refused exactly when it reaches before
    the start of the whole output. *)
Lemma copy_back_spec pre s o dist len :
  sink_has pre s o -> 0 < dist -> (Z.of_nat dist ≤ WINDOW)%Z ->
  if decide (dist ≤ length o) then
    exists s', copy_back s dist len = Ok s' /\ sink_has pre s' (lz_copy len dist o)
  else copy_back s dist len = Err BadDistance.
Proof.
  intros Hs Hd Hw. pose proof Hs as (f & Ho & Heq & Hf & Hc & Hwin). unfold copy_back.
  assert (dist ≤ length o <-> dist ≤ length (sbuf s)) as Hiff.
  { rewrite Heq, length_app. destruct Hwin as [->|Hwin]; cbn; lia. }
  destruct (decide (dist ≤ length o)) as [Hle|Hgt].
  - rewrite decide_False by lia. rewrite copy_loop_spec by lia. cbn [mbind result_bind].
    eexists. split; [done|]. apply flush_has. exists f. cbn.
    split_and!; [done| |done|done|].
    + rewrite Heq. apply lz_copy_app; lia.
    + destruct Hwin as [?|?]; [by left|right]. rewrite length_lz_copy. lia.
  - rewrite decide_True; [done|]. right. lia.
Qed.

Lemma finish_spec pre s o :
  sink_has pre s o -> bytes_ok o -> finish s = (pre ++ o, length o, crc32_bitwise o).
Proof.
  intros (f & Ho & -> & Hf & Hc & _) Hb. unfold finish.
  rewrite Ho, Hf, Hc, length_app, <- app_assoc, <- crc32_update_app.
  f_equal. by apply crc32_spec.
Qed.

(** How many bits have been consumed, and the bits that remain. *)
Definition bit_pos (br : BitReader) : nat := 8 * pos br - cnt br.
Definition rem_bits (br : BitReader) : list bool := drop (bit_pos br) (stream_bits (data br)).

Record br_ok (br : BitReader) : Prop := {
  br_cnt : cnt br ≤ 8 * pos br;
  br_cnt64 : cnt br ≤ 64;
  br_pos : pos br ≤ length (data br);
  br_buf : (0 ≤ buf br < 2 ^ Z.of_nat (cnt br))%Z;
  br_data : bytes_ok (data br);
  br_window : lsb_bits (cnt br) (buf br) = take (cnt br) (rem_bits br);
}.

Lemma length_rem br : br_ok br -> length (rem_bits br) = 8 * (length (data br) - pos br) + cnt br.
Proof.
  intros [H1 H2 H3 _ _ _]. unfold rem_bits, bit_pos. rewrite length_drop, length_stream_bits. lia.
Qed.

Lemma br_new_ok d : bytes_ok d -> br_ok (br_new d).
Proof. intros H. split; cbn; try lia; done. Qed.

Lemma br_new_rem d : rem_bits (br_new d) = stream_bits d.
Proof. unfold rem_bits, bit_pos. cbn [cnt br_new pos data]. by rewrite drop_0. Qed.

(** ** Refilling *)

Lemma push_byte_bits n acc b :
  (0 ≤ acc < 2 ^ Z.of_nat n)%Z -> byte_ok b -> n ≤ 56 ->
  lsb_bits (n + 8) (Z.lor acc (u64 (Z.shiftl b (Z.of_nat n)))) = lsb_bits n acc ++ lsb_bits 8 b
  /\ (0 ≤ Z.lor acc (u64 (Z.shiftl b (Z.of_nat n))) < 2 ^ Z.of_nat (n + 8))%Z.
Proof.
  intros Ha Hb Hn. unfold byte_ok in Hb.
  assert (0 ≤ Z.shiftl b (Z.of_nat n) < 2 ^ Z.of_nat (n + 8))%Z as Hs.
  { rewrite Z.shiftl_mul_pow2, Nat2Z.inj_add, Z.pow_add_r by lia. nia. }
  assert (2 ^ Z.of_nat (n + 8) ≤ 2 ^ 64)%Z by (apply Z.pow_le_mono_r; lia).
  unfold u64. rewrite (wrap_small 64) by lia. split.
  - rewrite lsb_bits_app. f_equal; apply lsb_bits_ext; intros i Hi.
    + rewrite Z.lor_spec, Z.shiftl_spec_low by lia. apply orb_false_r.
    + rewrite Z.shiftr_spec, Z.lor_spec, Z.shiftl_spec by lia.
      rewrite (testbit_high (Z.of_nat n) acc) by lia. cbn. f_equal. lia.
  - apply lor_range; [|done]. split; [lia|].
    assert (2 ^ Z.of_nat n ≤ 2 ^ Z.of_nat (n + 8))%Z by (apply Z.pow_le_mono_r; lia). lia.
Qed.

Lemma refill_loop_spec fuel br :
  br_ok br ->
  let br' := refill_loop fuel br in
  br_ok br' /\ rem_bits br' = rem_bits br /\ data br' = data br /\ cnt br ≤ cnt br'
  /\ (56 < cnt br' \/ pos br' = length (data br) \/ cnt br + 8 * fuel ≤ cnt br').
Proof.
  revert br. induction fuel as [|fuel IH]; intros br Hok; cbn [refill_loop].
  - split_and!; [done..|lia]. 
  - case_decide as H56; [|split_and!; [done..|lia]].
    destruct (data br !! pos br) as [b|] eqn:Hb.
    + pose proof (lookup_lt_Some _ _ _ Hb) as Hlt. destruct Hok as [H1 H2 H3 H4 H5 H6].
      assert (byte_ok b) as Hbok by by eapply Forall_lookup_1.
      destruct (push_byte_bits (cnt br) (buf br) b H4 Hbok ltac:(lia)) as [Hbits Hrange].
      match goal with |- context [refill_loop fuel ?x] => set (br1 := x) end.
      assert (rem_bits br1 = rem_bits br) as Hrem.
      { unfold rem_bits, bit_pos, br1. cbn [data pos cnt]. f_equal. lia. }
      assert (br_ok br1) as Hok1.
      { split; cbn [br1 data pos cnt buf]; try done; try lia.
        rewrite Hrem. change (lsb_bits (cnt br + 8) (Z.lor (buf br) (u64 (b ≪ Z.of_nat (cnt br))))
          = take (cnt br + 8) (rem_bits br)).
        rewrite Hbits, H6. rewrite <- take_take_drop. f_equal. unfold rem_bits, bit_pos.
        rewrite drop_drop. replace (8 * pos br - cnt br + cnt br) with (8 * pos br) by lia.
        rewrite drop_stream_bits, (drop_S _ b) by done.
        unfold stream_bits. rewrite bind_cons. symmetry. apply take_app_length'. symmetry.
        apply length_lsb_bits. }
      destruct (IH br1 Hok1) as (? & Hr & Hd & Hc & Hx). cbn in Hc, Hx.
      split_and!; [done|by rewrite Hr|done|lia|].
      destruct Hx as [?|[?|?]]; [by left|right; left; done|right; right; lia].
    + apply lookup_ge_None in Hb. pose proof (br_pos _ Hok).
      split_and!; [done..|]. right. left. lia.
Qed.

Lemma refill_spec br :
  br_ok br ->
  br_ok (refill br) /\ rem_bits (refill br) = rem_bits br /\ data (refill br) = data br
  /\ (57 ≤ cnt (refill br) \/ cnt (refill br) = length (rem_bits br)).
Proof.
  intros Hok. unfold refill.
  destruct (refill_loop_spec 8 br Hok) as (H1 & H2 & H3 & H4 & H5).
  split; [exact H1|]. split; [exact H2|]. split; [exact H3|].
  destruct H5 as [?|[Hp|?]]; [left; lia| |left; lia].
  right. rewrite <- H2, length_rem by done. rewrite H3, Hp. lia.
Qed.

Lemma ensure_spec br n :
  br_ok br -> n ≤ 57 ->
  let br' := if decide (cnt br < n) then refill br else br in
  br_ok br' /\ rem_bits br' = rem_bits br /\ data br' = data br
  /\ (n ≤ cnt br' \/ cnt br' = length (rem_bits br)).
Proof.
  intros Hok Hn. case_decide; [|split_and!; [done..|left; lia]].
  destruct (refill_spec br Hok) as (? & ? & ? & [?|?]); split_and!; try done; [left; lia|by right].
Qed.

(** ** Peeking and consuming *)

Lemma low_bits_take br n :
  br_ok br -> n ≤ cnt br \/ cnt br = length (rem_bits br) ->
  wrap (Z.of_nat n) (buf br) = of_lsb (take n (rem_bits br)).
Proof.
  intros [H1 H2 H3 H4 H5 H6] Hn. destruct (decide (n ≤ cnt br)) as [Hle|Hgt].
  - rewrite <- of_lsb_bits. f_equal.
    apply (f_equal (take n)) in H6. rewrite take_take, Nat.min_l in H6 by lia. rewrite <- H6.
    replace (cnt br) with (n + (cnt br - n)) by lia. rewrite lsb_bits_app.
    symmetry. apply take_app_length'. symmetry. apply length_lsb_bits.
  - destruct Hn as [|Hn]; [lia|].
    rewrite !take_ge in * by lia. rewrite <- H6, of_lsb_bits.
    assert (2 ^ Z.of_nat (cnt br) ≤ 2 ^ Z.of_nat n)%Z by (apply Z.pow_le_mono_r; lia).
    rewrite !wrap_small by lia. done.
Qed.

Lemma peek_spec br n :
  br_ok br -> n ≤ 32 ->
  let '(v, br') := peek br n in
  br_ok br' /\ rem_bits br' = rem_bits br /\ data br' = data br
  /\ v = of_lsb (take n (rem_bits br)).
Proof.
  intros Hok Hn. unfold peek.
  destruct (ensure_spec br n Hok ltac:(lia)) as (Hok' & Hr & Hd & Hc).
  cbn zeta. set (br' := if decide (cnt br < n) then refill br else br) in *.
  split_and!; [done..|]. rewrite <- Hr in Hc |- *.
  rewrite <- (low_bits_take br' n Hok' Hc). unfold u64, u32.
  rewrite Z.shiftl_1_l.
  assert (2 ^ Z.of_nat n < 2 ^ 64)%Z by (apply Z.pow_lt_mono_r; lia).
  assert (0 < 2 ^ Z.of_nat n)%Z by (apply Z.pow_pos_nonneg; lia).
  rewrite (wrap_small 64) by lia. replace (2 ^ Z.of_nat n - 1)%Z with (Z.ones (Z.of_nat n))
    by (rewrite Z.ones_equiv; lia).
  rewrite Z.land_ones by lia. apply wrap_small. fold (wrap (Z.of_nat n) (buf br')).
  pose proof (wrap_range (Z.of_nat n) (buf br') ltac:(lia)).
  assert (2 ^ Z.of_nat n ≤ 2 ^ 32)%Z by (apply Z.pow_le_mono_r; lia). lia.
Qed.

Lemma shift_window br n :
  br_ok br -> n ≤ cnt br ->
  let br' := mkBitReader (data br) (pos br) (Z.shiftr (buf br) (Z.of_nat n)) (cnt br - n) in
  br_ok br' /\ rem_bits br' = drop n (rem_bits br).
Proof.
  intros [H1 H2 H3 H4 H5 H6] Hn br'.
  assert (rem_bits br' = drop n (rem_bits br)) as Hr.
  { unfold rem_bits, bit_pos, br'. cbn [data pos cnt]. rewrite drop_drop. f_equal. lia. }
  split; [|done]. split; cbn [br' data pos cnt buf]; try done; try lia.
  - rewrite Z.shiftr_div_pow2 by lia. split; [apply Z.div_pos; lia|].
    apply Z.div_lt_upper_bound; [lia|]. rewrite <- Z.pow_add_r by lia.
    replace (Z.of_nat n + Z.of_nat (cnt br - n))%Z with (Z.of_nat (cnt br)) by lia. apply H4.
  - rewrite Hr.
    change (lsb_bits (cnt br - n) (buf br ≫ Z.of_nat n) = take (cnt br - n) (drop n (rem_bits br))).
    apply (f_equal (drop n)) in H6. rewrite take_drop_commute.
    replace (n + (cnt br - n)) with (cnt br) by lia. rewrite <- H6.
    replace (cnt br) with (n + (cnt br - n)) at 2 by lia. rewrite lsb_bits_app.
    rewrite drop_app_length' by (symmetry; apply length_lsb_bits). done.
Qed.

Lemma consume_spec br n :
  br_ok br -> n ≤ 56 ->
  if decide (n ≤ length (rem_bits br)) then
    exists br', consume br n = Ok br' /\ br_ok br' /\ data br' = data br
      /\ rem_bits br' = drop n (rem_bits br)
  else consume br n = Err TruncatedDeflate.
Proof.
  intros Hok Hn. unfold consume.
  destruct (ensure_spec br n Hok ltac:(lia)) as (Hok' & Hr & Hd & Hc).
  cbn zeta. set (br' := if decide (cnt br < n) then refill br else br) in *.
  pose proof (length_rem _ Hok') as Hl. rewrite Hr in Hl.
  destruct (decide (cnt br' < n)).
  - rewrite decide_False by lia. done.
  - rewrite decide_True by lia. eexists. split; [done|].
    destruct (shift_window br' n Hok' ltac:(lia)) as [? E]. rewrite E, Hr. done.
Qed.

(** Reading [n] bits is [reads]. *)
Lemma bits_Ok br n v bs' :
  br_ok br -> n ≤ 32 -> reads n (rem_bits br) v bs' ->
  exists br', bits br n = Ok (v, br') /\ br_ok br' /\ data br' = data br /\ rem_bits br' = bs'.
Proof.
  intros Hok Hn (b & Hb & Hl & ->). unfold bits. case_decide as H0.
  { exists br. destruct b; [|cbn in Hl; lia]. done. }
  pose proof (peek_spec br n Hok Hn) as Hp. destruct (peek br n) as [v br1].
  destruct Hp as (Hok1 & Hr1 & Hd1 & ->).
  pose proof (consume_spec br1 n Hok1 ltac:(lia)) as Hc. rewrite Hr1, Hb, length_app in Hc.
  rewrite decide_True in Hc by lia. destruct Hc as (br2 & -> & Hok2 & Hd2 & Hr2).
  exists br2. rewrite Hb, take_app_length' by done. cbn [mbind result_bind].
  split_and!; [done|done|congruence|].
  rewrite Hr2. by apply drop_app_length'.
Qed.

Lemma bits_inv br n v br' :
  br_ok br -> n ≤ 32 -> bits br n = Ok (v, br') ->
  br_ok br' /\ data br' = data br /\ reads n (rem_bits br) v (rem_bits br').
Proof.
  intros Hok Hn H. unfold bits in H. case_decide as H0.
  { injection H as <- <-. split_and!; [done..|]. subst n. by exists []. }
  pose proof (peek_spec br n Hok Hn) as Hp. destruct (peek br n) as [v' br1].
  destruct Hp as (Hok1 & Hr1 & Hd1 & ->). inv_ok H. simplify_eq.
  pose proof (consume_spec br1 n Hok1 ltac:(lia)) as Hc. case_decide as Hl; [|congruence].
  destruct Hc as (br2 & E & Hok2 & Hd2 & Hr2). rewrite Hx in E. injection E as <-.
  split_and!; [done|congruence|]. rewrite Hr2, Hr1 in *. exists (take n (rem_bits br)).
  rewrite take_drop, length_take. split_and!; [done|lia|done].
Qed.

Lemma bits_returns br n : br_ok br -> n ≤ 32 -> returns (bits br n).
Proof.
  intros Hok Hn. unfold bits. case_decide; [done|].
  pose proof (peek_spec br n Hok Hn) as Hp. destruct (peek br n) as [v br1].
  destruct Hp as (Hok1 & _). pose proof (consume_spec br1 n Hok1 ltac:(lia)) as Hc.
  case_decide; [destruct Hc as (? & -> & _)|rewrite Hc]; done.
Qed.

(** ** Alignment and whole bytes *)

Lemma align_spec br :
  br_ok br ->
  br_ok (align br) /\ data (align br) = data br /\ rem_bits (align br) = aligned (rem_bits br)
  /\ cnt (align br) `mod` 8 = 0.
Proof.
  intros Hok. pose proof (length_rem _ Hok) as Hl.
  assert (length (rem_bits br) `mod` 8 = cnt br `mod` 8) as Hm.
  { rewrite Hl, Nat.add_comm, Nat.mul_comm. apply Nat.Div0.mod_add. }
  pose proof (Nat.Div0.mod_le (cnt br) 8).
  destruct (shift_window br (cnt br `mod` 8) Hok ltac:(lia)) as [Hok' Hr'].
  split_and!; [done|done| |].
  - unfold aligned. by rewrite Hm.
  - cbn [align cnt]. pose proof (Nat.div_mod_eq (cnt br) 8).
    replace (cnt br - cnt br `mod` 8) with ((cnt br `div` 8) * 8) by lia.
    apply Nat.Div0.mod_mul.
Qed.

Lemma buffered_le br : br_ok br -> cnt br `div` 8 ≤ pos br.
Proof. intros [H _ _ _ _ _]. apply Nat.Div0.div_le_upper_bound. lia. Qed.

(** Where a byte-aligned reader stands in its data. *)
Lemma rem_aligned br :
  br_ok br -> cnt br `mod` 8 = 0 ->
  rem_bits br = stream_bits (drop (pos br - cnt br `div` 8) (data br)).
Proof.
  intros Hok Hm. unfold rem_bits, bit_pos. rewrite <- drop_stream_bits. f_equal.
  pose proof (Nat.div_mod_eq (cnt br) 8). lia.
Qed.

Lemma read_bytes_returns br n : br_ok br -> returns (read_bytes br n).
Proof.
  intros Hok. pose proof (buffered_le br Hok). unfold read_bytes.
  rewrite decide_False by lia. case_decide; [done|]. by rewrite slice_ok by lia.
Qed.

Lemma read_bytes_inv br n d br' :
  br_ok br -> cnt br `mod` 8 = 0 -> read_bytes br n = Ok (d, br') ->
  br_ok br' /\ data br' = data br /\ cnt br' `mod` 8 = 0 /\ length d = n /\ bytes_ok d
  /\ rem_bits br = stream_bits d ++ rem_bits br'.
Proof.
  intros Hok Hm H. pose proof (buffered_le br Hok). unfold read_bytes in H.
  rewrite decide_False in H by lia. case_decide; [done|]. rewrite slice_ok in H by lia.
  cbn [mbind result_bind] in H. rewrite (rem_aligned br Hok Hm).
  set (start := pos br - cnt br `div` 8) in *.
  replace (start + n - start) with n in H by lia. injection H as <- <-.
  destruct Hok as [_ _ _ _ Hd _].
  split_and!; [|done|done|rewrite length_take, length_drop; lia|by apply Forall_take, Forall_drop|].
  - split; cbn; try lia; done.
  - rewrite <- (take_drop n (drop start (data br))) at 1. rewrite stream_bits_app. f_equal.
    unfold rem_bits, bit_pos. cbn [data pos cnt].
    rewrite Nat.sub_0_r, drop_stream_bits, drop_drop. done.
Qed.

Lemma read_bytes_Ok br n d bs' :
  br_ok br -> cnt br `mod` 8 = 0 -> length d = n -> bytes_ok d ->
  rem_bits br = stream_bits d ++ bs' ->
  exists br', read_bytes br n = Ok (d, br') /\ br_ok br' /\ data br' = data br
    /\ cnt br' `mod` 8 = 0 /\ rem_bits br' = bs'.
Proof.
  intros Hok Hm Hn Hd Hrem. pose proof (buffered_le br Hok).
  assert (exists d' br', read_bytes br n = Ok (d', br')) as (d' & br' & E).
  { pose proof (br_pos _ Hok). unfold read_bytes. rewrite decide_False by lia.
    pose proof Hrem as Hl. rewrite (rem_aligned br Hok Hm) in Hl. apply (f_equal length) in Hl.
    rewrite length_app, !length_stream_bits, length_drop in Hl.
    rewrite decide_False by lia. rewrite slice_ok by lia. cbn [mbind result_bind]. eauto. }
  destruct (read_bytes_inv _ _ _ _ Hok Hm E) as (Hok' & Hd' & Hm' & Hl' & Hb' & Hr').
  rewrite Hrem in Hr'. apply app_inj_1 in Hr' as [Hs ->];
    [|rewrite !length_stream_bits; lia].
  apply stream_bits_inj in Hs as ->; [|done..]. by exists br'.
Qed.

Lemma byte_pos_spec br :
  br_ok br ->
  exists p, byte_pos br = Ok p /\ p ≤ length (data br)
    /\ aligned (rem_bits br) = stream_bits (drop p (data br)).
Proof.
  intros Hok. destruct (align_spec br Hok) as (Hok' & Hd' & Hr' & Hm').
  pose proof (buffered_le br Hok) as Hb. pose proof (br_pos _ Hok) as Hp.
  exists (pos br - cnt br `div` 8). unfold byte_pos. rewrite decide_False by lia.
  split_and!; [done|lia|]. rewrite <- Hr', (rem_aligned _ Hok' Hm'), Hd'. do 3 f_equal.
  cbn [align pos cnt]. pose proof (Nat.div_mod_eq (cnt br) 8).
  replace (cnt br - cnt br `mod` 8) with ((cnt br `div` 8) * 8) by lia.
  by rewrite Nat.div_mul by lia.
Qed.
