(* ===== verification/InflateHuffman.v ===== *)
(** * The flat tables decode canonical codes

    [huffman_new] accepts exactly the codes DEFLATE admits, and decoding with
    its table is reading a canonical code word. *)
From S2P Require Import Prelude Inflate InflateSpec InflateBits.

(** ** Counting *)

Lemma count_of_cons l x ls : count_of l (x :: ls) = (if decide (x = l) then 1 else 0) + count_of l ls.
Proof. unfold count_of. rewrite filter_cons. by case_decide. Qed.

Lemma count_of_app l ls1 ls2 : count_of l (ls1 ++ ls2) = count_of l ls1 + count_of l ls2.
Proof. unfold count_of. by rewrite filter_app, length_app. Qed.

Lemma count_of_le l ls : count_of l ls ≤ length ls.
Proof. unfold count_of. apply length_filter. Qed.

Lemma count_of_zero l ls : count_of l ls = 0 <-> Forall (fun x => x <> l) ls.
Proof.
  induction ls as [|x ls IH]; [split; constructor|]. rewrite count_of_cons, Forall_cons.
  case_decide; naive_solver lia.
Qed.

Lemma count_of_take_lt l ls sym :
  ls !! sym = Some l -> count_of l (take sym ls) < count_of l ls.
Proof.
  intros H. rewrite <- (take_drop_middle ls sym l H) at 2.
  rewrite count_of_app, count_of_cons, decide_True by done. lia.
Qed.

Lemma count_of_take_mono l ls i j :
  i < j -> ls !! i = Some l -> count_of l (take i ls) < count_of l (take j ls).
Proof.
  intros Hij H. pose proof (lookup_lt_Some _ _ _ H).
  replace (take i ls) with (take i (take j ls)) by (rewrite take_take; f_equal; lia).
  apply count_of_take_lt. by rewrite lookup_take_lt.
Qed.

Definition total (lengths : list nat) (l : nat) : nat := first_code lengths l + used lengths l.

Lemma first_code_S lengths l : first_code lengths (S l) = 2 * total lengths l.
Proof. done. Qed.

Lemma total_growth lengths l n : 2 ^ n * total lengths l ≤ total lengths (l + n).
Proof.
  induction n as [|n IH]; [rewrite Nat.add_0_r; cbn; lia|].
  rewrite Nat.add_succ_r. unfold total at 2. rewrite first_code_S. cbn [Nat.pow]. lia.
Qed.

Lemma first_code_growth lengths l n :
  0 < n -> 2 ^ n * total lengths l ≤ first_code lengths (l + n).
Proof.
  destruct n as [|n]; [lia|]. intros _. rewrite Nat.add_succ_r, first_code_S. cbn [Nat.pow].
  pose proof (total_growth lengths l n). lia.
Qed.

(** ** The Kraft sum *)

(** The space claimed, in units of 2^-m, by code words of at most [m] bits. *)
Definition kraft_upto (lengths : list nat) (m : nat) : nat :=
  sum_list_with (fun l => match l with O => 0 | S _ => if decide (l ≤ m) then 2 ^ (m - l) else 0 end)
    lengths.

Lemma kraft_upto_S lengths m :
  kraft_upto lengths (S m) = 2 * kraft_upto lengths m + count_of (S m) lengths.
Proof.
  unfold kraft_upto. induction lengths as [|l ls IH]; [done|].
  cbn [sum_list_with]. rewrite IH, count_of_cons. clear IH.
  destruct l as [|l]; [rewrite decide_False by lia; lia|].
  destruct (decide (S l = S m)) as [->|].
  - rewrite Nat.sub_diag, decide_True, decide_False by lia. cbn. lia.
  - destruct (decide (S l ≤ m)).
    + rewrite decide_True by lia. replace (S m - S l) with (S (m - S l)) by lia. cbn [Nat.pow]. lia.
    + rewrite decide_False by lia. lia.
Qed.

Lemma kraft_upto_total lengths m : kraft_upto lengths m = total lengths m.
Proof.
  induction m as [|m IH].
  - change (total lengths 0) with 0. unfold kraft_upto.
    induction lengths as [|[|l] ls IH]; cbn [sum_list_with]; [done|done|].
    by rewrite decide_False by lia.
  - rewrite kraft_upto_S, IH. unfold total at 2. rewrite first_code_S. cbn [used]. lia.
Qed.

Lemma kraft_sum_total lengths m :
  m ≤ 15 -> Forall (fun l => l ≤ m) lengths ->
  kraft_sum lengths = total lengths m * 2 ^ (15 - m).
Proof.
  intros Hm H. rewrite <- kraft_upto_total. unfold kraft_sum, kraft_upto.
  induction H as [|l ls Hl H IH]; [done|]. cbn [sum_list_with]. rewrite IH.
  destruct l as [|l]; [lia|]. rewrite decide_True by lia.
  replace (15 - S l) with ((m - S l) + (15 - m)) by lia. rewrite Nat.pow_add_r. lia.
Qed.

(** ** Building: counts, the longest length, the Kraft check *)

Lemma count_lengths_spec lengths counts f :
  length counts = 16 -> (forall l, l ≤ 15 -> counts !! l = Some (Z.of_nat (f l))) ->
  (forall l, Z.of_nat (f l + length lengths) < 65536)%Z ->
  if decide (Forall (fun l => l ≤ 15) lengths) then
    exists counts', count_lengths lengths counts = Ok counts' /\ length counts' = 16
      /\ forall l, l ≤ 15 -> counts' !! l = Some (Z.of_nat (f l + count_of l lengths))
  else count_lengths lengths counts = Err LengthExceeds15.
Proof.
  revert counts f. induction lengths as [|x ls IH]; intros counts f Hlen Hc Hf.
  - rewrite decide_True by constructor. exists counts. split_and!; [done..|].
    intros l Hl. rewrite Hc by done. cbn. do 2 f_equal. lia.
  - cbn [count_lengths]. unfold MAX_BITS. destruct (decide (15 < x)) as [Hx|Hx].
    { rewrite decide_False; [done|]. rewrite Forall_cons. lia. }
    rewrite (index_Some _ x (Z.of_nat (f x))) by (apply Hc; lia). cbn [mbind result_bind].
    specialize (IH (<[x := u16 (Z.of_nat (f x) + 1)]> counts)
      (fun l => if decide (l = x) then f l + 1 else f l)).
    specialize (IH ltac:(by rewrite length_insert)).
    ospecialize (IH _ _).
    + intros l Hl. rewrite list_lookup_insert, Hlen. rewrite length_cons in Hf. pose proof (Hf x).
      destruct (decide (x = l ∧ x < 16)) as [[<- _]|Hd].
      * rewrite decide_True by done. unfold u16. rewrite wrap_small by lia. f_equal. lia.
      * rewrite decide_False by (intros ->; lia). by apply Hc.
    + intros l. rewrite length_cons in Hf. specialize (Hf l). cbv beta. destruct (decide (l = x)); lia.
    + destruct (decide (Forall (λ l, l ≤ 15) ls)) as [HF|HF].
      * rewrite decide_True by (constructor; [lia|done]).
        destruct IH as (c' & -> & Hl' & Hc'). exists c'. split_and!; [done..|].
        intros l Hl. rewrite Hc' by done. rewrite count_of_cons.
        do 2 f_equal. repeat case_decide; subst; lia || congruence.
      * rewrite decide_False by (rewrite Forall_cons; tauto). done.
Qed.

(** The counts as [huffman_new] uses them. *)
Definition counts_ok (lengths : list nat) (counts : list Z) : Prop :=
  length counts = 16 /\ forall l, l ≤ 15 -> counts !! l = Some (Z.of_nat (used lengths l)).

Lemma find_max_spec lengths counts m :
  counts_ok lengths counts -> m ≤ 15 ->
  exists x, find_max m counts = Ok x /\ x ≤ m /\ (0 < x -> 0 < used lengths x)
    /\ forall l, x < l -> l ≤ m -> used lengths l = 0.
Proof.
  intros [Hlen Hc]. induction m as [|m IH]; intros Hm; cbn [find_max].
  - exists 0. split_and!; [done|lia..].
  - rewrite (index_Some _ (S m) _ (Hc (S m) Hm)). cbn [mbind result_bind]. case_decide as Hz.
    + exists (S m). split_and!; [done|lia|lia|lia].
    + destruct IH as (x & -> & Hx & Hp & Ha); [lia|]. exists x. split_and!; [done|lia|done|].
      intros l Hl1 Hl2. destruct (decide (l = S m)) as [->|]; [lia|]. apply Ha; lia.
Qed.

Lemma kraft_spec lengths n l :
  total lengths l ≤ 2 ^ l ->
  kraft ((fun j => Z.of_nat (used lengths j)) <$> seq (S l) n) (2 ^ Z.of_nat l - Z.of_nat (total lengths l))
  = (if decide (total lengths (l + n) ≤ 2 ^ (l + n))
     then Ok (2 ^ Z.of_nat (l + n) - Z.of_nat (total lengths (l + n)))%Z
     else Err OverSubscribed).
Proof.
  revert l. induction n as [|n IH]; intros l Hl; cbn [seq fmap list_fmap kraft].
  { rewrite Nat.add_0_r. by rewrite decide_True. }
  assert (2 * (2 ^ Z.of_nat l - Z.of_nat (total lengths l)) - Z.of_nat (used lengths (S l))
    = 2 ^ Z.of_nat (S l) - Z.of_nat (total lengths (S l)))%Z as E.
  { unfold total at 2. rewrite first_code_S, Nat2Z.inj_succ, Z.pow_succ_r by lia. lia. }
  rewrite E. pose proof (Nat2Z.inj_pow 2 (S l)) as Hpow. 
  case_decide as Hneg.
  - rewrite decide_False; [done|]. rewrite Nat.add_succ_r, <- Nat.add_succ_l.
    pose proof (total_growth lengths (S l) n) as Hg. rewrite Nat.pow_add_r.
    assert (2 ^ S l < total lengths (S l)) by lia.
    assert (0 < 2 ^ n) by (pose proof (Nat.pow_nonzero 2 n); lia). nia.
  - rewrite IH by lia. by rewrite Nat.add_succ_r, <- Nat.add_succ_l.
Qed.

Lemma next_codes_spec lengths counts n l nc :
  counts_ok lengths counts -> length nc = 17 -> 0 < l -> l + n ≤ 16 ->
  (forall j, j < l + n -> total lengths j ≤ 2 ^ j) ->
  exists nc', next_codes n l counts nc (Z.of_nat (first_code lengths (l - 1))) = Ok nc'
    /\ length nc' = 17
    /\ forall j, nc' !! j = if decide (l ≤ j < l + n) then Some (Z.of_nat (first_code lengths j)) else nc !! j.
Proof.
  intros [Hlen Hc]. revert l nc. induction n as [|n IH]; intros l nc Hnc Hl Hn Ht; cbn [next_codes].
  - exists nc. split_and!; [done..|]. intros j. by rewrite decide_False by lia.
  - rewrite (index_Some _ (l - 1) _ (Hc (l - 1) ltac:(lia))). cbn [mbind result_bind].
    assert (u32 (Z.shiftl (Z.of_nat (first_code lengths (l - 1)) + Z.of_nat (used lengths (l - 1))) 1)
      = Z.of_nat (first_code lengths (l + 1 - 1))) as ->.
    { replace (l + 1 - 1) with (S (l - 1)) by lia. rewrite first_code_S. unfold total.
      rewrite Z.shiftl_mul_pow2 by lia. unfold u32. rewrite wrap_small; [lia|].
      specialize (Ht (l - 1) ltac:(lia)). unfold total in Ht.
      assert (2 ^ Z.of_nat (l - 1) ≤ 2 ^ 15)%Z by (apply Z.pow_le_mono_r; lia).
      pose proof (Nat2Z.inj_pow 2 (l - 1)). lia. }
    destruct (IH (l + 1) (<[l := Z.of_nat (first_code lengths (l + 1 - 1))]> nc))
      as (nc' & -> & Hl' & Hj); [by rewrite length_insert|lia|lia| |].
    { intros j Hj. apply Ht. lia. }
    exists nc'. split_and!; [done..|]. intros j. rewrite Hj.
    destruct (decide (j = l)) as [->|].
    + rewrite decide_False, decide_True by lia. rewrite list_lookup_insert_eq by lia.
      by replace (l + 1 - 1) with l by lia.
    + rewrite list_lookup_insert_ne by done. repeat case_decide; lia || done.
Qed.

(** ** Code words are prefix-free *)

Definition kraft_ok (lengths : list nat) : Prop :=
  forall l, l ≤ 15 -> total lengths l ≤ 2 ^ l.

Lemma code_word_inv lengths sym c :
  code_word lengths sym = Some c ->
  exists len, lengths !! sym = Some len /\ 0 < len /\ length c = len
    /\ c = to_bits len (Z.of_nat (first_code lengths len + count_of len (take sym lengths))).
Proof.
  unfold code_word. destruct (lengths !! sym) as [[|n]|] eqn:E; [done| |done].
  intros [= <-]. exists (S n). split_and!; [done|lia|apply length_to_bits|done].
Qed.

Lemma code_number_lt lengths sym len :
  lengths !! sym = Some len -> 0 < len ->
  first_code lengths len + count_of len (take sym lengths) < total lengths len.
Proof.
  intros H Hl. pose proof (count_of_take_lt len lengths sym H). unfold total, used.
  destruct len; [lia|]. lia.
Qed.

Lemma of_nat_pow2 n : Z.of_nat (2 ^ n) = (2 ^ Z.of_nat n)%Z.
Proof. apply (Nat2Z.inj_pow 2 n). Qed.

Lemma code_word_value lengths sym len c :
  kraft_ok lengths -> Forall (fun l => l ≤ 15) lengths ->
  lengths !! sym = Some len -> code_word lengths sym = Some c ->
  of_bits c = Z.of_nat (first_code lengths len + count_of len (take sym lengths)).
Proof.
  intros Hk H15 Hs (len' & Hs' & Hpos & _ & ->)%code_word_inv. simplify_eq.
  rewrite of_to_bits. apply wrap_small.
  pose proof (code_number_lt lengths sym len Hs Hpos).
  pose proof (Hk len (Forall_lookup_1 _ _ _ _ H15 Hs)). rewrite <- of_nat_pow2. lia.
Qed.

Lemma prefix_split {A} (c1 c2 w : list A) :
  c1 `prefix_of` w -> c2 `prefix_of` w -> length c1 ≤ length c2 -> exists t, c2 = c1 ++ t.
Proof.
  intros [k1 ->] [k2 E] Hl. apply app_eq_inv in E as [(k & -> & ->)|(k & -> & ->)].
  - rewrite length_app in Hl. assert (k = []) as -> by (destruct k; cbn in *; [done|lia]).
    exists []. by rewrite !app_nil_r.
  - by exists k.
Qed.

Lemma code_word_prefix lengths a b la lb ca cb t :
  kraft_ok lengths -> Forall (fun l => l ≤ 15) lengths ->
  lengths !! a = Some la -> lengths !! b = Some lb ->
  code_word lengths a = Some ca -> code_word lengths b = Some cb -> cb = ca ++ t -> a = b.
Proof.
  intros Hk H15 Ha Hb Hca Hcb E.
  pose proof (code_word_value _ _ _ _ Hk H15 Ha Hca) as Va.
  pose proof (code_word_value _ _ _ _ Hk H15 Hb Hcb) as Vb.
  apply code_word_inv in Hca as (la' & Ha' & Hla & Hcla & _).
  apply code_word_inv in Hcb as (lb' & Hb' & Hlb & Hclb & _). simplify_eq.
  rewrite length_app in *.
  destruct t as [|x t].
  - rewrite app_nil_r in *. cbn [length] in *. rewrite Nat.add_0_r in *.
    rewrite Va in Vb. apply Nat2Z.inj in Vb.
    destruct (Nat.lt_trichotomy a b) as [Hlt|[->|Hlt]]; [|done|].
    + pose proof (count_of_take_mono _ _ _ _ Hlt Ha). lia.
    + pose proof (count_of_take_mono _ _ _ _ Hlt Hb). lia.
  - exfalso. pose proof (code_number_lt _ _ _ Ha Hla) as Hlt.
    pose proof (first_code_growth lengths (length ca) (length (x :: t)) ltac:(cbn; lia)) as Hg.
    rewrite of_bits_app, Va in Vb. pose proof (of_bits_range (x :: t)) as Hr.
    set (n := length (x :: t)) in *. rewrite <- of_nat_pow2 in *. nia.
Qed.

Lemma code_word_unique lengths a b ca cb w :
  kraft_ok lengths -> Forall (fun l => l ≤ 15) lengths ->
  code_word lengths a = Some ca -> code_word lengths b = Some cb ->
  ca `prefix_of` w -> cb `prefix_of` w -> a = b.
Proof.
  intros Hk H15 Hca Hcb Hpa Hpb.
  pose proof (code_word_inv _ _ _ Hca) as (la & Ha & _).
  pose proof (code_word_inv _ _ _ Hcb) as (lb & Hb & _).
  destruct (decide (length ca ≤ length cb)).
  - destruct (prefix_split ca cb w) as [t ->]; [done..|]. by eapply code_word_prefix.
  - destruct (prefix_split cb ca w) as [t ->]; [done|done|lia|]. symmetry.
    by eapply code_word_prefix.
Qed.

(** ** Reversed codes index the table *)

Lemma reverse_bits_testbit v n k j :
  k ≤ n -> (0 ≤ j)%Z ->
  Z.testbit (foldl (fun out i =>
      Z.lor out (Z.shiftl (Z.land (Z.shiftr v (Z.of_nat i)) 1) (Z.of_nat (n - 1 - i))))
      0%Z (seq 0 k)) j
  = bool_decide (Z.of_nat (n - k) ≤ j < Z.of_nat n)%Z && Z.testbit v (Z.of_nat n - 1 - j).
Proof.
  intros Hk Hj. induction k as [|k IH].
  - cbn. rewrite Z.testbit_0_l, bool_decide_false by lia. done.
  - rewrite seq_S, foldl_app. cbn [foldl]. rewrite Z.lor_spec, IH by lia. clear IH.
    rewrite Z.shiftl_spec, Nat.add_0_l by lia.
    assert (forall z, Z.land z 1 = z mod 2 ^ 1)%Z as -> by (intros z; apply (Z.land_ones z 1); lia).
    destruct (decide (j = Z.of_nat (n - 1 - k))) as [->|Hne].
    + rewrite bool_decide_false by lia. rewrite bool_decide_true by lia. cbn [andb orb].
      rewrite Z.sub_diag, Z.testbit_mod_pow2, Z.shiftr_spec by lia. cbn.
      f_equal. lia.
    + destruct (decide (j < Z.of_nat (n - 1 - k))%Z).
      * rewrite (Z.testbit_neg_r _ (j - _)) by lia.
        rewrite !bool_decide_false by lia. done.
      * rewrite Z.testbit_mod_pow2 by lia.
        rewrite (proj2 (Z.ltb_ge _ 1)) by lia.
        rewrite orb_false_r. f_equal. apply bool_decide_ext. lia.
Qed.

Lemma lookup_lsb_bits n z i :
  i < n -> lsb_bits n z !! i = Some (Z.testbit z (Z.of_nat i)).
Proof.
  intros Hi. unfold lsb_bits. rewrite reverse_lookup by (rewrite length_to_bits; lia).
  rewrite length_to_bits. assert (forall k, k < n -> to_bits n z !! k = Some (Z.testbit z (Z.of_nat (n - S k)))) as H.
  { clear. induction n as [|n IH]; intros [|k] Hk; try lia.
    - cbn. by rewrite Nat.sub_0_r.
    - change (to_bits n z !! k = Some (Z.testbit z (Z.of_nat (S n - S (S k))))).
      rewrite IH by lia. done. }
  rewrite H by lia. do 3 f_equal. lia.
Qed.

Lemma lsb_bits_lookup_ext n z z' :
  lsb_bits n z = lsb_bits n z' <->
  (forall i, i < n -> Z.testbit z (Z.of_nat i) = Z.testbit z' (Z.of_nat i)).
Proof.
  split.
  - intros E i Hi. apply (f_equal (lookup i)) in E. rewrite !lookup_lsb_bits in E by done. congruence.
  - intros H. apply lsb_bits_ext. intros i Hi. rewrite <- (Z2Nat.id i) by lia. apply H. lia.
Qed.

Lemma reverse_bits_lsb v n : lsb_bits n (reverse_bits v n) = to_bits n v.
Proof.
  apply list_eq_same_length with n; [by rewrite length_to_bits|by rewrite length_lsb_bits|].
  intros i x y Hi. rewrite lookup_lsb_bits, lookup_to_bits by done.
  unfold reverse_bits. rewrite reverse_bits_testbit by lia.
  rewrite bool_decide_true by lia. cbn [andb]. intros [= <-] [= <-]. f_equal. lia.
Qed.

Lemma reverse_bits_range v n : (0 ≤ reverse_bits v n < 2 ^ Z.of_nat n)%Z.
Proof.
  assert (reverse_bits v n = wrap (Z.of_nat n) (reverse_bits v n)) as ->;
    [|apply wrap_range; lia].
  apply Z.bits_inj'. intros j Hj. rewrite testbit_wrap by lia. unfold reverse_bits.
  rewrite !reverse_bits_testbit by lia. rewrite Nat.sub_diag.
  case_bool_decide; cbn; [|by rewrite andb_false_r]. by rewrite bool_decide_true by lia.
Qed.

(** Index [idx] of a table of [2^max] entries starts with the code word [c]. *)
Definition claims (lengths : list nat) (max sym idx : nat) : Prop :=
  exists c, code_word lengths sym = Some c /\ c `prefix_of` lsb_bits max (Z.of_nat idx).

Lemma lsb_bits_mod n i : lsb_bits n (Z.of_nat i) = lsb_bits n (Z.of_nat (i `mod` 2 ^ n)).
Proof.
  apply lsb_bits_lookup_ext. intros k Hk.
  rewrite Nat2Z.inj_mod, of_nat_pow2. symmetry. apply Z.mod_pow2_bits_low. lia.
Qed.

Lemma lsb_bits_inj n i j : i < 2 ^ n -> j < 2 ^ n ->
  lsb_bits n (Z.of_nat i) = lsb_bits n (Z.of_nat j) -> i = j.
Proof.
  intros Hi Hj E. apply (f_equal of_lsb) in E. rewrite !of_lsb_bits in E.
  pose proof (of_nat_pow2 n). rewrite !wrap_small in E by lia. lia.
Qed.

(** The entries that [huffman_new] writes for a symbol are the ones that
    symbol claims. *)
Lemma claims_step lengths max sym len idx :
  lengths !! sym = Some len -> 0 < len -> len ≤ max ->
  let rev := Z.to_nat (reverse_bits
    (Z.of_nat (first_code lengths len + count_of len (take sym lengths))) len) in
  claims lengths max sym idx <-> exists k, idx = rev + k * 2 ^ len.
Proof.
  intros Hs Hpos Hle rev. unfold claims, code_word. rewrite Hs. destruct len as [|n]; [lia|].
  set (len := S n) in *. set (code := Z.of_nat _) in *.
  assert (rev < 2 ^ len) as Hrev.
  { pose proof (reverse_bits_range code len). pose proof (of_nat_pow2 len). unfold rev. lia. }
  assert (lsb_bits len (Z.of_nat rev) = to_bits len code) as Hbits.
  { unfold rev. rewrite Z2Nat.id by apply reverse_bits_range. apply reverse_bits_lsb. }
  assert (lsb_bits max (Z.of_nat idx)
    = lsb_bits len (Z.of_nat idx) ++ lsb_bits (max - len) (Z.shiftr (Z.of_nat idx) (Z.of_nat len))) as E.
  { rewrite <- lsb_bits_app. f_equal. lia. }
  rewrite E. transitivity (lsb_bits len (Z.of_nat idx) = to_bits len code).
  - split.
    + intros (c & [= <-] & [t Ht]). apply app_inj_1 in Ht as [? _]; [done|].
      by rewrite length_lsb_bits, length_to_bits.
    + intros Ht. eexists. split; [done|]. rewrite Ht. by eexists.
  - rewrite <- Hbits, lsb_bits_mod. assert (2 ^ len <> 0) by by apply Nat.pow_nonzero. split.
    + intros Ht. apply lsb_bits_inj in Ht; [|apply Nat.mod_upper_bound; done|done].
      exists (idx `div` 2 ^ len). pose proof (Nat.div_mod_eq idx (2 ^ len)). lia.
    + intros [k ->]. do 2 f_equal. rewrite Nat.Div0.mod_add. by apply Nat.mod_small.
Qed.

(** ** Filling the table *)

Lemma fill_table_spec fuel size step i entry t :
  0 < step -> length t = size -> size - i ≤ fuel ->
  exists t', fill_table fuel size step i entry t = Ok t' /\ length t' = size
    /\ (forall j, (exists k, j = i + k * step) -> j < size -> t' !! j = Some entry)
    /\ (forall j, ~ (exists k, j = i + k * step) -> t' !! j = t !! j).
Proof.
  intros Hs. revert i t. induction fuel as [|fuel IH]; intros i t Ht Hf; cbn [fill_table].
  - rewrite decide_False by lia. exists t. split_and!; [done..| |done].
    intros j [k ->] Hj. lia.
  - case_decide as Hi.
    + destruct (index_lt (E := InflateError) t i) as (x & _ & ->); [lia|]. cbn [mbind result_bind].
      destruct (IH (i + step) (<[i := entry]> t)) as (t' & -> & Hl & H1 & H2);
        [by rewrite length_insert|lia|].
      exists t'. split_and!; [done..| |].
      * intros j [k ->] Hj. destruct k as [|k].
        -- rewrite Nat.add_0_r, H2; [apply list_lookup_insert_eq; lia|]. intros [k Hk]. lia.
        -- apply H1; [|done]. exists k. lia.
      * intros j Hj. rewrite H2.
        -- apply list_lookup_insert_ne. intros ->. apply Hj. exists 0. lia.
        -- intros [k ->]. apply Hj. exists (S k). lia.
    + exists t. split_and!; [done..| |done]. intros j [k ->] Hj. lia.
Qed.

(** The table after the symbols below [s]. *)
Definition table_ok (lengths : list nat) (max s : nat) (t : list Z) : Prop :=
  length t = 2 ^ max /\
  forall idx, idx < 2 ^ max ->
    (exists sym len, sym < s /\ lengths !! sym = Some len /\ claims lengths max sym idx
                     /\ t !! idx = Some (entry_of sym len))
    \/ (t !! idx = Some 0%Z /\ forall sym, sym < s -> ~ claims lengths max sym idx).

Lemma claims_dec_step lengths max sym len idx :
  lengths !! sym = Some len -> 0 < len -> len ≤ max ->
  claims lengths max sym idx \/ ~ claims lengths max sym idx.
Proof.
  intros Hs Hp Hl. unfold claims, code_word. rewrite Hs. destruct len; [lia|].
  destruct (decide (to_bits (S len) (Z.of_nat (first_code lengths (S len)
    + count_of (S len) (take sym lengths))) `prefix_of` lsb_bits max (Z.of_nat idx))).
  - left. eauto.
  - right. intros (c & [= <-] & ?). done.
Qed.

Lemma table_ok_step lengths max s len t t' :
  kraft_ok lengths -> Forall (fun l => l ≤ 15) lengths ->
  lengths !! s = Some len -> 0 < len -> len ≤ max ->
  table_ok lengths max s t ->
  length t' = 2 ^ max ->
  (forall idx, idx < 2 ^ max -> claims lengths max s idx -> t' !! idx = Some (entry_of s len)) ->
  (forall idx, ~ claims lengths max s idx -> t' !! idx = t !! idx) ->
  table_ok lengths max (s + 1) t'.
Proof.
  intros Hk H15 Hs Hp Hl [_ Ht] Hlen H1 H2. split; [done|]. intros idx Hidx.
  destruct (claims_dec_step lengths max s len idx Hs Hp Hl) as [Hc|Hc].
  - left. exists s, len. split_and!; [lia|done|done|by apply H1].
  - destruct (Ht idx Hidx) as [(sym & l & Hsym & Hls & Hcl & E)|[E Hn]].
    + left. exists sym, l. split_and!; [lia|done|done|by rewrite H2].
    + right. split; [by rewrite H2|]. intros sym Hsym.
      destruct (decide (sym = s)) as [->|]; [done|]. apply Hn. lia.
Qed.

Lemma assign_codes_spec lengths max s suffix nc t :
  kraft_ok lengths -> Forall (fun l => l ≤ max) lengths -> max ≤ 15 ->
  drop s lengths = suffix -> s ≤ length lengths ->
  length nc = 17 ->
  (forall l, 0 < l ≤ max ->
     nc !! l = Some (Z.of_nat (first_code lengths l + count_of l (take s lengths)))) ->
  table_ok lengths max s t ->
  exists t', assign_codes s suffix (2 ^ max) nc t = Ok t'
    /\ table_ok lengths max (length lengths) t'.
Proof.
  intros Hk Hmax H15. revert s nc t. induction suffix as [|len suffix IH];
    intros s nc t Hsuf Hsl Hncl Hnc Ht; cbn [assign_codes].
  - exists t. split; [done|]. apply (f_equal length) in Hsuf. rewrite length_drop in Hsuf.
    cbn in Hsuf. by replace (length lengths) with s by lia.
  - assert (lengths !! s = Some len) as Hs.
    { rewrite <- (Nat.add_0_r s), <- lookup_drop, Hsuf. done. }
    assert (Forall (fun l => l ≤ 15) lengths) as HF15
      by (eapply Forall_impl; [exact Hmax|]; cbn; lia).
    assert (len ≤ max) as Hlm by (eapply (Forall_lookup_1 _ _ _ _ Hmax Hs)).
    assert (drop (s + 1) lengths = suffix) as Hsuf'.
    { by rewrite <- drop_drop, Hsuf. }
    pose proof (lookup_lt_Some _ _ _ Hs) as Hslt.
    assert (forall l, count_of l (take (s + 1) lengths)
      = count_of l (take s lengths) + (if decide (len = l) then 1 else 0)) as Hcnt.
    { intros l. rewrite Nat.add_1_r, (take_S_r _ _ len), count_of_app by done.
      rewrite count_of_cons. cbn. lia. }
    case_decide as H0.
    + apply IH; [done|lia|done| |].
      * intros l Hl. rewrite Hnc, Hcnt, decide_False by lia. do 2 f_equal. lia.
      * destruct Ht as [Hl Ht]. split; [done|]. intros idx Hidx.
        destruct (Ht idx Hidx) as [(sym & l & ? & ? & ? & ?)|[? Hn]].
        -- left. exists sym, l. split_and!; [lia|done..].
        -- right. split; [done|]. intros sym Hsym. destruct (decide (sym = s)) as [->|].
           ++ intros (c & (l' & ? & ? & _)%code_word_inv & _). simplify_eq. lia.
           ++ apply Hn. lia.
    + rewrite (index_Some _ len _ (Hnc len ltac:(lia))). cbn [mbind result_bind].
      destruct (fill_table_spec (2 ^ max) (2 ^ max) (2 ^ len)
        (Z.to_nat (reverse_bits (Z.of_nat (first_code lengths len
           + count_of len (take s lengths))) len)) (entry_of s len) t)
        as (t' & -> & Hl' & H1 & H2).
      { pose proof (Nat.pow_nonzero 2 len). lia. }
      { apply Ht. }
      { lia. }
      cbn [mbind result_bind]. apply IH; [done|lia|by rewrite length_insert| |].
      * intros l Hl. rewrite list_lookup_insert, Hncl, Hcnt.
        destruct (decide (len = l ∧ len < 17)) as [[<- _]|Hne].
        -- rewrite decide_True by done. unfold u32. pose proof (code_number_lt _ _ _ Hs ltac:(lia)).
           pose proof (Hk len ltac:(lia)). pose proof (of_nat_pow2 len).
           assert (2 ^ Z.of_nat len ≤ 2 ^ 15)%Z by (apply Z.pow_le_mono_r; lia).
           rewrite wrap_small by lia. f_equal. lia.
        -- rewrite decide_False by (intros ->; lia). rewrite Hnc by done. do 2 f_equal. lia.
      * pose proof (fun idx => claims_step lengths max s len idx Hs ltac:(lia) Hlm) as Hcl.
        cbn zeta in Hcl. eapply table_ok_step; try done; [lia|..].
        -- intros idx Hidx Hc%Hcl. by apply H1.
        -- intros idx Hc. apply H2. by rewrite <- Hcl.
Qed.

(** ** [huffman_new] *)

Definition small (lengths : list nat) : Prop := (Z.of_nat (length lengths) < 65536)%Z.

(** The table implements the code. *)
Record implements (lengths : list nat) (h : Huffman) : Prop := {
  im_bits : hbits h ≤ 15;
  im_max : Forall (fun l => l ≤ hbits h) lengths;
  im_kraft : kraft_ok lengths;
  im_small : small lengths;
  im_table : 0 < hbits h -> table_ok lengths (hbits h) (length lengths) (table h);
}.

Lemma kraft_ok_max lengths max :
  Forall (fun l => l ≤ max) lengths -> total lengths max ≤ 2 ^ max -> kraft_ok lengths.
Proof.
  intros Hf Hm l Hl. destruct (decide (l ≤ max)) as [Hle|Hgt].
  - pose proof (total_growth lengths l (max - l)) as Hg.
    replace (l + (max - l)) with max in Hg by lia.
    replace max with (max - l + l) in Hm at 2 by lia. rewrite Nat.pow_add_r in Hm.
    pose proof (Nat.pow_nonzero 2 (max - l)). nia.
  - clear Hl. replace l with (max + (l - max)) by lia. induction (l - max) as [|n IH];
      [by rewrite Nat.add_0_r|].
    rewrite Nat.add_succ_r. unfold total. rewrite first_code_S.
    assert (used lengths (S (max + n)) = 0) as ->.
    { apply count_of_zero. eapply Forall_impl; [exact Hf|]. cbn. lia. }
    rewrite Nat.pow_succ_r'. lia.
Qed.

Lemma sum_used lengths m :
  foldr Z.add 0%Z ((fun j => Z.of_nat (used lengths j)) <$> seq 1 m)
  = Z.of_nat (length (filter (fun l => 0 < l ≤ m) lengths)).
Proof.
  induction m as [|m IH].
  - cbn. induction lengths as [|l ls IHl]; [done|].
    rewrite filter_cons, decide_False by lia. done.
  - rewrite seq_S, fmap_app, foldr_app. cbn [foldr fmap list_fmap].
    assert (forall (l : list Z) a, foldr Z.add a l = (foldr Z.add 0 l + a)%Z) as Hsum.
    { intros l a. induction l as [|x l IHl]; cbn; lia. }
    rewrite Hsum, IH. clear IH Hsum. cbn [used Nat.add]. rewrite Z.add_0_r, <- Nat2Z.inj_add. f_equal.
    unfold count_of. induction lengths as [|l ls IHl]; [done|].
    rewrite !filter_cons. repeat case_decide; cbn [length]; lia.
Qed.

Lemma slice_counts lengths counts max :
  counts_ok lengths counts -> max ≤ 15 ->
  slice (E := InflateError) counts 1 (max + 1)
  = Ok ((fun j => Z.of_nat (used lengths j)) <$> seq 1 max).
Proof.
  intros [Hl Hc] Hm. rewrite slice_ok by lia. f_equal.
  replace (max + 1 - 1) with max by lia. apply list_eq. intros i.
  rewrite list_lookup_fmap. destruct (decide (i < max)).
  - rewrite lookup_take_lt, lookup_drop, Hc, lookup_seq_lt by lia. done.
  - rewrite lookup_take_ge, lookup_ge_None_2 by (rewrite ?length_seq; lia). done.
Qed.

Lemma used_all_zero lengths :
  Forall (fun l => l ≤ 15) lengths ->
  (forall l, 0 < l -> l ≤ 15 -> used lengths l = 0) -> Forall (fun l => l = 0) lengths.
Proof.
  intros Hf Hu. apply Forall_forall. intros l Hl. rewrite Forall_forall in Hf.
  specialize (Hf l Hl). destruct l as [|l]; [done|]. specialize (Hu (S l) ltac:(lia) Hf).
  cbn [used] in Hu. rewrite count_of_zero, Forall_forall in Hu. by specialize (Hu _ Hl).
Qed.

(** The counts, the longest length, and the lengths above it. *)
Lemma huffman_counts lengths :
  small lengths -> Forall (fun l => l ≤ 15) lengths ->
  exists counts max,
    count_lengths lengths (replicate (MAX_BITS + 1) 0%Z) = Ok counts
    /\ counts_ok lengths (<[0 := 0%Z]> counts)
    /\ find_max MAX_BITS (<[0 := 0%Z]> counts) = Ok max /\ max ≤ 15
    /\ (0 < max -> 0 < used lengths max) /\ Forall (fun l => l ≤ max) lengths.
Proof.
  intros Hs Hf.
  pose proof (count_lengths_spec lengths (replicate (MAX_BITS + 1) 0%Z) (fun _ => 0)) as Hc.
  ospecialize (Hc eq_refl _ _).
  { intros l Hl. apply lookup_replicate. split; [done|unfold MAX_BITS; lia]. }
  { intros _. exact Hs. }
  rewrite decide_True in Hc by done. destruct Hc as (counts & E & Hl & Hc).
  assert (counts_ok lengths (<[0 := 0%Z]> counts)) as Hok.
  { split; [by rewrite length_insert|]. intros [|l] Hl15.
    - apply list_lookup_insert_eq. lia.
    - rewrite list_lookup_insert_ne, Hc by lia. done. }
  destruct (find_max_spec lengths _ MAX_BITS Hok ltac:(unfold MAX_BITS; lia))
    as (max & Em & Hm & Hp & Ha).
  exists counts, max. split_and!; [done..|].
  apply Forall_forall. intros l Hin. destruct (decide (l ≤ max)) as [|Hgt]; [done|exfalso].
  rewrite Forall_forall in Hf. specialize (Hf l Hin).
  specialize (Ha l ltac:(lia) ltac:(unfold MAX_BITS; lia)). destruct l as [|l]; [lia|].
  cbn [used] in Ha. rewrite count_of_zero, Forall_forall in Ha. by specialize (Ha _ Hin).
Qed.

Lemma nonzero_filter lengths max :
  Forall (fun l => l ≤ max) lengths ->
  filter (fun l => 0 < l ≤ max) lengths = filter (fun l => l <> 0) lengths.
Proof.
  induction 1 as [|l ls Hl _ IH]; [done|]. rewrite !filter_cons, IH.
  repeat case_decide; lia || done.
Qed.

Lemma huffman_new_spec lengths :
  small lengths ->
  (valid_code lengths /\ exists h, huffman_new lengths = Ok h /\ implements lengths h)
  \/ (~ valid_code lengths /\ exists e, huffman_new lengths = Err e).
Proof.
  intros Hs. destruct (decide (Forall (fun l => l ≤ 15) lengths)) as [Hf|Hf].
  2:{ right. split; [intros []; done|].
      pose proof (count_lengths_spec lengths (replicate (MAX_BITS + 1) 0%Z) (fun _ => 0)) as Hc.
      ospecialize (Hc eq_refl _ _).
      { intros l Hl. apply lookup_replicate. split; [done|unfold MAX_BITS; lia]. }
      { intros _. exact Hs. }
      rewrite decide_False in Hc by done. unfold huffman_new. rewrite Hc. by eexists. }
  destruct (huffman_counts lengths Hs Hf) as (counts & max & Ec & Hok & Em & Hm & Hp & Hmax).
  unfold huffman_new. rewrite Ec. cbn [mbind result_bind]. rewrite Em. cbn [mbind result_bind].
  destruct (decide (max = 0)) as [->|Hne].
  { left. split; [split; [done|]|].
    - left. eapply Forall_impl; [exact Hmax|]. cbn. lia.
    - eexists. split; [done|]. split; cbn [hbits]; [lia|done| |done|lia].
      apply (kraft_ok_max lengths 0); [done|cbn; lia]. }
  rewrite (slice_counts lengths) by done. cbn [mbind result_bind].
  pose proof (kraft_spec lengths max 0 ltac:(cbn; lia)) as Hk.
  change (total lengths 0) with 0 in Hk. cbn [Z.of_nat] in Hk. rewrite Z.pow_0_r, Z.sub_0_r in Hk.
  rewrite Hk. clear Hk. cbn [Nat.add].
  pose proof (kraft_sum_total lengths max Hm Hmax) as HK.
  pose proof (of_nat_pow2 max) as Hpow.
  assert (2 ^ 15 = 2 ^ max * 2 ^ (15 - max)) as H15
    by (rewrite <- Nat.pow_add_r; f_equal; lia).
  pose proof (Nat.pow_nonzero 2 (15 - max) ltac:(lia)) as Hnz.
  assert (~ Forall (fun l => l = 0) lengths) as Hsome.
  { intros H0. specialize (Hp ltac:(lia)). unfold used in Hp. destruct max as [|max']; [lia|].
    assert (count_of (S max') lengths = 0); [|lia]. apply count_of_zero.
    eapply Forall_impl; [exact H0|]. cbn. lia. }
  destruct (decide (total lengths max ≤ 2 ^ max)) as [Hle|Hgt]; cbn [mbind result_bind].
  2:{ right. split; [|by eexists]. intros [_ [?|[H|[H _]]]]; [done|..]; revert H;
        rewrite HK, H15; nia. }
  rewrite sum_used, (nonzero_filter lengths max Hmax).
  set (nz := length (filter (fun l => l <> 0) lengths)).
  assert (u16 (Z.of_nat nz) = Z.of_nat nz) as ->.
  { apply wrap_small. pose proof (length_filter (fun l => l <> 0) lengths).
    unfold small in Hs. fold nz in H. lia. }
  case_decide as Hinc.
  { right. split; [|by eexists]. intros [_ [?|[H|[_ H]]]]; [done| |fold nz in H; lia].
    revert H. rewrite HK, H15. nia. }
  left. split.
  { split; [done|]. right. destruct (decide (nz = 1)) as [H1|H1].
    - right. split; [|done]. rewrite HK, H15. nia.
    - left. rewrite HK, H15. f_equal. lia. }
  assert (kraft_ok lengths) as Hkok by by eapply kraft_ok_max.
  destruct (next_codes_spec lengths (<[0 := 0%Z]> counts) max 1 (replicate (MAX_BITS + 2) 0%Z))
    as (nc & En & Hncl & Hnc); [done|done|lia|lia|intros j Hj; apply Hkok; lia|].
  change (Z.of_nat (first_code lengths (1 - 1))) with 0%Z in En. rewrite En. cbn [mbind result_bind].
  destruct (assign_codes_spec lengths max 0 lengths nc (replicate (2 ^ max) 0%Z))
    as (t & -> & Ht); [done|done|done|done|lia|done| | |].
  { intros l Hl. rewrite Hnc, decide_True by lia. do 2 f_equal. rewrite take_0. cbn. lia. }
  { split; [apply length_replicate|]. intros idx Hidx. right.
    split; [by apply lookup_replicate|lia]. }
  cbn [mbind result_bind]. eexists. split; [done|]. by split.
Qed.

(** ** Decoding *)

Lemma entry_of_fields sym len :
  (Z.of_nat sym < 65536)%Z -> len ≤ 15 ->
  Z.to_nat (Z.land (entry_of sym len) 65535) = len
  /\ Z.to_nat (u16 (Z.shiftr (entry_of sym len) 16)) = sym.
Proof.
  intros Hs Hl. unfold entry_of.
  assert (u32 (Z.shiftl (Z.of_nat sym) 16) = Z.shiftl (Z.of_nat sym) 16) as ->.
  { apply wrap_small. rewrite Z.shiftl_mul_pow2 by lia. lia. }
  assert (Z.land (Z.lor (Z.shiftl (Z.of_nat sym) 16) (Z.of_nat len)) 65535 = Z.of_nat len) as ->.
  { apply Z.bits_inj'. intros i Hi. change 65535%Z with (Z.ones 16).
    rewrite Z.land_spec, Z.lor_spec, Z.shiftl_spec by lia. destruct (decide (i < 16)%Z).
    - rewrite (Z.testbit_neg_r _ (i - 16)), Z.ones_spec_low by lia. by rewrite andb_true_r.
    - rewrite (testbit_high 16 (Z.of_nat len)), Z.ones_spec_high by lia. apply andb_false_r. }
  assert (Z.shiftr (Z.lor (Z.shiftl (Z.of_nat sym) 16) (Z.of_nat len)) 16 = Z.of_nat sym) as ->.
  { apply Z.bits_inj'. intros i Hi. rewrite Z.shiftr_spec, Z.lor_spec, Z.shiftl_spec by lia.
    rewrite (testbit_high 16 (Z.of_nat len)) by lia. rewrite orb_false_r. f_equal. lia. }
  rewrite Nat2Z.id. split; [done|]. unfold u16. rewrite wrap_small by lia. apply Nat2Z.id.
Qed.

(** The index a peek of [n] bits forms, as bits: what remains, then zeros. *)
Lemma peek_index_bits n bs :
  lsb_bits n (of_lsb (take n bs)) = take n bs ++ replicate (n - length bs) false.
Proof.
  set (l := take n bs). assert (length l = n `min` length bs) as Hl by apply length_take.
  replace n with (length l + (n - length bs)) at 1 by lia.
  rewrite lsb_bits_app, lsb_of_lsb. f_equal.
  rewrite Z.shiftr_div_pow2 by lia. rewrite Z.div_small by apply of_lsb_range.
  unfold lsb_bits. by rewrite to_bits_zero, reverse_replicate.
Qed.

Lemma prefix_take {A} (c l : list A) n :
  c `prefix_of` l -> length c ≤ n -> c `prefix_of` take n l.
Proof.
  intros [k ->] Hn. rewrite take_app_ge by done. by eexists.
Qed.

Lemma prefix_padded (c bs z : list bool) n :
  length c ≤ n -> length c ≤ length bs ->
  c `prefix_of` take n bs ++ z -> bs = c ++ drop (length c) bs.
Proof.
  intros Hn Hl [k E]. rewrite <- (take_drop (length c) bs) at 1. f_equal.
  apply (f_equal (take (length c))) in E. rewrite take_app_length in E.
  rewrite take_app_le in E by (rewrite length_take; lia).
  by rewrite take_take, Nat.min_l in E.
Qed.

Section decode.
Context (lengths : list nat) (h : Huffman) (br : BitReader).
Hypothesis (Him : implements lengths h) (Hok : br_ok br).

Lemma lengths_15 : Forall (fun l => l ≤ 15) lengths.
Proof.
  destruct Him as [? Hf _ _ _]. eapply Forall_impl; [exact Hf|]. cbn. lia.
Qed.

(** The table entry under the peeked index. *)
Lemma peek_entry :
  0 < hbits h ->
  exists br1 idx, peek br (hbits h) = (Z.of_nat idx, br1) /\ br_ok br1
    /\ rem_bits br1 = rem_bits br /\ data br1 = data br /\ idx < 2 ^ hbits h
    /\ lsb_bits (hbits h) (Z.of_nat idx)
       = take (hbits h) (rem_bits br) ++ replicate (hbits h - length (rem_bits br)) false.
Proof.
  intros Hpos. destruct Him as [H15 _ _ _ _].
  pose proof (peek_spec br (hbits h) Hok ltac:(lia)) as Hp.
  destruct (peek br (hbits h)) as [v br1]. destruct Hp as (Hok1 & Hr & Hd & ->).
  pose proof (of_lsb_range (take (hbits h) (rem_bits br))) as Hrange.
  assert (2 ^ Z.of_nat (length (take (hbits h) (rem_bits br))) ≤ 2 ^ Z.of_nat (hbits h))%Z
    by (apply Z.pow_le_mono_r; [lia|]; rewrite length_take; lia).
  pose proof (of_nat_pow2 (hbits h)).
  exists br1, (Z.to_nat (of_lsb (take (hbits h) (rem_bits br)))).
  rewrite Z2Nat.id by lia. split_and!; [done..|lia|]. apply peek_index_bits.
Qed.

Lemma decode_Ok sym bs' :
  decodes lengths (rem_bits br) sym bs' ->
  exists br', decode h br = Ok (sym, br') /\ br_ok br' /\ data br' = data br
    /\ rem_bits br' = bs'.
Proof.
  intros (c & Hc & Hrem). pose proof lengths_15 as H15.
  pose proof (code_word_inv _ _ _ Hc) as (len & Hs & Hlen & Hcl & _).
  pose proof Him as [Hb Hmax Hk Hsm Ht].
  pose proof (Forall_lookup_1 _ _ _ _ Hmax Hs) as Hle. cbn in Hle.
  destruct (peek_entry ltac:(lia)) as (br1 & idx & Epk & Hok1 & Hr1 & Hd1 & Hidx & Hbits).
  assert (c `prefix_of` lsb_bits (hbits h) (Z.of_nat idx)) as Hpre.
  { rewrite Hbits. apply prefix_app_r, prefix_take; [|lia]. rewrite Hrem. by eexists. }
  destruct (Ht ltac:(lia)) as [Hlt Htab].
  assert (table h !! idx = Some (entry_of sym len)) as Hent.
  { destruct (Htab idx Hidx) as [(s & l & _ & Hsl & (c' & Hc' & Hp') & E)|[_ Hn]].
    - assert (s = sym) as -> by by eapply code_word_unique. congruence.
    - exfalso. eapply (Hn sym); [by eapply lookup_lt_Some|]. by exists c. }
  pose proof (lookup_lt_Some _ _ _ Hs) as Hsym. unfold small in Hsm.
  destruct (entry_of_fields sym len ltac:(lia) ltac:(lia)) as [El Es].
  unfold decode. rewrite decide_False by lia. rewrite Epk, Nat2Z.id.
  rewrite (index_Some _ _ _ Hent). cbn [mbind result_bind]. rewrite El, Es.
  rewrite decide_False by lia.
  pose proof (consume_spec br1 len Hok1 ltac:(lia)) as Hcs.
  rewrite Hr1, Hrem, length_app, decide_True in Hcs by lia.
  destruct Hcs as (br2 & -> & Hok2 & Hd2 & Hr2). cbn [mbind result_bind].
  exists br2. split_and!; [done|done|congruence|]. rewrite Hr2.
  apply drop_app_length'. lia.
Qed.

Lemma decode_cases :
  (exists sym br', decode h br = Ok (sym, br') /\ br_ok br' /\ data br' = data br
     /\ decodes lengths (rem_bits br) sym (rem_bits br'))
  \/ exists e, decode h br = Err e.
Proof.
  pose proof lengths_15 as H15. pose proof Him as [Hb Hmax Hk Hsm Ht]. unfold decode.
  case_decide as H0; [right; by eexists|].
  destruct (peek_entry ltac:(lia)) as (br1 & idx & Epk & Hok1 & Hr1 & Hd1 & Hidx & Hbits).
  rewrite Epk, Nat2Z.id. destruct (Ht ltac:(lia)) as [Hlt Htab].
  destruct (Htab idx Hidx) as [(s & l & Hsl & Hs & (c & Hc & Hp) & E)|[E _]];
    rewrite (index_Some _ _ _ E); cbn [mbind result_bind]; [|right; by eexists].
  pose proof (code_word_inv _ _ _ Hc) as (len & Hs' & Hlen & Hcl & _).
  rewrite Hs in Hs'. injection Hs' as <-.
  pose proof (Forall_lookup_1 _ _ _ _ Hmax Hs) as Hle. cbn in Hle.
  pose proof (lookup_lt_Some _ _ _ Hs) as Hsym. unfold small in Hsm.
  destruct (entry_of_fields s l ltac:(lia) ltac:(lia)) as [El Es]. rewrite El, Es.
  rewrite decide_False by lia.
  pose proof (consume_spec br1 l Hok1 ltac:(lia)) as Hcs. case_decide as Hlen'.
  - destruct Hcs as (br2 & -> & Hok2 & Hd2 & Hr2). cbn [mbind result_bind]. left.
    exists s, br2. split_and!; [done|done|congruence|]. exists c. split; [done|].
    rewrite Hr2, Hr1, <- Hcl. rewrite Hbits in Hp. rewrite Hr1 in Hlen'.
    eapply prefix_padded; [|lia|exact Hp]. lia.
  - rewrite Hcs. right. by eexists.
Qed.
End decode.

Lemma decodes_shorter lengths bs sym bs' :
  decodes lengths bs sym bs' -> length bs' < length bs.
Proof.
  intros (c & (len & _ & Hp & Hl & _)%code_word_inv & ->). rewrite length_app. lia.
Qed.

Lemma decodes_fun lengths bs s1 bs1 s2 bs2 :
  kraft_ok lengths -> Forall (fun l => l ≤ 15) lengths ->
  decodes lengths bs s1 bs1 -> decodes lengths bs s2 bs2 -> s1 = s2 /\ bs1 = bs2.
Proof.
  intros Hk H15 (c1 & H1 & E1) (c2 & H2 & E2).
  assert (s1 = s2) as <-.
  { eapply (code_word_unique lengths _ _ _ _ bs); try done; [exists bs1|exists bs2]; done. }
  split; [done|]. rewrite H1 in H2. injection H2 as <-. rewrite E1 in E2.
  by apply app_inv_head in E2.
Qed.
