(* ===== verification/InflateRefine.v ===== *)
(** * [Inflate] implements the DEFLATE grammar

    Each loop of the decoder is related to its relation of [InflateSpec]: what
    it accepts is derivable, what is derivable is accepted, and it always
    returns. *)
From S2P Require Import Prelude Inflate InflateSpec InflateBits InflateHuffman.

Lemma bits_cases br n :
  br_ok br -> n ≤ 32 ->
  (exists v br', bits br n = Ok (v, br') /\ br_ok br' /\ data br' = data br
     /\ reads n (rem_bits br) v (rem_bits br'))
  \/ exists e, bits br n = Err e.
Proof.
  intros Hok Hn. pose proof (bits_returns br n Hok Hn) as Hr.
  destruct (bits br n) as [[v br']|e|s] eqn:E; [left|right; by exists e|done].
  exists v, br'. split; [done|]. by apply bits_inv.
Qed.

Lemma reads_shorter n bs v bs' : reads n bs v bs' -> length bs' + n = length bs.
Proof. intros (b & -> & <- & _). rewrite length_app. lia. Qed.

Lemma reads_range n bs v bs' : reads n bs v bs' -> (0 ≤ v < 2 ^ Z.of_nat n)%Z.
Proof. intros (b & _ & <- & ->). apply of_lsb_range. Qed.

(** ** The extra-bits tables *)

Lemma dist_tables d b e :
  DIST_BASE !! d = Some b -> DIST_EXTRA !! d = Some e ->
  e ≤ 13 /\ (1 ≤ b)%Z /\ (b + 2 ^ Z.of_nat e ≤ 32769)%Z.
Proof.
  intros Hb He. pose proof (lookup_lt_Some _ _ _ Hb) as Hlt. cbn in Hlt.
  do 30 (destruct d as [|d]; [injection Hb as <-; injection He as <-; cbn; lia|]). lia.
Qed.

Lemma length_tables i b e :
  LENGTH_BASE !! i = Some b -> LENGTH_EXTRA !! i = Some e -> e ≤ 5.
Proof.
  intros Hb He. pose proof (lookup_lt_Some _ _ _ He) as Hlt. cbn in Hlt.
  do 29 (destruct i as [|i]; [injection He as <-; lia|]). lia.
Qed.

Lemma lookup_tables {A} (l : list A) i : i < length l -> exists x, l !! i = Some x.
Proof. intros. by apply lookup_lt_is_Some_2. Qed.

(** ** The symbol loop *)

Lemma symbols_shorter lit dist bs o bs' o' :
  symbols lit dist bs o bs' o' -> length bs' < length bs.
Proof.
  induction 1; repeat match goal with
  | H : decodes _ _ _ _ |- _ => apply decodes_shorter in H
  | H : reads _ _ _ _ |- _ => apply reads_shorter in H end; lia.
Qed.

Lemma lz_copy_bytes_ok len dist o :
  0 < dist -> dist ≤ length o -> bytes_ok o -> bytes_ok (lz_copy len dist o).
Proof.
  intros Hd. revert o. induction len as [|len IH]; intros o Hl Ho; cbn; [done|].
  apply IH; [rewrite length_app; lia|]. apply Forall_app. split; [done|].
  apply Forall_singleton. destruct (lookup_lt_is_Some_2 o (length o - dist)) as [x Hx]; [lia|].
  rewrite (list_lookup_total_correct _ _ _ Hx). by eapply Forall_lookup_1.
Qed.

Lemma symbols_bytes_ok lit dist bs o bs' o' :
  symbols lit dist bs o bs' o' -> bytes_ok o -> bytes_ok o'.
Proof.
  induction 1 as [?????? _ Hs _ IH| |???????????????? _ _ _ _ _ _ Hb He Hr Hle _ IH]; intros Ho.
  - apply IH, Forall_app. split; [done|]. apply Forall_singleton. unfold byte_ok. lia.
  - done.
  - apply IH, lz_copy_bytes_ok; [|done|done].
    pose proof (dist_tables _ _ _ Hb He). apply reads_range in Hr. lia.
Qed.

Section symbols.
Context (lit dist : list nat) (hl hd : Huffman) (pre : bytes).
Hypothesis (Hlit : implements lit hl) (Hdist : implements dist hd).

(** A reader, a sink and what they stand for. *)
Definition stands (br : BitReader) (s : Sink) (d : bytes) (bs : list bool) (o : bytes) : Prop :=
  br_ok br /\ data br = d /\ rem_bits br = bs /\ sink_has pre s o.

Definition good {A} (r : res A) (P : A -> Prop) : Prop :=
  (exists a, r = Ok a /\ P a) \/ exists e, r = Err e.

Lemma inflate_symbols_sound fuel br s d o :
  stands br s d (rem_bits br) o -> length (rem_bits br) < fuel ->
  good (inflate_symbols fuel br s hl hd) (fun '(br', s') =>
    exists o', stands br' s' d (rem_bits br') o'
      /\ symbols lit dist (rem_bits br) o (rem_bits br') o').
Proof.
  revert br s o. induction fuel as [|fuel IH]; intros br s o (Hok & Hd & _ & Hs) Hf; [lia|].
  cbn [inflate_symbols].
  destruct (decode_cases lit hl br Hlit Hok) as [(sym & br1 & -> & Hok1 & Hd1 & Hdec)|[e ->]];
    cbn [mbind result_bind]; [|right; by eexists].
  pose proof (decodes_shorter _ _ _ _ Hdec) as Hlen.
  case_decide as H255; [|case_decide as H256; [|case_decide as H285]].
  - destruct (IH br1 (push s (Z.of_nat sym)) (o ++ [Z.of_nat sym])) as
      [([br' s'] & -> & o' & Hst & Hsy)|[e ->]]; [|lia| |right; by eexists].
    { split_and!; [done|congruence|done|by apply push_has]. }
    left. eexists. split; [done|]. exists o'. split; [done|]. by eapply symbols_literal.
  - subst sym. left. eexists. split; [done|]. exists o. split; [split_and!; congruence || done|].
    by apply symbols_end.
  - destruct (lookup_tables LENGTH_BASE (sym - 257)) as [lb Hlb]; [cbn; lia|].
    destruct (lookup_tables LENGTH_EXTRA (sym - 257)) as [le Hle]; [cbn; lia|].
    rewrite (index_Some _ _ _ Hlb). cbn [mbind result_bind].
    rewrite (index_Some _ _ _ Hle). cbn [mbind result_bind].
    pose proof (length_tables _ _ _ Hlb Hle) as Hle5.
    destruct (bits_cases br1 le Hok1 ltac:(lia)) as [(lv & br2 & -> & Hok2 & Hd2 & Hr2)|[e ->]];
      cbn [mbind result_bind]; [|right; by eexists].
    destruct (decode_cases dist hd br2 Hdist Hok2) as [(dsym & br3 & -> & Hok3 & Hd3 & Hdec3)|[e ->]];
      cbn [mbind result_bind]; [|right; by eexists].
    case_decide as H30; [right; by eexists|].
    destruct (lookup_tables DIST_BASE dsym) as [db Hdb]; [lia|].
    destruct (lookup_tables DIST_EXTRA dsym) as [de Hde]; [cbn in *; lia|].
    rewrite (index_Some _ _ _ Hdb). cbn [mbind result_bind].
    rewrite (index_Some _ _ _ Hde). cbn [mbind result_bind].
    pose proof (dist_tables _ _ _ Hdb Hde) as (Hde13 & Hdb1 & Hdw).
    destruct (bits_cases br3 de Hok3 ltac:(lia)) as [(dv & br4 & -> & Hok4 & Hd4 & Hr4)|[e ->]];
      cbn [mbind result_bind]; [|right; by eexists].
    pose proof (reads_range _ _ _ _ Hr4) as Hdv.
    pose proof (copy_back_spec pre s o (Z.to_nat (db + dv)) (Z.to_nat (lb + lv)) Hs
      ltac:(lia) ltac:(unfold WINDOW; lia)) as Hcp.
    case_decide as Hfit; [|rewrite Hcp; right; by eexists].
    destruct Hcp as (s1 & -> & Hs1). cbn [mbind result_bind].
    pose proof (reads_shorter _ _ _ _ Hr2). pose proof (decodes_shorter _ _ _ _ Hdec3).
    pose proof (reads_shorter _ _ _ _ Hr4).
    destruct (IH br4 s1 (lz_copy (Z.to_nat (lb + lv)) (Z.to_nat (db + dv)) o)) as [([br' s'] & -> & o' & Hst & Hsy)|[e ->]];
      [split_and!; [done|congruence|done|exact Hs1]|lia| |right; by eexists].
    left. eexists. split; [done|]. exists o'. split; [done|].
    eapply symbols_match; [exact Hdec|lia|exact Hlb|exact Hle|exact Hr2|exact Hdec3
      |exact Hdb|exact Hde|exact Hr4|exact Hfit|exact Hsy].
  - right. by eexists.
Qed.

Lemma inflate_symbols_complete fuel br s d bs o bs' o' :
  symbols lit dist bs o bs' o' ->
  stands br s d bs o -> length bs < fuel ->
  exists br' s', inflate_symbols fuel br s hl hd = Ok (br', s') /\ stands br' s' d bs' o'.
Proof.
  intros H. revert fuel br s.
  induction H as [bs o sym bs1 bs' o' Hdec H255 Hsy IH|bs o bs' Hdec|bs o sym lb le lv dsym db de dv
    bs1 bs2 bs3 bs4 bs' o' Hdec H257 Hlb Hle Hr2 Hdec3 Hdb Hde Hr4 Hfit Hsy IH];
    intros [|fuel] br s (Hok & Hd & Hr & Hs) Hf; try lia; cbn [inflate_symbols];
    rewrite <- Hr in Hdec;
    destruct (decode_Ok lit hl br Hlit Hok _ _ Hdec) as (br1 & -> & Hok1 & Hd1 & Hr1);
    cbn [mbind result_bind]; pose proof (decodes_shorter _ _ _ _ Hdec) as Hlen;
    rewrite Hr in Hlen.
  - rewrite decide_True by done. apply IH; [|lia].
    split_and!; [done|congruence|done|by apply push_has].
  - rewrite decide_False by lia. rewrite decide_True by done.
    exists br1, s. split; [done|]. split_and!; [done|congruence|done|done].
  - pose proof (lookup_lt_Some _ _ _ Hlb) as Hlt. cbn in Hlt.
    rewrite decide_False, decide_False, decide_True by lia.
    rewrite (index_Some _ _ _ Hlb). cbn [mbind result_bind].
    rewrite (index_Some _ _ _ Hle). cbn [mbind result_bind].
    pose proof (length_tables _ _ _ Hlb Hle). rewrite <- Hr1 in Hr2.
    destruct (bits_Ok br1 le lv bs2 Hok1 ltac:(lia) Hr2) as (br2 & -> & Hok2 & Hd2 & Hrem2).
    cbn [mbind result_bind]. rewrite <- Hrem2 in Hdec3.
    destruct (decode_Ok dist hd br2 Hdist Hok2 _ _ Hdec3) as (br3 & -> & Hok3 & Hd3 & Hrem3).
    cbn [mbind result_bind]. pose proof (lookup_lt_Some _ _ _ Hdb).
    rewrite decide_False by lia.
    rewrite (index_Some _ _ _ Hdb). cbn [mbind result_bind].
    rewrite (index_Some _ _ _ Hde). cbn [mbind result_bind].
    pose proof (dist_tables _ _ _ Hdb Hde) as (Hde13 & Hdb1 & Hdw).
    rewrite <- Hrem3 in Hr4.
    destruct (bits_Ok br3 de dv bs4 Hok3 ltac:(lia) Hr4) as (br4 & -> & Hok4 & Hd4 & Hrem4).
    cbn [mbind result_bind]. pose proof (reads_range _ _ _ _ Hr4) as Hdv.
    pose proof (copy_back_spec pre s o (Z.to_nat (db + dv)) (Z.to_nat (lb + lv)) Hs
      ltac:(lia) ltac:(unfold WINDOW; lia)) as Hcp.
    rewrite decide_True in Hcp by done. destruct Hcp as (s1 & -> & Hs1). cbn [mbind result_bind].
    apply reads_shorter in Hr2, Hr4. apply decodes_shorter in Hdec3.
    apply IH; [|rewrite Hr1, Hrem2, Hrem3 in *; lia].
    split_and!; [done|congruence|done|done].
Qed.
End symbols.

(** ** Dynamic tables *)

Lemma read_clen_sound slots br clen :
  br_ok br -> Forall (fun s => s < length clen) slots -> Forall (fun l => l < 8) clen ->
  good (read_clen slots br clen) (fun '(clen', br') =>
    br_ok br' /\ data br' = data br /\ length clen' = length clen
    /\ clen_fields slots (rem_bits br) clen (rem_bits br') clen').
Proof.
  revert br clen. induction slots as [|slot slots IH]; intros br clen Hok Hsl Hc; cbn [read_clen].
  { left. eexists. split; [done|]. split_and!; [done..|constructor]. }
  inversion_clear Hsl as [|? ? Hslot Hsl'].
  destruct (bits_cases br 3 Hok ltac:(lia)) as [(v & br1 & -> & Hok1 & Hd1 & Hr1)|[e ->]];
    cbn [mbind result_bind]; [|right; by eexists].
  destruct (index_lt (E := InflateError) clen slot Hslot) as (x & _ & ->). cbn [mbind result_bind].
  pose proof (reads_range _ _ _ _ Hr1) as Hv. change (2 ^ Z.of_nat 3)%Z with 8%Z in Hv.
  destruct (IH br1 (<[slot := Z.to_nat v]> clen)) as [([clen' br'] & -> & Hok' & Hd' & Hl' & Hf)|[e ->]];
    [done|by rewrite length_insert|apply Forall_insert; [done|lia]| |right; by eexists].
  left. eexists. split; [done|]. rewrite length_insert in Hl'.
  split_and!; [done|congruence|done|]. by econstructor.
Qed.

Lemma read_clen_complete slots bs clen bs' clen' br :
  clen_fields slots bs clen bs' clen' ->
  br_ok br -> rem_bits br = bs -> Forall (fun s => s < length clen) slots ->
  exists br', read_clen slots br clen = Ok (clen', br') /\ br_ok br' /\ data br' = data br
    /\ rem_bits br' = bs'.
Proof.
  intros H. revert br. induction H as [bs cl|slot slots bs v bs1 cl bs' cl' Hr _ IH];
    intros br Hok Hrem Hsl; cbn [read_clen]; [by exists br|].
  inversion_clear Hsl as [|? ? Hslot Hsl']. rewrite <- Hrem in Hr.
  destruct (bits_Ok br 3 v bs1 Hok ltac:(lia) Hr) as (br1 & -> & Hok1 & Hd1 & Hr1).
  cbn [mbind result_bind].
  destruct (index_lt (E := InflateError) cl slot Hslot) as (x & _ & ->). cbn [mbind result_bind].
  destruct (IH br1 Hok1 Hr1) as (br' & -> & ? & ? & ?); [by rewrite length_insert|].
  exists br'. split_and!; [done|done|congruence|done].
Qed.

Lemma fill_range_zeros acc total n v :
  length acc + n ≤ total ->
  fill_range (length acc) n v (acc ++ replicate (total - length acc) 0)
  = (acc ++ replicate n v) ++ replicate (total - length (acc ++ replicate n v)) 0.
Proof.
  intros H. unfold fill_range. rewrite length_app, length_replicate.
  rewrite take_app_length, drop_app_ge by lia.
  rewrite drop_replicate, <- app_assoc. do 3 f_equal. lia.
Qed.

Lemma zeros_split acc total n :
  length acc + n ≤ total ->
  acc ++ replicate (total - length acc) 0
  = (acc ++ replicate n 0) ++ replicate (total - length (acc ++ replicate n 0)) 0.
Proof.
  intros H. rewrite <- app_assoc, <- replicate_add, length_app, length_replicate.
  do 2 f_equal. lia.
Qed.

Lemma insert_zeros acc total v :
  length acc < total ->
  <[length acc := v]> (acc ++ replicate (total - length acc) 0)
  = (acc ++ [v]) ++ replicate (total - length (acc ++ [v])) 0.
Proof.
  intros H. rewrite length_app. cbn [length].
  rewrite <- (Nat.add_0_r (length acc)) at 1. rewrite insert_app_r, <- app_assoc.
  replace (total - length acc) with (S (total - (length acc + 1))) by lia. done.
Qed.

Section code_lengths.
Context (code : list nat) (h : Huffman) (total : nat).
Hypothesis (Him : implements code h).

Lemma zeros_prev acc :
  0 < length acc -> length acc ≤ total ->
  exists prev, last acc = Some prev
    /\ index (E := InflateError) (acc ++ replicate (total - length acc) 0) (length acc - 1) = Ok prev.
Proof.
  intros H _. destruct acc as [|x acc _] using rev_ind; [cbn in H; lia|].
  exists x. split; [by rewrite last_snoc|]. rewrite length_app, Nat.add_sub.
  apply index_Some. rewrite lookup_app_l by (rewrite length_app; cbn; lia).
  by apply list_lookup_middle.
Qed.

Lemma read_lengths_sound fuel br acc :
  br_ok br -> length acc ≤ total -> total - length acc < fuel ->
  good (read_lengths fuel total (length acc) h br (acc ++ replicate (total - length acc) 0))
    (fun '(ls, br') => br_ok br' /\ data br' = data br /\ length ls = total
       /\ code_lengths code total (rem_bits br) acc (rem_bits br') ls).
Proof.
  revert br acc. induction fuel as [|fuel IH]; intros br acc Hok Hl Hf; [lia|].
  cbn [read_lengths]. case_decide as Hlt.
  2:{ left. replace (total - length acc) with 0 by lia. rewrite app_nil_r.
      eexists. split; [done|]. split_and!; [done|done|lia|]. constructor. lia. }
  destruct (decode_cases code h br Him Hok) as [(sym & br1 & -> & Hok1 & Hd1 & Hdec)|[e ->]];
    cbn [mbind result_bind]; [|right; by eexists].
  assert (forall n k br2 v, br_ok br2 -> data br2 = data br ->
    length acc + n ≤ total -> 0 < n ->
    (forall bs' ls, code_lengths code total (rem_bits br2) (acc ++ replicate n v) bs' ls ->
       code_lengths code total (rem_bits br) acc bs' ls) ->
    k = acc ++ replicate (total - length acc) 0 ->
    good (read_lengths fuel total (length acc + n) h br2 (fill_range (length acc) n v k))
      (fun '(ls, br') => br_ok br' /\ data br' = data br /\ length ls = total
         /\ code_lengths code total (rem_bits br) acc (rem_bits br') ls)) as Hstep.
  { intros n k br2 v Hok2 Hd2 Hn Hn0 Hcl ->. rewrite fill_range_zeros by lia.
    replace (length acc + n) with (length (acc ++ replicate n v))
      by (rewrite length_app, length_replicate; done).
    destruct (IH br2 (acc ++ replicate n v)) as [([ls br'] & -> & ? & ? & ? & ?)|[e ->]];
      [done|rewrite length_app, length_replicate; lia..| |right; by eexists].
    left. eexists. split; [done|]. split_and!; [done|congruence|done|auto]. }
  case_decide as H15; [|case_decide as H16; [|case_decide as H17; [|case_decide as H18]]].
  - destruct (index_lt (E := InflateError) (acc ++ replicate (total - length acc) 0) (length acc))
      as (x & _ & ->); [rewrite length_app, length_replicate; lia|]. cbn [mbind result_bind].
    rewrite insert_zeros by done.
    replace (length acc + 1) with (length (acc ++ [sym])) by (rewrite length_app; done).
    destruct (IH br1 (acc ++ [sym])) as [([ls br'] & -> & ? & ? & ? & ?)|[e ->]];
      [done|rewrite length_app; cbn; lia..| |right; by eexists].
    left. eexists. split; [done|]. split_and!; [done|congruence|done|].
    by eapply code_lengths_one.
  - subst sym. case_decide as H0; [right; by eexists|].
    destruct (zeros_prev acc) as (prev & Hprev & ->); [lia|lia|]. cbn [mbind result_bind].
    destruct (bits_cases br1 2 Hok1 ltac:(lia)) as [(v & br2 & -> & Hok2 & Hd2 & Hr2)|[e ->]];
      cbn [mbind result_bind]; [|right; by eexists].
    case_decide; [right; by eexists|].
    apply Hstep; [done|congruence|lia|lia| |done]. intros bs' ls Hc.
    eapply code_lengths_repeat; [done|done|done|done|lia|done].
  - subst sym.
    destruct (bits_cases br1 3 Hok1 ltac:(lia)) as [(v & br2 & -> & Hok2 & Hd2 & Hr2)|[e ->]];
      cbn [mbind result_bind]; [|right; by eexists].
    case_decide; [right; by eexists|].
    rewrite (zeros_split acc total (3 + Z.to_nat v)) by lia.
    rewrite <- fill_range_zeros by lia.
    apply Hstep; [done|congruence|lia|lia| |done]. intros bs' ls Hc.
    eapply code_lengths_zeros3; [done|done|done|lia|done].
  - subst sym.
    destruct (bits_cases br1 7 Hok1 ltac:(lia)) as [(v & br2 & -> & Hok2 & Hd2 & Hr2)|[e ->]];
      cbn [mbind result_bind]; [|right; by eexists].
    case_decide; [right; by eexists|].
    rewrite (zeros_split acc total (11 + Z.to_nat v)) by lia.
    rewrite <- fill_range_zeros by lia.
    apply Hstep; [done|congruence|lia|lia| |done]. intros bs' ls Hc.
    eapply code_lengths_zeros7; [done|done|done|lia|done].
  - right. by eexists.
Qed.

Lemma read_lengths_complete fuel bs acc bs' ls br :
  code_lengths code total bs acc bs' ls ->
  br_ok br -> rem_bits br = bs -> total - length acc < fuel ->
  exists br', read_lengths fuel total (length acc) h br (acc ++ replicate (total - length acc) 0)
    = Ok (ls, br') /\ br_ok br' /\ data br' = data br /\ rem_bits br' = bs'.
Proof.
  intros H. revert fuel br.
  induction H as [bs ls Hl|bs ls sym bs1 bs' ls' Hlt Hdec H15 _ IH
    |bs ls prev v bs1 bs2 bs' ls' Hlt Hdec Hprev Hr Hle _ IH
    |bs ls v bs1 bs2 bs' ls' Hlt Hdec Hr Hle _ IH|bs ls v bs1 bs2 bs' ls' Hlt Hdec Hr Hle _ IH];
    intros [|fuel] br Hok Hrem Hf; try lia; cbn [read_lengths].
  { rewrite decide_False by lia. exists br. rewrite Hl, Nat.sub_diag, app_nil_r. done. }
  all: rewrite decide_True by done; rewrite <- Hrem in Hdec;
    destruct (decode_Ok code h br Him Hok _ _ Hdec) as (br1 & -> & Hok1 & Hd1 & Hr1);
    cbn [mbind result_bind].
  - rewrite decide_True by done.
    destruct (index_lt (E := InflateError) (ls ++ replicate (total - length ls) 0) (length ls))
      as (x & _ & ->); [rewrite length_app, length_replicate; lia|]. cbn [mbind result_bind].
    rewrite insert_zeros by done.
    replace (length ls + 1) with (length (ls ++ [sym])) by (rewrite length_app; done).
    destruct (IH fuel br1 Hok1 Hr1) as (br' & -> & ? & ? & ?); [rewrite length_app; cbn; lia|].
    exists br'. split_and!; [done|done|congruence|done].
  - rewrite decide_False, decide_True by lia.
    assert (0 < length ls) by (destruct ls; [done|cbn; lia]).
    rewrite decide_False by lia.
    destruct (zeros_prev ls) as (prev' & Hprev' & ->); [lia|lia|]. cbn [mbind result_bind].
    rewrite Hprev in Hprev'. injection Hprev' as <-. rewrite <- Hr1 in Hr.
    destruct (bits_Ok br1 2 v bs2 Hok1 ltac:(lia) Hr) as (br2 & -> & Hok2 & Hd2 & Hr2).
    cbn [mbind result_bind]. rewrite decide_False by lia. rewrite fill_range_zeros by lia.
    replace (length ls + (3 + Z.to_nat v)) with (length (ls ++ replicate (3 + Z.to_nat v) prev))
      by (rewrite length_app, length_replicate; done).
    destruct (IH fuel br2 Hok2 Hr2) as (br' & -> & ? & ? & ?);
      [rewrite length_app, length_replicate; lia|].
    exists br'. split_and!; [done|done|congruence|done].
  - rewrite decide_False, decide_False, decide_True by lia. rewrite <- Hr1 in Hr.
    destruct (bits_Ok br1 3 v bs2 Hok1 ltac:(lia) Hr) as (br2 & -> & Hok2 & Hd2 & Hr2).
    cbn [mbind result_bind]. rewrite decide_False by lia.
    rewrite (zeros_split ls total (3 + Z.to_nat v)) by lia.
    replace (length ls + (3 + Z.to_nat v)) with (length (ls ++ replicate (3 + Z.to_nat v) 0))
      by (rewrite length_app, length_replicate; done).
    destruct (IH fuel br2 Hok2 Hr2) as (br' & -> & ? & ? & ?);
      [rewrite length_app, length_replicate; lia|].
    exists br'. split_and!; [done|done|congruence|done].
  - rewrite decide_False, decide_False, decide_False, decide_True by lia. rewrite <- Hr1 in Hr.
    destruct (bits_Ok br1 7 v bs2 Hok1 ltac:(lia) Hr) as (br2 & -> & Hok2 & Hd2 & Hr2).
    cbn [mbind result_bind]. rewrite decide_False by lia.
    rewrite (zeros_split ls total (11 + Z.to_nat v)) by lia.
    replace (length ls + (11 + Z.to_nat v)) with (length (ls ++ replicate (11 + Z.to_nat v) 0))
      by (rewrite length_app, length_replicate; done).
    destruct (IH fuel br2 Hok2 Hr2) as (br' & -> & ? & ? & ?);
      [rewrite length_app, length_replicate; lia|].
    exists br'. split_and!; [done|done|congruence|done].
Qed.
End code_lengths.

Lemma clen_order_ok n : Forall (fun s => s < 19) (take n CLEN_ORDER).
Proof.
  apply Forall_take. evaluate.
Qed.

Lemma code_lengths_bounds code total bs acc bs' ls :
  code_lengths code total bs acc bs' ls -> length ls = total /\ length bs' ≤ length bs.
Proof.
  induction 1; repeat match goal with
  | H : decodes _ _ _ _ |- _ => apply decodes_shorter in H
  | H : reads _ _ _ _ |- _ => apply reads_shorter in H end; lia.
Qed.

Lemma clen_fields_bounds slots bs cl bs' cl' :
  clen_fields slots bs cl bs' cl' -> length cl' = length cl /\ length bs' ≤ length bs.
Proof.
  induction 1; [done|]. apply reads_shorter in H. rewrite length_insert in *. lia.
Qed.

Lemma small_le (l : list nat) n : length l ≤ n -> n ≤ 1000 -> small l.
Proof. unfold small. lia. Qed.

(** [huffman_new] as an outcome. *)
Lemma huffman_new_good lengths :
  small lengths ->
  good (huffman_new lengths) (fun h => valid_code lengths /\ implements lengths h).
Proof.
  intros Hs. destruct (huffman_new_spec lengths Hs) as [(Hv & h & -> & Hi)|(_ & e & ->)];
    [left; by exists h|right; by eexists].
Qed.

Lemma huffman_new_Ok lengths :
  small lengths -> valid_code lengths ->
  exists h, huffman_new lengths = Ok h /\ implements lengths h.
Proof.
  intros Hs Hv. destruct (huffman_new_spec lengths Hs) as [(_ & h & -> & Hi)|(Hn & _)];
    [by exists h|done].
Qed.

Lemma read_dynamic_tables_sound br :
  br_ok br ->
  good (read_dynamic_tables br) (fun '(hl, hd, br') => exists lit dist,
    implements lit hl /\ implements dist hd /\ br_ok br' /\ data br' = data br
    /\ dynamic_tables (rem_bits br) lit dist (rem_bits br')
    /\ length (rem_bits br') ≤ length (rem_bits br)).
Proof.
  intros Hok. unfold read_dynamic_tables.
  destruct (bits_cases br 5 Hok ltac:(lia)) as [(v1 & br1 & -> & Hok1 & Hd1 & Hr1)|[e ->]];
    cbn [mbind result_bind]; [|right; by eexists].
  destruct (bits_cases br1 5 Hok1 ltac:(lia)) as [(v2 & br2 & -> & Hok2 & Hd2 & Hr2)|[e ->]];
    cbn [mbind result_bind]; [|right; by eexists].
  destruct (bits_cases br2 4 Hok2 ltac:(lia)) as [(v3 & br3 & -> & Hok3 & Hd3 & Hr3)|[e ->]];
    cbn [mbind result_bind]; [|right; by eexists].
  set (hlit := Z.to_nat v1 + 257). set (hdist := Z.to_nat v2 + 1).
  case_decide as Hmany; [right; by eexists|].
  destruct (read_clen_sound (take (Z.to_nat v3 + 4) CLEN_ORDER) br3 (replicate 19 0))
    as [([clen br4] & -> & Hok4 & Hd4 & Hl4 & Hf)|[e ->]];
    [done|apply clen_order_ok|apply Forall_replicate; lia| |right; by eexists].
  cbn [mbind result_bind].
  destruct (huffman_new_good clen) as [(hc & -> & Hvc & Hic)|[e ->]];
    [apply (small_le _ 19); [rewrite Hl4; done|lia]| |right; by eexists].
  cbn [mbind result_bind].
  pose proof (read_lengths_sound clen hc (hlit + hdist) Hic (S (hlit + hdist)) br4 []
    Hok4 ltac:(cbn; lia) ltac:(cbn; lia)) as Hrl.
  cbn [length app] in Hrl. rewrite Nat.sub_0_r in Hrl.
  destruct Hrl as [([ls br5] & -> & Hok5 & Hd5 & Hl5 & Hcl)|[e ->]]; [|right; by eexists].
  cbn [mbind result_bind].
  rewrite (slice_ok ls 0 hlit) by lia. cbn [mbind result_bind]. rewrite Nat.sub_0_r, drop_0.
  destruct (huffman_new_good (take hlit ls)) as [(hl & -> & Hvl & Hil)|[e ->]];
    [apply (small_le _ 286); [rewrite length_take; lia|lia]| |right; by eexists].
  cbn [mbind result_bind]. rewrite (slice_ok ls hlit) by lia. cbn [mbind result_bind].
  rewrite take_ge by (rewrite length_drop; lia).
  destruct (huffman_new_good (drop hlit ls)) as [(hd & -> & Hvd & Hid)|[e ->]];
    [apply (small_le _ 30); [rewrite length_drop; lia|lia]| |right; by eexists].
  cbn [mbind result_bind]. left. eexists. split; [done|].
  exists (take hlit ls), (drop hlit ls).
  pose proof (code_lengths_bounds _ _ _ _ _ _ Hcl) as [_ Hb5].
  pose proof (clen_fields_bounds _ _ _ _ _ Hf) as [_ Hb4].
  pose proof (reads_shorter _ _ _ _ Hr1). pose proof (reads_shorter _ _ _ _ Hr2).
  pose proof (reads_shorter _ _ _ _ Hr3).
  split_and!; [done|done|done|congruence| |lia].
  exists v1, v2, v3, (rem_bits br1), (rem_bits br2), (rem_bits br3), (rem_bits br4), clen.
  split_and!; [done|done|done|lia|lia|done|done| |rewrite length_take; lia|done|done].
  by rewrite take_drop.
Qed.

Lemma read_dynamic_tables_complete br lit dist bs' :
  br_ok br -> dynamic_tables (rem_bits br) lit dist bs' ->
  exists hl hd br', read_dynamic_tables br = Ok (hl, hd, br')
    /\ implements lit hl /\ implements dist hd /\ br_ok br' /\ data br' = data br
    /\ rem_bits br' = bs'.
Proof.
  intros Hok (v1 & v2 & v3 & bs1 & bs2 & bs3 & bs4 & clen & Hr1 & Hr2 & Hr3 & Hlit & Hdist & Hf
    & Hvc & Hcl & Hll & Hvl & Hvd). unfold read_dynamic_tables.
  destruct (bits_Ok br 5 v1 bs1 Hok ltac:(lia) Hr1) as (br1 & -> & Hok1 & Hd1 & E1).
  cbn [mbind result_bind]. rewrite <- E1 in Hr2.
  destruct (bits_Ok br1 5 v2 bs2 Hok1 ltac:(lia) Hr2) as (br2 & -> & Hok2 & Hd2 & E2).
  cbn [mbind result_bind]. rewrite <- E2 in Hr3.
  destruct (bits_Ok br2 4 v3 bs3 Hok2 ltac:(lia) Hr3) as (br3 & -> & Hok3 & Hd3 & E3).
  cbn [mbind result_bind]. rewrite decide_False by lia.
  destruct (read_clen_complete _ _ _ _ _ br3 Hf Hok3 E3 (clen_order_ok _))
    as (br4 & -> & Hok4 & Hd4 & E4). cbn [mbind result_bind].
  pose proof (clen_fields_bounds _ _ _ _ _ Hf) as [Hl4 _]. rewrite length_replicate in Hl4.
  destruct (huffman_new_Ok clen) as (hc & -> & Hic); [apply (small_le _ 19); lia|done|].
  cbn [mbind result_bind].
  pose proof (code_lengths_bounds _ _ _ _ _ _ Hcl) as [Htot _]. rewrite length_app in Htot.
  destruct (read_lengths_complete clen hc (Z.to_nat v1 + 257 + (Z.to_nat v2 + 1)) Hic
    (S (Z.to_nat v1 + 257 + (Z.to_nat v2 + 1))) bs4 [] bs' (lit ++ dist) br4 Hcl Hok4 E4)
    as (br5 & E & Hok5 & Hd5 & E5); [cbn [length]; lia|].
  cbn [length app] in E. rewrite Nat.sub_0_r in E. rewrite E. cbn [mbind result_bind].
  rewrite (slice_ok (lit ++ dist) 0) by (rewrite ?length_app; lia). cbn [mbind result_bind].
  rewrite Nat.sub_0_r, drop_0, <- Hll, take_app_length.
  destruct (huffman_new_Ok lit) as (hl & -> & Hil); [apply (small_le _ 286); lia|done|].
  cbn [mbind result_bind].
  rewrite (slice_ok (lit ++ dist)) by (rewrite ?length_app; lia). cbn [mbind result_bind].
  rewrite drop_app_length, length_app, take_ge by lia.
  destruct (huffman_new_Ok dist) as (hd & -> & Hid); [apply (small_le _ 30); lia|done|].
  cbn [mbind result_bind]. exists hl, hd, br5. split_and!; [done..|congruence|done].
Qed.

(** ** Blocks *)

Lemma valid_fixed : valid_code fixed_literal_lengths /\ valid_code (replicate 32 5).
Proof.
  split; (split; [evaluate|]); right; left; apply Nat2Z.inj; vm_compute; reflexivity.
Qed.

Lemma fixed_tables :
  exists hl hd, huffman_new fixed_literal_lengths = Ok hl /\ huffman_new (replicate 32 5) = Ok hd
    /\ implements fixed_literal_lengths hl /\ implements (replicate 32 5) hd.
Proof.
  destruct valid_fixed as [H1 H2].
  destruct (huffman_new_Ok fixed_literal_lengths) as (hl & E1 & I1);
    [apply (small_le _ 288); [apply Nat.leb_le; vm_compute; reflexivity|lia]|exact H1|].
  destruct (huffman_new_Ok (replicate 32 5)) as (hd & E2 & I2);
    [apply (small_le _ 32); [apply Nat.leb_le; vm_compute; reflexivity|lia]|exact H2|].
  exists hl, hd. exact (conj E1 (conj E2 (conj I1 I2))).
Qed.

(** The stored-block fields: four bytes are two little-endian words. *)
Lemma le16_bits a b :
  byte_ok a -> byte_ok b -> of_lsb (lsb_bits 8 a ++ lsb_bits 8 b) = le16 a b
  /\ (0 ≤ le16 a b < 2 ^ 16)%Z.
Proof.
  unfold byte_ok. intros Ha Hb. rewrite of_lsb_app, !of_lsb_bits, length_lsb_bits.
  rewrite !wrap_small by lia. unfold le16. rewrite Z.shiftl_mul_pow2 by lia.
  assert (Z.lor a (b * 2 ^ 8) = a + b * 2 ^ 8)%Z as ->; [|split; [done|lia]].
  rewrite Z.add_comm. symmetry. rewrite Z.lor_comm. rewrite <- Z.add_lor_land.
  assert (Z.land (b * 2 ^ 8) a = 0)%Z as ->; [|lia].
  apply Z.bits_inj'. intros i Hi. rewrite Z.land_spec, Z.bits_0.
  destruct (decide (i < 8)%Z).
  - by rewrite Z.mul_pow2_bits_low.
  - rewrite (testbit_high 8 a) by lia. apply andb_false_r.
Qed.

Lemma bits16_bytes b :
  length b = 16 ->
  exists x y, byte_ok x /\ byte_ok y /\ b = lsb_bits 8 x ++ lsb_bits 8 y /\ of_lsb b = le16 x y.
Proof.
  intros Hl. set (x := of_lsb (take 8 b)). set (y := of_lsb (drop 8 b)).
  assert (byte_ok x) as Hx.
  { pose proof (of_lsb_range (take 8 b)) as H. by rewrite length_take, Hl in H. }
  assert (byte_ok y) as Hy.
  { pose proof (of_lsb_range (drop 8 b)) as H. by rewrite length_drop, Hl in H. }
  assert (b = lsb_bits 8 x ++ lsb_bits 8 y) as E.
  { rewrite <- (take_drop 8 b) at 1. f_equal.
    - rewrite <- (lsb_of_lsb (take 8 b)), length_take, Hl. done.
    - rewrite <- (lsb_of_lsb (drop 8 b)), length_drop, Hl. done. }
  exists x, y. split_and!; [done..|]. rewrite E at 1. by apply le16_bits.
Qed.

Definition stored_block (br : BitReader) (sink : Sink) : res (BitReader * Sink) :=
  let br := align br in
  '(header, br) ← read_bytes br 4;
  h0 ← index header 0; h1 ← index header 1; h2 ← index header 2; h3 ← index header 3;
  let len := le16 h0 h1 in
  let nlen := le16 h2 h3 in
  if decide (nlen <> u16 (Z.lnot len)) then Err StoredLengthCheck else
  '(data, br) ← read_bytes br (Z.to_nat len);
  Ok (br, extend sink data).

Lemma read_bytes_cases br n :
  br_ok br -> cnt br `mod` 8 = 0 ->
  good (read_bytes br n) (fun '(d, br') => br_ok br' /\ data br' = data br
    /\ cnt br' `mod` 8 = 0 /\ length d = n /\ bytes_ok d
    /\ rem_bits br = stream_bits d ++ rem_bits br').
Proof.
  intros Hok Hm. pose proof (read_bytes_returns br n Hok) as Hr.
  destruct (read_bytes br n) as [[d br']|e|s] eqn:E; [left|right; by eexists|done].
  eexists. split; [done|]. exact (read_bytes_inv _ _ _ _ Hok Hm E).
Qed.

Lemma stored_sound pre br s d o :
  stands pre br s d (rem_bits br) o ->
  good (stored_block br s) (fun '(br', s') => exists len nlen dat bs2 bs3,
    stands pre br' s' d (rem_bits br') (o ++ dat)
    /\ reads 16 (aligned (rem_bits br)) len bs2 /\ reads 16 bs2 nlen bs3
    /\ nlen = u16 (Z.lnot len) /\ bytes_ok dat /\ Z.of_nat (length dat) = len
    /\ bs3 = stream_bits dat ++ rem_bits br' /\ length (rem_bits br') ≤ length (rem_bits br)).
Proof.
  intros (Hok & Hd & _ & Hs). unfold stored_block. cbn zeta.
  destruct (align_spec br Hok) as (Hok0 & Hd0 & Hr0 & Hm0).
  destruct (read_bytes_cases (align br) 4 Hok0 Hm0)
    as [([hdr br1] & -> & Hok1 & Hd1 & Hm1 & Hl1 & Hb1 & Hr1)|[e ->]];
    cbn [mbind result_bind]; [|right; by eexists].
  destruct hdr as [|h0 [|h1 [|h2 [|h3 [|]]]]]; try done. clear Hl1.
  rewrite !Forall_cons in Hb1. destruct Hb1 as (B0 & B1 & B2 & B3 & _).
  cbn [index lookup list_lookup mbind result_bind].
  destruct (le16_bits h0 h1 B0 B1) as [El Hlen]. destruct (le16_bits h2 h3 B2 B3) as [En _].
  case_decide as Hn; [right; by eexists|].
  assert (le16 h2 h3 = u16 (Z.lnot (le16 h0 h1))) as Hnl
    by (destruct (decide (le16 h2 h3 = u16 (Z.lnot (le16 h0 h1)))); [done|tauto]).
  destruct (read_bytes_cases br1 (Z.to_nat (le16 h0 h1)) Hok1 Hm1)
    as [([dat br2] & -> & Hok2 & Hd2 & Hm2 & Hl2 & Hb2 & Hr2)|[e ->]];
    cbn [mbind result_bind]; [|right; by eexists].
  left. eexists. split; [done|].
  exists (le16 h0 h1), (le16 h2 h3), dat, (lsb_bits 8 h2 ++ lsb_bits 8 h3 ++ rem_bits br1),
    (rem_bits br1).
  change (stream_bits [h0; h1; h2; h3])
    with (lsb_bits 8 h0 ++ lsb_bits 8 h1 ++ lsb_bits 8 h2 ++ lsb_bits 8 h3 ++ []) in Hr1.
  rewrite app_nil_r, <- !app_assoc in Hr1.
  pose proof (f_equal length Hr1) as Hl. rewrite Hr0 in Hl. unfold aligned in Hl.
  rewrite length_drop, !length_app, !length_lsb_bits in Hl.
  pose proof (f_equal length Hr2) as Hl'. rewrite length_app in Hl'.
  split_and!; [..|lia].
  - split_and!; [done|congruence|done|by apply extend_has].
  - exists (lsb_bits 8 h0 ++ lsb_bits 8 h1). rewrite <- Hr0, Hr1, <- app_assoc.
    split_and!; [done|by rewrite length_app, !length_lsb_bits|done].
  - exists (lsb_bits 8 h2 ++ lsb_bits 8 h3). rewrite <- app_assoc.
    split_and!; [done|by rewrite length_app, !length_lsb_bits|done].
  - done.
  - done.
  - lia.
  - done.
Qed.

Lemma stored_complete pre br s d o len nlen dat bs2 bs3 bs' :
  stands pre br s d (rem_bits br) o ->
  reads 16 (aligned (rem_bits br)) len bs2 -> reads 16 bs2 nlen bs3 -> nlen = u16 (Z.lnot len) ->
  bytes_ok dat -> Z.of_nat (length dat) = len -> bs3 = stream_bits dat ++ bs' ->
  exists br' s', stored_block br s = Ok (br', s') /\ stands pre br' s' d bs' (o ++ dat).
Proof.
  intros (Hok & Hd & _ & Hs) (b1 & E1 & L1 & V1) (b2 & E2 & L2 & V2) Hnl Hdat Hlen ->.
  unfold stored_block. cbn zeta.
  destruct (align_spec br Hok) as (Hok0 & Hd0 & Hr0 & Hm0).
  destruct (bits16_bytes b1 L1) as (h0 & h1 & B0 & B1 & -> & W1).
  destruct (bits16_bytes b2 L2) as (h2 & h3 & B2 & B3 & -> & W2).
  destruct (read_bytes_Ok (align br) 4 [h0; h1; h2; h3] (stream_bits dat ++ bs') Hok0 Hm0)
    as (br1 & -> & Hok1 & Hd1 & Hm1 & Hr1); [done|by rewrite !Forall_cons| |].
  { rewrite Hr0, E1, E2.
    change (stream_bits [h0; h1; h2; h3])
      with (lsb_bits 8 h0 ++ lsb_bits 8 h1 ++ lsb_bits 8 h2 ++ lsb_bits 8 h3 ++ []).
    by rewrite app_nil_r, <- !app_assoc. }
  cbn [index lookup list_lookup mbind result_bind].
  rewrite <- W1, <- W2, <- V1, <- V2. rewrite decide_False by tauto.
  destruct (read_bytes_Ok br1 (Z.to_nat len) dat bs' Hok1 Hm1)
    as (br2 & -> & Hok2 & Hd2 & Hm2 & Hr2); [lia|done|done|].
  cbn [mbind result_bind]. do 2 eexists. split; [done|].
  split_and!; [done|congruence|done|by apply extend_has].
Qed.

(** One block, whatever its type. *)
Definition inflate_block (btype : Z) (br : BitReader) (sink : Sink) : res (BitReader * Sink) :=
  if decide (btype = 0%Z) then stored_block br sink
  else if decide (btype = 1%Z) then
    lit ← huffman_new fixed_literal_lengths;
    dist ← huffman_new (replicate 32 5);
    inflate_symbols (loop_fuel br) br sink lit dist
  else if decide (btype = 2%Z) then
    '(lit, dist, br) ← read_dynamic_tables br;
    inflate_symbols (loop_fuel br) br sink lit dist
  else Err ReservedBlock.

Lemma inflate_blocks_S fuel br sink :
  inflate_blocks (S fuel) br sink =
  ('(v, br) ← bits br 1;
   '(btype, br) ← bits br 2;
   '(br, sink) ← inflate_block btype br sink;
   if bool_decide (v = 1%Z) then Ok (br, sink) else inflate_blocks fuel br sink).
Proof. reflexivity. Qed.

Lemma loop_fuel_enough br : br_ok br -> length (rem_bits br) < loop_fuel br.
Proof.
  intros Hok. pose proof (length_rem _ Hok). pose proof (br_cnt _ Hok). pose proof (br_pos _ Hok).
  unfold loop_fuel. lia.
Qed.

Lemma dynamic_tables_shorter bs lit dist bs' :
  dynamic_tables bs lit dist bs' -> length bs' ≤ length bs.
Proof.
  intros (v1 & v2 & v3 & bs1 & bs2 & bs3 & bs4 & clen & Hr1 & Hr2 & Hr3 & _ & _ & Hf
    & _ & Hcl & _). apply code_lengths_bounds in Hcl as [_ ?]. apply clen_fields_bounds in Hf as [_ ?].
  apply reads_shorter in Hr1, Hr2, Hr3. lia.
Qed.

Lemma block_shorter bs o bs' o' : block bs o bs' o' -> length bs' < length bs.
Proof.
  intros [? ? ? ? ? ? bs1 ? ? ? R0 _ R1 R2 _ _ _ ->|? ? ? ? ? R0 Hsy|? ? ? ? ? ? ? ? R0 Hdt Hsy].
  - apply reads_shorter in R0, R1, R2. unfold aligned in R1.
    rewrite length_drop in R1. rewrite length_app in R2. lia.
  - apply reads_shorter in R0. apply symbols_shorter in Hsy. lia.
  - apply reads_shorter in R0. apply symbols_shorter in Hsy.
    apply dynamic_tables_shorter in Hdt. lia.
Qed.

Lemma block_sound pre br0 v br s d o :
  reads 2 (rem_bits br0) v (rem_bits br) -> stands pre br s d (rem_bits br) o ->
  good (inflate_block v br s) (fun '(br', s') => exists o',
    stands pre br' s' d (rem_bits br') o' /\ block (rem_bits br0) o (rem_bits br') o').
Proof.
  intros Hv Hst. pose proof Hst as (Hok & Hd & _ & Hs). unfold inflate_block.
  case_decide as H0; [|case_decide as H1; [|case_decide as H2; [|right; by eexists]]].
  - destruct (stored_sound pre br s d o Hst) as [([br' s'] & -> & Hx)|[e ->]]; [|right; by eexists].
    destruct Hx as (len & nlen & dat & bs2 & bs3 & Hst' & R1 & R2 & Hn & Hb & Hl & H3 & Hle).
    left. eexists. split; [done|]. exists (o ++ dat). split; [done|].
    by eapply block_stored.
  - subst v. destruct fixed_tables as (hl & hd & E1 & E2 & I1 & I2).
    rewrite E1. cbn [mbind result_bind]. rewrite E2. cbn [mbind result_bind].
    destruct (inflate_symbols_sound _ _ hl hd pre I1 I2 (loop_fuel br) br s d o Hst
      (loop_fuel_enough br Hok)) as [([br' s'] & -> & o' & Hst' & Hsy)|[e ->]]; [|right; by eexists].
    left. eexists. split; [done|]. exists o'. split; [done|]. by eapply block_fixed.
  - subst v. destruct (read_dynamic_tables_sound br Hok) as
      [([[hl hd] br1] & -> & lit & dist & I1 & I2 & Hok1 & Hd1 & Hdt & Hle)|[e ->]];
      cbn [mbind result_bind]; [|right; by eexists].
    destruct (inflate_symbols_sound _ _ hl hd pre I1 I2 (loop_fuel br1) br1 s d o)
      as [([br' s'] & -> & o' & Hst' & Hsy)|[e ->]];
      [split_and!; [done|congruence|done|done]|by apply loop_fuel_enough| |right; by eexists].
    left. eexists. split; [done|]. exists o'. split; [done|]. by eapply block_dynamic.
Qed.

Lemma block_complete pre br0 br s d o bs' o' :
  block (rem_bits br0) o bs' o' ->
  (forall v bs1, reads 2 (rem_bits br0) v bs1 -> rem_bits br = bs1) ->
  stands pre br s d (rem_bits br) o ->
  exists v bs1 br' s', reads 2 (rem_bits br0) v bs1 /\ inflate_block v br s = Ok (br', s')
    /\ stands pre br' s' d bs' o'.
Proof.
  intros H Hbr Hst. pose proof Hst as (Hok & Hd & _ & Hs).
  inversion H as [? ? v0 len nlen dat bs1 bs2 bs3 ? R0 E0 R1 R2 Hn Hb Hl E3
    |? ? bs1 ? ? R0 Hsy|? ? lit dist bs1 bs2 ? ? R0 Hdt Hsy]; subst;
    pose proof (Hbr _ _ R0) as Hrem; rewrite <- Hrem in *.
  - destruct (stored_complete pre br s (data br) o _ _ dat bs2 (stream_bits dat ++ bs') bs' Hst R1 R2
      eq_refl Hb eq_refl eq_refl) as (br' & s' & E & Hst').
    exists 0%Z, (rem_bits br), br', s'. split; [done|]. split; [exact E|done].
  - destruct fixed_tables as (hl & hd & E1 & E2 & I1 & I2).
    destruct (inflate_symbols_complete _ _ hl hd pre I1 I2 (loop_fuel br) br s (data br) _ o bs' o' Hsy Hst
      (loop_fuel_enough br Hok)) as (br' & s' & E & Hst').
    exists 1%Z, (rem_bits br), br', s'. split; [done|]. split; [|done].
    unfold inflate_block. rewrite decide_False, decide_True by done.
    rewrite E1. cbn [mbind result_bind]. rewrite E2. exact E.
  - destruct (read_dynamic_tables_complete br lit dist bs2 Hok Hdt)
      as (hl & hd & br1 & E1 & I1 & I2 & Hok1 & Hd1 & Hr1).
    destruct (inflate_symbols_complete _ _ hl hd pre I1 I2 (loop_fuel br1) br1 s (data br) _ o bs' o' Hsy)
      as (br' & s' & E & Hst'); [split_and!; [done|congruence|done|done]| |].
    { rewrite <- Hr1. by apply loop_fuel_enough. }
    exists 2%Z, (rem_bits br), br', s'. split; [done|]. split; [|done].
    unfold inflate_block. rewrite decide_False, decide_False, decide_True by done.
    rewrite E1. exact E.
Qed.

Lemma inflate_blocks_sound pre fuel br s d o :
  stands pre br s d (rem_bits br) o -> length (rem_bits br) < fuel ->
  good (inflate_blocks fuel br s) (fun '(br', s') => exists o',
    stands pre br' s' d (rem_bits br') o' /\ blocks (rem_bits br) o (rem_bits br') o').
Proof.
  revert br s o. induction fuel as [|fuel IH]; intros br s o (Hok & Hd & _ & Hs) Hf; [lia|].
  rewrite inflate_blocks_S.
  destruct (bits_cases br 1 Hok ltac:(lia)) as [(v & br1 & -> & Hok1 & Hd1 & Hr1)|[e ->]];
    cbn [mbind result_bind]; [|right; by eexists].
  destruct (bits_cases br1 2 Hok1 ltac:(lia)) as [(t & br2 & -> & Hok2 & Hd2 & Hr2)|[e ->]];
    cbn [mbind result_bind]; [|right; by eexists].
  destruct (block_sound pre br1 t br2 s d o Hr2) as [([br3 s3] & -> & o3 & Hst3 & Hb)|[e ->]];
    [split_and!; [done|congruence|done|done]| |right; by eexists].
  cbn [mbind result_bind]. pose proof (reads_range _ _ _ _ Hr1) as Hv.
  change (2 ^ Z.of_nat 1)%Z with 2%Z in Hv.
  pose proof (reads_shorter _ _ _ _ Hr1). pose proof (block_shorter _ _ _ _ Hb).
  case_bool_decide as Hlast.
  - subst v. left. eexists. split; [done|]. exists o3. split; [done|]. by eapply blocks_last.
  - assert (v = 0%Z) as -> by lia.
    destruct (IH br3 s3 o3) as [([br' s'] & -> & o' & Hst' & Hbs)|[e ->]];
      [done|lia| |right; by eexists].
    left. eexists. split; [done|]. exists o'. split; [done|]. by eapply blocks_more.
Qed.

(** The header and the body of one block. *)
Lemma one_block_complete pre br s d v bs bs1 bs2 o o2 :
  reads 1 bs v bs1 -> block bs1 o bs2 o2 -> stands pre br s d bs o ->
  exists br0 t br1 br2 s2, bits br 1 = Ok (v, br0) /\ bits br0 2 = Ok (t, br1)
    /\ inflate_block t br1 s = Ok (br2, s2) /\ stands pre br2 s2 d bs2 o2.
Proof.
  intros R1 Hb (Hok & Hd & Hr & Hs). rewrite <- Hr in R1.
  destruct (bits_Ok br 1 v bs1 Hok ltac:(lia) R1) as (br0 & E1 & Hok0 & Hd0 & Hr0).
  assert (exists t bsx, reads 2 bs1 t bsx) as (t & bsx & R2) by (inversion Hb; eauto).
  rewrite <- Hr0 in R2, Hb.
  destruct (bits_Ok br0 2 t bsx Hok0 ltac:(lia) R2) as (br1 & E2 & Hok1 & Hd1 & Hr1).
  destruct (block_complete pre br0 br1 s d o bs2 o2 Hb) as (t' & bsy & br2 & s2 & R2' & E3 & Hst2).
  { intros v' bs1' R'. rewrite Hr1. by destruct (reads_fun _ _ _ _ _ _ R2 R'). }
  { split_and!; [done|congruence|done|done]. }
  destruct (reads_fun _ _ _ _ _ _ R2 R2') as [<- _].
  exists br0, t, br1, br2, s2. split; [done|]. split; [done|]. split; [exact E3|done].
Qed.

Lemma inflate_blocks_complete pre fuel bs o bs' o' br s d :
  blocks bs o bs' o' -> stands pre br s d bs o -> length bs < fuel ->
  exists br' s', inflate_blocks fuel br s = Ok (br', s') /\ stands pre br' s' d bs' o'.
Proof.
  intros H. revert fuel br s.
  induction H as [bs o bs1 bs' o' R1 Hb|bs o bs1 bs2 o1 bs' o' R1 Hb _ IH];
    intros [|fuel] br s Hst Hf; try lia; rewrite inflate_blocks_S;
    destruct (one_block_complete _ _ _ _ _ _ _ _ _ _ R1 Hb Hst)
      as (br0 & t & br1 & br2 & s2 & -> & E2 & E3 & Hst2); cbn [mbind result_bind];
    rewrite E2; cbn [mbind result_bind]; rewrite E3; cbn [mbind result_bind].
  - exists br2, s2. done.
  - apply IH; [done|]. apply reads_shorter in R1. apply block_shorter in Hb. lia.
Qed.
