(* ===== verification/Gunzip.v ===== *)
(** * The gzip container, and what [gunzip] is proved to do *)
From S2P Require Import Prelude Inflate InflateSpec InflateBits InflateHuffman InflateRefine.

(** ** Little-endian words *)

Lemma stream_bits_le32 v : stream_bits (le32_bytes v) = lsb_bits 32 v.
Proof.
  change 32 with (8 + (8 + (8 + 8))). rewrite !lsb_bits_app, !Z.shiftr_shiftr by lia.
  cbn [Z.of_nat Pos.of_succ_nat Pos.succ].
  unfold stream_bits, le32_bytes. rewrite !bind_cons. cbn [mbind list_bind]. rewrite app_nil_r.
  assert (forall x, lsb_bits 8 (u8 x) = lsb_bits 8 x) as H.
  { intros x. unfold lsb_bits, u8. by rewrite to_bits_wrap by lia. }
  by rewrite !H.
Qed.

Lemma le32_bits a b c d :
  byte_ok a -> byte_ok b -> byte_ok c -> byte_ok d ->
  stream_bits [a; b; c; d] = lsb_bits 32 (le32 a b c d) /\ (0 ≤ le32 a b c d < 2 ^ 32)%Z.
Proof.
  intros Ha Hb Hc Hd.
  assert (le32 a b c d = Z.lor (Z.lor (Z.lor a (Z.shiftl b 8)) (Z.shiftl c 16)) (Z.shiftl d 24)) as E.
  { unfold le32. by rewrite !Z.lor_assoc. }
  assert (forall x n, byte_ok x -> n ≤ 56 -> u64 (Z.shiftl x (Z.of_nat n)) = Z.shiftl x (Z.of_nat n)) as Hu.
  { unfold byte_ok. intros x n Hx Hn. apply wrap_small.
    rewrite Z.shiftl_mul_pow2 by lia.
    assert (2 ^ Z.of_nat n ≤ 2 ^ 56)%Z by (apply Z.pow_le_mono_r; lia). nia. }
  destruct (push_byte_bits 8 a b) as [E1 R1]; [exact Ha|exact Hb|lia|].
  destruct (push_byte_bits 16 (Z.lor a (Z.shiftl b 8)) c) as [E2 R2];
    [rewrite (Hu b 8 Hb ltac:(lia)) in R1; exact R1|exact Hc|lia|].
  destruct (push_byte_bits 24 (Z.lor (Z.lor a (Z.shiftl b 8)) (Z.shiftl c 16)) d) as [E3 R3];
    [rewrite (Hu c 16 Hc ltac:(lia)) in R2; exact R2|exact Hd|lia|].
  rewrite Hu in E1, E2, E3, R3 by (done || lia). rewrite E.
  split; [|exact R3]. change 32 with (24 + 8). symmetry. etrans; [exact E3|].
  etrans; [apply (f_equal (fun l => l ++ lsb_bits 8 d)); exact E2|].
  etrans; [apply (f_equal (fun l => (l ++ lsb_bits 8 c) ++ lsb_bits 8 d)); exact E1|].
  rewrite <- !app_assoc. done.
Qed.

Lemma le32_bytes_ok v : bytes_ok (le32_bytes v).
Proof. repeat constructor; apply u8_range. Qed.

Lemma le32_bytes_le32 a b c d :
  byte_ok a -> byte_ok b -> byte_ok c -> byte_ok d -> le32_bytes (le32 a b c d) = [a; b; c; d].
Proof.
  intros Ha Hb Hc Hd. apply stream_bits_inj; [apply le32_bytes_ok|by rewrite !Forall_cons|].
  rewrite stream_bits_le32. symmetry. by apply le32_bits.
Qed.

Lemma le32_bytes_wrap v : le32_bytes (u32 v) = le32_bytes v.
Proof.
  apply stream_bits_inj; [apply le32_bytes_ok..|]. rewrite !stream_bits_le32.
  unfold lsb_bits, u32. by rewrite to_bits_wrap by lia.
Qed.

Lemma le32_bytes_inj v v' :
  (0 ≤ v < 2 ^ 32)%Z -> (0 ≤ v' < 2 ^ 32)%Z -> le32_bytes v = le32_bytes v' -> v = v'.
Proof.
  intros Hv Hv' E. apply (f_equal stream_bits) in E. rewrite !stream_bits_le32 in E.
  apply (f_equal of_lsb) in E. by rewrite !of_lsb_bits, !wrap_small in E.
Qed.

Lemma lxor_range n a b :
  (0 ≤ n)%Z -> (0 ≤ a < 2 ^ n)%Z -> (0 ≤ b < 2 ^ n)%Z -> (0 ≤ Z.lxor a b < 2 ^ n)%Z.
Proof.
  intros Hn Ha Hb. assert (Z.lxor a b = wrap n (Z.lxor a b)) as ->; [|by apply wrap_range].
  apply Z.bits_inj'. intros i Hi. rewrite testbit_wrap, Z.lxor_spec by done.
  case_bool_decide; [done|]. by rewrite (testbit_high n a), (testbit_high n b) by lia.
Qed.

Lemma crc32_bitwise_range d : (0 ≤ crc32_bitwise d < 2 ^ 32)%Z.
Proof.
  unfold crc32_bitwise. apply lxor_range; [lia| |lia].
  assert (forall bs c, (0 ≤ c < 2 ^ 32)%Z -> (0 ≤ foldl crc_step c bs < 2 ^ 32)%Z) as H;
    [|apply H; lia].
  intros bs. induction bs as [|b bs IH]; intros c Hc; [done|]. cbn [foldl]. apply IH.
  assert (0 ≤ Z.shiftr c 1 < 2 ^ 32)%Z.
  { rewrite Z.shiftr_div_pow2 by lia. change (2 ^ 1)%Z with 2%Z.
    pose proof (Z.div_pos c 2). pose proof (Z.div_le_upper_bound c 2 c). lia. }
  unfold crc_step. destruct (xorb _ b); [|done]. apply lxor_range; [lia|lia|done].
Qed.

(** ** Headers

    Each optional field is a segment of what is left of the file. *)

Lemma position_nul_app t rest :
  0%Z ∉ t -> position_nul (t ++ 0%Z :: rest) = Some (length t).
Proof.
  induction t as [|b t IH]; intros Hn; cbn; [done|].
  apply not_elem_of_cons in Hn as [Hb Hn]. rewrite decide_False by congruence. by rewrite IH.
Qed.

Lemma position_nul_Some l n :
  position_nul l = Some n -> exists t rest, l = t ++ 0%Z :: rest /\ 0%Z ∉ t /\ length t = n.
Proof.
  revert n. induction l as [|b l IH]; intros n H; cbn in H; [done|]. case_decide as Hb.
  - injection H as <-. subst b. exists [], l. split_and!; [done|apply not_elem_of_nil|done].
  - destruct (position_nul l) as [m|]; [|done]. injection H as <-.
    destruct (IH m eq_refl) as (t & rest & -> & Hn & Hl). exists (b :: t), rest.
    split_and!; [done| |cbn; lia]. apply not_elem_of_cons. split; [congruence|done].
Qed.

(** Skipping a field: the new position is past a segment of that field. *)
Definition skips (field : bytes -> Prop) (skip : nat -> res nat) (gz : bytes) : Prop :=
  (forall pre tail, gz = pre ++ tail ->
     good (skip (length pre)) (fun p => exists seg tail', tail = seg ++ tail' /\ field seg
                                  /\ p = length (pre ++ seg)))
  /\ forall pre seg tail, gz = pre ++ seg ++ tail -> field seg ->
       skip (length pre) = Ok (length (pre ++ seg)).

Definition extra_field (e : bytes) : Prop :=
  exists lo hi x, e = lo :: hi :: x /\ Z.of_nat (length x) = le16 lo hi.

Lemma skip_extra_spec gz : bytes_ok gz -> skips extra_field (skip_extra gz) gz.
Proof.
  intros Hb. split.
  - intros pre tail ->. unfold skip_extra. rewrite length_app. case_decide; [right; by eexists|].
    destruct tail as [|lo [|hi tail]]; cbn [length] in *; [lia|lia|].
    rewrite (index_Some _ (length pre) lo) by by apply list_lookup_middle. cbn [mbind result_bind].
    rewrite (index_Some _ (length pre + 1) hi).
    2:{ rewrite cons_middle, app_assoc. apply list_lookup_middle. rewrite length_app. cbn. lia. }
    cbn [mbind result_bind]. case_decide; [right; by eexists|]. left. eexists. split; [done|].
    apply Forall_app in Hb as [_ Hb]. rewrite !Forall_cons in Hb. destruct Hb as (Hlo & Hhi & Hb).
    destruct (le16_bits lo hi Hlo Hhi) as [_ Hr].
    exists (lo :: hi :: take (Z.to_nat (le16 lo hi)) tail), (drop (Z.to_nat (le16 lo hi)) tail).
    cbn [app]. rewrite take_drop. split_and!; [done| |].
    + exists lo, hi, (take (Z.to_nat (le16 lo hi)) tail). split; [done|].
      rewrite length_take. lia.
    + rewrite length_app. cbn [length]. rewrite length_take. lia.
  - intros pre seg tail -> (lo & hi & x & -> & Hx). unfold skip_extra. cbn [app].
    rewrite !length_app. cbn [length]. rewrite length_app. rewrite decide_False by lia.
    rewrite (index_Some _ (length pre) lo) by by apply list_lookup_middle. cbn [mbind result_bind].
    rewrite (index_Some _ (length pre + 1) hi).
    2:{ rewrite cons_middle, app_assoc. apply list_lookup_middle. rewrite length_app. cbn. lia. }
    cbn [mbind result_bind]. rewrite <- Hx, Nat2Z.id. rewrite decide_False by lia. done.
Qed.

Definition string_field (s : bytes) : Prop := exists t, s = t ++ [0%Z] /\ 0%Z ∉ t.

Lemma skip_string_spec gz : skips string_field (skip_string gz) gz.
Proof.
  split.
  - intros pre tail ->. unfold skip_string. rewrite slice_ok by (rewrite ?length_app; lia).
    cbn [mbind result_bind]. rewrite drop_app_length, take_ge by (rewrite length_app; lia).
    destruct (position_nul tail) as [n|] eqn:E; cbn; [|right; by eexists].
    apply position_nul_Some in E as (t & rest & -> & Hn & <-). left. eexists. split; [done|].
    exists (t ++ [0%Z]), rest. rewrite <- app_assoc. split_and!; [done|by exists t|].
    rewrite !length_app. cbn. lia.
  - intros pre seg tail -> (t & -> & Hn). unfold skip_string.
    rewrite slice_ok by (rewrite ?length_app; lia). cbn [mbind result_bind].
    rewrite drop_app_length, take_ge by (rewrite !length_app; lia).
    rewrite <- app_assoc. cbn [app]. rewrite position_nul_app by done. cbn.
    do 2 f_equal. rewrite !length_app. cbn. lia.
Qed.

(** The same, for a field that its flag makes optional. *)
Definition optional (present : bool) (field : bytes -> Prop) (s : bytes) : Prop :=
  if present then field s else s = [].

Lemma optional_skips present field skip gz :
  skips field skip gz ->
  skips (optional present field) (fun p => if present then skip p else Ok p) gz.
Proof.
  intros H. destruct present; [exact H|]. split.
  - intros pre tail ->. left. eexists. split; [done|]. exists [], tail. by rewrite app_nil_r.
  - intros pre seg tail -> ->. by rewrite app_nil_r.
Qed.

Definition skip_hcrc (gz : bytes) (p : nat) : res nat :=
  let p := p + 2 in if decide (length gz < p) then Err GzHeaderCrc else Ok p.

Lemma skip_hcrc_spec gz : skips (fun s => length s = 2) (skip_hcrc gz) gz.
Proof.
  split.
  - intros pre tail ->. unfold skip_hcrc. rewrite length_app. cbn zeta.
    case_decide; [right; by eexists|]. left. eexists. split; [done|].
    exists (take 2 tail), (drop 2 tail). rewrite take_drop, length_app, length_take.
    split_and!; [done|lia|lia].
  - intros pre seg tail -> Hl. unfold skip_hcrc. rewrite !length_app, Hl. cbn zeta.
    by rewrite decide_False by lia.
Qed.

(** The part of the header after its first ten bytes. *)
Definition skip_fields (gz : bytes) (flags : Z) (p : nat) : res nat :=
  p ← (if flag flags 4 then skip_extra gz p else Ok p);
  p ← (if flag flags 8 then skip_string gz p else Ok p);
  p ← (if flag flags 16 then skip_string gz p else Ok p);
  if flag flags 2 then skip_hcrc gz p else Ok p.

Definition fields (flags : Z) (f : bytes) : Prop :=
  exists extra name comment hcrc, f = extra ++ name ++ comment ++ hcrc
    /\ optional (flag flags 4) extra_field extra
    /\ optional (flag flags 8) string_field name
    /\ optional (flag flags 16) string_field comment
    /\ optional (flag flags 2) (fun s => length s = 2) hcrc.

Lemma skip_fields_spec gz flags : bytes_ok gz -> skips (fields flags) (skip_fields gz flags) gz.
Proof.
  intros Hb.
  destruct (optional_skips (flag flags 4) _ _ _ (skip_extra_spec gz Hb)) as [S1 C1].
  destruct (optional_skips (flag flags 8) _ _ _ (skip_string_spec gz)) as [S2 C2].
  destruct (optional_skips (flag flags 16) _ _ _ (skip_string_spec gz)) as [S3 C3].
  destruct (optional_skips (flag flags 2) _ _ _ (skip_hcrc_spec gz)) as [S4 C4].
  unfold skip_fields. split.
  - intros pre tail Hgz.
    destruct (S1 pre tail Hgz) as [(p1 & -> & e & tl1 & E1 & F1 & ->)|[e ->]];
      cbn [mbind result_bind]; [|right; by eexists].
    rewrite E1, app_assoc in Hgz.
    destruct (S2 _ _ Hgz) as [(p2 & -> & n & tl2 & E2 & F2 & ->)|[x ->]];
      cbn [mbind result_bind]; [|right; by eexists].
    rewrite E2, app_assoc in Hgz.
    destruct (S3 _ _ Hgz) as [(p3 & -> & c & tl3 & E3 & F3 & ->)|[x ->]];
      cbn [mbind result_bind]; [|right; by eexists].
    rewrite E3, app_assoc in Hgz.
    destruct (S4 _ _ Hgz) as [(p4 & -> & h & tl4 & E4 & F4 & ->)|[x ->]]; [|right; by eexists].
    left. eexists. split; [done|]. exists (e ++ n ++ c ++ h), tl4. subst.
    rewrite <- !app_assoc. split_and!; [done|by exists e, n, c, h|done].
  - intros pre seg tail Hgz (e & n & c & h & -> & F1 & F2 & F3 & F4).
    rewrite <- !app_assoc in Hgz.
    rewrite (C1 pre e _ Hgz F1). cbn [mbind result_bind]. rewrite app_assoc in Hgz.
    rewrite (C2 (pre ++ e) n _ Hgz F2). cbn [mbind result_bind]. rewrite app_assoc in Hgz.
    rewrite (C3 ((pre ++ e) ++ n) c _ Hgz F3). cbn [mbind result_bind]. rewrite app_assoc in Hgz.
    rewrite (C4 (((pre ++ e) ++ n) ++ c) h _ Hgz F4). by rewrite <- !app_assoc.
Qed.

Lemma header_fields flags fixed f :
  length fixed = 6 -> flag flags 224 = false -> fields flags f ->
  header ([31; 139; 8; flags]%Z ++ fixed ++ f).
Proof.
  intros H6 Hf (e & n & c & h & -> & F1 & F2 & F3 & F4).
  exists flags, fixed, e, n, c, h. split_and!; [done|done|done|exact F1|exact F2|exact F3|].
  unfold optional in F4. destruct (flag flags 2); [exact F4|by rewrite F4].
Qed.

Lemma header_inv h :
  header h -> exists flags fixed f, h = [31; 139; 8; flags]%Z ++ fixed ++ f
    /\ length fixed = 6 /\ flag flags 224 = false /\ fields flags f.
Proof.
  intros (flags & fixed & e & n & c & k & -> & H6 & Hf & F1 & F2 & F3 & F4).
  exists flags, fixed, (e ++ n ++ c ++ k). split_and!; [done..|].
  exists e, n, c, k. split_and!; [done|exact F1|exact F2|exact F3|].
  unfold optional. destruct (flag flags 2); [exact F4|by destruct k].
Qed.

Lemma parse_header_S gz flags fixed rest :
  gz = [31; 139; 8; flags]%Z ++ fixed ++ rest -> 18 ≤ length gz -> length fixed = 6 ->
  flag flags 224 = false -> parse_header gz = skip_fields gz flags (length ([31; 139; 8; flags]%Z ++ fixed)).
Proof.
  intros -> Hl H6 Hf. unfold parse_header. rewrite decide_False by lia.
  cbn [app]. cbn [index lookup list_lookup mbind result_bind].
  rewrite decide_False by tauto. cbn [mbind result_bind]. rewrite decide_False by tauto.
  rewrite Hf. cbn [length]. rewrite H6. done.
Qed.

Lemma parse_header_sound gz :
  bytes_ok gz ->
  good (parse_header gz) (fun p => exists h body, gz = h ++ body /\ header h /\ p = length h
                             /\ 18 ≤ length gz).
Proof.
  intros Hb. destruct (decide (length gz < 18)) as [Hs|Hs].
  { unfold parse_header. rewrite decide_True by done. right. by eexists. }
  destruct gz as [|g0 [|g1 [|g2 [|flags gz]]]]; cbn [length] in Hs; try lia.
  unfold parse_header. rewrite decide_False by (cbn [length]; lia).
  cbn [index lookup list_lookup mbind result_bind].
  case_decide as Hm; [right; by eexists|]. cbn [mbind result_bind].
  case_decide as H8; [right; by eexists|]. destruct (flag flags 224) eqn:Hf; [right; by eexists|].
  assert (g0 = 31 /\ g1 = 139 /\ g2 = 8)%Z as (-> & -> & ->) by lia.
  set (all := 31%Z :: 139%Z :: 8%Z :: flags :: gz) in *.
  assert (all = [31; 139; 8; flags]%Z ++ take 6 gz ++ drop 6 gz) as Hall
    by (unfold all; cbn [app]; by rewrite take_drop).
  destruct (skip_fields_spec all flags Hb) as [S _].
  rewrite app_assoc in Hall.
  destruct (S _ _ Hall) as [(p & E & f & body & Hbody & F & ->)|[e E]].
  - left. eexists. split.
    + rewrite <- E, length_app, length_take, Nat.min_l by lia. reflexivity.
    + exists (([31; 139; 8; flags]%Z ++ take 6 gz) ++ f), body.
      rewrite <- app_assoc, <- Hbody. split_and!; [done| |done|unfold all; cbn [length]; lia].
      rewrite <- app_assoc. apply header_fields; [rewrite length_take; lia|done|done].
  - right. exists e. rewrite <- E, length_app, length_take, Nat.min_l by lia. reflexivity.
Qed.

Lemma parse_header_complete h body :
  bytes_ok (h ++ body) -> header h -> 18 ≤ length (h ++ body) ->
  parse_header (h ++ body) = Ok (length h).
Proof.
  intros Hb (flags & fixed & f & -> & H6 & Hf & F)%header_inv Hl.
  destruct (skip_fields_spec _ flags Hb) as [_ C].
  rewrite (parse_header_S _ flags fixed (f ++ body)); [|by rewrite <- !app_assoc|done|done|done].
  rewrite (C ([31; 139; 8; flags]%Z ++ fixed) f body); [|by rewrite <- !app_assoc|done].
  by rewrite <- app_assoc.
Qed.

(** ** Members *)

Lemma index_le32_app p a b c d tail :
  index_le32 (p ++ a :: b :: c :: d :: tail) (length p) = Ok (le32 a b c d).
Proof.
  unfold index_le32.
  rewrite (index_Some _ (length p) a) by by apply list_lookup_middle. cbn [mbind result_bind].
  rewrite (index_Some _ (length p + 1) b).
  2:{ rewrite lookup_app_r by lia. by replace (length p + 1 - length p) with 1 by lia. }
  cbn [mbind result_bind]. rewrite (index_Some _ (length p + 2) c).
  2:{ rewrite lookup_app_r by lia. by replace (length p + 2 - length p) with 2 by lia. }
  cbn [mbind result_bind]. rewrite (index_Some _ (length p + 3) d).
  2:{ rewrite lookup_app_r by lia. by replace (length p + 3 - length p) with 3 by lia. }
  done.
Qed.

Lemma blocks_bytes_ok bs o bs' o' : blocks bs o bs' o' -> bytes_ok o -> bytes_ok o'.
Proof.
  assert (forall bs o bs' o', block bs o bs' o' -> bytes_ok o -> bytes_ok o') as Hb.
  { intros ???? [? ? ? ? ? ? ? ? ? ? ? ? ? ? ? Hd ? ?|? ? ? ? ? ? Hsy|? ? ? ? ? ? ? ? ? ? Hsy] Ho.
    - by apply Forall_app.
    - by eapply symbols_bytes_ok in Hsy.
    - by eapply symbols_bytes_ok in Hsy. }
  induction 1; eauto.
Qed.

(** Inflating one stream, from the reader's initial state. *)
Lemma inflate_stream_sound stream pre :
  bytes_ok stream ->
  good (inflate_stream stream pre)
    (fun '(out, written, crc, bp) => exists o bs, blocks (stream_bits stream) [] bs o
       /\ out = pre ++ o /\ written = length o /\ crc = crc32_bitwise o
       /\ bp ≤ length stream /\ aligned bs = stream_bits (drop bp stream)).
Proof.
  intros Hb. pose proof (br_new_ok stream Hb) as Hok. unfold inflate_stream.
  destruct (inflate_blocks_sound pre (loop_fuel (br_new stream)) (br_new stream) (sink_new pre)
    stream []) as [([br s] & -> & o & (Hok' & Hd' & _ & Hs) & Hbl)|[e ->]];
    [split_and!; [done|done|done|apply sink_new_has]|by apply loop_fuel_enough| |right; by eexists].
  left. destruct (byte_pos_spec br Hok') as (bp & Hbp & Hle & Hal).
  rewrite br_new_rem in Hbl. rewrite Hd' in Hle, Hal.
  cbn [mbind result_bind]. rewrite Hbp. cbn [mbind result_bind].
  rewrite (finish_spec pre s o Hs) by (by eapply blocks_bytes_ok).
  eexists. split; [reflexivity|]. by exists o, (rem_bits br).
Qed.

Lemma inflate_stream_complete stream pre bs o :
  bytes_ok stream -> blocks (stream_bits stream) [] bs o ->
  exists bp, inflate_stream stream pre = Ok (pre ++ o, length o, crc32_bitwise o, bp)
    /\ bp ≤ length stream /\ aligned bs = stream_bits (drop bp stream).
Proof.
  intros Hb Hbl. pose proof (br_new_ok stream Hb) as Hok.
  pose proof (loop_fuel_enough _ Hok) as Hf. rewrite br_new_rem in Hf.
  destruct (inflate_blocks_complete pre (loop_fuel (br_new stream)) _ _ _ _ (br_new stream)
    (sink_new pre) stream Hbl) as (br & s & E & (Hok' & Hd' & Hr' & Hs));
    [split_and!; [done|done|apply br_new_rem|apply sink_new_has]|done|].
  destruct (byte_pos_spec br Hok') as (bp & Hbp & Hle & Hal). rewrite Hd', ?Hr' in *.
  exists bp. split; [|done]. unfold inflate_stream. rewrite E. cbn [mbind result_bind].
  rewrite Hbp. cbn [mbind result_bind].
  by rewrite (finish_spec pre s o Hs) by (by eapply blocks_bytes_ok).
Qed.

(** The trailer of a member: two little-endian words. *)
Lemma trailer_fields gz e :
  bytes_ok gz -> e + 8 ≤ length gz ->
  exists crc isize, index_le32 gz e = Ok crc /\ index_le32 gz (e + 4) = Ok isize
    /\ drop e gz = le32_bytes crc ++ le32_bytes isize ++ drop (e + 8) gz
    /\ (0 ≤ crc < 2 ^ 32)%Z /\ (0 ≤ isize < 2 ^ 32)%Z.
Proof.
  intros Hb Hl. assert (length (drop e gz) = length gz - e) as Hdl by apply length_drop.
  assert (drop (e + 8) gz = drop 8 (drop e gz)) as -> by by rewrite drop_drop.
  assert (bytes_ok (drop e gz)) as Hb3 by by apply Forall_drop.
  assert (gz = take e gz ++ drop e gz) as Hsplit by by rewrite take_drop.
  assert (length (take e gz) = e) as Hte by (rewrite length_take; lia).
  destruct (drop e gz) as [|a [|b [|c [|d [|a' [|b' [|c' [|d' rest]]]]]]]];
    cbn [length] in Hdl; try lia.
  rewrite !Forall_cons in Hb3. destruct Hb3 as (? & ? & ? & ? & ? & ? & ? & ? & _).
  exists (le32 a b c d), (le32 a' b' c' d').
  pose proof (index_le32_app (take e gz) a b c d (a' :: b' :: c' :: d' :: rest)) as I1.
  rewrite <- Hsplit, Hte in I1.
  pose proof (index_le32_app (take e gz ++ [a; b; c; d]) a' b' c' d' rest) as I2.
  rewrite <- app_assoc, length_app, Hte in I2. cbn [app length] in I2. rewrite <- Hsplit in I2.
  split; [exact I1|]. split; [exact I2|].
  rewrite !le32_bytes_le32 by done. split; [done|]. split; by apply le32_bits.
Qed.

Lemma check_trailer_spec gz e o tail :
  bytes_ok gz -> drop e gz = tail ->
  good (check_trailer gz e (length o) (crc32_bitwise o)) (fun _ =>
    e + 8 ≤ length gz
    /\ tail = le32_bytes (crc32_bitwise o) ++ le32_bytes (Z.of_nat (length o)) ++ drop (e + 8) gz).
Proof.
  intros Hb <-. unfold check_trailer. case_decide as Hl; [right; by eexists|].
  destruct (trailer_fields gz e Hb ltac:(lia)) as (wc & wl & -> & I2 & Hd & _ & _).
  cbn [mbind result_bind]. rewrite I2. cbn [mbind result_bind].
  destruct (decide (crc32_bitwise o = wc)) as [<-|Hcrc];
    [rewrite decide_False by tauto|rewrite decide_True by done; right; by eexists].
  destruct (decide (wl = u32 (Z.of_nat (length o)))) as [->|Hwl];
    [rewrite decide_False by tauto|rewrite decide_True by done; right; by eexists].
  left. exists (). split; [done|]. split; [lia|]. by rewrite Hd, le32_bytes_wrap.
Qed.

Lemma check_trailer_complete gz e o rest :
  bytes_ok gz ->
  drop e gz = le32_bytes (crc32_bitwise o) ++ le32_bytes (Z.of_nat (length o)) ++ rest ->
  check_trailer gz e (length o) (crc32_bitwise o) = Ok () /\ e + 8 ≤ length gz
  /\ drop (e + 8) gz = rest.
Proof.
  intros Hb Hd. pose proof (f_equal length Hd) as Hl. rewrite length_drop, !length_app in Hl.
  cbn [le32_bytes length] in Hl. unfold check_trailer. rewrite decide_False by lia.
  destruct (trailer_fields gz e Hb ltac:(lia)) as (wc & wl & -> & I2 & Hd' & Rc & Rl).
  rewrite Hd in Hd'. apply app_inj_1 in Hd' as [Ec Hd']; [|done].
  apply app_inj_1 in Hd' as [El Hd']; [|done].
  apply le32_bytes_inj in Ec; [|apply crc32_bitwise_range|done].
  rewrite <- le32_bytes_wrap in El. apply le32_bytes_inj in El; [|apply wrap_range; lia|done].
  cbn [mbind result_bind]. rewrite I2. cbn [mbind result_bind].
  rewrite decide_False by tauto. rewrite decide_False by (rewrite El; tauto).
  split; [done|]. split; [lia|done].
Qed.

Lemma gunzip_member_sound gz offset pre :
  bytes_ok gz -> offset ≤ length gz ->
  good (gunzip_member gz offset pre) (fun '(offset', out, written) => exists o rest,
    member (drop offset gz) o rest /\ out = pre ++ o /\ written = length o
    /\ offset < offset' ≤ length gz /\ rest = drop offset' gz).
Proof.
  intros Hb Hoff. unfold gunzip_member. rewrite slice_ok by lia. rewrite bind_Ok_eq.
  rewrite take_ge by (rewrite length_drop; lia).
  assert (bytes_ok (drop offset gz)) as Hb1 by by apply Forall_drop.
  destruct (parse_header_sound (drop offset gz) Hb1) as [(p & -> & h & body & Hgz & Hh & -> & H18)|[e ->]];
    [rewrite bind_Ok_eq|right; by eexists].
  pose proof (f_equal length Hgz) as Hlen. rewrite length_drop, length_app in Hlen.
  rewrite (slice_ok gz (offset + length h)) by lia. rewrite bind_Ok_eq.
  rewrite take_ge by (rewrite length_drop; lia).
  assert (drop (offset + length h) gz = body) as Hbody.
  { by rewrite <- drop_drop, Hgz, drop_app_length. }
  rewrite Hbody. assert (bytes_ok body) as Hb2 by (rewrite <- Hbody; by apply Forall_drop).
  destruct (inflate_stream_sound body pre Hb2) as
    [([[[out w] c] bp] & -> & o & bs & Hbl & -> & -> & -> & Hle & Hal)|[e ->]];
    [rewrite bind_Ok_eq|right; by eexists].
  assert (drop (offset + length h + bp) gz = drop bp body) as Htail
    by by rewrite <- Hbody, drop_drop.
  destruct (check_trailer_spec gz _ o _ Hb Htail) as [([] & -> & Hend & Htr)|[e ->]];
    [rewrite bind_Ok_eq|right; by eexists].
  left. eexists. split; [reflexivity|]. eexists o, _.
  split; [|split; [done|split; [done|split; [lia|reflexivity]]]].
  split; [exact H18|]. split; [by apply Forall_drop|]. exists h, body, bs.
  split; [exact Hgz|]. split; [exact Hh|]. split; [exact Hbl|]. by rewrite Hal, Htr.
Qed.

Lemma gunzip_member_complete gz offset pre o rest :
  bytes_ok gz -> offset ≤ length gz -> member (drop offset gz) o rest ->
  exists offset', gunzip_member gz offset pre = Ok (offset', pre ++ o, length o)
    /\ offset < offset' ≤ length gz /\ drop offset' gz = rest.
Proof.
  intros Hb Hoff (H18 & Hrest & h & body & bs & Hgz & Hh & Hbl & Hal).
  unfold gunzip_member. rewrite slice_ok by lia. rewrite bind_Ok_eq.
  rewrite take_ge by (rewrite length_drop; lia).
  assert (bytes_ok (drop offset gz)) as Hb1 by by apply Forall_drop.
  rewrite Hgz in Hb1, H18. rewrite Hgz, (parse_header_complete h body Hb1 Hh H18).
  rewrite bind_Ok_eq.
  pose proof (f_equal length Hgz) as Hlen. rewrite length_drop, length_app in Hlen.
  rewrite (slice_ok gz (offset + length h)) by lia. rewrite bind_Ok_eq.
  rewrite take_ge by (rewrite length_drop; lia).
  assert (drop (offset + length h) gz = body) as Hbody.
  { by rewrite <- drop_drop, Hgz, drop_app_length. }
  rewrite Hbody. assert (bytes_ok body) as Hb2 by (rewrite <- Hbody; by apply Forall_drop).
  destruct (inflate_stream_complete body pre bs o Hb2 Hbl) as (bp & -> & Hle & Hal').
  rewrite bind_Ok_eq. rewrite Hal' in Hal.
  assert (drop (offset + length h + bp) gz = drop bp body) as Htail
    by by rewrite <- Hbody, drop_drop.
  apply stream_bits_inj in Hal;
    [|by apply Forall_drop|rewrite !Forall_app; split_and!; [apply le32_bytes_ok..|done]].
  rewrite Hal in Htail.
  destruct (check_trailer_complete gz _ o rest Hb Htail) as (-> & Hend & Hr).
  rewrite bind_Ok_eq. eexists. split; [reflexivity|]. split; [lia|exact Hr].
Qed.

(** ** Files *)

Lemma zero_padding (l : bytes) :
  forallb (fun b => bool_decide (b = 0%Z)) l = true <-> Forall (fun b => b = 0%Z) l.
Proof.
  induction l as [|b l IH]; [by split|]. cbn [forallb].
  by rewrite andb_true_iff, bool_decide_eq_true, Forall_cons, IH.
Qed.

Lemma gunzip_loop_sound fuel gz offset total pre :
  bytes_ok gz -> offset ≤ length gz -> length gz - offset < fuel ->
  good (gunzip_loop fuel gz offset total pre) (fun '(out, total') => exists o,
    out = pre ++ o /\ gzip_file (drop offset gz) o /\ total' = u64 (total + Z.of_nat (length o))).
Proof.
  intros Hb. revert offset total pre. induction fuel as [|fuel IH]; intros offset total pre Hoff Hf; [lia|].
  cbn [gunzip_loop].
  destruct (gunzip_member_sound gz offset pre Hb Hoff) as
    [([[offset' out] w] & -> & o & rest & Hm & -> & -> & Hlt & ->)|[e ->]];
    [rewrite bind_Ok_eq|right; by eexists].
  rewrite slice_ok by lia. rewrite bind_Ok_eq. rewrite take_ge by (rewrite length_drop; lia).
  destruct (forallb _ _) eqn:Hz.
  - apply zero_padding in Hz. left. eexists. split; [reflexivity|]. exists o.
    split; [done|]. split; [by eapply gzip_last|done].
  - assert (~ Forall (fun b => b = 0%Z) (drop offset' gz)) as Hnz
      by (rewrite <- zero_padding, Hz; done).
    destruct (IH offset' (u64 (total + Z.of_nat (length o))) (pre ++ o)) as
      [([out t] & -> & o' & -> & Hfile & ->)|[e ->]]; [lia|lia| |right; by eexists].
    left. eexists. split; [reflexivity|]. exists (o ++ o').
    split; [by rewrite app_assoc|]. split; [by eapply gzip_more|].
    rewrite length_app, Nat2Z.inj_add. unfold u64, wrap. rewrite Z.add_mod_idemp_l by lia.
    f_equal. lia.
Qed.

Lemma gunzip_loop_complete fuel gz offset total pre o :
  bytes_ok gz -> offset ≤ length gz -> length gz - offset < fuel ->
  gzip_file (drop offset gz) o ->
  exists total', gunzip_loop fuel gz offset total pre = Ok (pre ++ o, total').
Proof.
  intros Hb Hoff Hf Hfile. remember (drop offset gz) as d eqn:Hd.
  revert fuel offset total pre Hoff Hf Hd.
  induction Hfile as [d o rest Hm Hz|d o rest o' Hm Hz _ IH];
    intros [|fuel] offset total pre Hoff Hf ->; try lia; cbn [gunzip_loop];
    destruct (gunzip_member_complete gz offset pre o rest Hb Hoff Hm) as (offset' & -> & Hlt & <-);
    rewrite bind_Ok_eq; rewrite slice_ok by lia; rewrite bind_Ok_eq;
    rewrite take_ge by (rewrite length_drop; lia).
  - apply zero_padding in Hz. rewrite Hz. by eexists.
  - rewrite <- zero_padding in Hz. apply not_true_is_false in Hz. rewrite Hz.
    destruct (IH fuel offset' (u64 (total + Z.of_nat (length o))) (pre ++ o)) as (t & ->);
      [lia|lia|done|]. rewrite <- app_assoc. by eexists.
Qed.

(** * Properties *)

(** C2: [gunzip] implements the grammar of RFC 1951 and 1952: on every byte
    string it returns, and it returns [out] exactly on the files that, by that
    grammar, hold [out] (magic, method, flags, optional header fields, any mix
    of stored, fixed and dynamic blocks, the bitwise CRC-32, the length, any
    number of members and zero padding).  Everything else is an error. *)
Theorem gunzip_correct gz :
  bytes_ok gz ->
  (forall out, gunzip gz = Ok out <-> gzip_file gz out)
  /\ ((exists out, gunzip gz = Ok out) \/ exists e, gunzip gz = Err e).
Proof.
  intros Hb. unfold gunzip, gunzip_to_writer.
  pose proof (gunzip_loop_sound (S (length gz)) gz 0 0 [] Hb ltac:(lia) ltac:(lia)) as Hs.
  pose proof (fun o => gunzip_loop_complete (S (length gz)) gz 0 0 [] o Hb ltac:(lia) ltac:(lia))
    as Hc.
  rewrite drop_0 in Hs, Hc. split.
  - intros out. split.
    + intros H. destruct Hs as [([out' t] & E & o & -> & Hf & _)|[e E]]; rewrite E in H.
      * rewrite bind_Ok_eq in H. by injection H as <-.
      * discriminate H.
    + intros Hf. destruct (Hc out Hf) as [t ->]. by rewrite bind_Ok_eq.
  - destruct Hs as [([out' t] & -> & _)|[e ->]]; [left|right]; by eexists.
Qed.

(** A member with one fixed block that holds matches. *)
Definition hello_gz : bytes :=
  [31; 139; 8; 0; 0; 0; 0; 0; 2; 3; 203; 72; 205; 201; 201; 87; 200; 64; 39; 1;
   227; 81; 61; 141; 23; 0; 0; 0]%Z.

Lemma gunzip_correct_witness :
  bytes_ok hello_gz /\ gunzip hello_gz = Ok (bstr "hello hello hello hello")
  /\ gzip_file hello_gz (bstr "hello hello hello hello").
Proof.
  assert (bytes_ok hello_gz) as Hb by evaluate.
  assert (gunzip hello_gz = Ok (bstr "hello hello hello hello")) as E by (vm_compute; reflexivity).
  split; [exact Hb|]. split; [exact E|].
  apply (proj1 (gunzip_correct hello_gz Hb)). exact E.
Defined.

(** The decoding table is built for exactly the codes DEFLATE admits --
    lengths up to 15 that are empty, complete, or one single symbol -- and every
    other length sequence is an error; the construction always returns. *)
Theorem huffman_new_exact lengths :
  small lengths ->
  ((exists h, huffman_new lengths = Ok h) <-> valid_code lengths)
  /\ ((exists h, huffman_new lengths = Ok h) \/ exists e, huffman_new lengths = Err e).
Proof.
  intros Hs. destruct (huffman_new_spec lengths Hs) as [(Hv & h & E & _)|(Hv & e & E)].
  - split; [|left; by exists h]. split; [done|by exists h].
  - split; [|right; by exists e]. split; [intros [h E']; rewrite E in E'; discriminate E'|done].
Qed.

Lemma huffman_new_exact_witness :
  small [2; 1; 3; 3] /\ valid_code [2; 1; 3; 3].
Proof.
  assert (small [2; 1; 3; 3]) as Hs by (unfold small; cbn; lia). split; [exact Hs|].
  apply (proj1 (huffman_new_exact [2; 1; 3; 3] Hs)). eexists. vm_compute. reflexivity.
Defined.

(** One lookup in the decoding table is one step of canonical decoding: on
    a code that was accepted, [decode] returns [sym] exactly when the code word
    of [sym] is what the stream starts with (also when the table index is padded
    with zero bits at the end of input), and consumes exactly that word. *)
Theorem huffman_decode_correct lengths h br :
  small lengths -> huffman_new lengths = Ok h -> br_ok br ->
  (forall sym bs', decodes lengths (rem_bits br) sym bs'
     <-> exists br', decode h br = Ok (sym, br') /\ rem_bits br' = bs')
  /\ ((exists r, decode h br = Ok r) \/ exists e, decode h br = Err e).
Proof.
  intros Hs Hh Hok.
  assert (implements lengths h) as Him.
  { destruct (huffman_new_spec lengths Hs) as [(_ & h' & E & Hi)|(_ & e & E)].
    - rewrite Hh in E. by injection E as ->.
    - rewrite Hh in E. discriminate E. }
  split.
  - intros sym bs'. split.
    + intros Hd. destruct (decode_Ok lengths h br Him Hok sym bs' Hd) as (br' & E & _ & _ & Hr).
      by exists br'.
    + intros (br' & E & <-).
      destruct (decode_cases lengths h br Him Hok) as [(s & b & E' & _ & _ & Hd)|[e E']];
        rewrite E in E'; [|discriminate E']. by injection E' as <- <-.
  - destruct (decode_cases lengths h br Him Hok) as [(s & b & E & _)|[e E]];
      [left|right]; by eexists.
Qed.

Lemma huffman_decode_correct_witness :
  exists h, huffman_new [2; 1; 3; 3] = Ok h
  /\ decodes [2; 1; 3; 3] (rem_bits (br_new [3%Z])) 2 [false; false; false; false; false].
Proof.
  eexists. split; [vm_compute; reflexivity|].
  refine (proj2 (proj1 (huffman_decode_correct [2; 1; 3; 3] _ (br_new [3%Z]) _ _ _) 2 _) _).
  - unfold small. cbn. lia.
  - vm_compute. reflexivity.
  - apply br_new_ok. evaluate.
  - eexists. split; vm_compute; reflexivity.
Defined.

(** The table-driven CRC-32 is the bitwise one, on every byte string. *)
Theorem crc32_table_correct d : bytes_ok d -> crc32 d = crc32_bitwise d.
Proof. apply crc32_spec. Qed.

Lemma crc32_table_correct_witness :
  bytes_ok (bstr "123456789") /\ crc32_bitwise (bstr "123456789") = 3421780262%Z.
Proof.
  assert (bytes_ok (bstr "123456789")) as H by evaluate. split; [exact H|].
  rewrite <- (crc32_table_correct _ H). vm_compute. reflexivity.
Defined.

(** The sliding window is enough.  Whatever the sink has flushed, a match
    of any length with a distance DEFLATE can express copies what it would copy
    from the whole output, overlap included, and is refused exactly when it
    reaches before the start of the output; the sink goes on standing for the
    output, its running CRC for what it flushed. *)
Theorem window_suffices pre s o dist len :
  sink_has pre s o -> 0 < dist -> (Z.of_nat dist ≤ WINDOW)%Z ->
  (dist ≤ length o ->
     exists s', copy_back s dist len = Ok s' /\ sink_has pre s' (lz_copy len dist o))
  /\ (length o < dist -> copy_back s dist len = Err BadDistance).
Proof.
  intros Hs Hd Hw. pose proof (copy_back_spec pre s o dist len Hs Hd Hw) as H.
  case_decide; split; intros ?; done || lia.
Qed.

Lemma window_suffices_witness :
  exists s', copy_back (push (push (sink_new []) 1) 2) 2 5 = Ok s'
  /\ sink_has [] s' [1; 2; 1; 2; 1; 2; 1]%Z.
Proof.
  refine (proj1 (window_suffices [] (push (push (sink_new []) 1) 2) [1; 2]%Z 2 5 _ _ _) _).
  - apply (push_has [] _ [1%Z]), (push_has [] _ []), sink_new_has.
  - lia.
  - vm_compute. discriminate.
  - cbn. lia.
Defined.
