(* ===== verification/QrCode.v ===== *)
(** * QR codewords ([src/src/qr.rs], first half)

    The capacity tables and the choice of a version, the byte-mode bit stream
    with its terminator and pads, arithmetic in GF(2^8) by tables, the
    Reed-Solomon remainder, and the interleaving of blocks.  The symbol itself
    is in [QrSymbol]. *)
From S2P Require Import Prelude.

Inductive QrError : Set :=
  | DataTooLong (** data too long for a QR code *)
  | MaskOutOfRange.

#[export] Instance QrError_eq_dec : EqDecision QrError.
Proof. solve_decision. Defined.

Abbreviation res := (result QrError).

Inductive EcLevel : Set := EcL | EcM | EcQ | EcH.

#[export] Instance EcLevel_eq_dec : EqDecision EcLevel.
Proof. solve_decision. Defined.

(** [ec as usize]. *)
Definition ec_index (ec : EcLevel) : nat :=
  match ec with EcL => 0 | EcM => 1 | EcQ => 2 | EcH => 3 end.

(** The two-bit code of the format information. *)
Definition format_bits (ec : EcLevel) : Z :=
  match ec with EcL => 1 | EcM => 0 | EcQ => 3 | EcH => 2 end.

(** Error-correction codewords per block, [L, M, Q, H] by version. *)
Definition EC_BYTES_PER_BLOCK : list (list nat) :=
  [ [7; 10; 13; 17];
    [10; 16; 22; 28];
    [15; 26; 18; 22];
    [20; 18; 26; 16];
    [26; 24; 18; 22];
    [18; 16; 24; 28];
    [20; 18; 18; 26];
    [24; 22; 22; 26];
    [30; 22; 20; 24];
    [18; 26; 24; 28];
    [20; 30; 28; 24];
    [24; 22; 26; 28];
    [26; 22; 24; 22];
    [30; 24; 20; 24];
    [22; 24; 30; 24];
    [24; 28; 24; 30];
    [28; 28; 28; 28];
    [30; 26; 28; 28];
    [28; 26; 26; 26];
    [28; 26; 30; 28];
    [28; 26; 28; 30];
    [28; 28; 30; 24];
    [30; 28; 30; 30];
    [30; 28; 30; 30];
    [26; 28; 30; 30];
    [28; 28; 28; 30];
    [30; 28; 30; 30];
    [30; 28; 30; 30];
    [30; 28; 30; 30];
    [30; 28; 30; 30];
    [30; 28; 30; 30];
    [30; 28; 30; 30];
    [30; 28; 30; 30];
    [30; 28; 30; 30];
    [30; 28; 30; 30];
    [30; 28; 30; 30];
    [30; 28; 30; 30];
    [30; 28; 30; 30];
    [30; 28; 30; 30];
    [30; 28; 30; 30] ].

(** Data blocks as [(size1, count1, size2, count2)], [L, M, Q, H] by version. *)
Definition DATA_BYTES_PER_BLOCK : list (list (nat * nat * nat * nat)) :=
  [ [(19, 1, 0, 0); (16, 1, 0, 0); (13, 1, 0, 0); (9, 1, 0, 0)];
    [(34, 1, 0, 0); (28, 1, 0, 0); (22, 1, 0, 0); (16, 1, 0, 0)];
    [(55, 1, 0, 0); (44, 1, 0, 0); (17, 2, 0, 0); (13, 2, 0, 0)];
    [(80, 1, 0, 0); (32, 2, 0, 0); (24, 2, 0, 0); (9, 4, 0, 0)];
    [(108, 1, 0, 0); (43, 2, 0, 0); (15, 2, 16, 2); (11, 2, 12, 2)];
    [(68, 2, 0, 0); (27, 4, 0, 0); (19, 4, 0, 0); (15, 4, 0, 0)];
    [(78, 2, 0, 0); (31, 4, 0, 0); (14, 2, 15, 4); (13, 4, 14, 1)];
    [(97, 2, 0, 0); (38, 2, 39, 2); (18, 4, 19, 2); (14, 4, 15, 2)];
    [(116, 2, 0, 0); (36, 3, 37, 2); (16, 4, 17, 4); (12, 4, 13, 4)];
    [(68, 2, 69, 2); (43, 4, 44, 1); (19, 6, 20, 2); (15, 6, 16, 2)];
    [(81, 4, 0, 0); (50, 1, 51, 4); (22, 4, 23, 4); (12, 3, 13, 8)];
    [(92, 2, 93, 2); (36, 6, 37, 2); (20, 4, 21, 6); (14, 7, 15, 4)];
    [(107, 4, 0, 0); (37, 8, 38, 1); (20, 8, 21, 4); (11, 12, 12, 4)];
    [(115, 3, 116, 1); (40, 4, 41, 5); (16, 11, 17, 5); (12, 11, 13, 5)];
    [(87, 5, 88, 1); (41, 5, 42, 5); (24, 5, 25, 7); (12, 11, 13, 7)];
    [(98, 5, 99, 1); (45, 7, 46, 3); (19, 15, 20, 2); (15, 3, 16, 13)];
    [(107, 1, 108, 5); (46, 10, 47, 1); (22, 1, 23, 15); (14, 2, 15, 17)];
    [(120, 5, 121, 1); (43, 9, 44, 4); (22, 17, 23, 1); (14, 2, 15, 19)];
    [(113, 3, 114, 4); (44, 3, 45, 11); (21, 17, 22, 4); (13, 9, 14, 16)];
    [(107, 3, 108, 5); (41, 3, 42, 13); (24, 15, 25, 5); (15, 15, 16, 10)];
    [(116, 4, 117, 4); (42, 17, 0, 0); (22, 17, 23, 6); (16, 19, 17, 6)];
    [(111, 2, 112, 7); (46, 17, 0, 0); (24, 7, 25, 16); (13, 34, 0, 0)];
    [(121, 4, 122, 5); (47, 4, 48, 14); (24, 11, 25, 14); (15, 16, 16, 14)];
    [(117, 6, 118, 4); (45, 6, 46, 14); (24, 11, 25, 16); (16, 30, 17, 2)];
    [(106, 8, 107, 4); (47, 8, 48, 13); (24, 7, 25, 22); (15, 22, 16, 13)];
    [(114, 10, 115, 2); (46, 19, 47, 4); (22, 28, 23, 6); (16, 33, 17, 4)];
    [(122, 8, 123, 4); (45, 22, 46, 3); (23, 8, 24, 26); (15, 12, 16, 28)];
    [(117, 3, 118, 10); (45, 3, 46, 23); (24, 4, 25, 31); (15, 11, 16, 31)];
    [(116, 7, 117, 7); (45, 21, 46, 7); (23, 1, 24, 37); (15, 19, 16, 26)];
    [(115, 5, 116, 10); (47, 19, 48, 10); (24, 15, 25, 25); (15, 23, 16, 25)];
    [(115, 13, 116, 3); (46, 2, 47, 29); (24, 42, 25, 1); (15, 23, 16, 28)];
    [(115, 17, 0, 0); (46, 10, 47, 23); (24, 10, 25, 35); (15, 19, 16, 35)];
    [(115, 17, 116, 1); (46, 14, 47, 21); (24, 29, 25, 19); (15, 11, 16, 46)];
    [(115, 13, 116, 6); (46, 14, 47, 23); (24, 44, 25, 7); (16, 59, 17, 1)];
    [(121, 12, 122, 7); (47, 12, 48, 26); (24, 39, 25, 14); (15, 22, 16, 41)];
    [(121, 6, 122, 14); (47, 6, 48, 34); (24, 46, 25, 10); (15, 2, 16, 64)];
    [(122, 17, 123, 4); (46, 29, 47, 14); (24, 49, 25, 10); (15, 24, 16, 46)];
    [(122, 4, 123, 18); (46, 13, 47, 32); (24, 48, 25, 14); (15, 42, 16, 32)];
    [(117, 20, 118, 4); (47, 40, 48, 7); (24, 43, 25, 22); (15, 10, 16, 67)];
    [(118, 19, 119, 6); (47, 18, 48, 31); (24, 34, 25, 34); (15, 20, 16, 61)] ].

(** Alignment pattern centres, for versions 7 to 40. *)
Definition ALIGNMENT_POSITIONS : list (list Z) :=
  [ [6; 22; 38];
    [6; 24; 42];
    [6; 26; 46];
    [6; 28; 50];
    [6; 30; 54];
    [6; 32; 58];
    [6; 34; 62];
    [6; 26; 46; 66];
    [6; 26; 48; 70];
    [6; 26; 50; 74];
    [6; 30; 54; 78];
    [6; 30; 56; 82];
    [6; 30; 58; 86];
    [6; 34; 62; 90];
    [6; 28; 50; 72; 94];
    [6; 26; 50; 74; 98];
    [6; 30; 54; 78; 102];
    [6; 28; 54; 80; 106];
    [6; 32; 58; 84; 110];
    [6; 30; 58; 86; 114];
    [6; 34; 62; 90; 118];
    [6; 26; 50; 74; 98; 122];
    [6; 30; 54; 78; 102; 126];
    [6; 26; 52; 78; 104; 130];
    [6; 30; 56; 82; 108; 134];
    [6; 34; 60; 86; 112; 138];
    [6; 30; 58; 86; 114; 142];
    [6; 34; 62; 90; 118; 146];
    [6; 30; 54; 78; 102; 126; 150];
    [6; 24; 50; 76; 102; 128; 154];
    [6; 28; 54; 80; 106; 132; 158];
    [6; 32; 58; 84; 110; 136; 162];
    [6; 26; 54; 82; 110; 138; 166];
    [6; 30; 58; 86; 114; 142; 170] ]%Z.

(** [TABLE[version - 1][ec as usize]]. *)
Definition by_version {A} (t : list (list A)) (version : nat) (ec : EcLevel) : res A :=
  i ← usize_sub version 1; row ← index t i; index row (ec_index ec).

Definition data_capacity (version : nat) (ec : EcLevel) : res nat :=
  '(s1, c1, s2, c2) ← by_version DATA_BYTES_PER_BLOCK version ec;
  Ok (s1 * c1 + s2 * c2).

Definition count_bits (version : nat) : nat := if decide (version ≤ 9) then 8 else 16.

(** [for version in 1..=40]. *)
Fixpoint choose_version_loop (versions : list nat) (len : nat) (ec : EcLevel) : res nat :=
  match versions with
  | [] => Err DataTooLong
  | version :: versions =>
      let needed_bits := 4 + count_bits version + len * 8 in
      cap ← data_capacity version ec;
      if decide ((needed_bits + 7) `div` 8 ≤ cap) then Ok version
      else choose_version_loop versions len ec
  end.

Definition choose_version (len : nat) (ec : EcLevel) : res nat :=
  choose_version_loop (seq 1 40) len ec.

(** ** Bit assembly *)

Record BitBuf : Set := mkBitBuf { bb_bytes : bytes; bb_bits : nat }.

(** One bit, most significant first. *)
Definition push_bit (buf : BitBuf) (bit : bool) : res BitBuf :=
  let bs := if decide (bb_bits buf `mod` 8 = 0) then bb_bytes buf ++ [0%Z] else bb_bytes buf in
  bs ← (if bit then
          let idx := bb_bits buf `div` 8 in
          b ← index bs idx;
          update bs idx (Z.lor b (Z.shiftr 128 (Z.of_nat (bb_bits buf `mod` 8))))
        else Ok bs);
  Ok (mkBitBuf bs (bb_bits buf + 1)).

(** [for i in (0..width).rev()]. *)
Fixpoint push (buf : BitBuf) (value : Z) (width : nat) : res BitBuf :=
  match width with
  | O => Ok buf
  | S i =>
      buf ← push_bit buf (bool_decide (Z.land (Z.shiftr value (Z.of_nat i)) 1 = 1)%Z);
      push buf value i
  end.

(** [for pad in [0xec, 0x11].into_iter().cycle()]. *)
Fixpoint pad_loop (fuel : nat) (pad next : Z) (capacity : nat) (out : bytes) : res bytes :=
  match fuel with
  | O => Stuck OutOfFuel
  | S fuel =>
      if decide (capacity ≤ length out) then Ok out
      else pad_loop fuel next pad capacity (out ++ [pad])
  end.

Definition encode_data (data : bytes) (version : nat) (ec : EcLevel) : res bytes :=
  capacity ← data_capacity version ec;
  buf ← push (mkBitBuf [] 0) 4 4;
  buf ← push buf (u32 (Z.of_nat (length data))) (count_bits version);
  buf ← for_each data (fun buf b => push buf b 8) buf;
  remaining ← usize_sub (capacity * 8) (bb_bits buf);
  buf ← push buf 0 (remaining `min` 4);
  buf ← (if decide (bb_bits buf `mod` 8 <> 0) then push buf 0 (8 - bb_bits buf `mod` 8) else Ok buf);
  pad_loop (S capacity) 236 17 capacity (bb_bytes buf).

(** ** Reed-Solomon over GF(2^8) *)

(** [for (i, slot) in exp.iter_mut().enumerate()]. *)
Definition gf_tables_step (s : bytes * bytes * Z) (i : nat) : res (bytes * bytes * Z) :=
  let '(exp, log, x) := s in
  exp ← update exp i (u8 x);
  log ← update log (Z.to_nat x) (u8 (Z.of_nat i));
  let x := u16 (Z.shiftl x 1) in
  let x := if decide (Z.land x 256 <> 0)%Z then Z.lxor x 285 else x in
  Ok (exp, log, x).

Definition gf_tables : res (bytes * bytes) :=
  '(exp, log, _) ← for_each (seq 0 256) gf_tables_step
     (replicate 256 0%Z, replicate 256 0%Z, 1%Z);
  log ← update log 1 0%Z;
  Ok (exp, log).

Definition gf_mul (a b : Z) : res Z :=
  if decide (a = 0 \/ b = 0)%Z then Ok 0%Z else
  '(exp, log) ← gf_tables;
  la ← index log (Z.to_nat a);
  lb ← index log (Z.to_nat b);
  index exp ((Z.to_nat la + Z.to_nat lb) `mod` 255).

(** Multiply by [(x - alpha)]: the body of the loop over the coefficients. *)
Definition generator_inner (alpha : Z) (next : bytes) (jc : nat * Z) : res bytes :=
  let '(j, c) := jc in
  n ← index next j;
  next ← update next j (Z.lxor n c);
  n ← index next (j + 1);
  p ← gf_mul c alpha;
  update next (j + 1) (Z.lxor n p).

Definition generator_step (poly : bytes) (i : nat) : res bytes :=
  '(exp, _) ← gf_tables;
  alpha ← index exp (i `mod` 255);
  for_each (enumerate poly) (generator_inner alpha) (replicate (length poly + 1) 0%Z).

Definition generator_poly (degree : nat) : res bytes :=
  for_each (seq 0 degree) generator_step [1%Z].

(** [rem[i] ^= gf_mul(g, factor)]. *)
Definition reduce_step (factor : Z) (rem : bytes) (ig : nat * Z) : res bytes :=
  let '(i, g) := ig in
  p ← gf_mul g factor;
  r ← index rem i;
  update rem i (Z.lxor r p).

Definition ec_step (gen : bytes) (rem : bytes) (byte : Z) : res bytes :=
  r0 ← index rem 0;
  let factor := Z.lxor byte r0 in
  let rem := drop 1 rem ++ [0%Z] in
  for_each (enumerate (drop 1 gen)) (reduce_step factor) rem.

Definition ec_codewords (block : bytes) (ec_len : nat) : res bytes :=
  gen ← generator_poly ec_len;
  for_each block (ec_step gen) (replicate ec_len 0%Z).

(** ** Blocks *)

(** [for _ in 0..count]: cut [count] blocks of [size] bytes. *)
Fixpoint cut_blocks (count size offset : nat) (data : bytes) : res (list bytes * nat) :=
  match count with
  | O => Ok ([], offset)
  | S count =>
      b ← slice data offset (offset + size);
      '(bs, offset) ← cut_blocks count size (offset + size) data;
      Ok (b :: bs, offset)
  end.

(** [blocks.iter().map(..).collect()]. *)
Fixpoint map_ok {A B} (f : A -> res B) (l : list A) : res (list B) :=
  match l with
  | [] => Ok []
  | x :: l => y ← f x; ys ← map_ok f l; Ok (y :: ys)
  end.

Definition interleave (data : bytes) (version : nat) (ec : EcLevel) : res bytes :=
  '(s1, c1, s2, c2) ← by_version DATA_BYTES_PER_BLOCK version ec;
  ec_len ← by_version EC_BYTES_PER_BLOCK version ec;
  '(blocks1, offset) ← cut_blocks c1 s1 0 data;
  '(blocks2, _) ← cut_blocks c2 s2 offset data;
  let blocks := blocks1 ++ blocks2 in
  ecs ← map_ok (fun b => ec_codewords b ec_len) blocks;
  let max_data := max_list_with length blocks in
  out ← for_each (seq 0 max_data) (fun out i =>
          Ok (out ++ omap (fun b => b !! i) blocks)) [];
  for_each (seq 0 ec_len) (fun out i =>
    col ← map_ok (fun e => index e i) ecs; Ok (out ++ col)) out.
