(* ===== verification/QrField.v ===== *)
(** * GF(2^8) and Reed-Solomon: the tables against polynomial arithmetic

    [gf_mul] is multiplication of polynomials over GF(2) modulo
    x^8 + x^4 + x^3 + x^2 + 1; the generator polynomial has the first powers of
    2 as roots; a block followed by its codewords is a multiple of it. *)
From S2P Require Import Prelude QrCode.

Declare Scope gf_scope.
Delimit Scope gf_scope with gf.
Local Open Scope gf_scope.
Infix "⊕" := Z.lxor (at level 50, left associativity) : gf_scope.

(** Times x, modulo the field polynomial. *)
Definition xtime (a : Z) : Z :=
  if Z.testbit a 7 then Z.shiftl a 1 ⊕ 285 else Z.shiftl a 1.

(** The product, by Horner's rule on the bits of [b]. *)
Definition horner (a acc : Z) (bits : list bool) : Z :=
  foldl (fun acc (bit : bool) => xtime acc ⊕ (if bit then a else 0)) acc bits.
Definition gf_times (a b : Z) : Z := horner a 0 (to_bits 8 b).
Infix "⊗" := gf_times (at level 40, left associativity) : gf_scope.

Fixpoint gf_pow (a : Z) (n : nat) : Z :=
  match n with O => 1%Z | S n => gf_pow a n ⊗ a end.

(** The value of a polynomial, highest power first. *)
Definition eval_from (z acc : Z) (p : bytes) : Z := foldl (fun acc c => acc ⊗ z ⊕ c) acc p.
Definition eval (z : Z) (p : bytes) : Z := eval_from z 0 p.

(** ** Field laws

    Both arguments of the product are additive, so a law is checked on the
    powers of x alone. *)

Lemma xor_ok a b : byte_ok a -> byte_ok b -> byte_ok (a ⊕ b).
Proof.
  intros Ha Hb. assert (a ⊕ b = u8 (a ⊕ b)) as ->; [|apply u8_range].
  apply Z.bits_inj'. intros i Hi. unfold u8. rewrite testbit_wrap, Z.lxor_spec by lia.
  case_bool_decide; [done|]. by rewrite !byte_testbit_high by (done || lia).
Qed.

Lemma xtime_ok a : byte_ok a -> byte_ok (xtime a).
Proof.
  revert a. apply (forall_below_dec (fun a => byte_ok (xtime a)) 256). vm_compute. reflexivity.
Qed.

Lemma zero_ok : byte_ok 0.
Proof. by unfold byte_ok. Qed.
Lemma one_ok : byte_ok 1.
Proof. by unfold byte_ok. Qed.
#[local] Hint Resolve xor_ok xtime_ok zero_ok one_ok : gf.
#[local] Hint Resolve Forall_nil_2 Forall_cons_2 : gf.

Lemma horner_ok a acc bits : byte_ok a -> byte_ok acc -> byte_ok (horner a acc bits).
Proof.
  intros Ha. revert acc. induction bits as [|b bits IH]; intros acc Hacc; [done|].
  apply IH. apply xor_ok; [auto with gf|]. destruct b; auto with gf.
Qed.

Lemma times_ok a b : byte_ok a -> byte_ok (a ⊗ b).
Proof. intros Ha. apply horner_ok; auto with gf. Qed.
#[local] Hint Resolve times_ok : gf.

Lemma xor_cancel a b : a ⊕ b ⊕ b = a.
Proof. by rewrite Z.lxor_assoc, Z.lxor_nilpotent, Z.lxor_0_r. Qed.

Lemma xor_swap a b c d : a ⊕ b ⊕ (c ⊕ d) = (a ⊕ c) ⊕ (b ⊕ d).
Proof.
  rewrite !Z.lxor_assoc. f_equal. rewrite <- !Z.lxor_assoc. f_equal. apply Z.lxor_comm.
Qed.

Lemma xtime_xor a b : xtime (a ⊕ b) = xtime a ⊕ xtime b.
Proof.
  unfold xtime. rewrite Z.lxor_spec, Z.shiftl_lxor.
  destruct (Z.testbit a 7), (Z.testbit b 7); cbn [xorb]; apply Z.bits_inj'; intros i Hi;
    rewrite ?Z.lxor_spec; repeat destruct (Z.testbit _ i); done.
Qed.

Lemma horner_xor a a' acc acc' bits :
  horner (a ⊕ a') (acc ⊕ acc') bits = horner a acc bits ⊕ horner a' acc' bits.
Proof.
  revert acc acc'. induction bits as [|b bits IH]; intros acc acc'; [done|].
  unfold horner in *. cbn [foldl]. rewrite <- IH. f_equal. rewrite xtime_xor.
  destruct b; [apply xor_swap|by rewrite !Z.lxor_0_r].
Qed.

Lemma times_xor_l a b c : (a ⊕ b) ⊗ c = a ⊗ c ⊕ b ⊗ c.
Proof. unfold gf_times. rewrite <- horner_xor. by rewrite Z.lxor_0_l. Qed.

Lemma to_bits_xor n a b : to_bits n (a ⊕ b) = zip_with xorb (to_bits n a) (to_bits n b).
Proof.
  induction n as [|n IH]; [done|].
  change (to_bits (S n) ?x) with (Z.testbit x (Z.of_nat n) :: to_bits n x).
  cbn [zip_with]. by rewrite Z.lxor_spec, IH.
Qed.

Lemma horner_xor_bits a acc acc' bits bits' :
  length bits = length bits' ->
  horner a (acc ⊕ acc') (zip_with xorb bits bits') = horner a acc bits ⊕ horner a acc' bits'.
Proof.
  revert acc acc' bits'. induction bits as [|b bits IH]; intros acc acc' [|b' bits'] Hl; try done.
  unfold horner in *. cbn [zip_with foldl]. rewrite <- IH by (cbn in Hl; lia). f_equal.
  rewrite xtime_xor, <- xor_swap. f_equal.
  destruct b, b'; cbn [xorb]; by rewrite ?Z.lxor_nilpotent, ?Z.lxor_0_r, ?Z.lxor_0_l.
Qed.

Lemma times_xor_r a b c : c ⊗ (a ⊕ b) = c ⊗ a ⊕ c ⊗ b.
Proof.
  unfold gf_times. rewrite to_bits_xor, <- horner_xor_bits by by rewrite !length_to_bits.
  by rewrite Z.lxor_0_l.
Qed.

Definition additive (f : Z -> Z) : Prop := forall a b, f (a ⊕ b) = f a ⊕ f b.

(** A byte is a sum of powers of x. *)
Lemma byte_sum a :
  byte_ok a ->
  a = foldr (fun i acc => (if Z.testbit a i then Z.shiftl 1 i else 0) ⊕ acc) 0%Z (seqZ 0 8).
Proof.
  revert a. apply (forall_below_dec (fun a => a = foldr (fun i acc =>
    (if Z.testbit a i then Z.shiftl 1 i else 0) ⊕ acc) 0%Z (seqZ 0 8)) 256).
  vm_compute. reflexivity.
Qed.

Lemma additive_0 f : additive f -> f 0%Z = 0%Z.
Proof.
  intros H. specialize (H 0%Z 0%Z). rewrite Z.lxor_0_l in H.
  rewrite H at 1. apply Z.lxor_nilpotent.
Qed.

Lemma additive_ext f g :
  additive f -> additive g ->
  (forall i, (0 ≤ i < 8)%Z -> f (Z.shiftl 1 i) = g (Z.shiftl 1 i)) ->
  forall a, byte_ok a -> f a = g a.
Proof.
  intros Hf Hg H a Ha. rewrite (byte_sum a Ha). generalize a. intros b.
  assert (Forall (fun i => f (Z.shiftl 1 i) = g (Z.shiftl 1 i)) (seqZ 0 8)) as Hall.
  { apply Forall_forall. intros i Hi%elem_of_seqZ. apply H. lia. }
  induction Hall as [|i l Hi _ IH]; cbn [foldr].
  - by rewrite !additive_0.
  - rewrite Hf, Hg, IH. f_equal. destruct (Z.testbit b i); [done|]. by rewrite !additive_0.
Qed.

Lemma basis_check (P : Z -> Z -> bool) :
  forallb (fun i => forallb (P i) (seqZ 0 8)) (seqZ 0 8) = true ->
  forall i j, (0 ≤ i < 8)%Z -> (0 ≤ j < 8)%Z -> P i j = true.
Proof. exact (forall_below2 P 8 8). Qed.

(** Two functions additive in both arguments that agree on powers of x. *)
Lemma biadditive_ext (f g : Z -> Z -> Z) :
  (forall b, additive (fun a => f a b)) -> (forall b, additive (fun a => g a b)) ->
  (forall a, additive (f a)) -> (forall a, additive (g a)) ->
  forallb (fun i => forallb (fun j =>
    bool_decide (f (Z.shiftl 1 i) (Z.shiftl 1 j) = g (Z.shiftl 1 i) (Z.shiftl 1 j))) (seqZ 0 8))
    (seqZ 0 8) = true ->
  forall a b, byte_ok a -> byte_ok b -> f a b = g a b.
Proof.
  intros Hf1 Hg1 Hf2 Hg2 H a b Ha Hb. revert a Ha.
  apply (additive_ext (fun a => f a b) (fun a => g a b) (Hf1 b) (Hg1 b)).
  intros i Hi. revert b Hb. apply (additive_ext _ _ (Hf2 _) (Hg2 _)).
  intros j Hj. exact (bool_decide_eq_true_1 _ (basis_check _ H i j Hi Hj)).
Qed.

Lemma times_comm a b : byte_ok a -> byte_ok b -> a ⊗ b = b ⊗ a.
Proof.
  revert a b. apply (biadditive_ext gf_times (fun a b => b ⊗ a)); [..|vm_compute; reflexivity].
  - intros c a b. apply times_xor_l.
  - intros c a b. apply times_xor_r.
  - intros c a b. apply times_xor_r.
  - intros c a b. apply times_xor_l.
Qed.

Lemma times_xtime a b : byte_ok a -> byte_ok b -> a ⊗ xtime b = xtime (a ⊗ b).
Proof.
  revert a b. apply (biadditive_ext (fun a b => a ⊗ xtime b) (fun a b => xtime (a ⊗ b)));
    [..|vm_compute; reflexivity]; intros c a b.
  - apply times_xor_l.
  - cbv beta. by rewrite times_xor_l, xtime_xor.
  - cbv beta. by rewrite xtime_xor, times_xor_r.
  - cbv beta. by rewrite times_xor_r, xtime_xor.
Qed.

Lemma times_0_l a : 0 ⊗ a = 0%Z.
Proof. apply (additive_0 (fun b => b ⊗ a)). intros b c. apply times_xor_l. Qed.

Lemma times_0_r a : a ⊗ 0 = 0%Z.
Proof. apply (additive_0 (gf_times a)). intros b c. apply times_xor_r. Qed.

Lemma times_1_r a : byte_ok a -> a ⊗ 1 = a.
Proof.
  revert a. apply (forall_below_dec (fun a => a ⊗ 1 = a) 256). vm_compute. reflexivity.
Qed.

Lemma horner_times a b acc bits :
  byte_ok a -> byte_ok b -> byte_ok acc ->
  horner (a ⊗ b) (a ⊗ acc) bits = a ⊗ horner b acc bits.
Proof.
  intros Ha Hb. revert acc. induction bits as [|bit bits IH]; intros acc Hacc; [done|].
  unfold horner in *. cbn [foldl].
  assert (byte_ok (if bit then b else 0%Z)) by (destruct bit; auto with gf).
  rewrite <- IH by auto with gf. f_equal.
  rewrite times_xor_r, times_xtime by auto with gf. f_equal.
  destruct bit; [done|]. by rewrite times_0_r.
Qed.

Lemma times_assoc a b c : byte_ok a -> byte_ok b -> a ⊗ b ⊗ c = a ⊗ (b ⊗ c).
Proof.
  intros Ha Hb. change (b ⊗ c) with (horner b 0 (to_bits 8 c)).
  rewrite <- horner_times by auto with gf. by rewrite times_0_r.
Qed.

(** ** The tables compute the product *)

Definition tables : bytes * bytes :=
  Eval vm_compute in match gf_tables with Ok t => t | _ => ([], []) end.

Lemma gf_tables_value : gf_tables = Ok tables.
Proof. vm_compute. reflexivity. Qed.

Lemma gf_pow_ok a n : byte_ok a -> byte_ok (gf_pow a n).
Proof. intros Ha. induction n; cbn [gf_pow]; auto with gf. Qed.

Lemma gf_pow_add a i j : byte_ok a -> gf_pow a (i + j) = gf_pow a i ⊗ gf_pow a j.
Proof.
  intros Ha. pose proof (gf_pow_ok a i Ha). induction j as [|j IH].
  - cbn [gf_pow]. by rewrite Nat.add_0_r, times_1_r.
  - rewrite Nat.add_succ_r. cbn [gf_pow]. pose proof (gf_pow_ok a j Ha).
    by rewrite IH, times_assoc.
Qed.

(** The powers of 2, listed by repeated doubling. *)
Fixpoint powers (n : nat) (x : Z) : bytes :=
  match n with O => [] | S n => x :: powers n (xtime x) end.

Lemma times_2 x : byte_ok x -> x ⊗ 2 = xtime x.
Proof. revert x. apply (forall_below_dec (fun x => x ⊗ 2 = xtime x) 256). vm_compute. reflexivity. Qed.

Lemma powers_lookup n i j :
  j < n -> powers n (gf_pow 2 i) !! j = Some (gf_pow 2 (i + j)).
Proof.
  revert i j. induction n as [|n IH]; intros i [|j] Hj; try lia; cbn [powers lookup list_lookup].
  - by rewrite Nat.add_0_r.
  - rewrite <- times_2 by (apply gf_pow_ok; done).
    change (gf_pow 2 i ⊗ 2) with (gf_pow 2 (S i)). etrans; [apply (IH (S i) j); lia|].
    do 2 f_equal. lia.
Qed.

Lemma exp_lookup i : i < 255 -> fst tables !! i = Some (gf_pow 2 i).
Proof.
  intros Hi. assert (fst tables = powers 256 1) as -> by (vm_compute; reflexivity).
  apply (powers_lookup 256 0 i). lia.
Qed.

Lemma pow_255 : gf_pow 2 255 = 1%Z.
Proof.
  pose proof (powers_lookup 256 0 255 ltac:(lia)) as H. cbn [Nat.add] in H.
  assert (powers 256 1 !! 255 = Some 1%Z) as H1 by (vm_compute; reflexivity).
  change (gf_pow 2 0) with 1%Z in H. rewrite H1 in H. exact (eq_sym (Some_inj _ _ H)).
Qed.

Lemma pow_mod n : gf_pow 2 (n `mod` 255) = gf_pow 2 n.
Proof.
  rewrite (Nat.div_mod_eq n 255) at 2. generalize (n `div` 255), (n `mod` 255). intros q r.
  induction q as [|q IH]; [by rewrite Nat.mul_0_r|].
  replace (255 * S q + r) with (255 + (255 * q + r)) by lia.
  rewrite gf_pow_add, pow_255, times_comm, times_1_r by (done || by apply gf_pow_ok). exact IH.
Qed.

(** The logarithm of a nonzero byte. *)
Lemma log_spec a :
  byte_ok a -> a <> 0%Z ->
  exists l, snd tables !! Z.to_nat a = Some l /\ byte_ok l /\ Z.to_nat l < 255
    /\ gf_pow 2 (Z.to_nat l) = a.
Proof.
  intros Ha H0.
  assert (forall a, (0 ≤ a < Z.of_nat 256)%Z -> a <> 0%Z ->
    match snd tables !! Z.to_nat a with
    | Some l => byte_ok l /\ Z.to_nat l < 255 /\ fst tables !! Z.to_nat l = Some a
    | None => False end) as H.
  { intros b Hb Hne. assert (bool_decide (b = 0%Z) || match snd tables !! Z.to_nat b with
      | Some l => bool_decide (byte_ok l /\ Z.to_nat l < 255 /\ fst tables !! Z.to_nat l = Some b)
      | None => false end = true) as Hc.
    { revert b Hb Hne. intros b Hb _. revert b Hb. apply (forall_below _ 256). vm_compute. reflexivity. }
    rewrite bool_decide_false in Hc by done. cbn [orb] in Hc.
    destruct (snd tables !! Z.to_nat b); [by apply bool_decide_eq_true_1 in Hc|done]. }
  specialize (H a Ha H0). destruct (snd tables !! Z.to_nat a) as [l|]; [|done].
  destruct H as (Hl & Hlt & He). exists l. rewrite exp_lookup in He by done.
  apply Some_inj in He. done.
Qed.

Lemma gf_mul_times a b : byte_ok a -> byte_ok b -> gf_mul a b = Ok (a ⊗ b).
Proof.
  intros Ha Hb. unfold gf_mul. case_decide as H0.
  - destruct H0 as [-> | ->]; [by rewrite times_0_l|by rewrite times_0_r].
  - rewrite gf_tables_value, bind_Ok_eq.
    destruct (log_spec a Ha ltac:(tauto)) as (la & Ela & _ & _ & Ea).
    destruct (log_spec b Hb ltac:(tauto)) as (lb & Elb & _ & _ & Eb).
    assert (tables = (fst tables, snd tables)) as -> by done.
    rewrite (index_Some _ _ _ Ela), bind_Ok_eq, (index_Some _ _ _ Elb), bind_Ok_eq.
    set (n := Z.to_nat la + Z.to_nat lb). pose proof (Nat.mod_upper_bound n 255 ltac:(done)) as Hn.
    rewrite (index_Some _ _ _ (exp_lookup _ Hn)), pow_mod. unfold n.
    rewrite gf_pow_add by done. by rewrite Ea, Eb.
Qed.

(** The unifier must not evaluate products of unknown bytes. *)
#[global] Arguments gf_times : simpl never.
#[global] Opaque gf_times.

(** ** Values of polynomials *)

Lemma eval_from_ok z acc p :
  byte_ok z -> byte_ok acc -> bytes_ok p -> byte_ok (eval_from z acc p).
Proof.
  intros Hz Hacc Hp. revert acc Hacc. induction Hp as [|c p Hc _ IH]; intros acc Hacc; [done|].
  apply IH. auto with gf.
Qed.

Lemma eval_ok z p : byte_ok z -> bytes_ok p -> byte_ok (eval z p).
Proof. intros Hz Hp. exact (eval_from_ok z 0 p Hz zero_ok Hp). Qed.

(** What comes before is shifted up. *)
Lemma eval_from_spec z acc p :
  byte_ok z -> byte_ok acc -> bytes_ok p ->
  eval_from z acc p = acc ⊗ gf_pow z (length p) ⊕ eval z p.
Proof.
  intros Hz Hacc Hp. revert acc Hacc. induction Hp as [|c p Hc Hp IH]; intros acc Hacc.
  - change (eval_from z acc []) with acc. change (eval z []) with 0%Z. cbn [length gf_pow].
    by rewrite times_1_r, Z.lxor_0_r.
  - change (eval_from z acc (c :: p)) with (eval_from z (acc ⊗ z ⊕ c) p).
    change (eval z (c :: p)) with (eval_from z (0 ⊗ z ⊕ c) p).
    pose proof (gf_pow_ok z (length p) Hz).
    rewrite !IH by auto with gf. rewrite times_0_l, Z.lxor_0_l, times_xor_l.
    rewrite Z.lxor_assoc. f_equal. cbn [length gf_pow].
    by rewrite (times_comm (gf_pow z (length p)) z), times_assoc by done.
Qed.

Lemma eval_app z p q :
  byte_ok z -> bytes_ok p -> bytes_ok q ->
  eval z (p ++ q) = eval z p ⊗ gf_pow z (length q) ⊕ eval z q.
Proof.
  intros Hz Hp Hq. unfold eval at 1, eval_from at 1. rewrite foldl_app.
  apply eval_from_spec; [done| |done]. by apply eval_ok.
Qed.

Lemma eval_cons z c p :
  byte_ok z -> byte_ok c -> bytes_ok p ->
  eval z (c :: p) = c ⊗ gf_pow z (length p) ⊕ eval z p.
Proof.
  intros Hz Hc Hp. change (c :: p) with ([c] ++ p). rewrite eval_app by auto with gf.
  change (eval z [c]) with (0 ⊗ z ⊕ c). by rewrite times_0_l, Z.lxor_0_l.
Qed.

Lemma eval_snoc z p c :
  byte_ok z -> byte_ok c -> bytes_ok p -> eval z (p ++ [c]) = eval z p ⊗ z ⊕ c.
Proof.
  intros Hz Hc Hp. rewrite eval_app by auto with gf. cbn [length gf_pow].
  change (eval z [c]) with (0 ⊗ z ⊕ c). rewrite times_0_l, Z.lxor_0_l. f_equal. f_equal.
  rewrite times_comm by auto with gf. by apply times_1_r.
Qed.

Lemma eval_from_xor z a b p q :
  length p = length q ->
  eval_from z (a ⊕ b) (zip_with Z.lxor p q) = eval_from z a p ⊕ eval_from z b q.
Proof.
  revert a b q. induction p as [|c p IH]; intros a b [|d q] Hl; try done.
  unfold eval_from in *. cbn [zip_with foldl]. rewrite <- IH by (cbn in Hl; lia). f_equal.
  rewrite times_xor_l. apply xor_swap.
Qed.

Lemma eval_xor z p q :
  length p = length q -> eval z (zip_with Z.lxor p q) = eval z p ⊕ eval z q.
Proof. intros Hl. unfold eval. by rewrite <- eval_from_xor. Qed.

(** The coefficients times [a]. *)
Definition scale (a : Z) (p : bytes) : bytes := (fun c => c ⊗ a) <$> p.

Lemma scale_ok a p : byte_ok a -> bytes_ok p -> bytes_ok (scale a p).
Proof. intros Ha Hp. apply Forall_fmap. eapply Forall_impl; [exact Hp|]. cbn. auto with gf. Qed.

Lemma length_scale a p : length (scale a p) = length p.
Proof. apply length_fmap. Qed.

Lemma eval_from_scale z a acc p :
  byte_ok z -> byte_ok a -> byte_ok acc -> bytes_ok p ->
  eval_from z (acc ⊗ a) (scale a p) = eval_from z acc p ⊗ a.
Proof.
  intros Hz Ha Hacc Hp. revert acc Hacc. induction Hp as [|c p Hc _ IH]; intros acc Hacc; [done|].
  change (scale a (c :: p)) with (c ⊗ a :: scale a p). unfold eval_from in *. cbn [foldl].
  rewrite <- IH by auto with gf. f_equal. rewrite times_xor_l. f_equal.
  rewrite !times_assoc by done. f_equal. by apply times_comm.
Qed.

Lemma eval_scale z a p :
  byte_ok z -> byte_ok a -> bytes_ok p -> eval z (scale a p) = eval z p ⊗ a.
Proof.
  intros. unfold eval. rewrite <- eval_from_scale by auto with gf. by rewrite times_0_l.
Qed.

Lemma zip_xor_ok p q : bytes_ok p -> bytes_ok q -> bytes_ok (zip_with Z.lxor p q).
Proof.
  intros Hp. revert q. induction Hp as [|c p Hc _ IH]; intros [|d q] Hq; cbn; [done..|].
  apply Forall_cons in Hq as [Hd Hq]. constructor; auto with gf.
Qed.

(** ** The generator polynomial *)

Lemma generator_inner_step alpha pre x r c :
  byte_ok alpha -> byte_ok c ->
  generator_inner alpha (pre ++ x :: 0%Z :: r) (length pre, c)
  = Ok ((pre ++ [x ⊕ c]) ++ c ⊗ alpha :: r).
Proof.
  intros Ha Hc. unfold generator_inner.
  rewrite (index_Some _ (length pre) x) by by apply list_lookup_middle.
  rewrite bind_Ok_eq, update_ok by (rewrite length_app; cbn; lia). rewrite bind_Ok_eq.
  rewrite insert_app_r_alt, Nat.sub_diag by lia. cbn [insert list_insert].
  rewrite (index_Some _ (length pre + 1) 0%Z).
  2:{ rewrite cons_middle, app_assoc. apply list_lookup_middle. rewrite length_app. cbn. lia. }
  rewrite bind_Ok_eq, gf_mul_times by done. rewrite bind_Ok_eq, update_ok
    by (rewrite length_app; cbn; lia).
  rewrite insert_app_r_alt by lia. replace (length pre + 1 - length pre) with 1 by lia.
  cbn [insert list_insert]. by rewrite Z.lxor_0_l, <- app_assoc.
Qed.

Lemma generator_inner_spec alpha pre x cs :
  byte_ok alpha -> bytes_ok cs ->
  for_each (enumerate_from (length pre) cs) (generator_inner alpha)
    (pre ++ x :: replicate (length cs) 0%Z)
  = Ok (pre ++ zip_with Z.lxor (x :: scale alpha cs) (cs ++ [0%Z])).
Proof.
  intros Ha Hcs. revert pre x. induction Hcs as [|c cs Hc _ IH]; intros pre x.
  - cbn. by rewrite Z.lxor_0_r.
  - unfold enumerate_from. cbn [length seq zip zip_with for_each replicate].
    rewrite generator_inner_step by done. rewrite bind_Ok_eq.
    specialize (IH (pre ++ [x ⊕ c]) (c ⊗ alpha)). rewrite length_app, Nat.add_1_r in IH.
    unfold enumerate_from in IH. etrans; [exact IH|]. by rewrite <- app_assoc.
Qed.

Lemma exp_table i : i < 255 ->
  index (E := QrError) (fst tables) (i `mod` 255) = Ok (gf_pow 2 i) /\ byte_ok (gf_pow 2 i).
Proof.
  intros Hi. split; [|by apply gf_pow_ok]. rewrite Nat.mod_small by done.
  apply index_Some. by apply exp_lookup.
Qed.

(** One more root. *)
Definition add_root (alpha : Z) (p : bytes) : bytes :=
  zip_with Z.lxor (0%Z :: scale alpha p) (p ++ [0%Z]).

Lemma generator_step_spec p i :
  bytes_ok p -> i < 255 -> generator_step p i = Ok (add_root (gf_pow 2 i) p).
Proof.
  intros Hp Hi. unfold generator_step. rewrite gf_tables_value, bind_Ok_eq.
  destruct (exp_table i Hi) as [E Ha]. cbn [fst tables] in E.
  unfold tables at 1. rewrite E, bind_Ok_eq.
  pose proof (generator_inner_spec (gf_pow 2 i) [] 0 p Ha Hp) as Hg. cbn [app length] in Hg.
  unfold enumerate. rewrite Nat.add_1_r. exact Hg.
Qed.

(** Monic of degree [k], with the first [k] powers of 2 as roots. *)
Definition is_generator (k : nat) (p : bytes) : Prop :=
  length p = S k /\ bytes_ok p /\ p !! 0 = Some 1%Z
  /\ forall i, i < k -> eval (gf_pow 2 i) p = 0%Z.

Lemma add_root_spec k p :
  is_generator k p -> is_generator (S k) (add_root (gf_pow 2 k) p).
Proof.
  intros (Hl & Hp & H0 & Hr). pose proof (gf_pow_ok 2 k ltac:(done)) as Ha. unfold add_root.
  pose proof (scale_ok _ _ Ha Hp) as Hs. split_and!.
  - rewrite length_zip_with. cbn [length]. rewrite length_scale, length_app. cbn [length]. lia.
  - apply zip_xor_ok; [auto with gf|apply Forall_app; auto with gf].
  - destruct p as [|c p]; [done|]. cbn in H0 |- *. injection H0 as ->. done.
  - intros i Hi. pose proof (gf_pow_ok 2 i ltac:(done)) as Hb.
    rewrite eval_xor by (cbn; rewrite length_scale, length_app; cbn; lia).
    rewrite eval_cons, times_0_l, Z.lxor_0_l, eval_scale, eval_snoc, Z.lxor_0_r
      by auto with gf.
    pose proof (eval_ok _ _ Hb Hp). destruct (decide (i = k)) as [->|].
    + apply Z.lxor_nilpotent.
    + rewrite Hr by lia. by rewrite !times_0_l.
Qed.

Lemma generator_poly_spec k :
  k ≤ 255 -> exists g, generator_poly k = Ok g /\ is_generator k g.
Proof.
  intros Hk. unfold generator_poly. induction k as [|k IH].
  - exists [1%Z]. split; [done|]. split_and!; [done|auto with gf|done|lia].
  - destruct IH as (g & E & Hg); [lia|]. rewrite seq_S, for_each_app, E, bind_Ok_eq.
    cbn [for_each Nat.add]. pose proof Hg as (_ & Hb & _).
    rewrite generator_step_spec by (done || lia). rewrite bind_Ok_eq.
    eexists. split; [done|]. by apply add_root_spec.
Qed.

(** ** The remainder *)

Lemma reduce_step_spec f pre rem gs :
  byte_ok f -> bytes_ok gs -> length rem = length gs ->
  for_each (enumerate_from (length pre) gs) (reduce_step f) (pre ++ rem)
  = Ok (pre ++ zip_with Z.lxor rem (scale f gs)).
Proof.
  intros Hf Hgs. revert pre rem. induction Hgs as [|g gs Hg _ IH]; intros pre [|r rem] Hl; try done.
  unfold enumerate_from. cbn [length seq zip zip_with for_each].
  unfold reduce_step at 2. rewrite gf_mul_times by done. rewrite bind_Ok_eq.
  rewrite (index_Some _ (length pre) r) by by apply list_lookup_middle.
  rewrite bind_Ok_eq, update_ok by (rewrite length_app; cbn; lia). rewrite bind_Ok_eq.
  rewrite insert_app_r_alt, Nat.sub_diag by lia. cbn [insert list_insert].
  specialize (IH (pre ++ [r ⊕ g ⊗ f]) rem ltac:(cbn in Hl; lia)).
  rewrite length_app, Nat.add_1_r, <- app_assoc in IH. cbn [app] in IH.
  unfold enumerate_from in IH. etrans; [exact IH|]. by rewrite <- app_assoc.
Qed.

(** One step of long division. *)
Definition divide_step (gs rem : bytes) (byte : Z) : bytes :=
  zip_with Z.lxor (drop 1 rem ++ [0%Z]) (scale (byte ⊕ rem !!! 0) gs).

Lemma xor_rearrange a b f r : a ⊕ b ⊕ (f ⊕ (b ⊕ r)) = a ⊕ (r ⊕ f).
Proof.
  apply Z.bits_inj'. intros i _. rewrite !Z.lxor_spec.
  by destruct (Z.testbit a i), (Z.testbit b i), (Z.testbit f i), (Z.testbit r i).
Qed.

(** (e z + b) w + (f z + w (b + r)) = z (e w + r z^k + f), where w = z^k z. *)
Lemma step_algebra z zk w e f r b :
  byte_ok z -> byte_ok zk -> byte_ok e -> byte_ok f -> byte_ok r -> byte_ok b ->
  w = zk ⊗ z -> e ⊗ w ⊕ (r ⊗ zk ⊕ f) = 0%Z ->
  (e ⊗ z ⊕ b) ⊗ w ⊕ (f ⊗ z ⊕ w ⊗ (b ⊕ r)) = 0%Z.
Proof.
  intros Hz Hk He Hf Hr Hb Ew H0. assert (byte_ok w) as Hw by (subst w; auto with gf).
  assert ((e ⊗ w ⊕ (r ⊗ zk ⊕ f)) ⊗ z = 0%Z) as Hmul by (rewrite H0; apply times_0_l).
  rewrite !times_xor_l in Hmul. rewrite times_xor_l, times_xor_r by auto with gf.
  rewrite (times_assoc r zk z), <- Ew in Hmul by done.
  rewrite (times_assoc e w z), (times_comm w z), <- (times_assoc e z w) in Hmul by done.
  rewrite (times_comm w b), (times_comm w r) by done. rewrite <- Hmul.
  apply xor_rearrange.
Qed.

Section division.
Context (k : nat) (g : bytes).
Hypothesis (Hg : is_generator (S k) g).

Definition remainder_ok (rem : bytes) : Prop := length rem = S k /\ bytes_ok rem.

Lemma ec_step_spec rem byte :
  remainder_ok rem -> byte_ok byte ->
  ec_step g rem byte = Ok (divide_step (drop 1 g) rem byte)
  /\ remainder_ok (divide_step (drop 1 g) rem byte).
Proof.
  intros [Hl Hr] Hb. destruct Hg as (Hgl & Hgb & _). destruct rem as [|r rem]; [done|].
  apply Forall_cons in Hr as [Hr0 Hr]. cbn in Hl.
  assert (byte_ok (byte ⊕ r)) as Hf by auto with gf.
  assert (bytes_ok (drop 1 g)) as Hg1 by by apply Forall_drop.
  assert (length (rem ++ [0%Z]) = length (drop 1 g)) as Hlen
    by (rewrite length_drop, length_app; cbn [length]; lia).
  split.
  - unfold ec_step, divide_step. change (index (r :: rem) 0) with (Ok (E := QrError) r).
    rewrite bind_Ok_eq. change (drop 1 (r :: rem)) with rem; change ((r :: rem) !!! 0) with r.
    exact (reduce_step_spec _ [] _ _ Hf Hg1 Hlen).
  - unfold divide_step. change (drop 1 (r :: rem)) with rem; change ((r :: rem) !!! 0) with r. split.
    + rewrite length_zip_with, length_scale, <- Hlen, Nat.min_id, length_app. cbn [length]. lia.
    + apply zip_xor_ok; [apply Forall_app; auto with gf|by apply scale_ok].
Qed.

(** At a root the leading term of the generator is the sum of the others. *)
Lemma generator_tail i :
  i < S k -> eval (gf_pow 2 i) (drop 1 g) = gf_pow (gf_pow 2 i) (S k).
Proof.
  intros Hi. destruct Hg as (Hgl & Hgb & H1 & Hroot). destruct g as [|c gs]; [done|].
  injection H1 as ->. cbn [drop]. apply Forall_cons in Hgb as [_ Hgb]. cbn in Hgl.
  specialize (Hroot i Hi). pose proof (gf_pow_ok 2 i ltac:(done)) as Hb.
  rewrite eval_cons in Hroot by auto with gf. replace (length gs) with (S k) in Hroot by lia.
  pose proof (gf_pow_ok _ (S k) Hb). rewrite times_comm, times_1_r in Hroot by auto with gf.
  symmetry. by apply Z.lxor_eq.
Qed.

(** The division keeps [z^n * prefix + remainder] zero at the roots. *)
Lemma divide_step_eval i prefix rem byte :
  i < S k -> remainder_ok rem -> byte_ok byte -> bytes_ok prefix ->
  eval (gf_pow 2 i) (prefix ++ rem) = 0%Z ->
  eval (gf_pow 2 i) ((prefix ++ [byte]) ++ divide_step (drop 1 g) rem byte) = 0%Z.
Proof.
  intros Hi Hrem Hb Hp H0. pose proof (gf_pow_ok 2 i ltac:(done)) as Hz.
  destruct (ec_step_spec rem byte Hrem Hb) as [_ [Hl' Hr']].
  pose proof (generator_tail i Hi) as Ht.
  set (z := gf_pow 2 i) in *. destruct Hrem as [Hl Hr]. destruct Hg as (Hgl & Hgb & _).
  rewrite eval_app in H0 |- * by (rewrite ?Forall_app; auto with gf).
  rewrite Hl', Hl in *. rewrite eval_snoc by done.
  destruct rem as [|r rem]; [done|]. apply Forall_cons in Hr as [Hr0 Hr]. cbn in Hl.
  assert (bytes_ok (drop 1 g)) as Hg1 by by apply Forall_drop.
  unfold divide_step. change (drop 1 (r :: rem)) with rem; change ((r :: rem) !!! 0) with r.
  rewrite eval_xor by (rewrite length_scale, length_drop, length_app; cbn [length]; lia).
  rewrite eval_scale, eval_snoc, Ht, Z.lxor_0_r by auto with gf.
  rewrite eval_cons in H0 by done. replace (length rem) with k in H0 by lia.
  rewrite (step_algebra z (gf_pow z k) (gf_pow z (S k)) (eval z prefix) (eval z rem) r byte);
    auto using gf_pow_ok, eval_ok.
Qed.

Lemma division_eval prefix rem block :
  remainder_ok rem -> bytes_ok block -> bytes_ok prefix ->
  (forall i, i < S k -> eval (gf_pow 2 i) (prefix ++ rem) = 0%Z) ->
  exists rem', for_each block (ec_step g) rem = Ok rem' /\ remainder_ok rem'
    /\ forall i, i < S k -> eval (gf_pow 2 i) ((prefix ++ block) ++ rem') = 0%Z.
Proof.
  intros Hrem Hblock. revert prefix rem Hrem.
  induction Hblock as [|b block Hb _ IH]; intros prefix rem Hrem Hp H0.
  - exists rem. by rewrite app_nil_r.
  - cbn [for_each]. destruct (ec_step_spec rem b Hrem Hb) as [-> Hrem']. rewrite bind_Ok_eq.
    destruct (IH (prefix ++ [b]) _ Hrem') as (rem' & E & Hr & H').
    + apply Forall_app. auto with gf.
    + intros i Hi. apply divide_step_eval; auto.
    + exists rem'. split; [done|]. split; [done|]. intros i Hi.
      specialize (H' i Hi). rewrite (cons_middle b prefix block), (app_assoc prefix). exact H'.
Qed.
End division.

(** The syndromes of a block with its codewords. *)
Definition syndromes_zero (n : nat) (word : bytes) : Prop :=
  forall i, i < n -> eval (gf_pow 2 i) word = 0%Z.

Lemma eval_zeros z n : eval z (replicate n 0%Z) = 0%Z.
Proof.
  assert (forall n, eval_from z 0 (replicate n 0%Z) = 0%Z) as H; [|apply H].
  clear n. intros n. induction n as [|n IH]; [done|].
  unfold eval_from in *. cbn [replicate foldl]. by rewrite times_0_l, Z.lxor_0_l.
Qed.

Lemma ec_codewords_spec block n :
  bytes_ok block -> 1 ≤ n ≤ 255 ->
  exists ecw, ec_codewords block n = Ok ecw /\ length ecw = n /\ bytes_ok ecw
    /\ syndromes_zero n (block ++ ecw).
Proof.
  intros Hb Hn. destruct (generator_poly_spec n) as (g & Eg & Hg); [lia|].
  destruct n as [|k]; [lia|]. unfold ec_codewords. rewrite Eg, bind_Ok_eq.
  destruct (division_eval k g Hg [] (replicate (S k) 0%Z) block) as (rem & E & [Hl Hr] & Hs).
  - split; [apply length_replicate|]. apply Forall_replicate. apply zero_ok.
  - done.
  - done.
  - intros i Hi. apply eval_zeros.
  - exists rem. by split_and!.
Qed.
