(* ===== verification/QrBlocks.v ===== *)
(** * QR codewords: what [encode_data] and [interleave] produce

    The reader's side of the codeword layer -- parse the byte-mode segment, undo
    the interleaving, check the syndromes -- and the proof that it recovers the
    data, with the choice of the version. *)
From S2P Require Import Prelude QrCode QrField.

(** ** Bits, most significant first *)

Definition msb_bits (d : bytes) : list bool := d ≫= to_bits 8.

Lemma length_msb_bits d : length (msb_bits d) = 8 * length d.
Proof.
  induction d as [|b d IH]; [done|]. unfold msb_bits in *.
  rewrite bind_cons, length_app, IH, length_to_bits. cbn. lia.
Qed.

Lemma msb_bits_app d1 d2 : msb_bits (d1 ++ d2) = msb_bits d1 ++ msb_bits d2.
Proof. apply bind_app. Qed.

(** [n] bytes from the front of a bit string. *)
Fixpoint unpack (n : nat) (bits : list bool) : bytes :=
  match n with O => [] | S n => of_bits (take 8 bits) :: unpack n (drop 8 bits) end.

Lemma unpack_msb d rest : bytes_ok d -> unpack (length d) (msb_bits d ++ rest) = d.
Proof.
  induction 1 as [|b d Hb _ IH]; [done|]. cbn [length unpack]. unfold msb_bits in *.
  rewrite bind_cons, <- app_assoc.
  rewrite take_app_length' by (by rewrite length_to_bits).
  rewrite drop_app_length' by (by rewrite length_to_bits). rewrite IH, of_to_bits.
  f_equal. by apply u8_small.
Qed.

(** ** The bit buffer *)

Definition buf_has (buf : BitBuf) (l : list bool) : Prop :=
  bb_bits buf = length l /\ bytes_ok (bb_bytes buf)
  /\ exists k, k < 8 /\ msb_bits (bb_bytes buf) = l ++ replicate k false.

Lemma set_bit_byte b r :
  byte_ok b -> r < 8 ->
  byte_ok (Z.lor b (Z.shiftr 128 (Z.of_nat r)))
  /\ to_bits 8 (Z.lor b (Z.shiftr 128 (Z.of_nat r))) = <[r := true]> (to_bits 8 b).
Proof.
  intros Hb Hr.
  assert (forall b r, (0 ≤ b < Z.of_nat 256)%Z -> (0 ≤ r < Z.of_nat 8)%Z ->
    bool_decide (byte_ok (Z.lor b (Z.shiftr 128 r))
      /\ to_bits 8 (Z.lor b (Z.shiftr 128 r)) = <[Z.to_nat r := true]> (to_bits 8 b)) = true) as H.
  { apply forall_below2. vm_compute. reflexivity. }
  specialize (H b (Z.of_nat r) Hb ltac:(lia)). apply bool_decide_eq_true_1 in H.
  by rewrite Nat2Z.id in H.
Qed.

Lemma set_bit bs i b r :
  bytes_ok bs -> bs !! i = Some b -> r < 8 ->
  bytes_ok (<[i := Z.lor b (Z.shiftr 128 (Z.of_nat r))]> bs)
  /\ msb_bits (<[i := Z.lor b (Z.shiftr 128 (Z.of_nat r))]> bs)
     = <[8 * i + r := true]> (msb_bits bs).
Proof.
  intros Hbs Hi Hr. pose proof (Forall_lookup_1 _ _ _ _ Hbs Hi) as Hb.
  destruct (set_bit_byte b r Hb Hr) as [Hok E]. split; [by apply Forall_insert|].
  pose proof (take_drop_middle _ _ _ Hi) as Hm. pose proof (lookup_lt_Some _ _ _ Hi) as Hlt.
  assert (length (take i bs) = i) as Hti by (rewrite length_take; lia).
  assert (bs = take i bs ++ b :: drop (S i) bs) as Hsplit by done.
  rewrite Hsplit at 1 2. rewrite insert_app_r_alt by lia. rewrite Hti, Nat.sub_diag.
  cbn [insert list_insert]. rewrite !msb_bits_app. unfold msb_bits at 2 4.
  rewrite !bind_cons, E.
  rewrite insert_app_r_alt by (rewrite length_msb_bits; lia). f_equal.
  rewrite length_msb_bits, Hti. replace (8 * i + r - 8 * i) with r by lia.
  by rewrite insert_app_l by (rewrite length_to_bits; lia).
Qed.

Lemma push_bit_spec buf l bit :
  buf_has buf l -> exists buf', push_bit buf bit = Ok buf' /\ buf_has buf' (l ++ [bit]).
Proof.
  intros (Hn & Hb & k & Hk & Hm). unfold push_bit. rewrite Hn.
  assert (8 * length (bb_bytes buf) = length l + k) as Hlen.
  { rewrite <- length_msb_bits, Hm, length_app, length_replicate. done. }
  set (bs := if decide _ then _ else _).
  assert (exists k', 1 ≤ k' ≤ 8 /\ bytes_ok bs /\ msb_bits bs = l ++ replicate k' false
    /\ length l = 8 * (length bs - 1) + (8 - k') /\ 1 ≤ length bs)
    as (k' & Hk' & Hbs & Hm' & Hl & Hpos).
  { unfold bs. case_decide as H0.
    - exists 8. assert (k = 0) as -> by (apply Nat.Div0.mod_divides in H0 as [q Hq]; lia).
      rewrite app_nil_r in Hm. split; [lia|]. split; [|split; [|split]].
      + apply Forall_app. split; [done|]. constructor; [done|constructor].
      + rewrite msb_bits_app, Hm. reflexivity.
      + rewrite length_app. cbn [length]. lia.
      + rewrite length_app. cbn [length]. lia.
    - exists k. assert (k <> 0).
      { intros ->. apply H0. apply Nat.Div0.mod_divides. exists (length (bb_bytes buf)). lia. }
      split; [lia|]. split_and!; [done|done|lia|lia]. }
  clearbody bs. clear Hm Hb Hlen Hk k.
  assert (length l `div` 8 = length bs - 1 /\ length l `mod` 8 = 8 - k') as [-> ->].
  { rewrite Hl. split.
    - rewrite Nat.mul_comm, Nat.div_add_l, Nat.div_small by lia. lia.
    - rewrite Nat.add_comm, Nat.mul_comm, Nat.Div0.mod_add. apply Nat.mod_small. lia. }
  destruct bit.
  - destruct (index_lt (E := QrError) bs (length bs - 1)) as (b & Hi & ->); [lia|].
    rewrite bind_Ok_eq, update_ok by lia. rewrite !bind_Ok_eq.
    destruct (set_bit bs (length bs - 1) b (8 - k') Hbs Hi ltac:(lia)) as [Hok E].
    eexists. split; [done|]. split; [cbn; rewrite length_app; done|]. split; [done|].
    exists (k' - 1). split; [lia|]. cbn [bb_bytes]. rewrite E, Hm', <- Hl.
    rewrite insert_app_r_alt, Nat.sub_diag by lia. destruct k' as [|k']; [lia|].
    cbn [replicate insert list_insert]. rewrite <- app_assoc. cbn. by rewrite Nat.sub_0_r.
  - rewrite bind_Ok_eq. eexists. split; [done|]. split; [cbn; rewrite length_app; done|].
    split; [done|]. exists (k' - 1). split; [lia|]. cbn [bb_bytes]. rewrite Hm'.
    destruct k' as [|k']; [lia|]. cbn [replicate]. rewrite <- app_assoc. cbn. by rewrite Nat.sub_0_r.
Qed.

Lemma shifted_bit v i : bool_decide (Z.land (Z.shiftr v (Z.of_nat i)) 1 = 1)%Z = Z.testbit v (Z.of_nat i).
Proof.
  assert (Z.land (Z.shiftr v (Z.of_nat i)) 1 = Z.b2z (Z.testbit v (Z.of_nat i))) as ->.
  { change 1%Z with (Z.ones 1) at 1. rewrite Z.land_ones by lia. change (2 ^ 1)%Z with 2%Z.
    rewrite <- Z.bit0_mod, Z.shiftr_spec by lia. f_equal. }
  by destruct (Z.testbit v (Z.of_nat i)).
Qed.

Lemma push_spec buf l v w :
  buf_has buf l -> exists buf', push buf v w = Ok buf' /\ buf_has buf' (l ++ to_bits w v).
Proof.
  revert buf l. induction w as [|w IH]; intros buf l Hb; cbn [push].
  - exists buf. by rewrite app_nil_r.
  - rewrite shifted_bit. destruct (push_bit_spec buf l (Z.testbit v (Z.of_nat w)) Hb) as (b1 & -> & H1).
    rewrite bind_Ok_eq. destruct (IH _ _ H1) as (b2 & E & H2). exists b2. split; [done|].
    by rewrite <- app_assoc in H2.
Qed.

Lemma push_bytes_spec buf l d :
  buf_has buf l ->
  exists buf', for_each d (fun buf b => push buf b 8) buf = Ok buf' /\ buf_has buf' (l ++ msb_bits d).
Proof.
  revert buf l. induction d as [|b d IH]; intros buf l Hb; cbn [for_each].
  - exists buf. by rewrite app_nil_r.
  - destruct (push_spec buf l b 8 Hb) as (b1 & -> & H1). rewrite bind_Ok_eq.
    destruct (IH _ _ H1) as (b2 & E & H2). exists b2. split; [done|].
    by rewrite <- app_assoc in H2.
Qed.

(** ** Tables *)

Lemma by_tables (P : nat -> EcLevel -> bool) :
  forallb (fun v => P v EcL && P v EcM && P v EcQ && P v EcH) (seq 1 40) = true ->
  forall v ec, 1 ≤ v ≤ 40 -> P v ec = true.
Proof.
  intros H v ec Hv. rewrite forallb_forall in H.
  specialize (H v). rewrite <- list_elem_of_In, elem_of_seq in H.
  specialize (H ltac:(lia)). rewrite !andb_true_iff in H. destruct ec; tauto.
Qed.

(** What the proofs need of one row of the tables. *)
Definition row_ok (v : nat) (ec : EcLevel) : bool :=
  match by_version DATA_BYTES_PER_BLOCK v ec, by_version EC_BYTES_PER_BLOCK v ec with
  | Ok (s1, c1, s2, c2), Ok n =>
      bool_decide (1 ≤ n ≤ 30 /\ 1 ≤ s1 /\ 1 ≤ c1 /\ s1 * c1 + s2 * c2 ≤ 2956
        /\ (v ≤ 9 -> s1 * c1 + s2 * c2 < 256))
  | _, _ => false
  end.

Lemma rows v ec :
  1 ≤ v ≤ 40 -> exists s1 c1 s2 c2 n,
    by_version DATA_BYTES_PER_BLOCK v ec = Ok (s1, c1, s2, c2)
    /\ by_version EC_BYTES_PER_BLOCK v ec = Ok n /\ 1 ≤ n ≤ 30
    /\ s1 * c1 + s2 * c2 ≤ 2956 /\ (v ≤ 9 -> s1 * c1 + s2 * c2 < 256).
Proof.
  intros Hv. assert (row_ok v ec = true) as H.
  { revert v ec Hv. apply by_tables. vm_compute. reflexivity. }
  unfold row_ok in H. destruct (by_version DATA_BYTES_PER_BLOCK v ec) as [[[[s1 c1] s2] c2]| |]; [|done..].
  destruct (by_version EC_BYTES_PER_BLOCK v ec) as [n| |]; [|done..].
  apply bool_decide_eq_true_1 in H. exists s1, c1, s2, c2, n. tauto.
Qed.

(** The capacity, and the bits a segment needs. *)
Definition fits (len v : nat) (ec : EcLevel) : Prop :=
  exists cap, data_capacity v ec = Ok cap /\ 4 + count_bits v + 8 * len ≤ 8 * cap.

Lemma choose_loop_spec vs len ec :
  Forall (fun v => 1 ≤ v ≤ 40) vs ->
  (exists vs1 v vs2, vs = vs1 ++ v :: vs2 /\ choose_version_loop vs len ec = Ok v
     /\ fits len v ec /\ Forall (fun v' => ~ fits len v' ec) vs1)
  \/ (choose_version_loop vs len ec = Err DataTooLong /\ Forall (fun v' => ~ fits len v' ec) vs).
Proof.
  induction 1 as [|v vs Hv _ IH]; [by right|]. cbn [choose_version_loop].
  destruct (rows v ec Hv) as (s1 & c1 & s2 & c2 & n & Ed & _).
  assert (data_capacity v ec = Ok (s1 * c1 + s2 * c2)) as Ec by (unfold data_capacity; by rewrite Ed).
  rewrite Ec, bind_Ok_eq. set (cap := s1 * c1 + s2 * c2) in *.
  assert ((4 + count_bits v + len * 8 + 7) `div` 8 ≤ cap <-> 4 + count_bits v + 8 * len ≤ 8 * cap) as Hiff.
  { pose proof (Nat.div_mod_eq (4 + count_bits v + len * 8 + 7) 8).
    pose proof (Nat.mod_upper_bound (4 + count_bits v + len * 8 + 7) 8). lia. }
  case_decide as Hf.
  - left. exists [], v, vs. split_and!; [done|done| |constructor].
    exists cap. split; [done|]. by apply Hiff.
  - assert (~ fits len v ec) as Hn.
    { intros (cap' & E & Hle). rewrite Ec in E. injection E as <-. tauto. }
    destruct IH as [(vs1 & v' & vs2 & -> & E & Hfit & Hall)|[E Hall]].
    + left. exists (v :: vs1), v', vs2. split_and!; [done|done|done|by constructor].
    + right. split; [done|by constructor].
Qed.

Lemma choose_version_cases len ec :
  (exists v, choose_version len ec = Ok v /\ 1 ≤ v ≤ 40 /\ fits len v ec
     /\ forall v', 1 ≤ v' < v -> ~ fits len v' ec)
  \/ (choose_version len ec = Err DataTooLong /\ forall v, 1 ≤ v ≤ 40 -> ~ fits len v ec).
Proof.
  assert (Forall (fun v => 1 ≤ v ≤ 40) (seq 1 40)) as Hr.
  { apply Forall_forall. intros v. rewrite elem_of_seq. lia. }
  unfold choose_version.
  destruct (choose_loop_spec (seq 1 40) len ec Hr) as [(vs1 & v & vs2 & E & Ev & Hf & Hn)|[Ev Hn]].
  - left. exists v. split; [done|].
    assert (seq 1 40 !! length vs1 = Some v) as Hl by (rewrite E; by apply list_lookup_middle).
    apply lookup_seq in Hl as [-> Hlt]. split; [lia|]. split; [done|].
    intros v' Hv'. rewrite Forall_forall in Hn. apply Hn.
    apply list_elem_of_lookup. exists (v' - 1).
    assert (seq 1 40 !! (v' - 1) = Some v') as Hl by (apply lookup_seq; lia).
    rewrite E, lookup_app_l in Hl by lia. done.
  - right. split; [done|]. intros v Hv. rewrite Forall_forall in Hn. apply Hn, elem_of_seq. lia.
Qed.

(** ** The byte-mode segment *)

(** The pad codewords, alternating. *)
Fixpoint pads (n : nat) (pad next : Z) : bytes :=
  match n with O => [] | S n => pad :: pads n next pad end.

Lemma length_pads n a b : length (pads n a b) = n.
Proof. revert a b. induction n as [|n IH]; intros a b; cbn; [done|]. by rewrite IH. Qed.

Lemma pads_ok n a b : byte_ok a -> byte_ok b -> bytes_ok (pads n a b).
Proof. intros Ha Hb. revert a b Ha Hb. induction n; intros; cbn; constructor; eauto. Qed.

Lemma pad_loop_spec fuel a b cap out :
  length out ≤ cap -> cap - length out < fuel ->
  pad_loop fuel a b cap out = Ok (out ++ pads (cap - length out) a b).
Proof.
  revert a b out. induction fuel as [|fuel IH]; intros a b out Ho Hf; [lia|]. cbn [pad_loop].
  case_decide.
  - replace (cap - length out) with 0 by lia. by rewrite app_nil_r.
  - rewrite IH by (rewrite length_app; cbn [length]; lia). rewrite <- app_assoc.
    rewrite length_app. cbn [length]. replace (cap - length out) with (S (cap - (length out + 1))) by lia.
    done.
Qed.

(** Mode, count, data, a full terminator, pads. *)
Definition segment (data : bytes) (v cap : nat) : list bool :=
  [false; true; false; false] ++ to_bits (count_bits v) (Z.of_nat (length data))
  ++ msb_bits data ++ replicate 4 false
  ++ msb_bits (pads (cap - length data - count_bits v / 8 - 1) 236 17).

Lemma count_bits_cases v : count_bits v = 8 \/ count_bits v = 16.
Proof. unfold count_bits. case_decide; auto. Qed.

Lemma encode_data_spec data v ec cap :
  bytes_ok data -> data_capacity v ec = Ok cap -> 1 ≤ v ≤ 40 ->
  4 + count_bits v + 8 * length data ≤ 8 * cap ->
  exists out, encode_data data v ec = Ok out /\ length out = cap /\ bytes_ok out
    /\ msb_bits out = segment data v cap.
Proof.
  intros Hd Hcap Hv Hfit. unfold encode_data. rewrite Hcap, bind_Ok_eq.
  assert (buf_has (mkBitBuf [] 0) []) as H0.
  { split; [done|]. split; [done|]. exists 0. split; [lia|done]. }
  destruct (push_spec _ _ 4 4 H0) as (b1 & -> & H1). rewrite bind_Ok_eq.
  destruct (push_spec _ _ (u32 (Z.of_nat (length data))) (count_bits v) H1) as (b2 & -> & H2).
  rewrite bind_Ok_eq. unfold u32 in H2.
  pose proof (count_bits_cases v) as Hcb.
  rewrite to_bits_wrap in H2 by (destruct Hcb as [-> | ->]; lia).
  destruct (push_bytes_spec _ _ data H2) as (b3 & -> & H3). rewrite bind_Ok_eq.
  set (l := ([] ++ to_bits 4 4) ++ _) in *. set (l3 := l ++ msb_bits data) in *.
  assert (length l3 = 4 + count_bits v + 8 * length data) as Hl3.
  { unfold l3, l. rewrite !length_app, length_msb_bits, !length_to_bits. done. }
  destruct H3 as (Hb3 & Hok3 & Hk3). rewrite Hb3, Hl3, usize_sub_ok by lia. rewrite bind_Ok_eq.
  assert (exists q, count_bits v = 8 * q /\ count_bits v / 8 = q) as (q & Hq & Hq8)
    by (destruct Hcb as [E|E]; rewrite E; [by exists 1|by exists 2]).
  assert ((cap * 8 - (4 + count_bits v + 8 * length data)) `min` 4 = 4) as ->
    by lia.
  destruct (push_spec b3 l3 0 4) as (b4 & -> & H4); [by split_and!|]. rewrite bind_Ok_eq.
  destruct H4 as (Hb4 & Hok4 & k & Hk & Hm4).
  assert (length (l3 ++ to_bits 4 0) = 8 * (length data + count_bits v / 8 + 1)) as Hl4.
  { rewrite length_app, length_to_bits, Hl3. lia. }
  rewrite Hb4, decide_False by (rewrite Hl4, Nat.mul_comm, Nat.Div0.mod_mul; tauto).
  rewrite bind_Ok_eq.
  assert (8 * length (bb_bytes b4) = length (l3 ++ to_bits 4 0) + k) as Hlen
    by (rewrite <- length_msb_bits, Hm4, length_app, length_replicate; done).
  assert (k = 0) as -> by lia. rewrite app_nil_r in Hm4.
  assert (length (bb_bytes b4) = length data + count_bits v / 8 + 1) as Hl by lia.
  assert (length (bb_bytes b4) ≤ cap) as Hle by lia.
  rewrite pad_loop_spec by lia. eexists. split; [done|].
  split; [rewrite length_app, length_pads; lia|].
  split; [apply Forall_app; split; [done|by apply pads_ok]|].
  rewrite msb_bits_app, Hm4, Hl.
  replace (cap - (length data + count_bits v / 8 + 1))
    with (cap - length data - count_bits v / 8 - 1) by lia.
  unfold l3, l, segment. rewrite to_bits_zero. by rewrite <- !app_assoc.
Qed.

(** The reader of a segment. *)
Definition parse_segment (v : nat) (out : bytes) : option bytes :=
  let bits := msb_bits out in
  if decide (take 4 bits = [false; true; false; false]) then
    let bits := drop 4 bits in
    let n := Z.to_nat (of_bits (take (count_bits v) bits)) in
    let bits := drop (count_bits v) bits in
    if decide (8 * n ≤ length bits) then Some (unpack n bits) else None
  else None.

Lemma parse_segment_spec out data v cap :
  msb_bits out = segment data v cap -> bytes_ok data ->
  (Z.of_nat (length data) < 2 ^ Z.of_nat (count_bits v))%Z ->
  parse_segment v out = Some data.
Proof.
  intros Hm Hd Hlen. unfold parse_segment. rewrite Hm. unfold segment.
  set (rest := replicate 4 false ++ _). rewrite decide_True by done.
  rewrite (drop_app_length' [false; true; false; false]) by done.
  rewrite take_app_length', drop_app_length' by by rewrite length_to_bits.
  rewrite of_to_bits, wrap_small, Nat2Z.id by lia.
  rewrite decide_True by (rewrite length_app, length_msb_bits; lia).
  f_equal. by apply unpack_msb.
Qed.

(** ** Interleaving *)

(** Column by column; a short block has run out before the last column. *)
Definition column (blocks : list bytes) (i : nat) : bytes := omap (fun b => b !! i) blocks.
Definition columns (j n : nat) (blocks : list bytes) : bytes := seq j n ≫= column blocks.
Definition weave (blocks : list bytes) : bytes :=
  columns 0 (max_list_with length blocks) blocks.

(** The reader deals the columns back. *)
Fixpoint deal (sizes : list nat) (heads : bytes) (rest : list bytes) : list bytes :=
  match sizes, rest with
  | O :: sizes, r :: rest => r :: deal sizes heads rest
  | S _ :: sizes, r :: rest => (hd 0%Z heads :: r) :: deal sizes (drop 1 heads) rest
  | _, _ => []
  end.

Definition busy (sizes : list nat) : nat := length (filter (fun s => s <> 0) sizes).

Fixpoint unweave (rounds : nat) (sizes : list nat) (out : bytes) : list bytes :=
  match rounds with
  | O => (fun _ => []) <$> sizes
  | S rounds =>
      deal sizes (take (busy sizes) out) (unweave rounds (pred <$> sizes) (drop (busy sizes) out))
  end.

Fixpoint weave_rounds (rounds : nat) (blocks : list bytes) : bytes :=
  match rounds with
  | O => []
  | S rounds => omap (fun b => b !! 0) blocks ++ weave_rounds rounds (drop 1 <$> blocks)
  end.

Lemma omap_tail {A} i (blocks : list (list A)) :
  omap (fun b => b !! S i) blocks = omap (fun b => b !! i) (drop 1 <$> blocks).
Proof.
  induction blocks as [|b blocks IH]; [done|]. cbn. rewrite IH. by destruct b.
Qed.

Lemma weave_rounds_spec n j blocks :
  weave_rounds n (drop j <$> blocks) = columns j n blocks.
Proof.
  unfold columns. revert j. induction n as [|n IH]; intros j; [done|].
  cbn [weave_rounds seq]. rewrite bind_cons. unfold column at 1. f_equal.
  - clear. induction blocks as [|b blocks IH]; [done|]. cbn.
    rewrite lookup_drop, Nat.add_0_r, IH. done.
  - rewrite <- IH. f_equal. rewrite <- list_fmap_compose. apply list_fmap_ext. intros _ b _.
    cbn. rewrite drop_drop. f_equal. lia.
Qed.

Lemma weave_weave_rounds blocks : weave blocks = weave_rounds (max_list_with length blocks) blocks.
Proof.
  unfold weave. rewrite <- weave_rounds_spec. f_equal.
  induction blocks as [|b blocks IH]; [done|]. cbn. by f_equal.
Qed.

Lemma busy_cons n sizes : busy (n :: sizes) = (if decide (n <> 0) then 1 else 0) + busy sizes.
Proof. unfold busy. rewrite filter_cons. by case_decide. Qed.

Lemma length_heads (blocks : list bytes) :
  length (omap (fun b => b !! 0) blocks) = busy (length <$> blocks).
Proof.
  induction blocks as [|[|x b] blocks IH]; [done|..]; rewrite fmap_cons, busy_cons, <- IH; done.
Qed.

Lemma deal_heads (blocks : list bytes) :
  deal (length <$> blocks) (omap (fun b => b !! 0) blocks) (drop 1 <$> blocks) = blocks.
Proof.
  induction blocks as [|[|x b] blocks IH]; [done|..]; cbn; by rewrite ?drop_0, IH.
Qed.

Lemma unweave_rounds n blocks rest :
  Forall (fun b => length b ≤ n) blocks ->
  unweave n (length <$> blocks) (weave_rounds n blocks ++ rest) = blocks.
Proof.
  revert blocks. induction n as [|n IH]; intros blocks Hb; cbn [unweave weave_rounds].
  - induction Hb as [|b blocks Hb _ IH']; [done|]. cbn. rewrite IH'. by destruct b; cbn in Hb; [|lia].
  - rewrite <- length_heads, <- app_assoc, take_app_length, drop_app_length.
    assert (pred <$> (length <$> blocks) = length <$> (drop 1 <$> blocks)) as ->.
    { rewrite <- !list_fmap_compose. apply list_fmap_ext. intros _ b _. cbn.
      rewrite length_drop. lia. }
    rewrite IH; [apply deal_heads|]. apply Forall_fmap.
    eapply Forall_impl; [exact Hb|]. intros b. cbn. rewrite length_drop. lia.
Qed.

Lemma length_le_max (blocks : list bytes) :
  Forall (fun b => length b ≤ max_list_with length blocks) blocks.
Proof.
  induction blocks as [|b blocks IH]; constructor; cbn; [lia|].
  eapply Forall_impl; [exact IH|]. cbn. intros; lia.
Qed.

Lemma unweave_weave blocks rest :
  unweave (max_list_with length blocks) (length <$> blocks) (weave blocks ++ rest) = blocks.
Proof. rewrite weave_weave_rounds. apply unweave_rounds, length_le_max. Qed.

Lemma max_sizes (blocks : list bytes) : max_list_with length blocks = max_list (length <$> blocks).
Proof. induction blocks as [|b blocks IH]; [done|]. cbn. by rewrite IH. Qed.

Lemma length_weave_rounds n blocks :
  Forall (fun b => length b ≤ n) blocks -> length (weave_rounds n blocks) = sum_list_with length blocks.
Proof.
  revert blocks. induction n as [|n IH]; intros blocks Hb; cbn [weave_rounds].
  - induction Hb as [|b blocks Hb _ IH']; [done|]. cbn in *. lia.
  - rewrite length_app, IH.
    + clear. induction blocks as [|[|x b] blocks IH]; [done|..]; cbn in *; rewrite ?drop_0; lia.
    + apply Forall_fmap. eapply Forall_impl; [exact Hb|]. intros b. cbn. rewrite length_drop. lia.
Qed.

Lemma length_weave blocks : length (weave blocks) = sum_list_with length blocks.
Proof. rewrite weave_weave_rounds. apply length_weave_rounds, length_le_max. Qed.

Lemma weave_ok blocks : Forall (Forall byte_ok) blocks -> bytes_ok (weave blocks).
Proof.
  intros H. unfold weave, columns, column. apply Forall_bind, Forall_forall. intros i _.
  induction H as [|b blocks Hb _ IH]; [constructor|]. cbn.
  destruct (b !! i) eqn:E; [|exact IH]. constructor; [exact (Forall_lookup_1 _ _ _ _ Hb E)|exact IH].
Qed.

(** ** The interleaved codewords *)

Lemma map_ok_spec {A B} (R : A -> B -> Prop) (f : A -> res B) l :
  Forall (fun x => exists y, f x = Ok y /\ R x y) l ->
  exists ys, map_ok f l = Ok ys /\ Forall2 R l ys.
Proof.
  induction 1 as [|x l (y & Hy & HR) _ (ys & IH & H2)]; [by exists []|].
  exists (y :: ys). cbn [map_ok]. rewrite Hy, bind_Ok_eq, IH, bind_Ok_eq.
  split; [done|by constructor].
Qed.

Lemma cut_blocks_spec count size pre data rest :
  length data = count * size ->
  exists bs, cut_blocks count size (length pre) (pre ++ data ++ rest)
    = Ok (bs, length pre + count * size)
    /\ mjoin bs = data /\ length <$> bs = replicate count size.
Proof.
  revert pre data. induction count as [|count IH]; intros pre data Hl; cbn [cut_blocks].
  - destruct data; [|done]. exists []. by rewrite Nat.add_0_r.
  - cbn in Hl. rewrite slice_ok by (rewrite ?length_app; lia). rewrite bind_Ok_eq.
    replace (length pre + size - length pre) with size by lia.
    rewrite drop_app_length, take_app_le by lia.
    replace (pre ++ data ++ rest) with ((pre ++ take size data) ++ drop size data ++ rest)
      by (by rewrite <- app_assoc, (app_assoc (take _ _)), take_drop).
    assert (length (take size data) = size) as Ht by (rewrite length_take; lia).
    destruct (IH (pre ++ take size data) (drop size data)) as (bs & E & Hj & Hs);
      [rewrite length_drop; lia|].
    rewrite length_app, Ht in E. rewrite E, bind_Ok_eq.
    exists (take size data :: bs). split; [do 2 f_equal; lia|]. split.
    + etrans; [exact (f_equal (app (take size data)) Hj)|]. apply take_drop.
    + cbn. by rewrite Hs, Ht.
Qed.

(** The last loop: the codewords of all blocks, column by column. *)
Lemma ec_columns n ecs pre out :
  Forall (fun e => length e = pre + n) ecs ->
  for_each (seq pre n) (fun out i => col ← map_ok (fun e => index e i) ecs; Ok (out ++ col)) out
  = Ok (E := QrError) (out ++ columns pre n ecs).
Proof.
  revert pre out. induction n as [|n IH]; intros pre out He; cbn [seq for_each].
  - by rewrite app_nil_r.
  - assert (map_ok (fun e => index (E := QrError) e pre) ecs = Ok (omap (fun e : bytes => e !! pre) ecs)) as ->.
    { clear IH. induction He as [|e ecs He _ IH]; [done|]. cbn [map_ok omap list_omap].
      destruct (lookup_lt_is_Some_2 e pre) as [x Hx]; [lia|].
      rewrite (index_Some e pre x Hx), bind_Ok_eq, IH, bind_Ok_eq, Hx. done. }
    rewrite !bind_Ok_eq. rewrite IH; [by rewrite <- app_assoc|].
    eapply Forall_impl; [exact He|]. cbn. lia.
Qed.

Lemma data_columns n pre blocks out :
  for_each (seq pre n) (fun out i => Ok (out ++ omap (fun b : bytes => b !! i) blocks)) out
  = Ok (E := QrError) (out ++ columns pre n blocks).
Proof.
  revert pre out. induction n as [|n IH]; intros pre out; cbn [seq for_each].
  - by rewrite app_nil_r.
  - rewrite bind_Ok_eq, IH. by rewrite <- app_assoc.
Qed.

(** A block and its codewords. *)
Definition block_ecc (n : nat) (b e : bytes) : Prop :=
  length e = n /\ bytes_ok e /\ syndromes_zero n (b ++ e).

Lemma max_constant n (ecs : list bytes) :
  ecs <> [] -> Forall (fun e => length e = n) ecs -> max_list_with length ecs = n.
Proof.
  intros Hne H. induction H as [|e ecs He H IH]; [done|]. cbn. destruct ecs as [|e2 ecs].
  - cbn. lia.
  - rewrite IH by done. lia.
Qed.

Lemma Forall_mjoin {A} (P : A -> Prop) (ls : list (list A)) :
  Forall P (mjoin ls) -> Forall (Forall P) ls.
Proof.
  induction ls as [|l ls IH]; [constructor|]. intros H.
  change (mjoin (l :: ls)) with (l ++ mjoin ls) in H. apply Forall_app in H as [H1 H2].
  constructor; auto.
Qed.

Lemma interleave_spec data v ec s1 c1 s2 c2 n :
  by_version DATA_BYTES_PER_BLOCK v ec = Ok (s1, c1, s2, c2) ->
  by_version EC_BYTES_PER_BLOCK v ec = Ok n -> 1 ≤ n ≤ 255 ->
  bytes_ok data -> length data = s1 * c1 + s2 * c2 -> 0 < c1 + c2 ->
  exists blocks ecs,
    interleave data v ec = Ok (weave blocks ++ weave ecs)
    /\ mjoin blocks = data /\ length <$> blocks = replicate c1 s1 ++ replicate c2 s2
    /\ Forall2 (block_ecc n) blocks ecs.
Proof.
  intros Ed Ee Hn Hb Hl Hc. unfold interleave. rewrite Ed, bind_Ok_eq, Ee, bind_Ok_eq.
  destruct (cut_blocks_spec c1 s1 [] (take (s1 * c1) data) (drop (s1 * c1) data))
    as (bs1 & E1 & Hj1 & Hs1); [rewrite length_take; lia|].
  cbn [length app Nat.add] in E1. rewrite take_drop in E1. rewrite E1, bind_Ok_eq.
  destruct (cut_blocks_spec c2 s2 (take (s1 * c1) data) (drop (s1 * c1) data) [])
    as (bs2 & E2 & Hj2 & Hs2); [rewrite length_drop; lia|].
  rewrite app_nil_r, take_drop, length_take, Nat.min_l in E2 by lia.
  rewrite (Nat.mul_comm c1 s1), E2, bind_Ok_eq.
  assert (mjoin (bs1 ++ bs2) = data) as Hj by by rewrite join_app, Hj1, Hj2, take_drop.
  assert (Forall (Forall byte_ok) (bs1 ++ bs2)) as Hbb
    by (apply Forall_mjoin; by rewrite Hj).
  destruct (map_ok_spec (block_ecc n) (fun b => ec_codewords b n) (bs1 ++ bs2)) as (ecs & Em & H2).
  { eapply Forall_impl; [exact Hbb|]. intros b Hbk.
    destruct (ec_codewords_spec b n Hbk Hn) as (e & Ex & He). by exists e. }
  rewrite Em, bind_Ok_eq, data_columns, bind_Ok_eq. cbn [app].
  assert (Forall (fun e : bytes => length e = n) ecs) as Hlen
    by (clear - H2; induction H2 as [|b e bl el [He _] _ IH]; by constructor).
  assert (ecs <> []) as Hne.
  { intros ->. apply Forall2_length in H2. apply (f_equal length) in Hs1, Hs2.
    rewrite length_fmap, length_replicate in Hs1, Hs2. rewrite length_app in H2. cbn in H2. lia. }
  rewrite (ec_columns n ecs 0) by done. exists (bs1 ++ bs2), ecs. split_and!; [|done| |done].
  - unfold weave. by rewrite (max_constant n ecs Hne Hlen).
  - by rewrite fmap_app, Hs1, Hs2.
Qed.
