(* ===== verification/QrSymbol.v ===== *)
(** * QR symbols ([src/src/qr.rs], second half)

    The grid of modules, the function patterns, the zigzag, the masks and
    their penalties, format and version information, [encode] and the SVG.
    Coordinates are the [i16] of the source as integers: with a width of at
    most 177 no product or sum leaves that type.  A negative index is the
    panic that the conversion to [usize] leads to. *)
From S2P Require Import Prelude QrCode.

(** [lo..hi] over [i16] or [u32]. *)
Definition zrange (lo hi : Z) : list Z := seqZ lo (hi - lo).

Inductive QrModule : Set :=
  | FunctionM (dark : bool)
  | DataM (dark : bool).

#[export] Instance QrModule_eq_dec : EqDecision QrModule.
Proof. solve_decision. Defined.

Definition is_dark (m : QrModule) : bool :=
  match m with FunctionM d | DataM d => d end.

Record Matrix : Set := mkMatrix { mwidth : Z; modules : list QrModule }.

Definition matrix_new (version : nat) : Matrix :=
  let width := (17 + 4 * Z.of_nat version)%Z in
  mkMatrix width (replicate (Z.to_nat (width * width)) (DataM false)).

(** [(y * self.width + x) as usize]. *)
Definition cell_index (m : Matrix) (x y : Z) : res nat :=
  let i := (y * mwidth m + x)%Z in
  if decide (i < 0)%Z then Stuck Panicked else Ok (Z.to_nat i).

Definition get (m : Matrix) (x y : Z) : res QrModule :=
  i ← cell_index m x y; index (modules m) i.

Definition set (x y : Z) (md : QrModule) (m : Matrix) : res Matrix :=
  i ← cell_index m x y; ms ← update (modules m) i md; Ok (mkMatrix (mwidth m) ms).

Definition is_function (m : Matrix) (x y : Z) : res bool :=
  md ← get m x y; Ok (match md with FunctionM _ => true | DataM _ => false end).

(** ** Format and version information *)

(** [for i in (0..n).rev()]: one step of the polynomial division. *)
Fixpoint bch_loop (n : nat) (top gen rem : Z) : Z :=
  match n with
  | O => rem
  | S i =>
      let i' := Z.of_nat i in
      bch_loop i top gen
        (if decide (Z.land rem (Z.shiftl 1 (top + i')) <> 0)%Z
         then Z.lxor rem (Z.shiftl gen i') else rem)
  end.

Definition format_info_bits (ec : EcLevel) (mask : nat) : Z :=
  let data := Z.lor (Z.shiftl (format_bits ec) 3) (Z.of_nat mask) in
  let rem := bch_loop 5 10 1335 (Z.shiftl data 10) in
  Z.lxor (Z.lor (Z.shiftl data 10) rem) 21522.

Definition version_info_bits (version : nat) : Z :=
  let v := Z.of_nat version in
  let rem := bch_loop 6 12 7973 (Z.shiftl v 12) in
  Z.lor (Z.shiftl v 12) rem.

(** [(bits >> i) & 1 == 1]. *)
Definition bit_of (bits i : Z) : bool := bool_decide (Z.land (Z.shiftr bits i) 1 = 1)%Z.

(** ** Function patterns *)

(** The module of a finder pattern at offset [(dx, dy)] from its corner. *)
Definition finder_dark (dx dy : Z) : bool :=
  let on_separator := negb (bool_decide (0 ≤ dx < 7)%Z) || negb (bool_decide (0 ≤ dy < 7)%Z) in
  let border := bool_decide (dx = 0 \/ dx = 6 \/ dy = 0 \/ dy = 6)%Z in
  let core := bool_decide (2 ≤ dx ≤ 4)%Z && bool_decide (2 ≤ dy ≤ 4)%Z in
  negb on_separator && (border || core).

Definition draw_finder (m : Matrix) (o : Z * Z) : res Matrix :=
  let '(ox, oy) := o in
  let w := mwidth m in
  for_each (zrange (-1) 8) (fun m dy =>
    for_each (zrange (-1) 8) (fun m dx =>
      let x := (ox + dx)%Z in
      let y := (oy + dy)%Z in
      if decide (x < 0 \/ y < 0 \/ w ≤ x \/ w ≤ y)%Z then Ok m
      else set x y (FunctionM (finder_dark dx dy)) m) m) m.

Definition draw_timing (m : Matrix) : res Matrix :=
  for_each (zrange 8 (mwidth m - 8)) (fun m i =>
    let dark := bool_decide (i `mod` 2 = 0)%Z in
    m ← set i 6 (FunctionM dark) m;
    set 6 i (FunctionM dark) m) m.

Definition draw_alignment (cx cy : Z) (m : Matrix) : res Matrix :=
  for_each (zrange (-2) 3) (fun m dy =>
    for_each (zrange (-2) 3) (fun m dx =>
      let ring := Z.max (Z.abs dx) (Z.abs dy) in
      set (cx + dx) (cy + dy) (FunctionM (bool_decide (ring <> 1)%Z)) m) m) m.

(** The centre coordinates of the alignment patterns. *)
Definition alignment_positions (version : nat) (w : Z) : res (list Z) :=
  if decide (7 ≤ version) then index ALIGNMENT_POSITIONS (version - 7)
  else Ok [6; w - 7]%Z.

Definition draw_alignments (version : nat) (m : Matrix) : res Matrix :=
  if decide (2 ≤ version) then
    positions ← alignment_positions version (mwidth m);
    let last := length positions - 1 in
    for_each (enumerate positions) (fun m '(i, cx) =>
      for_each (enumerate positions) (fun m '(j, cy) =>
        if decide ((i = 0 /\ (j = 0 \/ j = last)) \/ (i = last /\ j = 0)) then Ok m
        else draw_alignment cx cy m) m) m
  else Ok m.

Definition draw_version_info (version : nat) (m : Matrix) : res Matrix :=
  if decide (7 ≤ version) then
    let w := mwidth m in
    let bits := version_info_bits version in
    for_each (zrange 0 18) (fun m i =>
      let dark := bit_of bits i in
      let a := (w - 11 + i `mod` 3)%Z in
      let b := (i / 3)%Z in
      m ← set a b (FunctionM dark) m;
      set b a (FunctionM dark) m) m
  else Ok m.

Definition draw_format_info (ec : EcLevel) (mask : nat) (m : Matrix) : res Matrix :=
  let bits := format_info_bits ec mask in
  let w := mwidth m in
  let bit i := FunctionM (bit_of bits i) in
  m ← for_each (zrange 0 6) (fun m i => set 8 i (bit i) m) m;
  m ← set 8 7 (bit 6%Z) m;
  m ← set 8 8 (bit 7%Z) m;
  m ← set 7 8 (bit 8%Z) m;
  m ← for_each (zrange 9 15) (fun m i => set (14 - i) 8 (bit i) m) m;
  m ← for_each (zrange 0 8) (fun m i => set (w - 1 - i) 8 (bit i) m) m;
  m ← for_each (zrange 8 15) (fun m i => set 8 (w - 15 + i) (bit i) m) m;
  set 8 (w - 8) (FunctionM true) m.

Definition draw_function_patterns (version : nat) (ec : EcLevel) (m : Matrix) : res Matrix :=
  let w := mwidth m in
  m ← for_each [(0, 0); (w - 7, 0); (0, w - 7)]%Z draw_finder m;
  m ← draw_timing m;
  m ← draw_alignments version m;
  m ← draw_version_info version m;
  draw_format_info ec 0 m.

(** ** Codeword placement *)

(** One module: the state is the matrix and the number of bits placed. *)
Definition place_bit (codewords : bytes) (x y : Z) (s : Matrix * nat) : res (Matrix * nat) :=
  let '(m, bit) := s in
  f ← is_function m x y;
  if decide (f = true \/ length codewords * 8 ≤ bit) then Ok (m, bit) else
  c ← index codewords (bit / 8);
  let dark := bit_of c (7 - Z.of_nat (bit mod 8)) in
  m ← set x y (DataM dark) m;
  Ok (m, bit + 1).

(** The two columns that end at [right], upwards or downwards. *)
Definition place_columns (codewords : bytes) (w right : Z) (s : Matrix * nat)
    : res (Matrix * nat) :=
  for_each (zrange 0 w) (fun s vert =>
    for_each (zrange 0 2) (fun s j =>
      let x := (right - j)%Z in
      let upward := bool_decide (Z.land (right + 1) 2 = 0)%Z in
      let y := if upward then (w - 1 - vert)%Z else vert in
      place_bit codewords x y s) s) s.

(** [while right >= 1]. *)
Fixpoint codewords_loop (fuel : nat) (codewords : bytes) (w right : Z) (s : Matrix * nat)
    : res (Matrix * nat) :=
  match fuel with
  | O => Stuck OutOfFuel
  | S fuel =>
      if decide (1 ≤ right)%Z then
        let right := if decide (right = 6)%Z then 5%Z else right in
        s ← place_columns codewords w right s;
        codewords_loop fuel codewords w (right - 2) s
      else Ok s
  end.

Definition draw_codewords (codewords : bytes) (m : Matrix) : res Matrix :=
  let w := mwidth m in
  '(m, _) ← codewords_loop (S (Z.to_nat w)) codewords w (w - 1) (m, 0);
  Ok m.

(** ** Masks *)

Definition mask_applies (pattern : nat) (x y : Z) : res bool :=
  match pattern with
  | 0 => Ok (bool_decide ((x + y) `mod` 2 = 0)%Z)
  | 1 => Ok (bool_decide (y `mod` 2 = 0)%Z)
  | 2 => Ok (bool_decide (x `mod` 3 = 0)%Z)
  | 3 => Ok (bool_decide ((x + y) `mod` 3 = 0)%Z)
  | 4 => Ok (bool_decide ((x / 3 + y / 2) `mod` 2 = 0)%Z)
  | 5 => Ok (bool_decide ((x * y) `mod` 2 + (x * y) `mod` 3 = 0)%Z)
  | 6 => Ok (bool_decide (((x * y) `mod` 2 + (x * y) `mod` 3) `mod` 2 = 0)%Z)
  | 7 => Ok (bool_decide (((x + y) `mod` 2 + (x * y) `mod` 3) `mod` 2 = 0)%Z)
  | _ => Stuck Panicked
  end.

Definition mask_module (pattern : nat) (x y : Z) (m : Matrix) : res Matrix :=
  md ← get m x y;
  match md with
  | DataM dark =>
      a ← mask_applies pattern x y;
      if (a : bool) then set x y (DataM (negb dark)) m else Ok m
  | FunctionM _ => Ok m
  end.

Definition apply_mask (pattern : nat) (m : Matrix) : res Matrix :=
  let w := mwidth m in
  for_each (zrange 0 w) (fun m y =>
    for_each (zrange 0 w) (fun m x => mask_module pattern x y m) m) m.

(** ** Mask penalties *)

Definition dark_at (m : Matrix) (x y : Z) : res bool := md ← get m x y; Ok (is_dark md).

(** The scan of one row or column: the total, the last colour and its run. *)
Definition run_step (m : Matrix) (horizontal : bool) (i : Z) (s : Z * option bool * Z) (j : Z)
    : res (Z * option bool * Z) :=
  let '(total, last, run) := s in
  current ← (if decide (j = mwidth m)%Z then Ok None
             else if horizontal then d ← dark_at m j i; Ok (Some d)
             else d ← dark_at m i j; Ok (Some d));
  if decide (current = last) then Ok (total, last, u32 (run + 1))
  else
    let total := if decide (5 ≤ run)%Z then u32 (total + (run - 2)) else total in
    Ok (total, current, 1%Z).

Definition adjacent_penalty (horizontal : bool) (m : Matrix) : res Z :=
  for_each (zrange 0 (mwidth m)) (fun total i =>
    '(total, _, _) ← for_each (zrange 0 (mwidth m + 1)) (run_step m horizontal i)
                       (total, None, 1%Z);
    Ok total) 0%Z.

Definition block_penalty (m : Matrix) : res Z :=
  for_each (zrange 0 (mwidth m - 1)) (fun total y =>
    for_each (zrange 0 (mwidth m - 1)) (fun total x =>
      a ← dark_at m x y; b ← dark_at m (x + 1) y;
      c ← dark_at m x (y + 1); d ← dark_at m (x + 1) (y + 1);
      if decide (a = b /\ a = c /\ a = d) then Ok (u32 (total + 3)) else Ok total) total) 0%Z.

Definition PATTERN : list bool := [true; false; true; true; true; false; true].

(** [iter.all(..)] and [iter.any(..)]. *)
Fixpoint all_ok {A} (f : A -> res bool) (l : list A) : res bool :=
  match l with
  | [] => Ok true
  | x :: l => b ← f x; if (b : bool) then all_ok f l else Ok false
  end.
Fixpoint any_ok {A} (f : A -> res bool) (l : list A) : res bool :=
  match l with
  | [] => Ok false
  | x :: l => b ← f x; if (b : bool) then Ok true else any_ok f l
  end.

Definition finder_penalty (horizontal : bool) (m : Matrix) : res Z :=
  let w := mwidth m in
  let at_ k i := if horizontal then dark_at m k i else dark_at m i k in
  for_each (zrange 0 w) (fun total i =>
    for_each (zrange 0 (w - 7 + 1)) (fun total j =>
      found ← all_ok (fun k => d ← at_ (j + k)%Z i; p ← index PATTERN (Z.to_nat k);
                               Ok (bool_decide (d = p))) (zrange 0 7);
      if negb found then Ok total else
      let dark_near lo hi :=
        any_ok (fun k => if decide (0 ≤ k < w)%Z then at_ k i else Ok false) (zrange lo hi) in
      before ← dark_near (j - 4)%Z j;
      light ← (if negb before then Ok true else after ← dark_near (j + 7) (j + 11); Ok (negb after))%Z;
      if (light : bool) then Ok (u32 (total + 40)) else Ok total) total) 0%Z.

Definition balance_penalty (m : Matrix) : res Z :=
  let dark := Z.of_nat (length (List.filter is_dark (modules m))) in
  if decide (length (modules m) = 0) then Stuck Panicked else
  let ratio := (dark * 200 / Z.of_nat (length (modules m)))%Z in
  Ok (u32 (Z.abs (ratio - 100))).

Definition penalty (m : Matrix) : res Z :=
  a ← adjacent_penalty true m; b ← adjacent_penalty false m;
  c ← block_penalty m;
  d ← finder_penalty true m; e ← finder_penalty false m;
  f ← balance_penalty m;
  Ok (u32 (a + b + c + d + e + f)).

(** ** Encoding *)

Definition build (data : bytes) (ec : EcLevel) : res Matrix :=
  version ← choose_version (length data) ec;
  codewords ← (d ← encode_data data version ec; interleave d version ec);
  m ← draw_function_patterns version ec (matrix_new version);
  draw_codewords codewords m.

Definition encode_with_mask (data : bytes) (ec : EcLevel) (mask : nat) : res Matrix :=
  if decide (7 < mask) then Err MaskOutOfRange else
  m ← build data ec;
  m ← apply_mask mask m;
  draw_format_info ec mask m.

Definition mask_penalty (data : bytes) (ec : EcLevel) (mask : nat) : res Z :=
  m ← encode_with_mask data ec mask; penalty m.

(** One candidate mask: applied, scored, backed out. *)
Definition try_mask (ec : EcLevel) (s : Matrix * (Z * nat)) (mask : nat)
    : res (Matrix * (Z * nat)) :=
  let '(m, best) := s in
  m ← apply_mask mask m;
  m ← draw_format_info ec mask m;
  score ← penalty m;
  let best := if decide (score < fst best)%Z then (score, mask) else best in
  m ← apply_mask mask m;
  Ok (m, best).

Definition encode (data : bytes) (ec : EcLevel) : res Matrix :=
  m ← build data ec;
  '(m, best) ← for_each (seq 0 8) (try_mask ec) (m, ((2 ^ 32 - 1)%Z, 0));
  m ← apply_mask (snd best) m;
  draw_format_info ec (snd best) m.
