(* ===== verification/QrPatterns.v ===== *)
(** * Painting a grid, and the function patterns of a symbol

    The cells of a matrix, and the drawing steps as pictures: partial maps from
    coordinates to modules.  The standard's picture of each pattern -- finders as rings
    around their centres, timing lines by parity, alignment squares, version and format
    bits -- and the proof that the drawing code paints exactly these. *)
From S2P Require Import Prelude QrCode QrSymbol.

#[export] Instance QrModule_inhabited : Inhabited QrModule := populate (DataM false).

Definition mat_ok (w : Z) (m : Matrix) : Prop :=
  mwidth m = w /\ length (modules m) = Z.to_nat (w * w).

Definition on_grid (w x y : Z) : Prop := (0 ≤ x < w /\ 0 ≤ y < w)%Z.
#[export] Instance on_grid_dec w x y : Decision (on_grid w x y).
Proof. unfold on_grid. apply _. Defined.

Definition cell (m : Matrix) (x y : Z) : QrModule :=
  modules m !!! Z.to_nat (y * mwidth m + x).

(** Row-major indices: in range, injective, and within [i16]. *)
Lemma index_range w x y : on_grid w x y -> (0 ≤ y * w + x < w * w)%Z.
Proof. unfold on_grid. nia. Qed.

Lemma index_inj w x y x' y' :
  on_grid w x y -> on_grid w x' y' -> (y * w + x = y' * w + x')%Z -> x = x' /\ y = y'.
Proof. unfold on_grid. intros Hg Hg' E. assert (y = y') by nia. lia. Qed.

Lemma index_i16 w x y : on_grid w x y -> (w ≤ 177)%Z -> (0 ≤ y * w + x < 2 ^ 15)%Z.
Proof.
  intros Hg Hw. pose proof (index_range w x y Hg). unfold on_grid in Hg.
  assert (w * w ≤ 177 * 177)%Z by (apply Z.mul_le_mono_nonneg; lia). lia.
Qed.

Section grid.
Context (w : Z).

Lemma matrix_new_ok v : w = (17 + 4 * Z.of_nat v)%Z -> mat_ok w (matrix_new v).
Proof. intros ->. unfold mat_ok. cbn. by rewrite length_replicate. Qed.

Lemma cell_lookup m x y :
  mat_ok w m -> on_grid w x y ->
  modules m !! Z.to_nat (y * w + x) = Some (cell m x y).
Proof.
  intros [Hw Hl] Hg. pose proof (index_range w x y Hg).
  destruct (lookup_lt_is_Some_2 (modules m) (Z.to_nat (y * w + x))) as [md Hmd]; [lia|].
  rewrite Hmd. f_equal. unfold cell. rewrite Hw. symmetry. by apply list_lookup_total_correct.
Qed.

Lemma get_ok m x y : mat_ok w m -> on_grid w x y -> get m x y = Ok (cell m x y).
Proof.
  intros Hm Hg. pose proof (index_range w x y Hg). pose proof (cell_lookup m x y Hm Hg) as Hc.
  unfold get, cell_index. destruct Hm as [-> Hl]. rewrite decide_False by lia.
  rewrite bind_Ok_eq. by apply index_Some.
Qed.

Lemma set_ok m x y md :
  mat_ok w m -> on_grid w x y ->
  exists m', set x y md m = Ok m' /\ mat_ok w m'
    /\ forall x' y', on_grid w x' y' ->
         cell m' x' y' = if decide (x' = x /\ y' = y) then md else cell m x' y'.
Proof.
  intros Hm Hg. pose proof (index_range w x y Hg) as Hr. unfold set, cell_index.
  destruct Hm as [Hw Hl]. rewrite Hw, decide_False by lia. rewrite bind_Ok_eq.
  rewrite update_ok by lia. rewrite bind_Ok_eq. eexists. split; [done|].
  split; [split; [done|cbn; by rewrite length_insert]|].
  intros x' y' Hg'. pose proof (index_range w x' y' Hg'). unfold cell. cbn [modules mwidth].
  rewrite Hw. case_decide as He.
  - destruct He as [-> ->]. rewrite list_lookup_total_insert. rewrite decide_True; [done|].
    split; [done|lia].
  - apply list_lookup_total_insert_ne. intros E. apply He.
    destruct (index_inj w x y x' y'); [done|done|lia|lia].
Qed.

(** ** Pictures *)

Definition picture : Type := Z -> Z -> option QrModule.

Definition paints (P : picture) (f : Matrix -> res Matrix) : Prop :=
  forall m, mat_ok w m -> exists m', f m = Ok m' /\ mat_ok w m'
    /\ forall x y, on_grid w x y -> cell m' x y = default (cell m x y) (P x y).

Definition blank : picture := fun _ _ => None.
Definition dot (px py : Z) (md : QrModule) : picture :=
  fun x y => if decide (x = px /\ y = py) then Some md else None.
(** [Q] on top of [P]. *)
Definition over (Q P : picture) : picture :=
  fun x y => match Q x y with Some c => Some c | None => P x y end.

Lemma paints_blank : paints blank Ok.
Proof. intros m Hm. by exists m. Qed.

Lemma paints_dot px py md : on_grid w px py -> paints (dot px py md) (set px py md).
Proof.
  intros Hg m Hm. destruct (set_ok m px py md Hm Hg) as (m' & E & Hm' & Hc).
  exists m'. split; [done|]. split; [done|]. intros x y Hxy. rewrite Hc by done.
  unfold dot. by case_decide.
Qed.

Lemma paints_bind P Q f g :
  paints P f -> paints Q g -> paints (over Q P) (fun m => m ← f m; g m).
Proof.
  intros Hf Hg m Hm. destruct (Hf m Hm) as (m1 & -> & Hm1 & H1). rewrite bind_Ok_eq.
  destruct (Hg m1 Hm1) as (m2 & -> & Hm2 & H2). exists m2. split; [done|]. split; [done|].
  intros x y Hxy. rewrite H2, H1 by done. unfold over. by destruct (Q x y).
Qed.

Lemma paints_ext P Q f :
  (forall x y, on_grid w x y -> P x y = Q x y) -> paints P f -> paints Q f.
Proof.
  intros HPQ Hf m Hm. destruct (Hf m Hm) as (m' & E & Hm' & Hc). exists m'.
  split; [done|]. split; [done|]. intros x y Hxy. rewrite Hc, HPQ; done.
Qed.

Lemma paints_fun P f g : (forall m, mat_ok w m -> f m = g m) -> paints P g -> paints P f.
Proof. intros Hfg Hg m Hm. rewrite Hfg by done. by apply Hg. Qed.

(** What a loop leaves: the last picture that covers a cell. *)
Fixpoint layers {A} (P : A -> picture) (l : list A) : picture :=
  match l with [] => blank | a :: l => over (layers P l) (P a) end.

Lemma paints_layers {A} (P : A -> picture) f l :
  (forall a, a ∈ l -> paints (P a) (fun m => f m a)) -> paints (layers P l) (for_each l f).
Proof.
  induction l as [|a l IH]; intros H; [apply paints_blank|]. cbn [layers for_each].
  apply (paints_bind (P a)); [apply H, list_elem_of_here|].
  apply IH. intros. by apply H, list_elem_of_further.
Qed.

Lemma layers_Some {A} (P : A -> picture) l x y c :
  layers P l x y = Some c -> exists a, a ∈ l /\ P a x y = Some c.
Proof.
  induction l as [|a l IH]; [done|]. cbn [layers]. unfold over.
  destruct (layers P l x y) as [d|].
  - intros [= ->]. destruct IH as (b & Hb & Hc); [done|]. exists b. split; [by constructor|done].
  - intros Hc. exists a. split; [constructor|done].
Qed.

Lemma layers_None {A} (P : A -> picture) l x y a :
  layers P l x y = None -> a ∈ l -> P a x y = None.
Proof.
  induction l as [|b l IH]; [by intros _ ?%not_elem_of_nil|]. cbn [layers]. unfold over.
  destruct (layers P l x y); [done|]. intros Hb [->|Ha]%elem_of_cons; [done|by apply IH].
Qed.

(** A loop whose steps agree where they overlap paints their union. *)
Lemma paints_for_each {A} (P : A -> picture) (C : picture) f l :
  (forall a, a ∈ l -> paints (P a) (fun m => f m a)) ->
  (forall a x y c, a ∈ l -> on_grid w x y -> P a x y = Some c -> C x y = Some c) ->
  (forall x y c, on_grid w x y -> C x y = Some c -> exists a, a ∈ l /\ is_Some (P a x y)) ->
  paints C (for_each l f).
Proof.
  intros Hp Hin Hout. apply (paints_ext (layers P l)); [|by apply paints_layers].
  intros x y Hg. destruct (layers P l x y) as [c|] eqn:E.
  - apply layers_Some in E as (a & Ha & Hc). symmetry. by eapply Hin.
  - destruct (C x y) as [c|] eqn:EC; [|done]. exfalso.
    destruct (Hout x y c Hg EC) as (a & Ha & [d Hd]).
    rewrite (layers_None P l x y a E Ha) in Hd. done.
Qed.

(** ** Regions with a colour *)

(** A drawing phase: where it draws, and how dark. *)
Definition phase : Type := (Z -> Z -> bool) * (Z -> Z -> bool).

Definition phase_picture (p : phase) : picture :=
  fun x y => if fst p x y then Some (FunctionM (snd p x y)) else None.

Fixpoint phases_picture (ps : list phase) : picture :=
  match ps with [] => blank | p :: ps => over (phases_picture ps) (phase_picture p) end.

Definition phases_cover (ps : list phase) (x y : Z) : bool := existsb (fun p => fst p x y) ps.

Lemma phases_cover_spec ps x y :
  phases_cover ps x y = bool_decide (is_Some (phases_picture ps x y)).
Proof.
  induction ps as [|p ps IH]; [done|]. cbn [phases_cover existsb phases_picture].
  fold (phases_cover ps x y). rewrite IH. unfold over, phase_picture.
  destruct (phases_picture ps x y); cbn.
  - by rewrite orb_true_r.
  - by destruct (fst p x y).
Qed.

Lemma phases_picture_function ps x y c :
  phases_picture ps x y = Some c -> exists d, c = FunctionM d.
Proof.
  induction ps as [|p ps IH]; [done|]. cbn [phases_picture]. unfold over, phase_picture.
  destruct (phases_picture ps x y); [intros [= ->]; by apply IH|].
  destruct (fst p x y); [|done]. intros [= <-]. by eexists.
Qed.
End grid.

(** ** The standard's description *)

(** Distance of a cell to the centre of its finder, in rings. *)
Definition finder_ring (w x y : Z) : Z :=
  let near a := if decide (a ≤ 7)%Z then (a - 3)%Z else (a - (w - 4))%Z in
  Z.max (Z.abs (near x)) (Z.abs (near y)).

Definition finder_phase (w : Z) : phase :=
  (fun x y => bool_decide ((x ≤ 7 /\ y ≤ 7) \/ (w - 8 ≤ x /\ y ≤ 7) \/ (x ≤ 7 /\ w - 8 ≤ y))%Z,
   fun x y => bool_decide (finder_ring w x y <> 2 /\ finder_ring w x y <> 4)%Z).

(** One finder, of the part of the phase around its corner. *)
Definition finder_at (ox oy : Z) : phase :=
  (fun x y => bool_decide (-1 ≤ x - ox ≤ 7 /\ -1 ≤ y - oy ≤ 7)%Z,
   fun x y => finder_dark (x - ox) (y - oy)).

Definition timing_phase (w : Z) : phase :=
  (fun x y => bool_decide ((8 ≤ x < w - 8 /\ y = 6) \/ (x = 6 /\ 8 ≤ y < w - 8))%Z,
   fun x y => bool_decide ((x + y) `mod` 2 = 0)%Z).

(** Centres on all crossings but the three that fall on a finder. *)
Definition is_corner (last : nat) (i j : nat) : Prop :=
  (i = 0 /\ (j = 0 \/ j = last)) \/ (i = last /\ j = 0).
#[export] Instance is_corner_dec last i j : Decision (is_corner last i j).
Proof. unfold is_corner. apply _. Defined.

Definition crossings (ps : list Z) : list (nat * Z * (nat * Z)) :=
  pairs (enumerate ps) (enumerate ps).
Definition crossing_corner (ps : list Z) (c : nat * Z * (nat * Z)) : Prop :=
  is_corner (length ps - 1) (fst (fst c)) (fst (snd c)).
Definition crossing_point (c : nat * Z * (nat * Z)) : Z * Z := (snd (fst c), snd (snd c)).

#[export] Instance crossing_corner_dec ps c : Decision (crossing_corner ps c).
Proof. unfold crossing_corner. apply _. Defined.

Definition alignment_centres (ps : list Z) : list (Z * Z) :=
  crossing_point <$> filter (fun c => ~ crossing_corner ps c) (crossings ps).

Definition ring_of (x y : Z) (c : Z * Z) : Z := Z.max (Z.abs (x - fst c)) (Z.abs (y - snd c)).

Definition square_phase (c : Z * Z) : phase :=
  (fun x y => bool_decide (ring_of x y c ≤ 2)%Z, fun x y => bool_decide (ring_of x y c <> 1)%Z).

Definition alignment_phase (ps : list Z) : phase :=
  (fun x y => existsb (fun c => bool_decide (ring_of x y c ≤ 2)%Z) (alignment_centres ps),
   fun x y => match List.find (fun c => bool_decide (ring_of x y c ≤ 2)%Z) (alignment_centres ps) with
              | Some c => bool_decide (ring_of x y c <> 1)%Z
              | None => false
              end).

(** The alignment coordinates of a version: none, two, or a row of the table. *)
Definition positions (v : nat) : list Z :=
  if decide (v < 2) then []
  else if decide (7 ≤ v) then ALIGNMENT_POSITIONS !!! (v - 7)
  else [6; 17 + 4 * Z.of_nat v - 7]%Z.

(** Three by six blocks beside two of the finders. *)
Definition version_phase (v : nat) (w : Z) : phase :=
  (fun x y => bool_decide (7 ≤ v) && bool_decide ((w - 11 ≤ x ≤ w - 9 /\ y ≤ 5)
                                     \/ (x ≤ 5 /\ w - 11 ≤ y ≤ w - 9))%Z,
   fun x y => bit_of (version_info_bits v) (3 * Z.min x y + (Z.max x y - (w - 11)))%Z).

(** The two copies of the format bits, and the dark module. *)
Definition format_phases (w : Z) (ec : EcLevel) (mask : nat) : list phase :=
  let bit := bit_of (format_info_bits ec mask) in
  [ (fun x y => bool_decide (x = 8 /\ y < 6)%Z, fun x y => bit y);
    (fun x y => bool_decide (x = 8 /\ y = 7)%Z, fun x y => bit 6%Z);
    (fun x y => bool_decide (x = 8 /\ y = 8)%Z, fun x y => bit 7%Z);
    (fun x y => bool_decide (x = 7 /\ y = 8)%Z, fun x y => bit 8%Z);
    (fun x y => bool_decide (x < 6 /\ y = 8)%Z, fun x y => bit (14 - x)%Z);
    (fun x y => bool_decide (w - 9 < x /\ y = 8)%Z, fun x y => bit (w - 1 - x)%Z);
    (fun x y => bool_decide (x = 8 /\ w - 8 < y)%Z, fun x y => bit (y - (w - 15))%Z);
    (fun x y => bool_decide (x = 8 /\ y = w - 8)%Z, fun x y => true) ].

Definition static_phases (v : nat) (w : Z) : list phase :=
  [finder_phase w; timing_phase w; alignment_phase (positions v); version_phase v w].

(** ** The drawing code paints them *)

Section patterns.
Context (w : Z).
Hypothesis (Hw : (21 ≤ w)%Z).

(** A loop that sets one module per turn, some turns skipped. *)
Lemma paints_strip {A} (p : phase) (l : list A) (skip : A -> bool) (fx fy : A -> Z) (c : A -> bool) :
  (forall a, a ∈ l -> skip a = false -> on_grid w (fx a) (fy a)
     /\ fst p (fx a) (fy a) = true /\ snd p (fx a) (fy a) = c a) ->
  (forall x y, on_grid w x y -> fst p x y = true ->
     exists a, a ∈ l /\ skip a = false /\ fx a = x /\ fy a = y) ->
  paints w (phase_picture p)
    (for_each l (fun m a => if skip a then Ok m else set (fx a) (fy a) (FunctionM (c a)) m)).
Proof.
  intros Hin Hout.
  apply (paints_for_each w (fun a => if skip a then blank else dot (fx a) (fy a) (FunctionM (c a)))).
  - intros a Ha. destruct (skip a) eqn:Hs; [apply paints_blank|]. by apply paints_dot, Hin.
  - intros a x y md Ha Hg. destruct (skip a) eqn:Hs; [done|]. unfold dot. case_decide as He; [|done].
    destruct He as [-> ->]. intros [= <-]. destruct (Hin a Ha Hs) as (_ & Hr & Hc).
    unfold phase_picture. by rewrite Hr, Hc.
  - intros x y md Hg. unfold phase_picture. destruct (fst p x y) eqn:Hr; [|done]. intros _.
    destruct (Hout x y Hg Hr) as (a & Ha & Hs & Hx & Hy). exists a. split; [done|].
    rewrite Hs. unfold dot. rewrite decide_True by done. by eexists.
Qed.

Lemma elem_of_zrange lo hi i : i ∈ zrange lo hi <-> (lo ≤ i < hi)%Z.
Proof. unfold zrange. rewrite elem_of_seqZ. lia. Qed.

(** One strip of the format information. *)
Lemma paints_bits (p : phase) lo hi (fx fy : Z -> Z) (c : Z -> bool) :
  (forall i, (lo ≤ i < hi)%Z -> on_grid w (fx i) (fy i)
     /\ fst p (fx i) (fy i) = true /\ snd p (fx i) (fy i) = c i) ->
  (forall x y, on_grid w x y -> fst p x y = true ->
     exists i, (lo ≤ i < hi)%Z /\ fx i = x /\ fy i = y) ->
  paints w (phase_picture p)
    (for_each (zrange lo hi) (fun m i => set (fx i) (fy i) (FunctionM (c i)) m)).
Proof.
  intros Hin Hout. apply (paints_strip p _ (fun _ => false)).
  - intros i Hi%elem_of_zrange _. by apply Hin.
  - intros x y Hg Hr. destruct (Hout x y Hg Hr) as (i & Hi & Hx & Hy).
    exists i. by rewrite elem_of_zrange.
Qed.

Lemma paints_one (p : phase) px py c :
  on_grid w px py -> (forall x y, on_grid w x y -> fst p x y = bool_decide (x = px /\ y = py)) ->
  snd p px py = c -> paints w (phase_picture p) (set px py (FunctionM c)).
Proof.
  intros Hg Hr Hc. apply (paints_ext w (dot px py (FunctionM c))); [|by apply paints_dot].
  intros x y Hxy. unfold phase_picture, dot. rewrite Hr by done.
  case_decide as He; case_bool_decide; try tauto. destruct He as [-> ->]. by rewrite Hc.
Qed.

Ltac region := cbn [fst snd finder_at]; rewrite ?bool_decide_eq_true; unfold on_grid in *.

(** Steps in sequence paint their phases, the later on top. *)
Fixpoint run (fs : list (Matrix -> res Matrix)) (m : Matrix) : res Matrix :=
  match fs with
  | [] => Ok m
  | [f] => f m
  | f :: fs => m ← f m; run fs m
  end.

Lemma paints_run ps fs :
  Forall2 (fun p f => paints w (phase_picture p) f) ps fs -> paints w (phases_picture ps) (run fs).
Proof.
  induction 1 as [|p f ps fs Hf Hfs IH]; [apply paints_blank|]. destruct Hfs as [|p2 f2 ps fs H2 Hfs].
  - cbn [run phases_picture]. eapply (paints_ext w); [|exact Hf]. done.
  - apply (paints_bind w (phase_picture p)); [exact Hf|exact IH].
Qed.

Definition format_steps (ec : EcLevel) (mask : nat) : list (Matrix -> res Matrix) :=
  let bits := format_info_bits ec mask in
  let bit i := FunctionM (bit_of bits i) in
  [ for_each (zrange 0 6) (fun m i => set 8 i (bit i) m);
    set 8 7 (bit 6%Z); set 8 8 (bit 7%Z); set 7 8 (bit 8%Z);
    for_each (zrange 9 15) (fun m i => set (14 - i) 8 (bit i) m);
    for_each (zrange 0 8) (fun m i => set (w - 1 - i) 8 (bit i) m);
    for_each (zrange 8 15) (fun m i => set 8 (w - 15 + i) (bit i) m);
    set 8 (w - 8) (FunctionM true) ].

Lemma draw_format_steps ec mask m :
  mwidth m = w -> draw_format_info ec mask m = run (format_steps ec mask) m.
Proof. intros E. unfold draw_format_info, format_steps. by rewrite E. Qed.

Lemma format_paints ec mask :
  paints w (phases_picture (format_phases w ec mask)) (draw_format_info ec mask).
Proof.
  apply (paints_fun w _ _ (run (format_steps ec mask)));
    [intros m [Hm _]; by apply draw_format_steps|].
  apply paints_run. unfold format_phases, format_steps. repeat apply Forall2_cons_2;
    [| | | | | | | |apply Forall2_nil_2].
  - apply (paints_bits _ 0 6 (fun _ => 8%Z) (fun i => i)).
    + intros i Hi. region. split; [lia|]. split; [lia|done].
    + intros x y Hg. region. intros H. exists y. lia.
  - apply paints_one; [region; lia|done|done].
  - apply paints_one; [region; lia|done|done].
  - apply paints_one; [region; lia|done|done].
  - apply (paints_bits _ 9 15 (fun i => 14 - i)%Z (fun _ => 8%Z)).
    + intros i Hi. region. split; [lia|]. split; [lia|]. f_equal. lia.
    + intros x y Hg. region. intros H. exists (14 - x)%Z. lia.
  - apply (paints_bits _ 0 8 (fun i => w - 1 - i)%Z (fun _ => 8%Z)).
    + intros i Hi. region. split; [lia|]. split; [lia|]. f_equal. lia.
    + intros x y Hg. region. intros H. exists (w - 1 - x)%Z. lia.
  - apply (paints_bits _ 8 15 (fun _ => 8%Z) (fun i => w - 15 + i)%Z).
    + intros i Hi. region. split; [lia|]. split; [lia|]. f_equal. lia.
    + intros x y Hg. region. intros H. exists (y - (w - 15))%Z. lia.
  - apply paints_one; [region; lia|done|done].
Qed.

(** *** Finders and timing *)

Lemma finder_dark_ring dx dy :
  (-1 ≤ dx ≤ 7)%Z -> (-1 ≤ dy ≤ 7)%Z ->
  finder_dark dx dy
  = bool_decide (Z.max (Z.abs (dx - 3)) (Z.abs (dy - 3)) <> 2
                 /\ Z.max (Z.abs (dx - 3)) (Z.abs (dy - 3)) <> 4)%Z.
Proof.
  intros Hx Hy. apply (bool_decide_eq_true_1 (_ = _)).
  replace dx with ((dx + 1) - 1)%Z by lia. replace dy with ((dy + 1) - 1)%Z by lia.
  assert (0 ≤ dx + 1 < Z.of_nat 9 /\ 0 ≤ dy + 1 < Z.of_nat 9)%Z as [H1 H2] by lia.
  revert H1 H2. generalize (dx + 1)%Z, (dy + 1)%Z. intros a b Ha Hb. revert a b Ha Hb.
  apply forall_below2. vm_compute. reflexivity.
Qed.

Lemma finder_one ox oy : paints w (phase_picture (finder_at ox oy)) (fun m => draw_finder m (ox, oy)).
Proof.
  apply (paints_fun w _ _ (for_each (pairs (zrange (-1) 8) (zrange (-1) 8)) (fun m a =>
    if bool_decide (~ on_grid w (ox + snd a) (oy + fst a)) then Ok m
    else set (ox + snd a) (oy + fst a) (FunctionM (finder_dark (snd a) (fst a))) m))).
  { intros m [Hm _]. unfold draw_finder. rewrite Hm, <- for_each_nested.
    apply for_each_ext. intros s dy _. apply for_each_ext. intros s' dx _. cbn [fst snd].
    unfold on_grid. case_decide; case_bool_decide; done || lia. }
  apply (paints_strip (finder_at ox oy) _
    (fun a : Z * Z => bool_decide (~ on_grid w (ox + snd a) (oy + fst a)))
    (fun a => ox + snd a)%Z (fun a => oy + fst a)%Z).
  - intros [dy dx] [Hy Hx]%elem_of_pairs Hg. apply elem_of_zrange in Hx, Hy. cbn [fst snd] in *.
    apply bool_decide_eq_false_1, dec_stable in Hg. split; [done|]. region.
    split; [lia|]. f_equal; lia.
  - intros x y Hg Hr. exists (y - oy, x - ox)%Z. rewrite elem_of_pairs, !elem_of_zrange.
    revert Hr. region. intros Hr. cbn [fst snd].
    split; [lia|]. split; [|lia]. apply bool_decide_eq_false_2.
    replace (ox + (x - ox))%Z with x by lia. replace (oy + (y - oy))%Z with y by lia.
    intros H. by apply H.
Qed.

Lemma finder_paints :
  paints w (phase_picture (finder_phase w))
    (for_each [(0, 0); (w - 7, 0); (0, w - 7)]%Z draw_finder).
Proof.
  apply (paints_for_each w (fun o => phase_picture (finder_at (fst o) (snd o)))).
  - intros [ox oy] _. apply finder_one.
  - intros [ox oy] x y c Ho Hg. unfold phase_picture. cbn [fst snd finder_at finder_phase].
    case_bool_decide as Hr; [|done]. intros [= <-].
    rewrite !elem_of_cons, elem_of_nil in Ho. unfold on_grid in Hg.
    assert ((ox = 0 \/ ox = w - 7) /\ (oy = 0 \/ oy = w - 7) /\ (ox = 0 \/ oy = 0))%Z as (Hox & Hoy & Hc)
      by (destruct Ho as [[= -> ->]|[[= -> ->]|[[= -> ->]|[]]]]; lia).
    rewrite bool_decide_true by lia. do 2 f_equal. rewrite finder_dark_ring by lia.
    unfold finder_ring. f_equal. apply bool_decide_ext.
    assert ((if decide (x ≤ 7) then x - 3 else x - (w - 4)) = x - ox - 3)%Z as -> by (case_decide; lia).
    assert ((if decide (y ≤ 7) then y - 3 else y - (w - 4)) = y - oy - 3)%Z as -> by (case_decide; lia).
    done.
  - intros x y c Hg. unfold phase_picture. cbn [fst snd finder_at finder_phase].
    case_bool_decide as Hr; [|done]. intros _. unfold on_grid in Hg.
    destruct (decide (x ≤ 7)%Z), (decide (y ≤ 7)%Z); try lia;
      [exists (0, 0)%Z|exists (0, w - 7)%Z|exists (w - 7, 0)%Z];
      (split; [rewrite !elem_of_cons; auto|cbn [fst snd]; rewrite bool_decide_true by lia; by eexists]).
Qed.

Lemma timing_paints : paints w (phase_picture (timing_phase w)) draw_timing.
Proof.
  apply (paints_fun w _ _ (for_each (zrange 8 (w - 8)) (fun m i =>
    m ← set i 6 (FunctionM (bool_decide (i `mod` 2 = 0)%Z)) m;
    set 6 i (FunctionM (bool_decide (i `mod` 2 = 0)%Z)) m))).
  { intros m [Hm _]. unfold draw_timing. by rewrite Hm. }
  apply (paints_for_each w (fun i =>
    over (dot 6 i (FunctionM (bool_decide (i `mod` 2 = 0)%Z)))
         (dot i 6 (FunctionM (bool_decide (i `mod` 2 = 0)%Z))))).
  - intros i Hi%elem_of_zrange. apply paints_bind; apply paints_dot; region; lia.
  - intros i x y c Hi%elem_of_zrange Hg. unfold over, dot, phase_picture. cbn [fst snd timing_phase].
    assert (forall a b, (a = i /\ b = 6)%Z \/ (a = 6 /\ b = i)%Z ->
      bool_decide ((a + b) `mod` 2 = 0)%Z = bool_decide (i `mod` 2 = 0)%Z) as Hpar.
    { intros a b Hab. apply bool_decide_ext. assert (a + b = i + 3 * 2)%Z as -> by lia.
      by rewrite Z.mod_add. }
    intros H. assert (((x = i /\ y = 6) \/ (x = 6 /\ y = i))%Z
      /\ c = FunctionM (bool_decide (i `mod` 2 = 0)%Z)) as [Hxy ->].
    { destruct (decide (x = 6 /\ y = i)%Z); [injection H as <-; split; [lia|done]|].
      destruct (decide (x = i /\ y = 6)%Z); [injection H as <-; split; [lia|done]|done]. }
    rewrite (bool_decide_true (_ \/ _)) by lia. by rewrite (Hpar x y Hxy).
  - intros x y c Hg. unfold phase_picture. cbn [fst snd timing_phase].
    case_bool_decide as Hr; [|done]. intros _. unfold over, dot.
    destruct (decide (x = 6)%Z) as [->|Hx].
    + exists y. rewrite elem_of_zrange. rewrite decide_True by lia. split; [lia|by eexists].
    + exists x. rewrite elem_of_zrange. split; [lia|]. case_decide; [by eexists|].
      rewrite decide_True by lia. by eexists.
Qed.
End patterns.

(** *** Alignment *)

Definition spaced (ps : list Z) : Prop :=
  Forall (fun c => (Z.abs (snd (fst c) - snd (snd c)) ≤ 4)%Z -> fst (fst c) = fst (snd c))
    (crossings ps).

Lemma positions_ok v :
  2 ≤ v ≤ 40 ->
  let w := (17 + 4 * Z.of_nat v)%Z in
  alignment_positions v w = Ok (positions v)
  /\ Forall (fun p => 6 ≤ p ≤ w - 7)%Z (positions v) /\ spaced (positions v).
Proof.
  intros Hv.
  assert (forallb (fun v => let w := (17 + 4 * Z.of_nat v)%Z in
    bool_decide (alignment_positions v w = Ok (positions v)
      /\ Forall (fun p => 6 ≤ p ≤ w - 7)%Z (positions v)
      /\ Forall (fun c => (Z.abs (snd (fst c) - snd (snd c)) ≤ 4)%Z -> fst (fst c) = fst (snd c))
           (crossings (positions v))))
    (seq 2 39) = true) as H by (vm_compute; reflexivity).
  rewrite forallb_forall in H. specialize (H v).
  rewrite <- list_elem_of_In, elem_of_seq in H. specialize (H ltac:(lia)).
  by apply bool_decide_eq_true_1 in H.
Qed.

Lemma elem_of_enumerate {A} (l : list A) i x : (i, x) ∈ enumerate l -> l !! i = Some x.
Proof.
  unfold enumerate, enumerate_from. intros [k Hk]%list_elem_of_lookup.
  rewrite lookup_zip_with in Hk. apply bind_Some in Hk as (j & Hj & Hk).
  apply bind_Some in Hk as (y & Hy & [= -> ->]).
  apply lookup_seq in Hj as [-> _]. by rewrite Nat.add_0_l.
Qed.

Section alignment.
Context (v : nat) (w : Z).
Hypothesis (Hv : 2 ≤ v ≤ 40) (Hw : w = (17 + 4 * Z.of_nat v)%Z).

Lemma square_paints cx cy :
  (6 ≤ cx ≤ w - 7)%Z -> (6 ≤ cy ≤ w - 7)%Z ->
  paints w (phase_picture (square_phase (cx, cy))) (draw_alignment cx cy).
Proof.
  intros Hx Hy.
  apply (paints_fun w _ _ (for_each (pairs (zrange (-2) 3) (zrange (-2) 3)) (fun m a =>
    if (fun _ => false) a then Ok m
    else set (cx + snd a) (cy + fst a)
      (FunctionM (bool_decide (Z.max (Z.abs (snd a)) (Z.abs (fst a)) <> 1)%Z)) m))).
  { intros m _. unfold draw_alignment. by rewrite <- for_each_nested. }
  apply (paints_strip w (square_phase (cx, cy)) _ (fun _ => false) (fun a => cx + snd a)%Z
    (fun a => cy + fst a)%Z
    (fun a => bool_decide (Z.max (Z.abs (snd a)) (Z.abs (fst a)) <> 1)%Z)).
  - intros [dy dx] [Hdy Hdx]%elem_of_pairs _. rewrite elem_of_zrange in Hdx, Hdy.
    cbn [fst snd square_phase]. unfold on_grid, ring_of. cbn [fst snd].
    rewrite bool_decide_eq_true. split; [lia|]. split; [lia|]. apply bool_decide_ext. lia.
  - intros x y Hg. cbn [fst square_phase]. rewrite bool_decide_eq_true. unfold ring_of.
    cbn [fst snd]. intros Hr. exists (y - cy, x - cx)%Z.
    rewrite elem_of_pairs, !elem_of_zrange. cbn [fst snd]. split; [lia|]. split; [done|]. lia.
Qed.

(** A cell is near at most one centre. *)
Lemma centre_unique x y c c' :
  c ∈ alignment_centres (positions v) -> c' ∈ alignment_centres (positions v) ->
  (ring_of x y c ≤ 2)%Z -> (ring_of x y c' ≤ 2)%Z -> c = c'.
Proof.
  destruct (positions_ok v Hv) as (_ & _ & Hs). unfold spaced in Hs. rewrite Forall_forall in Hs.
  unfold alignment_centres. rewrite !list_elem_of_fmap.
  intros ([[i p] [j q]] & -> & Hc) ([[i' p'] [j' q']] & -> & Hc') H1 H2.
  apply list_elem_of_filter in Hc as [_ Hc], Hc' as [_ Hc'].
  unfold crossings in Hc, Hc', Hs. rewrite elem_of_pairs in Hc, Hc'.
  unfold ring_of, crossing_point in *. cbn [fst snd] in *.
  assert (i = i') as <-.
  { refine (Hs ((i, p), (i', p')) _ _); [apply elem_of_pairs; tauto|cbn [fst snd]; lia]. }
  assert (j = j') as <-.
  { refine (Hs ((j, q), (j', q')) _ _); [apply elem_of_pairs; tauto|cbn [fst snd]; lia]. }
  destruct Hc as [Hp%elem_of_enumerate Hq%elem_of_enumerate].
  destruct Hc' as [Hp'%elem_of_enumerate Hq'%elem_of_enumerate].
  rewrite Hp in Hp'. rewrite Hq in Hq'. by simplify_eq.
Qed.

Lemma alignment_cell x y c :
  c ∈ alignment_centres (positions v) -> (ring_of x y c ≤ 2)%Z ->
  phase_picture (alignment_phase (positions v)) x y
  = Some (FunctionM (bool_decide (ring_of x y c <> 1)%Z)).
Proof.
  intros Hc Hr. unfold phase_picture. cbn [fst snd alignment_phase].
  destruct (List.find _ _) as [c'|] eqn:E.
  - apply find_some in E as [Hc'%list_elem_of_In Hr'%bool_decide_eq_true_1].
    rewrite (centre_unique x y c' c) by done.
    assert (existsb (fun c => bool_decide (ring_of x y c ≤ 2)%Z) (alignment_centres (positions v)) = true) as ->;
      [|done].
    apply existsb_exists. exists c. rewrite <- list_elem_of_In, bool_decide_eq_true. done.
  - exfalso. apply list_elem_of_In in Hc. apply (find_none _ _ E c) in Hc.
    by apply bool_decide_eq_false_1 in Hc.
Qed.

Lemma crossing_centre c :
  c ∈ crossings (positions v) -> ~ crossing_corner (positions v) c ->
  crossing_point c ∈ alignment_centres (positions v).
Proof.
  intros Hc Hn. unfold alignment_centres. apply list_elem_of_fmap. exists c. split; [done|].
  by apply list_elem_of_filter.
Qed.

Lemma crossing_bounds c :
  c ∈ crossings (positions v) ->
  (6 ≤ fst (crossing_point c) ≤ w - 7 /\ 6 ≤ snd (crossing_point c) ≤ w - 7)%Z.
Proof.
  destruct (positions_ok v Hv) as (_ & Hb & _). rewrite <- Hw in Hb.
  destruct c as [[i p] [j q]]. intros [Hp%elem_of_enumerate Hq%elem_of_enumerate]%elem_of_pairs.
  split; [exact (Forall_lookup_1 _ _ _ _ Hb Hp)|exact (Forall_lookup_1 _ _ _ _ Hb Hq)].
Qed.

Lemma alignment_paints :
  paints w (phase_picture (alignment_phase (positions v))) (draw_alignments v).
Proof.
  destruct (positions_ok v Hv) as (Ep & _). rewrite <- Hw in Ep.
  apply (paints_fun w _ _ (for_each (crossings (positions v)) (fun m c =>
    if decide (crossing_corner (positions v) c) then Ok m
    else draw_alignment (fst (crossing_point c)) (snd (crossing_point c)) m))).
  { intros m [Hm _]. unfold draw_alignments. rewrite decide_True by lia. rewrite Hm, Ep, bind_Ok_eq.
    unfold crossings. rewrite <- for_each_nested. apply for_each_ext. intros s [i cx] _.
    apply for_each_ext. intros s' [j cy] _. done. }
  apply (paints_for_each w (fun c => if decide (crossing_corner (positions v) c) then blank
    else phase_picture (square_phase (crossing_point c)))).
  - intros c Hc. case_decide; [apply paints_blank|].
    destruct (crossing_bounds c Hc) as [Hx Hy]. destruct (crossing_point c) as [cx cy].
    by apply square_paints.
  - intros c x y d Hc Hg. case_decide as Hn; [done|]. intros Hd.
    unfold phase_picture in Hd. cbn [fst snd square_phase] in Hd.
    destruct (bool_decide (ring_of x y (crossing_point c) ≤ 2)%Z) eqn:Hr; [|done].
    apply bool_decide_eq_true_1 in Hr. rewrite (alignment_cell x y (crossing_point c)) by
      (done || by apply crossing_centre). exact Hd.
  - intros x y d Hg Hd. unfold phase_picture in Hd. cbn [fst alignment_phase] in Hd.
    destruct (existsb _ _) eqn:He; [|done]. apply existsb_exists in He as (c & Hc & Hr).
    apply list_elem_of_In in Hc. unfold alignment_centres in Hc.
    apply list_elem_of_fmap in Hc as (k & -> & Hk). apply list_elem_of_filter in Hk as [Hn Hk].
    exists k. split; [done|]. rewrite decide_False by done. unfold phase_picture.
    cbn [fst square_phase]. rewrite Hr. by eexists.
Qed.
End alignment.

(** *** Version information *)

Lemma version_paints v w :
  7 ≤ v -> w = (17 + 4 * Z.of_nat v)%Z ->
  paints w (phase_picture (version_phase v w)) (draw_version_info v).
Proof.
  intros Hv Hw. set (bits := version_info_bits v).
  apply (paints_fun w _ _ (for_each (zrange 0 18) (fun m i =>
    m ← set (w - 11 + i `mod` 3) (i / 3) (FunctionM (bit_of bits i)) m;
    set (i / 3) (w - 11 + i `mod` 3) (FunctionM (bit_of bits i)) m)%Z)).
  { intros m [Hm _]. unfold draw_version_info. rewrite decide_True by lia. by rewrite Hm. }
  assert (forall i, (0 ≤ i < 18)%Z -> (0 ≤ i `mod` 3 ≤ 2 /\ 0 ≤ i / 3 ≤ 5 /\ i = 3 * (i / 3) + i `mod` 3)%Z)
    as Hi by (intros i Hi; pose proof (Z.div_mod i 3); pose proof (Z.mod_pos_bound i 3); lia).
  apply (paints_for_each w (fun i =>
    over (dot (i / 3) (w - 11 + i `mod` 3) (FunctionM (bit_of bits i)))
         (dot (w - 11 + i `mod` 3) (i / 3) (FunctionM (bit_of bits i))))%Z).
  - intros i H%elem_of_zrange. specialize (Hi i H).
    apply paints_bind; apply paints_dot; unfold on_grid; lia.
  - intros i x y c H%elem_of_zrange Hg Hc. specialize (Hi i H). unfold over, dot in Hc.
    set (a := (w - 11 + i `mod` 3)%Z) in *. set (b := (i / 3)%Z) in *.
    assert (((x = a /\ y = b) \/ (x = b /\ y = a)) /\ c = FunctionM (bit_of bits i)) as [Hxy ->].
    { destruct (decide (x = b /\ y = a)); [injection Hc as <-; tauto|].
      destruct (decide (x = a /\ y = b)); [injection Hc as <-; tauto|done]. }
    unfold phase_picture. cbn [fst snd version_phase].
    rewrite (bool_decide_true (7 ≤ v)) by done. rewrite bool_decide_true by lia. cbn [andb].
    do 2 f_equal. fold bits. f_equal. lia.
  - intros x y c Hg. unfold phase_picture. cbn [fst version_phase].
    rewrite (bool_decide_true (7 ≤ v)) by done. cbn [andb].
    case_bool_decide as Hr; [|done]. intros _. unfold on_grid in Hg.
    set (b := Z.min x y). set (a := Z.max x y).
    exists (3 * b + (a - (w - 11)))%Z. rewrite elem_of_zrange. split; [lia|].
    assert ((3 * b + (a - (w - 11))) / 3 = b /\ (3 * b + (a - (w - 11))) `mod` 3 = a - (w - 11))%Z
      as [-> ->].
    { split; symmetry; [apply (Z.div_unique _ 3 b (a - (w - 11)))|apply (Z.mod_unique _ 3 b)]; lia. }
    unfold over, dot. destruct (decide (x = b /\ _)); [by eexists|].
    rewrite decide_True by lia. by eexists.
Qed.

(** *** All of them *)

Definition symbol_phases (v : nat) (ec : EcLevel) (mask : nat) : list phase :=
  let w := (17 + 4 * Z.of_nat v)%Z in static_phases v w ++ format_phases w ec mask.

Lemma paints_nothing w p f :
  (forall x y, fst p x y = false) -> (forall m, f m = Ok m) -> paints w (phase_picture p) f.
Proof.
  intros Hp Hf. apply (paints_ext w blank); [|by apply (paints_fun w _ _ Ok); [|apply paints_blank]].
  intros x y _. unfold phase_picture. by rewrite Hp.
Qed.

Lemma phases_picture_app ps qs x y :
  phases_picture (ps ++ qs) x y = over (phases_picture qs) (phases_picture ps) x y.
Proof.
  unfold over. induction ps as [|p ps IH]; cbn [app phases_picture].
  - by destruct (phases_picture qs x y).
  - unfold over. rewrite IH. by destruct (phases_picture qs x y).
Qed.

Lemma draw_function_patterns_paints v ec :
  1 ≤ v ≤ 40 ->
  paints (17 + 4 * Z.of_nat v) (phases_picture (symbol_phases v ec 0)) (draw_function_patterns v ec).
Proof.
  intros Hv. set (w := (17 + 4 * Z.of_nat v)%Z). assert (21 ≤ w)%Z as Hw by lia.
  apply (paints_ext w (over (phases_picture (format_phases w ec 0)) (phases_picture (static_phases v w)))).
  { intros x y _. symmetry. apply phases_picture_app. }
  apply (paints_fun w _ _ (fun m =>
    m ← run [for_each [(0, 0); (w - 7, 0); (0, w - 7)]%Z draw_finder; draw_timing; draw_alignments v;
             draw_version_info v] m;
    draw_format_info ec 0 m)).
  { intros m [Hm _]. unfold draw_function_patterns. rewrite Hm. cbn [run].
    destruct (for_each _ draw_finder m) as [m1| |]; cbn [mbind result_bind]; [|done..].
    destruct (draw_timing m1) as [m2| |]; cbn [mbind result_bind]; [|done..].
    destruct (draw_alignments v m2) as [m3| |]; done. }
  apply paints_bind; [|by apply format_paints].
  apply paints_run. repeat apply Forall2_cons_2; [| | | |apply Forall2_nil_2].
  - by apply finder_paints.
  - by apply timing_paints.
  - destruct (decide (2 ≤ v)); [by apply alignment_paints; [lia|]|].
    apply paints_nothing.
    + intros x y. unfold positions. by rewrite decide_True by lia.
    + intros m. unfold draw_alignments. by rewrite decide_False by lia.
  - destruct (decide (7 ≤ v)); [by apply version_paints|].
    apply paints_nothing.
    + intros x y. cbn [fst version_phase]. by rewrite bool_decide_false by lia.
    + intros m. unfold draw_version_info. by rewrite decide_False by lia.
Qed.
