(* ===== verification/QrZigzag.v ===== *)
(** * Where the codewords go

    The zigzag over the cells that no pattern claims: the order the placement
    loop visits, the proof that all codewords of every version and level fit,
    and what the cells hold afterwards. *)
From S2P Require Import Prelude QrCode QrBlocks QrSymbol QrPatterns.

(** ** The order *)

(** The right-hand columns: in twos from the edge, past the timing column. *)
Definition column_starts (v : nat) : list Z :=
  ((fun k => 16 + 4 * Z.of_nat v - 2 * k)%Z <$> seqZ 0 (5 + 2 * Z.of_nat v)) ++ [5; 3; 1]%Z.

Definition column_cells (w right : Z) : list (Z * Z) :=
  (fun a => ((right - snd a)%Z,
             if bool_decide (Z.land (right + 1) 2 = 0)%Z then (w - 1 - fst a)%Z else fst a))
  <$> pairs (zrange 0 w) (zrange 0 2).

Definition zigzag (v : nat) : list (Z * Z) :=
  column_starts v ≫= column_cells (17 + 4 * Z.of_nat v).

(** Cells of function patterns; which they are does not depend on the level
    or the mask. *)
Definition function_cell (v : nat) (x y : Z) : bool := phases_cover (symbol_phases v EcL 0) x y.

Lemma function_cell_spec v ec mask x y :
  function_cell v x y = bool_decide (is_Some (phases_picture (symbol_phases v ec mask) x y)).
Proof. rewrite <- phases_cover_spec. reflexivity. Qed.

Definition data_cells (v : nat) : list (Z * Z) :=
  filter (fun c => function_cell v (fst c) (snd c) = false) (zigzag v).

Definition place (cw : bytes) (s : Matrix * nat) (c : Z * Z) : res (Matrix * nat) :=
  place_bit cw (fst c) (snd c) s.

Lemma place_columns_path cw w right s :
  place_columns cw w right s = for_each (column_cells w right) (place cw) s.
Proof.
  unfold place_columns, column_cells. rewrite for_each_fmap, <- for_each_nested. reflexivity.
Qed.

Section order.
Context (v : nat) (w : Z).
Hypothesis (Hv : 1 ≤ v ≤ 40) (Hw : w = (17 + 4 * Z.of_nat v)%Z).

Lemma codewords_loop_tail cw fuel s :
  3 < fuel -> codewords_loop fuel cw w 6 s = for_each [5; 3; 1]%Z (fun s r => place_columns cw w r s) s.
Proof.
  intros Hf. do 4 (destruct fuel as [|fuel]; [lia|]).
  cbn [codewords_loop for_each]. rewrite decide_True by lia. rewrite decide_True by done.
  destruct (place_columns cw w 5 s) as [s1| |]; cbn [mbind result_bind]; [|done..].
  change (5 - 2)%Z with 3%Z. rewrite decide_True by lia. rewrite decide_False by lia.
  destruct (place_columns cw w 3 s1) as [s2| |]; cbn [mbind result_bind]; [|done..].
  change (3 - 2)%Z with 1%Z. rewrite decide_True by lia. rewrite decide_False by lia.
  destruct (place_columns cw w 1 s2) as [s3| |]; cbn [mbind result_bind]; [|done..].
  by rewrite decide_False by lia.
Qed.

Lemma codewords_loop_starts cw n fuel s :
  n + 4 ≤ fuel ->
  codewords_loop fuel cw w (6 + 2 * Z.of_nat n) s
  = for_each (((fun k => 6 + 2 * Z.of_nat n - 2 * k)%Z <$> seqZ 0 (Z.of_nat n)) ++ [5; 3; 1]%Z)
      (fun s r => place_columns cw w r s) s.
Proof.
  revert fuel s. induction n as [|n IH]; intros fuel s Hf.
  - rewrite Z.add_0_r. rewrite seqZ_nil by lia. cbn [fmap list_fmap app]. apply codewords_loop_tail. lia.
  - destruct fuel as [|fuel]; [lia|]. cbn [codewords_loop].
    rewrite decide_True by lia. rewrite decide_False by lia.
    rewrite seqZ_cons by lia. cbn [fmap list_fmap app for_each].
    replace (6 + 2 * Z.of_nat (S n) - 2 * 0)%Z with (6 + 2 * Z.of_nat (S n))%Z by lia.
    destruct (place_columns cw w (6 + 2 * Z.of_nat (S n)) s) as [s1| |]; cbn [mbind result_bind]; [|done..].
    replace (6 + 2 * Z.of_nat (S n) - 2)%Z with (6 + 2 * Z.of_nat n)%Z by lia.
    rewrite IH by lia. f_equal. f_equal.
    replace (Z.pred (Z.of_nat (S n))) with (Z.of_nat n) by lia.
    rewrite <- (fmap_add_seqZ 1 0), <- list_fmap_compose.
    apply list_fmap_ext. intros _ k _. cbn. lia.
Qed.

Lemma draw_codewords_path cw m :
  mwidth m = w ->
  draw_codewords cw m = ('(m, _) ← for_each (zigzag v) (place cw) (m, 0); Ok m).
Proof.
  intros Hm. unfold draw_codewords. rewrite Hm. unfold zigzag. rewrite for_each_bind.
  replace (w - 1)%Z with (6 + 2 * Z.of_nat (5 + 2 * v))%Z by lia.
  rewrite codewords_loop_starts by lia. unfold column_starts.
  replace (Z.of_nat (5 + 2 * v)) with (5 + 2 * Z.of_nat v)%Z by lia.
  rewrite (for_each_ext _ _ (fun s r => for_each (column_cells (17 + 4 * Z.of_nat v) r) (place cw) s)).
  2: { intros s r _. rewrite <- Hw. apply place_columns_path. }
  assert (forall k, (6 + 2 * (5 + 2 * Z.of_nat v) - 2 * k)%Z = (16 + 4 * Z.of_nat v - 2 * k)%Z) as E by lia.
  f_equal. f_equal. f_equal. apply list_fmap_ext. intros _ k _. apply E.
Qed.

Lemma elem_of_column_starts r :
  r ∈ column_starts v -> (1 ≤ r ≤ w - 1)%Z /\ ((r `mod` 2 = 0 /\ 8 ≤ r) \/ (r `mod` 2 = 1 /\ r ≤ 5))%Z.
Proof.
  unfold column_starts. rewrite elem_of_app, list_elem_of_fmap.
  intros [(k & -> & Hk%elem_of_seqZ)|Hr].
  - split; [lia|]. left. split; [|lia].
    replace (16 + 4 * Z.of_nat v - 2 * k)%Z with (0 + (8 + 2 * Z.of_nat v - k) * 2)%Z by lia.
    by rewrite Z.mod_add.
  - rewrite !elem_of_cons, elem_of_nil in Hr.
    destruct Hr as [->|[->|[->|[]]]]; (split; [lia|right; split; [done|lia]]).
Qed.

Lemma NoDup_column_starts : NoDup (column_starts v).
Proof.
  unfold column_starts. apply NoDup_app. split; [|split].
  - apply NoDup_fmap_2; [intros k k'; lia|apply NoDup_seqZ].
  - intros r (k & -> & Hk%elem_of_seqZ)%list_elem_of_fmap.
    rewrite !elem_of_cons, elem_of_nil. lia.
  - apply (bool_decide_eq_true_1 (NoDup [5; 3; 1]%Z)). reflexivity.
Qed.

Lemma elem_of_column_cells r x y :
  (x, y) ∈ column_cells w r -> (r - 1 ≤ x ≤ r)%Z /\ (0 ≤ y < w)%Z.
Proof.
  unfold column_cells. intros ([vert j] & [= -> ->] & Ha)%list_elem_of_fmap.
  apply elem_of_pairs in Ha as [Hvert Hj]. rewrite elem_of_zrange in Hvert, Hj. cbn [fst snd].
  case_bool_decide; lia.
Qed.

Lemma NoDup_zrange lo hi : NoDup (zrange lo hi).
Proof. apply NoDup_seqZ. Qed.

Lemma NoDup_zigzag : NoDup (zigzag v).
Proof.
  unfold zigzag. rewrite <- Hw. apply NoDup_bind; [| |apply NoDup_column_starts].
  - intros r r' [x y] Hr Hr' [Hx _]%elem_of_column_cells [Hx' _]%elem_of_column_cells.
    apply elem_of_column_starts in Hr as [_ Hr], Hr' as [_ Hr'].
    pose proof (Z.div_mod r 2). pose proof (Z.div_mod r' 2). lia.
  - intros r _. unfold column_cells. apply NoDup_fmap_2; [|apply NoDup_pairs; apply NoDup_zrange].
    intros [a b] [a' b'] [= Hx Hy]. cbn [fst snd] in *. f_equal; [|lia].
    destruct (bool_decide _); lia.
Qed.

Lemma zigzag_on_grid c : c ∈ zigzag v -> on_grid w (fst c) (snd c) /\ fst c <> 6%Z.
Proof.
  destruct c as [x y]. unfold zigzag. rewrite <- Hw, list_elem_of_bind.
  intros (r & Hc%elem_of_column_cells & Hr%elem_of_column_starts). unfold on_grid. cbn [fst snd].
  destruct Hr as [Hr Hpar]. split; [lia|]. intros ->.
  assert (r = 6 \/ r = 7)%Z as [-> | ->] by lia; cbn in Hpar; lia.
Qed.

Lemma length_bind_const {A B} (f : A -> list B) n l :
  (forall a, length (f a) = n) -> length (l ≫= f) = length l * n.
Proof. intros Hf. induction l as [|a l IH]; [done|]. rewrite bind_cons, length_app, IH, Hf. done. Qed.

Lemma length_zigzag : Z.of_nat (length (zigzag v)) = (w * (w - 1))%Z.
Proof.
  unfold zigzag. rewrite (length_bind_const _ (Z.to_nat w * 2)).
  - unfold column_starts. rewrite length_app, length_fmap, length_seqZ. cbn [length]. nia.
  - intros r. unfold column_cells. rewrite length_fmap, length_pairs. unfold zrange.
    rewrite !length_seqZ. nia.
Qed.
End order.

(** ** What the placement leaves *)

Lemma msb_bits_lookup cw i :
  i < length cw * 8 ->
  exists c, cw !! (i / 8) = Some c
    /\ msb_bits cw !! i = Some (bit_of c (7 - Z.of_nat (i mod 8))).
Proof.
  revert i. induction cw as [|c cw IH]; intros i Hi; [cbn in Hi; lia|].
  unfold msb_bits in *. rewrite bind_cons. pose proof (Nat.div_mod_eq i 8).
  pose proof (Nat.mod_upper_bound i 8 ltac:(done)).
  destruct (decide (i < 8)) as [Hlt|Hge].
  - exists c. rewrite Nat.div_small, Nat.mod_small by done. split; [done|].
    rewrite lookup_app_l by (by rewrite length_to_bits). rewrite lookup_to_bits by done.
    unfold bit_of. replace (7 - Z.of_nat i)%Z with (Z.of_nat (8 - 1 - i)) by lia.
    by rewrite shifted_bit.
  - destruct (IH (i - 8)) as (d & Hd & Hb); [cbn in Hi; lia|].
    assert (i / 8 = S ((i - 8) / 8) /\ i mod 8 = (i - 8) mod 8) as [-> ->].
    { replace i with (i - 8 + 1 * 8) at 1 3 by lia. rewrite Nat.div_add, Nat.Div0.mod_add by done. lia. }
    exists d. split; [done|]. rewrite lookup_app_r by (rewrite length_to_bits; lia).
    by rewrite length_to_bits.
Qed.

Definition is_data (md : QrModule) : bool :=
  match md with DataM _ => true | FunctionM _ => false end.

Definition free_cells (m : Matrix) (path : list (Z * Z)) : list (Z * Z) :=
  filter (fun c => is_data (cell m (fst c) (snd c)) = true) path.

Lemma is_function_ok w m x y :
  mat_ok w m -> on_grid w x y -> is_function m x y = Ok (negb (is_data (cell m x y))).
Proof.
  intros Hm Hg. unfold is_function. rewrite (get_ok w) by done. rewrite bind_Ok_eq.
  by destruct (cell m x y).
Qed.

(** One step, on a cell of the grid. *)
Lemma place_step w cw m bit x y :
  mat_ok w m -> on_grid w x y ->
  exists m' bit', place cw (m, bit) (x, y) = Ok (m', bit') /\ mat_ok w m'
    /\ (forall x' y', on_grid w x' y' -> (x', y') <> (x, y) -> cell m' x' y' = cell m x' y')
    /\ is_data (cell m' x y) = is_data (cell m x y)
    /\ (is_data (cell m x y) = false -> m' = m /\ bit' = bit)
    /\ (length cw * 8 ≤ bit -> m' = m /\ bit' = bit)
    /\ (is_data (cell m x y) = true -> bit < length cw * 8 ->
          bit' = S bit /\ exists b, msb_bits cw !! bit = Some b /\ cell m' x y = DataM b).
Proof.
  intros Hm Hg. unfold place, place_bit. cbn [fst snd]. rewrite (is_function_ok w) by done.
  rewrite bind_Ok_eq. destruct (is_data (cell m x y)) eqn:Hd; cbn [negb].
  - destruct (decide (length cw * 8 ≤ bit)) as [Hle|Hgt].
    + rewrite decide_True by tauto. exists m, bit. split_and!; try done; lia.
    + rewrite decide_False by (intros [?|?]; [done|lia]).
      destruct (msb_bits_lookup cw bit ltac:(lia)) as (c & Hc & Hb).
      rewrite (index_Some _ _ _ Hc), bind_Ok_eq.
      destruct (set_ok w m x y (DataM (bit_of c (7 - Z.of_nat (bit mod 8)))) Hm Hg) as (m' & -> & Hm' & Hcell).
      rewrite bind_Ok_eq. exists m', (bit + 1). split; [done|]. split; [done|].
      assert (cell m' x y = DataM (bit_of c (7 - Z.of_nat (bit mod 8)))) as Hxy
        by (rewrite Hcell by done; by rewrite decide_True).
      split_and!.
      * intros x' y' Hg' Hne. rewrite Hcell by done. rewrite decide_False; [done|]. naive_solver.
      * by rewrite Hxy.
      * done.
      * lia.
      * intros _ _. split; [lia|]. by eexists.
  - rewrite decide_True by tauto. exists m, bit. by split_and!.
Qed.

Lemma free_cells_cons m c path :
  free_cells m (c :: path)
  = if is_data (cell m (fst c) (snd c)) then c :: free_cells m path else free_cells m path.
Proof.
  unfold free_cells. rewrite filter_cons. by destruct (is_data _).
Qed.

Lemma free_cells_ext m m' path :
  (forall c, c ∈ path -> is_data (cell m' (fst c) (snd c)) = is_data (cell m (fst c) (snd c))) ->
  free_cells m' path = free_cells m path.
Proof.
  induction path as [|c path IH]; intros H; [done|]. rewrite !free_cells_cons.
  rewrite H by apply list_elem_of_here. rewrite IH; [done|].
  intros. apply H. by apply list_elem_of_further.
Qed.

(** The loop: the next bits go to the free cells of the path in order. *)
Lemma place_path w cw path m bit :
  NoDup path -> Forall (fun c => on_grid w (fst c) (snd c)) path -> mat_ok w m ->
  exists m' bit', for_each path (place cw) (m, bit) = Ok (m', bit') /\ mat_ok w m'
    /\ (forall x y, on_grid w x y -> (x, y) ∉ path -> cell m' x y = cell m x y)
    /\ (forall x y, on_grid w x y -> is_data (cell m' x y) = is_data (cell m x y))
    /\ (forall x y, on_grid w x y -> is_data (cell m x y) = false -> cell m' x y = cell m x y)
    /\ (forall i x y, free_cells m path !! i = Some (x, y) -> bit + i < length cw * 8 ->
          exists b, msb_bits cw !! (bit + i) = Some b /\ cell m' x y = DataM b).
Proof.
  intros Hnd Hg. revert m bit. induction Hnd as [|[x y] path Hnin Hnd IH]; intros m bit Hm.
  - exists m, bit. by split_and!.
  - apply Forall_cons in Hg as [Hxy Hg]. cbn [fst snd] in Hxy.
    destruct (place_step w cw m bit x y Hm Hxy) as (m1 & b1 & E1 & Hm1 & Hoth & Hsame & Hfun & Hfull & Hset).
    cbn [for_each]. rewrite E1, bind_Ok_eq.
    destruct (IH Hg m1 b1 Hm1) as (m2 & b2 & E2 & Hm2 & Hout & Hkind & Hkeep & Hbits).
    exists m2, b2. split; [done|]. split; [done|].
    assert (forall x' y', on_grid w x' y' -> is_data (cell m1 x' y') = is_data (cell m x' y')) as Hk1.
    { intros x' y' Hg'. destruct (decide ((x', y') = (x, y))) as [E|Hne]; [|by rewrite Hoth].
      injection E as -> ->. done. }
    split_and!.
    + intros x' y' Hg' Hn. apply not_elem_of_cons in Hn as [Hne Hn]. by rewrite Hout, Hoth.
    + intros x' y' Hg'. by rewrite Hkind, Hk1.
    + intros x' y' Hg' Hd. rewrite Hkeep by (done || by rewrite Hk1).
      destruct (decide ((x', y') = (x, y))) as [E|Hne]; [|by apply Hoth]. injection E as -> ->.
      by destruct (Hfun Hd) as [-> _].
    + assert (free_cells m path = free_cells m1 path) as Hfree.
      { apply free_cells_ext. intros [x' y'] Hin. cbn [fst snd]. symmetry. apply Hk1.
        by rewrite Forall_forall in Hg; apply (Hg (x', y')). }
      intros i x' y' Hi Hlt. rewrite free_cells_cons in Hi. cbn [fst snd] in Hi.
      destruct (is_data (cell m x y)) eqn:Hd.
      * destruct (decide (bit < length cw * 8)) as [Hb|]; [|lia].
        destruct (Hset eq_refl Hb) as (-> & b & Hbit & Hc). destruct i as [|i].
        -- injection Hi as -> ->. rewrite Nat.add_0_r. exists b. split; [done|].
           by rewrite Hout.
        -- cbn in Hi. rewrite Hfree in Hi.
           destruct (Hbits i x' y' Hi) as (b' & Hb' & Hc'); [lia|]. exists b'.
           by rewrite Nat.add_succ_r.
      * destruct (Hfun eq_refl) as [-> ->]. by apply Hbits.
Qed.

(** ** Every codeword has its cells *)

(** A list that holds every function cell off column 6, with no cell of the
    alignment squares that a timing line already has. *)
Definition function_list (v : nat) : list (Z * Z) :=
  let w := (17 + 4 * Z.of_nat v)%Z in
  filter (fun c => fst c <> 6%Z)
    (pairs (zrange 0 8) (zrange 0 8) ++ pairs (zrange (w - 8) w) (zrange 0 8)
     ++ pairs (zrange 0 8) (zrange (w - 8) w) ++ pairs (zrange 8 (w - 8)) [6%Z]
     ++ filter (fun c => snd c <> 6%Z) (alignment_centres (positions v) ≫= fun c =>
          pairs (zrange (fst c - 2) (fst c + 3)) (zrange (snd c - 2) (snd c + 3)))
     ++ (if decide (7 ≤ v) then pairs (zrange (w - 11) (w - 8)) (zrange 0 6)
                              ++ pairs (zrange 0 6) (zrange (w - 11) (w - 8)) else [])
     ++ pairs [8%Z] (zrange 0 6) ++ pairs [8%Z] [7; 8]%Z ++ [(7, 8)%Z] ++ pairs (zrange 0 6) [8%Z]
     ++ pairs (zrange (w - 8) w) [8%Z] ++ pairs [8%Z] (zrange (w - 8) w)).

(** All codewords of a version: the same number at every level. *)
Definition total_codewords (v : nat) (ec : EcLevel) : nat :=
  match by_version DATA_BYTES_PER_BLOCK v ec, by_version EC_BYTES_PER_BLOCK v ec with
  | Ok (s1, c1, s2, c2), Ok n => s1 * c1 + s2 * c2 + n * (c1 + c2)
  | _, _ => 0
  end.

Lemma capacity_check v :
  1 ≤ v ≤ 40 ->
  let w := (17 + 4 * Z.of_nat v)%Z in
  (8 * Z.of_nat (total_codewords v EcL) + Z.of_nat (length (function_list v)) ≤ w * (w - 1))%Z
  /\ forall ec, total_codewords v ec = total_codewords v EcL.
Proof.
  intros Hv.
  assert (forallb (fun v => let w := (17 + 4 * Z.of_nat v)%Z in
    bool_decide ((8 * Z.of_nat (total_codewords v EcL) + Z.of_nat (length (function_list v))
        ≤ w * (w - 1))%Z
      /\ total_codewords v EcM = total_codewords v EcL
      /\ total_codewords v EcQ = total_codewords v EcL
      /\ total_codewords v EcH = total_codewords v EcL)) (seq 1 40) = true) as H
    by (vm_compute; reflexivity).
  rewrite forallb_forall in H. specialize (H v).
  rewrite <- list_elem_of_In, elem_of_seq in H. specialize (H ltac:(lia)).
  apply bool_decide_eq_true_1 in H as (H & HM & HQ & HH). split; [exact H|].
  intros []; done.
Qed.

Lemma function_list_spec v x y :
  1 ≤ v ≤ 40 -> on_grid (17 + 4 * Z.of_nat v) x y -> x <> 6%Z -> function_cell v x y = true ->
  (x, y) ∈ function_list v.
Proof.
  intros Hv Hg Hx6 Hf. unfold function_list. set (w := (17 + 4 * Z.of_nat v)%Z) in *.
  apply list_elem_of_filter. split; [done|]. unfold on_grid in Hg.
  unfold function_cell, phases_cover, symbol_phases in Hf. fold w in Hf.
  rewrite existsb_app, orb_true_iff in Hf.
  assert (forall lo hi i, i ∈ zrange lo hi <-> (lo ≤ i < hi)%Z) as Hz by apply elem_of_zrange.
  rewrite !elem_of_app, !elem_of_pairs, !list_elem_of_filter, !elem_of_cons, !elem_of_nil, !Hz.
  cbn [existsb static_phases format_phases finder_phase timing_phase fst] in Hf.
  rewrite !orb_true_iff, !bool_decide_eq_true in Hf.
  destruct Hf as [[Hf|[Hf|[Hf|[Hf|Hf]]]]|Hf].
  - destruct Hf as [Hf|[Hf|Hf]]; [left|right; left|right; right; left]; lia.
  - right; right; right; left. lia.
  - cbn [fst alignment_phase] in Hf. apply existsb_exists in Hf as (c & Hc & Hr).
    apply bool_decide_eq_true_1 in Hr. unfold ring_of in Hr.
    destruct (decide (y = 6)%Z) as [->|Hy].
    + destruct (decide (x < 8)%Z); [left; lia|]. destruct (decide (w - 8 ≤ x)%Z).
      * right; left; lia.
      * right; right; right; left; lia.
    + do 4 right. left. split; [done|]. apply list_elem_of_bind. exists c.
      rewrite elem_of_pairs, !Hz. apply list_elem_of_In in Hc. split; [lia|done].
  - cbn [fst version_phase] in Hf. apply andb_true_iff in Hf as [H7 Hf].
    apply bool_decide_eq_true_1 in H7, Hf. do 5 right. left.
    rewrite decide_True by done. rewrite elem_of_app, !elem_of_pairs, !Hz. lia.
  - done.
  - do 6 right. destruct Hf as [Hf|[Hf|[Hf|[Hf|[Hf|[Hf|[Hf|[Hf|Hf]]]]]]]]; [..|done].
    all: repeat (first [left; lia | solve [left; left; f_equal; lia] | right]); lia.
Qed.

Lemma length_filter_split {A} (f : A -> bool) (l : list A) :
  length (filter (fun a => f a = false) l) + length (filter (fun a => f a = true) l) = length l.
Proof.
  induction l as [|a l IH]; [done|]. rewrite !filter_cons.
  destruct (f a); repeat case_decide; try done; cbn [length]; lia.
Qed.

Lemma capacity v ec : 1 ≤ v ≤ 40 -> 8 * total_codewords v ec ≤ length (data_cells v).
Proof.
  intros Hv. destruct (capacity_check v Hv) as [Hc Heq]. rewrite Heq.
  pose proof (length_filter_split (fun c => function_cell v (fst c) (snd c)) (zigzag v)) as Hsplit.
  pose proof (length_zigzag v (17 + 4 * Z.of_nat v) Hv eq_refl) as Hz.
  assert (length (filter (fun c => function_cell v (fst c) (snd c) = true) (zigzag v))
    ≤ length (function_list v)) as Hf.
  { apply submseteq_length, NoDup_submseteq; [apply NoDup_filter; by eapply NoDup_zigzag|].
    intros [x y] [Hxy Hin]%list_elem_of_filter. cbn [fst snd] in Hxy.
    destruct (zigzag_on_grid v (17 + 4 * Z.of_nat v) Hv eq_refl _ Hin) as [Hg H6].
    by apply function_list_spec. }
  unfold data_cells. lia.
Qed.
