(* ===== verification/QrMask.v ===== *)
(** * Masks, penalties, and the choice of [encode]

    Masking as a map over cells; the penalties always exist; the loop over the
    eight candidates ends with the symbol of the least penalised mask. *)
From S2P Require Import Prelude QrCode QrBlocks QrSymbol QrPatterns QrZigzag.

(** ** Masking *)

Definition mask_fn (k : nat) (x y : Z) : bool :=
  match mask_applies k x y with Ok b => b | _ => false end.

Lemma mask_applies_ok k x y : k < 8 -> mask_applies k x y = Ok (mask_fn k x y).
Proof. intros Hk. do 8 (destruct k as [|k]; [done|]). lia. Qed.

(** What mask [k] does to a module. *)
Definition flip (k : nat) (x y : Z) (md : QrModule) : QrModule :=
  match md with DataM d => DataM (xorb d (mask_fn k x y)) | FunctionM d => FunctionM d end.

Lemma flip_flip k x y md : flip k x y (flip k x y md) = md.
Proof. destruct md; cbn; [done|]. by rewrite xorb_assoc, xorb_nilpotent, xorb_false_r. Qed.

Lemma is_data_flip k x y md : is_data (flip k x y md) = is_data md.
Proof. by destruct md. Qed.

(** A loop of steps that each rewrite their own cell. *)
Lemma cellwise w (g : Z -> Z -> QrModule -> QrModule) (step : Matrix -> Z * Z -> res Matrix) path m :
  NoDup path -> Forall (fun c => on_grid w (fst c) (snd c)) path ->
  (forall m x y, mat_ok w m -> on_grid w x y -> exists m', step m (x, y) = Ok m' /\ mat_ok w m'
     /\ forall x' y', on_grid w x' y' -> cell m' x' y'
        = if decide (x' = x /\ y' = y) then g x y (cell m x y) else cell m x' y') ->
  mat_ok w m ->
  exists m', for_each path step m = Ok m' /\ mat_ok w m'
    /\ forall x y, on_grid w x y -> cell m' x y
       = if decide ((x, y) ∈ path) then g x y (cell m x y) else cell m x y.
Proof.
  intros Hnd Hg Hstep. revert m. induction Hnd as [|[a b] path Hnin Hnd IH]; intros m Hm.
  - exists m. split; [done|]. split; [done|]. intros x y _. by rewrite decide_False by apply not_elem_of_nil.
  - apply Forall_cons in Hg as [Hab Hg]. cbn [fst snd for_each] in *.
    destruct (Hstep m a b Hm Hab) as (m1 & -> & Hm1 & H1). rewrite bind_Ok_eq.
    destruct (IH Hg m1 Hm1) as (m2 & -> & Hm2 & H2). exists m2. split; [done|]. split; [done|].
    intros x y Hxy. rewrite H2, H1 by done. destruct (decide (x = a /\ y = b)) as [[-> ->]|Hne].
    + rewrite decide_False by done. by rewrite decide_True by apply list_elem_of_here.
    + destruct (decide ((x, y) ∈ path)) as [Hin|Hn].
      * by rewrite decide_True by by apply list_elem_of_further.
      * rewrite decide_False; [done|]. rewrite elem_of_cons. intros [[= -> ->]|?]; tauto.
Qed.

Lemma mask_module_step w k m x y :
  k < 8 -> mat_ok w m -> on_grid w x y ->
  exists m', mask_module k x y m = Ok m' /\ mat_ok w m'
    /\ forall x' y', on_grid w x' y' -> cell m' x' y'
       = if decide (x' = x /\ y' = y) then flip k x y (cell m x y) else cell m x' y'.
Proof.
  intros Hk Hm Hg. unfold mask_module. rewrite (get_ok w) by done. rewrite bind_Ok_eq.
  assert (forall md, md = cell m x y -> forall x' y',
    cell m x' y' = if decide (x' = x /\ y' = y) then md else cell m x' y') as Hsame.
  { intros md -> x' y'. case_decide as He; [by destruct He as [-> ->]|done]. }
  destruct (cell m x y) as [d|d] eqn:E; cbn [flip].
  - exists m. split; [done|]. split; [done|]. intros x' y' _. by apply Hsame.
  - rewrite mask_applies_ok by done. rewrite bind_Ok_eq. destruct (mask_fn k x y).
    + rewrite xorb_true_r. by apply set_ok.
    + rewrite xorb_false_r. exists m. split; [done|]. split; [done|]. intros x' y' _. by apply Hsame.
Qed.

Lemma apply_mask_spec w k m :
  k < 8 -> mat_ok w m ->
  exists m', apply_mask k m = Ok m' /\ mat_ok w m'
    /\ forall x y, on_grid w x y -> cell m' x y = flip k x y (cell m x y).
Proof.
  intros Hk Hm.
  destruct (cellwise w (flip k) (fun m c => mask_module k (fst c) (snd c) m)
    ((fun a => (snd a, fst a)) <$> pairs (zrange 0 w) (zrange 0 w)) m) as (m' & E & Hm' & Hc).
  - apply NoDup_fmap_2; [intros [? ?] [? ?] [= -> ->]; done|].
    apply NoDup_pairs; apply NoDup_seqZ.
  - apply Forall_forall. intros [x y] ([b a] & [= -> ->] & Hab)%list_elem_of_fmap.
    apply elem_of_pairs in Hab as [H1 H2]. rewrite elem_of_zrange in H1, H2. done.
  - intros m0 x y Hm0 Hxy. by apply mask_module_step.
  - done.
  - exists m'. split; [|split; [done|]].
    + unfold apply_mask. rewrite (proj1 Hm). rewrite for_each_fmap, <- for_each_nested in E. exact E.
    + intros x y Hg. rewrite Hc by done. rewrite decide_True; [done|].
      apply list_elem_of_fmap. exists (y, x). split; [done|].
      rewrite elem_of_pairs, !elem_of_zrange. unfold on_grid in Hg. lia.
Qed.

(** Matrices with the same cells are the same. *)
Lemma mat_ext w m m' :
  (0 ≤ w)%Z -> mat_ok w m -> mat_ok w m' ->
  (forall x y, on_grid w x y -> cell m x y = cell m' x y) -> m = m'.
Proof.
  intros Hw Hm Hm' Hc. destruct m as [mw ms], m' as [mw' ms'].
  assert (mw = w /\ mw' = w) as [-> ->] by (destruct Hm, Hm'; done). f_equal.
  apply list_eq. intros i. destruct (decide (i < Z.to_nat (w * w))) as [Hi|Hi].
  - set (y := (Z.of_nat i / w)%Z). set (x := (Z.of_nat i `mod` w)%Z).
    assert (0 < w)%Z by nia. pose proof (Z.div_mod (Z.of_nat i) w ltac:(lia)) as Hdm.
    pose proof (Z.mod_pos_bound (Z.of_nat i) w ltac:(lia)) as Hx. fold x in Hdm, Hx. fold y in Hdm.
    clearbody x y.
    assert (on_grid w x y) as Hg by (unfold on_grid; nia).
    assert (i = Z.to_nat (y * w + x)) as -> by lia.
    pose proof (cell_lookup w _ x y Hm Hg) as H1. pose proof (cell_lookup w _ x y Hm' Hg) as H2.
    cbn [modules] in H1, H2. rewrite H1, H2. f_equal. by apply Hc.
  - destruct Hm as [_ Hl], Hm' as [_ Hl']. cbn [modules] in Hl, Hl'.
    rewrite !lookup_ge_None_2 by lia. done.
Qed.

(** ** Penalties exist *)

Section penalties.
Context (w : Z) (m : Matrix).
Hypothesis (Hw : (21 ≤ w)%Z) (Hm : mat_ok w m).

Definition word (t : Z) : Prop := (0 ≤ t < 2 ^ 32)%Z.

Lemma u32_word z : word (u32 z).
Proof. apply wrap_range. lia. Qed.

Lemma dark_at_ok x y : on_grid w x y -> dark_at m x y = Ok (is_dark (cell m x y)).
Proof. intros Hg. unfold dark_at. by rewrite (get_ok w), bind_Ok_eq. Qed.

Lemma adjacent_total h : exists t, adjacent_penalty h m = Ok t /\ word t.
Proof.
  unfold adjacent_penalty. rewrite (proj1 Hm). apply (for_each_inv word); [|by unfold word].
  intros total i Hi Ht. rewrite elem_of_zrange in Hi.
  destruct (for_each_inv (fun s : Z * option bool * Z => word (fst (fst s)))
    (run_step m h i) (zrange 0 (w + 1)) (total, None, 1%Z)) as ([[t l] r] & -> & Ht'); [|done|].
  - intros [[t l] r] j Hj Hs. rewrite elem_of_zrange in Hj. unfold run_step. rewrite (proj1 Hm).
    assert (exists c, (if decide (j = w) then Ok None
      else if h then d ← dark_at m j i; Ok (Some d) else d ← dark_at m i j; Ok (Some d))
      = Ok (E := QrError) c) as (c & ->).
    { case_decide; [by eexists|]. destruct h; rewrite dark_at_ok by (unfold on_grid; lia);
        rewrite bind_Ok_eq; by eexists. }
    rewrite bind_Ok_eq. case_decide; [by eexists|]. eexists. split; [done|]. cbn [fst snd] in *.
    case_decide; [apply u32_word|done].
  - rewrite bind_Ok_eq. by eexists.
Qed.

Lemma block_total : exists t, block_penalty m = Ok t /\ word t.
Proof.
  unfold block_penalty. rewrite (proj1 Hm). apply (for_each_inv word); [|by unfold word].
  intros t y Hy Ht. rewrite elem_of_zrange in Hy. apply (for_each_inv word); [|done].
  intros t' x Hx Ht'. rewrite elem_of_zrange in Hx.
  do 4 (rewrite dark_at_ok by (unfold on_grid; lia)). rewrite !bind_Ok_eq.
  case_decide; eexists; (split; [done|]); [apply u32_word|done].
Qed.

Lemma all_ok_total {A} (f : A -> res bool) l :
  (forall a, a ∈ l -> exists b, f a = Ok b) -> exists b, all_ok f l = Ok b.
Proof.
  induction l as [|a l IH]; intros H; [by eexists|]. cbn [all_ok].
  destruct (H a ltac:(apply list_elem_of_here)) as [[] ->]; rewrite bind_Ok_eq; [|by eexists].
  apply IH. intros. apply H. by apply list_elem_of_further.
Qed.

Lemma any_ok_total {A} (f : A -> res bool) l :
  (forall a, a ∈ l -> exists b, f a = Ok b) -> exists b, any_ok f l = Ok b.
Proof.
  induction l as [|a l IH]; intros H; [by eexists|]. cbn [any_ok].
  destruct (H a ltac:(apply list_elem_of_here)) as [[] ->]; rewrite bind_Ok_eq; [by eexists|].
  apply IH. intros. apply H. by apply list_elem_of_further.
Qed.

Lemma scan_at_ok (h : bool) k i :
  on_grid w k i -> exists b, (if h then dark_at m k i else dark_at m i k) = Ok b.
Proof.
  intros Hg. destruct h; rewrite dark_at_ok by (unfold on_grid in *; lia); by eexists.
Qed.

(** The colours near a candidate exist, inside and outside of the grid. *)
Ltac near b lo :=
  match goal with
  | |- context [any_ok ?f (zrange lo ?hi)] =>
      destruct (any_ok_total f (zrange lo hi)) as [b ->];
      [intros k _; case_decide; [apply scan_at_ok; unfold on_grid; lia|by eexists]|]
  end; rewrite bind_Ok_eq.

Lemma finder_total h : exists t, finder_penalty h m = Ok t /\ word t.
Proof.
  unfold finder_penalty. rewrite (proj1 Hm). apply (for_each_inv word); [|by unfold word].
  intros t i Hi Ht. rewrite elem_of_zrange in Hi. apply (for_each_inv word); [|done].
  intros t' j Hj Ht'. rewrite elem_of_zrange in Hj. cbv zeta beta.
  match goal with |- context [all_ok ?f ?l] => destruct (all_ok_total f l) as [found ->] end.
  { intros k Hk%elem_of_zrange. destruct (scan_at_ok h (j + k)%Z i) as [d ->]; [unfold on_grid; lia|].
    rewrite bind_Ok_eq. destruct (index_lt (E := QrError) PATTERN (Z.to_nat k)) as (p & _ & ->);
      [cbn; lia|]. rewrite bind_Ok_eq. by eexists. }
  rewrite bind_Ok_eq. destruct found; cbn [negb]; [|by eexists].
  near before (j - 4)%Z. destruct before; cbn [negb]; [|rewrite bind_Ok_eq; eexists; split; [done|apply u32_word]].
  near after (j + 7)%Z. rewrite bind_Ok_eq.
  destruct after; cbn [negb]; eexists; (split; [done|]); [done|apply u32_word].
Qed.

Lemma balance_total : exists t, balance_penalty m = Ok t /\ word t.
Proof.
  unfold balance_penalty. rewrite decide_False by (rewrite (proj2 Hm); nia).
  eexists. split; [done|]. apply u32_word.
Qed.

Lemma penalty_total : exists t, penalty m = Ok t /\ word t.
Proof.
  unfold penalty. destruct (adjacent_total true) as (a & -> & _). rewrite bind_Ok_eq.
  destruct (adjacent_total false) as (b & -> & _). rewrite bind_Ok_eq.
  destruct block_total as (c & -> & _). rewrite bind_Ok_eq.
  destruct (finder_total true) as (d & -> & _). rewrite bind_Ok_eq.
  destruct (finder_total false) as (e & -> & _). rewrite bind_Ok_eq.
  destruct balance_total as (f & -> & _). rewrite bind_Ok_eq.
  eexists. split; [done|]. apply u32_word.
Qed.
End penalties.

(** ** The symbol a mask gives *)

(** What [draw_format_info] draws on. *)
Definition format_cell (w x y : Z) : bool := phases_cover (format_phases w EcL 0) x y.

Lemma format_info_spec w ec k m :
  (21 ≤ w)%Z -> mat_ok w m ->
  exists m', draw_format_info ec k m = Ok m' /\ mat_ok w m'
    /\ forall x y, on_grid w x y ->
         if format_cell w x y
         then exists d, cell m' x y = FunctionM d
              /\ phases_picture (format_phases w ec k) x y = Some (FunctionM d)
         else cell m' x y = cell m x y /\ phases_picture (format_phases w ec k) x y = None.
Proof.
  intros Hw Hm. destruct (format_paints w Hw ec k m Hm) as (m' & E & Hm' & Hc).
  exists m'. split; [done|]. split; [done|]. intros x y Hg. specialize (Hc x y Hg).
  assert (format_cell w x y = bool_decide (is_Some (phases_picture (format_phases w ec k) x y))) as ->
    by (rewrite <- phases_cover_spec; reflexivity).
  destruct (phases_picture (format_phases w ec k) x y) as [md|] eqn:Ep; cbn [default] in Hc.
  - rewrite bool_decide_true by by eexists. destruct (phases_picture_function _ _ _ _ Ep) as [d ->].
    by exists d.
  - rewrite bool_decide_false by (intros [? ?]; done). done.
Qed.

(** Equal but for the colours of the format cells. *)
Record sim (w : Z) (m m' : Matrix) : Prop := {
  sim_l : mat_ok w m;
  sim_r : mat_ok w m';
  sim_cell : forall x y, on_grid w x y ->
    if format_cell w x y then is_data (cell m x y) = false /\ is_data (cell m' x y) = false
    else cell m x y = cell m' x y;
}.

(** Masking and drawing the format information depend on nothing more. *)
Lemma finish_sim w ec k m m' :
  (21 ≤ w)%Z -> k < 8 -> sim w m m' ->
  exists f1 f2, apply_mask k m = Ok f1 /\ apply_mask k m' = Ok f2
    /\ exists g, draw_format_info ec k f1 = Ok g /\ draw_format_info ec k f2 = Ok g /\ mat_ok w g
    /\ forall x y, on_grid w x y -> if format_cell w x y then exists d, cell g x y = FunctionM d
         else cell g x y = flip k x y (cell m' x y).
Proof.
  intros Hw Hk [Hl Hr Hc].
  destruct (apply_mask_spec w k m Hk Hl) as (f1 & E1 & H1 & C1).
  destruct (apply_mask_spec w k m' Hk Hr) as (f2 & E2 & H2 & C2).
  exists f1, f2. split; [done|]. split; [done|].
  destruct (format_info_spec w ec k f1 Hw H1) as (g1 & G1 & I1 & D1).
  destruct (format_info_spec w ec k f2 Hw H2) as (g2 & G2 & I2 & D2).
  assert (g1 = g2) as <-.
  { apply (mat_ext w); [lia|done|done|]. intros x y Hg.
    specialize (D1 x y Hg). specialize (D2 x y Hg). specialize (Hc x y Hg).
    destruct (format_cell w x y).
    - destruct D1 as (d1 & -> & P1), D2 as (d2 & -> & P2). congruence.
    - destruct D1 as [-> _], D2 as [-> _]. by rewrite C1, C2, Hc. }
  exists g1. split; [done|]. split; [done|]. split; [done|]. intros x y Hg.
  specialize (D2 x y Hg). destruct (format_cell w x y).
  - destruct D2 as (d & -> & _). by exists d.
  - destruct D2 as [-> _]. by apply C2.
Qed.

(** Backing a candidate out. *)
Lemma unmask_sim w k g m' :
  k < 8 -> mat_ok w g -> mat_ok w m' ->
  (forall x y, on_grid w x y -> if format_cell w x y then exists d, cell g x y = FunctionM d
       else cell g x y = flip k x y (cell m' x y)) ->
  (forall x y, on_grid w x y -> format_cell w x y = true -> is_data (cell m' x y) = false) ->
  exists h, apply_mask k g = Ok h /\ sim w h m'.
Proof.
  intros Hk Hg Hm' Hc Hf. destruct (apply_mask_spec w k g Hk Hg) as (h & E & Hh & Ch).
  exists h. split; [done|]. split; [done|done|]. intros x y Hxy. specialize (Hc x y Hxy).
  specialize (Hf x y Hxy). rewrite Ch by done. destruct (format_cell w x y).
  - destruct Hc as [d ->]. by split; [|apply Hf].
  - by rewrite Hc, flip_flip.
Qed.

(** ** The candidate loop *)

Section candidates.
Context (w : Z) (ec : EcLevel) (m0 : Matrix) (s : nat -> Z).
Hypothesis (Hw : (21 ≤ w)%Z) (Hm0 : mat_ok w m0).
Hypothesis (Hfun : forall x y, on_grid w x y -> format_cell w x y = true ->
  is_data (cell m0 x y) = false).
(** The penalty of the symbol with each mask. *)
Hypothesis (Hs : forall k, k < 8 ->
  (m ← apply_mask k m0; m ← draw_format_info ec k m; penalty m) = Ok (s k) /\ word (s k)).

Lemma sim_refl : sim w m0 m0.
Proof.
  split; [done..|]. intros x y Hg. destruct (format_cell w x y) eqn:E; [|done]. by split; apply Hfun.
Qed.

(** The best of the first [n] masks, the first one on a tie. *)
Definition best_of (n : nat) (b : Z * nat) : Prop :=
  word (fst b) /\ snd b ≤ pred n
  /\ (forall j, j < n -> (fst b ≤ s j)%Z /\ (j < snd b -> (fst b < s j)%Z))
  /\ (fst b = s (snd b) \/ (fst b = (2 ^ 32 - 1)%Z /\ snd b = 0)).

Lemma try_mask_step n m b :
  n < 8 -> sim w m m0 -> best_of n b ->
  exists m' b', try_mask ec (m, b) n = Ok (m', b') /\ sim w m' m0 /\ best_of (S n) b'.
Proof.
  intros Hn Hsim (Hb & Hb8 & Hall & Heq). unfold try_mask.
  destruct (finish_sim w ec n m m0 Hw Hn Hsim) as (f1 & f2 & E1 & E2 & g & G1 & G2 & Hg & Cg).
  destruct (Hs n Hn) as [Hscore Hword]. rewrite E2, bind_Ok_eq, G2, bind_Ok_eq in Hscore.
  rewrite E1, bind_Ok_eq, G1, bind_Ok_eq, Hscore, bind_Ok_eq.
  destruct (unmask_sim w n g m0 Hn Hg Hm0 Cg Hfun) as (h & -> & Hh). rewrite bind_Ok_eq.
  eexists _, _. split; [done|]. split; [done|]. unfold best_of. case_decide as Hlt; cbn [fst snd].
  - split; [done|]. split; [lia|]. split; [|by left]. intros j Hj.
    destruct (decide (j = n)) as [->|]; [lia|]. destruct (Hall j ltac:(lia)). lia.
  - split; [done|]. split; [lia|]. split; [|done]. intros j Hj.
    destruct (decide (j = n)) as [->|].
    + lia.
    + apply Hall. lia.
Qed.
Lemma candidates_spec :
  exists m b, for_each (seq 0 8) (try_mask ec) (m0, ((2 ^ 32 - 1)%Z, 0)) = Ok (m, b)
    /\ sim w m m0 /\ snd b < 8
    /\ forall j, j < 8 -> (s (snd b) ≤ s j)%Z /\ (j < snd b -> (s (snd b) < s j)%Z).
Proof.
  assert (forall n, n ≤ 8 -> exists m b,
    for_each (seq 0 n) (try_mask ec) (m0, ((2 ^ 32 - 1)%Z, 0)) = Ok (m, b)
    /\ sim w m m0 /\ best_of n b) as H.
  { intros n. induction n as [|n IH]; intros Hn.
    - exists m0, ((2 ^ 32 - 1)%Z, 0). split; [done|]. split; [apply sim_refl|].
      split; [by unfold word|]. split; [done|]. split; [lia|by right].
    - destruct IH as (m & b & E & Hsim & Hb); [lia|]. rewrite seq_S, for_each_app, E, bind_Ok_eq.
      destruct (try_mask_step n m b) as (m' & b' & Et & Hsim' & Hb'); [lia|done|done|].
      cbn [for_each Nat.add]. rewrite Et, bind_Ok_eq. by exists m', b'. }
  destruct (H 8 ltac:(lia)) as (m & b & E & Hsim & Hword & Hle & Hall & Heq).
  exists m, b. split; [done|]. split; [done|]. cbn in Hle. split; [lia|].
  destruct Heq as [<-|[Hmax Hz]]; [done|]. rewrite Hz in *.
  destruct (Hs 0 ltac:(lia)) as [_ H0]. unfold word in H0.
  intros j Hj. destruct (Hall j Hj) as [Hj' _]. split; [lia|lia].
Qed.
End candidates.
