(* ===== verification/QrRead.v ===== *)
(** * Reading a symbol back

    A reader of QR symbols -- format information, mask, zigzag, interleaving,
    syndromes, segment -- and the proof that it recovers the data from what
    [encode] draws, at every level and for every length that any version holds. *)
From S2P Require Import Prelude QrCode QrField QrBlocks QrSymbol QrPatterns QrZigzag QrMask.

(** ** The reader *)

Definition all_formats : list (EcLevel * nat) :=
  [EcL; EcM; EcQ; EcH] ≫= fun ec => pair ec <$> seq 0 8.

(** Where the two copies keep bit [i]. *)
Definition format_copy1 (i : Z) : Z * Z :=
  if decide (i < 6)%Z then (8, i)%Z else if decide (i = 6)%Z then (8, 7)%Z
  else if decide (i = 7)%Z then (8, 8)%Z else if decide (i = 8)%Z then (7, 8)%Z
  else (14 - i, 8)%Z.
Definition format_copy2 (w i : Z) : Z * Z :=
  if decide (i < 8)%Z then (w - 1 - i, 8)%Z else (8, w - 15 + i)%Z.

Definition dark_cell (m : Matrix) (c : Z * Z) : bool := is_dark (cell m (fst c) (snd c)).

Definition format_matches (m : Matrix) (f : EcLevel * nat) : bool :=
  forallb (fun i =>
    let b := bit_of (format_info_bits (fst f) (snd f)) i in
    Bool.eqb (dark_cell m (format_copy1 i)) b && Bool.eqb (dark_cell m (format_copy2 (mwidth m) i)) b)
  (zrange 0 15).

Definition read_bits (m : Matrix) (v k : nat) : list bool :=
  (fun c => xorb (dark_cell m c) (mask_fn k (fst c) (snd c))) <$> data_cells v.

Definition no_errors (n : nat) (word : bytes) : bool :=
  forallb (fun i => bool_decide (eval (gf_pow 2 i) word = 0%Z)) (seq 0 n).

(** The data codewords, when the words of all blocks check. *)
Definition read_codewords (v : nat) (ec : EcLevel) (cw : bytes) : option bytes :=
  match by_version DATA_BYTES_PER_BLOCK v ec, by_version EC_BYTES_PER_BLOCK v ec with
  | Ok (s1, c1, s2, c2), Ok n =>
      let sizes := replicate c1 s1 ++ replicate c2 s2 in
      let blocks := unweave (max_list sizes) sizes (take (sum_list sizes) cw) in
      let ecs := unweave n (replicate (c1 + c2) n) (drop (sum_list sizes) cw) in
      if forallb (no_errors n) (zip_with app blocks ecs) then Some (mjoin blocks) else None
  | _, _ => None
  end.

Definition read_symbol (m : Matrix) : option (EcLevel * bytes) :=
  let w := mwidth m in
  let v := Z.to_nat ((w - 17) / 4) in
  if decide (1 ≤ v ≤ 40 /\ w = (17 + 4 * Z.of_nat v)%Z /\ length (modules m) = Z.to_nat (w * w)) then
    '(ec, k) ← List.find (format_matches m) all_formats;
    data ← read_codewords v ec (unpack (total_codewords v ec) (read_bits m v k));
    payload ← parse_segment v data;
    Some (ec, payload)
  else None.

(** ** What [encode_with_mask] draws *)

Definition codewords_of (data : bytes) (v : nat) (ec : EcLevel) : res bytes :=
  d ← encode_data data v ec; interleave d v ec.

Record symbol_of (v : nat) (ec : EcLevel) (k : nat) (cw : bytes) (m : Matrix) : Prop := {
  so_mat : mat_ok (17 + 4 * Z.of_nat v) m;
  so_function : forall x y, on_grid (17 + 4 * Z.of_nat v) x y -> function_cell v x y = true ->
    Some (cell m x y) = phases_picture (symbol_phases v ec k) x y;
  so_data : forall i x y, data_cells v !! i = Some (x, y) -> i < length cw * 8 ->
    exists b, msb_bits cw !! i = Some b /\ cell m x y = DataM (xorb b (mask_fn k x y));
}.

Lemma free_cells_function m (f : Z -> Z -> bool) path :
  (forall c, c ∈ path -> is_data (cell m (fst c) (snd c)) = negb (f (fst c) (snd c))) ->
  free_cells m path = filter (fun c => f (fst c) (snd c) = false) path.
Proof.
  induction path as [|c path IH]; intros H; [done|]. rewrite free_cells_cons, filter_cons.
  rewrite H by apply list_elem_of_here.
  rewrite IH by (intros; apply H; by apply list_elem_of_further). by destruct (f _ _).
Qed.

Section symbol.
Context (data : bytes) (ec : EcLevel) (v : nat).
Hypothesis (Hd : bytes_ok data) (Hv : choose_version (length data) ec = Ok v).

Notation w := (17 + 4 * Z.of_nat v)%Z.

Lemma version_range : 1 ≤ v ≤ 40 /\ fits (length data) v ec.
Proof.
  destruct (choose_version_cases (length data) ec) as [(v' & E & Hr & Hf & _)|[E _]];
    rewrite Hv in E; [|done]. by injection E as <-.
Qed.

Lemma version_width : (21 ≤ w)%Z.
Proof. pose proof version_range. lia. Qed.

(** The codewords: blocks whose data parse to [data]. *)
Lemma codewords_spec :
  exists cw, codewords_of data v ec = Ok cw /\ bytes_ok cw /\ length cw = total_codewords v ec
    /\ exists d, read_codewords v ec cw = Some d /\ parse_segment v d = Some data.
Proof.
  destruct version_range as [Hr (cap & Ecap & Hfit)].
  destruct (rows v ec Hr) as (s1 & c1 & s2 & c2 & n & Ed & Ee & Hn & Hmax & Hsmall).
  assert (cap = s1 * c1 + s2 * c2) as Hcap.
  { unfold data_capacity in Ecap. rewrite Ed, bind_Ok_eq in Ecap. by injection Ecap. }
  destruct (encode_data_spec data v ec cap Hd Ecap Hr Hfit) as (d & E & Hl & Hb & Hm).
  assert (0 < c1 + c2) as Hc.
  { destruct (decide (c1 + c2 = 0)); [|lia]. assert (c1 = 0 /\ c2 = 0) as [-> ->] by lia. lia. }
  destruct (interleave_spec d v ec s1 c1 s2 c2 n Ed Ee ltac:(lia) Hb ltac:(lia) Hc)
    as (blocks & ecs & Ei & Hj & Hs & H2).
  exists (weave blocks ++ weave ecs). unfold codewords_of. rewrite E, bind_Ok_eq.
  assert (Forall (fun e : bytes => length e = n) ecs /\ Forall (Forall byte_ok) ecs
    /\ length ecs = c1 + c2) as (Hel & Heb & Hec).
  { pose proof (Forall2_length _ _ _ H2) as Hlen. apply (f_equal length) in Hs.
    rewrite length_fmap, length_app, !length_replicate in Hs. rewrite <- Hlen, Hs.
    clear - H2. induction H2 as [|b e bl el [He [Heb _]] _ IH]; [by split_and!|].
    destruct IH as (? & ? & _). by split_and!; [constructor|constructor|]. }
  assert (ecs <> []) as Hne by (intros ->; cbn in Hec; lia).
  assert (sum_list_with length blocks = s1 * c1 + s2 * c2) as Hsum.
  { rewrite <- Hl, <- Hj in Hcap. rewrite <- Hcap. clear.
    induction blocks as [|b bl IH]; [done|]. change (mjoin (b :: bl)) with (b ++ mjoin bl).
    rewrite length_app, <- IH. done. }
  assert (sum_list (replicate c1 s1 ++ replicate c2 s2) = length (weave blocks)) as Hsizes.
  { rewrite length_weave, <- Hs. clear. induction blocks as [|b bl IH]; [done|]. cbn. by rewrite IH. }
  assert (length (weave ecs) = n * (c1 + c2)) as Hwe.
  { rewrite length_weave, <- Hec. clear - Hel. induction Hel as [|e el He _ IH]; [cbn; lia|].
    change (sum_list_with length (e :: el)) with (length e + sum_list_with length el).
    rewrite He, IH. cbn [length]. lia. }
  assert (length <$> ecs = replicate (c1 + c2) n) as Hes.
  { rewrite <- Hec. clear - Hel. induction Hel as [|e el He _ IH]; [done|]. cbn. by rewrite He, IH. }
  split; [done|]. split.
  { apply Forall_app. split; apply weave_ok; [|done]. apply Forall_mjoin. by rewrite Hj. }
  split.
  { rewrite length_app, Hwe, length_weave, Hsum. unfold total_codewords. by rewrite Ed, Ee. }
  exists d. split.
  - unfold read_codewords. rewrite Ed, Ee, Hsizes. rewrite take_app_length, drop_app_length.
    rewrite <- Hs, <- Hes, <- max_sizes.
    rewrite <- (app_nil_r (weave blocks)), unweave_weave.
    assert (unweave n (length <$> ecs) (weave ecs) = ecs) as ->.
    { rewrite <- (max_constant n ecs Hne Hel) at 1. rewrite <- (app_nil_r (weave ecs)).
      apply unweave_weave. }
    assert (forallb (no_errors n) (zip_with app blocks ecs) = true) as ->; [|by rewrite Hj].
    clear - H2. induction H2 as [|b e bl el [He [Heb Hz]] _ IH]; [done|]. cbn [zip_with forallb].
    rewrite IH, andb_true_r. unfold no_errors. apply forallb_forall.
    intros i Hi%list_elem_of_In%elem_of_seq. apply bool_decide_eq_true_2, Hz. lia.
  - eapply parse_segment_spec; [exact Hm|done|]. unfold count_bits in Hfit |- *. case_decide; lia.
Qed.

(** The unmasked symbol. *)
Lemma build_spec :
  exists cw m, codewords_of data v ec = Ok cw /\ build data ec = Ok m /\ mat_ok w m
    /\ (forall x y, on_grid w x y -> if function_cell v x y
          then Some (cell m x y) = phases_picture (symbol_phases v ec 0) x y
          else is_data (cell m x y) = true)
    /\ (forall i x y, data_cells v !! i = Some (x, y) -> i < length cw * 8 ->
          exists b, msb_bits cw !! i = Some b /\ cell m x y = DataM b).
Proof.
  destruct version_range as [Hr _]. destruct codewords_spec as (cw & Ecw & Hcb & _ & _).
  destruct (draw_function_patterns_paints v ec Hr (matrix_new v)) as (m1 & E1 & H1 & C1);
    [by apply matrix_new_ok|].
  assert (forall x y, on_grid w x y -> if function_cell v x y
    then Some (cell m1 x y) = phases_picture (symbol_phases v ec 0) x y
    else cell m1 x y = DataM false) as C1'.
  { intros x y Hg. rewrite C1 by done. rewrite (function_cell_spec v ec 0).
    destruct (phases_picture _ x y) as [md|].
    - by rewrite bool_decide_true by by eexists.
    - rewrite bool_decide_false by (intros [? ?]; done). cbn [default].
      pose proof (cell_lookup w (matrix_new v) x y (matrix_new_ok w v eq_refl) Hg) as Hl.
      unfold matrix_new in Hl at 1. cbn [modules] in Hl. apply lookup_replicate_1 in Hl. tauto. }
  assert (forall x y, on_grid w x y -> is_data (cell m1 x y) = negb (function_cell v x y)) as Hkind.
  { intros x y Hg. specialize (C1' x y Hg). destruct (function_cell v x y).
    - symmetry in C1'. by destruct (phases_picture_function _ _ _ _ C1') as [d ->].
    - by rewrite C1'. }
  destruct (place_path w cw (zigzag v) m1 0) as (m2 & b2 & E2 & H2 & _ & Hk2 & Hf2 & Hb2);
    [by eapply NoDup_zigzag|..|done|].
  { apply Forall_forall. intros c Hc. by eapply zigzag_on_grid. }
  exists cw, m2. split; [done|]. split.
  { unfold build. rewrite Hv, bind_Ok_eq. unfold codewords_of in Ecw. rewrite Ecw, bind_Ok_eq.
    rewrite E1, bind_Ok_eq. rewrite (draw_codewords_path v w Hr eq_refl) by apply H1.
    by rewrite E2, bind_Ok_eq. }
  split; [done|]. split.
  - intros x y Hg. specialize (C1' x y Hg). specialize (Hkind x y Hg).
    destruct (function_cell v x y).
    + by rewrite Hf2.
    + by rewrite Hk2.
  - intros i x y Hi Hlt. apply (Hb2 i x y); [|done]. rewrite <- Hi. f_equal.
    apply free_cells_function. intros c Hc. apply Hkind. by eapply zigzag_on_grid.
Qed.

(** The format cells are function cells; the last phases decide their colour. *)
Lemma symbol_phases_format k x y :
  phases_picture (symbol_phases v ec k) x y
  = match phases_picture (format_phases w ec k) x y with
    | Some md => Some md
    | None => phases_picture (static_phases v w) x y
    end.
Proof. apply phases_picture_app. Qed.

Lemma format_cell_function x y : format_cell w x y = true -> function_cell v x y = true.
Proof.
  intros H. unfold function_cell, symbol_phases, phases_cover. rewrite existsb_app.
  apply orb_true_iff. right. exact H.
Qed.

(** Any matrix that agrees with the unmasked symbol but for format colours is
    completed to the symbol of mask [k]. *)
Lemma finish_symbol cw m0 k g :
  k < 8 ->
  (forall x y, on_grid w x y -> if function_cell v x y
     then Some (cell m0 x y) = phases_picture (symbol_phases v ec 0) x y
     else is_data (cell m0 x y) = true) ->
  (forall i x y, data_cells v !! i = Some (x, y) -> i < length cw * 8 ->
     exists b, msb_bits cw !! i = Some b /\ cell m0 x y = DataM b) ->
  mat_ok w m0 -> (m ← apply_mask k m0; draw_format_info ec k m) = Ok g ->
  symbol_of v ec k cw g.
Proof.
  intros Hk Hfun Hbits Hm0 E. pose proof version_width as Hw.
  destruct (apply_mask_spec w k m0 Hk Hm0) as (m1 & E1 & H1 & C1).
  rewrite E1, bind_Ok_eq in E.
  destruct (format_info_spec w ec k m1 Hw H1) as (g' & E' & Hg & Cg).
  rewrite E in E'. injection E' as <-. split; [done|..].
  - intros x y Hxy Hf. specialize (Cg x y Hxy). specialize (Hfun x y Hxy). rewrite Hf in Hfun.
    rewrite symbol_phases_format. destruct (format_cell w x y) eqn:Hfc.
    + destruct Cg as (d & -> & ->). done.
    + destruct Cg as [-> ->]. rewrite C1 by done. rewrite symbol_phases_format in Hfun.
      assert (phases_picture (format_phases w ec 0) x y = None) as E0.
      { assert (bool_decide (is_Some (phases_picture (format_phases w ec 0) x y)) = false) as Hn
          by (rewrite <- phases_cover_spec; exact Hfc).
        apply bool_decide_eq_false_1 in Hn. by apply eq_None_not_Some. }
      rewrite E0 in Hfun. rewrite <- Hfun. f_equal.
      symmetry in Hfun. destruct (phases_picture_function _ _ _ _ Hfun) as [d ->]. done.
  - intros i x y Hi Hlt. destruct (Hbits i x y Hi Hlt) as (b & Hb & Hc). exists b. split; [done|].
    pose proof (list_elem_of_lookup_2 _ _ _ Hi) as Hin. unfold data_cells in Hin.
    apply list_elem_of_filter in Hin as [Hf Hin]. cbn [fst snd] in Hf.
    destruct (zigzag_on_grid v w ltac:(apply version_range) eq_refl _ Hin) as [Hxy _].
    cbn [fst snd] in Hxy. specialize (Cg x y Hxy).
    destruct (format_cell w x y) eqn:Hfc; [by rewrite format_cell_function in Hf|].
    destruct Cg as [-> _]. by rewrite C1, Hc.
Qed.

Lemma built_format m0 :
  (forall x y, on_grid w x y -> if function_cell v x y
     then Some (cell m0 x y) = phases_picture (symbol_phases v ec 0) x y
     else is_data (cell m0 x y) = true) ->
  forall x y, on_grid w x y -> format_cell w x y = true -> is_data (cell m0 x y) = false.
Proof.
  intros Hfun x y Hg Hf. specialize (Hfun x y Hg). rewrite format_cell_function in Hfun by done.
  symmetry in Hfun. by destruct (phases_picture_function _ _ _ _ Hfun) as [d ->].
Qed.

(** [encode_with_mask] on every mask, and its penalty. *)
Lemma encode_with_mask_spec :
  exists cw s, codewords_of data v ec = Ok cw
    /\ (forall k, k < 8 -> exists g, encode_with_mask data ec k = Ok g /\ symbol_of v ec k cw g
         /\ mask_penalty data ec k = Ok (s k) /\ word (s k))
    /\ exists k, k < 8 /\ encode data ec = encode_with_mask data ec k
         /\ forall j, j < 8 -> (s k ≤ s j)%Z /\ (j < k -> (s k < s j)%Z).
Proof.
  destruct build_spec as (cw & m0 & Ecw & Eb & Hm0 & Hfun & Hbits).
  pose proof version_width as Hw.
  assert (forall k, k < 8 -> exists g, (m ← apply_mask k m0; draw_format_info ec k m) = Ok g
    /\ encode_with_mask data ec k = Ok g /\ symbol_of v ec k cw g
    /\ exists p, penalty g = Ok p /\ word p) as Hall.
  { intros k Hk. destruct (apply_mask_spec w k m0 Hk Hm0) as (m1 & E1 & H1 & _).
    destruct (format_info_spec w ec k m1 Hw H1) as (g & E2 & Hg & _).
    assert ((m ← apply_mask k m0; draw_format_info ec k m) = Ok g) as E
      by by rewrite E1, bind_Ok_eq.
    exists g. split; [done|]. split.
    { unfold encode_with_mask. rewrite decide_False by lia. by rewrite Eb, bind_Ok_eq. }
    split; [by eapply finish_symbol|]. by apply (penalty_total w). }
  set (s := fun k => match mask_penalty data ec k with Ok p => p | _ => 0%Z end).
  assert (forall k, k < 8 -> mask_penalty data ec k = Ok (s k) /\ word (s k)) as Hs.
  { intros k Hk. destruct (Hall k Hk) as (g & _ & E & _ & p & Ep & Hp). unfold s, mask_penalty.
    by rewrite E, bind_Ok_eq, Ep. }
  exists cw, s. split; [done|]. split.
  { intros k Hk. destruct (Hall k Hk) as (g & _ & E & Hg & _). exists g.
    split; [done|]. split; [done|]. by apply Hs. }
  destruct (candidates_spec w ec m0 s Hw Hm0 (built_format m0 Hfun)) as (m & b & E & Hsim & Hb & Hmin).
  { intros k Hk. destruct (Hs k Hk) as [Ek Hk']. split; [|done]. rewrite <- Ek.
    destruct (Hall k Hk) as (g & E1 & E2 & _). unfold mask_penalty. rewrite E2, bind_Ok_eq.
    destruct (apply_mask k m0); cbn in E1 |- *; try done. by rewrite E1. }
  exists (snd b). split; [done|]. split; [|done].
  unfold encode. rewrite Eb, bind_Ok_eq, E, bind_Ok_eq.
  destruct (finish_sim w ec (snd b) m m0 Hw Hb Hsim) as (f1 & f2 & E1 & E2 & g & G1 & G2 & _).
  rewrite E1, bind_Ok_eq, G1. destruct (Hall (snd b) Hb) as (g' & E3 & E4 & _).
  rewrite E2, bind_Ok_eq, G2 in E3. rewrite E4. by injection E3 as ->.
Qed.
End symbol.

(** ** Format words *)

Definition format_bits_of (f : EcLevel * nat) : list bool :=
  bit_of (format_info_bits (fst f) (snd f)) <$> zrange 0 15.

Definition distance (l1 l2 : list bool) : nat :=
  length (List.filter (fun p => negb (Bool.eqb (fst p) (snd p))) (zip l1 l2)).

Lemma distance_diag l : distance l l = 0.
Proof.
  unfold distance. induction l as [|b l IH]; [done|]. cbn [zip zip_with List.filter fst snd].
  by rewrite eqb_reflx.
Qed.

Lemma format_distances :
  forallb (fun f => forallb (fun g => bool_decide (f = g) ||
    bool_decide (7 ≤ distance (format_bits_of f) (format_bits_of g))) all_formats) all_formats = true.
Proof. vm_compute. reflexivity. Qed.

Lemma elem_of_all_formats ec k : (ec, k) ∈ all_formats <-> k < 8.
Proof.
  unfold all_formats. rewrite list_elem_of_bind. split.
  - intros (e & (j & [= -> ->] & Hj%elem_of_seq)%list_elem_of_fmap & _). lia.
  - intros Hk. exists ec. split; [|destruct ec; apply (bool_decide_eq_true_1 (_ ∈ _)); reflexivity].
    apply list_elem_of_fmap. exists k. split; [done|]. apply elem_of_seq. lia.
Qed.

Lemma find_unique {A} (p : A -> bool) l x :
  x ∈ l -> p x = true -> (forall y, y ∈ l -> p y = true -> y = x) -> List.find p l = Some x.
Proof.
  intros Hin Hp Hu. destruct (List.find p l) as [y|] eqn:E.
  - apply find_some in E as [Hy Hpy]. apply list_elem_of_In in Hy. by rewrite (Hu y).
  - apply list_elem_of_In in Hin. by rewrite (find_none _ _ E x Hin) in Hp.
Qed.

(** Decide the regions of the format phases at a given cell. *)
Ltac decide_regions :=
  repeat match goal with
  | |- context [bool_decide ?P] =>
      first [rewrite (bool_decide_false P) by lia | rewrite (bool_decide_true P) by lia]
  end.

Lemma format_copies v ec k i :
  let w := (17 + 4 * Z.of_nat v)%Z in
  1 ≤ v -> (0 ≤ i < 15)%Z ->
  Forall (fun c => on_grid w (fst c) (snd c) /\ function_cell v (fst c) (snd c) = true
    /\ phases_picture (symbol_phases v ec k) (fst c) (snd c)
       = Some (FunctionM (bit_of (format_info_bits ec k) i)))
    [format_copy1 i; format_copy2 w i].
Proof.
  intros w Hv Hi. assert (21 ≤ w)%Z by lia.
  assert (forall c, on_grid w (fst c) (snd c) ->
    phases_picture (format_phases w ec k) (fst c) (snd c)
      = Some (FunctionM (bit_of (format_info_bits ec k) i)) ->
    on_grid w (fst c) (snd c) /\ function_cell v (fst c) (snd c) = true
    /\ phases_picture (symbol_phases v ec k) (fst c) (snd c)
       = Some (FunctionM (bit_of (format_info_bits ec k) i))) as Hlift.
  { intros c Hg E. assert (phases_picture (symbol_phases v ec k) (fst c) (snd c)
       = Some (FunctionM (bit_of (format_info_bits ec k) i))) as Es.
    { unfold symbol_phases. rewrite phases_picture_app. unfold over. fold w. by rewrite E. }
    split; [done|]. split; [|done]. rewrite (function_cell_spec v ec k), Es.
    by rewrite bool_decide_true by by eexists. }
  constructor; [|constructor; [|constructor]]; apply Hlift.
  - unfold format_copy1, on_grid. repeat case_decide; cbn [fst snd]; lia.
  - unfold format_copy1. cbn [phases_picture format_phases]. unfold over, phase_picture, blank.
    repeat case_decide; subst; cbn [fst snd]; decide_regions; do 3 f_equal; lia.
  - unfold format_copy2, on_grid. case_decide; cbn [fst snd]; lia.
  - unfold format_copy2. cbn [phases_picture format_phases]. unfold over, phase_picture, blank.
    case_decide; cbn [fst snd]; decide_regions; do 3 f_equal; lia.
Qed.

Lemma forallb_ext_in {A} (f g : A -> bool) l :
  (forall x, x ∈ l -> f x = g x) -> forallb f l = forallb g l.
Proof.
  induction l as [|x l IH]; intros H; [done|]. cbn [forallb].
  rewrite H by apply list_elem_of_here. f_equal. apply IH.
  intros. apply H. by apply list_elem_of_further.
Qed.

Lemma find_format v ec k cw m :
  1 ≤ v -> k < 8 -> symbol_of v ec k cw m -> List.find (format_matches m) all_formats = Some (ec, k).
Proof.
  intros Hv Hk [[Hw Hl] Hfun _].
  assert (forall i, (0 ≤ i < 15)%Z ->
    dark_cell m (format_copy1 i) = bit_of (format_info_bits ec k) i
    /\ dark_cell m (format_copy2 (mwidth m) i) = bit_of (format_info_bits ec k) i) as Hread.
  { intros i Hi. pose proof (format_copies v ec k i Hv Hi) as Hc. rewrite Hw.
    apply Forall_cons in Hc as [(G1 & F1 & E1) Hc]. apply Forall_cons in Hc as [(G2 & F2 & E2) _].
    pose proof (Hfun _ _ G1 F1) as C1. pose proof (Hfun _ _ G2 F2) as C2.
    rewrite E1 in C1. rewrite E2 in C2. unfold dark_cell.
    injection C1 as ->. injection C2 as ->. done. }
  apply find_unique.
  - by apply elem_of_all_formats.
  - unfold format_matches. apply forallb_forall. intros i Hi%list_elem_of_In%elem_of_zrange.
    destruct (Hread i Hi) as [-> ->]. cbn [fst snd]. by rewrite !eqb_reflx.
  - intros f Hf Hm. pose proof format_distances as Hd. rewrite forallb_forall in Hd.
    specialize (Hd (ec, k) (proj1 (list_elem_of_In _ _) (proj2 (elem_of_all_formats ec k) Hk))).
    rewrite forallb_forall in Hd. specialize (Hd f (proj1 (list_elem_of_In _ _) Hf)).
    apply orb_true_iff in Hd as [Hd%bool_decide_eq_true_1|Hd%bool_decide_eq_true_1]; [done|].
    assert (format_bits_of f = format_bits_of (ec, k)) as E.
    { unfold format_bits_of. apply list_fmap_ext. intros j i Hji.
      apply list_elem_of_lookup_2, elem_of_zrange in Hji.
      unfold format_matches in Hm. rewrite forallb_forall in Hm.
      specialize (Hm i (proj1 (list_elem_of_In _ _) (proj2 (elem_of_zrange _ _ _) Hji))).
      apply andb_true_iff in Hm as [Hm _]. apply eqb_prop in Hm.
      cbn [fst snd]. rewrite <- Hm. by apply Hread. }
    rewrite E, distance_diag in Hd. lia.
Qed.

(** ** Reading *)

Lemma read_bits_spec v ec k cw m :
  1 ≤ v ≤ 40 -> length cw = total_codewords v ec -> symbol_of v ec k cw m ->
  exists rest, read_bits m v k = msb_bits cw ++ rest.
Proof.
  intros Hv Hl [_ _ Hdata]. pose proof (capacity v ec Hv) as Hcap.
  exists (drop (8 * length cw) (read_bits m v k)).
  rewrite <- (take_drop (8 * length cw) (read_bits m v k)) at 1. f_equal.
  apply list_eq. intros i. unfold read_bits. destruct (decide (i < 8 * length cw)) as [Hi|Hi].
  - rewrite lookup_take_lt by done.
    destruct (lookup_lt_is_Some_2 (data_cells v) i) as [[x y] Hxy]; [lia|].
    destruct (Hdata i x y Hxy ltac:(lia)) as (b & -> & Hc).
    rewrite list_lookup_fmap, Hxy. cbn. unfold dark_cell. cbn [fst snd]. rewrite Hc. cbn [is_dark].
    by rewrite xorb_assoc, xorb_nilpotent, xorb_false_r.
  - rewrite lookup_take_ge by lia. rewrite lookup_ge_None_2; [done|]. rewrite length_msb_bits. lia.
Qed.

Lemma read_symbol_of data ec v k cw m :
  1 ≤ v ≤ 40 -> k < 8 -> bytes_ok cw -> length cw = total_codewords v ec ->
  (exists d, read_codewords v ec cw = Some d /\ parse_segment v d = Some data) ->
  symbol_of v ec k cw m -> read_symbol m = Some (ec, data).
Proof.
  intros Hv Hk Hcw Hl (d & Hd & Hp) Hm. pose proof Hm as [[Hw Hlm] _ _].
  unfold read_symbol. rewrite Hw.
  assert (Z.to_nat ((17 + 4 * Z.of_nat v - 17) / 4) = v) as ->.
  { replace (17 + 4 * Z.of_nat v - 17)%Z with (Z.of_nat v * 4)%Z by lia. rewrite Z.div_mul by lia. lia. }
  rewrite decide_True by (split_and!; [lia|lia|lia|done]).
  rewrite (find_format v ec k cw m) by (done || lia). cbn [mbind option_bind].
  destruct (read_bits_spec v ec k cw m Hv Hl Hm) as [rest ->].
  rewrite <- Hl, unpack_msb by done. rewrite Hd. cbn [mbind option_bind].
  rewrite Hp. done.
Qed.
