(* ===== verification/QrSvg.v ===== *)
(** * SVG rendering of a symbol ([src/src/qr.rs], [to_svg], [generate_qr_svg])

    The markup, byte for byte, a reader of it, and the proof that the reader
    recovers the modules that were rendered. *)
From S2P Require Import Prelude Text QrCode QrSymbol QrPatterns QrZigzag QrMask QrRead.

(** ** Rendering *)

Definition QUIET_ZONE : Z := 4.

(** [usize::div_ceil]. *)
Definition div_ceil (a b : Z) : Z := if decide (a `mod` b = 0)%Z then (a / b)%Z else (a / b + 1)%Z.

(** [Matrix::is_dark]: coordinates are [usize] here. *)
Definition matrix_is_dark (m : Matrix) (x y : Z) : res bool :=
  md ← index (modules m) (Z.to_nat (y * mwidth m + x)); Ok (is_dark md).

Definition DQ : bytes := [34]%Z.
Definition quoted (s : bytes) : bytes := DQ ++ s ++ DQ.

(** The markup up to the size, and from there to the path data. *)
Definition svg_start : bytes :=
  bstr "<?xml version=" ++ quoted (bstr "1.0") ++ bstr " standalone=" ++ quoted (bstr "yes")
  ++ bstr "?><svg xmlns=" ++ quoted (bstr "http://www.w3.org/2000/svg")
  ++ bstr " version=" ++ quoted (bstr "1.1") ++ bstr " width=" ++ DQ.
Definition svg_head (size : Z) (dark light : bytes) : bytes :=
  DQ ++ bstr " height=" ++ quoted (decimal size)
  ++ bstr " viewBox=" ++ quoted (bstr "0 0 " ++ decimal size ++ bstr " " ++ decimal size)
  ++ bstr " shape-rendering=" ++ quoted (bstr "crispEdges")
  ++ bstr "><rect x=" ++ quoted (bstr "0") ++ bstr " y=" ++ quoted (bstr "0")
  ++ bstr " width=" ++ quoted (decimal size) ++ bstr " height=" ++ quoted (decimal size)
  ++ bstr " fill=" ++ quoted light ++ bstr "/><path fill=" ++ quoted dark ++ bstr " d=" ++ DQ.
Definition svg_tail : bytes := DQ ++ bstr "/></svg>".

(** ["M{px} {py}h{unit}v{unit}H{px}V{py}"]. *)
Definition segment (unit x y : Z) : bytes :=
  let px := decimal (x * unit) in
  let py := decimal (y * unit) in
  let u := decimal unit in
  b8 "M" :: px ++ b8 " " :: py ++ b8 "h" :: u ++ b8 "v" :: u ++ b8 "H" :: px ++ b8 "V" :: py.

Definition to_svg (m : Matrix) (min_px : Z) (dark light : bytes) : res bytes :=
  let modules := mwidth m in
  let width_in_modules := (modules + 2 * QUIET_ZONE)%Z in
  let unit := div_ceil min_px width_in_modules in
  let size := (width_in_modules * unit)%Z in
  svg ← for_each (zrange 0 width_in_modules) (fun svg y =>
    for_each (zrange 0 width_in_modules) (fun svg x =>
      let inside := bool_decide (QUIET_ZONE ≤ x < modules + QUIET_ZONE)%Z
                    && bool_decide (QUIET_ZONE ≤ y < modules + QUIET_ZONE)%Z in
      d ← (if inside then matrix_is_dark m (x - QUIET_ZONE) (y - QUIET_ZONE) else Ok false);
      if (d : bool) then Ok (svg ++ segment unit x y) else Ok svg) svg)
    (svg_start ++ decimal size ++ svg_head size dark light);
  Ok (svg ++ svg_tail).

Definition generate_qr_svg (config : bytes) : res bytes :=
  m ← encode config EcM; to_svg m 256 (bstr "#000000") (bstr "#ffffff").

(** ** Reading the markup *)

Definition read_number (s : bytes) : option (Z * bytes) :=
  let '(ds, rest) := span is_ascii_digit s in
  match ds with [] => None | _ => n ← parse_digits 0 ds; Some (n, rest) end.

(** A letter, then a number. *)
Definition read_field (c : Z) (s : bytes) : option (Z * bytes) :=
  s ← strip_prefix [c] s; read_number s.

Definition read_segment (s : bytes) : option (Z * Z * Z * bytes) :=
  '(px, s) ← read_field (b8 "M") s; '(py, s) ← read_field (b8 " ") s;
  '(u, s) ← read_field (b8 "h") s; '(u', s) ← read_field (b8 "v") s;
  '(px', s) ← read_field (b8 "H") s; '(py', s) ← read_field (b8 "V") s;
  if decide (u' = u /\ px' = px /\ py' = py) then Some (px, py, u, s) else None.

Fixpoint read_path (fuel : nat) (s : bytes) : option (list (Z * Z * Z)) :=
  if decide (s = svg_tail) then Some [] else
  match fuel with
  | O => None
  | S fuel => '(px, py, u, s) ← read_segment s; ps ← read_path fuel s; Some ((px, py, u) :: ps)
  end.

(** The squares of side [unit], four of them off the border. *)
Definition matrix_of_path (w unit : Z) (ps : list (Z * Z * Z)) : Matrix :=
  mkMatrix w ((fun a : Z * Z =>
    DataM (bool_decide (((snd a + 4) * unit, (fst a + 4) * unit, unit)%Z ∈ ps)))
    <$> pairs (zrange 0 w) (zrange 0 w)).

Definition read_svg (dark light s : bytes) : option Matrix :=
  s ← strip_prefix svg_start s;
  '(size, s) ← read_number s;
  s ← strip_prefix (svg_head size dark light) s;
  ps ← read_path (length s) s;
  '(_, _, unit) ← head ps;
  Some (matrix_of_path (size / unit - 8) unit ps).

(** ** The rendering as a list of segments *)

(** The dark modules in row-major order, as offsets in the picture. *)
Definition dark_points (m : Matrix) : list (Z * Z) :=
  let w := mwidth m in
  List.filter (fun a => bool_decide (4 ≤ snd a < w + 4)%Z && bool_decide (4 ≤ fst a < w + 4)%Z
                        && is_dark (cell m (snd a - 4) (fst a - 4)))
    (pairs (zrange 0 (w + 8)) (zrange 0 (w + 8))).

Lemma for_each_append {E A} (l : list A) (p : A -> bool) (f : A -> bytes)
    (step : bytes -> A -> result E bytes) s :
  (forall s a, a ∈ l -> step s a = Ok (if p a then s ++ f a else s)) ->
  for_each l step s = Ok (s ++ (List.filter p l ≫= f)).
Proof.
  revert s. induction l as [|a l IH]; intros s H; cbn [for_each List.filter].
  - by rewrite app_nil_r.
  - rewrite H, bind_Ok_eq by constructor. rewrite IH by (intros; apply H; by constructor).
    destruct (p a); [|done]. by rewrite bind_cons, app_assoc.
Qed.

Section render.
Context (m : Matrix) (w : Z) (Hm : mat_ok w m) (Hw : (21 ≤ w ≤ 177)%Z).

Lemma to_svg_spec min_px dark light :
  let unit := div_ceil min_px (w + 8) in
  let size := ((w + 8) * unit)%Z in
  to_svg m min_px dark light
  = Ok (svg_start ++ decimal size ++ svg_head size dark light
        ++ (dark_points m ≫= fun a => segment unit (snd a) (fst a)) ++ svg_tail).
Proof.
  intros unit size. pose proof Hm as [Ew _]. unfold to_svg, QUIET_ZONE. rewrite Ew.
  change (2 * 4)%Z with 8%Z. cbv zeta. fold unit. fold size.
  pose proof (for_each_nested (E := QrError) (zrange 0 (w + 8)) (zrange 0 (w + 8)) (fun svg a =>
    d ← (if bool_decide (4 ≤ snd a < w + 4)%Z && bool_decide (4 ≤ fst a < w + 4)%Z
         then matrix_is_dark m (snd a - 4) (fst a - 4) else Ok false);
    if (d : bool) then Ok (svg ++ segment unit (snd a) (fst a)) else Ok svg)) as Hn.
  cbn [fst snd] in Hn. rewrite Hn. clear Hn.
  rewrite (for_each_append _ (fun a => bool_decide (4 ≤ snd a < w + 4)%Z
    && bool_decide (4 ≤ fst a < w + 4)%Z && is_dark (cell m (snd a - 4) (fst a - 4)))
    (fun a => segment unit (snd a) (fst a))).
  - rewrite bind_Ok_eq. unfold dark_points. rewrite Ew, <- !app_assoc. done.
  - intros s [y x] _. cbn [fst snd].
    destruct (bool_decide (4 ≤ x < w + 4)%Z && bool_decide (4 ≤ y < w + 4)%Z) eqn:E; [|done].
    apply andb_prop in E as [Hx%bool_decide_eq_true Hy%bool_decide_eq_true].
    unfold matrix_is_dark. rewrite Ew.
    rewrite (index_Some _ _ (cell m (x - 4) (y - 4))), !bind_Ok_eq; [by destruct (is_dark _)|].
    apply cell_lookup; [done|]. unfold on_grid. lia.
Qed.

Lemma elem_of_dark_points x y :
  on_grid w x y -> ((y + 4)%Z, (x + 4)%Z) ∈ dark_points m <-> is_dark (cell m x y) = true.
Proof.
  intros [Hx Hy]. unfold dark_points. destruct Hm as [-> _].
  rewrite list_elem_of_In, filter_In, <- list_elem_of_In, elem_of_pairs. cbn [fst snd].
  rewrite !bool_decide_true by lia. cbn [andb].
  replace (x + 4 - 4)%Z with x by lia. replace (y + 4 - 4)%Z with y by lia.
  split; [by intros [_ ?]|]. intros ?. split; [|done]. rewrite !QrPatterns.elem_of_zrange. lia.
Qed.
End render.

(** ** Reading it back *)

Lemma read_number_decimal n c s :
  (0 ≤ n < 2 ^ 64)%Z -> is_ascii_digit c = false ->
  read_number (decimal n ++ c :: s) = Some (n, c :: s).
Proof.
  intros Hn Hc. unfold read_number. rewrite span_decimal by done.
  destruct (decimal_spec n Hn) as (_ & Hne & Hp). destruct (decimal n) as [|d ds]; [done|].
  by rewrite Hp.
Qed.

Lemma read_field_decimal c n c' s :
  (0 ≤ n < 2 ^ 64)%Z -> is_ascii_digit c' = false ->
  read_field c (c :: decimal n ++ c' :: s) = Some (n, c' :: s).
Proof.
  intros Hn Hc. unfold read_field. cbn [strip_prefix mbind option_bind]. rewrite decide_True by done.
  by apply read_number_decimal.
Qed.
Lemma read_segment_spec unit x y c s :
  (0 ≤ unit)%Z -> (0 ≤ x)%Z -> (0 ≤ y)%Z -> (unit < 2 ^ 64)%Z -> (x * unit < 2 ^ 64)%Z ->
  (y * unit < 2 ^ 64)%Z -> is_ascii_digit c = false ->
  read_segment (segment unit x y ++ c :: s) = Some ((x * unit)%Z, (y * unit)%Z, unit, c :: s).
Proof.
  intros Hu Hx Hy Hu' Hx' Hy' Hc. unfold segment, read_segment.
  rewrite <- !app_comm_cons, <- !app_assoc, <- !app_comm_cons.
  assert (0 ≤ x * unit < 2 ^ 64)%Z by (split; [by apply Z.mul_nonneg_nonneg|done]).
  assert (0 ≤ y * unit < 2 ^ 64)%Z by (split; [by apply Z.mul_nonneg_nonneg|done]).
  do 6 (rewrite <- ?app_assoc, <- ?app_comm_cons;
        rewrite read_field_decimal by (done || lia); cbn [mbind option_bind]).
  by rewrite decide_True.
Qed.

Definition marks (unit : Z) (ps : list (Z * Z)) : list (Z * Z * Z) :=
  (fun a => (snd a * unit, fst a * unit, unit)%Z) <$> ps.

Lemma tail_starts unit ps :
  exists c s, (ps ≫= fun a => segment unit (snd a) (fst a)) ++ svg_tail = c :: s
    /\ is_ascii_digit c = false.
Proof.
  destruct ps as [|a ps]; [by eexists _, _|]. rewrite bind_cons. unfold segment.
  rewrite <- !app_comm_cons. by eexists _, _.
Qed.

Lemma read_path_spec unit ps fuel :
  (0 ≤ unit < 2 ^ 32)%Z ->
  Forall (fun a => 0 ≤ fst a < 2 ^ 16 /\ 0 ≤ snd a < 2 ^ 16)%Z ps -> length ps ≤ fuel ->
  read_path fuel ((ps ≫= fun a => segment unit (snd a) (fst a)) ++ svg_tail)
  = Some (marks unit ps).
Proof.
  intros Hu Hps. revert fuel. induction Hps as [|[y x] ps [Hy Hx] _ IH]; intros fuel Hf.
  { destruct fuel; cbn [read_path mbind list_bind app]; by rewrite decide_True. }
  destruct fuel as [|fuel]; [cbn in Hf; lia|]. cbn [fst snd] in *.
  rewrite bind_cons, <- app_assoc. cbn [fst snd read_path].
  rewrite decide_False by (unfold segment, svg_tail, DQ; rewrite <- app_comm_cons; done).
  destruct (tail_starts unit ps) as (c & s & E & Hc). rewrite E.
  assert (x * unit < 2 ^ 16 * 2 ^ 32)%Z by (apply Z.mul_lt_mono_nonneg; lia).
  assert (y * unit < 2 ^ 16 * 2 ^ 32)%Z by (apply Z.mul_lt_mono_nonneg; lia).
  rewrite read_segment_spec by (done || lia). rewrite <- E. cbn [mbind option_bind].
  rewrite IH by (cbn in Hf; lia). done.
Qed.

Lemma length_segments unit (ps : list (Z * Z)) :
  length ps ≤ length (ps ≫= fun a => segment unit (snd a) (fst a)).
Proof.
  induction ps as [|a ps IH]; [cbn; lia|]. rewrite bind_cons, length_app.
  unfold segment at 1. cbn [length]. lia.
Qed.

Lemma div_ceil_spec a b :
  (0 < a)%Z -> (0 < b)%Z -> (0 < div_ceil a b ≤ a)%Z /\ (a ≤ b * div_ceil a b < a + b)%Z.
Proof.
  intros Ha Hb. unfold div_ceil.
  pose proof (Z.div_mod a b ltac:(lia)). pose proof (Z.mod_pos_bound a b Hb).
  case_decide; nia.
Qed.

(** ** The modules come back *)

Lemma lookup_pairs {A B} (l1 : list A) (l2 : list B) i j a b :
  l1 !! i = Some a -> l2 !! j = Some b -> pairs l1 l2 !! (i * length l2 + j) = Some (a, b).
Proof.
  intros H1 H2. pose proof (lookup_lt_Some _ _ _ H2) as Hj. revert i H1.
  induction l1 as [|a' l1 IH]; intros i H1; [done|]. unfold pairs. rewrite bind_cons.
  destruct i as [|i]; cbn [lookup list_lookup] in H1.
  - injection H1 as ->. cbn [Nat.mul Nat.add].
    rewrite lookup_app_l by (by rewrite length_fmap). by rewrite list_lookup_fmap, H2.
  - rewrite lookup_app_r by (rewrite length_fmap; cbn; lia). rewrite length_fmap.
    replace (S i * length l2 + j - length l2) with (i * length l2 + j) by lia. by apply IH.
Qed.

(** The symbol with every module taken as data: what an image shows. *)
Definition image_of (m : Matrix) : Matrix :=
  mkMatrix (mwidth m) ((fun md => DataM (is_dark md)) <$> modules m).

Lemma cell_image m x y : cell (image_of m) x y = DataM (is_dark (cell m x y)).
Proof.
  unfold cell, image_of. cbn [modules mwidth]. rewrite !list_lookup_total_alt, list_lookup_fmap.
  by destruct (modules m !! _).
Qed.

Lemma matrix_of_path_cell w unit ps x y :
  on_grid w x y ->
  cell (matrix_of_path w unit ps) x y
  = DataM (bool_decide (((x + 4) * unit, (y + 4) * unit, unit)%Z ∈ ps)).
Proof.
  intros Hg. pose proof (index_range w x y Hg). destruct Hg as [Hx Hy].
  unfold cell, matrix_of_path. cbn [modules mwidth]. apply list_lookup_total_correct.
  assert (forall z, (0 ≤ z < w)%Z -> zrange 0 w !! Z.to_nat z = Some z) as Hz.
  { intros z Hz. unfold zrange. rewrite lookup_seqZ. lia. }
  assert (length (zrange 0 w) = Z.to_nat w) as Hl.
  { unfold zrange. rewrite length_seqZ. f_equal. lia. }
  rewrite list_lookup_fmap.
  replace (Z.to_nat (y * w + x)) with (Z.to_nat y * length (zrange 0 w) + Z.to_nat x) by nia.
  by rewrite (lookup_pairs _ _ _ _ y x) by (by apply Hz).
Qed.

Lemma matrix_of_path_ok w unit ps : (0 ≤ w)%Z -> mat_ok w (matrix_of_path w unit ps).
Proof.
  intros Hw. split; [done|]. cbn [matrix_of_path modules]. rewrite length_fmap, length_pairs.
  unfold zrange. rewrite length_seqZ. nia.
Qed.

Lemma elem_of_marks unit ps x y :
  (0 < unit)%Z -> ((x * unit, y * unit, unit)%Z ∈ marks unit ps) <-> (y, x) ∈ ps.
Proof.
  intros Hu. unfold marks. rewrite list_elem_of_fmap. split.
  - intros ([y' x'] & E & Hin). injection E as Ex Ey. cbn [fst snd] in *.
    assert (x = x') as -> by nia. assert (y = y') as -> by nia. done.
  - intros Hin. by exists (y, x).
Qed.

Lemma read_svg_spec m w min_px dark light :
  mat_ok w m -> (21 ≤ w ≤ 177)%Z -> (0 < min_px < 2 ^ 32)%Z -> dark_points m <> [] ->
  exists svg, to_svg m min_px dark light = Ok svg /\ read_svg dark light svg = Some (image_of m).
Proof.
  intros Hm Hw Hp Hne. rewrite (to_svg_spec m w Hm min_px). eexists. split; [done|].
  set (unit := div_ceil min_px (w + 8)). destruct (div_ceil_spec min_px (w + 8)) as [Hu _]; [lia..|].
  fold unit in Hu. assert (0 ≤ (w + 8) * unit < 2 ^ 64)%Z as Hs by nia.
  unfold read_svg. rewrite strip_prefix_app. cbn [mbind option_bind].
  match goal with |- context [decimal _ ++ ?r] => assert (exists s, r = 34%Z :: s) as [s Es] end.
  { unfold svg_head, DQ. by eexists. }
  rewrite Es, read_number_decimal by done. rewrite <- Es. cbn [mbind option_bind]. clear s Es.
  rewrite strip_prefix_app. cbn [mbind option_bind].
  rewrite read_path_spec.
  - cbn [mbind option_bind]. destruct (dark_points m) as [|[py px] ps] eqn:E; [done|].
    assert (head (marks unit ((py, px) :: ps)) = Some (px * unit, py * unit, unit)%Z) as -> by done.
    rewrite <- E. cbn [mbind option_bind]. f_equal. rewrite Z.div_mul by lia.
    replace (w + 8 - 8)%Z with w by lia.
    apply (mat_ext w); [lia|apply matrix_of_path_ok; lia| |].
    { destruct Hm as [Ew Hl]. split; [done|]. cbn. by rewrite length_fmap. }
    intros x y Hg. rewrite matrix_of_path_cell, cell_image by done. f_equal.
    apply eq_true_iff_eq. rewrite bool_decide_eq_true, elem_of_marks by lia.
    by apply (elem_of_dark_points m w Hm).
  - lia.
  - apply Forall_forall. intros [y x]. unfold dark_points. destruct Hm as [-> _].
    rewrite list_elem_of_In, filter_In, <- list_elem_of_In, elem_of_pairs, !QrPatterns.elem_of_zrange.
    cbn [fst snd]. lia.
  - rewrite length_app. pose proof (length_segments unit (dark_points m)). lia.
Qed.

(** The reader of symbols only looks at what is dark. *)
Lemma dark_cell_image m c : dark_cell (image_of m) c = dark_cell m c.
Proof. unfold dark_cell. by rewrite cell_image. Qed.

Lemma find_ext {A} (p q : A -> bool) l : (forall x, p x = q x) -> List.find p l = List.find q l.
Proof. intros H. induction l as [|x l IH]; cbn; [done|]. by rewrite H, IH. Qed.

Lemma read_symbol_image m : read_symbol (image_of m) = read_symbol m.
Proof.
  unfold read_symbol. cbn [image_of mwidth modules]. rewrite length_fmap. case_decide; [|done].
  fold (image_of m). rewrite (find_ext _ (format_matches m)).
  - apply option_bind_ext_fun. intros [ec k]. unfold read_bits.
    rewrite (list_fmap_ext _ (fun c => xorb (dark_cell m c) (mask_fn k c.1 c.2)) (data_cells _));
      [done|]. intros i c _. by rewrite dark_cell_image.
  - intros f. unfold format_matches. cbn [image_of mwidth]. fold (image_of m).
    apply forallb_ext_in. intros i _. by rewrite !dark_cell_image.
Qed.

(** A readable symbol is not all light: no format word is zero. *)
Lemma format_word_dark :
  forallb (fun f => existsb (bit_of (format_info_bits (fst f) (snd f))) (zrange 0 15)) all_formats
  = true.
Proof. vm_compute. reflexivity. Qed.

Lemma read_symbol_dark m w r :
  mat_ok w m -> (21 ≤ w)%Z -> read_symbol m = Some r -> dark_points m <> [].
Proof.
  intros Hm Hw Hr Hd. unfold read_symbol in Hr. case_decide; [|done].
  destruct (List.find (format_matches m) all_formats) as [f|] eqn:E; [|done].
  apply find_some in E as [Hin Hf]. pose proof format_word_dark as Hx.
  rewrite forallb_forall in Hx. apply Hx in Hin.
  apply existsb_exists in Hin as (i & Hi & Hb). unfold format_matches in Hf.
  rewrite forallb_forall in Hf. pose proof (Hf i Hi) as Hfi.
  apply andb_true_iff in Hfi as [Hfi%eqb_prop _]. rewrite Hb in Hfi.
  apply list_elem_of_In, QrPatterns.elem_of_zrange in Hi. unfold dark_cell in Hfi.
  assert (on_grid w (format_copy1 i).1 (format_copy1 i).2) as Hg.
  { unfold format_copy1, on_grid. repeat case_decide; cbn [fst snd]; lia. }
  apply (elem_of_dark_points m w Hm) in Hfi; [|done]. rewrite Hd in Hfi.
  by apply not_elem_of_nil in Hfi.
Qed.
