(* ===== verification/QrProps.v ===== *)
(** * Properties of the QR encoder

    What [generate_qr_svg] promises its callers: a picture from which a scanner
    recovers the text, or an error exactly when no symbol can hold it. *)
From S2P Require Import Prelude Text QrCode QrField QrBlocks QrSymbol QrPatterns QrZigzag QrMask QrRead QrSvg.

(** What [encode] returns. *)
Lemma encode_cases data ec :
  bytes_ok data ->
  (exists v m, choose_version (length data) ec = Ok v /\ 1 ≤ v ≤ 40 /\ encode data ec = Ok m
     /\ mat_ok (17 + 4 * Z.of_nat v) m /\ read_symbol m = Some (ec, data))
  \/ (choose_version (length data) ec = Err DataTooLong /\ encode data ec = Err DataTooLong).
Proof.
  intros Hd. destruct (choose_version_cases (length data) ec) as [(v & Ev & Hv & _)|[Ev _]].
  - left. destruct (encode_with_mask_spec data ec v Hd Ev) as (cw & s & Ecw & Hall & k & Hk & E & _).
    destruct (Hall k Hk) as (m & Em & Hm & _).
    destruct (codewords_spec data ec v Hd Ev) as (cw' & Ecw' & Hb & Hl & Hr).
    assert (cw' = cw) as -> by congruence. exists v, m. rewrite E.
    split_and!; [done|lia|lia|done|by destruct Hm|]. by eapply read_symbol_of.
  - right. split; [done|]. unfold encode, build. by rewrite Ev.
Qed.

(** Encoding is lossless and minimal.  For any bytes, [encode] either
    draws a symbol of the smallest version whose capacity holds them, from which
    the reader recovers the level and exactly the data, or fails with
    [DataTooLong] when none of the 40 versions holds them; it never panics. *)
Theorem encode_round_trip (data : bytes) (ec : EcLevel) :
  bytes_ok data ->
  (exists v m, encode data ec = Ok m /\ mwidth m = (17 + 4 * Z.of_nat v)%Z /\ 1 ≤ v ≤ 40
     /\ fits (length data) v ec /\ (forall v', 1 ≤ v' < v -> ~ fits (length data) v' ec)
     /\ read_symbol m = Some (ec, data))
  \/ (encode data ec = Err DataTooLong /\ forall v, 1 ≤ v ≤ 40 -> ~ fits (length data) v ec).
Proof.
  intros Hd. pose proof (encode_cases data ec Hd) as Hc.
  destruct (choose_version_cases (length data) ec) as [(v & Ev & Hv & Hf & Hmin)|[Ev Hno]].
  - left. destruct Hc as [(v' & m & Ev' & _ & E & [Hw _] & Hr)|[E _]]; [|congruence].
    assert (v' = v) as -> by congruence. by exists v, m.
  - right. destruct Hc as [(v' & _ & Ev' & _)|[_ E]]; [congruence|]. by split.
Qed.

Lemma encode_round_trip_witness :
  bytes_ok (bstr "hi")
  /\ ((exists v m, encode (bstr "hi") EcM = Ok m /\ mwidth m = (17 + 4 * Z.of_nat v)%Z /\ 1 ≤ v ≤ 40
     /\ fits (length (bstr "hi")) v EcM
     /\ (forall v', 1 ≤ v' < v -> ~ fits (length (bstr "hi")) v' EcM)
     /\ read_symbol m = Some (EcM, bstr "hi"))
  \/ (encode (bstr "hi") EcM = Err DataTooLong
      /\ forall v, 1 ≤ v ≤ 40 -> ~ fits (length (bstr "hi")) v EcM)).
Proof.
  assert (bytes_ok (bstr "hi")) as H by evaluate.
  split; [exact H|exact (encode_round_trip (bstr "hi") EcM H)].
Defined.

(** C3: the picture can be scanned.  The SVG that [generate_qr_svg] returns for
    a configuration text parses back, square by square, into an image of a
    symbol from which the reader recovers that text; the only other outcome is
    [DataTooLong]. *)
Theorem generate_qr_svg_scans (config : bytes) :
  bytes_ok config ->
  (exists svg m, generate_qr_svg config = Ok svg
     /\ read_svg (bstr "#000000") (bstr "#ffffff") svg = Some m
     /\ read_symbol m = Some (EcM, config))
  \/ generate_qr_svg config = Err DataTooLong.
Proof.
  intros Hd. destruct (encode_cases config EcM Hd) as [(v & m & _ & Hv & E & Hm & Hr)|[_ E]];
    unfold generate_qr_svg; rewrite E; [left|by right]. rewrite bind_Ok_eq.
  destruct (read_svg_spec m (17 + 4 * Z.of_nat v) 256 (bstr "#000000") (bstr "#ffffff") Hm)
    as (svg & Es & Hs); [lia|lia|by eapply read_symbol_dark; [done|lia|done]|].
  exists svg, (image_of m). by rewrite read_symbol_image.
Qed.

Lemma generate_qr_svg_scans_witness :
  bytes_ok (bstr "wg")
  /\ ((exists svg m, generate_qr_svg (bstr "wg") = Ok svg
     /\ read_svg (bstr "#000000") (bstr "#ffffff") svg = Some m
     /\ read_symbol m = Some (EcM, bstr "wg"))
  \/ generate_qr_svg (bstr "wg") = Err DataTooLong).
Proof.
  assert (bytes_ok (bstr "wg")) as H by evaluate.
  split; [exact H|exact (generate_qr_svg_scans (bstr "wg") H)].
Defined.

(** The mask is the best one.  [encode] scores the eight masks in place,
    on one grid that it masks and unmasks; its result is the one that
    [encode_with_mask] draws with the mask of least penalty, the lowest of
    them when several tie. *)
Theorem encode_best_mask (data : bytes) (ec : EcLevel) (v : nat) :
  bytes_ok data -> choose_version (length data) ec = Ok v ->
  exists k p, k < 8 /\ encode data ec = encode_with_mask data ec k
    /\ mask_penalty data ec k = Ok p
    /\ forall j, j < 8 -> exists q, mask_penalty data ec j = Ok q
         /\ (p ≤ q)%Z /\ (j < k -> (p < q)%Z).
Proof.
  intros Hd Hv. destruct (encode_with_mask_spec data ec v Hd Hv) as (cw & s & _ & Hall & k & Hk & E & Hmin).
  assert (forall j, j < 8 -> mask_penalty data ec j = Ok (s j)) as Hs.
  { intros j Hj. by destruct (Hall j Hj) as (_ & _ & _ & ? & _). }
  exists k, (s k). split; [done|]. split; [done|]. split; [by apply Hs|].
  intros j Hj. exists (s j). split; [by apply Hs|by apply Hmin].
Qed.

Lemma encode_best_mask_witness :
  bytes_ok (bstr "a") /\ choose_version (length (bstr "a")) EcL = Ok 1
  /\ exists k p, k < 8 /\ encode (bstr "a") EcL = encode_with_mask (bstr "a") EcL k
    /\ mask_penalty (bstr "a") EcL k = Ok p
    /\ forall j, j < 8 -> exists q, mask_penalty (bstr "a") EcL j = Ok q
         /\ (p ≤ q)%Z /\ (j < k -> (p < q)%Z).
Proof.
  assert (bytes_ok (bstr "a")) as H by evaluate.
  assert (choose_version (length (bstr "a")) EcL = Ok 1) as Hv by reflexivity.
  split; [exact H|]. split; [exact Hv|exact (encode_best_mask (bstr "a") EcL 1 H Hv)].
Defined.

(** Reed-Solomon.  For a block of any bytes and any number of error
    correction bytes up to 255, [ec_codewords] returns that many bytes, and the
    block followed by them vanishes at the powers of the field generator: it is
    a word of the code that scanners decode. *)
Theorem ec_codewords_correct (block : bytes) (n : nat) :
  bytes_ok block -> 1 ≤ n ≤ 255 ->
  exists ecw, ec_codewords block n = Ok ecw /\ length ecw = n /\ bytes_ok ecw
    /\ forall i, i < n -> eval (gf_pow 2 i) (block ++ ecw) = 0%Z.
Proof. apply ec_codewords_spec. Qed.

Lemma ec_codewords_correct_witness :
  (bytes_ok [65; 66]%Z /\ 1 ≤ 10 ≤ 255)
  /\ exists ecw, ec_codewords [65; 66]%Z 10 = Ok ecw /\ length ecw = 10 /\ bytes_ok ecw
    /\ forall i, i < 10 -> eval (gf_pow 2 i) ([65; 66]%Z ++ ecw) = 0%Z.
Proof.
  assert (bytes_ok [65; 66]%Z) as H by evaluate. assert (1 ≤ 10 ≤ 255) as Hn by lia.
  split; [split; [exact H|exact Hn]|exact (ec_codewords_correct [65; 66]%Z 10 H Hn)].
Defined.

(** Masking is its own inverse.  Applying a mask twice restores the grid,
    whatever it holds, and never panics on a grid of the right size: this is
    what lets [encode] try the masks in place. *)
Theorem apply_mask_involutive (w : Z) (m : Matrix) (k : nat) :
  (0 ≤ w)%Z -> mat_ok w m -> k < 8 ->
  (m ← apply_mask k m; apply_mask k m) = Ok m.
Proof.
  intros Hw Hm Hk. destruct (apply_mask_spec w k m Hk Hm) as (m1 & -> & H1 & C1).
  rewrite bind_Ok_eq. destruct (apply_mask_spec w k m1 Hk H1) as (m2 & -> & H2 & C2).
  f_equal. apply (mat_ext w); [done..|]. intros x y Hg. rewrite C2, C1 by done.
  unfold flip. destruct (cell m x y); [done|]. by rewrite xorb_assoc, xorb_nilpotent, xorb_false_r.
Qed.

Lemma apply_mask_involutive_witness :
  ((0 ≤ 21)%Z /\ mat_ok 21 (matrix_new 1) /\ 3 < 8)
  /\ (m ← apply_mask 3 (matrix_new 1); apply_mask 3 m) = Ok (matrix_new 1).
Proof.
  assert (mat_ok 21 (matrix_new 1)) as H by (by apply matrix_new_ok).
  split; [split_and!; [lia|exact H|lia]|]. apply (apply_mask_involutive 21); [lia|exact H|lia].
Defined.
