(* ===== verification/ProxyMetrics.v ===== *)
(** * Rate limits and counters ([src/src/proxy/metrics.rs])

    The token bucket of a client and the byte budget of the whole device are
    words that many tasks update with compare-and-swap loops.  A loop is modelled
    twice: as the function one task computes, and as a step relation on the word
    and the program counters of any number of tasks.  The clock is an argument
    of each call. *)
From stdpp Require Import gmap sorting.
From S2P Require Import Prelude.

(** ** The packed word *)

Definition pack (millitokens ts : Z) : Z := Z.lor (u64 (Z.shiftl millitokens 32)) ts.
Definition unpack (v : Z) : Z * Z := (u32 (Z.shiftr v 32), u32 v).

Lemma pack_unpack mt ts :
  (0 ≤ mt < 2 ^ 32)%Z -> (0 ≤ ts < 2 ^ 32)%Z -> unpack (pack mt ts) = (mt, ts).
Proof.
  intros Hm Ht. unfold pack, unpack. rewrite Z.shiftl_mul_pow2 by lia.
  replace (u64 (mt * 2 ^ 32)) with (mt * 2 ^ 32)%Z by (symmetry; apply wrap_small; lia).
  assert (Z.lor (mt * 2 ^ 32) ts = mt * 2 ^ 32 + ts)%Z as ->.
  { symmetry. apply Z.add_nocarry_lor. rewrite <- (Z.mod_small ts (2 ^ 32)), <- Z.land_ones by lia.
    apply Z.bits_inj'. intros i Hi. rewrite Z.bits_0, !Z.land_spec. destruct (decide (i < 32)%Z).
    - by rewrite Z.mul_pow2_bits_low by lia.
    - rewrite Z.ones_spec_high by lia. by rewrite !andb_false_r. }
  f_equal.
  - rewrite Z.shiftr_div_pow2, Z.div_add_l, Z.div_small by lia. rewrite Z.add_0_r. by apply wrap_small.
  - unfold u32, wrap. rewrite Z.add_comm, Z.mod_add by lia. by apply Z.mod_small.
Qed.

(** ** Compare-and-swap loops *)

(** Where a task is in [loop { let old = load; .. compare_exchange .. }]. *)
Inductive cas_pc : Set := Ready | Loaded (old : Z) | Returned (ok : bool).

Section cas.
(** From the loaded word, the word to store and the verdict. *)
Context {A : Type} (attempt : A -> Z -> Z * bool).

(** What a call does when no other task interferes. *)
Definition call (a : A) (st : Z) : Z * bool := attempt a st.

(** One step of one task: it loads the word; or it swaps, and returns when the
    verdict is positive and the word has not changed, and starts again when it
    has; or it returns a negative verdict after one attempt to store.  The label
    has the call whose store took effect. *)
Inductive cas_step : Z -> list (A * cas_pc) -> list (A * bool) -> Z -> list (A * cas_pc) -> Prop :=
  | step_load st ths i a :
      ths !! i = Some (a, Ready) ->
      cas_step st ths [] st (<[i := (a, Loaded st)]> ths)
  | step_accept st ths i a new :
      ths !! i = Some (a, Loaded st) -> attempt a st = (new, true) ->
      cas_step st ths [(a, true)] new (<[i := (a, Returned true)]> ths)
  | step_retry st ths i a old new :
      ths !! i = Some (a, Loaded old) -> attempt a old = (new, true) -> st <> old ->
      cas_step st ths [] st (<[i := (a, Ready)]> ths)
  | step_reject st ths i a new :
      ths !! i = Some (a, Loaded st) -> attempt a st = (new, false) ->
      cas_step st ths [(a, false)] new (<[i := (a, Returned false)]> ths)
  | step_reject_lost st ths i a old new :
      ths !! i = Some (a, Loaded old) -> attempt a old = (new, false) -> st <> old ->
      cas_step st ths [] st (<[i := (a, Returned false)]> ths).

(** Any interleaving, with the stores that took effect in their order. *)
Inductive cas_run : Z -> list (A * cas_pc) -> list (A * bool) -> Z -> list (A * cas_pc) -> Prop :=
  | run_refl st ths : cas_run st ths [] st ths
  | run_step st ths l st1 ths1 tr st2 ths2 :
      cas_step st ths l st1 ths1 -> cas_run st1 ths1 tr st2 ths2 ->
      cas_run st ths (l ++ tr) st2 ths2.

(** The calls one after the other. *)
Fixpoint replay (tr : list (A * bool)) (st : Z) : option Z :=
  match tr with
  | [] => Some st
  | (a, ok) :: tr =>
      let '(st, ok') := call a st in if decide (ok = ok') then replay tr st else None
  end.

Definition granted (ths : list (A * cas_pc)) : list A :=
  omap (fun t => match t.2 with Returned true => Some t.1 | _ => None end) ths.
Definition accepted (tr : list (A * bool)) : list A :=
  omap (fun e => if (e.2 : bool) then Some e.1 else None) tr.

Lemma accepted_cons a ok tr :
  accepted ((a, ok) :: tr) = (if (ok : bool) then [a] else []) ++ accepted tr.
Proof. by destruct ok. Qed.

Lemma granted_insert ths i a pc pc' :
  ths !! i = Some (a, pc) -> pc <> Returned true ->
  granted (<[i := (a, pc')]> ths)
  ≡ₚ (match pc' with Returned true => [a] | _ => [] end) ++ granted ths.
Proof.
  intros Hi Hpc. pose proof (lookup_lt_Some _ _ _ Hi) as Hlt.
  rewrite insert_take_drop by done. rewrite <- (take_drop_middle ths i _ Hi) at 3.
  unfold granted. rewrite !omap_app. cbn [omap list_omap fst snd].
  assert (match pc with Returned true => Some a | _ => None end = None) as ->
    by (destruct pc as [| |[]]; congruence).
  destruct pc' as [| |[]]; cbn; try done. by rewrite Permutation_middle.
Qed.

(** Every interleaving of the tasks is a history of whole calls, and the calls
    granted in it are those that some task saw granted. *)
Lemma cas_sequential st ths tr st' ths' :
  cas_run st ths tr st' ths' ->
  replay tr st = Some st' /\ granted ths' ≡ₚ granted ths ++ accepted tr.
Proof.
  induction 1 as [|st ths l st1 ths1 tr st2 ths2 Hs _ [IH1 IH2]]; [by rewrite app_nil_r|].
  destruct Hs; cbn [app replay];
    unfold call; repeat match goal with E : attempt _ _ = _ |- context [attempt] => rewrite E end;
    rewrite ?decide_True by done; (split; [done|]); rewrite IH2;
    rewrite (granted_insert _ _ _ _ _ ltac:(eassumption)) by done; cbn [app];
    try done. by rewrite Permutation_middle.
Qed.

(** Tasks keep their calls, and the history is of them. *)
Lemma cas_calls st ths tr st' ths' :
  cas_run st ths tr st' ths' -> ths'.*1 = ths.*1 /\ Forall (fun e => e.1 ∈ ths.*1) tr.
Proof.
  induction 1 as [|st ths l st1 ths1 tr st2 ths2 Hs _ [IH1 IH2]]; [by split; [|constructor]|].
  assert (ths1.*1 = ths.*1 /\ Forall (fun e => e.1 ∈ ths.*1) l) as [E Hl].
  { destruct Hs as [st ths i a Hi|st ths i a new Hi|st ths i a old new Hi|st ths i a new Hi|st ths i a old new Hi];
      pose proof (list_lookup_fmap fst ths i) as Hf; rewrite Hi in Hf; cbn in Hf;
      rewrite list_fmap_insert, list_insert_id by done; split; try done.
    all: constructor; [by eapply list_elem_of_lookup_2|constructor]. }
  rewrite IH1, E. rewrite E in IH2. split; [done|]. by apply Forall_app.
Qed.
End cas.

(** ** The device-wide byte budget *)

Record GlobalProbeBudget : Set := mkGlobalProbeBudget {
  state : Z; max_bytes_per_sec : Z; bytes_admitted : Z; bytes_refused : Z;
}.

Definition budget_new (max_bytes_per_sec now : Z) : GlobalProbeBudget :=
  mkGlobalProbeBudget (pack max_bytes_per_sec now) max_bytes_per_sec 0 0.

Definition has_headroom_at (g : GlobalProbeBudget) (now : Z) : bool :=
  let '(old_bytes, old_ts) := unpack (state g) in bool_decide (now <> old_ts \/ 0 < old_bytes)%Z.

(** One round of the loop: [(want, now)] is the call. *)
Definition budget_attempt (max : Z) (c : Z * Z) (old : Z) : Z * bool :=
  let '(want, now) := c in
  let '(old_bytes, old_ts) := unpack old in
  let available := if decide (now <> old_ts) then max else old_bytes in
  if decide (available < want)%Z then (pack available now, false)
  else (pack (available - want) now, true).

Definition budget_want (max bytes : Z) : option Z :=
  if decide (bytes < 2 ^ 32 /\ bytes ≤ max)%Z then Some bytes else None.

Definition try_consume_at (g : GlobalProbeBudget) (bytes now : Z) : GlobalProbeBudget * bool :=
  let max := max_bytes_per_sec g in
  match budget_want max bytes with
  | None => (mkGlobalProbeBudget (state g) max (bytes_admitted g) (u64 (bytes_refused g + bytes)), false)
  | Some want =>
      let '(new, ok) := call (budget_attempt max) (want, now) (state g) in
      if (ok : bool) then (mkGlobalProbeBudget new max (u64 (bytes_admitted g + want)) (bytes_refused g), true)
      else (mkGlobalProbeBudget new max (bytes_admitted g) (u64 (bytes_refused g + want)), false)
  end.

(** Bytes of the calls at a second. *)
Fixpoint spent (t : Z) (l : list (Z * Z)) : Z :=
  match l with
  | [] => 0
  | c :: l => if decide (c.2 = t) then c.1 + spent t l else spent t l
  end.

#[export] Instance spent_perm t : Proper ((≡ₚ) ==> eq) (spent t).
Proof.
  intros l l' H. induction H as [|c l l' _ IH|c d l|]; cbn [spent]; [done|..].
  - by rewrite IH.
  - repeat case_decide; lia.
  - congruence.
Qed.

(** The clock does not run backwards along a history. *)
Definition clocked (t0 : Z) (tr : list (Z * Z * bool)) : Prop :=
  StronglySorted Z.le (t0 :: ((fun e => e.1.2) <$> tr)).

Lemma clocked_cons t0 want now ok tr :
  clocked t0 ((want, now, ok) :: tr) ->
  (t0 ≤ now)%Z /\ clocked now tr /\ Forall (fun e => now ≤ e.1.2)%Z tr.
Proof.
  unfold clocked. cbn [fmap list_fmap fst snd]. intros H. inversion H as [|? ? Hs Hf]; subst.
  apply Forall_cons in Hf as [Hle _]. split; [done|]. split; [done|].
  inversion Hs as [|? ? _ Hn]; subst. exact (proj1 (Forall_fmap _ _ _) Hn).
Qed.

Lemma spent_later t (tr : list (Z * Z * bool)) :
  Forall (fun e => t < e.1.2)%Z tr -> spent t (accepted tr) = 0%Z.
Proof.
  unfold accepted. induction 1 as [|[[want now] ok] tr Hlt _ IH]; [done|].
  cbn [omap list_omap fst snd] in *. destruct ok; [|done]. cbn [spent]. rewrite IH.
  rewrite decide_False; [done|]. cbn. lia.
Qed.

(** Calls the size check lets through, at clock values of 32 bits. *)
Definition call_ok (max : Z) (c : Z * Z) : Prop := (0 ≤ c.1 ≤ max /\ 0 ≤ c.2 < 2 ^ 32)%Z.

Lemma budget_attempt_pack max want now b ts :
  (0 ≤ b < 2 ^ 32)%Z -> (0 ≤ ts < 2 ^ 32)%Z ->
  budget_attempt max (want, now) (pack b ts)
  = let available := if decide (now <> ts) then max else b in
    if decide (available < want)%Z then (pack available now, false)
    else (pack (available - want) now, true).
Proof. intros Hb Hts. unfold budget_attempt. by rewrite pack_unpack. Qed.

Lemma budget_replay max tr b ts st' :
  (0 ≤ max < 2 ^ 32)%Z -> (0 ≤ b ≤ max)%Z -> (0 ≤ ts < 2 ^ 32)%Z -> clocked ts tr ->
  Forall (fun e => call_ok max e.1) tr -> replay (budget_attempt max) tr (pack b ts) = Some st' ->
  forall t, (spent t (accepted tr) ≤ if decide (t = ts) then b else max)%Z.
Proof.
  intros Hmax. revert b ts. induction tr as [|[[want now] ok] tr IH]; intros b ts Hb Hts Hc Hok Hr t.
  { cbn. case_decide; lia. }
  apply clocked_cons in Hc as (Hle & Hc & Hlater). apply Forall_cons in Hok as [[Hw Hn] Hok].
  cbn [fst snd] in Hw, Hn. cbn [replay] in Hr. unfold call in Hr.
  rewrite budget_attempt_pack in Hr by lia. cbv zeta in Hr.
  set (avail := if decide (now <> ts) then max else b) in *.
  assert (0 ≤ avail ≤ max)%Z as Ha by (unfold avail; destruct (decide (now <> ts)); lia).
  assert (now = ts -> avail = b) as Hab by (intros ->; unfold avail; by rewrite decide_False by tauto).
  clearbody avail.
  assert (now <> ts -> spent ts (accepted tr) = 0%Z) as Hz.
  { intros Hne. apply spent_later. eapply Forall_impl; [exact Hlater|]. cbn. lia. }
  rewrite accepted_cons.
  destruct (decide (avail < want)%Z); case_decide as E; try done; subst ok; cbn [app].
  - specialize (IH avail now ltac:(lia) Hn Hc Hok Hr t).
    destruct (decide (t = now)), (decide (t = ts)); subst; lia.
  - specialize (IH (avail - want)%Z now ltac:(lia) Hn Hc Hok Hr t).
    cbn [spent fst snd].
    destruct (decide (now = t)), (decide (t = now)), (decide (t = ts)); subst; lia.
Qed.

(** ** The token bucket of a client *)

Record ClientMetrics : Set := mkClientMetrics {
  packets_in : Z; packets_out : Z; bytes_in : Z; bytes_out : Z; probes_sent : Z;
  rate_state : Z; max_tokens : Z; refill_rate : Z;
}.

Definition saturating_mul (w a b : Z) : Z := Z.min (a * b) (2 ^ w - 1).
Definition saturating_add (w a b : Z) : Z := Z.min (a + b) (2 ^ w - 1).

Definition metrics_new (rate_limit_per_sec now : Z) : ClientMetrics :=
  mkClientMetrics 0 0 0 0 0 (pack (saturating_mul 32 rate_limit_per_sec 1000) now)
    rate_limit_per_sec rate_limit_per_sec.

(** One round of the loop at the clock value [now]. *)
Definition bucket_attempt (max_tokens refill_rate : Z) (now old : Z) : Z * bool :=
  let '(old_mt, old_ts) := unpack old in
  let elapsed := Z.max 0 (now - old_ts) in
  let refill := saturating_mul 64 (saturating_mul 64 elapsed refill_rate) 1000 in
  let max_mt := saturating_mul 32 max_tokens 1000 in
  let current_mt := u32 (Z.min (saturating_add 64 old_mt refill) max_mt) in
  if decide (current_mt < 1000)%Z then (pack current_mt now, false)
  else (pack (current_mt - 1000) now, true).

Definition try_acquire_at (m : ClientMetrics) (now : Z) : ClientMetrics * bool :=
  let '(new, ok) := call (bucket_attempt (max_tokens m) (refill_rate m)) now (rate_state m) in
  (mkClientMetrics (packets_in m) (packets_out m) (bytes_in m) (bytes_out m) (probes_sent m) new
     (max_tokens m) (refill_rate m), ok).

Definition record_in_bytes (m : ClientMetrics) (bytes : Z) : ClientMetrics :=
  mkClientMetrics (u64 (packets_in m + 1)) (packets_out m) (u64 (bytes_in m + bytes)) (bytes_out m)
    (probes_sent m) (rate_state m) (max_tokens m) (refill_rate m).
Definition record_in (m : ClientMetrics) : ClientMetrics := record_in_bytes m 0.

Definition record_out_bytes (m : ClientMetrics) (bytes : Z) : ClientMetrics :=
  mkClientMetrics (packets_in m) (u64 (packets_out m + 1)) (bytes_in m) (u64 (bytes_out m + bytes))
    (probes_sent m) (rate_state m) (max_tokens m) (refill_rate m).
Definition record_out (m : ClientMetrics) : ClientMetrics := record_out_bytes m 0.

Definition record_probe (m : ClientMetrics) : ClientMetrics :=
  mkClientMetrics (packets_in m) (packets_out m) (bytes_in m) (bytes_out m) (u64 (probes_sent m + 1))
    (rate_state m) (max_tokens m) (refill_rate m).
Definition record_probe_bytes (m : ClientMetrics) (bytes : Z) : ClientMetrics :=
  mkClientMetrics (packets_in m) (u64 (packets_out m + 1)) (bytes_in m) (u64 (bytes_out m + bytes))
    (u64 (probes_sent m + 1)) (rate_state m) (max_tokens m) (refill_rate m).

Definition clock_sorted (t0 : Z) (tr : list (Z * bool)) : Prop := StronglySorted Z.le (t0 :: tr.*1).

Lemma clock_sorted_cons t0 now ok tr :
  clock_sorted t0 ((now, ok) :: tr) -> (t0 ≤ now)%Z /\ clock_sorted now tr.
Proof.
  unfold clock_sorted. cbn [fmap list_fmap fst]. intros H. inversion H as [|? ? Hs Hf]; subst.
  apply Forall_cons in Hf as [Hle _]. by split.
Qed.

Lemma bucket_attempt_pack max rate now mt ts :
  (0 ≤ max)%Z -> (0 ≤ rate)%Z -> (0 ≤ mt < 2 ^ 32)%Z -> (0 ≤ ts < 2 ^ 32)%Z -> (ts ≤ now)%Z ->
  exists mt', (0 ≤ mt' ≤ saturating_mul 32 max 1000)%Z /\ (mt' ≤ mt + 1000 * rate * (now - ts))%Z
    /\ bucket_attempt max rate now (pack mt ts)
       = if decide (mt' < 1000)%Z then (pack mt' now, false) else (pack (mt' - 1000) now, true).
Proof.
  intros Hmax Hrate Hmt Hts Hle. unfold bucket_attempt. rewrite pack_unpack by done. cbv zeta.
  rewrite (Z.max_r 0 (now - ts)) by lia.
  assert (0 ≤ (now - ts) * rate)%Z by (apply Z.mul_nonneg_nonneg; lia).
  unfold saturating_add, saturating_mul.
  set (x := Z.min (mt + Z.min (Z.min ((now - ts) * rate) (2 ^ 64 - 1) * 1000) (2 ^ 64 - 1)) (2 ^ 64 - 1)).
  assert (0 ≤ x ≤ mt + 1000 * rate * (now - ts))%Z as Hx by (unfold x; lia). clearbody x.
  exists (Z.min x (Z.min (max * 1000) (2 ^ 32 - 1)))%Z. split; [lia|]. split; [lia|].
  replace (u32 (Z.min x (Z.min (max * 1000) (2 ^ 32 - 1))))
    with (Z.min x (Z.min (max * 1000) (2 ^ 32 - 1)))%Z by (symmetry; apply wrap_small; lia). done.
Qed.

Lemma bucket_replay max rate tr mt ts st' T :
  (0 ≤ max)%Z -> (0 ≤ rate)%Z -> (0 ≤ mt < 2 ^ 32)%Z -> (0 ≤ ts < 2 ^ 32)%Z ->
  clock_sorted ts tr -> Forall (fun e => 0 ≤ e.1 < 2 ^ 32 /\ e.1 ≤ T)%Z tr -> (ts ≤ T)%Z ->
  replay (bucket_attempt max rate) tr (pack mt ts) = Some st' ->
  (1000 * Z.of_nat (length (accepted tr)) ≤ mt + 1000 * rate * (T - ts))%Z.
Proof.
  intros Hmax Hrate. revert mt ts. induction tr as [|[now ok] tr IH]; intros mt ts Hmt Hts Hc Hok HT Hr.
  { cbn. assert (0 ≤ rate * (T - ts))%Z by (apply Z.mul_nonneg_nonneg; lia). lia. }
  apply clock_sorted_cons in Hc as [Hle Hc]. apply Forall_cons in Hok as [[Hn HnT] Hok].
  cbn [fst] in Hn, HnT. cbn [replay] in Hr. unfold call in Hr.
  destruct (bucket_attempt_pack max rate now mt ts) as (mt' & Hm1 & Hm2 & E); try done.
  rewrite E in Hr. rewrite accepted_cons. assert (mt' < 2 ^ 32)%Z by (unfold saturating_mul in Hm1; lia).
  assert (rate * (T - ts) = rate * (now - ts) + rate * (T - now))%Z as Hsplit by lia.
  destruct (decide (mt' < 1000)%Z); case_decide; try done; subst ok; cbn [app length].
  - specialize (IH mt' now ltac:(lia) Hn Hc Hok HnT Hr). lia.
  - specialize (IH (mt' - 1000)%Z now ltac:(lia) Hn Hc Hok HnT Hr). lia.
Qed.

(** ** The theorems on interleavings *)

Lemma ready_granted {A} (l : list A) : granted ((fun a => (a, Ready)) <$> l) = [].
Proof. unfold granted. by induction l. Qed.

Lemma ready_calls {A} (l : list A) : ((fun a => (a, Ready)) <$> l).*1 = l.
Proof. induction l as [|a l IH]; [done|]. cbn. by rewrite IH. Qed.

(** C39: the device-wide ceiling holds under any interleaving.  However many
    tasks run [try_consume] on one budget, and however their loads and swaps
    interleave, the bytes granted to calls of the same second never exceed the
    maximum, as long as swaps take effect in the order of their clock values. *)
Theorem probe_budget_ceiling (max t0 : Z) (calls : list (Z * Z)) (tr : list (Z * Z * bool))
    (st : Z) (ths : list (Z * Z * cas_pc)) (t : Z) :
  (0 ≤ max < 2 ^ 32)%Z -> (0 ≤ t0 < 2 ^ 32)%Z -> Forall (call_ok max) calls ->
  cas_run (budget_attempt max) (state (budget_new max t0)) ((fun c => (c, Ready)) <$> calls) tr st ths ->
  clocked t0 tr ->
  (spent t (granted ths) ≤ max)%Z.
Proof.
  intros Hmax Ht0 Hcalls Hrun Hc. pose proof (cas_calls _ _ _ _ _ _ Hrun) as [_ Htr].
  rewrite ready_calls in Htr. apply cas_sequential in Hrun as [Hr Hg].
  rewrite Hg, ready_granted. cbn [app].
  assert (Forall (fun e => call_ok max e.1) tr) as Hok.
  { eapply Forall_impl; [exact Htr|]. intros e He. by eapply Forall_forall in Hcalls. }
  pose proof (budget_replay max tr max t0 st Hmax ltac:(lia) Ht0 Hc Hok Hr t). case_decide; lia.
Qed.

(** Two tasks race for one hundred bytes: both load, one swap wins, the other
    task starts again and is refused. *)
Lemma probe_budget_ceiling_witness :
  let calls := [(60, 5); (60, 5)]%Z in
  exists tr st ths,
    cas_run (budget_attempt 100) (state (budget_new 100 5)) ((fun c => (c, Ready)) <$> calls) tr st ths
    /\ granted ths = [(60, 5)]%Z /\ (spent 5 (granted ths) ≤ 100)%Z.
Proof.
  cbv zeta. set (s0 := state (budget_new 100 5)). set (s1 := pack 40 5).
  set (a := (60, 5)%Z).
  assert (cas_run (budget_attempt 100) s0 [(a, Ready); (a, Ready)] [(a, true); (a, false)] s1
    [(a, Returned true); (a, Returned false)]) as Hrun.
  { eapply (run_step _ _ _ []); [by apply (step_load _ _ _ 0)|].
    eapply (run_step _ _ _ []); [by apply (step_load _ _ _ 1)|].
    eapply (run_step _ _ _ [(a, true)]); [by apply (step_accept _ _ _ 0 a s1)|].
    eapply (run_step _ _ _ []); [by apply (step_retry _ _ _ 1 a s0 s1)|].
    eapply (run_step _ _ _ []); [by apply (step_load _ _ _ 1)|].
    eapply (run_step _ _ _ [(a, false)]); [by apply (step_reject _ _ _ 1 a s1)|].
    apply run_refl. }
  exists [(a, true); (a, false)], s1, [(a, Returned true); (a, Returned false)].
  split; [exact Hrun|]. split; [reflexivity|].
  apply (probe_budget_ceiling 100 5 [a; a] _ _ _ 5 ltac:(lia) ltac:(lia)) in Hrun; [exact Hrun| |].
  - by repeat constructor.
  - by repeat constructor.
Defined.

(** A client is answered at its rate under any interleaving.  However many
    tasks take tokens of one bucket, those granted up to the second [T] are at
    most the burst plus the rate times the seconds since the bucket was made, as
    long as swaps take effect in the order of their clock values. *)
Theorem token_bucket_rate (rate t0 : Z) (calls : list Z) (tr : list (Z * bool))
    (st : Z) (ths : list (Z * cas_pc)) (T : Z) :
  (0 ≤ rate < 2 ^ 32)%Z -> (0 ≤ t0 < 2 ^ 32)%Z -> Forall (fun now => 0 ≤ now < 2 ^ 32 /\ now ≤ T)%Z calls ->
  cas_run (bucket_attempt rate rate) (rate_state (metrics_new rate t0)) ((fun c => (c, Ready)) <$> calls)
    tr st ths ->
  clock_sorted t0 tr -> (t0 ≤ T)%Z ->
  (Z.of_nat (length (granted ths)) ≤ rate + rate * (T - t0))%Z.
Proof.
  intros Hrate Ht0 Hcalls Hrun Hc HT. pose proof (cas_calls _ _ _ _ _ _ Hrun) as [_ Htr].
  rewrite ready_calls in Htr. apply cas_sequential in Hrun as [Hr Hg].
  rewrite Hg, ready_granted. cbn [app].
  assert (Forall (fun e => 0 ≤ e.1 < 2 ^ 32 /\ e.1 ≤ T)%Z tr) as Hok.
  { eapply Forall_impl; [exact Htr|]. intros e He. by eapply Forall_forall in Hcalls. }
  cbn [rate_state metrics_new] in Hr.
  apply (bucket_replay rate rate tr _ t0 st T) in Hr; unfold saturating_mul in *; try done; lia.
Qed.

Lemma token_bucket_rate_witness :
  exists tr st ths,
    cas_run (bucket_attempt 1 1) (rate_state (metrics_new 1 0)) ((fun c => (c, Ready)) <$> [0; 0]%Z) tr st ths
    /\ granted ths = [0]%Z /\ (Z.of_nat (length (granted ths)) ≤ 1 + 1 * (0 - 0))%Z.
Proof.
  set (s0 := rate_state (metrics_new 1 0)). set (s1 := pack 0 0).
  assert (cas_run (bucket_attempt 1 1) s0 [(0, Ready); (0, Ready)]%Z [(0, true); (0, false)]%Z s1
    [(0, Returned true); (0, Returned false)]%Z) as Hrun.
  { eapply (run_step _ _ _ []); [by apply (step_load _ _ _ 0)|].
    eapply (run_step _ _ _ [(0, true)]%Z); [by apply (step_accept _ _ _ 0 0%Z s1)|].
    eapply (run_step _ _ _ []); [by apply (step_load _ _ _ 1)|].
    eapply (run_step _ _ _ [(0, false)]%Z); [by apply (step_reject _ _ _ 1 0%Z s1)|].
    apply run_refl. }
  exists [(0, true); (0, false)]%Z, s1, [(0, Returned true); (0, Returned false)]%Z.
  split; [exact Hrun|]. split; [reflexivity|].
  apply (token_bucket_rate 1 0 [0; 0]%Z _ _ _ 0) in Hrun; [exact Hrun|lia|lia| | |lia].
  - by repeat constructor.
  - by repeat constructor.
Defined.

(** The order of the clock values matters: a call that read the clock just before
    a second ended and swaps after it puts the old second back, and the next call
    of the new second finds a full budget again. *)
Lemma stale_clock_refills :
  let g := budget_new 100 5 in
  let '(g, ok1) := try_consume_at g 100 6 in
  let '(g, ok2) := try_consume_at g 100 5 in
  let '(g, ok3) := try_consume_at g 100 6 in
  (ok1, ok2, ok3) = (true, true, true).
Proof. vm_compute. reflexivity. Qed.

(** ** The store *)

Section store.
Context {K : Type} `{Countable K}.

Record MetricsStore : Type := mkMetricsStore {
  clients : gmap K ClientMetrics; rate_limit_per_sec : Z; max_clients : nat; client_count : nat;
}.

Definition store_new (rate_limit_per_sec : Z) (max_clients : nat) : MetricsStore :=
  mkMetricsStore ∅ rate_limit_per_sec max_clients 0.

Definition store_get (s : MetricsStore) (addr : K) : option ClientMetrics := clients s !! addr.

(** The reservation and the insertion happen under the lock of the shard. *)
Definition get_or_create (now : Z) (s : MetricsStore) (addr : K) : MetricsStore * option ClientMetrics :=
  match clients s !! addr with
  | Some m => (s, Some m)
  | None =>
      if decide (max_clients s ≤ client_count s) then (s, None) else
      let m := metrics_new (rate_limit_per_sec s) now in
      (mkMetricsStore (<[addr := m]> (clients s)) (rate_limit_per_sec s) (max_clients s)
         (client_count s + 1), Some m)
  end.

Definition store_remove (s : MetricsStore) (addr : K) : MetricsStore :=
  match clients s !! addr with
  | Some _ => mkMetricsStore (delete addr (clients s)) (rate_limit_per_sec s) (max_clients s)
                (client_count s - 1)
  | None => s
  end.

Definition store_len (s : MetricsStore) : nat := size (clients s).

(** The counter is the number of clients, and at most the limit. *)
Definition store_ok (s : MetricsStore) : Prop :=
  client_count s = size (clients s) /\ client_count s ≤ max_clients s.

Inductive store_op : Type := Create (now : Z) (addr : K) | Remove (addr : K).
Definition store_step (s : MetricsStore) (o : store_op) : MetricsStore :=
  match o with Create now addr => (get_or_create now s addr).1 | Remove addr => store_remove s addr end.

Lemma store_step_ok s o : store_ok s -> store_ok (store_step s o) /\ max_clients (store_step s o) = max_clients s.
Proof.
  intros [Hc Hm]. destruct o as [now addr|addr]; cbn [store_step].
  - unfold get_or_create. destruct (clients s !! addr) as [m|] eqn:E; [by split|].
    case_decide; [by split|]. split; [|done]. split; cbn [client_count clients max_clients fst]; [|lia].
    rewrite map_size_insert_None by done. lia.
  - unfold store_remove. destruct (clients s !! addr) as [m|] eqn:E; [|by split].
    split; [|done]. split; cbn [client_count clients max_clients]; [|lia].
    rewrite map_size_delete_Some by (by eexists). lia.
Qed.

(** Only new clients are turned away, and only when the store is full; a known
    client keeps its bucket. *)
Lemma store_bounded rate max ops now addr :
  let s := foldl store_step (store_new rate max) ops in
  store_len s ≤ max
  /\ ((get_or_create now s addr).2 = None <-> store_get s addr = None /\ store_len s = max)
  /\ (forall m, store_get s addr = Some m -> get_or_create now s addr = (s, Some m)).
Proof.
  cbv zeta. assert (forall s, store_ok s -> store_ok (foldl store_step s ops)
    /\ max_clients (foldl store_step s ops) = max_clients s) as Hfold.
  { induction ops as [|o ops IH]; intros s Hs; [done|]. cbn [foldl].
    destruct (store_step_ok s o Hs) as [Hs' Hm]. destruct (IH _ Hs') as [H1 H2]. split; [done|congruence]. }
  destruct (Hfold (store_new rate max)) as [[Hc Hm] Hmax]; [by split; cbn; rewrite ?map_size_empty; lia|].
  set (s := foldl store_step (store_new rate max) ops) in *. clearbody s. cbn [max_clients store_new] in Hmax.
  unfold store_len, store_get, get_or_create. split; [lia|]. split.
  - destruct (clients s !! addr) as [m|]; [by split; [|intros []]|]. case_decide; cbn [snd].
    + split; [|done]. intros _. split; [done|lia].
    + split; [done|]. lia.
  - intros m E. by rewrite E.
Qed.
End store.
