(* ===== verification/ProxyParams.v ===== *)
(** * Obfuscation parameters ([src/src/proxy/config.rs])

    The AmneziaWG parameters, the reader of the configuration file they come
    from, and its validation.  Strings are their UTF-8 bytes. *)
From S2P Require Import Prelude Text.

Record HRange : Set := mkHRange { hmin : Z; hmax : Z }.

Definition contains (r : HRange) (value : Z) : bool :=
  bool_decide (hmin r ≤ value)%Z && bool_decide (value ≤ hmax r)%Z.

Record CbParams : Set := mkCbParams {
  jc : Z; jmin : Z; jmax : Z;
  s1 : Z; s2 : Z; s3 : Z; s4 : Z;
  h1 : HRange; h2 : HRange; h3 : HRange; h4 : HRange;
}.

(** The messages of [ProxyError::Config]. *)
Inductive ConfigError : Set :=
  | InvalidValue (key value : bytes)
  | InvalidMin (key text : bytes)
  | InvalidMax (key text : bytes)
  | MinOverMax (key : bytes) (min max : Z)
  | MissingParameter (name : bytes)
  | JminOverJmax (jmin jmax : Z)
  | Overlap (a : bytes) (ra : HRange) (b : bytes) (rb : HRange).

Abbreviation res := (result ConfigError).

Definition U32_MAX : Z := 4294967295.

Definition parse_u32 (key value : bytes) : res Z :=
  ok_or (InvalidValue key value) (parse_uint U32_MAX value).

Definition parse_h_range (key value : bytes) : res HRange :=
  match split_once (b8 "-") value with
  | Some (min_s, max_s) =>
      min ← ok_or (InvalidMin key min_s) (parse_uint U32_MAX (trim min_s));
      max ← ok_or (InvalidMax key max_s) (parse_uint U32_MAX (trim max_s));
      if decide (max < min)%Z then Err (MinOverMax key min max) else Ok (mkHRange min max)
  | None =>
      v ← ok_or (InvalidValue key value) (parse_uint U32_MAX value);
      Ok (mkHRange v v)
  end.

(** [for i in 0..4 { for j in (i + 1)..4 { .. } }]. *)
Definition check_pair (ranges : list (bytes * HRange)) (_ : unit) (ij : nat * nat) : res unit :=
  '(name_a, a) ← index ranges (fst ij);
  '(name_b, b) ← index ranges (snd ij);
  if decide (hmin a ≤ hmax b /\ hmin b ≤ hmax a)%Z then Err (Overlap name_a a name_b b) else Ok ().

Definition validate_cb_params (p : CbParams) : res unit :=
  if decide (jmax p < jmin p)%Z then Err (JminOverJmax (jmin p) (jmax p)) else
  let ranges := [(bstr "H1", h1 p); (bstr "H2", h2 p); (bstr "H3", h3 p); (bstr "H4", h4 p)] in
  for_each (seq 0 4 ≫= fun i => pair i <$> seq (i + 1) (3 - i)) (check_pair ranges) ().

(** The [Option]s that the scan of the file fills. *)
Record Fields : Set := mkFields {
  f_jc : option Z; f_jmin : option Z; f_jmax : option Z;
  f_s1 : option Z; f_s2 : option Z; f_s3 : option Z; f_s4 : option Z;
  f_h1 : option HRange; f_h2 : option HRange; f_h3 : option HRange; f_h4 : option HRange;
}.
Definition no_fields : Fields :=
  mkFields None None None None None None None None None None None.

(** [match key.to_ascii_lowercase() { .. }]. *)
Definition set_field (key value : bytes) (f : Fields) : res Fields :=
  let '(mkFields jc jmin jmax s1 s2 s3 s4 h1 h2 h3 h4) := f in
  let k := to_ascii_lower <$> key in
  let u (g : option Z -> Fields) := v ← parse_u32 key value; Ok (g (Some v)) in
  let h (g : option HRange -> Fields) := v ← parse_h_range key value; Ok (g (Some v)) in
  if decide (k = bstr "jc") then u (fun v => mkFields v jmin jmax s1 s2 s3 s4 h1 h2 h3 h4)
  else if decide (k = bstr "jmin") then u (fun v => mkFields jc v jmax s1 s2 s3 s4 h1 h2 h3 h4)
  else if decide (k = bstr "jmax") then u (fun v => mkFields jc jmin v s1 s2 s3 s4 h1 h2 h3 h4)
  else if decide (k = bstr "s1") then u (fun v => mkFields jc jmin jmax v s2 s3 s4 h1 h2 h3 h4)
  else if decide (k = bstr "s2") then u (fun v => mkFields jc jmin jmax s1 v s3 s4 h1 h2 h3 h4)
  else if decide (k = bstr "s3") then u (fun v => mkFields jc jmin jmax s1 s2 v s4 h1 h2 h3 h4)
  else if decide (k = bstr "s4") then u (fun v => mkFields jc jmin jmax s1 s2 s3 v h1 h2 h3 h4)
  else if decide (k = bstr "h1") then h (fun v => mkFields jc jmin jmax s1 s2 s3 s4 v h2 h3 h4)
  else if decide (k = bstr "h2") then h (fun v => mkFields jc jmin jmax s1 s2 s3 s4 h1 v h3 h4)
  else if decide (k = bstr "h3") then h (fun v => mkFields jc jmin jmax s1 s2 s3 s4 h1 h2 v h4)
  else if decide (k = bstr "h4") then h (fun v => mkFields jc jmin jmax s1 s2 s3 s4 h1 h2 h3 v)
  else Ok f.

(** One line of the file; the state is [in_interface] and the fields. *)
Definition config_line (s : bool * Fields) (line : bytes) : res (bool * Fields) :=
  let '(in_interface, f) := s in
  let trimmed := trim line in
  if decide (head trimmed = Some (b8 "[")) then
    Ok (bool_decide (to_ascii_lower <$> trimmed = bstr "[interface]"), f)
  else if negb in_interface then Ok s
  else if decide (trimmed = [] \/ head trimmed = Some (b8 "#") \/ head trimmed = Some (b8 ";"))
  then Ok s
  else match split_once (b8 "=") trimmed with
  | Some (key, value) =>
      f ← set_field (trim key) (trim value) f; Ok (in_interface, f)
  | None => Ok s
  end.

(** [str::lines]: a line ends with a newline, or a carriage return and a
    newline; the last one may lack both. *)
Definition strip_cr (l : bytes) : bytes :=
  match reverse l with c :: r => if decide (c = 13%Z) then reverse r else l | [] => l end.
Fixpoint lines_go (pieces : list bytes) : list bytes :=
  match pieces with
  | [] => []
  | [l] => if decide (l = []) then [] else [l]
  | l :: ls => strip_cr l :: lines_go ls
  end.
Definition lines (s : bytes) : list bytes :=
  lines_go (split_on (fun c => bool_decide (c = 10%Z)) s).

Definition require {A} (name : string) (o : option A) : res A :=
  ok_or (MissingParameter (bstr name)) o.
Arguments require {A} _%_string_scope _.

Definition parse_cb_config (text : bytes) : res CbParams :=
  '(_, f) ← for_each (lines text) config_line (false, no_fields);
  jc ← require "Jc" (f_jc f); jmin ← require "Jmin" (f_jmin f); jmax ← require "Jmax" (f_jmax f);
  s1 ← require "S1" (f_s1 f); s2 ← require "S2" (f_s2 f);
  s3 ← require "S3" (f_s3 f); s4 ← require "S4" (f_s4 f);
  h1 ← require "H1" (f_h1 f); h2 ← require "H2" (f_h2 f);
  h3 ← require "H3" (f_h3 f); h4 ← require "H4" (f_h4 f);
  let params := mkCbParams jc jmin jmax s1 s2 s3 s4 h1 h2 h3 h4 in
  _ ← validate_cb_params params; Ok params.

(** ** Valid parameters *)

Definition u32_ok (z : Z) : Prop := (0 ≤ z ≤ U32_MAX)%Z.
Definition range_ok (r : HRange) : Prop := u32_ok (hmin r) /\ u32_ok (hmax r) /\ (hmin r ≤ hmax r)%Z.
Definition disjoint_ranges (a b : HRange) : Prop := (hmax a < hmin b \/ hmax b < hmin a)%Z.

Definition pairwise_disjoint (p : CbParams) : Prop :=
  disjoint_ranges (h1 p) (h2 p) /\ disjoint_ranges (h1 p) (h3 p) /\ disjoint_ranges (h1 p) (h4 p)
  /\ disjoint_ranges (h2 p) (h3 p) /\ disjoint_ranges (h2 p) (h4 p) /\ disjoint_ranges (h3 p) (h4 p).

Record params_ok (p : CbParams) : Prop := {
  ok_words : Forall u32_ok [jc p; jmin p; jmax p; s1 p; s2 p; s3 p; s4 p];
  ok_ranges : Forall range_ok [h1 p; h2 p; h3 p; h4 p];
  ok_junk : (jmin p ≤ jmax p)%Z;
  ok_disjoint : pairwise_disjoint p;
}.

Lemma disjoint_iff a b : disjoint_ranges a b <-> ~ (hmin a ≤ hmax b /\ hmin b ≤ hmax a)%Z.
Proof. unfold disjoint_ranges. lia. Qed.

Lemma contains_disjoint a b v : disjoint_ranges a b -> contains a v = true -> contains b v = false.
Proof.
  unfold disjoint_ranges, contains. intros Hd [H1%bool_decide_eq_true H2%bool_decide_eq_true]%andb_prop.
  apply andb_false_iff. rewrite !bool_decide_eq_false. lia.
Qed.

(** The validation accepts exactly the disjoint ranges. *)
Lemma validate_spec p :
  (validate_cb_params p = Ok () /\ (jmin p ≤ jmax p)%Z /\ pairwise_disjoint p)
  \/ ((exists e, validate_cb_params p = Err e) /\ ~ ((jmin p ≤ jmax p)%Z /\ pairwise_disjoint p)).
Proof.
  unfold validate_cb_params, pairwise_disjoint. rewrite !disjoint_iff.
  case_decide as Hj; [right; split; [by eexists|lia]|].
  change (seq 0 4 ≫= fun i => pair i <$> seq (i + 1) (3 - i))
    with [(0, 1); (0, 2); (0, 3); (1, 2); (1, 3); (2, 3)].
  cbn [for_each check_pair fst snd index lookup list_lookup mbind result_bind].
  repeat (lazymatch goal with |- (mbind _ (if ?d then _ else _) = _ /\ _) \/ _ =>
            destruct d as [Hd|?]; cbn [mbind result_bind] end;
          [right; split; [by eexists|clear - Hd; tauto]|]).
  left. split; [done|]. split; [lia|]. tauto.
Qed.

Lemma parse_u32_cases key value :
  (exists v, parse_u32 key value = Ok v /\ u32_ok v) \/ parse_u32 key value = Err (InvalidValue key value).
Proof.
  unfold parse_u32. destruct (parse_uint U32_MAX value) as [v|] eqn:E; [|by right].
  left. exists v. split; [done|]. by apply parse_uint_range in E.
Qed.

Lemma parse_h_range_cases key value :
  (exists r, parse_h_range key value = Ok r /\ range_ok r) \/ (exists e, parse_h_range key value = Err e).
Proof.
  unfold parse_h_range. destruct (split_once (b8 "-") value) as [[a b]|].
  - destruct (parse_uint U32_MAX (trim a)) as [min|] eqn:Ea; cbn [ok_or mbind result_bind]; [|right; by eexists].
    destruct (parse_uint U32_MAX (trim b)) as [max|] eqn:Eb; cbn [ok_or mbind result_bind]; [|right; by eexists].
    case_decide; [right; by eexists|]. left. eexists. split; [done|].
    apply parse_uint_range in Ea, Eb. unfold range_ok, u32_ok. cbn. lia.
  - destruct (parse_uint U32_MAX value) as [v|] eqn:E; cbn [ok_or mbind result_bind]; [|right; by eexists].
    left. eexists. split; [done|]. apply parse_uint_range in E. unfold range_ok, u32_ok. cbn. lia.
Qed.

(** What the fields collected so far hold. *)
Definition some_ok {A} (P : A -> Prop) (o : option A) : Prop := match o with Some a => P a | None => True end.

Record fields_ok (f : Fields) : Prop := {
  fo_words : Forall (some_ok u32_ok) [f_jc f; f_jmin f; f_jmax f; f_s1 f; f_s2 f; f_s3 f; f_s4 f];
  fo_ranges : Forall (some_ok range_ok) [f_h1 f; f_h2 f; f_h3 f; f_h4 f];
}.

Lemma set_field_cases key value f :
  fields_ok f ->
  (exists f', set_field key value f = Ok f' /\ fields_ok f') \/ (exists e, set_field key value f = Err e).
Proof.
  intros [Hw Hr]. destruct f as [a b c d e g i j k l m]. cbn in Hw, Hr. unfold set_field.
  repeat match goal with H : Forall _ (_ :: _) |- _ => apply Forall_cons in H as [? H] end.
  destruct (parse_u32_cases key value) as [(v & Eu & Hv)|Eu];
    destruct (parse_h_range_cases key value) as [(r & Eh & Hh)|(er & Eh)]; rewrite Eu, Eh;
    cbn [mbind result_bind]; repeat case_decide; first
    [ left; eexists; split; [done|]; split; cbn; repeat (constructor; [done|]); constructor
    | right; by eexists ].
Qed.

Lemma config_line_cases s line :
  fields_ok (snd s) ->
  (exists s', config_line s line = Ok s' /\ fields_ok (snd s')) \/ (exists e, config_line s line = Err e).
Proof.
  destruct s as [i f]. cbn [snd]. intros Hf. unfold config_line.
  case_decide; [left; by eexists|]. destruct (negb i); [left; by eexists|].
  case_decide; [left; by eexists|]. destruct (split_once _ _) as [[key value]|]; [|left; by eexists].
  destruct (set_field_cases (trim key) (trim value) f Hf) as [(f' & -> & Hf')|(e & ->)].
  - left. by eexists.
  - right. by eexists.
Qed.

Lemma scan_cases ls s :
  fields_ok (snd s) ->
  (exists s', for_each ls config_line s = Ok s' /\ fields_ok (snd s'))
  \/ (exists e, for_each ls config_line s = Err e).
Proof.
  revert s. induction ls as [|l ls IH]; intros s Hs; cbn [for_each]; [left; by eexists|].
  destruct (config_line_cases s l Hs) as [(s' & -> & Hs')|(e & ->)]; [|right; by eexists].
  rewrite bind_Ok_eq. by apply IH.
Qed.
