(* ===== verification/ProxyConfig.v ===== *)
(** * Parameters for the proxy ([src/src/proxy/supervisor.rs])

    The supervisor renders the interface row as a configuration text and reads
    it back with the parser of [ProxyParams].  The round trip is the contract
    between the two. *)
From S2P Require Import Prelude Text ProxyParams.

(** The columns of [db::Interface] that are read here. *)
Record Interface : Set := mkInterface {
  i_jc : Z; i_jmin : Z; i_jmax : Z;
  i_s1 : Z; i_s2 : Z; i_s3 : option Z; i_s4 : option Z;
  i_h1 : bytes; i_h2 : bytes; i_h3 : bytes; i_h4 : bytes;
}.

Definition parse_h_token (tok : bytes) : option Z :=
  let tok := trim tok in
  match (match strip_prefix (bstr "0x") tok with
         | Some hex => Some hex
         | None => strip_prefix (bstr "0X") tok
         end) with
  | Some hex => parse_hex U32_MAX hex
  | None => parse_uint U32_MAX tok
  end.

Definition norm_h (h : bytes) : bytes :=
  let h := trim h in
  if decide (h = []) then bstr "0" else
  match split_once (b8 "-") h with
  | Some (lo, hi) =>
      match parse_h_token lo, parse_h_token hi with
      | Some a, Some b => decimal a ++ b8 "-" :: decimal b
      | _, _ => h
      end
  | None => match parse_h_token h with Some v => decimal v | None => h end
  end.

Definition NL : Z := 10.
Definition config_entry (key : string) (value : bytes) : bytes :=
  bstr key ++ b8 "=" :: value ++ [NL].
Arguments config_entry _%_string_scope _.

Definition cb_text (iface : Interface) : bytes :=
  let s3 := default 0%Z (i_s3 iface) in
  let s4 := default 0%Z (i_s4 iface) in
  bstr "[Interface]" ++ [NL]
  ++ config_entry "Jc" (decimal (i_jc iface)) ++ config_entry "Jmin" (decimal (i_jmin iface))
  ++ config_entry "Jmax" (decimal (i_jmax iface))
  ++ config_entry "S1" (decimal (i_s1 iface)) ++ config_entry "S2" (decimal (i_s2 iface))
  ++ config_entry "S3" (decimal s3) ++ config_entry "S4" (decimal s4)
  ++ config_entry "H1" (norm_h (i_h1 iface)) ++ config_entry "H2" (norm_h (i_h2 iface))
  ++ config_entry "H3" (norm_h (i_h3 iface)) ++ config_entry "H4" (norm_h (i_h4 iface)).

(** An error is logged, and the proxy runs without padding transform. *)
Definition build_cb_params (iface : Interface) : option CbParams :=
  result_ok (parse_cb_config (cb_text iface)).

(** ** The lines of the rendered text *)

Definition line_ok (l : bytes) : Prop := Forall graph l /\ l <> [].

Lemma strip_cr_graph l : Forall graph l -> strip_cr l = l.
Proof.
  intros Hl. unfold strip_cr. destruct (reverse l) as [|c r] eqn:E; [done|].
  rewrite decide_False; [done|]. intros ->.
  assert (graph 13) as Hg; [|unfold graph in Hg; lia].
  apply Forall_reverse in Hl. rewrite E in Hl. by inversion Hl.
Qed.

Lemma lines_app l rest :
  Forall graph l -> lines (l ++ NL :: rest) = l :: lines rest.
Proof.
  intros Hl. unfold lines. rewrite split_on_app_sep; [|eapply Forall_impl; [exact Hl|]|].
  - destruct (split_on _ rest) as [|p ps] eqn:E; [by apply split_on_nonempty in E|].
    cbn [lines_go]. by rewrite strip_cr_graph.
  - intros c Hc. apply bool_decide_eq_false. unfold graph in Hc. lia.
  - by apply bool_decide_eq_true.
Qed.

Lemma lines_entry key value rest :
  Forall graph (bstr key) -> Forall graph value ->
  lines (config_entry key value ++ rest) = (bstr key ++ b8 "=" :: value) :: lines rest.
Proof.
  intros Hk Hv. unfold config_entry.
  replace ((bstr key ++ b8 "=" :: value ++ [NL]) ++ rest)
    with ((bstr key ++ b8 "=" :: value) ++ NL :: rest)
    by (rewrite <- !app_assoc, <- !app_comm_cons, <- app_assoc; done).
  apply lines_app. apply Forall_app. split; [done|]. constructor; [|done].
  unfold graph. vm_compute. done.
Qed.

(** One rendered line sets one field. *)
Lemma config_line_entry key value f :
  Forall graph key -> Forall graph value -> value <> [] -> b8 "=" ∉ key ->
  (exists c k, key = c :: k /\ c ∉ [b8 "["; b8 "#"; b8 ";"]) ->
  config_line (true, f) (key ++ b8 "=" :: value) = (f ← set_field key value f; Ok (true, f)).
Proof.
  intros Hk Hv Hne Hs (c & k & -> & Hc). unfold config_line.
  assert (Forall graph ((c :: k) ++ b8 "=" :: value)) as Hg.
  { apply Forall_app. split; [done|]. constructor; [unfold graph; vm_compute; done|done]. }
  rewrite (trim_id ((c :: k) ++ b8 "=" :: value)) by done. cbn [app head negb].
  rewrite !not_elem_of_cons in Hc. destruct Hc as (H1 & H2 & H3 & _).
  rewrite decide_False by congruence. rewrite decide_False by (intros [?|[?|?]]; congruence).
  rewrite (proj2 (split_once_spec (b8 "=") _ (c :: k) value)) by done.
  rewrite !trim_id by done. done.
Qed.

(** ** The H fields *)

(** What an operator means by the text of an H field: a decimal or [0x] number,
    a range of them, or nothing, which stands for zero. *)
Definition reads_h (h : bytes) (r : HRange) : Prop :=
  let t := trim h in
  if decide (t = []) then r = mkHRange 0 0 else
  match split_once (b8 "-") t with
  | Some (lo, hi) => parse_h_token lo = Some (hmin r) /\ parse_h_token hi = Some (hmax r)
  | None => parse_h_token t = Some (hmin r) /\ hmax r = hmin r
  end.

Lemma parse_h_token_range t v : parse_h_token t = Some v -> u32_ok v.
Proof.
  unfold parse_h_token, u32_ok. intros H.
  destruct (match strip_prefix (bstr "0x") (trim t) with Some hex => Some hex | None => _ end).
  - by apply parse_hex_range in H.
  - by apply parse_uint_range in H.
Qed.

Lemma u32_u64 v : u32_ok v -> (0 ≤ v < 2 ^ 64)%Z.
Proof. unfold u32_ok, U32_MAX. lia. Qed.

Lemma parse_u32_decimal key v : u32_ok v -> parse_u32 key (decimal v) = Ok v.
Proof.
  intros Hv. unfold parse_u32. rewrite parse_uint_decimal; [done|by apply u32_u64|].
  unfold u32_ok in Hv. lia.
Qed.

Lemma decimal_value v :
  u32_ok v -> Forall graph (decimal v) /\ decimal v <> [] /\ b8 "-" ∉ decimal v.
Proof.
  intros Hv%u32_u64. destruct (decimal_spec v Hv) as (Hd & Hne & _).
  split; [by apply digits_graph|]. split; [done|]. intros Hin.
  rewrite Forall_forall in Hd. specialize (Hd _ Hin). unfold digit, b8 in Hd. cbn in Hd. lia.
Qed.

Lemma parse_point key v : u32_ok v -> parse_h_range key (decimal v) = Ok (mkHRange v v).
Proof.
  intros Hv. destruct (decimal_value v Hv) as (_ & _ & Hm). unfold parse_h_range.
  rewrite (proj2 (split_once_None _ _)) by done.
  rewrite parse_uint_decimal; [done|by apply u32_u64|]. unfold u32_ok in Hv. lia.
Qed.

Lemma norm_h_reads key h r :
  reads_h h r -> (hmin r ≤ hmax r)%Z ->
  Forall graph (norm_h h) /\ norm_h h <> [] /\ parse_h_range key (norm_h h) = Ok r.
Proof.
  unfold reads_h, norm_h. destruct r as [lo hi]. cbn [hmin hmax]. intros H Hle. case_decide.
  { injection H as -> ->. split_and!; [|done|done].
    repeat constructor; unfold graph; vm_compute; done. }
  destruct (split_once (b8 "-") (trim h)) as [[a b]|].
  - destruct H as [Ha Hb]. rewrite Ha, Hb.
    apply parse_h_token_range in Ha, Hb.
    destruct (decimal_value lo Ha) as (Ga & Na & Ma), (decimal_value hi Hb) as (Gb & Nb & _).
    split; [|split].
    + apply Forall_app. split; [done|]. constructor; [unfold graph; vm_compute; done|done].
    + by destruct (decimal lo).
    + unfold parse_h_range. rewrite (proj2 (split_once_spec (b8 "-") _ (decimal lo) (decimal hi))) by done.
      rewrite !trim_decimal by (by apply u32_u64).
      rewrite !parse_uint_decimal by (by apply u32_u64 || by (unfold u32_ok in *; lia)).
      cbn [ok_or mbind result_bind]. by rewrite decide_False by lia.
  - destruct H as [Ha ->]. rewrite Ha. apply parse_h_token_range in Ha.
    destruct (decimal_value lo Ha) as (Ga & Na & _). split_and!; [done|done|by apply parse_point].
Qed.

(** ** The round trip *)

(** The row describes the parameters. *)
Record describes (iface : Interface) (p : CbParams) : Prop := {
  d_words : [i_jc iface; i_jmin iface; i_jmax iface; i_s1 iface; i_s2 iface;
             default 0%Z (i_s3 iface); default 0%Z (i_s4 iface)]
            = [jc p; jmin p; jmax p; s1 p; s2 p; s3 p; s4 p];
  d_ranges : Forall2 reads_h [i_h1 iface; i_h2 iface; i_h3 iface; i_h4 iface]
                             [h1 p; h2 p; h3 p; h4 p];
}.

(** The lines, each with its key. *)
Definition cb_entries (iface : Interface) : list (string * bytes) :=
  [("Jc", decimal (i_jc iface)); ("Jmin", decimal (i_jmin iface)); ("Jmax", decimal (i_jmax iface));
   ("S1", decimal (i_s1 iface)); ("S2", decimal (i_s2 iface));
   ("S3", decimal (default 0%Z (i_s3 iface))); ("S4", decimal (default 0%Z (i_s4 iface)));
   ("H1", norm_h (i_h1 iface)); ("H2", norm_h (i_h2 iface));
   ("H3", norm_h (i_h3 iface)); ("H4", norm_h (i_h4 iface))]%string.

Lemma cb_text_entries iface :
  cb_text iface
  = bstr "[Interface]" ++ NL :: (cb_entries iface ≫= fun e => config_entry (fst e) (snd e)).
Proof.
  unfold cb_text, cb_entries. rewrite !bind_cons. cbn [fst snd mbind list_bind]. by rewrite app_nil_r.
Qed.

Definition plain_key (key : string) : Prop :=
  Forall graph (bstr key) /\ b8 "=" ∉ bstr key
  /\ exists c k, bstr key = c :: k /\ c ∉ [b8 "["; b8 "#"; b8 ";"].

Lemma scan_entries es f :
  Forall (fun e : string * bytes => plain_key (fst e) /\ Forall graph (snd e) /\ snd e <> []) es ->
  for_each (lines (es ≫= fun e => config_entry (fst e) (snd e))) config_line (true, f)
  = (f ← for_each es (fun f e => set_field (bstr (fst e)) (snd e) f) f; Ok (true, f)).
Proof.
  intros Hes. revert f. induction Hes as [|[k v] es ((Hg & He & Hc) & Hv & Hne) _ IH]; intros f; [done|].
  rewrite bind_cons. cbn [fst snd] in *. rewrite lines_entry by done. cbn [for_each fst snd].
  rewrite config_line_entry by done. destruct (set_field (bstr k) v f); [|done|done].
  rewrite !bind_Ok_eq. apply IH.
Qed.

Lemma plain_keys : Forall plain_key ["Jc"; "Jmin"; "Jmax"; "S1"; "S2"; "S3"; "S4"; "H1"; "H2"; "H3"; "H4"]%string.
Proof.
  repeat (apply Forall_cons; split;
    [split; [evaluate|split; [evaluate|eexists _, _; split; [reflexivity|evaluate]]]|]).
  constructor.
Qed.

(** One step of the scan of the rendered fields. *)
Ltac set_one :=
  match goal with |- context [set_field ?k ?v (mkFields ?a ?b ?c ?d ?e ?f ?g ?h ?i ?j ?l)] =>
    let old := constr:(set_field k v (mkFields a b c d e f g h i j l)) in
    let new := eval cbv beta iota zeta delta [set_field] in old in change old with new
  end;
  repeat rewrite decide_False by (vm_compute; discriminate);
  rewrite decide_True by (vm_compute; reflexivity).

(** The scan and the checks after it, on the fields of valid parameters. *)
Lemma parse_fields p text :
  for_each (lines text) config_line (false, no_fields)
  = Ok (true, mkFields (Some (jc p)) (Some (jmin p)) (Some (jmax p))
       (Some (s1 p)) (Some (s2 p)) (Some (s3 p)) (Some (s4 p))
       (Some (h1 p)) (Some (h2 p)) (Some (h3 p)) (Some (h4 p))) ->
  parse_cb_config text = (_ ← validate_cb_params p; Ok p).
Proof.
  intros E. unfold parse_cb_config. rewrite E, bind_Ok_eq.
  cbn [f_jc f_jmin f_jmax f_s1 f_s2 f_s3 f_s4 f_h1 f_h2 f_h3 f_h4 require ok_or mbind result_bind].
  by replace (mkCbParams _ _ _ _ _ _ _ _ _ _ _) with p by by destruct p.
Qed.

Lemma parse_cb_text iface p :
  Forall u32_ok [jc p; jmin p; jmax p; s1 p; s2 p; s3 p; s4 p] ->
  Forall range_ok [h1 p; h2 p; h3 p; h4 p] -> describes iface p ->
  parse_cb_config (cb_text iface) = (_ ← validate_cb_params p; Ok p).
Proof.
  intros Hwords Hranges [Hw Hr]. apply parse_fields.
  injection Hw as E1 E2 E3 E4 E5 E6 E7.
  repeat match goal with
  | H : Forall _ (_ :: _) |- _ => apply Forall_cons in H as [? H]
  | H : Forall2 _ (_ :: _) _ |- _ => apply Forall2_cons in H as [? H]
  end.
  repeat match goal with
  | H : range_ok ?r, G : reads_h ?h ?r |- _ =>
      pose proof (fun key => norm_h_reads key h r G (proj2 (proj2 H))); clear G
  end.
  rewrite cb_text_entries, lines_app by evaluate. cbn [for_each].
  assert (config_line (false, no_fields) (bstr "[Interface]") = Ok (true, no_fields)) as ->
    by (vm_compute; reflexivity).
  rewrite bind_Ok_eq, scan_entries.
  - unfold cb_entries, no_fields. rewrite E1, E2, E3, E4, E5, E6, E7. cbn [for_each fst snd].
    do 7 (set_one; rewrite parse_u32_decimal by done; rewrite !bind_Ok_eq).
    do 4 (set_one; match goal with H : forall key, _ /\ _ /\ parse_h_range key ?t = Ok ?r
                   |- context [parse_h_range ?k ?t] => rewrite (proj2 (proj2 (H k))) end;
          rewrite !bind_Ok_eq).
    done.
  - unfold cb_entries. rewrite E1, E2, E3, E4, E5, E6, E7. pose proof plain_keys as Hk.
    repeat match goal with H : Forall plain_key (_ :: _) |- _ => apply Forall_cons in H as [? H] end.
    repeat match goal with H : u32_ok ?v |- _ => apply decimal_value in H as (? & ? & _) end.
    repeat match goal with H : forall key : bytes, _ |- _ => destruct (H []) as (? & ? & _); clear H end.
    by repeat (apply Forall_cons; split; [by split_and!|]).
Qed.

Lemma parse_cb_config_cases text :
  (exists p, parse_cb_config text = Ok p /\ params_ok p) \/ (exists e, parse_cb_config text = Err e).
Proof.
  unfold parse_cb_config.
  destruct (scan_cases (lines text) (false, no_fields)) as [([i f] & -> & Hf)|(e & ->)];
    [split; cbn; repeat (apply Forall_cons; split; [done|]); constructor| |right; by eexists].
  rewrite bind_Ok_eq. destruct Hf as [Hw Hr]. destruct f as [a b c d e g h i' j k l].
  cbn [f_jc f_jmin f_jmax f_s1 f_s2 f_s3 f_s4 f_h1 f_h2 f_h3 f_h4 snd] in *.
  repeat match goal with H : Forall _ (some_ok _ ?o :: _) |- _ => idtac end.
  repeat match goal with
  | |- context [require ?n ?o] => destruct o; cbn [require ok_or mbind result_bind]; [|right; by eexists]
  end.
  match goal with |- context [validate_cb_params ?p] => destruct (validate_spec p) as [(-> & Hj & Hd)|[[e' ->] _]];
    cbn [mbind result_bind]; [left; exists p|right; by eexists] end.
  split; [done|]. split; [| |done|done]; cbn [ProxyParams.jc ProxyParams.jmin ProxyParams.jmax];
    repeat match goal with H : Forall (some_ok _) (_ :: _) |- _ => apply Forall_cons in H as [? H] end;
    repeat (apply Forall_cons; split; [done|]); constructor.
Qed.

Lemma build_cb_params_cases iface p :
  Forall u32_ok [jc p; jmin p; jmax p; s1 p; s2 p; s3 p; s4 p] ->
  Forall range_ok [h1 p; h2 p; h3 p; h4 p] -> describes iface p ->
  (params_ok p -> build_cb_params iface = Some p)
  /\ (~ params_ok p -> build_cb_params iface = None).
Proof.
  intros Hw Hr Hd. unfold build_cb_params. rewrite (parse_cb_text iface p) by done.
  destruct (validate_spec p) as [(-> & Hj & Hp)|[[e ->] Hn]]; cbn; split; intros H; try done.
  - exfalso. apply H. by split.
  - exfalso. apply Hn. by destruct H.
Qed.

(** ** Properties *)

(** C40: reading a configuration is total and only accepts usable parameters.
    Whatever the text, [parse_cb_config] returns; what it accepts has every
    value within [u32], every range the right way round, [Jmin] at most [Jmax],
    and four header ranges no two of which share a value. *)
Theorem parse_cb_config_sound (text : bytes) :
  returns (parse_cb_config text) /\ forall p, parse_cb_config text = Ok p -> params_ok p.
Proof.
  destruct (parse_cb_config_cases text) as [(p & -> & Hp)|(e & ->)]; split; try done.
  by intros q [= <-].
Qed.

Definition sample_text : bytes :=
  bstr "[Interface]" ++ [NL] ++ bstr "Jc=4" ++ [NL] ++ bstr "Jmin=40" ++ [NL] ++ bstr "Jmax=70" ++ [NL]
  ++ bstr "S1=10" ++ [NL] ++ bstr "S2=20" ++ [NL] ++ bstr "S3=0" ++ [NL] ++ bstr "S4=0" ++ [NL]
  ++ bstr "H1=5-6" ++ [NL] ++ bstr "H2=7" ++ [NL] ++ bstr "H3=8" ++ [NL] ++ bstr "H4=9" ++ [NL].
Definition sample_params : CbParams :=
  mkCbParams 4 40 70 10 20 0 0 (mkHRange 5 6) (mkHRange 7 7) (mkHRange 8 8) (mkHRange 9 9).
Definition sample_interface : Interface :=
  mkInterface 4 40 70 10 20 None (Some 0%Z) (bstr "0x5 - 6") (bstr "7") (bstr " 8 ") (bstr "0X9").

Lemma parse_cb_config_sound_witness :
  parse_cb_config sample_text = Ok sample_params /\ params_ok sample_params.
Proof.
  assert (parse_cb_config sample_text = Ok sample_params) as E by (vm_compute; reflexivity).
  split; [exact E|exact (proj2 (parse_cb_config_sound sample_text) sample_params E)].
Defined.

(** The supervisor and the proxy agree.  For a row of the database whose
    columns describe parameters with values in range, the text that the
    supervisor renders is read back by the proxy's parser as exactly these
    parameters when they are valid ([Jmin] at most [Jmax], disjoint header
    ranges), decimal and [0x] header values alike; otherwise the proxy runs
    without parameters. *)
Theorem build_cb_params_spec (iface : Interface) (p : CbParams) :
  Forall u32_ok [jc p; jmin p; jmax p; s1 p; s2 p; s3 p; s4 p] ->
  Forall range_ok [h1 p; h2 p; h3 p; h4 p] ->
  describes iface p ->
  (params_ok p -> build_cb_params iface = Some p)
  /\ (~ params_ok p -> build_cb_params iface = None).
Proof. apply build_cb_params_cases. Qed.

Lemma sample_params_ok : params_ok sample_params.
Proof.
  split; [| |cbn; lia|unfold pairwise_disjoint, disjoint_ranges; cbn; lia];
    repeat constructor; cbn; unfold u32_ok, U32_MAX; lia.
Qed.
Lemma sample_describes : describes sample_interface sample_params.
Proof. split; [reflexivity|]. repeat constructor; vm_compute; by repeat split. Qed.

Lemma build_cb_params_spec_witness :
  params_ok sample_params /\ describes sample_interface sample_params
  /\ build_cb_params sample_interface = Some sample_params.
Proof.
  split; [exact sample_params_ok|]. split; [exact sample_describes|].
  exact (proj1 (build_cb_params_spec sample_interface sample_params
    (ok_words _ sample_params_ok) (ok_ranges _ sample_params_ok) sample_describes) sample_params_ok).
Defined.

Lemma reads_blank h r : trim h = [] -> reads_h h r -> r = mkHRange 0 0.
Proof. unfold reads_h. intros ->. by rewrite decide_True. Qed.

(** Two blank header fields both read as zero, and zero overlaps itself: the
    whole transform is off, not only the two packet types. *)
Lemma blank_fields_disable iface p :
  Forall u32_ok [jc p; jmin p; jmax p; s1 p; s2 p; s3 p; s4 p] ->
  Forall range_ok [h1 p; h2 p; h3 p; h4 p] -> describes iface p ->
  trim (i_h3 iface) = [] -> trim (i_h4 iface) = [] -> build_cb_params iface = None.
Proof.
  intros Hw Hr Hd H3 H4. apply (build_cb_params_cases iface p Hw Hr Hd).
  intros [_ _ _ (_ & _ & _ & _ & _ & Hp)]. destruct Hd as [_ Hd].
  apply Forall2_cons in Hd as [_ Hd]. apply Forall2_cons in Hd as [_ Hd].
  apply Forall2_cons in Hd as [R3 Hd]. apply Forall2_cons in Hd as [R4 _].
  apply reads_blank in R3, R4; [|done|done]. rewrite R3, R4 in Hp.
  unfold disjoint_ranges in Hp. cbn in Hp. lia.
Qed.
