(* ===== verification/ProxyPackets.v ===== *)
(** * Packets of the proxy ([src/src/proxy/responder.rs])

    Classification of AmneziaWG packets, detection of imitated protocols, and
    the DNS, STUN and QUIC replies.  A packet is a list of bytes; indexing out
    of range is a panic. *)
From S2P Require Import Prelude Text ProxyParams.

(** Nothing here fails: a call returns or panics. *)
Abbreviation act := (result Empty_set).

Inductive Protocol : Set := Quic | Dns | Stun | Sip.
#[export] Instance Protocol_eq_dec : EqDecision Protocol.
Proof. solve_decision. Defined.

Inductive CbPacketType : Set := HandshakeInit | HandshakeResponse | CookieReply | TransportData.
#[export] Instance CbPacketType_eq_dec : EqDecision CbPacketType.
Proof. solve_decision. Defined.

Definition WG_HANDSHAKE_INIT_SIZE : nat := 148.
Definition WG_HANDSHAKE_RESPONSE_SIZE : nat := 92.
Definition WG_COOKIE_REPLY_SIZE : nat := 64.
Definition WG_TRANSPORT_DATA_MIN_SIZE : nat := 32.

Definition padding_size (t : CbPacketType) (p : CbParams) : nat :=
  Z.to_nat match t with
           | HandshakeInit => s1 p | HandshakeResponse => s2 p
           | CookieReply => s3 p | TransportData => s4 p
           end.

Definition expected_message_size (t : CbPacketType) : option nat :=
  match t with
  | HandshakeInit => Some WG_HANDSHAKE_INIT_SIZE
  | HandshakeResponse => Some WG_HANDSHAKE_RESPONSE_SIZE
  | CookieReply => Some WG_COOKIE_REPLY_SIZE
  | TransportData => None
  end.

Definition min_total_size (t : CbPacketType) (p : CbParams) : nat :=
  let padding := padding_size t p in
  match t with
  | TransportData => padding + WG_TRANSPORT_DATA_MIN_SIZE
  | _ => padding + default 0 (expected_message_size t)
  end.

(** [u32::from_le_bytes] and [u32::from_be_bytes] of four bytes at an offset. *)
Definition of_le32 (a b c d : Z) : Z :=
  (a + Z.shiftl b 8 + Z.shiftl c 16 + Z.shiftl d 24)%Z.
Definition read_le32 (data : bytes) (o : nat) : act Z :=
  a ← index data o; b ← index data (o + 1); c ← index data (o + 2); d ← index data (o + 3);
  Ok (of_le32 a b c d).
Definition read_be32 (data : bytes) (o : nat) : act Z :=
  a ← index data o; b ← index data (o + 1); c ← index data (o + 2); d ← index data (o + 3);
  Ok (of_le32 d c b a).
Definition read_be16 (data : bytes) (o : nat) : act Z :=
  a ← index data o; b ← index data (o + 1); Ok (of_be16 a b).

(** [data.len() != offset + size] for the fixed sizes, a minimum otherwise. *)
Definition size_fits (n : nat) (offset : nat) (t : CbPacketType) (p : CbParams) : bool :=
  match expected_message_size t with
  | Some size => bool_decide (n = offset + size)
  | None => bool_decide (min_total_size t p ≤ n)
  end.

Fixpoint classify_loop (candidates : list (nat * HRange * CbPacketType)) (data : bytes) (p : CbParams)
    : act (option CbPacketType) :=
  match candidates with
  | [] => Ok None
  | (offset, range, t) :: candidates =>
      if decide (length data < offset + 4) then classify_loop candidates data p
      else if negb (size_fits (length data) offset t p) then classify_loop candidates data p
      else header ← read_le32 data offset;
           if contains range header then Ok (Some t) else classify_loop candidates data p
  end.

Definition candidates (p : CbParams) : list (nat * HRange * CbPacketType) :=
  [(Z.to_nat (s1 p), h1 p, HandshakeInit); (Z.to_nat (s2 p), h2 p, HandshakeResponse);
   (Z.to_nat (s3 p), h3 p, CookieReply); (Z.to_nat (s4 p), h4 p, TransportData)].

Definition classify_cb_packet (data : bytes) (p : CbParams) : act (option CbPacketType) :=
  classify_loop (candidates p) data p.

(** ** Protocol detection *)

Definition STUN_MAGIC_COOKIE : Z := 0x2112A442.
Definition STUN_BINDING_REQUEST : Z := 0x0001.
Definition STUN_BINDING_SUCCESS_RESPONSE : Z := 0x0101.
Definition STUN_ATTR_XOR_MAPPED_ADDRESS : Z := 0x0020.

Definition is_quic_version (version : Z) : bool :=
  if decide (version = 0x00000001)%Z then true
  else if decide (version = 0x6b3343cf)%Z then true
  else if decide (Z.land version 0xffffff00 = 0xff000000 /\ Z.land version 0xff <> 0)%Z then true
  else if decide (Z.land version 0x0f0f0f0f = 0x0a0a0a0a)%Z then true
  else false.

(** The walk over the labels of a name; [qname_len] counts their bytes. *)
Fixpoint dns_qname_loop (fuel : nat) (data : bytes) (pos qname_len : nat) : act (option nat) :=
  match fuel with
  | O => Stuck OutOfFuel
  | S fuel =>
      match data !! pos with
      | None => Ok None
      | Some b =>
          let label_len := Z.to_nat b in
          if decide (Z.land b 0xC0 <> 0)%Z then Ok None
          else if decide (label_len = 0) then Ok (Some (pos + 1))
          else if decide (63 < label_len) then Ok None
          else
            let qname_len := qname_len + (1 + label_len) in
            if decide (255 < qname_len + 1) then Ok None
            else dns_qname_loop fuel data (pos + (1 + label_len)) qname_len
      end
  end.

(** The name grows by two bytes at least, so 128 turns are enough. *)
Definition dns_qname_end (data : bytes) (start : nat) : act (option nat) :=
  dns_qname_loop 129 data start 0.

Definition is_plausible_dns_query (data : bytes) : act bool :=
  if decide (length data < 12) then Ok false else
  flags ← read_be16 data 2; qdcount ← read_be16 data 4;
  if decide (Z.land flags 0xF800 <> 0 \/ qdcount <> 1)%Z then Ok false else
  e ← dns_qname_end data 12;
  match e with
  | None => Ok false
  | Some qname_end =>
      if decide (length data < qname_end + 4) then Ok false else
      qclass ← read_be16 data (qname_end + 2);
      Ok (bool_decide (qclass ∈ [1; 3; 4; 255]%Z))
  end.

(** [data.len() >= 7] and the long header of a known version. *)
Definition detect_quic (data : bytes) : act bool :=
  if decide (length data < 7) then Ok false else
  b0 ← index data 0;
  if decide (Z.land b0 0xC0 <> 0xC0)%Z then Ok false else
  version ← read_be32 data 1;
  b5 ← index data 5;
  let dcid_len := Z.to_nat b5 in
  if negb (is_quic_version version) || bool_decide (20 < dcid_len) then Ok false else
  let scid_len_offset := 6 + dcid_len in
  if decide (length data ≤ scid_len_offset) then Ok false else
  s ← index data scid_len_offset;
  let scid_len := Z.to_nat s in
  Ok (bool_decide (scid_len ≤ 20 /\ scid_len_offset + 1 + scid_len ≤ length data)).

Definition has_stun_cookie (data : bytes) : act bool :=
  if decide (length data < 8) then Ok false else
  c ← read_be32 data 4; Ok (bool_decide (c = STUN_MAGIC_COOKIE)).

Definition detect_stun (data : bytes) (cookie : bool) : act bool :=
  if negb (bool_decide (20 ≤ length data) && cookie) then Ok false else
  msg_type ← read_be16 data 0;
  msg_len ← read_be16 data 2;
  Ok (bool_decide (Z.land msg_type 0xC000 = 0 /\ msg_type = STUN_BINDING_REQUEST
                   /\ msg_len `mod` 4 = 0 /\ Z.of_nat (length data) = 20 + msg_len)%Z).

(** [text.get(..n)] compared without case. *)
Definition has_prefix_nocase (p : bytes) (text : bytes) : bool :=
  bool_decide (length p ≤ length text)
  && bool_decide (to_ascii_lower <$> take (length p) text = to_ascii_lower <$> p).

Definition SIP_PREFIXES : list bytes :=
  bstr <$> ["SIP/"; "INVITE "; "CANCEL "; "NOTIFY "; "OPTIONS "; "REGISTER "; "SUBSCRIBE "; "ACK ";
            "BYE "; "INFO "; "MESSAGE "]%string.

Definition detect_sip (data : bytes) : bool :=
  if decide (length data < 4) then false else
  let prefix := take (length data `min` 10) data in
  utf8_valid prefix && existsb (fun p => has_prefix_nocase p prefix) SIP_PREFIXES.

Definition detect_protocol (data : bytes) : act (option Protocol) :=
  if decide (data = []) then Ok None else
  quic ← detect_quic data;
  if (quic : bool) then Ok (Some Quic) else
  cookie ← has_stun_cookie data;
  stun ← detect_stun data cookie;
  if (stun : bool) then Ok (Some Stun) else
  dns ← (if (cookie : bool) then Ok false else is_plausible_dns_query data);
  if (dns : bool) then Ok (Some Dns) else
  Ok (if detect_sip data then Some Sip else None).

(** ** Replies *)

Definition be32 (v : Z) : bytes := [u8 (Z.shiftr v 24); u8 (Z.shiftr v 16); u8 (Z.shiftr v 8); u8 v].

Definition generate_quic_version_negotiation (incoming : bytes) : act bytes :=
  let first_byte := match incoming with b0 :: _ => Z.lor b0 0xC0 | [] => 0xC0%Z end in
  let head := first_byte :: be32 0 in
  ids ← (if decide (6 ≤ length incoming) then
           d ← index incoming 5;
           let dcid_len := Z.to_nat d in
           let dcid_end := 6 + dcid_len in
           if decide (dcid_len ≤ 20 /\ dcid_end < length incoming) then
             s ← index incoming dcid_end;
             let scid_len := Z.to_nat s in
             let scid_end := dcid_end + 1 + scid_len in
             if decide (scid_len ≤ 20 /\ scid_end ≤ length incoming) then
               dcid ← slice incoming 6 dcid_end;
               scid ← slice incoming (dcid_end + 1) scid_end;
               Ok (u8 (Z.of_nat scid_len) :: scid ++ u8 (Z.of_nat dcid_len) :: dcid)
             else Ok [0; 0]%Z
           else Ok [0; 0]%Z
         else Ok [0; 0]%Z);
  Ok (head ++ ids ++ be32 0x0a0a0a0a).

(** An address is its octets; a client is an address and a port. *)
Inductive IpAddr : Set := V4 (ip : Z) | V6 (octets : bytes).

Definition generate_stun_binding_success (incoming : bytes) (ip : IpAddr) (port : Z) : act bytes :=
  let attr_value_len := match ip with V4 _ => 8 | V6 _ => 20 end in
  let attr_total_len := 4 + attr_value_len in
  transaction_id ← (if decide (20 ≤ length incoming) then slice incoming 8 20
                    else Ok (replicate 12 0%Z));
  let xor_port := Z.lxor port (u16 (Z.shiftr STUN_MAGIC_COOKIE 16)) in
  let value :=
    match ip with
    | V4 ip => [0x01]%Z ++ be16 xor_port ++ be32 (Z.lxor ip STUN_MAGIC_COOKIE)
    | V6 octets =>
        let xor_key := be32 STUN_MAGIC_COOKIE ++ transaction_id in
        [0x02]%Z ++ be16 xor_port ++ zip_with Z.lxor octets xor_key
    end in
  Ok (be16 STUN_BINDING_SUCCESS_RESPONSE ++ be16 (u16 (Z.of_nat attr_total_len))
      ++ be32 STUN_MAGIC_COOKIE ++ transaction_id
      ++ be16 STUN_ATTR_XOR_MAPPED_ADDRESS ++ be16 (u16 (Z.of_nat attr_value_len)) ++ [0]%Z ++ value).

Record DnsEcho : Set := mkDnsEcho { e_txid : bytes; e_qname : bytes; e_qtype : bytes }.

Definition parse_dns_query_echo (data : bytes) : act (option DnsEcho) :=
  if decide (length data < 12) then Ok None else
  cookie ← has_stun_cookie data;
  if (cookie : bool) then Ok None else
  flags ← read_be16 data 2; qdcount ← read_be16 data 4;
  if decide (Z.land flags 0xF800 <> 0 \/ qdcount < 1)%Z then Ok None else
  e ← dns_qname_end data 12;
  match e with
  | None => Ok None
  | Some qname_end =>
      if decide (length data < qname_end + 4) then Ok None else
      c0 ← index data (qname_end + 2); c1 ← index data (qname_end + 3);
      if decide (c0 <> 0 \/ c1 <> 1)%Z then Ok None else
      txid ← slice data 0 2; qname ← slice data 12 qname_end; qtype ← slice data qname_end (qname_end + 2);
      Ok (Some (mkDnsEcho txid qname qtype))
  end.

(** [DnsEcho::matches]. *)
Definition echo_matches (e r : DnsEcho) : bool :=
  bool_decide (e_txid e = e_txid r) && bool_decide (e_qtype e = e_qtype r)
  && bool_decide (e_qname e = e_qname r).

Definition MAX_RESPONSE : nat := 512.

Definition generate_dns_servfail (incoming : bytes) : act bytes :=
  id ← (if decide (2 ≤ length incoming) then slice incoming 0 2 else Ok (be16 0));
  flags ← (if decide (4 ≤ length incoming) then
             query_flags ← read_be16 incoming 2;
             Ok (if decide (Z.land query_flags 0x0100 <> 0)%Z then Z.lor 0x8082 0x0100 else 0x8082%Z)
           else Ok 0x8082%Z);
  let head (qdcount : Z) := id ++ be16 flags ++ be16 qdcount ++ be16 0 ++ be16 0 ++ be16 0 in
  if decide (length incoming ≤ 12) then Ok (head 0%Z) else
  e ← dns_qname_end incoming 12;
  match e with
  | None => Ok (head 0%Z)
  | Some qname_end =>
      let question_end := qname_end + 4 in
      if decide (question_end ≤ length incoming
                 /\ length (head 0%Z) + (question_end - 12) ≤ MAX_RESPONSE) then
        question ← slice incoming 12 question_end;
        Ok (head 1%Z ++ question)
      else Ok (head 0%Z)
  end.

(** ** Reading never panics inside the packet *)

Lemma index_ok (l : bytes) i : i < length l -> bytes_ok l -> exists b, index (E := Empty_set) l i = Ok b /\ byte_ok b.
Proof.
  intros Hi Hl. destruct (lookup_lt_is_Some_2 l i Hi) as [b Hb]. exists b.
  split; [by apply index_Some|]. by eapply Forall_lookup_1.
Qed.

Lemma slice_bytes (l : bytes) a b :
  a ≤ b -> b ≤ length l -> bytes_ok l ->
  exists s, slice (E := Empty_set) l a b = Ok s /\ length s = b - a /\ bytes_ok s.
Proof.
  intros Ha Hb Hl. exists (take (b - a) (drop a l)). split; [by apply slice_ok|].
  split; [rewrite length_take, length_drop; lia|]. by apply Forall_take, Forall_drop.
Qed.

Lemma read_be16_ok data o :
  o + 2 ≤ length data -> bytes_ok data -> exists v, read_be16 data o = Ok v /\ (0 ≤ v < 2 ^ 16)%Z.
Proof.
  intros Ho Hd. unfold read_be16. destruct (index_ok data o) as (a & -> & Ha); [lia|done|].
  destruct (index_ok data (o + 1)) as (b & -> & Hb); [lia|done|]. cbn.
  eexists. split; [done|]. by apply of_be16_range.
Qed.

Lemma read_be32_ok data o : o + 4 ≤ length data -> bytes_ok data -> exists v, read_be32 data o = Ok v.
Proof.
  intros Ho Hd. unfold read_be32. destruct (index_ok data o) as (a & -> & _); [lia|done|].
  destruct (index_ok data (o + 1)) as (b & -> & _); [lia|done|].
  destruct (index_ok data (o + 2)) as (c & -> & _); [lia|done|].
  destruct (index_ok data (o + 3)) as (d & -> & _); [lia|done|]. by eexists.
Qed.

Lemma read_le32_ok data o : o + 4 ≤ length data -> bytes_ok data -> exists v, read_le32 data o = Ok v.
Proof.
  intros Ho Hd. unfold read_le32. destruct (index_ok data o) as (a & -> & _); [lia|done|].
  destruct (index_ok data (o + 1)) as (b & -> & _); [lia|done|].
  destruct (index_ok data (o + 2)) as (c & -> & _); [lia|done|].
  destruct (index_ok data (o + 3)) as (d & -> & _); [lia|done|]. by eexists.
Qed.

(** ** Names *)

Lemma dns_qname_loop_total fuel data pos n :
  257 ≤ n + 2 * fuel -> n ≤ 254 ->
  exists o, dns_qname_loop fuel data pos n = Ok o
    /\ forall e, o = Some e -> pos < e ≤ length data /\ e ≤ pos + 255 - n.
Proof.
  revert pos n. induction fuel as [|fuel IH]; intros pos n Hf Hn; [lia|]. cbn [dns_qname_loop].
  destruct (data !! pos) as [b|] eqn:Hb; [|by exists None].
  pose proof (lookup_lt_Some _ _ _ Hb) as Hp.
  case_decide; [by exists None|]. case_decide as H0.
  { exists (Some (pos + 1)). split; [done|]. intros e [= <-]. lia. }
  case_decide; [by exists None|]. case_decide; [by exists None|].
  destruct (IH (pos + (1 + Z.to_nat b)) (n + (1 + Z.to_nat b))) as (o & -> & Ho); [lia|lia|].
  exists o. split; [done|]. intros e He. specialize (Ho e He). lia.
Qed.

Lemma dns_qname_end_total data start :
  exists o, dns_qname_end data start = Ok o
    /\ forall e, o = Some e -> start < e ≤ length data /\ e ≤ start + 255.
Proof.
  destruct (dns_qname_loop_total 129 data start 0) as (o & E & Ho); [lia|lia|].
  exists o. split; [done|]. intros e He. specialize (Ho e He). lia.
Qed.

(** ** Detection and replies return *)

Section total.
Context (data : bytes) (Hd : bytes_ok data).

Lemma has_stun_cookie_total : exists b, has_stun_cookie data = Ok b /\ (b = true -> 8 ≤ length data).
Proof.
  unfold has_stun_cookie. case_decide; [by exists false|].
  destruct (read_be32_ok data 4) as [c ->]; [lia|done|]. eexists. split; [done|]. lia.
Qed.

Lemma is_plausible_dns_query_total : exists b, is_plausible_dns_query data = Ok b.
Proof.
  unfold is_plausible_dns_query. case_decide; [by eexists|].
  destruct (read_be16_ok data 2) as (f & -> & _); [lia|done|].
  destruct (read_be16_ok data 4) as (q & -> & _); [lia|done|]. cbn [mbind result_bind].
  case_decide; [by eexists|]. destruct (dns_qname_end_total data 12) as (o & -> & Ho).
  cbn [mbind result_bind]. destruct o as [e|]; [|by eexists]. case_decide; [by eexists|].
  destruct (read_be16_ok data (e + 2)) as (c & -> & _); [lia|done|]. by eexists.
Qed.

Lemma detect_quic_total : exists b, detect_quic data = Ok b.
Proof.
  unfold detect_quic. case_decide; [by eexists|].
  destruct (index_ok data 0) as (b0 & -> & _); [lia|done|]. cbn [mbind result_bind].
  case_decide; [by eexists|]. destruct (read_be32_ok data 1) as [v ->]; [lia|done|].
  destruct (index_ok data 5) as (b5 & -> & _); [lia|done|]. cbn [mbind result_bind].
  destruct (negb _ || _); [by eexists|]. case_decide; [by eexists|].
  destruct (index_ok data (6 + Z.to_nat b5)) as (s & -> & _); [lia|done|]. by eexists.
Qed.

Lemma detect_stun_total c : exists b, detect_stun data c = Ok b.
Proof.
  unfold detect_stun. destruct (bool_decide (20 ≤ length data)) eqn:E; cbn [andb negb]; [|by eexists].
  apply bool_decide_eq_true in E. destruct c; cbn [negb]; [|by eexists].
  destruct (read_be16_ok data 0) as (t & -> & _); [lia|done|].
  destruct (read_be16_ok data 2) as (n & -> & _); [lia|done|]. by eexists.
Qed.

Lemma detect_protocol_total : exists o, detect_protocol data = Ok o.
Proof.
  unfold detect_protocol. case_decide; [by eexists|].
  destruct detect_quic_total as [q ->]. cbn [mbind result_bind]. destruct q; [by eexists|].
  destruct has_stun_cookie_total as (c & -> & _). cbn [mbind result_bind].
  destruct (detect_stun_total c) as [s ->]. cbn [mbind result_bind]. destruct s; [by eexists|].
  destruct c; cbn [mbind result_bind]; [by eexists|].
  destruct is_plausible_dns_query_total as [d ->]. cbn [mbind result_bind]. destruct d; by eexists.
Qed.

Lemma parse_dns_query_echo_total :
  exists o, parse_dns_query_echo data = Ok o
    /\ forall e, o = Some e -> length (e_txid e) = 2 /\ length (e_qtype e) = 2
         /\ 0 < length (e_qname e) ≤ 255
         /\ bytes_ok (e_txid e) /\ bytes_ok (e_qtype e) /\ bytes_ok (e_qname e).
Proof.
  unfold parse_dns_query_echo. case_decide; [by exists None|].
  destruct has_stun_cookie_total as (c & -> & _). cbn [mbind result_bind]. destruct c; [by exists None|].
  destruct (read_be16_ok data 2) as (f & -> & _); [lia|done|].
  destruct (read_be16_ok data 4) as (q & -> & _); [lia|done|]. cbn [mbind result_bind].
  case_decide; [by exists None|]. destruct (dns_qname_end_total data 12) as (o & -> & Ho).
  cbn [mbind result_bind]. destruct o as [e|]; [|by exists None]. case_decide; [by exists None|].
  destruct (index_ok data (e + 2)) as (c0 & -> & _); [lia|done|].
  destruct (index_ok data (e + 3)) as (c1 & -> & _); [lia|done|]. cbn [mbind result_bind].
  case_decide; [by exists None|]. specialize (Ho e eq_refl).
  destruct (slice_bytes data 0 2) as (t & -> & Ht & Hbt); [lia|lia|done|].
  destruct (slice_bytes data 12 e) as (n & -> & Hn & Hbn); [lia|lia|done|].
  destruct (slice_bytes data e (e + 2)) as (y & -> & Hy & Hby); [lia|lia|done|].
  cbn [mbind result_bind]. eexists. split; [done|]. intros e' [= <-]. cbn.
  split_and!; [lia|lia|lia|lia|done..].
Qed.
End total.

(** ** What classification means *)

Definition all_types : list CbPacketType := [HandshakeInit; HandshakeResponse; CookieReply; TransportData].
Definition range_of (t : CbPacketType) (p : CbParams) : HRange :=
  match t with HandshakeInit => h1 p | HandshakeResponse => h2 p | CookieReply => h3 p | TransportData => h4 p end.

(** The little-endian word at an offset. *)
Definition header_at (data : bytes) (o : nat) : Z :=
  match drop o data with a :: b :: c :: d :: _ => of_le32 a b c d | _ => 0%Z end.

(** A packet of a type: its size, and its header after the padding. *)
Definition is_packet (p : CbParams) (data : bytes) (t : CbPacketType) : bool :=
  size_fits (length data) (padding_size t p) t p
  && contains (range_of t p) (header_at data (padding_size t p)).

Lemma size_fits_header n t p : size_fits n (padding_size t p) t p = true -> padding_size t p + 32 ≤ n.
Proof.
  unfold size_fits, min_total_size, expected_message_size, WG_HANDSHAKE_INIT_SIZE, WG_HANDSHAKE_RESPONSE_SIZE,
    WG_COOKIE_REPLY_SIZE, WG_TRANSPORT_DATA_MIN_SIZE.
  destruct t; intros H%bool_decide_eq_true; lia.
Qed.

Lemma read_le32_header data o : o + 4 ≤ length data -> read_le32 data o = Ok (header_at data o).
Proof.
  intros Ho. unfold read_le32, header_at.
  assert (forall k, k < 4 -> exists x, data !! (o + k) = Some x /\ drop o data !! k = Some x) as H.
  { intros k Hk. destruct (lookup_lt_is_Some_2 data (o + k)) as [x Hx]; [lia|].
    exists x. split; [done|]. by rewrite lookup_drop. }
  destruct (H 0) as (a & Ha & Ha'); [lia|]. destruct (H 1) as (b & Hb & Hb'); [lia|].
  destruct (H 2) as (c & Hc & Hc'); [lia|]. destruct (H 3) as (d & Hd & Hd'); [lia|].
  rewrite Nat.add_0_r in Ha. unfold index. rewrite Ha, Hb, Hc, Hd.
  destruct (drop o data) as [|? [|? [|? [|? l]]]]; by simplify_eq/=.
Qed.

Lemma classify_loop_spec data p ts :
  classify_loop ((fun t => (padding_size t p, range_of t p, t)) <$> ts) data p
  = Ok (List.find (is_packet p data) ts).
Proof.
  induction ts as [|t ts IH]; [done|]. cbn [fmap list_fmap classify_loop List.find].
  unfold is_packet at 1. case_decide.
  - destruct (size_fits _ _ _ _) eqn:E; cbn [andb]; [apply size_fits_header in E; lia|exact IH].
  - destruct (size_fits _ _ _ _) eqn:E; cbn [andb negb]; [|exact IH].
    rewrite read_le32_header, bind_Ok_eq by lia. by destruct (contains _ _).
Qed.

Lemma classify_find data p : classify_cb_packet data p = Ok (List.find (is_packet p data) all_types).
Proof. apply (classify_loop_spec data p all_types). Qed.

Lemma find_Some_is {A} (f : A -> bool) l x : List.find f l = Some x -> f x = true.
Proof. apply find_some. Qed.

Lemma ranges_unique p v t t' :
  pairwise_disjoint p -> contains (range_of t p) v = true -> contains (range_of t' p) v = true -> t = t'.
Proof.
  intros (H12 & H13 & H14 & H23 & H24 & H34) Ht Ht'.
  destruct t, t'; cbn [range_of] in *; try done; exfalso;
    match goal with
    | H : disjoint_ranges ?a ?b, Ha : contains ?a v = true, Hb : contains ?b v = true |- _ =>
        rewrite (contains_disjoint a b v H Ha) in Hb; discriminate
    end.
Qed.

(** Classification is exact.  On any datagram [classify_cb_packet] returns
    without panicking; it names a packet type only if the datagram has the size
    and the header of that type, and none only if it fits no type.  With
    disjoint header ranges, a packet whose type has the padding of every other
    type that it fits is never mistaken. *)
Theorem classify_cb_packet_exact (data : bytes) (p : CbParams) :
  exists o, classify_cb_packet data p = Ok o
    /\ (forall t, o = Some t -> is_packet p data t = true)
    /\ (o = None -> forall t, is_packet p data t = false)
    /\ (pairwise_disjoint p -> forall t, is_packet p data t = true ->
          (forall t', is_packet p data t' = true -> padding_size t' p = padding_size t p) -> o = Some t).
Proof.
  exists (List.find (is_packet p data) all_types). split; [apply classify_find|].
  assert (forall t, is_packet p data t = true -> List.find (is_packet p data) all_types <> None) as Hf.
  { intros t Ht E. assert (In t all_types) as Hin by (destruct t; cbn; tauto).
    by rewrite (find_none _ _ E t Hin) in Ht. }
  split_and!.
  - intros t Ht. by apply find_some in Ht as [_ Ht].
  - intros E t. destruct (is_packet p data t) eqn:Ht; [|done]. exfalso. exact (Hf t Ht E).
  - intros Hd t Ht Hpad. destruct (List.find (is_packet p data) all_types) as [t'|] eqn:E;
      [|exfalso; exact (Hf t Ht eq_refl)].
    apply find_some in E as [_ E]. pose proof (Hpad t' E) as Hp. f_equal.
    apply andb_prop in E as [_ E]. apply andb_prop in Ht as [_ Ht]. rewrite Hp in E.
    by eapply ranges_unique.
Qed.

(** ** Replies *)

Lemma be32_ok v : bytes_ok (be32 v) /\ length (be32 v) = 4.
Proof. split; [|done]. repeat constructor; apply u8_range. Qed.

Lemma quic_reply_total data :
  bytes_ok data -> exists r, generate_quic_version_negotiation data = Ok r /\ length r ≤ 51.
Proof.
  intros Hd. unfold generate_quic_version_negotiation. cbv zeta.
  set (ids := if decide (6 ≤ length data) then _ else _).
  assert (exists l, ids = Ok l /\ length l ≤ 42) as (l & -> & Hl).
  { unfold ids. clear ids. case_decide; [|by eexists; split; [done|cbn; lia]].
    destruct (index_ok data 5) as (d & -> & _); [lia|done|]. cbn [mbind result_bind].
    case_decide; [|by eexists; split; [done|cbn; lia]].
    destruct (index_ok data (6 + Z.to_nat d)) as (s & -> & _); [lia|done|]. cbn [mbind result_bind].
    case_decide; [|by eexists; split; [done|cbn; lia]].
    destruct (slice_bytes data 6 (6 + Z.to_nat d)) as (x & -> & Hx & _); [lia|lia|done|].
    destruct (slice_bytes data (6 + Z.to_nat d + 1) (6 + Z.to_nat d + 1 + Z.to_nat s))
      as (y & -> & Hy & _); [lia|lia|done|]. cbn [mbind result_bind].
    eexists. split; [done|]. cbn [length]. rewrite length_app. cbn [length]. lia. }
  cbn [mbind result_bind]. eexists. split; [done|]. rewrite !length_app. cbn [length be32]. lia.
Qed.

Lemma servfail_total data :
  bytes_ok data ->
  exists id flags qd question, generate_dns_servfail data
      = Ok (id ++ be16 flags ++ be16 qd ++ be16 0 ++ be16 0 ++ be16 0 ++ question)
    /\ length id = 2 /\ bytes_ok id /\ (flags = 0x8082 \/ flags = 0x8182)%Z /\ (qd = 0 \/ qd = 1)%Z
    /\ (2 ≤ length data -> id = take 2 data)
    /\ bytes_ok question /\ length question ≤ 500 /\ length question ≤ length data - 12.
Proof.
  intros Hd. unfold generate_dns_servfail.
  set (rid := if decide (2 ≤ length data) then _ else _).
  assert (exists id, rid = Ok id /\ length id = 2 /\ bytes_ok id
    /\ (2 ≤ length data -> id = take 2 data)) as (id & -> & Hid & Hib & Hit).
  { unfold rid. case_decide as H2.
    - rewrite slice_ok by lia. change (take (2 - 0) (drop 0 data)) with (take 2 data).
      exists (take 2 data). split_and!; [done|rewrite length_take; lia|by apply Forall_take|done].
    - eexists. split; [done|]. split_and!; [done|apply be16_bytes|done]. }
  set (rf := if decide (4 ≤ length data) then _ else _).
  assert (exists f, rf = Ok f /\ (f = 0x8082 \/ f = 0x8182)%Z) as (f & -> & Hf).
  { unfold rf. case_decide; [|eexists; split; [done|by left]].
    destruct (read_be16_ok data 2) as (q & -> & _); [lia|done|]. cbn [mbind result_bind].
    eexists. split; [done|]. case_decide; [by right|by left]. }
  cbn [mbind result_bind].
  assert (bytes_ok [] /\ length ([] : bytes) ≤ 500 /\ length ([] : bytes) ≤ length data - 12) as Hnil
    by (split_and!; [done|cbn; lia|cbn; lia]).
  case_decide as Hlen; [by exists id, f, 0%Z, []; split_and!; try done; [left|apply Hnil..]|].
  destruct (dns_qname_end_total data 12) as (o & -> & Ho). cbn [mbind result_bind].
  destruct o as [e|]; [|by exists id, f, 0%Z, []; split_and!; try done; [left|apply Hnil..]].
  case_decide as Hq; [|by exists id, f, 0%Z, []; split_and!; try done; [left|apply Hnil..]].
  specialize (Ho e eq_refl).
  destruct (slice_bytes data 12 (e + 4)) as (q & -> & Hql & Hqb); [lia|lia|done|].
  cbn [mbind result_bind]. exists id, f, 1%Z, q.
  rewrite !length_app, !length_be16, Hid in Hq. unfold MAX_RESPONSE in Hq.
  split_and!; [by rewrite <- !app_assoc|done|done|done|by right|done|done|lia|lia].
Qed.

Lemma has_prefix_lookup p text k :
  has_prefix_nocase p text = true -> k < length p ->
  to_ascii_lower <$> text !! k = to_ascii_lower <$> p !! k.
Proof.
  unfold has_prefix_nocase. intros [_ H%bool_decide_eq_true]%andb_prop Hk.
  rewrite <- !list_lookup_fmap, <- H, !list_lookup_fmap. by rewrite lookup_take_lt.
Qed.

(** No SIP prefix has such a byte at offset [k]. *)
Lemma not_sip data k c :
  data !! k = Some c ->
  forallb (fun p => bool_decide (k < length p /\ to_ascii_lower <$> p !! k <> Some (to_ascii_lower c)))
    SIP_PREFIXES = true -> k < 4 ->
  detect_sip data = false.
Proof.
  intros Hc Hall Hk. unfold detect_sip. case_decide; [done|]. cbv zeta.
  apply andb_false_iff. right. apply not_true_iff_false. intros Hx.
  apply existsb_exists in Hx as (p & Hp & Hpre). rewrite forallb_forall in Hall.
  apply Hall in Hp. apply bool_decide_eq_true in Hp as [Hl Hne]. apply Hne.
  rewrite <- (has_prefix_lookup p _ k Hpre Hl), lookup_take_lt by lia. by rewrite Hc.
Qed.

(** The version field of a DNS reply is no QUIC version. *)
Lemma reply_version f i1 :
  (f = 128 \/ f = 129)%Z -> byte_ok i1 -> is_quic_version (of_le32 0 130 f i1) = false.
Proof.
  intros Hf Hi. unfold byte_ok in Hi.
  assert (is_quic_version (of_le32 0 130 128 i1) = false /\ is_quic_version (of_le32 0 130 129 i1) = false)
    as [H1 H2]; [|destruct Hf as [-> | ->]; done].
  revert i1 Hi. apply (forall_below_dec _ 256). vm_compute. reflexivity.
Qed.

Lemma dns_reply_undetected i0 i1 f qd rest :
  (f = 128 \/ f = 129)%Z -> (qd = 0 \/ qd = 1)%Z ->
  bytes_ok (i0 :: i1 :: rest) ->
  let r := (i0 :: i1 :: f :: 130 :: 0 :: qd :: 0 :: 0 :: 0 :: 0 :: 0 :: 0 :: rest)%Z in
  detect_protocol r = Ok None /\ parse_dns_query_echo r = Ok None.
Proof.
  intros Hf Hq Hb r. assert (byte_ok i1) as Hi1 by (by do 2 apply Forall_cons in Hb as [? Hb]).
  assert (detect_quic r = Ok false) as Eq.
  { unfold detect_quic, r. case_decide; [done|]. cbn [index lookup list_lookup mbind result_bind].
    case_decide; [done|]. cbn [read_be32 index lookup list_lookup mbind result_bind Nat.add].
    by rewrite reply_version. }
  assert (has_stun_cookie r = Ok false) as Ec.
  { unfold has_stun_cookie, r. rewrite decide_False by (cbn [length]; lia).
    cbn [read_be32 index lookup list_lookup mbind result_bind Nat.add].
    by destruct Hq as [-> | ->]. }
  assert (read_be16 r 2 = Ok (of_be16 f 130) /\ read_be16 r 4 = Ok qd) as [E2 E4].
  { split; [done|]. unfold r. cbn [read_be16 index lookup list_lookup mbind result_bind Nat.add].
    by destruct Hq as [-> | ->]. }
  assert (Z.land (of_be16 f 130) 0xF800 <> 0)%Z as Hflags by (by destruct Hf as [-> | ->]).
  split.
  - unfold detect_protocol. rewrite decide_False by done. rewrite Eq, bind_Ok_eq, Ec, bind_Ok_eq.
    unfold detect_stun. rewrite andb_false_r. cbn [negb mbind result_bind].
    unfold is_plausible_dns_query. rewrite decide_False by (unfold r; cbn [length]; lia).
    rewrite E2, E4. cbn [mbind result_bind]. rewrite decide_True by (by left). cbn [mbind result_bind].
    rewrite (not_sip r 2 f); [done|done| |lia].
    destruct Hf as [-> | ->]; vm_compute; reflexivity.
  - unfold parse_dns_query_echo. rewrite decide_False by (unfold r; cbn [length]; lia).
    rewrite Ec, bind_Ok_eq, E2, E4. cbn [mbind result_bind]. by rewrite decide_True by (by left).
Qed.

(** DNS replies cannot loop or amplify.  Whatever the datagram, the
    SERVFAIL reply exists, has at most 512 bytes and no more than the larger of
    a bare header and the query, echoes the transaction ID, and is itself
    recognised neither as a probe of any protocol nor as a query to remember. *)
Theorem dns_reply_safe (data : bytes) :
  bytes_ok data ->
  exists r, generate_dns_servfail data = Ok r
    /\ length r ≤ 512 /\ length r ≤ max 12 (length data)
    /\ (2 ≤ length data -> take 2 r = take 2 data)
    /\ detect_protocol r = Ok None /\ parse_dns_query_echo r = Ok None.
Proof.
  intros Hd. destruct (servfail_total data Hd)
    as (id & f & qd & q & E & Hid & Hib & Hf & Hqd & Ht & Hqb & Hq5 & Hql).
  eexists. split; [exact E|]. rewrite !length_app, !length_be16, Hid.
  split; [lia|]. split; [lia|]. destruct id as [|i0 [|i1 [|]]]; try done.
  split; [intros H2; by rewrite <- (Ht H2)|].
  assert (be16 qd = [0; qd]%Z) as -> by (by destruct Hqd as [-> | ->]).
  change (be16 0) with [0; 0]%Z. cbn [app].
  assert (exists h, be16 f = [h; 130]%Z /\ (h = 128 \/ h = 129)%Z) as (h & -> & Hh).
  { destruct Hf as [-> | ->]; eexists; (split; [reflexivity|]); [by left|by right]. }
  apply (dns_reply_undetected i0 i1 h qd q); [done|done|]. by apply (Forall_app_2 _ [i0; i1]).
Qed.

Lemma dns_reply_safe_witness :
  bytes_ok [7; 9; 1; 0; 0; 1; 0; 0; 0; 0; 0; 0; 1; 97; 0; 0; 1; 0; 1]%Z
  /\ exists r, generate_dns_servfail [7; 9; 1; 0; 0; 1; 0; 0; 0; 0; 0; 0; 1; 97; 0; 0; 1; 0; 1]%Z = Ok r
    /\ length r ≤ 512 /\ length r ≤ max 12 19
    /\ (2 ≤ 19 -> take 2 r = [7; 9]%Z)
    /\ detect_protocol r = Ok None /\ parse_dns_query_echo r = Ok None.
Proof.
  assert (bytes_ok [7; 9; 1; 0; 0; 1; 0; 0; 0; 0; 0; 0; 1; 97; 0; 0; 1; 0; 1]%Z) as H by evaluate.
  split; [exact H|exact (dns_reply_safe _ H)].
Defined.

(** ** STUN *)

Definition ip_ok (ip : IpAddr) : Prop :=
  match ip with V4 ip => (0 ≤ ip < 2 ^ 32)%Z | V6 octets => length octets = 16 /\ bytes_ok octets end.

(** How a client reads the reflexive address of a Binding Success response. *)
Definition read_mapped_address (r : bytes) : option (IpAddr * Z) :=
  let cookie := take 4 (drop 4 r) in
  let txid := take 12 (drop 8 r) in
  match drop 20 r with
  | t1 :: t2 :: _ :: _ :: _ :: family :: p1 :: p2 :: addr =>
      if decide (of_be16 t1 t2 = STUN_ATTR_XOR_MAPPED_ADDRESS) then
        let port := Z.lxor (of_be16 p1 p2) (Z.shiftr STUN_MAGIC_COOKIE 16) in
        match family, addr with
        | 1%Z, [a; b; c; d] => Some (V4 (Z.lxor (of_le32 d c b a) STUN_MAGIC_COOKIE), port)
        | 2%Z, _ => Some (V6 (zip_with Z.lxor addr (cookie ++ txid)), port)
        | _, _ => None
        end
      else None
  | _ => None
  end.

Lemma of_be32_be32 v : (0 ≤ v < 2 ^ 32)%Z ->
  of_le32 (u8 v) (u8 (Z.shiftr v 8)) (u8 (Z.shiftr v 16)) (u8 (Z.shiftr v 24)) = v.
Proof.
  intros Hv. unfold of_le32, u8, wrap.
  rewrite !Z.shiftr_div_pow2, !Z.shiftl_mul_pow2 by lia.
  change (2 ^ 8)%Z with 256%Z. change (2 ^ 16)%Z with 65536%Z. change (2 ^ 24)%Z with 16777216%Z.
  change (2 ^ 32)%Z with 4294967296%Z in Hv. Z.to_euclidean_division_equations. lia.
Qed.

Lemma lxor_back a b : Z.lxor (Z.lxor a b) b = a.
Proof. by rewrite Z.lxor_assoc, Z.lxor_nilpotent, Z.lxor_0_r. Qed.

Lemma lxor_word n a b : (0 < n)%Z -> (0 ≤ a < 2 ^ n)%Z -> (0 ≤ b < 2 ^ n)%Z -> (0 ≤ Z.lxor a b < 2 ^ n)%Z.
Proof.
  intros Hn Ha Hb. assert (0 ≤ Z.lxor a b)%Z as H0 by (apply Z.lxor_nonneg; lia). split; [done|].
  destruct (decide (Z.lxor a b = 0)%Z) as [->|Hz]; [lia|]. apply Z.log2_lt_pow2; [lia|].
  assert (forall c, (0 ≤ c < 2 ^ n)%Z -> (Z.log2 c < n)%Z) as Hlog.
  { intros c Hc. destruct (decide (c = 0)%Z) as [->|]; [done|]. apply Z.log2_lt_pow2; lia. }
  eapply Z.le_lt_trans; [apply Z.log2_lxor; lia|]. apply Z.max_lub_lt; by apply Hlog.
Qed.

Lemma zip_lxor_back l k : length l ≤ length k -> zip_with Z.lxor (zip_with Z.lxor l k) k = l.
Proof.
  revert k. induction l as [|a l IH]; intros k Hk; [done|]. destruct k as [|b k]; [cbn in Hk; lia|].
  cbn [zip_with]. rewrite lxor_back, IH; [done|]. cbn in Hk. lia.
Qed.

Lemma stun_reply_undetected n rest :
  (n = 12 \/ n = 24)%Z ->
  detect_protocol (1 :: 1 :: 0 :: n :: 33 :: 18 :: 164 :: 66 :: rest)%Z = Ok None.
Proof.
  intros Hn. set (r := (1 :: 1 :: 0 :: n :: 33 :: 18 :: 164 :: 66 :: rest)%Z).
  assert (detect_quic r = Ok false) as Eq.
  { unfold detect_quic, r. by rewrite decide_False by (cbn [length]; lia). }
  assert (has_stun_cookie r = Ok true) as Ec.
  { unfold has_stun_cookie, r. by rewrite decide_False by (cbn [length]; lia). }
  assert (detect_stun r true = Ok false) as Es.
  { unfold detect_stun. destruct (negb _); [done|]. unfold r.
    cbn [read_be16 index lookup list_lookup mbind result_bind Nat.add].
    apply (f_equal Ok), bool_decide_eq_false. intros (_ & E & _). by vm_compute in E. }
  unfold detect_protocol. rewrite decide_False by done.
  rewrite Eq, bind_Ok_eq, Ec, bind_Ok_eq, Es, !bind_Ok_eq.
  rewrite (not_sip r 0 1); [done|done|vm_compute; reflexivity|lia].
Qed.

(** STUN replies tell the client its address.  For any datagram, any IPv4
    or IPv6 peer and port, the Binding Success response exists, echoes the
    transaction ID of a full request, has the length it advertises, decodes to
    exactly the peer's address and port, and is not taken for a probe. *)
Theorem stun_reply_correct (data : bytes) (ip : IpAddr) (port : Z) :
  bytes_ok data -> ip_ok ip -> (0 ≤ port < 2 ^ 16)%Z ->
  exists r, generate_stun_binding_success data ip port = Ok r
    /\ (20 ≤ length data -> take 12 (drop 8 r) = take 12 (drop 8 data))
    /\ read_be16 r 2 = Ok (Z.of_nat (length r) - 20)%Z
    /\ read_mapped_address r = Some (ip, port)
    /\ detect_protocol r = Ok None.
Proof.
  intros Hd Hip Hport. unfold generate_stun_binding_success.
  set (rt := if decide (20 ≤ length data) then _ else _).
  assert (exists t, rt = Ok t /\ length t = 12 /\ bytes_ok t
    /\ (20 ≤ length data -> t = take 12 (drop 8 data))) as (t & -> & Ht & Htb & Hte).
  { unfold rt. case_decide.
    - rewrite slice_ok by lia. eexists. split; [done|]. cbn [Nat.sub].
      split_and!; [rewrite length_take, length_drop; lia|by apply Forall_take, Forall_drop|done].
    - eexists. split; [done|]. split_and!; [done|by repeat constructor|intros; lia]. }
  cbn [mbind result_bind]. eexists. split; [done|].
  assert (Z.lxor (Z.lxor port (u16 (Z.shiftr STUN_MAGIC_COOKIE 16))) (Z.shiftr STUN_MAGIC_COOKIE 16) = port)
    as Hxp by apply lxor_back.
  assert (0 ≤ Z.lxor port (u16 (Z.shiftr STUN_MAGIC_COOKIE 16)) < 2 ^ 16)%Z as Hxr
    by (apply lxor_word; [lia|done|split; vm_compute; done]).
  set (xp := Z.lxor port (u16 (Z.shiftr STUN_MAGIC_COOKIE 16))) in *. clearbody xp.
  rewrite <- (of_be16_be16 xp) in Hxp by done.
  change (be16 STUN_BINDING_SUCCESS_RESPONSE) with [1; 1]%Z.
  change (be32 STUN_MAGIC_COOKIE) with [33; 18; 164; 66]%Z.
  change (be16 STUN_ATTR_XOR_MAPPED_ADDRESS) with [0; 32]%Z.
  assert (forall n value, (n = 8 \/ n = 20) ->
    let r := [1; 1]%Z ++ be16 (u16 (Z.of_nat (4 + n))) ++ [33; 18; 164; 66]%Z ++ t ++ [0; 32]%Z
       ++ be16 (u16 (Z.of_nat n)) ++ [0]%Z ++ value in
    take 12 (drop 8 r) = t /\ (length value = n - 1 -> read_be16 r 2 = Ok (Z.of_nat (length r) - 20)%Z)
    /\ drop 20 r = (0 :: 32 :: 0 :: Z.of_nat n :: 0 :: value)%Z /\ detect_protocol r = Ok None) as Hr.
  { intros n value Hn r.
    do 12 (destruct t as [|? t]; [cbn in Ht; lia|]). destruct t; [|cbn in Ht; lia].
    split; [done|]. split; [|split].
    - intros Hv. unfold r. destruct Hn as [-> | ->]; cbn -[Z.of_nat Z.sub]; rewrite Hv; done.
    - unfold r. by destruct Hn as [-> | ->].
    - unfold r. destruct Hn as [-> | ->]; apply stun_reply_undetected; [by left|by right]. }
  destruct ip as [ip|octets]; cbn [ip_ok] in Hip.
  - destruct (Hr 8 ([1]%Z ++ be16 xp ++ be32 (Z.lxor ip STUN_MAGIC_COOKIE))) as (H1 & H2 & H3 & H4);
      [by left|]. split; [intros H20; by rewrite <- (Hte H20)|]. split; [by apply H2|]. split; [|done].
    unfold read_mapped_address. rewrite H3. unfold be16, be32. cbn [app].
    rewrite decide_True by done. do 3 f_equal; [|done].
    rewrite of_be32_be32; [by rewrite lxor_back|].
    apply lxor_word; [lia|done|split; vm_compute; done].
  - destruct Hip as [Ho _].
    destruct (Hr 20 ([2]%Z ++ be16 xp ++ zip_with Z.lxor octets ([33; 18; 164; 66]%Z ++ t)))
      as (H1 & H2 & H3 & H4); [by right|].
    split; [intros H20; by rewrite <- (Hte H20)|].
    split; [apply H2; rewrite !length_app, length_zip_with, length_app, Ho, Ht; done|]. split; [|done].
    unfold read_mapped_address. rewrite H1, H3. unfold be16. cbn [app].
    rewrite decide_True by done. do 3 f_equal; [|done].
    match goal with |- context [take 4 (drop 4 ?l)] =>
      change (take 4 (drop 4 l)) with [33; 18; 164; 66]%Z end.
    cbn [app]. apply zip_lxor_back. rewrite Ho. cbn [length]. rewrite Ht. done.
Qed.

Lemma stun_reply_correct_witness :
  (bytes_ok [0; 1]%Z /\ ip_ok (V4 3232235777) /\ (0 ≤ 51820 < 2 ^ 16)%Z)
  /\ exists r, generate_stun_binding_success [0; 1]%Z (V4 3232235777) 51820 = Ok r
    /\ (20 ≤ 2 -> take 12 (drop 8 r) = take 12 (drop 8 [0; 1]%Z))
    /\ read_be16 r 2 = Ok (Z.of_nat (length r) - 20)%Z
    /\ read_mapped_address r = Some (V4 3232235777, 51820%Z)
    /\ detect_protocol r = Ok None.
Proof.
  assert (bytes_ok [0; 1]%Z) as H by evaluate.
  assert (ip_ok (V4 3232235777)) as Hi by (cbn; lia).
  assert (0 ≤ 51820 < 2 ^ 16)%Z as Hp by lia.
  split; [split; [exact H|split; [exact Hi|exact Hp]]|].
  exact (stun_reply_correct [0; 1]%Z (V4 3232235777) 51820 H Hi Hp).
Defined.

(** Probing never panics.  Detection, the query echo, and the QUIC reply
    (at most 51 bytes) return on every datagram; a remembered echo has a
    two-byte ID and type and a name of 1 to 255 bytes. *)
Theorem probes_total (data : bytes) :
  bytes_ok data ->
  (exists o, detect_protocol data = Ok o)
  /\ (exists r, generate_quic_version_negotiation data = Ok r /\ length r ≤ 51)
  /\ exists o, parse_dns_query_echo data = Ok o
       /\ forall e, o = Some e -> length (e_txid e) = 2 /\ length (e_qtype e) = 2
            /\ 0 < length (e_qname e) ≤ 255.
Proof.
  intros Hd. split; [by apply detect_protocol_total|]. split; [by apply quic_reply_total|].
  destruct (parse_dns_query_echo_total data Hd) as (o & E & Ho). exists o. split; [done|].
  intros e He. by destruct (Ho e He) as (? & ? & ? & _).
Qed.

Lemma probes_total_witness :
  bytes_ok [192; 0; 0; 0; 1; 0; 0]%Z
  /\ (exists o, detect_protocol [192; 0; 0; 0; 1; 0; 0]%Z = Ok o)
  /\ (exists r, generate_quic_version_negotiation [192; 0; 0; 0; 1; 0; 0]%Z = Ok r /\ length r ≤ 51)
  /\ exists o, parse_dns_query_echo [192; 0; 0; 0; 1; 0; 0]%Z = Ok o
       /\ forall e, o = Some e -> length (e_txid e) = 2 /\ length (e_qtype e) = 2
            /\ 0 < length (e_qname e) ≤ 255.
Proof.
  assert (bytes_ok [192; 0; 0; 0; 1; 0; 0]%Z) as H by evaluate.
  split; [exact H|exact (probes_total _ H)].
Defined.

Definition test_params : CbParams :=
  mkCbParams 4 40 70 4 4 4 4 (mkHRange 5 6) (mkHRange 7 7) (mkHRange 8 8) (mkHRange 9 9).
Definition test_packet : bytes := ([1; 2; 3; 4; 9; 0; 0; 0] ++ replicate 60 0)%Z.

Lemma classify_cb_packet_exact_witness :
  is_packet test_params test_packet TransportData = true
  /\ exists o, classify_cb_packet test_packet test_params = Ok o /\ o = Some TransportData.
Proof.
  assert (is_packet test_params test_packet TransportData = true) as Hp by (vm_compute; reflexivity).
  assert (pairwise_disjoint test_params) as Hd by (unfold pairwise_disjoint, disjoint_ranges; cbn; lia).
  split; [exact Hp|].
  destruct (classify_cb_packet_exact test_packet test_params) as (o & E & _ & _ & H).
  exists o. split; [exact E|]. apply (H Hd TransportData Hp). intros t' _. destruct t'; reflexivity.
Defined.
