(* ===== verification/ProxyTransform.v ===== *)
(** * Padding transforms ([src/src/proxy/transform.rs])

    The padding prefix of an AmneziaWG packet is overwritten in place so that
    the datagram looks like QUIC, DNS, STUN or SIP.  [&mut [u8]] is state
    passing; a slice or copy out of range is a panic.  The secret of the
    process, drawn once from the random generator, is a parameter. *)
From S2P Require Import Prelude Text ProxyParams ProxyPackets.

(** ** Slices *)

(** [l[a..b].copy_from_slice(src)]. *)
Definition copy_at (l : bytes) (a b : nat) (src : bytes) : act bytes :=
  if decide (a ≤ b /\ b ≤ length l /\ length src = b - a) then Ok (take a l ++ src ++ drop b l)
  else Stuck Panicked.

(** [for byte in l[a..].iter_mut() { *byte = v }]. *)
Definition fill_from (l : bytes) (a : nat) (v : Z) : act bytes :=
  if decide (a ≤ length l) then Ok (take a l ++ replicate (length l - a) v) else Stuck Panicked.

(** [data.split_at_mut(mid)], and the mutated halves put back. *)
Definition with_padding (data : bytes) (pad_size : nat) (f : bytes -> bytes -> act bytes) : act bytes :=
  if decide (pad_size ≤ length data) then
    padding ← f (take pad_size data) (drop pad_size data);
    Ok (padding ++ drop pad_size data)
  else Stuck Panicked.

Section secret.
Context (cover_secret : Z).

(** ** Pseudo-random bytes *)

Definition lcg_step (state : Z) : Z := u32 (u32 (state * 1103515245) + 12345).

Definition fnv1a_seed (payload : bytes) : Z :=
  foldl (fun state b => u32 (Z.lxor state b * 0x01000193)) (Z.lxor 0x811c9dc5 cover_secret)
    (take 64 payload).

(** ** QUIC *)

(** [for byte in padding[1..]]. *)
Fixpoint quic_bytes (n : nat) (state : Z) : bytes :=
  match n with
  | O => []
  | S n => u8 (Z.shiftr state 16) :: quic_bytes n (lcg_step state)
  end.

Definition apply_quic_padding_short (data : bytes) (pad_size : nat) : act bytes :=
  with_padding data pad_size (fun padding payload =>
    match padding with
    | [] => Ok padding
    | _ :: rest =>
        let state := fnv1a_seed payload in
        let spin := Z.land (u8 (Z.shiftr state 8)) 0x01 in
        let state := lcg_step state in
        let key_phase := Z.land (u8 (Z.shiftr state 8)) 0x01 in
        let state := lcg_step state in
        let pn_len_bits := Z.land (u8 state) 0x03 in
        let state := lcg_step state in
        Ok (Z.lor (Z.lor (Z.lor 0x40 (Z.shiftl spin 5)) (Z.shiftl key_phase 2)) pn_len_bits
            :: quic_bytes (length rest) state)
    end).

Definition apply_quic_padding_typed (data : bytes) (pad_size : nat) (pkt_type : CbPacketType)
    : act bytes :=
  if decide (pad_size = 0 \/ length data ≤ pad_size) then Ok data else
  match pkt_type with
  | HandshakeInit | TransportData | HandshakeResponse | CookieReply =>
      apply_quic_padding_short data pad_size
  end.

(** ** DNS *)

Definition DNS_HEADER_LEN : nat := 12.
Definition DNS_ROOT_QUESTION_LEN : nat := 5.
Definition DNS_OPT_FIXED_LEN : nat := 11.
Definition DNS_OPT_OPTION_HDR_LEN : nat := 4.
Definition DNS_OPT_MIN : nat :=
  DNS_HEADER_LEN + DNS_ROOT_QUESTION_LEN + DNS_OPT_FIXED_LEN + DNS_OPT_OPTION_HDR_LEN.
Definition DNS_OPT_UDP_SIZE : Z := 1232.
Definition DNS_OPT_COVER_CODE_BASE : Z := 65001.
Definition DNS_OPT_COVER_CODE_SPAN : Z := 65535 - DNS_OPT_COVER_CODE_BASE.

Definition dns_cover_code (tx0 tx1 : Z) : Z :=
  DNS_OPT_COVER_CODE_BASE + (of_be16 tx0 tx1) `mod` DNS_OPT_COVER_CODE_SPAN.

(** [total_len.saturating_sub(n).min(u16::MAX as usize) as u16]. *)
Definition clamp_len (total_len n : nat) : Z := Z.min (Z.of_nat (total_len - n)) 65535.

Definition write_dns_opt_response (padding : bytes) (total_len : nat) (tx0 tx1 : Z) (question : bytes)
    : act bytes :=
  let opt_off := DNS_HEADER_LEN + length question in
  let rdlength := clamp_len total_len (opt_off + DNS_OPT_FIXED_LEN) in
  let opt_len := clamp_len total_len (opt_off + DNS_OPT_FIXED_LEN + DNS_OPT_OPTION_HDR_LEN) in
  let header := [tx0; tx1; 0x81; 0x80; 0; 1; 0; 0; 0; 0; 0; 1]%Z in
  padding ← copy_at padding 0 12 header;
  padding ← copy_at padding DNS_HEADER_LEN opt_off question;
  let opt := [0; 0; 0x29]%Z ++ be16 DNS_OPT_UDP_SIZE ++ [0; 0; 0; 0]%Z ++ be16 rdlength
             ++ be16 (dns_cover_code tx0 tx1) ++ be16 opt_len in
  padding ← copy_at padding opt_off (opt_off + length opt) opt;
  fill_from padding (opt_off + length opt) 0.

(** The fixed answer for paddings that are too small for the OPT record. *)
Definition apply_dns_padding_null (data : bytes) (pad_size : nat) : act bytes :=
  let total_len := length data in
  with_padding data pad_size (fun padding payload =>
    match padding with
    | [] => Ok padding
    | _ =>
        let tx_hi := default 0%Z (payload !! 0) in
        let tx_lo := default 0%Z (payload !! 1) in
        let qdcount := if decide (17 ≤ pad_size) then 1%Z else 0%Z in
        let ancount := if decide (28 ≤ pad_size) then 1%Z else 0%Z in
        let rdlength := clamp_len total_len 28 in
        let fixed := [tx_hi; tx_lo; 0x81; 0x80; 0; qdcount; 0; ancount; 0; 0; 0; 0;
                      0; 0; 1; 0; 1; 0; 0; 0x0a; 0; 1; 0; 0; 0; 0x3c]%Z ++ be16 rdlength in
        let advertised_len :=
          if decide (28 ≤ pad_size) then 28 else if decide (17 ≤ pad_size) then 17 else 12 in
        let copy_len := length padding `min` advertised_len in
        padding ← copy_at padding 0 copy_len (take copy_len fixed);
        fill_from padding copy_len 0
    end).

Definition apply_dns_padding (data : bytes) (pad_size : nat) (echo : option DnsEcho) : act bytes :=
  if decide (pad_size = 0) then Ok data
  else if decide (pad_size < DNS_OPT_MIN) then apply_dns_padding_null data pad_size
  else
    let total_len := length data in
    with_padding data pad_size (fun padding payload =>
      let root :=
        write_dns_opt_response padding total_len (default 0%Z (payload !! 0)) (default 0%Z (payload !! 1))
          [0; 0; 1; 0; 1]%Z in
      match echo with
      | Some e =>
          if decide (length (e_qname e) + 4 ≤ 259
                     /\ DNS_HEADER_LEN + length (e_qname e) + 4 + DNS_OPT_FIXED_LEN
                        + DNS_OPT_OPTION_HDR_LEN ≤ pad_size) then
            tx0 ← index (e_txid e) 0; tx1 ← index (e_txid e) 1;
            write_dns_opt_response padding total_len tx0 tx1 (e_qname e ++ e_qtype e ++ [0; 1]%Z)
          else root
      | None => root
      end).

(** ** STUN *)

(** [next!()] draws the state and steps it; [n] draws mapped by [f]. *)
Fixpoint draws (n : nat) (f : Z -> Z) (state : Z) : bytes :=
  match n with
  | O => []
  | S n => f state :: draws n f (lcg_step state)
  end.
Definition steps (n : nat) (state : Z) : Z := Nat.iter n lcg_step state.

(** The attributes and the state is [padding, state, written]. *)
Definition xor_mapped_address (body : nat) (s : bytes * Z * nat) : act (bytes * Z * nat) :=
  let '(padding, state, written) := s in
  if decide (12 ≤ body - written) then
    let port := u16 (Z.shiftr state 16) in
    let state := lcg_step state in
    let addr := state in
    let state := lcg_step state in
    let xport := Z.lxor port (u16 (Z.shiftr STUN_MAGIC_COOKIE 16)) in
    let xaddr := Z.lxor addr STUN_MAGIC_COOKIE in
    let off := 20 + written in
    padding ← copy_at padding off (off + 2) (be16 0x0020);
    padding ← copy_at padding (off + 2) (off + 4) (be16 8);
    padding ← copy_at padding (off + 4) (off + 6) [0; 1]%Z;
    padding ← copy_at padding (off + 6) (off + 8) (be16 xport);
    padding ← copy_at padding (off + 8) (off + 12) (be32 xaddr);
    Ok (padding, state, written + 12)
  else Ok s.

Definition software (body : nat) (s : bytes * Z * nat) : act (bytes * Z * nat) :=
  let '(padding, state, written) := s in
  let remaining := body - written in
  if decide (4 ≤ remaining) then
    let vlen := (remaining - 4) `min` 124 in
    let off := 20 + written in
    padding ← copy_at padding off (off + 2) (be16 0x8022);
    padding ← copy_at padding (off + 2) (off + 4) (be16 (u16 (Z.of_nat vlen)));
    padding ← copy_at padding (off + 4) (off + 4 + vlen)
                (draws vlen (fun v => 0x20 + u8 (v `mod` 0x5F))%Z state);
    Ok (padding, steps vlen state, written + (4 + vlen))
  else Ok s.

Definition apply_stun_padding (data : bytes) (pad_size : nat) : act bytes :=
  with_padding data pad_size (fun padding payload =>
    match padding with
    | [] => Ok padding
    | _ =>
        let state := fnv1a_seed payload in
        let txn := be32 state ++ be32 (lcg_step state) ++ be32 (steps 2 state) in
        let state := steps 3 state in
        let body := if decide (20 < pad_size) then 4 * ((pad_size - 20) / 4) else 0 in
        s ← xor_mapped_address body (padding, state, 0);
        '(padding, _, written) ← software body s;
        let header := be16 0x0101 ++ be16 (u16 (Z.of_nat written)) ++ be32 STUN_MAGIC_COOKIE ++ txn in
        let copy_len := length padding `min` length header in
        padding ← copy_at padding 0 copy_len (take copy_len header);
        if decide (20 + written ≤ length padding) then fill_from padding (20 + written) 0
        else Ok padding
    end).

(** ** SIP *)

(** [while value >= 10]. *)
Fixpoint decimal_digits_loop (fuel : nat) (value : Z) (digits : nat) : nat :=
  match fuel with
  | O => digits
  | S fuel => if decide (10 ≤ value)%Z then decimal_digits_loop fuel (value / 10) (digits + 1) else digits
  end.
Definition decimal_digits (value : nat) : nat := decimal_digits_loop 20 (Z.of_nat value) 1.

(** [write!] into a buffer of [cap] bytes: pieces until one does not fit. *)
Fixpoint write_pieces (cap : nat) (buf : bytes) (pieces : list bytes) : bytes * bool :=
  match pieces with
  | [] => (buf, true)
  | p :: pieces =>
      if decide (cap < length buf + length p) then (buf, false) else write_pieces cap (buf ++ p) pieces
  end.

(** [{:08x}] of a [u32]. *)
Definition hex_digit (n : Z) : Z := if decide (n < 10)%Z then (48 + n)%Z else (87 + n)%Z.
Definition hex08 (v : Z) : bytes :=
  (fun i => hex_digit (Z.land (Z.shiftr v (4 * i)) 15)) <$> [7; 6; 5; 4; 3; 2; 1; 0]%Z.

Definition STATUS : list bytes := bstr <$> ["100 Trying"; "180 Ringing"; "200 OK"]%string.
Definition METHODS : list bytes := bstr <$> ["INVITE"; "OPTIONS"; "REGISTER"]%string.
Definition SIP_LABELS : list bytes :=
  bstr <$> ["voip"; "sip"; "pbx"; "call"; "trunk"; "edge"; "rtc"; "sbc"]%string.
Definition SIP_TLDS : list bytes := bstr <$> ["net"; "com"; "io"; "org"; "cloud"; "tel"]%string.
Definition CRLF : bytes := [13; 10]%Z.
Definition FRAG : bytes := bstr "SIP/2.0 100 Trying" ++ CRLF.

(** [put_line!]: the padding and the position after the line, and whether it
    was written: it must leave room for the closing blank line. *)
Definition put_line (pieces : list bytes) (s : bytes * nat) : act (bytes * nat * bool) :=
  let '(padding, pos) := s in
  let '(line, ok) := write_pieces 128 [] pieces in
  let n := length line in
  if decide (ok = true /\ pos + n + 2 ≤ length padding) then
    padding ← copy_at padding pos (pos + n) line; Ok (padding, pos + n, true)
  else Ok (padding, pos, false).

(** [a && b && ..] over lines: stop at the first that does not fit. *)
Fixpoint put_lines (ls : list (list bytes)) (s : bytes * nat) : act (bytes * nat * bool) :=
  match ls with
  | [] => Ok (s, true)
  | l :: ls => '(s, ok) ← put_line l s; if (ok : bool) then put_lines ls s else Ok (s, false)
  end.

(** The status lines, the chosen one first, until one fits. *)
Fixpoint put_status (ks : list nat) (status_idx : nat) (s : bytes * nat) : act (bytes * nat * bool) :=
  match ks with
  | [] => Ok (s, false)
  | k :: ks =>
      status ← index STATUS ((status_idx + k) mod length STATUS);
      '(s, ok) ← put_line [bstr "SIP/2.0 "; status; CRLF] s;
      if (ok : bool) then Ok (s, true) else put_status ks status_idx s
  end.

(** The inner loop over digit counts: the body length to declare. *)
Fixpoint content_digits (ds : list nat) (len total_len pos sws : nat) : act (option nat) :=
  match ds with
  | [] => Ok None
  | digits :: ds =>
      let header_end := pos + 15 + sws + digits + 4 in
      if decide (len < header_end) then Ok None else
      body ← usize_sub total_len header_end;
      if decide (decimal_digits body = digits) then Ok (Some body)
      else content_digits ds len total_len pos sws
  end.

Definition content_name (sws : nat) : bytes :=
  if decide (sws = 1) then bstr "Content-Length: " else bstr "Content-Length:  ".

Fixpoint put_content_length (widths : list nat) (total_len : nat) (s : bytes * nat) : act (bytes * nat) :=
  match widths with
  | [] => Ok s
  | sws :: widths =>
      o ← content_digits (seq 1 (decimal_digits total_len)) (length (fst s)) total_len (snd s) sws;
      match o with
      | Some body =>
          '(s, _) ← put_line [content_name sws; decimal (Z.of_nat body); CRLF] s; Ok s
      | None => put_content_length widths total_len s
      end
  end.

(** The seed-drawn values of one message. *)
Record SipDraw : Set := mkSipDraw {
  d_status : nat; d_host : bytes; d_method : bytes;
  d_branch : Z; d_from_tag : Z; d_to_tag : Z; d_call_id : Z; d_cseq : Z;
}.

Definition sip_draw (payload : bytes) : act SipDraw :=
  let st i := steps i (fnv1a_seed payload) in
  label ← index SIP_LABELS (Z.to_nat (st 1%nat `mod` 8));
  let sip_num := (st 2%nat `mod` 1000)%Z in
  tld ← index SIP_TLDS (Z.to_nat (st 3%nat `mod` 6));
  let host := fst (write_pieces 40 [] [label; decimal sip_num; bstr "."; tld]) in
  let host := if utf8_valid host then host else bstr "sip.local" in
  method ← index METHODS (Z.to_nat (st 4%nat `mod` 3));
  Ok (mkSipDraw (Z.to_nat (st 0%nat `mod` 3)) host method (st 5) (st 6) (st 7) (st 8)
        (1 + (st 9%nat `mod` 100000))).

Definition mandatory_lines (d : SipDraw) : list (list bytes) :=
  [ [bstr "Via: SIP/2.0/UDP "; d_host d; bstr ":5060;branch=z9hG4bK"; hex08 (d_branch d);
     bstr ";rport"; CRLF];
    [bstr "From: <sip:caller@"; d_host d; bstr ">;tag="; hex08 (d_from_tag d); CRLF];
    [bstr "To: <sip:callee@"; d_host d; bstr ">;tag="; hex08 (d_to_tag d); CRLF];
    [bstr "Call-ID: "; hex08 (d_call_id d); bstr "@"; d_host d; CRLF];
    [bstr "CSeq: "; decimal (d_cseq d); bstr " "; d_method d; CRLF] ].

(** Padding too small for any status line: a fragment of one. *)
Definition sip_fragment (padding : bytes) : act bytes :=
  let len := length padding in
  let take_ := length FRAG `min` len in
  padding ← copy_at padding 0 take_ (take take_ FRAG);
  padding ← fill_from padding take_ 32;
  if decide (2 ≤ len) then
    padding ← update padding (len - 2) 13%Z; update padding (len - 1) 10%Z
  else Ok padding.

Definition apply_sip_padding (data : bytes) (pad_size : nat) : act bytes :=
  let total_len := length data in
  with_padding data pad_size (fun padding payload =>
    match padding with
    | [] => Ok padding
    | _ =>
        d ← sip_draw payload;
        '(s, status_written) ← put_status (seq 0 (length STATUS)) (d_status d) (padding, 0);
        if negb status_written then sip_fragment (fst s) else
        '(s, all_mandatory) ← put_lines (mandatory_lines d) s;
        '(padding, pos) ← (if (all_mandatory : bool) then put_content_length [1; 2] total_len s else Ok s);
        '(padding, pos) ← (if decide (pos + 2 ≤ length padding) then
                             padding ← copy_at padding pos (pos + 2) CRLF; Ok (padding, pos + 2)
                           else Ok (padding, pos));
        fill_from padding pos 32
    end).

(** ** Dispatch *)

Definition apply_padding (data : bytes) (pad_size : nat) (proto : Protocol) : act bytes :=
  if decide (pad_size = 0 \/ length data ≤ pad_size) then Ok data else
  match proto with
  | Quic => apply_quic_padding_short data pad_size
  | Dns => apply_dns_padding data pad_size None
  | Stun => apply_stun_padding data pad_size
  | Sip => apply_sip_padding data pad_size
  end.

Definition apply_cb_transform (data : bytes) (params : CbParams) (proto : Protocol)
    (dns_echo : option DnsEcho) : act (bytes * bool) :=
  o ← classify_cb_packet data params;
  match o with
  | None => Ok (data, false)
  | Some pkt_type =>
      let pad_size := padding_size pkt_type params in
      if decide (pad_size = 0 \/ length data ≤ pad_size) then Ok (data, false) else
      data ← match proto with
             | Quic => apply_quic_padding_typed data pad_size pkt_type
             | Dns => apply_dns_padding data pad_size dns_echo
             | _ => apply_padding data pad_size proto
             end;
      Ok (data, true)
  end.
End secret.
