(* ===== verification/ProxyCover.v ===== *)
(** * What the padding transforms draw

    The prefix is rewritten, the payload is not: closed forms of what each
    transform writes, readers for DNS, STUN and SIP messages, and the proof that
    the readers accept the datagrams. *)
From S2P Require Import Prelude Text ProxyParams ProxyPackets ProxyTransform.

(** ** Writing at a cursor *)

Lemma copy_next (w rest src : bytes) a b :
  a = length w -> b = length w + length src -> length src ≤ length rest ->
  copy_at (w ++ rest) a b src = Ok ((w ++ src) ++ drop (length src) rest).
Proof.
  intros -> -> Hl. unfold copy_at. rewrite length_app, decide_True by lia.
  rewrite take_app_length, <- app_assoc. do 3 f_equal.
  rewrite drop_app_ge by lia. f_equal. lia.
Qed.

Lemma fill_rest (w rest : bytes) a v :
  a = length w -> fill_from (w ++ rest) a v = Ok (w ++ replicate (length rest) v).
Proof.
  intros ->. unfold fill_from. rewrite length_app, decide_True by lia.
  rewrite take_app_length. do 3 f_equal. lia.
Qed.

Lemma copy_first (rest src : bytes) b :
  b = length src -> length src ≤ length rest ->
  copy_at rest 0 b src = Ok (src ++ drop (length src) rest).
Proof. intros -> Hl. by apply (copy_next [] rest src 0). Qed.

(** The prefix is replaced by as many bytes. *)
Definition rewrites (pad_size : nat) (data data' : bytes) : Prop :=
  exists p, data' = p ++ drop pad_size data /\ length p = pad_size /\ bytes_ok p.

Lemma rewrites_refl n data : n ≤ length data -> bytes_ok data -> rewrites n data data.
Proof.
  intros Hn Hd. exists (take n data). rewrite take_drop, length_take. split; [done|].
  split; [lia|]. by apply Forall_take.
Qed.

Lemma rewrites_length n data data' : n ≤ length data -> rewrites n data data' -> length data' = length data.
Proof. intros Hn (p & -> & Hp & _). rewrite length_app, length_drop. lia. Qed.

Lemma rewrites_payload n data data' : rewrites n data data' -> drop n data' = drop n data.
Proof. intros (p & -> & Hp & _). by rewrite drop_app_length'. Qed.

Lemma rewrites_bytes n data data' : bytes_ok data -> rewrites n data data' -> bytes_ok data'.
Proof. intros Hd (p & -> & _ & Hp). apply Forall_app. split; [done|]. by apply Forall_drop. Qed.

(** A transform that writes a closed form. *)
Definition writes (n : nat) (data : bytes) (r : act bytes) (p : bytes) : Prop :=
  r = Ok (p ++ drop n data) /\ length p = n /\ bytes_ok p.

Lemma with_padding_writes data n f p :
  n ≤ length data -> f (take n data) (drop n data) = Ok p -> length p = n -> bytes_ok p ->
  writes n data (with_padding data n f) p.
Proof.
  intros Hn Hf Hl Hp. split; [|done]. unfold with_padding. rewrite decide_True by done.
  by rewrite Hf.
Qed.

Lemma writes_rewrites n data r p : writes n data r p -> exists data', r = Ok data' /\ rewrites n data data'.
Proof. intros (-> & Hl & Hp). eexists. split; [done|]. by exists p. Qed.

Lemma replicate_bytes n v : byte_ok v -> bytes_ok (replicate n v).
Proof. intros. by apply Forall_replicate. Qed.

Section secret.
Context (secret : Z).

(** ** QUIC *)

Lemma quic_bytes_ok n st : bytes_ok (quic_bytes n st) /\ length (quic_bytes n st) = n.
Proof.
  revert st. induction n as [|n IH]; intros st; [done|]. cbn [quic_bytes].
  destruct (IH (lcg_step st)) as [H1 H2]. split; [by constructor; [apply u8_range|]|]. cbn. by rewrite H2.
Qed.

(** The short-header byte: form 0, fixed bit 1, reserved bits 0. *)
Definition quic_short_header (b : Z) : Prop := (Z.land b 0xC0 = 0x40 /\ Z.land b 0x18 = 0)%Z.

Lemma quic_header_byte a b c :
  let h := Z.lor (Z.lor (Z.lor 0x40 (Z.shiftl (Z.land a 1) 5)) (Z.shiftl (Z.land b 1) 2)) (Z.land c 3) in
  byte_ok h /\ quic_short_header h.
Proof.
  assert (forall z n, (0 ≤ n)%Z -> (0 ≤ Z.land z (Z.ones n) < 2 ^ n)%Z) as Hr.
  { intros z n Hn. rewrite Z.land_ones by done. apply Z.mod_pos_bound. by apply Z.pow_pos_nonneg. }
  pose proof (Hr a 1%Z ltac:(lia)) as Ha. pose proof (Hr b 1%Z ltac:(lia)) as Hb.
  pose proof (Hr c 2%Z ltac:(lia)) as Hc. change (Z.ones 1) with 1%Z in *. change (Z.ones 2) with 3%Z in *.
  cbv zeta. revert Ha Hb Hc. generalize (Z.land a 1) (Z.land b 1) (Z.land c 3).
  clear a b c. intros a b c Ha Hb Hc. change (2 ^ 1)%Z with 2%Z in *. change (2 ^ 2)%Z with 4%Z in *.
  assert (a = 0 \/ a = 1)%Z as Ha' by lia. assert (b = 0 \/ b = 1)%Z as Hb' by lia.
  assert (c = 0 \/ c = 1 \/ c = 2 \/ c = 3)%Z as Hc' by lia. unfold byte_ok, quic_short_header.
  destruct Ha' as [-> | ->], Hb' as [-> | ->], Hc' as [-> | [-> | [-> | ->]]]; vm_compute; done.
Qed.

Lemma quic_writes data n :
  0 < n -> n ≤ length data ->
  exists h rest, quic_short_header h
    /\ writes n data (apply_quic_padding_short secret data n) (h :: rest).
Proof.
  intros Hn Hl. unfold apply_quic_padding_short.
  destruct (take n data) as [|x xs] eqn:E;
    apply (f_equal length) in E as El; rewrite length_take in El; cbn [length] in El; [lia|].
  set (st := fnv1a_seed secret (drop n data)).
  destruct (quic_bytes_ok (length xs) (lcg_step (lcg_step (lcg_step st)))) as [Hq1 Hq2].
  destruct (quic_header_byte (u8 (Z.shiftr st 8)) (u8 (Z.shiftr (lcg_step st) 8))
    (u8 (lcg_step (lcg_step st)))) as [Hb Hh].
  eexists _, (quic_bytes (length xs) (lcg_step (lcg_step (lcg_step st)))).
  split; [exact Hh|]. apply with_padding_writes;
    [done|by rewrite E| |constructor; [exact Hb|exact Hq1]].
  cbn [length]. rewrite Hq2. lia.
Qed.

(** ** DNS *)

(** How a resolver or a dissector reads the imitation: header, one question, and
    one OPT record whose single option reaches the end of the datagram. *)
Record OptMessage : Set := mkOptMessage {
  m_txid : bytes; m_qname : bytes; m_qtype : bytes; m_code : Z; m_data : bytes;
}.

Definition parse_opt_record (txid qname qtype r : bytes) : option OptMessage :=
  match r with
  | 0%Z :: 0%Z :: 41%Z :: _ :: _ :: 0%Z :: 0%Z :: 0%Z :: 0%Z :: r1 :: r2 :: c1 :: c2 :: l1 :: l2 :: opt =>
      if decide (of_be16 r1 r2 = Z.of_nat (length opt + 4) /\ of_be16 l1 l2 = Z.of_nat (length opt))
      then Some (mkOptMessage txid qname qtype (of_be16 c1 c2) opt) else None
  | _ => None
  end.

Definition parse_opt_message (m : bytes) : option OptMessage :=
  match m with
  | t0 :: t1 :: 0x81%Z :: 0x80%Z :: 0%Z :: 1%Z :: 0%Z :: 0%Z :: 0%Z :: 0%Z :: 0%Z :: 1%Z :: _ =>
      match dns_qname_end m 12 with
      | Ok (Some e) =>
          match take 2 (drop (e + 2) m) with
          | [0%Z; 1%Z] =>
              parse_opt_record [t0; t1] (take (e - 12) (drop 12 m)) (take 2 (drop e m)) (drop (e + 4) m)
          | _ => None
          end
      | _ => None
      end
  | _ => None
  end.

(** The walk over a name only looks at the name. *)
Lemma dns_qname_loop_prefix fuel data data' pos n e :
  dns_qname_loop fuel data pos n = Ok (Some e) ->
  (forall i, pos ≤ i < e -> data' !! i = data !! i) ->
  dns_qname_loop fuel data' pos n = Ok (Some e).
Proof.
  revert pos n. induction fuel as [|fuel IH]; intros pos n H Hd; [done|]. cbn [dns_qname_loop] in *.
  assert (pos < e) as Hlt.
  { clear - H. revert pos n H. induction fuel as [|fuel IH]; intros pos n H.
    - destruct (data !! pos); [|done]. repeat (case_decide; [done || (injection H; lia)|]). done.
    - destruct (data !! pos) as [b|]; [|done]. case_decide; [done|].
      case_decide; [injection H; lia|]. case_decide; [done|]. case_decide; [done|].
      cbn [dns_qname_loop] in H. apply IH in H. lia. }
  rewrite Hd by lia. destruct (data !! pos) as [b|]; [|done].
  case_decide; [done|]. case_decide; [done|]. case_decide; [done|]. case_decide; [done|].
  apply IH; [done|]. intros i Hi. apply Hd. lia.
Qed.

(** A name that the walk accepts wherever it is put. *)
Definition wire_name (qname : bytes) : Prop :=
  length qname + 4 ≤ 259 /\ bytes_ok qname
  /\ forall pre rest, length pre = 12 ->
       dns_qname_end (pre ++ qname ++ rest) 12 = Ok (Some (12 + length qname)).

Lemma wire_root : wire_name [0%Z].
Proof.
  split; [cbn; lia|]. split; [by repeat constructor|]. intros pre rest Hp.
  unfold dns_qname_end. cbn [dns_qname_loop]. by rewrite lookup_app_r, Hp by lia.
Qed.

Lemma echo_wire_name q e :
  bytes_ok q -> parse_dns_query_echo q = Ok (Some e) -> wire_name (e_qname e).
Proof.
  intros Hq. unfold parse_dns_query_echo. case_decide; [done|].
  destruct (has_stun_cookie_total q Hq) as (c & -> & _). cbn [mbind result_bind]. destruct c; [done|].
  destruct (read_be16_ok q 2) as (f & -> & _); [lia|done|].
  destruct (read_be16_ok q 4) as (n & -> & _); [lia|done|]. cbn [mbind result_bind].
  case_decide; [done|]. destruct (dns_qname_end_total q 12) as (o & Eo & Ho). rewrite Eo.
  cbn [mbind result_bind]. destruct o as [k|]; [|done]. specialize (Ho k eq_refl).
  case_decide; [done|].
  destruct (index_ok q (k + 2)) as (c0 & -> & _); [lia|done|].
  destruct (index_ok q (k + 3)) as (c1 & -> & _); [lia|done|]. cbn [mbind result_bind].
  case_decide; [done|]. rewrite !slice_ok by lia. cbn [mbind result_bind]. intros [= <-]. cbn [e_qname].
  assert (length (take (k - 12) (drop 12 q)) = k - 12) as Hl by (rewrite length_take, length_drop; lia).
  split; [lia|]. split; [by apply Forall_take, Forall_drop|]. intros pre rest Hp. rewrite Hl.
  replace (12 + (k - 12)) with k by lia. unfold dns_qname_end in *.
  eapply dns_qname_loop_prefix; [exact Eo|]. intros i Hi.
  rewrite lookup_app_r, lookup_app_l by lia. rewrite Hp, lookup_take_lt by lia.
  rewrite lookup_drop. f_equal. lia.
Qed.

Definition opt_header (tx0 tx1 : Z) : bytes := [tx0; tx1; 0x81; 0x80; 0; 1; 0; 0; 0; 0; 0; 1]%Z.
Definition opt_record (rdlength code opt_len : Z) : bytes :=
  [0; 0; 0x29]%Z ++ be16 DNS_OPT_UDP_SIZE ++ [0; 0; 0; 0]%Z ++ be16 rdlength ++ be16 code ++ be16 opt_len.

Lemma length_opt_record r c o : length (opt_record r c o) = 15.
Proof. done. Qed.

Lemma write_opt padding total tx0 tx1 q :
  27 + length q ≤ length padding ->
  write_dns_opt_response padding total tx0 tx1 q
  = Ok (opt_header tx0 tx1 ++ q
        ++ opt_record (clamp_len total (23 + length q)) (dns_cover_code tx0 tx1)
             (clamp_len total (27 + length q))
        ++ replicate (length padding - (27 + length q)) 0%Z).
Proof.
  intros Hl. unfold write_dns_opt_response, DNS_HEADER_LEN, DNS_OPT_FIXED_LEN, DNS_OPT_OPTION_HDR_LEN.
  fold (opt_header tx0 tx1). cbv zeta.
  assert (clamp_len total (12 + length q + 11 + 4) = clamp_len total (27 + length q)) as -> by (f_equal; lia).
  assert (clamp_len total (12 + length q + 11) = clamp_len total (23 + length q)) as -> by (f_equal; lia).
  match goal with |- context [length ?o] =>
    change o with (opt_record (clamp_len total (23 + length q)) (dns_cover_code tx0 tx1)
      (clamp_len total (27 + length q))) end.
  rewrite length_opt_record.
  rewrite copy_first, bind_Ok_eq by (done || (cbn [length opt_header]; lia)).
  rewrite copy_next, bind_Ok_eq by (done || (rewrite length_drop; cbn [length opt_header]; lia)).
  rewrite copy_next, bind_Ok_eq
    by (rewrite ?length_app, ?length_drop, ?length_opt_record; cbn [length opt_header]; lia).
  rewrite fill_rest by (rewrite !length_app, length_opt_record; cbn [length opt_header]; lia).
  f_equal. rewrite <- !app_assoc. do 3 f_equal. f_equal.
  rewrite !length_drop, length_opt_record. cbn [length opt_header]. lia.
Qed.

(** What question and transaction ID the reply carries. *)
Definition chosen_question (payload : bytes) (n : nat) (echo : option DnsEcho) : bytes * bytes * bytes :=
  let root := ([default 0%Z (payload !! 0); default 0%Z (payload !! 1)], [0%Z], [0; 1]%Z) in
  match echo with
  | Some e => if decide (31 + length (e_qname e) ≤ n) then (e_txid e, e_qname e, e_qtype e) else root
  | None => root
  end.

Definition echo_ok (e : DnsEcho) : Prop :=
  wire_name (e_qname e) /\ length (e_txid e) = 2 /\ length (e_qtype e) = 2
  /\ bytes_ok (e_txid e) /\ bytes_ok (e_qtype e).

Lemma chosen_ok payload n echo :
  bytes_ok payload -> (forall e, echo = Some e -> echo_ok e) -> 32 ≤ n ->
  exists tx0 tx1 qname ty0 ty1, chosen_question payload n echo = ([tx0; tx1], qname, [ty0; ty1])
    /\ wire_name qname /\ 31 + length qname ≤ n /\ bytes_ok [tx0; tx1; ty0; ty1].
Proof.
  intros Hp He Hn.
  assert (forall i, byte_ok (default 0%Z (payload !! i))) as Hd.
  { intros i. destruct (payload !! i) as [b|] eqn:E; [|done]. by eapply Forall_lookup_1. }
  assert (exists tx0 tx1 qname ty0 ty1,
    ([default 0%Z (payload !! 0); default 0%Z (payload !! 1)], [0%Z], [0; 1]%Z)
      = ([tx0; tx1], qname, [ty0; ty1])
    /\ wire_name qname /\ 31 + length qname ≤ n /\ bytes_ok [tx0; tx1; ty0; ty1]) as Hroot.
  { eexists _, _, _, _, _. split; [reflexivity|]. split; [apply wire_root|].
    split; [cbn; lia|]. repeat (apply Forall_cons; split; [apply Hd || done|]). constructor. }
  unfold chosen_question. destruct echo as [e|]; [|done]. case_decide as Hf; [|done].
  destruct (He e eq_refl) as (Hw & Ht & Hy & Hbt & Hby).
  destruct (e_txid e) as [|tx0 [|tx1 [|]]]; try done.
  destruct (e_qtype e) as [|ty0 [|ty1 [|]]]; try done.
  exists tx0, tx1, (e_qname e), ty0, ty1. split; [done|]. split; [done|]. split; [done|].
  by apply (Forall_app_2 _ [tx0; tx1] [ty0; ty1]).
Qed.

Lemma be16_pair v : exists a b, be16 v = [a; b] /\ byte_ok a /\ byte_ok b.
Proof. eexists _, _. split; [reflexivity|]. split; apply u8_range. Qed.

Lemma dns_writes data n echo :
  bytes_ok data -> 32 ≤ n -> n ≤ length data -> (forall e, echo = Some e -> echo_ok e) ->
  exists tx0 tx1 qname ty0 ty1,
    chosen_question (drop n data) n echo = ([tx0; tx1], qname, [ty0; ty1])
    /\ wire_name qname /\ 31 + length qname ≤ n
    /\ writes n data (apply_dns_padding data n echo)
         (opt_header tx0 tx1 ++ (qname ++ [ty0; ty1; 0; 1]%Z)
          ++ opt_record (clamp_len (length data) (27 + length qname)) (dns_cover_code tx0 tx1)
               (clamp_len (length data) (31 + length qname))
          ++ replicate (n - (31 + length qname)) 0%Z).
Proof.
  intros Hd Hn Hl He.
  destruct (chosen_ok (drop n data) n echo) as (tx0 & tx1 & qname & ty0 & ty1 & E & Hw & Hq & Hb);
    [by apply Forall_drop|done|done|].
  exists tx0, tx1, qname, ty0, ty1. split; [done|]. split; [done|]. split; [done|].
  assert (length (take n data) = n) as Ht by (rewrite length_take; lia).
  unfold apply_dns_padding. rewrite decide_False by lia.
  rewrite decide_False by (cbv [DNS_OPT_MIN DNS_HEADER_LEN DNS_ROOT_QUESTION_LEN DNS_OPT_FIXED_LEN
    DNS_OPT_OPTION_HDR_LEN]; lia).
  apply with_padding_writes; [done| | |].
  - assert (write_dns_opt_response (take n data) (length data) tx0 tx1 (qname ++ [ty0; ty1; 0; 1]%Z)
      = Ok (opt_header tx0 tx1 ++ (qname ++ [ty0; ty1; 0; 1]%Z)
          ++ opt_record (clamp_len (length data) (27 + length qname)) (dns_cover_code tx0 tx1)
               (clamp_len (length data) (31 + length qname))
          ++ replicate (n - (31 + length qname)) 0%Z)) as Hwrite.
    { rewrite write_opt by (rewrite Ht, length_app; cbn [length]; lia).
      rewrite Ht, length_app. cbn [length].
      replace (23 + (length qname + 4)) with (27 + length qname) by lia.
      by replace (27 + (length qname + 4)) with (31 + length qname) by lia. }
    rewrite <- Hwrite. clear Hwrite. unfold chosen_question in E.
    destruct echo as [e|]; [|by injection E as <- <- <- <- <-].
    destruct (He e eq_refl) as (Hwe & _). destruct Hwe as [Hle _].
    case_decide as Hf.
    + rewrite decide_True by (unfold DNS_HEADER_LEN, DNS_OPT_FIXED_LEN, DNS_OPT_OPTION_HDR_LEN; lia).
      injection E as Etx -> Ety. rewrite Etx, Ety. done.
    + rewrite decide_False by (unfold DNS_HEADER_LEN, DNS_OPT_FIXED_LEN, DNS_OPT_OPTION_HDR_LEN; lia).
      by injection E as <- <- <- <- <-.
  - rewrite !length_app, length_replicate, length_opt_record. cbn [length opt_header]. lia.
  - do 4 apply Forall_cons in Hb as [? Hb].
    destruct Hw as (_ & Hqb & _). unfold opt_record.
    repeat (apply Forall_app; split); try apply be16_bytes; try done;
      try (by apply replicate_bytes);
      repeat (apply Forall_cons; split; [done|]); constructor.
Qed.

Lemma dns_null_writes data n :
  bytes_ok data -> 0 < n -> n < 32 -> n ≤ length data ->
  exists p, writes n data (apply_dns_padding_null data n) p.
Proof.
  intros Hd Hn Hlt Hl. unfold apply_dns_padding_null.
  assert (length (take n data) = n) as Ht by (rewrite length_take; lia).
  destruct (take n data) as [|x xs] eqn:E; [cbn in Ht; lia|].
  set (k := length (x :: xs) `min` (if decide (28 ≤ n) then 28 else if decide (17 ≤ n) then 17 else 12)).
  assert (k ≤ n /\ k ≤ 28) as [Hk Hk28] by (unfold k; repeat case_decide; lia).
  set (fixed := ([default 0 (drop n data !! 0%nat); default 0 (drop n data !! 1%nat); 0x81; 0x80; 0;
      if decide (17 ≤ n)%nat then 1 else 0; 0; if decide (28 ≤ n)%nat then 1 else 0; 0; 0; 0; 0;
      0; 0; 1; 0; 1; 0; 0; 0x0a; 0; 1; 0; 0; 0; 0x3c] ++ be16 (clamp_len (length data) 28))%Z).
  assert (length fixed = 28) as Hf by done.
  assert (length (take k fixed) = k) as Hlk by (rewrite length_take; lia).
  exists (take k fixed ++ replicate (n - k) 0%Z). apply with_padding_writes; [done| | |].
  - rewrite E. change ((p ← copy_at (x :: xs) 0 k (take k fixed); fill_from p k 0)
      = Ok (take k fixed ++ replicate (n - k) 0%Z)).
    clearbody k fixed. rewrite copy_first, bind_Ok_eq; [|done|by rewrite Hlk, Ht].
    rewrite fill_rest by done. do 3 f_equal. rewrite length_drop, Hlk, Ht. done.
  - rewrite length_app, length_replicate. lia.
  - apply Forall_app. split; [|by apply replicate_bytes]. apply Forall_take.
    assert (forall i, byte_ok (default 0%Z (drop n data !! i))) as Hdef.
    { intros i. destruct (drop n data !! i) as [b|] eqn:Eb; [|done].
      eapply Forall_lookup_1; [|exact Eb]. by apply Forall_drop. }
    unfold fixed. apply Forall_app. split; [|apply be16_bytes].
    repeat (apply Forall_cons; split; [first [apply Hdef|case_decide; done|done]|]). constructor.
Qed.

(** ** The DNS imitation parses *)

Lemma drop_to (pre rest : bytes) k : k = length pre -> drop k (pre ++ rest) = rest.
Proof. intros ->. by rewrite drop_app_length. Qed.

Lemma clamp_exact total k : (Z.of_nat total ≤ 65535)%Z -> k ≤ total -> clamp_len total k = Z.of_nat (total - k).
Proof. unfold clamp_len. lia. Qed.

Lemma clamp_range total k : (0 ≤ clamp_len total k < 2 ^ 16)%Z.
Proof. unfold clamp_len. change (2 ^ 16)%Z with 65536%Z. lia. Qed.

Lemma of_be16_be16' v : (0 ≤ v < 2 ^ 16)%Z -> forall a b, be16 v = [a; b] -> of_be16 a b = v.
Proof. intros Hv a b [= <- <-]. by apply of_be16_be16. Qed.

Lemma parse_opt_record_spec txid qname qtype rdlength code opt_len opt :
  (0 ≤ code < 2 ^ 16)%Z -> (0 ≤ rdlength < 2 ^ 16)%Z -> (0 ≤ opt_len < 2 ^ 16)%Z ->
  rdlength = Z.of_nat (length opt + 4) -> opt_len = Z.of_nat (length opt) ->
  parse_opt_record txid qname qtype (opt_record rdlength code opt_len ++ opt)
  = Some (mkOptMessage txid qname qtype code opt).
Proof.
  intros Hc Hr Ho Er Eo. unfold opt_record.
  destruct (be16 rdlength) as [|r1 [|r2 [|]]] eqn:E1; try done.
  destruct (be16 code) as [|c1 [|c2 [|]]] eqn:E2; try done.
  destruct (be16 opt_len) as [|l1 [|l2 [|]]] eqn:E3; try done.
  change (be16 DNS_OPT_UDP_SIZE) with [4; 208]%Z. cbn [app parse_opt_record].
  rewrite (of_be16_be16' rdlength Hr r1 r2 E1), (of_be16_be16' code Hc c1 c2 E2),
    (of_be16_be16' opt_len Ho l1 l2 E3). by rewrite decide_True.
Qed.

Lemma cover_code_range tx0 tx1 :
  byte_ok tx0 -> byte_ok tx1 -> (65001 ≤ dns_cover_code tx0 tx1 ≤ 65534)%Z.
Proof.
  intros H0 H1. unfold dns_cover_code, DNS_OPT_COVER_CODE_SPAN, DNS_OPT_COVER_CODE_BASE.
  pose proof (Z.mod_pos_bound (of_be16 tx0 tx1) (65535 - 65001) ltac:(lia)). lia.
Qed.

Lemma parse_opt_message_spec tx0 tx1 qname ty0 ty1 rdlength code opt_len opt :
  wire_name qname ->
  (0 ≤ code < 2 ^ 16)%Z -> (0 ≤ rdlength < 2 ^ 16)%Z -> (0 ≤ opt_len < 2 ^ 16)%Z ->
  rdlength = Z.of_nat (length opt + 4) -> opt_len = Z.of_nat (length opt) ->
  parse_opt_message (opt_header tx0 tx1 ++ (qname ++ [ty0; ty1; 0; 1]%Z)
     ++ opt_record rdlength code opt_len ++ opt)
  = Some (mkOptMessage [tx0; tx1] qname [ty0; ty1] code opt).
Proof.
  intros (Hq & _ & Hw) Hc Hr Ho Er Eo.
  set (m := opt_header tx0 tx1 ++ _).
  assert (m = opt_header tx0 tx1 ++ qname ++ [ty0; ty1; 0; 1]%Z ++ opt_record rdlength code opt_len ++ opt)
    as Em by (unfold m; by rewrite <- app_assoc).
  assert (dns_qname_end m 12 = Ok (Some (12 + length qname))) as Ee by (rewrite Em; by apply Hw).
  assert (drop 12 m = qname ++ [ty0; ty1; 0; 1]%Z ++ opt_record rdlength code opt_len ++ opt) as E12
    by (rewrite Em; by apply drop_to).
  assert (forall k, drop (12 + length qname + k) m
    = drop k ([ty0; ty1; 0; 1]%Z ++ opt_record rdlength code opt_len ++ opt)) as Ed.
  { intros k. rewrite <- !drop_drop, E12. by rewrite drop_app_length. }
  unfold parse_opt_message. rewrite Em at 1. cbn [opt_header app]. rewrite Ee, (Ed 2).
  change (take 2 (drop 2 ([ty0; ty1; 0; 1]%Z ++ opt_record rdlength code opt_len ++ opt))) with [0; 1]%Z.
  cbv iota beta. rewrite (Ed 4). rewrite <- (Nat.add_0_r (12 + length qname)) at 2. rewrite (Ed 0), E12.
  replace (12 + length qname - 12) with (length qname) by lia. rewrite take_app_length.
  change (drop 4 ([ty0; ty1; 0; 1]%Z ++ opt_record rdlength code opt_len ++ opt))
    with (opt_record rdlength code opt_len ++ opt).
  change (take 2 (drop 0 ([ty0; ty1; 0; 1]%Z ++ opt_record rdlength code opt_len ++ opt))) with [ty0; ty1].
  by apply parse_opt_record_spec.
Qed.

(** Every byte of the datagram is part of the message. *)
Lemma dns_parses data n echo :
  bytes_ok data -> 32 ≤ n -> n ≤ length data -> (Z.of_nat (length data) ≤ 65535)%Z ->
  (forall e, echo = Some e -> echo_ok e) ->
  exists data' code k, apply_dns_padding data n echo = Ok data' /\ rewrites n data data'
    /\ (65001 ≤ code ≤ 65534)%Z
    /\ let '(txid, qname, qtype) := chosen_question (drop n data) n echo in
       parse_opt_message data' = Some (mkOptMessage txid qname qtype code (replicate k 0%Z ++ drop n data)).
Proof.
  intros Hd Hn Hl Ht He.
  destruct (dns_writes data n echo Hd Hn Hl He) as (tx0 & tx1 & qname & ty0 & ty1 & E & Hw & Hq & Hwr).
  destruct Hwr as (Er & Hlen & Hb). assert (byte_ok tx0 /\ byte_ok tx1) as [H0 H1].
  { apply Forall_app in Hb as [Hb _]. apply Forall_cons in Hb as [? Hb]. by apply Forall_cons in Hb as [? _]. }
  pose proof (cover_code_range tx0 tx1 H0 H1) as Hc.
  eexists _, (dns_cover_code tx0 tx1), (n - (31 + length qname)). split; [exact Er|].
  split; [eexists; split; [reflexivity|done]|]. split; [done|]. rewrite E.
  rewrite <- !app_assoc. rewrite (app_assoc qname).
  assert (length (replicate (n - (31 + length qname)) 0%Z ++ drop n data)
    = length data - (31 + length qname)) as Hopt by (rewrite length_app, length_replicate, length_drop; lia).
  apply parse_opt_message_spec; try done; rewrite ?clamp_exact, ?Hopt by lia; lia.
Qed.

(** ** STUN *)

Lemma lcg_range st : (0 ≤ lcg_step st < 2 ^ 32)%Z.
Proof. apply wrap_range. lia. Qed.

Lemma draws_bytes n st :
  length (draws n (fun v => 0x20 + u8 (v `mod` 0x5F))%Z st) = n
  /\ Forall (fun c => 32 ≤ c ≤ 126)%Z (draws n (fun v => 0x20 + u8 (v `mod` 0x5F))%Z st).
Proof.
  revert st. induction n as [|n IH]; intros st; [by split|]. cbn [draws].
  destruct (IH (lcg_step st)) as [H1 H2]. split; [cbn; by rewrite H1|]. constructor; [|done].
  pose proof (Z.mod_pos_bound st 0x5F ltac:(lia)). rewrite u8_small by (unfold byte_ok; lia). lia.
Qed.

(** The two attributes as they are written. *)
Definition mapped_attr (st : Z) : bytes :=
  be16 0x0020 ++ be16 8 ++ [0; 1]%Z
  ++ be16 (Z.lxor (u16 (Z.shiftr st 16)) (u16 (Z.shiftr STUN_MAGIC_COOKIE 16)))
  ++ be32 (Z.lxor (lcg_step st) STUN_MAGIC_COOKIE).
Definition software_attr (vlen : nat) (st : Z) : bytes :=
  be16 0x8022 ++ be16 (u16 (Z.of_nat vlen)) ++ draws vlen (fun v => 0x20 + u8 (v `mod` 0x5F))%Z st.

Lemma length_software_attr vlen st : length (software_attr vlen st) = 4 + vlen.
Proof. unfold software_attr. rewrite !length_app, (proj1 (draws_bytes vlen st)). done. Qed.

Lemma xor_mapped_spec body w rest st :
  length w = 20 -> body ≤ length rest ->
  let a := if decide (12 ≤ body) then mapped_attr st else [] in
  exists st', xor_mapped_address body (w ++ rest, st, 0)
    = Ok ((w ++ a) ++ drop (length a) rest, st', length a).
Proof.
  intros Hw Hb a. unfold xor_mapped_address. rewrite Nat.sub_0_r. unfold a. case_decide as H12.
  - eexists. rewrite copy_next, bind_Ok_eq by (cbn [length be16]; lia).
    do 4 (rewrite copy_next, bind_Ok_eq by (rewrite ?length_app, ?length_drop; cbn [length be16 be32]; lia)).
    rewrite <- !app_assoc, !drop_drop. done.
  - exists st. cbn [length drop]. by rewrite app_nil_r.
Qed.

Lemma software_spec body w rest st written :
  length w = 20 + written -> written ≤ body -> body - written ≤ length rest ->
  let vlen := (body - written - 4) `min` 124 in
  let a := if decide (4 ≤ body - written) then software_attr vlen st else [] in
  exists st', software body (w ++ rest, st, written)
    = Ok ((w ++ a) ++ drop (length a) rest, st', written + length a).
Proof.
  intros Hw Hb Hr vlen a. unfold software. unfold a. case_decide as H4.
  - eexists. fold vlen. assert (vlen ≤ body - written - 4) as Hv by (unfold vlen; lia). clearbody vlen.
    destruct (draws_bytes vlen st) as [Hl _].
    rewrite copy_next, bind_Ok_eq by (cbn [length be16]; lia).
    rewrite copy_next, bind_Ok_eq by (rewrite ?length_app, ?length_drop; cbn [length be16]; lia).
    rewrite copy_next, bind_Ok_eq
      by (rewrite ?length_app, ?length_drop, ?Hl; cbn [length be16]; rewrite ?Hl; lia).
    rewrite length_software_attr. unfold software_attr. rewrite <- !app_assoc, !drop_drop, Hl. done.
  - exists st. cbn [length drop]. by rewrite app_nil_r, Nat.add_0_r.
Qed.

Definition stun_txid (payload : bytes) : bytes :=
  let st := fnv1a_seed secret payload in be32 st ++ be32 (lcg_step st) ++ be32 (steps 2 st).
Definition stun_header (written : nat) (txid : bytes) : bytes :=
  be16 0x0101 ++ be16 (u16 (Z.of_nat written)) ++ be32 STUN_MAGIC_COOKIE ++ txid.

Lemma length_stun_header written payload : length (stun_header written (stun_txid payload)) = 20.
Proof. done. Qed.

(** The attribute area of a padding of [n] bytes. *)
Definition stun_body (n : nat) : nat := if decide (20 < n) then 4 * ((n - 20) / 4) else 0.

Lemma stun_body_bound n : 20 ≤ n -> stun_body n ≤ n - 20.
Proof.
  unfold stun_body. intros Hn. case_decide; [|lia].
  pose proof (Nat.Div0.mul_div_le (n - 20) 4). lia.
Qed.

Definition attrs_of (n : nat) (st1 st2 : Z) : bytes :=
  let body := stun_body n in
  let a1 := if decide (12 ≤ body) then mapped_attr st1 else [] in
  let a2 := if decide (4 ≤ body - length a1)
            then software_attr ((body - length a1 - 4) `min` 124) st2 else [] in
  a1 ++ a2.

Lemma attrs_of_length n st1 st2 :
  length (attrs_of n st1 st2) ≤ stun_body n /\ length (attrs_of n st1 st2) ≤ 140.
Proof.
  unfold attrs_of. cbv zeta. rewrite length_app.
  assert (length (if decide (12 ≤ stun_body n) then mapped_attr st1 else [])
    = if decide (12 ≤ stun_body n) then 12 else 0) as -> by (by case_decide).
  set (k := if decide (12 ≤ stun_body n) then 12 else 0).
  assert (k ≤ stun_body n /\ k ≤ 12) as Hk by (unfold k; case_decide; lia). clearbody k.
  case_decide; [|cbn [length]; lia]. rewrite length_software_attr. lia.
Qed.

(** The header is written last, over the first 20 bytes. *)
Lemma stun_finish (w a rest h : bytes) :
  length w = 20 -> length h = 20 ->
  let p := (w ++ a) ++ rest in
  (padding ← copy_at p 0 (length p `min` 20) (take (length p `min` 20) h);
   if decide (20 + length a ≤ length padding) then fill_from padding (20 + length a) 0 else Ok padding)
  = Ok (h ++ a ++ replicate (length rest) 0%Z).
Proof.
  intros Hw Hh p. assert (length p `min` 20 = 20) as -> by (unfold p; rewrite !length_app; lia).
  rewrite take_ge by lia. unfold copy_at, p. rewrite decide_True by (rewrite !length_app; lia).
  rewrite bind_Ok_eq. change (take 0 ((w ++ a) ++ rest)) with ([] : bytes). cbn [app].
  rewrite <- app_assoc, drop_app_length' by done.
  rewrite decide_True by (rewrite !length_app; lia).
  rewrite app_assoc, fill_rest by (rewrite length_app; lia). by rewrite <- app_assoc.
Qed.

Lemma stun_writes data n :
  bytes_ok data -> 20 ≤ n -> n ≤ length data ->
  exists st1 st2, writes n data (apply_stun_padding secret data n)
    (stun_header (length (attrs_of n st1 st2)) (stun_txid (drop n data)) ++ attrs_of n st1 st2
     ++ replicate (n - (20 + length (attrs_of n st1 st2))) 0%Z).
Proof.
  intros Hd Hn Hl. assert (length (take n data) = n) as Ht by (rewrite length_take; lia).
  set (st := fnv1a_seed secret (drop n data)).
  pose proof (stun_body_bound n Hn) as Hbody.
  assert (take n data = take 20 data ++ take (n - 20) (drop 20 data)) as Esplit.
  { rewrite take_take_drop. f_equal. lia. }
  assert (length (take 20 data) = 20) as H20 by (rewrite length_take; lia).
  assert (length (take (n - 20) (drop 20 data)) = n - 20) as Hrest by (rewrite length_take, length_drop; lia).
  destruct (xor_mapped_spec (stun_body n) (take 20 data) (take (n - 20) (drop 20 data)) (steps 3 st))
    as (st2 & E1); [done|lia|].
  set (a1 := if decide (12 ≤ stun_body n) then mapped_attr (steps 3 st) else []) in E1.
  assert (length a1 ≤ stun_body n) as Ha1.
  { unfold a1. case_decide; [change (length (mapped_attr (steps 3 st))) with 12; lia|cbn; lia]. }
  destruct (software_spec (stun_body n) (take 20 data ++ a1)
    (drop (length a1) (take (n - 20) (drop 20 data))) st2 (length a1)) as (st3 & E2);
    [rewrite length_app; lia|done|rewrite length_drop; lia|].
  set (a2 := if decide (4 ≤ stun_body n - length a1)
             then software_attr ((stun_body n - length a1 - 4) `min` 124) st2 else []) in E2.
  exists (steps 3 st), st2.
  assert (attrs_of n (steps 3 st) st2 = a1 ++ a2) as Ea by done.
  pose proof (attrs_of_length n (steps 3 st) st2) as [Hal _]. rewrite Ea in Hal |- *.
  rewrite length_app in Hal |- *.
  assert (length (stun_header (length a1 + length a2) (stun_txid (drop n data))) = 20) as Hh by done.
  apply with_padding_writes; [done| | |].
  - destruct (take n data) as [|x xs] eqn:E; [cbn in Ht; lia|]. rewrite Esplit.
    fold (stun_body n). fold st. cbv zeta. rewrite E1, bind_Ok_eq, E2. cbn [mbind result_bind].
    fold st in Hh. fold (stun_txid (drop n data)).
    match goal with |- context [take (_ `min` length ?h) ?h] =>
      change h with (stun_header (length a1 + length a2) (stun_txid (drop n data))) end.
    rewrite Hh. rewrite <- (app_assoc (take 20 data) a1 a2), <- length_app.
    rewrite stun_finish by done. rewrite !length_drop, Hrest, length_app.
    do 4 f_equal. lia.
  - rewrite !length_app, Hh, length_replicate. lia.
  - apply Forall_app. split; [|apply Forall_app; split; [|by apply replicate_bytes]].
    + unfold stun_header, stun_txid. repeat (apply Forall_app; split);
        first [apply be16_bytes|apply be32_ok].
    + apply Forall_app. split.
      * unfold a1. case_decide; [|done]. unfold mapped_attr.
        repeat (apply Forall_app; split); first [apply be16_bytes|apply be32_ok|by repeat constructor].
      * unfold a2. case_decide; [|done]. unfold software_attr.
        apply Forall_app; split; [apply be16_bytes|]. apply Forall_app; split; [apply be16_bytes|].
        eapply Forall_impl; [apply draws_bytes|]. unfold byte_ok. lia.
Qed.

(** How a strict STUN parser reads the imitation: attributes that fill exactly
    the advertised length. *)
Fixpoint parse_attrs (fuel : nat) (b : bytes) : option (list (Z * bytes)) :=
  match fuel, b with
  | _, [] => Some []
  | S fuel, t1 :: t2 :: l1 :: l2 :: rest =>
      let len := Z.to_nat (of_be16 l1 l2) in
      if decide (len mod 4 = 0 /\ len ≤ length rest) then
        l ← parse_attrs fuel (drop len rest); Some ((of_be16 t1 t2, take len rest) :: l)
      else None
  | _, _ => None
  end.

Definition parse_stun (m : bytes) : option (Z * bytes * list (Z * bytes)) :=
  match m with
  | t1 :: t2 :: l1 :: l2 :: 33%Z :: 18%Z :: 164%Z :: 66%Z :: rest =>
      let len := Z.to_nat (of_be16 l1 l2) in
      if decide (len mod 4 = 0 /\ 12 + len ≤ length rest) then
        l ← parse_attrs 3 (take len (drop 12 rest)); Some (of_be16 t1 t2, take 12 rest, l)
      else None
  | _ => None
  end.

Definition stun_attr_ok (a : Z * bytes) : Prop :=
  (fst a = 0x0020%Z /\ length (snd a) = 8)
  \/ (fst a = 0x8022%Z /\ Forall (fun c => 32 ≤ c ≤ 126)%Z (snd a) /\ length (snd a) < 128).

Lemma parse_attr_cons fuel t v rest :
  (0 ≤ t < 2 ^ 16)%Z -> length v mod 4 = 0 -> length v < 128 ->
  parse_attrs (S fuel) ((be16 t ++ be16 (u16 (Z.of_nat (length v))) ++ v) ++ rest)
  = (l ← parse_attrs fuel rest; Some ((t, v) :: l)).
Proof.
  intros Ht Hv Hl. assert (u16 (Z.of_nat (length v)) = Z.of_nat (length v)) as -> by (apply wrap_small; lia).
  assert (0 ≤ Z.of_nat (length v) < 2 ^ 16)%Z as Hr by lia.
  destruct (be16 t) as [|t1 [|t2 [|]]] eqn:E1; try done.
  destruct (be16 (Z.of_nat (length v))) as [|l1 [|l2 [|]]] eqn:E2; try done.
  rewrite <- !app_assoc. cbn [app parse_attrs].
  rewrite (of_be16_be16' t Ht t1 t2 E1), (of_be16_be16' _ Hr l1 l2 E2), Nat2Z.id.
  rewrite decide_True by (rewrite length_app; lia). by rewrite take_app_length, drop_app_length.
Qed.

Lemma parse_attrs_of n st1 st2 :
  exists l, parse_attrs 3 (attrs_of n st1 st2) = Some l /\ Forall stun_attr_ok l
    /\ length (attrs_of n st1 st2) mod 4 = 0 /\ (32 ≤ n -> l <> []).
Proof.
  unfold attrs_of. cbv zeta.
  assert (exists k, stun_body n = 4 * k) as [k Hk].
  { unfold stun_body. case_decide; [by eexists|by exists 0]. }
  assert (32 ≤ n -> 12 ≤ stun_body n) as H32.
  { intros Hn. unfold stun_body. rewrite decide_True by lia.
    pose proof (Nat.Div0.div_le_mono 12 (n - 20) 4 ltac:(lia)). change (12 / 4) with 3 in *. lia. }
  assert (forall fuel b st, (exists j, b = 4 * j) ->
    exists l, parse_attrs (S fuel) (if decide (4 ≤ b) then software_attr ((b - 4) `min` 124) st else [])
      = Some l /\ Forall stun_attr_ok l
      /\ length (if decide (4 ≤ b) then software_attr ((b - 4) `min` 124) st else []) mod 4 = 0) as Hs.
  { intros fuel b st [j Hj]. case_decide; [|by exists []].
    set (v := draws ((b - 4) `min` 124) (fun v => 0x20 + u8 (v `mod` 0x5F))%Z st).
    destruct (draws_bytes ((b - 4) `min` 124) st) as [Hv Hp]. fold v in Hv, Hp.
    assert (length v mod 4 = 0) as Hm.
    { rewrite Hv, Hj. destruct (decide (4 * j - 4 ≤ 124)).
      - rewrite Nat.min_l by done. replace (4 * j - 4) with ((j - 1) * 4) by lia. apply Nat.Div0.mod_mul.
      - rewrite Nat.min_r by lia. done. }
    exists [(0x8022%Z, v)].
    assert (software_attr ((b - 4) `min` 124) st
      = (be16 0x8022 ++ be16 (u16 (Z.of_nat (length v))) ++ v) ++ []) as ->.
    { rewrite app_nil_r. unfold software_attr. fold v. by rewrite Hv. }
    split; [|split].
    - rewrite parse_attr_cons by (lia || done). by destruct fuel.
    - constructor; [|done]. right. split; [done|]. split; [done|]. cbn [snd]. lia.
    - rewrite app_nil_r, !length_app, !length_be16.
      replace (2 + (2 + length v)) with (length v + 1 * 4) by lia.
      rewrite Nat.Div0.mod_add. done. }
  case_decide as H12.
  - change (length (mapped_attr st1)) with 12.
    destruct (Hs 1 (stun_body n - 12) st2) as (l & E & Hl & Hm); [exists (k - 3); lia|].
    exists ((0x0020%Z, drop 4 (mapped_attr st1)) :: l). split; [|split; [|split]].
    + assert (mapped_attr st1 = be16 0x0020 ++ be16 (u16 (Z.of_nat (length (drop 4 (mapped_attr st1)))))
        ++ drop 4 (mapped_attr st1)) as E1 by done.
      rewrite E1 at 1. rewrite parse_attr_cons by (done || (vm_compute; lia)). by rewrite E.
    + constructor; [by left|done].
    + rewrite length_app. change (length (mapped_attr st1)) with (3 * 4).
      rewrite Nat.add_comm, Nat.Div0.mod_add. done.
    + done.
  - cbn [length app]. rewrite Nat.sub_0_r.
    destruct (Hs 2 (stun_body n) st2) as (l & E & Hl & Hm); [by exists k|].
    exists l. split_and!; [done|done|done|]. intros Hn. exfalso. by apply H12, H32.
Qed.

Lemma stun_parses data n :
  bytes_ok data -> 20 ≤ n -> n ≤ length data ->
  exists data' l, apply_stun_padding secret data n = Ok data' /\ rewrites n data data'
    /\ parse_stun data' = Some (0x0101%Z, stun_txid (drop n data), l)
    /\ Forall stun_attr_ok l /\ (32 ≤ n -> l <> []).
Proof.
  intros Hd Hn Hl. destruct (stun_writes data n Hd Hn Hl) as (st1 & st2 & E & Hlen & Hb).
  destruct (parse_attrs_of n st1 st2) as (l & El & Hok & Hm & Hne).
  destruct (attrs_of_length n st1 st2) as [_ H140].
  eexists _, l. split; [exact E|]. split; [by eexists|]. split; [|by split].
  set (a := attrs_of n st1 st2) in *. clearbody a. unfold stun_header.
  assert (u16 (Z.of_nat (length a)) = Z.of_nat (length a)) as -> by (apply wrap_small; lia).
  assert (0 ≤ Z.of_nat (length a) < 2 ^ 16)%Z as Hr by lia.
  destruct (be16 (Z.of_nat (length a))) as [|l1 [|l2 [|]]] eqn:E2; try done.
  change (be16 0x0101) with [1; 1]%Z. change (be32 STUN_MAGIC_COOKIE) with [33; 18; 164; 66]%Z.
  assert (length (stun_txid (drop n data)) = 12) as Htx by done.
  set (t := stun_txid (drop n data)) in *. clearbody t.
  rewrite <- !app_assoc. cbn [app parse_stun].
  rewrite (of_be16_be16' _ Hr l1 l2 E2), Nat2Z.id.
  rewrite decide_True by (rewrite !length_app; lia).
  rewrite drop_app_length', take_app_length', take_app_length by done. by rewrite El.
Qed.
End secret.
