(* ===== verification/ProxySip.v ===== *)
(** * The SIP imitation

    The transform as a list of complete header lines, a blank line, and a body;
    the declared content length is the length of that body. *)
From S2P Require Import Prelude Text ProxyParams ProxyPackets ProxyTransform ProxyCover.

(** ** Digit counts *)

Lemma digits_loop_spec fuel v d :
  (0 ≤ v < 10 ^ Z.of_nat fuel)%Z -> 0 < fuel ->
  exists k, decimal_digits_loop fuel v d = d + k /\ (v < 10 ^ (Z.of_nat k + 1))%Z
    /\ (k = 0%nat \/ 10 ^ Z.of_nat k ≤ v)%Z.
Proof.
  revert v d. induction fuel as [|fuel IH]; intros v d Hv Hf; [lia|]. cbn [decimal_digits_loop].
  case_decide as H10; [|exists 0; split; [lia|]; split; [cbn; lia|by left]].
  rewrite Nat2Z.inj_succ, Z.pow_succ_r in Hv by lia.
  pose proof (Z.div_mod v 10 ltac:(lia)). pose proof (Z.mod_pos_bound v 10 ltac:(lia)).
  destruct fuel as [|fuel]; [cbn in Hv; lia|].
  destruct (IH (v / 10)%Z (d + 1)) as (k & E & H1 & H2); [lia|lia|].
  exists (S k). rewrite E. split; [lia|]. rewrite Nat2Z.inj_succ.
  replace (Z.succ (Z.of_nat k) + 1)%Z with (Z.succ (Z.of_nat k + 1)) by lia.
  rewrite !Z.pow_succ_r by lia. split; [lia|]. right.
  destruct H2 as [-> | H2]; [cbn; lia|lia].
Qed.

Lemma decimal_digits_spec v :
  (Z.of_nat v < 10 ^ 20)%Z ->
  1 ≤ decimal_digits v /\ (Z.of_nat v < 10 ^ Z.of_nat (decimal_digits v))%Z
  /\ (decimal_digits v = 1%nat \/ 10 ^ (Z.of_nat (decimal_digits v) - 1) ≤ Z.of_nat v)%Z.
Proof.
  intros Hv. unfold decimal_digits.
  destruct (digits_loop_spec 20 (Z.of_nat v) 1) as (k & -> & H1 & H2); [cbn -[Z.pow]; lia|lia|].
  split; [lia|]. replace (Z.of_nat (1 + k)) with (Z.of_nat k + 1)%Z by lia. split; [done|].
  replace (Z.of_nat k + 1 - 1)%Z with (Z.of_nat k) by lia. destruct H2 as [-> | ?]; [by left|by right].
Qed.

Lemma length_decimal_go fuel n acc :
  (0 ≤ n < 10 ^ Z.of_nat fuel)%Z -> 0 < fuel ->
  length (decimal_go fuel n acc) = decimal_digits_loop fuel n (S (length acc)).
Proof.
  revert n acc. induction fuel as [|fuel IH]; intros n acc Hn Hf; [lia|].
  cbn [decimal_go decimal_digits_loop].
  pose proof (Z.div_mod n 10 ltac:(lia)). pose proof (Z.mod_pos_bound n 10 ltac:(lia)).
  rewrite Nat2Z.inj_succ, Z.pow_succ_r in Hn by lia.
  destruct (decide (n / 10 = 0)%Z); [by rewrite decide_False by lia|].
  rewrite decide_True by lia. destruct fuel as [|fuel]; [cbn in Hn; lia|].
  rewrite IH by lia. cbn [length]. f_equal. lia.
Qed.

(** The digits that are printed are the digits that were counted. *)
Lemma length_decimal v : (Z.of_nat v < 2 ^ 64)%Z -> length (decimal (Z.of_nat v)) = decimal_digits v.
Proof.
  intros Hv. unfold decimal, decimal_digits. rewrite decide_False by lia.
  rewrite length_decimal_go by (cbn -[Z.pow]; lia). done.
Qed.

(** Taking one away loses at most one digit, and only below a power of ten. *)
Lemma digits_pred v :
  0 < v -> (Z.of_nat v < 10 ^ 20)%Z ->
  decimal_digits (v - 1) = decimal_digits v
  \/ (decimal_digits v = S (decimal_digits (v - 1))
      /\ Z.of_nat v = 10 ^ Z.of_nat (decimal_digits (v - 1)))%Z.
Proof.
  intros H0 Hv. destruct (decimal_digits_spec v Hv) as (A1 & A2 & A3).
  destruct (decimal_digits_spec (v - 1)) as (B1 & B2 & B3); [lia|].
  set (a := decimal_digits v) in *. set (b := decimal_digits (v - 1)) in *. clearbody a b.
  assert (forall x y : nat, x < y -> (10 ^ Z.of_nat x * 10 ≤ 10 ^ Z.of_nat y)%Z) as Hpow.
  { intros x y Hxy. replace (10 ^ Z.of_nat x * 10)%Z with (10 ^ Z.of_nat (S x))%Z.
    - apply Z.pow_le_mono_r; lia.
    - rewrite Nat2Z.inj_succ, Z.pow_succ_r by lia. lia. }
  assert (forall x : nat, 0 < 10 ^ Z.of_nat x)%Z as Hpos by (intros; apply Z.pow_pos_nonneg; lia).
  assert (forall x : nat, 1 ≤ x -> (10 ^ Z.of_nat x = 10 * 10 ^ (Z.of_nat x - 1))%Z) as Hs.
  { intros x Hx. rewrite <- Z.pow_succ_r by lia. f_equal. lia. }
  destruct (decide (a = b)) as [->|Hne]; [by left|right].
  assert (b < a) as Hba.
  { destruct (decide (a < b)) as [Hab|]; [|lia]. exfalso. pose proof (Hpow a b Hab).
    pose proof (Hs b B1). destruct B3 as [B3|B3]; [lia|]. lia. }
  pose proof (Hpow b a Hba). pose proof (Hs a A1). pose proof (Hpos b).
  destruct A3 as [A3|A3]; [lia|].
  assert (a = S b) as ->.
  { destruct (decide (a = S b)); [done|]. exfalso. pose proof (Hpow b (a - 1) ltac:(lia)) as Hp.
    replace (Z.of_nat (a - 1)) with (Z.of_nat a - 1)%Z in Hp by lia. lia. }
  split; [done|]. replace (Z.of_nat (S b) - 1)%Z with (Z.of_nat b) in A3 by lia. lia.
Qed.

(** The search for a digit count that describes itself.  Going up from [k], it
    can only fail by stepping over a power of ten. *)
Lemma content_digits_search len total pos sws D k X :
  X = total - (pos + 15 + sws + 4) -> pos + 15 + sws + D + 4 ≤ len -> len ≤ total ->
  (Z.of_nat total < 10 ^ 20)%Z -> decimal_digits (X - D) ≤ D -> D < X ->
  1 ≤ k ≤ D -> k ≤ decimal_digits (X - k) ->
  (exists body d, content_digits (seq k (S D - k)) len total pos sws = Ok (Some body)
     /\ body = X - d /\ k ≤ d ≤ D /\ decimal_digits body = d)
  \/ exists d, k ≤ d ≤ D /\ Z.of_nat (X - d) = (10 ^ Z.of_nat d)%Z.
Proof.
  intros HX Hlen Hlt Ht HD HDX. remember (D - k) as m eqn:Em. revert k Em.
  induction m as [|m IH]; intros k Em Hk Hkd.
  all: replace (S D - k) with (S (D - k)) by lia; cbn [seq content_digits].
  all: rewrite decide_False by lia; rewrite usize_sub_ok, bind_Ok_eq by lia.
  all: replace (total - (pos + 15 + sws + k + 4)) with (X - k) by lia.
  all: destruct (decide (decimal_digits (X - k) = k)) as [E|E].
  1, 3: left; exists (X - k), k; split_and!; [done|done|lia|lia|done].
  - replace k with D in * by lia. lia.
  - destruct (digits_pred (X - k)) as [Ep|[Ep Ev]]; [lia|lia| |].
    + destruct (IH (S k)) as [(body & d & H1 & H2)|(d & H1 & H2)]; [lia|lia| | |].
      * replace (X - S k) with (X - k - 1) by lia. lia.
      * left. exists body, d. replace (D - k) with (S D - S k) by lia. split; [done|].
        destruct H2 as (? & ? & ?). split_and!; [done|lia|lia|done].
      * right. exists d. split; [lia|done].
    + destruct (decide (decimal_digits (X - k - 1) = k)) as [Ek|Ek].
      * right. exists k. rewrite Ek in Ev. split; [lia|done].
      * destruct (IH (S k)) as [(body & d & H1 & H2)|(d & H1 & H2)]; [lia|lia| | |].
        -- replace (X - S k) with (X - k - 1) by lia. lia.
        -- left. exists body, d. replace (D - k) with (S D - S k) by lia. split; [done|].
           destruct H2 as (? & ? & ?). split_and!; [done|lia|lia|done].
        -- right. exists d. split; [lia|done].
Qed.

(** One and two blanks never both fail. *)
Lemma powers_apart x d d' :
  (Z.of_nat (x - d) = 10 ^ Z.of_nat d)%Z -> (Z.of_nat (x - 1 - d') = 10 ^ Z.of_nat d')%Z -> False.
Proof.
  intros H1 H2.
  assert (forall n, 0 < 10 ^ Z.of_nat n)%Z as Hpos by (intros; apply Z.pow_pos_nonneg; lia).
  pose proof (Hpos d). pose proof (Hpos d').
  assert (forall a b : nat, a < b -> (10 ^ Z.of_nat a < 10 ^ Z.of_nat b)%Z) as Hlt.
  { intros a b Hab. apply Z.pow_lt_mono_r; lia. }
  destruct (lt_eq_lt_dec d d') as [[Hd|Hd]|Hd]; [pose proof (Hlt d d' Hd); lia|subst; lia|].
  pose proof (Hlt d' d Hd). lia.
Qed.

(** ** Lines *)

Definition line_text (pieces : list bytes) : bytes := mjoin pieces.

Lemma write_pieces_ok cap buf ps :
  length buf + length (line_text ps) ≤ cap -> write_pieces cap buf ps = (buf ++ line_text ps, true).
Proof.
  unfold line_text. revert buf. induction ps as [|p ps IH]; intros buf Hl.
  - cbn. by rewrite app_nil_r.
  - change (mjoin (p :: ps)) with (p ++ mjoin ps) in *. rewrite length_app in Hl. cbn [write_pieces].
    rewrite decide_False by lia. rewrite IH by (rewrite length_app; lia). by rewrite app_assoc.
Qed.

Lemma write_pieces_prefix cap buf ps out ok :
  write_pieces cap buf ps = (out, ok) -> ok = true -> out = buf ++ line_text ps.
Proof.
  unfold line_text. revert buf. induction ps as [|p ps IH]; intros buf; cbn [write_pieces].
  - intros [= <- <-] _. cbn. by rewrite app_nil_r.
  - case_decide; [by intros [= <- <-]|]. intros Hw Hok. rewrite (IH _ Hw Hok).
    change (mjoin (p :: ps)) with (p ++ mjoin ps). by rewrite app_assoc.
Qed.

(** The cursor: [w] is written, [rest] is not. *)
Definition cursor (w rest : bytes) : bytes * nat := (w ++ rest, length w).

(** A line is written in full and leaves room for two bytes, or not at all. *)
Lemma put_line_cases ps w rest :
  (put_line ps (cursor w rest)
     = Ok (cursor (w ++ line_text ps) (drop (length (line_text ps)) rest), true)
   /\ length (line_text ps) + 2 ≤ length rest)
  \/ (put_line ps (cursor w rest) = Ok (cursor w rest, false)
      /\ (length (line_text ps) ≤ 128 -> length rest < length (line_text ps) + 2)).
Proof.
  unfold put_line, cursor. destruct (write_pieces 128 [] ps) as [line ok] eqn:E. cbv zeta.
  rewrite length_app. case_decide as Hd.
  - left. destruct Hd as [Hok Hl]. apply write_pieces_prefix in E; [|done]. cbn [app] in E. subst line.
    split; [|lia]. rewrite copy_next, bind_Ok_eq by lia. by rewrite length_app.
  - right. split; [done|]. intros H128. rewrite write_pieces_ok in E by (cbn; lia).
    injection E as <- <-. cbn [app] in Hd. destruct (decide (length rest < length (line_text ps) + 2)); [done|].
    exfalso. apply Hd. split; [done|lia].
Qed.

(** Lines in order, up to the first that does not fit. *)
Lemma put_lines_cases ls w rest :
  exists k ok, put_lines ls (cursor w rest)
      = Ok (cursor (w ++ mjoin (line_text <$> take k ls))
                   (drop (length (mjoin (line_text <$> take k ls))) rest), ok)
    /\ (ok = true -> take k ls = ls)
    /\ (k = 0 \/ length (mjoin (line_text <$> take k ls)) + 2 ≤ length rest)
    /\ (Forall (fun l => length (line_text l) ≤ 128) ls ->
        length (mjoin (line_text <$> ls)) + 2 ≤ length rest -> ok = true).
Proof.
  revert w rest. induction ls as [|l ls IH]; intros w rest.
  { exists 0, true. cbn. rewrite app_nil_r. split_and!; [by rewrite drop_0|done|by left|done]. }
  cbn [put_lines].
  destruct (put_line_cases l w rest) as [[E Hfit]|[E Hno]]; rewrite E, bind_Ok_eq.
  - destruct (IH (w ++ line_text l) (drop (length (line_text l)) rest)) as (k & ok & E' & Hok & Hk & Hall).
    exists (S k), ok. cbn [take fmap list_fmap].
    change (mjoin (line_text l :: ?x)) with (line_text l ++ mjoin x).
    split.
    + rewrite E'. unfold cursor. rewrite drop_drop, !length_app, <- !app_assoc, Nat.add_assoc. done.
    + split; [intros Ht; by rewrite Hok|]. rewrite length_drop in *. rewrite length_app.
      split; [right; destruct Hk as [-> | Hk]; [change (length (mjoin (line_text <$> take 0 ls))) with 0; lia|lia]|].
      intros HF Hl. apply Forall_cons in HF as [_ HF].
      change (mjoin (line_text <$> l :: ls)) with (line_text l ++ mjoin (line_text <$> ls)) in Hl.
      rewrite length_app in Hl. apply Hall; [done|lia].
  - exists 0, false. cbn [take fmap list_fmap mjoin list_join length]. rewrite app_nil_r, drop_0.
    split_and!; [done|done|by left|]. intros HF Hl. apply Forall_cons in HF as [HF _].
    change (mjoin (line_text <$> l :: ls)) with (line_text l ++ mjoin (line_text <$> ls)) in Hl.
    rewrite length_app in Hl. specialize (Hno HF). lia.
Qed.

Definition status_line (i : nat) : bytes := line_text [bstr "SIP/2.0 "; STATUS !!! i; CRLF].

Lemma status_line_length i : i < 3 -> 16 ≤ length (status_line i) ≤ 21.
Proof. intros Hi. do 3 (destruct i as [|i]; [vm_compute; lia|]). lia. Qed.

Lemma put_status_cases ks i w rest :
  Forall (fun k => k < 3) ks -> i < 3 ->
  (exists j, j < 3 /\ put_status ks i (cursor w rest)
     = Ok (cursor (w ++ status_line j) (drop (length (status_line j)) rest), true)
     /\ length (status_line j) + 2 ≤ length rest)
  \/ (put_status ks i (cursor w rest) = Ok (cursor w rest, false) /\ (ks <> [] -> length rest < 23)).
Proof.
  intros Hks Hi. induction Hks as [|k ks Hk _ IH]; cbn [put_status]; [by right|].
  change (length STATUS) with 3.
  pose proof (Nat.mod_upper_bound (i + k) 3 ltac:(lia)) as Hm. set (j := (i + k) mod 3) in *.
  assert (index (E := Empty_set) STATUS j = Ok (STATUS !!! j)) as ->.
  { clearbody j. do 3 (destruct j as [|j]; [done|]). lia. }
  rewrite bind_Ok_eq.
  destruct (put_line_cases [bstr "SIP/2.0 "; STATUS !!! j; CRLF] w rest) as [[E Hfit]|[E Hno]];
    rewrite E, bind_Ok_eq; fold (status_line j) in *.
  - left. exists j. by split_and!.
  - pose proof (status_line_length j Hm). destruct IH as [IH|[IH Hl]]; [by left|right].
    split; [done|]. intros _. specialize (Hno ltac:(lia)). lia.
Qed.

(** ** The content length *)

Lemma decimal_digits_le v k :
  1 ≤ k -> (Z.of_nat v < 10 ^ Z.of_nat k)%Z -> (Z.of_nat v < 10 ^ 20)%Z -> decimal_digits v ≤ k.
Proof.
  intros Hk Hv H20. destruct (decimal_digits_spec v H20) as (_ & _ & [->|H]); [done|].
  destruct (decide (decimal_digits v ≤ k)); [done|]. exfalso.
  pose proof (Z.pow_le_mono_r 10 (Z.of_nat k) (Z.of_nat (decimal_digits v) - 1) ltac:(lia) ltac:(lia)). lia.
Qed.

Lemma decimal_digits_mono v v' :
  v ≤ v' -> (Z.of_nat v' < 10 ^ 20)%Z -> decimal_digits v ≤ decimal_digits v'.
Proof. intros Hv H. destruct (decimal_digits_spec v' H) as (? & ? & _). apply decimal_digits_le; lia. Qed.

(** A value that is found describes itself and fits. *)
Lemma content_digits_cases ds len total pos sws :
  len ≤ total ->
  content_digits ds len total pos sws = Ok None
  \/ exists d, content_digits ds len total pos sws = Ok (Some (total - (pos + 15 + sws + d + 4)))
       /\ pos + 15 + sws + d + 4 ≤ len /\ decimal_digits (total - (pos + 15 + sws + d + 4)) = d.
Proof.
  intros Hlen. induction ds as [|d ds IH]; cbn [content_digits]; [by left|].
  case_decide; [by left|]. rewrite usize_sub_ok, bind_Ok_eq by lia. case_decide as E; [|exact IH].
  right. exists d. split_and!; [done|lia|done].
Qed.

Definition content_line (sws body : nat) : bytes :=
  line_text [content_name sws; decimal (Z.of_nat body); CRLF].

Lemma length_content_line sws body :
  sws = 1 \/ sws = 2 -> (Z.of_nat body < 2 ^ 64)%Z ->
  length (content_line sws body) = 15 + sws + decimal_digits body + 2.
Proof.
  intros Hs Hb. unfold content_line, line_text.
  change (mjoin [content_name sws; decimal (Z.of_nat body); CRLF])
    with (content_name sws ++ decimal (Z.of_nat body) ++ CRLF ++ []).
  rewrite !length_app, length_decimal by done. destruct Hs as [-> | ->]; cbn [length CRLF];
    [change (length (content_name 1)) with 16|change (length (content_name 2)) with 17]; lia.
Qed.

Lemma put_content_line sws body w rest :
  sws = 1 \/ sws = 2 -> (Z.of_nat body < 2 ^ 64)%Z ->
  15 + sws + decimal_digits body + 4 ≤ length rest ->
  put_line [content_name sws; decimal (Z.of_nat body); CRLF] (cursor w rest)
  = Ok (cursor (w ++ content_line sws body) (drop (length (content_line sws body)) rest), true).
Proof.
  intros Hs Hb Hr. pose proof (length_content_line sws body Hs Hb) as Hl.
  pose proof (decimal_digits_le body 20 ltac:(lia)) as H20.
  destruct (put_line_cases [content_name sws; decimal (Z.of_nat body); CRLF] w rest)
    as [[E _]|[_ Hno]]; [exact E|exfalso].
  fold (content_line sws body) in Hno. rewrite Hl in Hno. specialize (Hno ltac:(lia)). lia.
Qed.

(** With room for the line some width succeeds; without, nothing is written. *)
Lemma put_content_length_cases total w rest :
  length w + length rest < total -> (Z.of_nat total < 2 ^ 64)%Z ->
  (put_content_length [1; 2] total (cursor w rest) = Ok (cursor w rest)
   /\ length rest < 21 + decimal_digits total)
  \/ exists sws body, (sws = 1 \/ sws = 2)
       /\ put_content_length [1; 2] total (cursor w rest)
          = Ok (cursor (w ++ content_line sws body) (drop (length (content_line sws body)) rest))
       /\ length (content_line sws body) + 2 ≤ length rest
       /\ body = total - (length w + length (content_line sws body) + 2).
Proof.
  intros Hlt Ht. cbn [put_content_length]. change (snd (cursor w rest)) with (length w).
  assert (length (fst (cursor w rest)) = length w + length rest) as -> by (cbn; by rewrite length_app).
  set (len := length w + length rest) in *. set (ds := seq 1 (decimal_digits total)).
  assert (forall sws d body, sws = 1 \/ sws = 2 -> body = total - (length w + 15 + sws + d + 4) ->
    length w + 15 + sws + d + 4 ≤ len -> decimal_digits body = d ->
    put_line [content_name sws; decimal (Z.of_nat body); CRLF] (cursor w rest)
      = Ok (cursor (w ++ content_line sws body) (drop (length (content_line sws body)) rest), true)
    /\ length (content_line sws body) + 2 ≤ length rest
    /\ body = total - (length w + length (content_line sws body) + 2)) as Hput.
  { intros sws d body Hs Hbody Hd Hdd.
    split; [apply put_content_line; (done || lia)|].
    rewrite length_content_line, Hdd by (done || lia). lia. }
  destruct (content_digits_cases ds len total (length w) 1) as [E1|(d & E1 & Hd & Hdd)]; [lia| |];
    rewrite E1, bind_Ok_eq.
  2: { destruct (Hput 1 d _ (or_introl eq_refl) eq_refl Hd Hdd) as (Ep & Hl & Hbody).
       right. eexists 1, _. rewrite Ep. split; [by left|]. split; [done|]. by split. }
  destruct (content_digits_cases ds len total (length w) 2) as [E2|(d & E2 & Hd & Hdd)]; [lia| |];
    rewrite E2, bind_Ok_eq.
  2: { destruct (Hput 2 d _ (or_intror eq_refl) eq_refl Hd Hdd) as (Ep & Hl & Hbody).
       right. eexists 2, _. rewrite Ep. split; [by right|]. split; [done|]. by split. }
  left. split; [done|]. destruct (decide (length rest < 21 + decimal_digits total)) as [|Hroom]; [done|exfalso].
  destruct (decimal_digits_spec total) as (HD & _ & _); [lia|].
  set (X := fun sws => total - (length w + 15 + sws + 4)).
  assert (forall sws, sws = 1 \/ sws = 2 -> content_digits ds len total (length w) sws = Ok None ->
    exists d, Z.of_nat (X sws - d) = (10 ^ Z.of_nat d)%Z) as Hpow.
  { intros sws Hs E. pose proof (decimal_digits_mono (X sws - decimal_digits total) total) as Hm1.
    destruct (decimal_digits_spec (X sws - 1)) as (H1 & _); [unfold X; lia|].
    destruct (content_digits_search len total (length w) sws (decimal_digits total) 1 (X sws))
      as [(b & d & E' & _)|(d & _ & Hd)]; try (unfold X in *; lia).
    - unfold ds in E. replace (S (decimal_digits total) - 1) with (decimal_digits total) in E' by lia.
      congruence.
    - by exists d. }
  destruct (Hpow 1 (or_introl eq_refl) E1) as [d1 H1]. destruct (Hpow 2 (or_intror eq_refl) E2) as [d2 H2].
  apply (powers_apart (X 1) d1 d2 H1). unfold X in *. rewrite <- H2. f_equal. lia.
Qed.

(** ** The drawn values *)

(** Host, method and numbers are within the bounds the line lengths need, and
    printable. *)
Record draw_ok (d : SipDraw) : Prop := {
  ok_status : d_status d < 3;
  ok_host : length (d_host d) ≤ 14 /\ Forall graph (d_host d);
  ok_method : length (d_method d) ≤ 8 /\ Forall graph (d_method d);
  ok_cseq : (1 ≤ d_cseq d ≤ 100000)%Z;
}.

Lemma index_mod {A} (l : list A) (z m : Z) :
  m = Z.of_nat (length l) -> (0 < m)%Z ->
  exists x, index (E := Empty_set) l (Z.to_nat (z `mod` m)) = Ok x /\ x ∈ l.
Proof.
  intros -> Hm. pose proof (Z.mod_pos_bound z _ Hm).
  destruct (lookup_lt_is_Some_2 l (Z.to_nat (z `mod` Z.of_nat (length l)))) as [x Hx]; [lia|].
  exists x. split; [by apply index_Some|]. by eapply list_elem_of_lookup_2.
Qed.

Lemma length_decimal_le v k :
  1 ≤ k ≤ 20 -> (0 ≤ v < 10 ^ Z.of_nat k)%Z -> (v < 2 ^ 64)%Z -> length (decimal v) ≤ k.
Proof.
  intros Hk Hv H64. rewrite <- (Z2Nat.id v) by lia. rewrite length_decimal by lia.
  apply decimal_digits_le; lia.
Qed.

Lemma steps_range k st : 0 < k -> (0 ≤ steps k st < 2 ^ 32)%Z.
Proof. destruct k; [lia|]. intros _. apply lcg_range. Qed.

Lemma sip_draw_ok secret payload : exists d, sip_draw secret payload = Ok d /\ draw_ok d.
Proof.
  assert (Forall (fun l => length l ≤ 5 /\ Forall graph l) SIP_LABELS) as Hlabels by evaluate.
  assert (Forall (fun l => length l ≤ 5 /\ Forall graph l) SIP_TLDS) as Htlds by evaluate.
  assert (Forall (fun l => length l ≤ 8 /\ Forall graph l) METHODS) as Hmethods by evaluate.
  unfold sip_draw. cbv zeta. set (seed := fnv1a_seed secret payload).
  destruct (index_mod SIP_LABELS (steps 1 seed) 8) as (label & -> & Hl); [done|lia|]. rewrite bind_Ok_eq.
  destruct (index_mod SIP_TLDS (steps 3 seed) 6) as (tld & -> & Ht); [done|lia|]. rewrite bind_Ok_eq.
  destruct (index_mod METHODS (steps 4 seed) 3) as (method & -> & Hm); [done|lia|]. rewrite bind_Ok_eq.
  rewrite Forall_forall in Hlabels, Htlds, Hmethods.
  destruct (Hlabels _ Hl) as [Hl1 Hl2]. destruct (Htlds _ Ht) as [Ht1 Ht2].
  pose proof (Z.mod_pos_bound (steps 2 seed) 1000 ltac:(lia)) as Hnum.
  pose proof (length_decimal_le (steps 2 seed `mod` 1000) 3 ltac:(lia) ltac:(lia) ltac:(lia)) as Hd1.
  pose proof (digits_graph _ (Text.decimal_digits (steps 2 seed `mod` 1000)%Z ltac:(lia))) as Hd2.
  pose proof (Z.mod_pos_bound (steps 9 seed) 100000 ltac:(lia)).
  pose proof (Z.mod_pos_bound (steps 0 seed) 3 ltac:(lia)).
  set (num := decimal (steps 2 seed `mod` 1000)) in *.
  assert (line_text [label; num; bstr "."; tld] = label ++ num ++ bstr "." ++ tld) as Hline.
  { unfold line_text. cbn [mjoin list_join]. by rewrite app_nil_r. }
  assert (length (line_text [label; num; bstr "."; tld]) ≤ 14) as Hlen.
  { rewrite Hline, !length_app. change (length (bstr ".")) with 1. lia. }
  rewrite write_pieces_ok by (cbn [length]; lia). cbn [app fst].
  eexists. split; [done|]. split; cbn [d_status d_host d_method d_cseq]; [lia| |by apply Hmethods|lia].
  case_match; [|by evaluate]. split; [done|]. rewrite Hline.
  repeat (apply Forall_app; split); try done. by evaluate.
Qed.

(** ** Header lines without their line break *)

Definition header_texts (d : SipDraw) : list bytes :=
  [ bstr "Via: SIP/2.0/UDP " ++ d_host d ++ bstr ":5060;branch=z9hG4bK" ++ hex08 (d_branch d) ++ bstr ";rport";
    bstr "From: <sip:caller@" ++ d_host d ++ bstr ">;tag=" ++ hex08 (d_from_tag d);
    bstr "To: <sip:callee@" ++ d_host d ++ bstr ">;tag=" ++ hex08 (d_to_tag d);
    bstr "Call-ID: " ++ hex08 (d_call_id d) ++ bstr "@" ++ d_host d;
    bstr "CSeq: " ++ decimal (d_cseq d) ++ bstr " " ++ d_method d ].

Definition printable (c : Z) : Prop := (32 ≤ c ≤ 126)%Z.
#[export] Instance printable_dec c : Decision (printable c).
Proof. unfold printable. apply _. Defined.

(** What can stand on a header line. *)
Definition text_ok (l : bytes) : Prop := l <> [] /\ Forall printable l.
#[export] Instance text_ok_dec l : Decision (text_ok l).
Proof. unfold text_ok. apply _. Defined.

Lemma graph_printable l : Forall graph l -> Forall printable l.
Proof. intros H. eapply Forall_impl; [exact H|]. unfold graph, printable. lia. Qed.

Lemma hex08_ok v : length (hex08 v) = 8 /\ Forall printable (hex08 v).
Proof.
  split; [done|]. unfold hex08. apply Forall_fmap, Forall_forall. intros i _. cbn.
  pose proof (land_range 4 (Z.shiftr v (4 * i)) 15) as H. unfold hex_digit, printable.
  rewrite (Z.land_ones _ 4) in * by lia. pose proof (Z.mod_pos_bound (Z.shiftr v (4 * i)) (2 ^ 4)).
  case_decide; lia.
Qed.

Lemma text_app p l : text_ok p -> Forall printable l -> text_ok (p ++ l).
Proof. intros [Hne Hp] Hl. split; [by destruct p|]. by apply Forall_app. Qed.

Lemma header_texts_ok d : draw_ok d -> Forall text_ok (header_texts d).
Proof.
  intros [Hs [_ Hh] [_ Hm] Hc]. apply graph_printable in Hh, Hm.
  pose proof (graph_printable _ (digits_graph _ (Text.decimal_digits (d_cseq d) ltac:(lia)))) as Hd.
  unfold header_texts.
  repeat (apply Forall_cons; split); [..|by constructor].
  all: apply text_app; [by evaluate|].
  all: repeat (apply Forall_app; split); try first [done|apply hex08_ok|by evaluate].
Qed.

Lemma mandatory_texts d :
  line_text <$> mandatory_lines d = (fun l => l ++ CRLF) <$> header_texts d.
Proof.
  unfold line_text, mandatory_lines, header_texts. cbn [fmap list_fmap mjoin list_join].
  by rewrite <- !app_assoc, !app_nil_r.
Qed.

Ltac literal_lengths :=
  repeat match goal with |- context [length (bstr ?s)] =>
    let n := eval vm_compute in (length (bstr s)) in change (length (bstr s)) with n end;
  change (length CRLF) with 2.

Lemma header_texts_length d :
  draw_ok d -> Forall (fun l => length (l ++ CRLF) ≤ 128) (header_texts d)
  /\ length (mjoin ((fun l => l ++ CRLF) <$> header_texts d)) ≤ 218.
Proof.
  intros [_ [Hh _] [Hm _] Hc]. pose proof (length_decimal_le (d_cseq d) 6) as Hd.
  specialize (Hd ltac:(lia) ltac:(lia) ltac:(lia)).
  assert (forall v, length (hex08 v) = 8) as Hx by done.
  unfold header_texts. cbn [fmap list_fmap mjoin list_join]. split.
  - repeat (apply Forall_cons; split); [..|by constructor].
    all: rewrite !length_app, ?Hx; literal_lengths; lia.
  - rewrite !length_app, !Hx. literal_lengths. change (length []) with 0. lia.
Qed.

(** ** The whole prefix *)

Lemma sip_fragment_ok padding :
  exists p, sip_fragment padding = Ok p /\ length p = length padding /\ bytes_ok p.
Proof.
  unfold sip_fragment. set (t := length FRAG `min` length padding).
  assert (length (take t FRAG) = t) as Ht by (rewrite length_take; lia).
  rewrite copy_first, bind_Ok_eq by (rewrite ?Ht; lia). rewrite fill_rest, bind_Ok_eq by done.
  rewrite length_drop, Ht. set (p := take t FRAG ++ replicate (length padding - t) 32%Z).
  assert (length p = length padding) as Hp by (unfold p; rewrite length_app, length_replicate; lia).
  assert (bytes_ok p) as Hb.
  { apply Forall_app. split; [apply Forall_take; by evaluate|]. apply replicate_bytes. by evaluate. }
  clearbody p. case_decide; [|by exists p].
  rewrite update_ok, bind_Ok_eq by lia. rewrite update_ok by (rewrite length_insert; lia).
  eexists. split; [done|]. rewrite !length_insert. split; [done|].
  repeat (apply Forall_insert; [|by evaluate]). done.
Qed.

Definition crlf_lines (ls : list bytes) : bytes := mjoin ((fun l => l ++ CRLF) <$> ls).

(** The text of the imitation: a status line, a prefix of the mandatory header
    lines, and, when all of them are there, a content length. *)
Definition sip_text (j k : nat) (d : SipDraw) (cl : bytes) : bytes :=
  status_line j ++ crlf_lines (take k (header_texts d)) ++ cl.

(** A content length declares the blanks and the payload; below 280 bytes it
    may be missing. *)
Definition content_ok (n rest : nat) (k : nat) (cl : bytes) : Prop :=
  (cl = [] /\ n < 280)
  \/ exists sws, (sws = 1 \/ sws = 2) /\ cl = content_line sws rest /\ 5 ≤ k.

Lemma sip_finish w rest :
  2 ≤ length rest ->
  ('(padding, pos) ← (if decide (length w + 2 ≤ length (w ++ rest)) then
       padding ← copy_at (w ++ rest) (length w) (length w + 2) CRLF;
       Ok (padding, length w + 2)
     else Ok (w ++ rest, length w));
   fill_from padding pos 32)
  = Ok (w ++ CRLF ++ replicate (length rest - 2) 32%Z).
Proof.
  intros Hr. rewrite length_app, decide_True by lia.
  rewrite copy_next, !bind_Ok_eq by done. rewrite fill_rest by (rewrite length_app; done).
  rewrite <- app_assoc, length_drop. done.
Qed.

Lemma crlf_lines_take k d :
  mjoin (line_text <$> take k (mandatory_lines d)) = crlf_lines (take k (header_texts d)).
Proof. unfold crlf_lines. by rewrite !fmap_take, mandatory_texts. Qed.

Lemma mandatory_fits d :
  draw_ok d -> Forall (fun l => length (line_text l) ≤ 128) (mandatory_lines d)
  /\ length (mjoin (line_text <$> mandatory_lines d)) ≤ 218.
Proof.
  intros Hd. destruct (header_texts_length d Hd) as [H1 H2].
  assert (Forall (fun l => length l ≤ 128) (line_text <$> mandatory_lines d)) as H.
  { rewrite mandatory_texts. by apply Forall_fmap. }
  split; [by apply Forall_fmap in H|]. by rewrite mandatory_texts.
Qed.

(** After the status line. *)
Lemma sip_headers d total w rest :
  draw_ok d -> length w ≤ 21 -> 2 ≤ length rest -> length w + length rest < total ->
  (Z.of_nat total < 2 ^ 64)%Z ->
  exists s ok k cl m, put_lines (mandatory_lines d) (cursor w rest) = Ok (s, ok)
    /\ (if (ok : bool) then put_content_length [1; 2] total s else Ok s)
    = Ok (cursor (w ++ crlf_lines (take k (header_texts d)) ++ cl) m)
    /\ length w + length (crlf_lines (take k (header_texts d)) ++ cl) + length m = length w + length rest
    /\ 2 ≤ length m
    /\ content_ok (length w + length rest) (total - (length w + length rest) + (length m - 2)) k cl.
Proof.
  intros Hd Hw Hr Hlt Ht. destruct (mandatory_fits d Hd) as [Hfit Hlen].
  destruct (put_lines_cases (mandatory_lines d) w rest) as (k & ok & E & Hok & Hk & Hall).
  rewrite crlf_lines_take in *. eexists _, ok.
  set (hs := crlf_lines (take k (header_texts d))) in *.
  assert (length hs + 2 ≤ length rest) as Hhs.
  { destruct Hk as [Hk|Hk]; [|done]. unfold hs. rewrite Hk. cbn. lia. }
  destruct ok.
  - specialize (Hok eq_refl). assert (5 ≤ k) as Hk5.
    { apply (f_equal length) in Hok. rewrite length_take in Hok. cbn in Hok. lia. }
    assert (length hs ≤ 218) as Hhs' by (unfold hs; rewrite <- crlf_lines_take, Hok; done).
    destruct (put_content_length_cases total (w ++ hs) (drop (length hs) rest))
      as [[E' Hno]|(sws & body & Hs & E' & Hl & Hbody)]; [rewrite length_app, length_drop; lia|done| |];
      rewrite ?length_drop in *.
    + exists k, [], (drop (length hs) rest). rewrite app_nil_r, length_drop. fold hs. split_and!; [exact E|exact E'|lia|lia|].
      left. split; [done|]. pose proof (decimal_digits_le total 20 ltac:(lia) ltac:(lia) ltac:(lia)). lia.
    + exists k, (content_line sws body), (drop (length (content_line sws body)) (drop (length hs) rest)).
      fold hs. rewrite !length_drop, !length_app in *. rewrite <- app_assoc in E'. split_and!; [exact E|exact E'|lia|lia|].
      right. exists sws. split; [done|]. split; [|done]. f_equal. lia.
  - exists k, [], (drop (length hs) rest). rewrite app_nil_r, length_drop. fold hs. split_and!; [exact E|done|lia|lia|].
    left. split; [done|]. destruct (decide (length w + length rest < 280)); [done|].
    specialize (Hall Hfit ltac:(lia)). done.
Qed.

Lemma put_status_first i rest :
  i < 3 ->
  (exists j, j < 3 /\ put_status (seq 0 (length STATUS)) i (rest, 0)
     = Ok (cursor (status_line j) (drop (length (status_line j)) rest), true)
     /\ length (status_line j) + 2 ≤ length rest)
  \/ (put_status (seq 0 (length STATUS)) i (rest, 0) = Ok (rest, 0, false) /\ length rest < 23).
Proof.
  intros Hi. destruct (put_status_cases (seq 0 (length STATUS)) i [] rest)
    as [(j & Hj & E & Hl)|[E Hl]]; [by repeat constructor|done| |].
  - left. exists j. by split_and!.
  - right. split; [exact E|]. by apply Hl.
Qed.

(** ** Reading a SIP message *)

(** Up to the next CR LF. *)
Fixpoint read_line (b : bytes) : option (bytes * bytes) :=
  match b with
  | [] => None
  | x :: b' =>
      match b' with
      | [] => None
      | y :: rest =>
          if decide (x = 13 /\ y = 10)%Z then Some ([], rest)
          else '(l, r) ← read_line b'; Some (x :: l, r)
      end
  end.

(** Lines up to the blank one. *)
Fixpoint read_headers (fuel : nat) (b : bytes) : option (list bytes * bytes) :=
  match fuel with
  | O => None
  | S fuel =>
      '(l, rest) ← read_line b;
      if decide (l = []) then Some ([], rest)
      else '(ls, body) ← read_headers fuel rest; Some (l :: ls, body)
  end.

Record SipMessage : Set := mkSipMessage {
  start_line : bytes; headers : list (bytes * bytes); sip_body : bytes;
}.

Definition parse_sip (b : bytes) : option SipMessage :=
  '(start, rest) ← read_line b;
  '(ls, body) ← read_headers (length rest) rest;
  hs ← mapM (split_once 58%Z) ls;
  Some (mkSipMessage start hs body).

(** The values of the content lengths of a message. *)
Definition content_lengths (m : SipMessage) : list (option Z) :=
  (fun h => parse_uint (2 ^ 64 - 1) (trim (snd h)))
  <$> filter (fun h => fst h = bstr "Content-Length") (headers m).

Definition SIP_HEADERS : list bytes :=
  bstr <$> ["Via"; "From"; "To"; "Call-ID"; "CSeq"; "Content-Length"]%string.

(** A line of a message: neither empty nor with a carriage return. *)
Definition line_ok (l : bytes) : Prop := l <> [] /\ 13%Z ∉ l.

Lemma printable_no_cr l : Forall printable l -> 13%Z ∉ l.
Proof. intros H Hin. eapply Forall_forall in Hin; [|exact H]. unfold printable in Hin. lia. Qed.

Lemma text_line_ok l : text_ok l -> line_ok l.
Proof. intros [Hne Hp]. split; [done|by apply printable_no_cr]. Qed.

Lemma read_line_app l r : 13%Z ∉ l -> read_line (l ++ CRLF ++ r) = Some (l, r).
Proof.
  induction l as [|x l IH]; [done|]. intros [Hx Hl]%not_elem_of_cons. specialize (IH Hl).
  destruct (l ++ CRLF ++ r) as [|y rest] eqn:E; [by destruct l|].
  cbn [app]. rewrite E. cbn [read_line]. rewrite decide_False by lia.
  cbn [read_line] in IH. by rewrite IH.
Qed.

Lemma read_headers_lines ls body fuel :
  Forall line_ok ls -> length ls < fuel ->
  read_headers fuel (crlf_lines ls ++ CRLF ++ body) = Some (ls, body).
Proof.
  intros Hls. revert fuel. induction Hls as [|l ls [Hne Hl] _ IH]; intros [|fuel] Hf; cbn in Hf; try lia.
  - done.
  - cbn [read_headers]. change (crlf_lines (l :: ls)) with ((l ++ CRLF) ++ crlf_lines ls).
    rewrite <- !app_assoc, read_line_app by done. cbn [mbind option_bind].
    rewrite decide_False by done. rewrite IH by lia. done.
Qed.

Lemma split_header name v : 58%Z ∉ name -> split_once 58 (name ++ 58%Z :: v) = Some (name, v).
Proof. intros Hn. by apply split_once_spec. Qed.

Lemma header_names d :
  Forall2 (fun t name => exists v, split_once 58 t = Some (name, v)) (header_texts d) (take 5 SIP_HEADERS).
Proof.
  unfold header_texts, SIP_HEADERS. cbn [take fmap list_fmap].
  change (bstr "Via: SIP/2.0/UDP ") with (bstr "Via" ++ 58%Z :: bstr " SIP/2.0/UDP ").
  change (bstr "From: <sip:caller@") with (bstr "From" ++ 58%Z :: bstr " <sip:caller@").
  change (bstr "To: <sip:callee@") with (bstr "To" ++ 58%Z :: bstr " <sip:callee@").
  change (bstr "Call-ID: ") with (bstr "Call-ID" ++ 58%Z :: bstr " ").
  change (bstr "CSeq: ") with (bstr "CSeq" ++ 58%Z :: bstr " ").
  repeat (apply Forall2_cons; split); [..|by constructor].
  all: rewrite <- app_assoc; eexists; apply split_header.
  all: apply (bool_decide_unpack _); vm_compute; exact I.
Qed.

Lemma mapM_names {A B C} (f : A -> option (B * C)) l ns :
  Forall2 (fun t name => exists v, f t = Some (name, v)) l ns ->
  exists hs, Forall2 (fun t h => f t = Some h) l hs /\ hs.*1 = ns.
Proof.
  induction 1 as [|t name l ns (v & E) _ (hs & IH & Hns)]; [by exists []|].
  exists ((name, v) :: hs). split; [by constructor|]. cbn. by rewrite Hns.
Qed.

Definition content_text (sws body : nat) : bytes := content_name sws ++ decimal (Z.of_nat body).

Lemma content_line_text sws body : content_line sws body = crlf_lines [content_text sws body].
Proof.
  unfold content_line, content_text, line_text, crlf_lines. cbn [mjoin list_join fmap list_fmap].
  by rewrite <- !app_assoc, app_nil_r.
Qed.

Lemma trim_blank s : trim (32%Z :: s) = trim s.
Proof. done. Qed.

Lemma content_text_spec sws body :
  sws = 1 \/ sws = 2 -> (Z.of_nat body < 2 ^ 64)%Z ->
  text_ok (content_text sws body)
  /\ exists v, split_once 58 (content_text sws body) = Some (bstr "Content-Length", v)
       /\ parse_uint (2 ^ 64 - 1) (trim v) = Some (Z.of_nat body).
Proof.
  intros Hs Hb.
  assert (0 ≤ Z.of_nat body < 2 ^ 64)%Z as Hr by lia.
  split.
  - apply text_app; [destruct Hs as [-> | ->]; by evaluate|].
    by apply graph_printable, digits_graph, Text.decimal_digits.
  - assert (58%Z ∉ bstr "Content-Length") as Hn by (apply (bool_decide_unpack _); vm_compute; exact I).
    exists (replicate sws 32%Z ++ decimal (Z.of_nat body)). split.
    + rewrite <- (split_header _ _ Hn). f_equal. unfold content_text.
      destruct Hs as [-> | ->]; done.
    + assert (trim (replicate sws 32%Z ++ decimal (Z.of_nat body)) = decimal (Z.of_nat body)) as ->.
      { destruct Hs as [-> | ->]; cbn [replicate app]; rewrite ?trim_blank; by apply trim_decimal. }
      apply parse_uint_decimal; lia.
Qed.

Lemma crlf_lines_app ls1 ls2 : crlf_lines (ls1 ++ ls2) = crlf_lines ls1 ++ crlf_lines ls2.
Proof. unfold crlf_lines. by rewrite fmap_app, join_app. Qed.

Lemma length_crlf_lines ls : length ls ≤ length (crlf_lines ls).
Proof.
  induction ls as [|l ls IH]; [done|]. change (crlf_lines (l :: ls)) with ((l ++ CRLF) ++ crlf_lines ls).
  rewrite !length_app. cbn [length CRLF]. lia.
Qed.

(** A datagram built of a start line, header lines and a body reads as them. *)
Lemma parse_sip_spec start ls body hs :
  13%Z ∉ start -> Forall line_ok ls -> mapM (split_once 58%Z) ls = Some hs ->
  parse_sip ((start ++ CRLF) ++ crlf_lines ls ++ CRLF ++ body) = Some (mkSipMessage start hs body).
Proof.
  intros Hs Hls Hhs. unfold parse_sip. rewrite <- (app_assoc start), read_line_app by done.
  cbn [mbind option_bind]. rewrite read_headers_lines; [|done|].
  - cbn [mbind option_bind]. rewrite Hhs. done.
  - rewrite !length_app. pose proof (length_crlf_lines ls). cbn [length CRLF]. lia.
Qed.

Definition START_LINES : list bytes := (fun s => bstr "SIP/2.0 " ++ s) <$> STATUS.

Lemma status_line_start j : j < 3 -> exists s, status_line j = s ++ CRLF /\ s ∈ START_LINES /\ Forall printable s.
Proof.
  intros Hj. exists (START_LINES !!! j).
  do 3 (destruct j as [|j]; [split; [done|]; split; [|by evaluate];
    apply (bool_decide_unpack _); vm_compute; exact I|]). lia.
Qed.

(** The values of the content lengths among the header fields. *)
Lemma content_lengths_names m :
  Forall (fun h => fst h <> bstr "Content-Length") (headers m) -> content_lengths m = [].
Proof.
  unfold content_lengths. induction 1 as [|h hs Hh _ IH]; [done|]. by rewrite filter_cons_False.
Qed.

Definition sip_frames (rest : nat) (n : nat) (data : bytes) (m : SipMessage) : Prop :=
  start_line m ∈ START_LINES
  /\ (headers m).*1 `prefix_of` SIP_HEADERS
  /\ Forall (fun o => o = Some (Z.of_nat (length (sip_body m)))) (content_lengths m)
  /\ (280 ≤ n -> (headers m).*1 = SIP_HEADERS)
  /\ sip_body m = replicate rest 32%Z ++ drop n data.

Lemma content_lengths_app l1 l2 start body :
  content_lengths (mkSipMessage start (l1 ++ l2) body)
  = content_lengths (mkSipMessage start l1 body) ++ content_lengths (mkSipMessage start l2 body).
Proof. unfold content_lengths. cbn [headers]. by rewrite filter_app, fmap_app. Qed.

Lemma other_names start hs body k :
  hs.*1 = take k (take 5 SIP_HEADERS) -> content_lengths (mkSipMessage start hs body) = [].
Proof.
  intros E. apply content_lengths_names. cbn [headers].
  assert (Forall (fun n => n <> bstr "Content-Length") (hs.*1)) as H by (rewrite E; apply Forall_take; by evaluate).
  exact (proj1 (Forall_fmap _ _ _) H).
Qed.

Lemma sip_text_frames j k d cl rest n data :
  draw_ok d -> j < 3 -> n < length data -> rest ≤ n -> (Z.of_nat (length data) < 2 ^ 64)%Z ->
  content_ok n (length data - n + rest) k cl ->
  exists m, parse_sip ((sip_text j k d cl ++ CRLF ++ replicate rest 32%Z) ++ drop n data) = Some m
    /\ sip_frames rest n data m.
Proof.
  intros Hd Hj Hn Hrest Hl Hcl. destruct (status_line_start j Hj) as (s & Es & Hs & Hps).
  pose proof (header_texts_ok d Hd) as Htexts.
  destruct (mapM_names (split_once 58) (take k (header_texts d)) (take k (take 5 SIP_HEADERS)))
    as (hs & Hhs & Hnames); [by apply Forall2_take, header_names|].
  set (body := replicate rest 32%Z ++ drop n data).
  assert (length body = length data - n + rest) as Hbody
    by (unfold body; rewrite length_app, length_replicate, length_drop; lia).
  unfold sip_text. rewrite Es, <- !app_assoc. fold body.
  assert (forall ls hs', Forall text_ok ls -> Forall2 (fun t h => split_once 58 t = Some h) ls hs' ->
    parse_sip (s ++ CRLF ++ crlf_lines ls ++ CRLF ++ body) = Some (mkSipMessage s hs' body)) as Hparse.
  { intros ls hs' Hok H2. rewrite (app_assoc s). apply parse_sip_spec; [by apply printable_no_cr| |by apply mapM_Some_2].
    eapply Forall_impl; [exact Hok|apply text_line_ok]. }
  destruct Hcl as [[-> H280]|(sws & Hsws & -> & Hk)].
  - exists (mkSipMessage s hs body). split.
    + rewrite app_nil_l. apply Hparse; [by apply Forall_take|done].
    + split; [done|]. cbn [headers sip_body]. rewrite (other_names _ _ _ k Hnames), Hnames.
      split_and!; [|by constructor|lia|done].
      etrans; [apply prefix_take|]. apply prefix_take.
  - destruct (content_text_spec sws (length data - n + rest)) as (Hc & v & Ev & Ep); [done|lia|].
    exists (mkSipMessage s (hs ++ [(bstr "Content-Length", v)]) body). split.
    + rewrite content_line_text, (app_assoc (crlf_lines _) (crlf_lines _)), <- crlf_lines_app.
      apply Hparse; [apply Forall_app; split; [by apply Forall_take|by constructor]|].
      apply Forall2_app; [done|by constructor].
    + assert ((hs ++ [(bstr "Content-Length", v)]).*1 = SIP_HEADERS) as Hall.
      { rewrite fmap_app, Hnames, !take_ge by (cbn; lia). done. }
      split; [done|]. cbn [headers sip_body]. rewrite Hall. split; [done|].
      split; [|by split]. rewrite content_lengths_app, (other_names _ _ _ k Hnames). cbn [app].
      unfold content_lengths. cbn [headers]. rewrite filter_cons_True by done. cbn [fmap list_fmap filter].
      constructor; [|constructor]. cbn [snd]. by rewrite Ep, Hbody.
Qed.

Lemma printable_bytes l : Forall printable l -> bytes_ok l.
Proof. intros H. eapply Forall_impl; [exact H|]. unfold printable, byte_ok. lia. Qed.

Lemma crlf_lines_bytes ls : Forall text_ok ls -> bytes_ok (crlf_lines ls).
Proof.
  induction 1 as [|l ls [_ Hl] _ IH]; [by constructor|].
  change (crlf_lines (l :: ls)) with ((l ++ CRLF) ++ crlf_lines ls).
  apply Forall_app; split; [|exact IH]. apply Forall_app; split; [by apply printable_bytes|by evaluate].
Qed.

Lemma sip_text_bytes j k d cl n rest m :
  draw_ok d -> j < 3 -> content_ok n rest k cl -> (Z.of_nat rest < 2 ^ 64)%Z ->
  bytes_ok (sip_text j k d cl ++ CRLF ++ replicate m 32%Z).
Proof.
  intros Hd Hj Hcl Hr. destruct (status_line_start j Hj) as (s & Es & _ & Hs).
  unfold sip_text. rewrite Es. repeat (apply Forall_app; split).
  - by apply printable_bytes.
  - by evaluate.
  - by apply crlf_lines_bytes, Forall_take, header_texts_ok.
  - destruct Hcl as [[-> _]|(sws & Hsws & -> & _)]; [by constructor|].
    rewrite content_line_text. apply crlf_lines_bytes. constructor; [|constructor]. by apply content_text_spec.
  - by evaluate.
  - by apply replicate_bytes.
Qed.

Section secret.
Context (secret : Z).

Definition sip_prefix_ok (total n : nat) (p : bytes) : Prop :=
  n < 23 \/ exists d j k cl m, draw_ok d /\ j < 3 /\ p = sip_text j k d cl ++ CRLF ++ replicate m 32%Z
    /\ content_ok n (total - n + m) k cl.

Lemma sip_writes data n :
  0 < n -> n < length data -> (Z.of_nat (length data) < 2 ^ 64)%Z ->
  exists p, apply_sip_padding secret data n = Ok (p ++ drop n data) /\ length p = n
    /\ bytes_ok p /\ sip_prefix_ok (length data) n p.
Proof.
  intros Hn Hl Ht. unfold apply_sip_padding, with_padding. rewrite decide_True by lia.
  assert (length (take n data) = n) as Hp by (rewrite length_take; lia).
  destruct (take n data) as [|x xs]; [cbn in Hp; lia|]. set (padding := x :: xs) in *. clearbody padding.
  destruct (sip_draw_ok secret (drop n data)) as (d & -> & Hd). rewrite bind_Ok_eq.
  destruct (put_status_first (d_status d) padding (ok_status d Hd)) as [(j & Hj & E & Hroom)|[E Hroom]];
    rewrite E, bind_Ok_eq.
  - pose proof (status_line_length j Hj) as Hs. cbn [negb].
    assert (length (drop (length (status_line j)) padding) = n - length (status_line j)) as Hdrop
      by (rewrite length_drop; lia).
    destruct (sip_headers d (length data) (status_line j) (drop (length (status_line j)) padding))
      as (s & ok & k & cl & m & El & Eh & Hlen & Hm & Hcl); [done|lia|lia|lia|done|].
    rewrite Hdrop in *. rewrite El, bind_Ok_eq, Eh, bind_Ok_eq.
    unfold cursor. rewrite sip_finish, bind_Ok_eq by done. eexists. split; [done|]. split.
    + rewrite !length_app, length_replicate in *. change (length CRLF) with 2. lia.
    + replace (length (status_line j) + (n - length (status_line j))) with n in Hcl by lia.
      fold (sip_text j k d cl). split; [eapply (sip_text_bytes j k d cl); (done || lia)|].
      right. by exists d, j, k, cl, (length m - 2).
  - destruct (sip_fragment_ok padding) as (p & Ep & Hlp & Hb). cbn [negb fst].
    rewrite Ep, bind_Ok_eq. exists p. split; [done|]. split; [lia|]. split; [done|]. left. lia.
Qed.
End secret.
