(* ===== verification/ProxyProps.v ===== *)
(** * What an observer and the receiver see of a transformed packet

    The theorems on [apply_cb_transform] and on the imitations it draws. *)
From S2P Require Import Prelude Text ProxyParams ProxyPackets ProxyTransform ProxyCover ProxySip.

(** An echo that the proxy has remembered from a query. *)
Definition observed (e : DnsEcho) : Prop :=
  exists q, bytes_ok q /\ parse_dns_query_echo q = Ok (Some e).

Lemma observed_ok e : observed e -> echo_ok e.
Proof.
  intros (q & Hq & E). split; [by eapply echo_wire_name|].
  destruct (parse_dns_query_echo_total q Hq) as (o & E' & Ho). rewrite E in E'. injection E' as <-.
  by destruct (Ho e eq_refl) as (? & ? & _ & ? & ? & _).
Qed.

(** The receiver still finds the packet where it was. *)
Lemma is_packet_rewrites p t data data' :
  padding_size t p ≤ length data -> rewrites (padding_size t p) data data' ->
  is_packet p data' t = is_packet p data t.
Proof.
  intros Hp H. unfold is_packet, header_at.
  by rewrite (rewrites_length _ _ _ Hp H), (rewrites_payload _ _ _ H).
Qed.

Section secret.
Context (secret : Z).

Lemma stun_short data n :
  bytes_ok data -> 0 < n -> n < 20 -> n ≤ length data ->
  exists data', apply_stun_padding secret data n = Ok data' /\ rewrites n data data'.
Proof.
  intros Hd Hn Hlt Hl. unfold apply_stun_padding.
  assert (length (take n data) = n) as Ht by (rewrite length_take; lia).
  unfold with_padding. rewrite decide_True by done.
  destruct (take n data) as [|x xs] eqn:E; [cbn in Ht; lia|].
  rewrite (decide_False (P := 20 < n)) by lia. cbv zeta. unfold xor_mapped_address, software.
  cbn [Nat.sub]. rewrite !decide_False, bind_Ok_eq, decide_False, bind_Ok_eq by lia.
  fold (stun_txid secret (drop n data)).
  match goal with |- context [take (_ `min` length ?h) ?h] =>
    change h with (stun_header 0 (stun_txid secret (drop n data))) end.
  rewrite length_stun_header. replace (length (x :: xs) `min` 20) with n by lia.
  assert (length (take n (stun_header 0 (stun_txid secret (drop n data)))) = n) as Hh
    by (rewrite length_take, length_stun_header; lia).
  rewrite copy_first, bind_Ok_eq by lia.
  rewrite decide_False by (rewrite length_app, length_drop; lia). rewrite bind_Ok_eq.
  eexists. split; [done|]. rewrite (drop_ge (x :: xs)) by lia. rewrite app_nil_r. eexists. split; [done|].
  split; [done|]. apply Forall_take. unfold stun_header, stun_txid.
  repeat (apply Forall_app; split); first [apply be16_bytes|apply be32_ok].
Qed.

Lemma stun_rewrites data n :
  bytes_ok data -> 0 < n -> n ≤ length data ->
  exists data', apply_stun_padding secret data n = Ok data' /\ rewrites n data data'.
Proof.
  intros Hd Hn Hl. destruct (decide (n < 20)); [by apply stun_short|].
  destruct (stun_parses secret data n) as (data' & _ & H & Hr & _); [done|lia|done|]. by exists data'.
Qed.

Lemma sip_rewrites data n :
  0 < n -> n < length data -> (Z.of_nat (length data) < 2 ^ 64)%Z ->
  exists data', apply_sip_padding secret data n = Ok data' /\ rewrites n data data'.
Proof.
  intros Hn Hl Ht. destruct (sip_writes secret data n Hn Hl Ht) as (p & E & Hp & Hb & _).
  eexists. split; [exact E|]. by exists p.
Qed.

Lemma dns_rewrites data n echo :
  bytes_ok data -> 0 < n -> n ≤ length data -> (forall e, echo = Some e -> echo_ok e) ->
  exists data', apply_dns_padding data n echo = Ok data' /\ rewrites n data data'.
Proof.
  intros Hd Hn Hl He. destruct (decide (n < 32)) as [Hlt|Hge].
  - destruct (dns_null_writes data n Hd Hn Hlt Hl) as (p & Hw). apply writes_rewrites in Hw as (data' & E & Hr).
    exists data'. split; [|done]. unfold apply_dns_padding. rewrite decide_False by lia.
    by rewrite (decide_True (P := n < DNS_OPT_MIN)) by done.
  - destruct (dns_writes data n echo Hd) as (tx0 & tx1 & qname & ty0 & ty1 & _ & _ & _ & Hw); [lia|done|done|].
    by apply writes_rewrites in Hw.
Qed.

Lemma quic_rewrites data n :
  0 < n -> n ≤ length data ->
  exists data' h, apply_quic_padding_short secret data n = Ok data' /\ rewrites n data data'
    /\ head data' = Some h /\ quic_short_header h.
Proof.
  intros Hn Hl. destruct (quic_writes secret data n Hn Hl) as (h & rest & Hh & E & Hlen & Hb).
  eexists _, h. split; [exact E|]. split; [by eexists|]. by split.
Qed.
End secret.

(** What a transformed datagram must keep: the length, the payload, and, when
    nothing was transformed, every byte. *)
Definition keeps (p : CbParams) (proto : Protocol) (data data' : bytes) (t : option CbPacketType) : Prop :=
  match t with
  | None => data' = data
  | Some t =>
      let n := padding_size t p in
      0 < n < length data /\ length data' = length data /\ drop n data' = drop n data
      /\ is_packet p data' t = true
      /\ (proto = Quic -> exists h, head data' = Some h /\ quic_short_header h)
  end.

Lemma transform_rewrites secret data p proto echo t :
  bytes_ok data -> (Z.of_nat (length data) < 2 ^ 64)%Z -> (forall e, echo = Some e -> echo_ok e) ->
  classify_cb_packet data p = Ok (Some t) -> is_packet p data t = true ->
  0 < padding_size t p -> padding_size t p < length data ->
  exists data', apply_cb_transform secret data p proto echo = Ok (data', true) /\ bytes_ok data'
    /\ keeps p proto data data' (Some t).
Proof.
  intros Hd Hlen He Hc Ht H0 Hl. unfold apply_cb_transform. rewrite Hc, bind_Ok_eq.
  rewrite decide_False by lia. set (n := padding_size t p) in *.
  assert (exists data',
    match proto with
    | Quic => apply_quic_padding_typed secret data n t
    | Dns => apply_dns_padding data n echo
    | _ => apply_padding secret data n proto
    end = Ok data' /\ rewrites n data data'
    /\ (proto = Quic -> exists h, head data' = Some h /\ quic_short_header h)) as (data' & E & Hr & Hq).
  { destruct proto.
    - destruct (quic_rewrites secret data n) as (data' & h & E & Hr & Hh); [done|lia|].
      exists data'. unfold apply_quic_padding_typed. rewrite decide_False by lia.
      split; [by destruct t|]. split; [done|]. intros _. by exists h.
    - destruct (dns_rewrites data n echo) as (data' & E & Hr); [done|done|lia|done|]. by exists data'.
    - destruct (stun_rewrites secret data n) as (data' & E & Hr); [done|done|lia|].
      exists data'. unfold apply_padding. by rewrite decide_False by lia.
    - destruct (sip_rewrites secret data n) as (data' & E & Hr); [done|lia|done|].
      exists data'. unfold apply_padding. by rewrite decide_False by lia. }
  exists data'. rewrite E, bind_Ok_eq. split; [done|]. split; [by eapply rewrites_bytes|].
  split; [done|]. fold n. rewrite (rewrites_length n data data') by (lia || done).
  rewrite (rewrites_payload n data data') by done. split_and!; [done..| |done].
  rewrite (is_packet_rewrites p t data data'); [done|fold n; lia|done].
Qed.

(** The type found first is the same when each is a type of the other datagram. *)
Lemma find_both {A} (f g : A -> bool) l x y :
  List.find f l = Some x -> List.find g l = Some y -> g x = true -> f y = true -> x = y.
Proof.
  induction l as [|a l IH]; [done|]. cbn. destruct (f a) eqn:Fa, (g a) eqn:Ga; intros Ef Eg Gx Fy; try congruence. by apply IH.
Qed.

(** A type whose padding is no shorter has its header where nothing was rewritten. *)
Lemma is_packet_behind p data data' n t :
  length data' = length data -> drop n data' = drop n data -> n ≤ padding_size t p -> is_packet p data' t = is_packet p data t.
Proof.
  intros Hl Hd Hn. unfold is_packet, header_at. rewrite Hl. replace (padding_size t p) with (n + (padding_size t p - n)) by lia.
  by rewrite <- !drop_drop, Hd.
Qed.

(** What the receiver makes of a rewritten packet of type [t]. *)
Lemma classify_after p proto data data' t :
  List.find (is_packet p data) all_types = Some t -> keeps p proto data data' (Some t) ->
  exists t', classify_cb_packet data' p = Ok (Some t')
    /\ (t' = t \/ padding_size t' p < padding_size t p /\ is_packet p data' t' = true).
Proof.
  intros E (_ & Hl & Hd & Ht & _). rewrite classify_find.
  destruct (List.find (is_packet p data') all_types) as [t'|] eqn:E'.
  - exists t'. split; [done|]. apply find_Some_is in E' as Ht'. destruct (decide (padding_size t' p < padding_size t p)) as [?|Hge]; [by right|left].
    symmetry. eapply find_both; [exact E|exact E'|done|]. rewrite <- Ht'. symmetry. eapply is_packet_behind; [done|exact Hd|lia].
  - exfalso. assert (In t all_types) as Hin by (destruct t; cbn; tauto). by rewrite (find_none _ _ E' t Hin) in Ht.
Qed.

(** C25: the transform is safe.  On any datagram shorter than 2^64 bytes, with any
    parameters, protocol and remembered query, [apply_cb_transform] returns
    without panicking; when it reports no change the datagram is untouched, and
    otherwise a packet was recognised and only its padding was rewritten: same
    length, same payload, and for QUIC the first byte is that of a 1-RTT short
    header.  The receiver's classification of what is sent names a packet type
    again: the same one, unless a type with a shorter padding also has the size
    of the datagram and finds a header of its own inside the new padding.  Where
    no type with a shorter padding has that size, it is the same type. *)
Theorem apply_cb_transform_safe (secret : Z) (data : bytes) (p : CbParams) (proto : Protocol)
    (echo : option DnsEcho) :
  bytes_ok data -> (Z.of_nat (length data) < 2 ^ 64)%Z -> (forall e, echo = Some e -> observed e) ->
  exists data' changed t, apply_cb_transform secret data p proto echo = Ok (data', changed)
    /\ bytes_ok data' /\ keeps p proto data data' t
    /\ (changed = true <-> is_Some t)
    /\ forall t0, t = Some t0 ->
         classify_cb_packet data p = Ok (Some t0)
         /\ (exists t1, classify_cb_packet data' p = Ok (Some t1)
              /\ (t1 = t0 \/ padding_size t1 p < padding_size t0 p /\ is_packet p data' t1 = true))
         /\ ((forall u, size_fits (length data) (padding_size u p) u p = true -> padding_size t0 p ≤ padding_size u p) ->
             classify_cb_packet data' p = Ok (Some t0)).
Proof.
  intros Hd Hlen He. pose proof (classify_find data p) as Hc.
  assert (forall e, echo = Some e -> echo_ok e) as He' by (intros e Ee; by apply observed_ok, He).
  destruct (List.find (is_packet p data) all_types) as [t|] eqn:E.
  - destruct (decide (padding_size t p = 0 \/ length data ≤ padding_size t p)) as [Hno|Hyes].
    + exists data, false, None. unfold apply_cb_transform. rewrite Hc, bind_Ok_eq, decide_True by done.
      split; [done|]. split; [done|]. split; [done|]. split; [|done]. split; [done|by intros []].
    + apply find_Some_is in E as Ht.
      destruct (transform_rewrites secret data p proto echo t) as (data' & Ea & Hb & Hk); try done; [lia..|].
      exists data', true, (Some t). split; [done|]. split; [done|]. split; [done|]. split; [by eauto|].
      intros t0 [= <-]. split; [done|]. destruct (classify_after _ _ _ _ _ E Hk) as (t1 & E1 & H1). split; [by exists t1|].
      intros Hu. destruct H1 as [->|[Hlt Hp]]; [done|]. apply andb_prop in Hp as [Hp _].
      assert (length data' = length data) as Hl by apply Hk. rewrite Hl in Hp. specialize (Hu _ Hp). lia.
  - exists data, false, None. unfold apply_cb_transform. rewrite Hc, bind_Ok_eq.
    split; [done|]. split; [done|]. split; [done|]. split; [|done]. split; [done|by intros []].
Qed.

Lemma apply_cb_transform_safe_witness :
  let r := apply_cb_transform 7 test_packet test_params Quic None in
  bytes_ok test_packet
  /\ exists data' t, r = Ok (data', true) /\ keeps test_params Quic test_packet data' (Some t)
       /\ classify_cb_packet data' test_params = Ok (Some t).
Proof.
  assert (bytes_ok test_packet) as H by evaluate. split; [exact H|].
  destruct (apply_cb_transform_safe 7 test_packet test_params Quic None H) as (data' & b & t & E & _ & Hk & Hb & Hc);
    [reflexivity|intros e [=]|].
  assert (b = true) as ->.
  { apply (f_equal (fun r => match r with Ok (_, b) => b | _ => false end)) in E. rewrite <- E.
    vm_compute. reflexivity. }
  destruct (proj1 Hb eq_refl) as [t' ->]. exists data', t'. split; [exact E|]. split; [exact Hk|].
  destruct (Hc t' eq_refl) as (_ & _ & Hs). apply Hs. intros u _. destruct u, t'; vm_compute; apply le_n.
Defined.

(** The exception: a transport packet of 163 bytes, which is the size of a handshake
    initiation behind its shorter padding; the QUIC padding holds an initiation's
    header at its place. *)
Definition confused_params : CbParams :=
  mkCbParams 4 40 70 15 20 20 100 (mkHRange 2019273535 2019273535) (mkHRange 7 7) (mkHRange 8 8) (mkHRange 9 9).
Definition confused_packet : bytes := (replicate 100 0 ++ [9; 0; 0; 0] ++ replicate 59 0)%Z.

Lemma transform_changes_type :
  classify_cb_packet confused_packet confused_params = Ok (Some TransportData)
  /\ (r ← apply_cb_transform 7 confused_packet confused_params Quic None; classify_cb_packet (fst r) confused_params) = Ok (Some HandshakeInit).
Proof. split; vm_compute; reflexivity. Qed.

(** C27: DNS cover is well formed.  With at least 32 bytes of padding and a
    datagram of at most 65,535 bytes, the imitation parses as one DNS response:
    the question of the remembered query with its transaction ID when it fits
    (the root name otherwise), and one OPT record whose option, of a code for
    local use, contains exactly the rest of the datagram, payload included. *)
Theorem dns_cover_parses (data : bytes) (n : nat) (echo : option DnsEcho) :
  bytes_ok data -> 32 ≤ n -> n ≤ length data -> (Z.of_nat (length data) ≤ 65535)%Z ->
  (forall e, echo = Some e -> observed e) ->
  exists data' code k, apply_dns_padding data n echo = Ok data' /\ length data' = length data
    /\ drop n data' = drop n data /\ (65001 ≤ code ≤ 65534)%Z
    /\ let '(txid, qname, qtype) := chosen_question (drop n data) n echo in
       parse_opt_message data' = Some (mkOptMessage txid qname qtype code (replicate k 0%Z ++ drop n data)).
Proof.
  intros Hd Hn Hl Ht He.
  assert (forall e, echo = Some e -> echo_ok e) as He' by (intros e Ee; by apply observed_ok, He).
  destruct (dns_parses data n echo Hd Hn Hl Ht He') as (data' & code & k & E & Hr & Hc & Hp).
  exists data', code, k. split; [done|]. split; [by eapply rewrites_length|].
  split; [by eapply rewrites_payload|]. by split.
Qed.

(** A query for [a.b], as the proxy would remember it. *)
Definition test_query : bytes :=
  [7; 9; 1; 0; 0; 1; 0; 0; 0; 0; 0; 0; 1; 97; 1; 98; 0; 0; 16; 0; 1]%Z.
Definition test_echo : DnsEcho := mkDnsEcho [7; 9]%Z [1; 97; 1; 98; 0]%Z [0; 16]%Z.

Lemma dns_cover_parses_witness :
  let data := test_packet in
  observed test_echo
  /\ exists data' code k, apply_dns_padding data 40 (Some test_echo) = Ok data' /\ length data' = 68
    /\ drop 40 data' = drop 40 data /\ (65001 ≤ code ≤ 65534)%Z
    /\ parse_opt_message data'
       = Some (mkOptMessage [7; 9]%Z [1; 97; 1; 98; 0]%Z [0; 16]%Z code (replicate k 0%Z ++ drop 40 data)).
Proof.
  assert (observed test_echo) as Ho.
  { exists test_query. split; [by evaluate|vm_compute; reflexivity]. }
  split; [exact Ho|].
  assert (bytes_ok test_packet) as H by evaluate.
  apply (dns_cover_parses test_packet 40 (Some test_echo) H); [cbn; lia|cbn; lia|cbn; lia|].
  intros e [= <-]. exact Ho.
Defined.

(** STUN cover is well formed.  With at least 20 bytes of padding the
    imitation reads as a Binding Success Response: cookie, a transaction ID, and
    attributes, each an XOR-MAPPED-ADDRESS of eight bytes or a printable
    SOFTWARE, that fill exactly the length the header declares; from 32 bytes
    on there is at least one. *)
Theorem stun_cover_parses (secret : Z) (data : bytes) (n : nat) :
  bytes_ok data -> 20 ≤ n -> n ≤ length data ->
  exists data' l, apply_stun_padding secret data n = Ok data' /\ length data' = length data
    /\ drop n data' = drop n data
    /\ parse_stun data' = Some (0x0101%Z, stun_txid secret (drop n data), l)
    /\ Forall stun_attr_ok l /\ (32 ≤ n -> l <> []).
Proof.
  intros Hd Hn Hl. destruct (stun_parses secret data n Hd Hn Hl) as (data' & l & E & Hr & H).
  exists data', l. split; [done|]. split; [by eapply rewrites_length|].
  split; [by eapply rewrites_payload|done].
Qed.

Lemma stun_cover_parses_witness :
  let data := test_packet in
  bytes_ok data
  /\ exists data' l, apply_stun_padding 7 data 40 = Ok data' /\ length data' = 68
    /\ drop 40 data' = drop 40 data
    /\ parse_stun data' = Some (0x0101%Z, stun_txid 7 (drop 40 data), l)
    /\ Forall stun_attr_ok l /\ (32 ≤ 40 -> l <> []).
Proof.
  assert (bytes_ok test_packet) as H by evaluate. split; [exact H|].
  apply (stun_cover_parses 7 test_packet 40 H); cbn; lia.
Defined.

(** C26: SIP cover frames.  With at least 23 bytes of padding the imitation reads
    as a SIP response: a status line, a prefix of the mandatory headers in their
    order, a blank line, and a body of blanks and the payload; a content length,
    if there is one, is the length of that body; from 280 bytes on all headers
    and the content length are there. *)
Theorem sip_cover_frames (secret : Z) (data : bytes) (n : nat) :
  23 ≤ n -> n < length data -> (Z.of_nat (length data) < 2 ^ 64)%Z ->
  exists data' m rest, apply_sip_padding secret data n = Ok data' /\ length data' = length data
    /\ parse_sip data' = Some m /\ sip_frames rest n data m.
Proof.
  intros Hn Hl Ht. destruct (sip_writes secret data n) as (p & E & Hp & _ & [|H]); [lia|done|done|lia|].
  destruct H as (d & j & k & cl & m & Hd & Hj & -> & Hcl).
  destruct (sip_text_frames j k d cl m n data) as (msg & Em & Hf); try done.
  { rewrite !length_app, length_replicate in Hp. lia. }
  eexists _, msg, m. split; [exact E|]. split; [rewrite length_app, length_drop; lia|]. by split.
Qed.

Definition sip_packet : bytes := replicate 300 0%Z ++ [4; 0; 0; 0; 1; 2; 3]%Z.

Lemma sip_cover_frames_witness :
  exists data' m rest, apply_sip_padding 7 sip_packet 300 = Ok data' /\ length data' = length sip_packet
    /\ parse_sip data' = Some m /\ sip_frames rest 300 sip_packet m
    /\ (headers m).*1 = SIP_HEADERS.
Proof.
  destruct (sip_cover_frames 7 sip_packet 300) as (data' & m & rest & E & Hl & Hp & Hf);
    [lia|cbn; lia|cbn; lia|].
  exists data', m, rest. split; [exact E|]. split; [exact Hl|]. split; [exact Hp|]. split; [exact Hf|].
  destruct Hf as (_ & _ & _ & Hall & _). apply Hall. lia.
Defined.
