(* ===== verification/ProxyDialog.v ===== *)
(** * SIP dialogs ([src/src/proxy/responder.rs] from line 695)

    What the proxy remembers of a SIP call, the responses it builds from it, and
    the stages of a call.  Text is its UTF-8 bytes. *)
From S2P Require Import Prelude Text ProxyParams ProxyPackets ProxyTransform.

Inductive SipDialogStage : Set := Idle | Invited | Ringing | Established | Terminated.
#[export] Instance stage_eq_dec : EqDecision SipDialogStage.
Proof. solve_decision. Defined.

Record SipDialog : Set := mkSipDialog {
  stage : SipDialogStage; via : list bytes; invite_via : list bytes; from : bytes; to : bytes;
  to_tag : bytes; call_id : bytes; call_id_value : bytes; invite_cseq : bytes; cseq : bytes;
}.

Definition SIP_SCAN_LIMIT : nat := 2048.
Definition SIP_MAX_RESPONSE_SIZE : nat := 512.

(** ** Lines and values *)

(** [line.split('\r').next()]. *)
Definition sip_header_line (line : bytes) : bytes := (span (fun c => negb (bool_decide (c = 13%Z))) line).1.

(** Every line feed follows a carriage return; [prev] is the byte before. *)
Fixpoint crlf_go (prev : Z) (data : bytes) : bool :=
  match data with
  | [] => true
  | b :: data => (negb (bool_decide (b = 10%Z)) || bool_decide (prev = 13%Z)) && crlf_go b data
  end.
Definition sip_uses_crlf_line_endings (data : bytes) : bool := crlf_go 0 data.

Definition sip_header_value (line : bytes) : bytes :=
  match split_once (b8 ":") line with Some (_, value) => trim value | None => trim line end.

Definition sip_cseq_method (line : bytes) : option bytes :=
  match words (sip_header_value line) with _ :: m :: _ => Some m | _ => None end.

Definition sip_dialog_tag (call_id : bytes) : bytes :=
  hex08 (foldl (fun h b => u32 (Z.lxor h b * 0x01000193)) 0x811c9dc5%Z call_id).

Definition is_ascii_alphabetic (c : Z) : bool :=
  bool_decide (65 ≤ c ≤ 90)%Z || bool_decide (97 ≤ c ≤ 122)%Z.

Definition sip_method (data : bytes) : option bytes :=
  let text := take (length data `min` 32) data in
  if negb (utf8_valid text) then None else
  match words text with
  | [] => None
  | method :: _ => if forallb is_ascii_alphabetic method then Some method else None
  end.

(** ** Responses *)

Fixpoint skip_blanks (b : bytes) : bytes :=
  match b with
  | c :: b' => if decide (c = 32 \/ c = 9)%Z then skip_blanks b' else b
  | [] => []
  end.
Fixpoint skip_to_semicolon (b : bytes) : bytes :=
  match b with
  | c :: b' => if decide (c = b8 ";") then b else skip_to_semicolon b'
  | [] => []
  end.

(** The outer loop: one turn per byte is enough. *)
Fixpoint to_has_tag_loop (fuel : nat) (b : bytes) : bool :=
  match fuel, b with
  | S fuel, c :: b =>
      if negb (bool_decide (c = b8 ";")) then to_has_tag_loop fuel b else
      let b := skip_blanks b in
      if has_prefix_nocase (bstr "tag") b
         && match skip_blanks (drop 3 b) with c :: _ => bool_decide (c = b8 "=") | [] => false end
      then true
      else to_has_tag_loop fuel (skip_to_semicolon b)
  | _, _ => false
  end.

Definition sip_to_has_tag (to : bytes) : bool :=
  let b := match split_once (b8 ">") to with Some (_, r) => r | None => to end in
  to_has_tag_loop (length b) b.

(** [if !line.is_empty() { put line, CR LF }]. *)
Definition put_header (line : bytes) : bytes := if decide (line = []) then [] else line ++ CRLF.

Definition to_line (d : SipDialog) (add_to_tag : bool) : bytes :=
  if add_to_tag && negb (sip_to_has_tag (to d)) then to d ++ bstr ";tag=" ++ to_tag d else to d.

Definition build_sip_response (d : SipDialog) (status_line : bytes) (add_to_tag : bool) : bytes :=
  status_line ++ CRLF ++ mjoin ((fun v => v ++ CRLF) <$> via d) ++ put_header (from d)
  ++ (if decide (to d = []) then [] else to_line d add_to_tag ++ CRLF)
  ++ put_header (call_id d) ++ put_header (cseq d)
  ++ bstr "Content-Length: 0" ++ CRLF ++ CRLF.

Definition header_len (line : bytes) : nat := if decide (line = []) then 0 else length line + 2.

Definition sip_response_len (d : SipDialog) (status_line : bytes) (add_to_tag : bool) : nat :=
  length status_line + 2
  + foldr (fun v n => length v + 2 + n) 0 (via d)
  + header_len (from d)
  + (if decide (to d = []) then 0 else
       length (to d)
       + (if add_to_tag && negb (sip_to_has_tag (to d)) then 5 + length (to_tag d) else 0) + 2)
  + header_len (call_id d) + header_len (cseq d)
  + length (bstr "Content-Length: 0" ++ CRLF ++ CRLF).

Definition sip_response_fits (d : SipDialog) (status_line : bytes) (add_to_tag : bool) : bool :=
  bool_decide (sip_response_len d status_line add_to_tag ≤ SIP_MAX_RESPONSE_SIZE).

Definition TRYING : bytes := bstr "SIP/2.0 100 Trying".
Definition RINGING : bytes := bstr "SIP/2.0 180 Ringing".
Definition OK200 : bytes := bstr "SIP/2.0 200 OK".
Definition TERMINATED : bytes := bstr "SIP/2.0 487 Request Terminated".

Definition sip_reflected_responses_fit (d : SipDialog) : bool :=
  forallb (fun '(status, add_to_tag) => sip_response_fits d status add_to_tag)
    [(TRYING, false); (RINGING, true); (OK200, true); (TERMINATED, true)].

(** ** A request *)

(** The headers found so far, and the bytes of the [Via] lines. *)
Record Scan : Set := mkScan {
  s_via : list bytes; s_via_bytes : nat; s_from : bytes; s_to : bytes; s_call_id : bytes; s_cseq : bytes;
}.

(** [None] is the early return. *)
Fixpoint scan_headers (ls : list bytes) (s : Scan) : option Scan :=
  match ls with
  | [] => Some s
  | line :: ls =>
      let t := sip_header_line line in
      if decide (t = []) then Some s
      else if has_prefix_nocase (bstr "via:") t then
        let next := s_via_bytes s + (length t + 2) in
        if decide (SIP_MAX_RESPONSE_SIZE < next) then None
        else scan_headers ls (mkScan (s_via s ++ [t]) next (s_from s) (s_to s) (s_call_id s) (s_cseq s))
      else if bool_decide (s_from s = []) && has_prefix_nocase (bstr "from:") t then
        scan_headers ls (mkScan (s_via s) (s_via_bytes s) t (s_to s) (s_call_id s) (s_cseq s))
      else if bool_decide (s_to s = []) && has_prefix_nocase (bstr "to:") t then
        scan_headers ls (mkScan (s_via s) (s_via_bytes s) (s_from s) t (s_call_id s) (s_cseq s))
      else if bool_decide (s_call_id s = []) && has_prefix_nocase (bstr "call-id:") t then
        scan_headers ls (mkScan (s_via s) (s_via_bytes s) (s_from s) (s_to s) t (s_cseq s))
      else if bool_decide (s_cseq s = []) && has_prefix_nocase (bstr "cseq:") t then
        scan_headers ls (mkScan (s_via s) (s_via_bytes s) (s_from s) (s_to s) (s_call_id s) t)
      else scan_headers ls s
  end.

Definition scanned (incoming : bytes) : bytes := take (length incoming `min` SIP_SCAN_LIMIT) incoming.

Definition from_request (incoming : bytes) : option SipDialog :=
  let text := scanned incoming in
  if negb (sip_uses_crlf_line_endings text) then None else
  if negb (utf8_valid text) then None else
  s ← scan_headers (lines text) (mkScan [] 0 [] [] [] []);
  if decide (s_via s = [] \/ s_from s = [] \/ s_to s = [] \/ s_call_id s = [] \/ s_cseq s = []
             \/ Exists (fun v => sip_header_value v = []) (s_via s)
             \/ sip_header_value (s_from s) = [] \/ sip_header_value (s_to s) = []
             \/ sip_header_value (s_call_id s) = [] \/ sip_header_value (s_cseq s) = []) then None else
  let call_id_value := sip_header_value (s_call_id s) in
  let d := mkSipDialog Idle (s_via s) (s_via s) (s_from s) (s_to s) (sip_dialog_tag call_id_value)
             (s_call_id s) call_id_value (s_cseq s) (s_cseq s) in
  if sip_reflected_responses_fit d then Some d else None.

Definition from_invite (incoming : bytes) : option SipDialog :=
  m ← sip_method incoming;
  if negb (eq_ignore_ascii_case m (bstr "INVITE")) then None else from_request incoming.

(** The scan of [update_request_headers]; [None] is the early return. *)
Fixpoint update_scan (ls : list bytes) (vs : list bytes) (c : option bytes)
    : option (list bytes * option bytes) :=
  match ls with
  | [] => Some (vs, c)
  | line :: ls =>
      let t := sip_header_line line in
      if decide (t = []) then Some (vs, c)
      else if has_prefix_nocase (bstr "via:") t then
        if decide (sip_header_value t = []) then None else update_scan ls (vs ++ [t]) c
      else if bool_decide (c = None) && has_prefix_nocase (bstr "cseq:") t then
        if decide (sip_header_value t = []) then None else update_scan ls vs (Some t)
      else update_scan ls vs c
  end.

Definition with_transaction (d : SipDialog) (vs : list bytes) (c : bytes) : SipDialog :=
  mkSipDialog (stage d) vs (invite_via d) (from d) (to d) (to_tag d) (call_id d) (call_id_value d)
    (invite_cseq d) c.

Definition update_request_headers (d : SipDialog) (incoming : bytes) : SipDialog :=
  let text := scanned incoming in
  if negb (sip_uses_crlf_line_endings text) then d else
  if negb (utf8_valid text) then d else
  match update_scan (lines text) [] None with
  | None => d
  | Some (vs, c) =>
      if decide (vs = [] /\ c = None) then d else
      let candidate := with_transaction d (if decide (vs = []) then via d else vs) (default (cseq d) c) in
      if sip_reflected_responses_fit candidate then candidate else d
  end.

(** ** The calls *)

Definition INVITE : bytes := bstr "INVITE".
Definition ACK : bytes := bstr "ACK".
Definition BYE : bytes := bstr "BYE".
Definition CANCEL : bytes := bstr "CANCEL".

Definition generate_sip_ringing (d : SipDialog) : bytes := build_sip_response d RINGING true.
Definition generate_sip_ok (d : SipDialog) : bytes := build_sip_response d OK200 true.

Definition generate_sip_responses (d : SipDialog) (method : bytes) : list bytes :=
  if decide (method = INVITE) then
    match stage d with
    | Idle | Terminated => [build_sip_response d TRYING false]
    | Invited => [build_sip_response d TRYING false; build_sip_response d RINGING true]
    | Ringing => [build_sip_response d RINGING true]
    | Established => [build_sip_response d OK200 true]
    end
  else if decide (method = ACK) then []
  else if decide (method = BYE) then
    match stage d with Established => [build_sip_response d OK200 true] | _ => [] end
  else if decide (method = CANCEL) then
    let invite_dialog := with_transaction d (invite_via d) (invite_cseq d) in
    let in_progress := match stage d with Invited | Ringing => true | _ => false end in
    build_sip_response d OK200 true
    :: (if in_progress
           && match sip_cseq_method (cseq invite_dialog) with
              | Some m => eq_ignore_ascii_case m INVITE | None => false end
        then [build_sip_response invite_dialog TERMINATED true] else [])
  else
    let in_dialog := match stage d with Invited | Ringing | Established => true | _ => false end in
    [build_sip_response d OK200 in_dialog].

Definition sip_next_stage (current : SipDialogStage) (method : bytes) : SipDialogStage :=
  if decide (method = INVITE) then
    match current with
    | Idle | Terminated => Invited
    | Invited => Ringing
    | Ringing | Established => current
    end
  else if decide (method = ACK) then
    match current with Established => Established | Idle | Invited | Ringing | Terminated => current end
  else if decide (method = BYE) then
    match current with
    | Idle => Idle | Invited | Ringing | Established | Terminated => Terminated
    end
  else if decide (method = CANCEL) then
    match current with
    | Invited | Ringing => Terminated
    | Idle | Established | Terminated => current
    end
  else current.

(** ** The stateless answer *)

Definition LENGTH_ZERO : bytes := bstr "Content-Length: 0" ++ CRLF ++ CRLF.
Definition ECHO_PREFIXES : list bytes := bstr <$> ["via:"; "from:"; "to:"; "call-id:"; "cseq:"]%string.

Fixpoint trying_lines (ls : list bytes) (buf : bytes) : bytes :=
  match ls with
  | [] => buf ++ LENGTH_ZERO
  | line :: ls =>
      let trimmed := trim (sip_header_line line) in
      if decide (trimmed = []) then buf ++ LENGTH_ZERO
      else if existsb (fun p => has_prefix_nocase p trimmed) ECHO_PREFIXES then
        if decide (SIP_MAX_RESPONSE_SIZE < length buf + (length trimmed + 2) + length LENGTH_ZERO) then
          buf ++ LENGTH_ZERO
        else trying_lines ls (buf ++ trimmed ++ CRLF)
      else trying_lines ls buf
  end.

Definition generate_sip_trying (incoming : bytes) : bytes :=
  let buf := TRYING ++ CRLF in
  let text := scanned incoming in
  if sip_uses_crlf_line_endings text && utf8_valid text then trying_lines (lines text) buf
  else buf ++ LENGTH_ZERO.
