(* ===== verification/ProxyCalls.v ===== *)
(** * SIP calls of the proxy ([src/src/proxy/proxy.rs], [handle_sip_probe])

    The dialogs of all clients, the deferred tasks that ring and answer, and the
    handling of one SIP datagram.  The receive loop handles one datagram at a time
    but waits for each of its sends; a handler is therefore two steps, before and
    after its sends, and the timers of deferred tasks may fire between them.
    What the rate limits, the byte budget and the socket say to one datagram is
    an argument of the step that sends it. *)
From stdpp Require Import gmap.
From S2P Require Import Prelude Text ProxyParams ProxyPackets ProxyTransform ProxyDialog.

(** [str::to_ascii_uppercase]. *)
Definition to_ascii_upper (c : Z) : Z := if decide (97 ≤ c ≤ 122)%Z then (c - 32)%Z else c.

Definition MIN_SIP_REQUEST_BYTES : nat := 100.

Definition sip_stage_after_immediate_response (current : SipDialogStage)
    (stage_before_response : option SipDialogStage) (method : bytes)
    (responses_len sent_response_count : nat) (sent_any_response sent_ringing : bool) : SipDialogStage :=
  if decide (method = INVITE) then
    match default current stage_before_response, current with
    | (Idle | Terminated), (Idle | Terminated) => if sent_any_response then Invited else current
    | Invited, Invited => if sent_ringing then Ringing else current
    | _, _ => current
    end
  else if decide (method = CANCEL) then sip_next_stage current method
  else
    let sent_all_responses := bool_decide (responses_len <> 0 /\ sent_response_count = responses_len) in
    if sent_all_responses || bool_decide (method = ACK) then sip_next_stage current method else current.

(** ** Sending *)

(** The answers to one datagram: [try_acquire_probe], [try_consume], [send_to]. *)
Record Try : Set := mkTry { acquired : bool; consumed : bool; delivered : bool }.
Definition goes_out (pre_acquired : bool) (t : Try) : bool :=
  (pre_acquired || acquired t) && consumed t && delivered t.

(** The datagrams of the list that go out; the token acquired before the call
    serves the first of them.  Without an answer nothing goes out. *)
Fixpoint send_all (pre_acquired : bool) (tries : list Try) (pkts : list bytes) : list bytes :=
  match pkts, tries with
  | pkt :: pkts, t :: tries =>
      (if goes_out pre_acquired t then [pkt] else []) ++ send_all false tries pkts
  | _, _ => []
  end.

(** [pkt.starts_with(b"SIP/2.0 180 Ringing")]. *)
Definition is_ringing (pkt : bytes) : bool := bool_decide (take (length RINGING) pkt = RINGING).

(** ** State *)

Inductive Phase : Set := WaitRinging | WaitOk.
Record Deferred : Set := mkDeferred { d_generation : Z; d_call : bytes; d_phase : Phase }.

Section calls.
Context {K : Type} `{Countable K}.

(** A handler between its two steps. *)
Record Probe : Type := mkProbe {
  p_addr : K; p_method : bytes; p_fresh_call : option bytes; p_stage_before : option SipDialogStage;
  p_use_stored : bool; p_pre_acquired : bool; p_responses : list bytes;
}.

Record Calls : Type := mkCalls {
  dialogs : gmap K SipDialog; deferred : gmap K Deferred; generation : Z; pending : option Probe;
}.

Definition calls_new : Calls := mkCalls ∅ ∅ 0 None.

Definition set_dialogs (s : Calls) (ds : gmap K SipDialog) : Calls :=
  mkCalls ds (deferred s) (generation s) (pending s).
Definition set_stage (d : SipDialog) (st : SipDialogStage) : SipDialog :=
  mkSipDialog st (via d) (invite_via d) (from d) (to d) (to_tag d) (call_id d) (call_id_value d)
    (invite_cseq d) (cseq d).

(** ** One datagram, up to its sends *)

Definition is_new_dialog (existing : option SipDialog) (d : SipDialog) : bool :=
  match existing with
  | None => true
  | Some e =>
      bool_decide (stage e = Terminated \/ stage e = Idle) || negb (bool_decide (call_id_value e = call_id_value d))
  end.

(** The dialogs after the request was taken in, the Call-ID of a fresh call,
    whether the stored dialog answers, and the dialog of the request itself. *)
Definition take_request (ds : gmap K SipDialog) (addr : K) (method data : bytes)
    : gmap K SipDialog * option bytes * bool * option SipDialog :=
  if decide (method = INVITE) then
    match from_invite data with
    | Some d =>
        if is_new_dialog (ds !! addr) d then (<[addr := d]> ds, Some (call_id_value d), true, None)
        else (alter (fun e => update_request_headers e data) addr ds, None, true, None)
    | None => (delete addr ds, None, false, None)
    end
  else
    let parsed_request := from_request data in
    match ds !! addr with
    | Some e =>
        match parsed_request with
        | Some d =>
            if decide (call_id_value d = call_id_value e) then
              (<[addr := update_request_headers e data]> ds, None, true, None)
            else (ds, None, false, Some d)
        | None => (ds, None, false, None)
        end
    | None => (ds, None, false, parsed_request)
    end.

Definition STANDALONE : list bytes :=
  bstr <$> ["REGISTER"; "OPTIONS"; "NOTIFY"; "SUBSCRIBE"; "MESSAGE"; "INFO"]%string.

Definition immediate_responses (ds : gmap K SipDialog) (addr : K) (method data : bytes)
    (use_stored : bool) (request_dialog : option SipDialog) : list bytes :=
  if use_stored then
    match ds !! addr with Some d => generate_sip_responses d method | None => [] end
  else match request_dialog with
  | Some d => generate_sip_responses d method
  | None =>
      if decide (method ∈ [ACK; BYE; CANCEL]) then []
      else if decide (method ∈ STANDALONE) then
        match from_request data with Some d => generate_sip_responses d method | None => [] end
      else [generate_sip_trying data]
  end.

Definition probe_begin (s : Calls) (addr : K) (pre_acquired : bool) (data : bytes) : Calls :=
  match sip_method data with
  | None =>
      if decide (length data < MIN_SIP_REQUEST_BYTES) then s else
      mkCalls (dialogs s) (deferred s) (generation s)
        (Some (mkProbe addr [] None None false pre_acquired [generate_sip_trying data]))
  | Some m =>
      let method := to_ascii_upper <$> m in
      let '(ds, fresh, use_stored, request_dialog) := take_request (dialogs s) addr method data in
      let responses := immediate_responses ds addr method data use_stored request_dialog in
      let before := if use_stored then stage <$> ds !! addr else None in
      mkCalls ds (deferred s) (generation s)
        (Some (mkProbe addr method fresh before use_stored pre_acquired responses))
  end.

(** ** After the sends *)

(** The datagrams that went out, and the state: the stage advances, and a fresh
    call gets a deferred task in place of the one before. *)
Definition probe_end (s : Calls) (tries : list Try) : Calls * list bytes :=
  match pending s with
  | None => (s, [])
  | Some p =>
      let sent := send_all (p_pre_acquired p) tries (p_responses p) in
      let advance d :=
        set_stage d (sip_stage_after_immediate_response (stage d) (p_stage_before p) (p_method p)
          (length (p_responses p)) (length sent) (negb (bool_decide (sent = []))) (existsb is_ringing sent)) in
      let ds := if p_use_stored p then alter advance (p_addr p) (dialogs s) else dialogs s in
      match p_fresh_call p with
      | Some call =>
          if decide (sent = []) then (mkCalls ds (deferred s) (generation s) None, sent) else
          (mkCalls ds (<[p_addr p := mkDeferred (generation s) call WaitRinging]> (deferred s))
             (u64 (generation s + 1)) None, sent)
      | None => (mkCalls ds (deferred s) (generation s) None, sent)
      end
  end.

(** ** The deferred task *)

(** 200 ms after the call: 180 Ringing, unless the dialog has moved on. *)
Definition ring_timer (s : Calls) (addr : K) (t : Try) : Calls * list bytes :=
  match deferred s !! addr with
  | Some (mkDeferred g call WaitRinging) =>
      let df := <[addr := mkDeferred g call WaitOk]> (deferred s) in
      match dialogs s !! addr with
      | Some d =>
          if decide (acquired t = true /\ stage d = Invited /\ call_id_value d = call
                     /\ consumed t = true /\ delivered t = true) then
            (mkCalls (<[addr := set_stage d Ringing]> (dialogs s)) df (generation s) (pending s),
             [generate_sip_ringing d])
          else (mkCalls (dialogs s) df (generation s) (pending s), [])
      | None => (mkCalls (dialogs s) df (generation s) (pending s), [])
      end
  | _ => (s, [])
  end.

(** 800 ms later: 200 OK, and the task is done. *)
Definition ok_timer (s : Calls) (addr : K) (t : Try) : Calls * list bytes :=
  match deferred s !! addr with
  | Some (mkDeferred g call WaitOk) =>
      let df := delete addr (deferred s) in
      match dialogs s !! addr with
      | Some d =>
          if decide (acquired t = true /\ (stage d = Invited \/ stage d = Ringing) /\ call_id_value d = call
                     /\ consumed t = true /\ delivered t = true) then
            (mkCalls (<[addr := set_stage d Established]> (dialogs s)) df (generation s) (pending s),
             [generate_sip_ok d])
          else (mkCalls (dialogs s) df (generation s) (pending s), [])
      | None => (mkCalls (dialogs s) df (generation s) (pending s), [])
      end
  | _ => (s, [])
  end.

(** The session of a client ends. *)
Definition forget_client (s : Calls) (addr : K) : Calls :=
  mkCalls (delete addr (dialogs s)) (delete addr (deferred s)) (generation s) (pending s).

(** Shutdown while a deferred task waits. *)
Definition cancel_deferred (s : Calls) (addr : K) : Calls :=
  mkCalls (dialogs s) (delete addr (deferred s)) (generation s) (pending s).

(** ** Steps *)

(** One step, with the datagrams it sends.  A new datagram is only taken when no
    handler is under way. *)
Inductive calls_step : Calls -> list (K * bytes) -> Calls -> Prop :=
  | step_begin s addr pre data :
      pending s = None -> bytes_ok data -> calls_step s [] (probe_begin s addr pre data)
  | step_end s p tries s' out :
      pending s = Some p -> probe_end s tries = (s', out) -> calls_step s (pair (p_addr p) <$> out) s'
  | step_ring s addr t s' out : ring_timer s addr t = (s', out) -> calls_step s (pair addr <$> out) s'
  | step_ok s addr t s' out : ok_timer s addr t = (s', out) -> calls_step s (pair addr <$> out) s'
  | step_forget s addr : calls_step s [] (forget_client s addr)
  | step_cancel s addr : calls_step s [] (cancel_deferred s addr).

Inductive calls_reach : list (K * bytes) -> Calls -> Prop :=
  | reach_new : calls_reach [] calls_new
  | reach_step tr s out s' : calls_reach tr s -> calls_step s out s' -> calls_reach (tr ++ out) s'.
End calls.
