(* ===== verification/ProxyDialogSpec.v ===== *)
(** * What the SIP responses are

    The reader of SIP messages accepts every response that is built from a
    dialog, finds the headers of the request in it, and no response is longer
    than 512 bytes. *)
From S2P Require Import Prelude Text ProxyParams ProxyPackets ProxyTransform ProxySip ProxyDialog.

(** ** Header lines *)

(** A line that is echoed: of one of the five names. *)
Definition echoed (l : bytes) : bool := existsb (fun p => has_prefix_nocase p l) ECHO_PREFIXES.
Definition field_ok (l : bytes) : Prop := line_ok l /\ echoed l = true.

Lemma name_split p l :
  58%Z ∉ p -> has_prefix_nocase (p ++ [58%Z]) l = true ->
  exists n v, split_once 58 l = Some (n, v) /\ to_ascii_lower <$> n = to_ascii_lower <$> p.
Proof.
  intros Hp. revert l. induction p as [|c p IH]; intros [|x l]; unfold has_prefix_nocase; try done.
  - cbn. intros H%bool_decide_eq_true. exists [], l. destruct (decide (x = 58%Z)) as [->|Hx]; [done|].
    exfalso. apply Hx. injection H as H. unfold to_ascii_lower in H. repeat case_decide; lia.
  - intros [Hl H]%andb_prop. apply bool_decide_eq_true in Hl, H. cbn [app length] in Hl, H.
    change (take (S ?k) (x :: ?r)) with (x :: take k r) in H. cbn [fmap list_fmap] in H.
    injection H as Hc H. apply not_elem_of_cons in Hp as [Hpc Hp].
    destruct (IH Hp l) as (n & v & E & En).
    { unfold has_prefix_nocase. apply andb_true_intro.
      split; apply bool_decide_eq_true; [cbn in Hl; lia|exact H]. }
    exists (x :: n), v. cbn [split_once]. rewrite decide_False.
    + rewrite E. split; [done|]. cbn. by rewrite Hc, En.
    + intros ->. unfold to_ascii_lower in Hc. repeat case_decide; lia.
Qed.

Lemma echoed_split l :
  echoed l = true -> exists n v, split_once 58 l = Some (n, v) /\ n <> bstr "Content-Length".
Proof.
  unfold echoed. intros (p & Hp & H)%existsb_exists.
  assert (exists q, p = q ++ [58%Z] /\ 58%Z ∉ q
    /\ to_ascii_lower <$> q <> to_ascii_lower <$> bstr "Content-Length") as (q & -> & Hq & Hne).
  { apply list_elem_of_In in Hp. unfold ECHO_PREFIXES in Hp.
    cbn [fmap list_fmap] in Hp. repeat (apply elem_of_cons in Hp as [->|Hp]); [..|by apply elem_of_nil in Hp].
    1: exists (bstr "via"). 2: exists (bstr "from"). 3: exists (bstr "to"). 4: exists (bstr "call-id").
    5: exists (bstr "cseq").
    all: split; [done|split; apply (bool_decide_unpack _); vm_compute; exact I]. }
  destruct (name_split q l Hq H) as (n & v & E & En). exists n, v. split; [done|].
  intros ->. by rewrite En in Hne.
Qed.

Lemma has_prefix_app p l r : has_prefix_nocase p l = true -> has_prefix_nocase p (l ++ r) = true.
Proof.
  unfold has_prefix_nocase. intros [Hl H]%andb_prop. apply bool_decide_eq_true in Hl.
  apply andb_true_intro. rewrite take_app_le by done. split; [|done].
  apply bool_decide_eq_true. rewrite length_app. lia.
Qed.

Lemma field_ok_app l r : field_ok l -> 13%Z ∉ r -> field_ok (l ++ r).
Proof.
  intros [[Hne Hl] He] Hr. split; [split|].
  - by destruct l.
  - rewrite elem_of_app. tauto.
  - unfold echoed in *. apply existsb_exists in He as (p & Hp & He). apply existsb_exists.
    exists p. split; [done|]. by apply has_prefix_app.
Qed.

(** The name and the value of every line. *)
Lemma fields_split ls :
  Forall field_ok ls ->
  exists hs, mapM (split_once 58%Z) ls = Some hs /\ (fun h => h.1 ++ 58%Z :: h.2) <$> hs = ls
    /\ Forall (fun h => h.1 <> bstr "Content-Length") hs.
Proof.
  induction 1 as [|l ls [_ He] _ (hs & E & Ej & Hn)]; [by exists []|].
  destruct (echoed_split l He) as (n & v & El & Hne). exists ((n, v) :: hs).
  split; [cbn; rewrite El; cbn; by rewrite E|].
  split; [|by constructor]. cbn. rewrite Ej. f_equal. by apply split_once_spec in El as [-> _].
Qed.

(** ** A message that frames itself with an empty body *)

Definition SIP_STARTS : list bytes := [TRYING; RINGING; OK200; TERMINATED].

Lemma sip_starts : TRYING ∈ SIP_STARTS /\ RINGING ∈ SIP_STARTS /\ OK200 ∈ SIP_STARTS /\ TERMINATED ∈ SIP_STARTS.
Proof. split_and!; apply (bool_decide_unpack _); vm_compute; exact I. Qed.

(** The lines of the response are exactly [ls] and the content length. *)
Definition reads_as (r start : bytes) (ls : list bytes) : Prop :=
  exists m, parse_sip r = Some m /\ start_line m = start /\ sip_body m = []
    /\ (fun h => h.1 ++ 58%Z :: h.2) <$> headers m = ls ++ [bstr "Content-Length: 0"]
    /\ content_lengths m = [Some 0%Z].

Lemma message_reads start ls :
  start ∈ SIP_STARTS -> Forall field_ok ls ->
  reads_as (start ++ CRLF ++ crlf_lines ls ++ LENGTH_ZERO) start ls.
Proof.
  intros Hs Hls. destruct (fields_split ls Hls) as (hs & E & Ej & Hn).
  exists (mkSipMessage start (hs ++ [(bstr "Content-Length", bstr " 0")]) []).
  assert (13%Z ∉ start) as Hcr.
  { unfold SIP_STARTS in Hs. repeat (apply elem_of_cons in Hs as [->|Hs]); [..|by apply elem_of_nil in Hs].
    all: apply (bool_decide_unpack _); vm_compute; exact I. }
  assert (line_ok (bstr "Content-Length: 0")) as Hz.
  { split; [done|]. apply (bool_decide_unpack _). vm_compute. exact I. }
  split; [|split; [done|split; [done|split]]].
  - rewrite <- (parse_sip_spec start (ls ++ [bstr "Content-Length: 0"]) []); [|done| |].
    + f_equal. rewrite crlf_lines_app, <- !app_assoc. do 3 f_equal.
    + apply Forall_app. split; [|by constructor]. eapply Forall_impl; [exact Hls|]. by intros l [Hl _].
    + apply mapM_Some_2, Forall2_app; [by apply mapM_Some_1|]. by constructor.
  - cbn [headers]. by rewrite fmap_app, Ej.
  - rewrite content_lengths_app, content_lengths_names by done. cbn [app].
    vm_compute. done.
Qed.

(** ** Dialogs *)

(** The invariant of the dialogs that the proxy keeps: every line can be echoed,
    and both its transactions, the latest and that of the call, fit. *)
Record dialog_ok (d : SipDialog) : Prop := {
  ok_via : Forall field_ok (via d);
  ok_invite_via : Forall field_ok (invite_via d);
  ok_from : field_ok (from d);
  ok_to : field_ok (to d);
  ok_tag : 13%Z ∉ to_tag d;
  ok_call_id : field_ok (call_id d);
  ok_cseq : field_ok (cseq d);
  ok_invite_cseq : field_ok (invite_cseq d);
  ok_fits : sip_reflected_responses_fit d = true;
  ok_invite_fits : sip_reflected_responses_fit (with_transaction d (invite_via d) (invite_cseq d)) = true;
}.

Lemma field_nonempty l : field_ok l -> l <> [].
Proof. by intros [[Hne _] _]. Qed.

Definition response_lines (d : SipDialog) (add_to_tag : bool) : list bytes :=
  via d ++ [from d; to_line d add_to_tag; call_id d; cseq d].

Lemma response_text d status add :
  dialog_ok d ->
  build_sip_response d status add = status ++ CRLF ++ crlf_lines (response_lines d add) ++ LENGTH_ZERO.
Proof.
  intros [Hv _ Hf Ht _ Hc Hq _ _ _]. apply field_nonempty in Hf, Ht, Hc, Hq.
  unfold build_sip_response, put_header, response_lines. rewrite !decide_False by done.
  rewrite crlf_lines_app. unfold crlf_lines. cbn [fmap list_fmap mjoin list_join].
  by rewrite app_nil_r, <- !app_assoc.
Qed.

Lemma to_line_ok d add : dialog_ok d -> field_ok (to_line d add).
Proof.
  intros [_ _ _ Ht Htag _ _ _ _ _]. unfold to_line. destruct (add && _); [|done].
  apply field_ok_app; [done|]. rewrite elem_of_app. intros [H|H]; [|done].
  revert H. apply (bool_decide_unpack _). vm_compute. exact I.
Qed.

Lemma response_lines_ok d add : dialog_ok d -> Forall field_ok (response_lines d add).
Proof.
  intros Hd. pose proof (to_line_ok d add Hd). destruct Hd.
  apply Forall_app. split; [done|]. repeat (apply Forall_cons; split; [done|]). constructor.
Qed.

Lemma length_put_header l : length (put_header l) = header_len l.
Proof. unfold put_header, header_len. case_decide; [done|]. by rewrite length_app. Qed.

Lemma length_to_line d add :
  length (to_line d add)
  = length (to d) + (if add && negb (sip_to_has_tag (to d)) then 5 + length (to_tag d) else 0).
Proof. unfold to_line. destruct (add && _); [|lia]. by rewrite !length_app. Qed.

(** [sip_response_len] counts what [build_sip_response] writes. *)
Lemma sip_response_len_spec d status add :
  length (build_sip_response d status add) = sip_response_len d status add.
Proof.
  unfold build_sip_response, sip_response_len.
  assert (length (mjoin ((fun v => v ++ CRLF) <$> via d)) = foldr (fun v n => length v + 2 + n) 0 (via d)) as Hv.
  { induction (via d) as [|v vs IH]; [done|]. cbn [foldr]. rewrite <- IH.
    change (mjoin ((fun v => v ++ CRLF) <$> v :: vs)) with ((v ++ CRLF) ++ mjoin ((fun v => v ++ CRLF) <$> vs)).
    rewrite !length_app. change (length CRLF) with 2. lia. }
  rewrite !length_app, Hv, !length_put_header. change (length CRLF) with 2.
  case_decide; [cbn [length]; lia|]. rewrite length_app, length_to_line. change (length CRLF) with 2. lia.
Qed.

Lemma sip_response_len_tag d status :
  sip_response_len d status false ≤ sip_response_len d status true.
Proof. unfold sip_response_len. cbn [andb]. case_decide; [lia|]. destruct (negb _); lia. Qed.

Lemma fits_spec d :
  sip_reflected_responses_fit d = true <->
  forall status, status ∈ SIP_STARTS ->
    sip_response_len d status (negb (bool_decide (status = TRYING))) ≤ SIP_MAX_RESPONSE_SIZE.
Proof.
  unfold sip_reflected_responses_fit, sip_response_fits. cbn [forallb].
  rewrite !andb_true_iff, !bool_decide_eq_true. unfold SIP_STARTS. split.
  - intros (H1 & H2 & H3 & H4 & _) status Hs.
    repeat (apply elem_of_cons in Hs as [->|Hs]); [..|by apply elem_of_nil in Hs]; done.
  - intros H. destruct sip_starts as (H1 & H2 & H3 & H4).
    exact (conj (H _ H1) (conj (H _ H2) (conj (H _ H3) (conj (H _ H4) eq_refl)))).
Qed.

(** A response of a dialog: at most 512 bytes, and its lines are those of the
    request, [To] with a tag where it is added. *)
Definition answers (d : SipDialog) (r : bytes) : Prop :=
  length r ≤ SIP_MAX_RESPONSE_SIZE
  /\ exists status add, status ∈ SIP_STARTS /\ r = build_sip_response d status add
       /\ reads_as r status (response_lines d add).

Lemma build_answers d status add :
  dialog_ok d -> status ∈ SIP_STARTS -> (status = TRYING -> add = false) ->
  answers d (build_sip_response d status add).
Proof.
  intros Hd Hs Ha. split.
  - rewrite sip_response_len_spec. pose proof (proj1 (fits_spec d) (ok_fits d Hd) status Hs) as H.
    case_bool_decide as E; cbn [negb] in H.
    + by rewrite (Ha E).
    + destruct add; [done|]. pose proof (sip_response_len_tag d status). lia.
  - exists status, add. split; [done|]. split; [done|]. rewrite response_text by done.
    apply message_reads; [done|]. by apply response_lines_ok.
Qed.

Lemma with_invite_ok d : dialog_ok d -> dialog_ok (with_transaction d (invite_via d) (invite_cseq d)).
Proof. by intros []; split. Qed.

(** Every immediate response is one of the dialog, or the 487 of its call. *)
Lemma generate_answers d method :
  dialog_ok d ->
  Forall (fun r => answers d r \/ answers (with_transaction d (invite_via d) (invite_cseq d)) r)
    (generate_sip_responses d method).
Proof.
  intros Hd. pose proof (with_invite_ok d Hd) as Hi.
  destruct sip_starts as (H1 & H2 & H3 & H4).
  unfold generate_sip_responses.
  repeat case_decide; [destruct (stage d)|done|destruct (stage d)|destruct (_ && _)|];
    repeat apply Forall_cons_2; try apply Forall_nil_2;
    first [left; by apply build_answers|right; by apply build_answers].
Qed.

(** ** Requests *)

Lemma header_line_no_cr line : 13%Z ∉ sip_header_line line.
Proof.
  unfold sip_header_line. induction line as [|c line IH]; cbn [span]; [apply not_elem_of_nil|].
  destruct (decide (c = 13%Z)) as [->|Hc]; [apply not_elem_of_nil|].
  rewrite bool_decide_false by done. cbn [negb]. destruct (span _ line) as [a b]. cbn [fst] in *.
  apply not_elem_of_cons. by split.
Qed.

Lemma echo_prefix_field t p : p ∈ ECHO_PREFIXES -> t <> [] -> 13%Z ∉ t -> has_prefix_nocase p t = true -> field_ok t.
Proof.
  intros Hp Hne Hcr H. split; [done|]. apply existsb_exists. exists p. split; [|done].
  by apply list_elem_of_In.
Qed.

Lemma echo_prefixes :
  bstr "via:" ∈ ECHO_PREFIXES /\ bstr "from:" ∈ ECHO_PREFIXES /\ bstr "to:" ∈ ECHO_PREFIXES
  /\ bstr "call-id:" ∈ ECHO_PREFIXES /\ bstr "cseq:" ∈ ECHO_PREFIXES.
Proof. split_and!; apply (bool_decide_unpack _); vm_compute; exact I. Qed.

(** A header that was found is a line that can be echoed. *)
Definition found (l : bytes) : Prop := l = [] \/ field_ok l.
Definition scan_ok (s : Scan) : Prop :=
  Forall field_ok (s_via s) /\ found (s_from s) /\ found (s_to s) /\ found (s_call_id s) /\ found (s_cseq s).

Lemma scan_headers_ok ls s s' : scan_ok s -> scan_headers ls s = Some s' -> scan_ok s'.
Proof.
  destruct echo_prefixes as (P1 & P2 & P3 & P4 & P5). revert s.
  induction ls as [|line ls IH]; intros s Hs; cbn [scan_headers]; [by intros [= <-]|].
  pose proof (header_line_no_cr line) as Hcr. set (t := sip_header_line line) in *. clearbody t.
  case_decide as Hne; [by intros [= <-]|]. destruct Hs as (Hv & Hf & Ht & Hc & Hq).
  destruct (has_prefix_nocase (bstr "via:") t) eqn:E1.
  { case_decide; [done|]. apply IH. split_and!; try done. apply Forall_app. split; [done|].
    apply Forall_cons; split; [eapply echo_prefix_field; [..|eassumption]; done|constructor]. }
  destruct (_ && has_prefix_nocase (bstr "from:") t) eqn:E2; [|destruct (_ && has_prefix_nocase (bstr "to:") t) eqn:E3;
    [|destruct (_ && has_prefix_nocase (bstr "call-id:") t) eqn:E4;
      [|destruct (_ && has_prefix_nocase (bstr "cseq:") t) eqn:E5]]].
  all: repeat match goal with E : _ && _ = true |- _ => apply andb_prop in E as [_ E] end.
  all: apply IH; split_and!; try done; right;
    (eapply echo_prefix_field; [..|eassumption]; done).
Qed.

Lemma dialog_tag_ok c : 13%Z ∉ sip_dialog_tag c.
Proof. apply printable_no_cr, hex08_ok. Qed.

Lemma from_request_ok incoming d :
  from_request incoming = Some d ->
  dialog_ok d /\ stage d = Idle /\ via d = invite_via d /\ cseq d = invite_cseq d.
Proof.
  unfold from_request. destruct (negb _); [done|]. destruct (negb _); [done|].
  destruct (scan_headers _ _) as [s|] eqn:Es; cbn [mbind option_bind]; [|done].
  apply scan_headers_ok in Es as (Hv & Hf & Ht & Hc & Hq); [|repeat split; by constructor || by left].
  case_decide as Hd; [done|]. destruct (sip_reflected_responses_fit _) eqn:Hfit; [|done]. intros [= <-].
  unfold found in *. split; [|done].
  split; cbn [via invite_via from to to_tag call_id cseq invite_cseq]; try done; try apply dialog_tag_ok; tauto.
Qed.

Lemma update_scan_ok ls vs c vs' c' :
  Forall field_ok vs -> (forall x, c = Some x -> field_ok x) -> update_scan ls vs c = Some (vs', c') ->
  Forall field_ok vs' /\ (forall x, c' = Some x -> field_ok x).
Proof.
  destruct echo_prefixes as (P1 & _ & _ & _ & P5). revert vs c.
  induction ls as [|line ls IH]; intros vs c Hv Hc; cbn [update_scan]; [by intros [= <- <-]|].
  pose proof (header_line_no_cr line) as Hcr. set (t := sip_header_line line) in *. clearbody t.
  case_decide as Hne; [by intros [= <- <-]|].
  destruct (has_prefix_nocase (bstr "via:") t) eqn:E1.
  { case_decide; [done|]. apply IH; [|done]. apply Forall_app. split; [done|].
    apply Forall_cons; split; [eapply echo_prefix_field; [..|eassumption]; done|constructor]. }
  destruct (_ && has_prefix_nocase (bstr "cseq:") t) eqn:E2; [|by apply IH].
  case_decide; [done|]. apply andb_prop in E2 as [_ E2]. apply IH; [done|]. intros x [= <-].
  eapply echo_prefix_field; [..|eassumption]; done.
Qed.

(** Only the transaction of a dialog changes. *)
Lemma update_request_ok d incoming :
  dialog_ok d ->
  let d' := update_request_headers d incoming in
  dialog_ok d' /\ stage d' = stage d /\ call_id_value d' = call_id_value d
  /\ invite_via d' = invite_via d /\ invite_cseq d' = invite_cseq d.
Proof.
  intros Hd. cbv zeta. unfold update_request_headers. destruct (negb _); [done|]. destruct (negb _); [done|].
  destruct (update_scan _ _ _) as [[vs c]|] eqn:E; [|done]. case_decide; [done|].
  apply update_scan_ok in E as [Hv Hc]; [|by constructor|done].
  destruct (sip_reflected_responses_fit _) eqn:Hfit; [|done]. split; [|done].
  destruct Hd. split; cbn [via invite_via from to to_tag call_id cseq invite_cseq with_transaction]; try done.
  - by case_decide.
  - destruct c as [x|]; [by apply Hc|done].
Qed.

(** ** The stateless answer *)

Lemma trim_go_suffix fuel ws s : exists p, s = p ++ trim_go fuel ws s.
Proof.
  revert s. induction fuel as [|fuel IH]; intros s; cbn [trim_go]; [by exists []|].
  destruct (first_match ws s) as [s'|] eqn:E; [|by exists []].
  destruct (IH s') as [p Hp]. assert (exists q, s = q ++ s') as [q ->].
  { clear - E. induction ws as [|w ws IH]; cbn [first_match] in E; [done|].
    case_decide; [injection E as <-|by apply IH]. exists (take (length w) s). by rewrite take_drop. }
  exists (q ++ p). rewrite <- app_assoc. by f_equal.
Qed.

Lemma trim_sub c s : c ∈ trim s -> c ∈ s.
Proof.
  unfold trim, trim_end, trim_start. intros H. rewrite elem_of_reverse in H.
  set (s1 := trim_go (length s) WHITE_SPACE s) in *.
  destruct (trim_go_suffix (length s1) (reverse <$> WHITE_SPACE) (reverse s1)) as [p Hp].
  assert (c ∈ reverse s1) as H1 by (rewrite Hp; apply elem_of_app; by right).
  rewrite elem_of_reverse in H1. destruct (trim_go_suffix (length s) WHITE_SPACE s) as [q Hq].
  rewrite Hq. apply elem_of_app. by right.
Qed.

Lemma trying_lines_ok ls fs :
  Forall field_ok fs -> length (TRYING ++ CRLF ++ crlf_lines fs) + length LENGTH_ZERO ≤ SIP_MAX_RESPONSE_SIZE ->
  exists fs', trying_lines ls (TRYING ++ CRLF ++ crlf_lines fs) = TRYING ++ CRLF ++ crlf_lines fs' ++ LENGTH_ZERO
    /\ Forall field_ok fs' /\ length (trying_lines ls (TRYING ++ CRLF ++ crlf_lines fs)) ≤ SIP_MAX_RESPONSE_SIZE.
Proof.
  revert fs. induction ls as [|line ls IH]; intros fs Hfs Hl; cbn [trying_lines].
  { exists fs. rewrite <- !app_assoc. split; [done|]. split; [done|]. rewrite !length_app in *. lia. }
  pose proof (header_line_no_cr line) as Hcr.
  assert (13%Z ∉ trim (sip_header_line line)) as Hcr' by (intros H; by apply trim_sub in H).
  set (t := trim (sip_header_line line)) in *. clearbody t.
  assert (exists fs', (TRYING ++ CRLF ++ crlf_lines fs) ++ LENGTH_ZERO = TRYING ++ CRLF ++ crlf_lines fs' ++ LENGTH_ZERO
    /\ Forall field_ok fs' /\ length ((TRYING ++ CRLF ++ crlf_lines fs) ++ LENGTH_ZERO) ≤ SIP_MAX_RESPONSE_SIZE) as Hstop.
  { exists fs. rewrite <- !app_assoc. split; [done|]. split; [done|]. rewrite !length_app in *. lia. }
  case_decide as Hne; [done|]. destruct (existsb _ ECHO_PREFIXES) eqn:E; [|by apply IH].
  case_decide as Hbig; [done|].
  assert (crlf_lines (fs ++ [t]) = crlf_lines fs ++ t ++ CRLF) as Ef.
  { rewrite crlf_lines_app. f_equal. unfold crlf_lines. cbn. by rewrite app_nil_r. }
  replace ((TRYING ++ CRLF ++ crlf_lines fs) ++ t ++ CRLF) with (TRYING ++ CRLF ++ crlf_lines (fs ++ [t]))
    by (rewrite Ef; by rewrite <- !app_assoc).
  apply IH.
  - apply Forall_app. split; [done|]. apply Forall_cons; split; [|constructor]. by split.
  - rewrite Ef, !length_app in *. change (length CRLF) with 2 in *. lia.
Qed.

Lemma trying_ok incoming :
  exists fs, Forall field_ok fs /\ reads_as (generate_sip_trying incoming) TRYING fs
    /\ length (generate_sip_trying incoming) ≤ SIP_MAX_RESPONSE_SIZE.
Proof.
  assert (exists fs, generate_sip_trying incoming = TRYING ++ CRLF ++ crlf_lines fs ++ LENGTH_ZERO
    /\ Forall field_ok fs /\ length (generate_sip_trying incoming) ≤ SIP_MAX_RESPONSE_SIZE) as (fs & E & Hfs & Hl).
  { unfold generate_sip_trying. destruct (_ && _).
    - apply (trying_lines_ok _ []); [done|]. vm_compute. lia.
    - exists []. split; [done|]. split; [done|]. vm_compute. lia. }
  exists fs. split; [done|]. split; [|done]. rewrite E. apply message_reads; [|done]. apply sip_starts.
Qed.
