(* ===== verification/ProxyCallsProps.v ===== *)
(** * SIP calls under every interleaving

    Invariants of the dialogs by induction on the steps of [ProxyCalls]: what is
    sent is well formed and bounded, and stages only change as a call does. *)
From stdpp Require Import gmap.
From S2P Require Import Prelude Text ProxyParams ProxyPackets ProxyTransform ProxySip ProxyDialog ProxyDialogSpec ProxyCalls.

(** ** What may be sent *)

Definition sip_ok (r : bytes) : Prop :=
  length r ≤ SIP_MAX_RESPONSE_SIZE
  /\ exists start ls, start ∈ SIP_STARTS /\ Forall field_ok ls /\ reads_as r start ls.

Lemma answers_ok d r : dialog_ok d -> answers d r -> sip_ok r.
Proof.
  intros Hd [Hl (status & add & Hs & _ & Hr)]. split; [done|].
  exists status, (response_lines d add). split; [done|]. split; [|done]. by apply response_lines_ok.
Qed.

Lemma generated_ok d method : dialog_ok d -> Forall sip_ok (generate_sip_responses d method).
Proof.
  intros Hd. eapply Forall_impl; [by apply generate_answers|]. cbn. intros r [Hr|Hr].
  - by eapply answers_ok.
  - eapply answers_ok; [by apply with_invite_ok|done].
Qed.

Lemma trying_sip_ok incoming : sip_ok (generate_sip_trying incoming).
Proof.
  destruct (trying_ok incoming) as (fs & Hfs & Hr & Hl). split; [done|].
  exists TRYING, fs. split; [apply sip_starts|done].
Qed.

Lemma ringing_ok d : dialog_ok d -> sip_ok (generate_sip_ringing d).
Proof. intros Hd. eapply answers_ok; [done|]. apply build_answers; [done|apply sip_starts|done]. Qed.

Lemma ok_ok d : dialog_ok d -> sip_ok (generate_sip_ok d).
Proof. intros Hd. eapply answers_ok; [done|]. apply build_answers; [done|apply sip_starts|done]. Qed.

Lemma set_stage_ok d st : dialog_ok d -> dialog_ok (set_stage d st).
Proof. by intros []; split. Qed.

Lemma send_all_ok (P : bytes -> Prop) pre tries pkts : Forall P pkts -> Forall P (send_all pre tries pkts).
Proof.
  intros H. revert pre tries. induction H as [|pkt pkts Hp _ IH]; intros pre [|t tries]; cbn [send_all];
    try constructor. apply Forall_app. split; [|apply IH]. destruct (goes_out pre t); [by constructor|constructor].
Qed.

Lemma from_invite_ok data d : from_invite data = Some d -> dialog_ok d /\ stage d = Idle.
Proof.
  unfold from_invite. destruct (sip_method data) as [m|]; cbn [mbind option_bind]; [|done].
  destruct (negb _); [done|]. intros H. by apply from_request_ok in H as (? & ? & _).
Qed.

Section calls.
Context {K : Type} `{Countable K}.
Implicit Types (s : Calls (K := K)) (ds : gmap K SipDialog).

Definition dialogs_ok ds : Prop := map_Forall (fun _ d => dialog_ok d) ds.

(** The invariant. *)
Definition calls_ok s : Prop :=
  dialogs_ok (dialogs s) /\ forall p, pending s = Some p -> Forall sip_ok (p_responses p).

(** ** How a dialog changes in one step *)

(** From the dialog of a client before a step to the one after it, with what the
    step sent to the client. *)
Inductive change (out : list bytes) : option SipDialog -> option SipDialog -> Prop :=
  | change_same d d' : stage d' = stage d -> call_id_value d' = call_id_value d -> change out (Some d) (Some d')
  | change_none : change out None None
  | change_removed d : change out (Some d) None
  | change_fresh o d' :
      (forall d, o = Some d -> stage d = Idle \/ stage d = Terminated \/ call_id_value d <> call_id_value d') ->
      stage d' = Idle -> change out o (Some d')
  | change_invited d :
      stage d = Idle \/ stage d = Terminated -> out <> [] -> change out (Some d) (Some (set_stage d Invited))
  | change_ringing d :
      stage d = Invited -> existsb is_ringing out = true -> change out (Some d) (Some (set_stage d Ringing))
  | change_established d :
      stage d = Invited \/ stage d = Ringing -> out = [generate_sip_ok d] ->
      change out (Some d) (Some (set_stage d Established))
  | change_terminated d :
      stage d = Invited \/ stage d = Ringing \/ stage d = Established ->
      change out (Some d) (Some (set_stage d Terminated)).

Lemma change_refl out o : change out o o.
Proof. destruct o; by constructor. Qed.

(** ** Taking a request in *)

Lemma take_request_ok ds addr method data ds' fresh use_stored rd :
  dialogs_ok ds -> take_request ds addr method data = (ds', fresh, use_stored, rd) ->
  dialogs_ok ds' /\ (forall d, rd = Some d -> dialog_ok d)
  /\ (forall a, change [] (ds !! a) (ds' !! a)).
Proof.
  intros Hds. unfold take_request. case_decide.
  - destruct (from_invite data) as [d|] eqn:Ed.
    + apply from_invite_ok in Ed as [Hd Hst]. destruct (is_new_dialog _ d) eqn:En; intros [= <- <- <- <-].
      * split; [by apply map_Forall_insert_2|]. split; [done|]. intros a.
        destruct (decide (addr = a)) as [->|Ha]; [|rewrite lookup_insert_ne by done; apply change_refl].
        rewrite lookup_insert_eq. apply change_fresh; [|done]. intros e Ee. rewrite Ee in En. cbn in En.
        apply orb_prop in En as [En|En]; [apply bool_decide_eq_true in En; tauto|].
        apply negb_true_iff, bool_decide_eq_false in En. tauto.
      * split; [|split; [done|]].
        -- intros a e. rewrite lookup_alter_Some. intros [(-> & e0 & E0 & ->)|[_ E0]]; [|by eapply Hds].
           by apply update_request_ok, (Hds a).
        -- intros a. destruct (decide (addr = a)) as [->|Ha]; [|rewrite lookup_alter_ne by done; apply change_refl].
           rewrite lookup_alter_eq. destruct (ds !! a) as [e|] eqn:Ee; [|constructor].
           destruct (update_request_ok e data (Hds a e Ee)) as (_ & Hs & Hc & _). by apply change_same.
    + intros [= <- <- <- <-]. split; [by apply map_Forall_delete|]. split; [done|]. intros a.
      destruct (decide (addr = a)) as [->|Ha]; [|rewrite lookup_delete_ne by done; apply change_refl].
      rewrite lookup_delete_eq. destruct (ds !! a); constructor.
  - assert (forall d, from_request data = Some d -> dialog_ok d) as Hreq
      by (intros d Hd; by apply from_request_ok in Hd as (? & _)).
    destruct (ds !! addr) as [e|] eqn:Ee; [destruct (from_request data) as [d|] eqn:Ed; [case_decide|]|];
      intros [= <- <- <- <-].
    2-4: (split; [done|]; split; [intros d' E'; simplify_eq; by apply Hreq|intros a; apply change_refl]).
    destruct (update_request_ok e data (Hds addr e Ee)) as (Hok & Hs & Hc & _).
    split; [by apply map_Forall_insert_2|]. split; [done|]. intros a.
    destruct (decide (addr = a)) as [<-|Ha]; [|rewrite lookup_insert_ne by done; apply change_refl].
    rewrite lookup_insert_eq, Ee. by apply change_same.
Qed.

Lemma immediate_ok ds addr method data use_stored rd :
  dialogs_ok ds -> (forall d, rd = Some d -> dialog_ok d) ->
  Forall sip_ok (immediate_responses ds addr method data use_stored rd).
Proof.
  intros Hds Hrd. unfold immediate_responses. destruct use_stored.
  - destruct (ds !! addr) as [d|] eqn:E; [|constructor]. apply generated_ok. by eapply Hds.
  - destruct rd as [d|]; [by apply generated_ok, Hrd|]. case_decide; [constructor|]. case_decide.
    + destruct (from_request data) as [d|] eqn:E; [|constructor]. apply generated_ok.
      by apply from_request_ok in E as (? & _).
    + constructor; [apply trying_sip_ok|constructor].
Qed.

(** ** One step *)

(** The datagrams of a step to one client. *)
Definition sent_to (a : K) (out : list (K * bytes)) : list bytes :=
  omap (fun e => if decide (e.1 = a) then Some e.2 else None) out.

Lemma sent_to_pairs a b rs : sent_to a (pair b <$> rs) = if decide (b = a) then rs else [].
Proof.
  unfold sent_to. induction rs as [|r rs IH]; [by case_decide|]. cbn [fmap list_fmap omap list_omap fst snd].
  rewrite IH. by case_decide.
Qed.

(** What a step does to the invariant, to what is sent and to each dialog. *)
Definition step_ok_for s (out : list (K * bytes)) s' : Prop :=
  calls_ok s' /\ Forall (fun e => sip_ok e.2) out
  /\ forall a, change (sent_to a out) (dialogs s !! a) (dialogs s' !! a).

Lemma probe_begin_ok s addr pre data : calls_ok s -> step_ok_for s [] (probe_begin s addr pre data).
Proof.
  intros [Hds Hp]. unfold probe_begin. destruct (sip_method data) as [m|].
  - destruct (take_request _ _ _ _) as [[[ds fresh] us] rd] eqn:E.
    apply take_request_ok in E as (Hds' & Hrd & Hch); [|done]. split; [|by split].
    split; [done|]. cbn [pending]. intros p [= <-]. cbn [p_responses]. by apply immediate_ok.
  - case_decide; [split; [done|split; [constructor|intros a; apply change_refl]]|].
    split; [|split; [constructor|intros a; apply change_refl]].
    split; [done|]. cbn [pending]. intros p [= <-]. cbn [p_responses].
    constructor; [apply trying_sip_ok|constructor].
Qed.

Lemma set_stage_same d : set_stage d (stage d) = d.
Proof. by destruct d. Qed.

(** Advancing the stage after the sends. *)
Lemma advance_change d before method n out :
  change out (Some d)
    (Some (set_stage d (sip_stage_after_immediate_response (stage d) before method n (length out)
       (negb (bool_decide (out = []))) (existsb is_ringing out)))).
Proof.
  assert (forall st, st = stage d -> change out (Some d) (Some (set_stage d st))) as Hsame.
  { intros st ->. rewrite set_stage_same. apply change_refl. }
  assert (stage d = Idle \/ stage d = Terminated -> negb (bool_decide (out = [])) = true ->
    change out (Some d) (Some (set_stage d Invited))) as Hinv.
  { intros Hs Hn. apply change_invited; [done|]. by apply negb_true_iff, bool_decide_eq_false in Hn. }
  assert (forall m, m = CANCEL \/ m = BYE \/ m <> INVITE ->
    change out (Some d) (Some (set_stage d (sip_next_stage (stage d) m)))) as Hnext.
  { intros m Hm. unfold sip_next_stage. case_decide as Hi.
    - subst m. by destruct Hm as [Hm|[Hm|Hm]].
    - repeat case_decide; destruct (stage d) eqn:Es;
        first [apply Hsame; congruence|apply change_terminated; tauto]. }
  unfold sip_stage_after_immediate_response. case_decide as Hm; [|case_decide as Hc].
  - destruct (default (stage d) before), (stage d) eqn:Es; try (apply Hsame; congruence).
    all: match goal with
      | |- context [if negb ?b then _ else _] =>
          destruct (negb b) eqn:En; [apply Hinv; [tauto|done]|apply Hsame; congruence]
      | |- context [if existsb ?f ?l then _ else _] =>
          destruct (existsb f l) eqn:En; [by apply change_ringing|apply Hsame; congruence]
      end.
  - apply Hnext. tauto.
  - destruct (_ || _); [|by apply Hsame]. apply Hnext. tauto.
Qed.

Lemma probe_end_ok s p tries s' out :
  calls_ok s -> pending s = Some p -> probe_end s tries = (s', out) ->
  step_ok_for s (pair (p_addr p) <$> out) s'.
Proof.
  intros [Hds Hp] Ep. unfold probe_end. rewrite Ep.
  set (sent := send_all (p_pre_acquired p) tries (p_responses p)).
  assert (Forall sip_ok sent) as Hsent by (apply send_all_ok, Hp, Ep).
  set (ds' := if p_use_stored p then _ else dialogs s).
  assert (dialogs_ok ds' /\ forall a, change (if decide (p_addr p = a) then sent else []) (dialogs s !! a) (ds' !! a))
    as [Hds' Hch].
  { unfold ds'. destruct (p_use_stored p); [|split; [done|intros a; apply change_refl]]. split.
    - intros a d'. rewrite lookup_alter_Some. intros [(<- & d & Ed & ->)|[_ Ed]]; [|by eapply Hds].
      apply set_stage_ok. by eapply Hds.
    - intros a. case_decide as Ha; [|rewrite lookup_alter_ne by done; apply change_refl]. subst a.
      rewrite lookup_alter_eq. destruct (dialogs s !! p_addr p) as [d|]; [|constructor]. apply advance_change. }
  assert (forall s'', dialogs s'' = ds' -> pending s'' = None ->
    step_ok_for s (pair (p_addr p) <$> sent) s'') as Hdone.
  { intros s'' E1 E2. split; [split; [by rewrite E1|by rewrite E2]|]. split.
    - apply Forall_fmap. eapply Forall_impl; [exact Hsent|]. done.
    - intros a. rewrite E1, sent_to_pairs. apply Hch. }
  clearbody ds' sent. destruct (p_fresh_call p); [case_decide|]; intros [= <- <-]; by apply Hdone.
Qed.

Lemma ring_timer_ok s addr t s' out :
  calls_ok s -> ring_timer s addr t = (s', out) -> step_ok_for s (pair addr <$> out) s'.
Proof.
  intros [Hds Hp]. unfold ring_timer.
  assert (forall s'', dialogs s'' = dialogs s -> pending s'' = pending s ->
    step_ok_for s (pair addr <$> []) s'') as Hsame.
  { intros s'' E1 E2. split; [split; [by rewrite E1|by rewrite E2]|]. split; [constructor|].
    intros a. rewrite E1. apply change_refl. }
  destruct (deferred s !! addr) as [[g call []]|]; [|intros [= <- <-]; by apply Hsame..].
  destruct (dialogs s !! addr) as [d|] eqn:Ed; [|intros [= <- <-]; by apply Hsame].
  case_decide as Hc; intros [= <- <-]; [|by apply Hsame]. destruct Hc as (_ & Hst & _).
  assert (dialog_ok d) as Hd by (by eapply Hds). split; [|split].
  - split; [|done]. apply map_Forall_insert_2; [by apply set_stage_ok|done].
  - constructor; [by apply ringing_ok|constructor].
  - intros a. rewrite sent_to_pairs. cbn [dialogs]. case_decide as Ha.
    + subst a. rewrite lookup_insert_eq, Ed. apply change_ringing; [done|]. cbn [existsb].
      rewrite orb_false_r. unfold is_ringing, generate_sip_ringing, build_sip_response.
      rewrite take_app_length. by apply bool_decide_eq_true.
    + rewrite lookup_insert_ne by done. apply change_refl.
Qed.

Lemma ok_timer_ok s addr t s' out :
  calls_ok s -> ok_timer s addr t = (s', out) -> step_ok_for s (pair addr <$> out) s'.
Proof.
  intros [Hds Hp]. unfold ok_timer.
  assert (forall s'', dialogs s'' = dialogs s -> pending s'' = pending s ->
    step_ok_for s (pair addr <$> []) s'') as Hsame.
  { intros s'' E1 E2. split; [split; [by rewrite E1|by rewrite E2]|]. split; [constructor|].
    intros a. rewrite E1. apply change_refl. }
  destruct (deferred s !! addr) as [[g call []]|]; [intros [= <- <-]; by apply Hsame| |intros [= <- <-]; by apply Hsame].
  destruct (dialogs s !! addr) as [d|] eqn:Ed; [|intros [= <- <-]; by apply Hsame].
  case_decide as Hc; intros [= <- <-]; [|by apply Hsame]. destruct Hc as (_ & Hst & _).
  assert (dialog_ok d) as Hd by (by eapply Hds). split; [|split].
  - split; [|done]. apply map_Forall_insert_2; [by apply set_stage_ok|done].
  - constructor; [by apply ok_ok|constructor].
  - intros a. rewrite sent_to_pairs. cbn [dialogs]. case_decide as Ha.
    + subst a. rewrite lookup_insert_eq, Ed. by apply change_established.
    + rewrite lookup_insert_ne by done. apply change_refl.
Qed.

Lemma calls_step_ok s out s' : calls_ok s -> calls_step s out s' -> step_ok_for s out s'.
Proof.
  intros Hs. destruct 1 as [s addr pre data _ _|s p tries s' out Hp E|s addr t s' out E|s addr t s' out E|s addr|s addr].
  - by apply probe_begin_ok.
  - by eapply probe_end_ok.
  - by eapply ring_timer_ok.
  - by eapply ok_timer_ok.
  - destruct Hs as [Hds Hp]. split; [split; [by apply map_Forall_delete|done]|]. split; [constructor|].
    intros a. cbn [dialogs forget_client]. destruct (decide (addr = a)) as [->|Ha].
    + rewrite lookup_delete_eq. destruct (dialogs s !! a); constructor.
    + rewrite lookup_delete_ne by done. apply change_refl.
  - split; [done|]. split; [constructor|]. intros a. apply change_refl.
Qed.

Lemma calls_new_ok : calls_ok calls_new.
Proof. split; [apply map_Forall_empty|done]. Qed.

Lemma reach_invariant tr s : calls_reach tr s -> calls_ok s /\ Forall (fun e => sip_ok e.2) tr.
Proof.
  induction 1 as [|tr s out s' _ [IH1 IH2] Hs]; [split; [apply calls_new_ok|constructor]|].
  destruct (calls_step_ok s out s' IH1 Hs) as (Hok & Hout & _). split; [done|]. by apply Forall_app.
Qed.

(** C37: SIP answers are well formed and bounded.  In every interleaving of
    requests, sends that fail or succeed, timers, ends of sessions and shutdowns,
    each datagram that the SIP side of the proxy sends has at most 512 bytes and
    reads as a SIP response with an empty body, one content length of zero, and
    otherwise only lines echoed from the five transaction headers; every dialog
    that is kept satisfies the invariant that makes this so. *)
Theorem sip_calls_safe (tr : list (K * bytes)) s :
  calls_reach tr s ->
  Forall (fun e => sip_ok e.2) tr /\ dialogs_ok (dialogs s).
Proof. intros Hr. apply reach_invariant in Hr as [[Hd _] Ht]. by split. Qed.

(** C38: stages change as a call does.  In every reachable state, one step leaves
    the stage of each client's dialog as it is, removes the dialog, replaces it by
    a fresh one only when there is none to keep (or it has ended, or the call is
    another), or moves it along Idle, Invited, Ringing, Established, Terminated:
    to Invited only after a response went out, to Ringing only with a 180 sent in
    that step, to Established only with exactly the 200 OK of that dialog.  A call
    that has ended is never rung or answered by its deferred task. *)
Theorem sip_stage_changes (tr : list (K * bytes)) s out s' (a : K) :
  calls_reach tr s -> calls_step s out s' ->
  change (sent_to a out) (dialogs s !! a) (dialogs s' !! a)
  /\ forall d t, dialogs s !! a = Some d -> stage d = Terminated ->
       (ring_timer s a t).2 = [] /\ (ok_timer s a t).2 = [].
Proof.
  intros Hr Hs. apply reach_invariant in Hr as [Hok _]. split; [by apply (calls_step_ok s out s')|].
  intros d t Ed Et. unfold ring_timer, ok_timer. rewrite Ed, Et.
  split; (destruct (deferred s !! a) as [[g call []]|]; try done); rewrite decide_False; try done.
  - intros (_ & Hf & _). done.
  - intros (_ & [Hf|Hf] & _); done.
Qed.

(** ** The course of a call *)

Lemma upper_of_lower x c : (65 ≤ c ≤ 90)%Z -> to_ascii_lower x = to_ascii_lower c -> to_ascii_upper x = c.
Proof. unfold to_ascii_lower, to_ascii_upper. intros Hc. repeat case_decide; lia. Qed.

Lemma invite_upper data d :
  from_invite data = Some d -> exists m, sip_method data = Some m /\ to_ascii_upper <$> m = INVITE.
Proof.
  unfold from_invite. destruct (sip_method data) as [m|]; cbn [mbind option_bind]; [|done].
  destruct (negb _) eqn:E; [done|]. intros _. exists m. split; [done|].
  apply negb_false_iff, bool_decide_eq_true in E. change (bstr "INVITE") with INVITE in E.
  assert (Forall (fun c => 65 ≤ c ≤ 90)%Z INVITE) as Hu by evaluate. revert E Hu. clear. generalize INVITE as w.
  induction m as [|x m IH]; intros [|c w]; cbn; try done. intros [= Hx Hm] [Hc Hw]%Forall_cons.
  f_equal; [by apply upper_of_lower|by apply IH].
Qed.

Definition all_out : Try := mkTry true true true.

(** A call is answered.  When no datagram is in progress and the client has no
    call of that Call-ID under way, an INVITE that can be parsed is answered, as
    long as the limits admit it, by 100 Trying at once, 180 Ringing at the first
    timer and 200 OK at the second, after which the dialog is established and the
    deferred task is gone. *)
Theorem invite_is_answered s (addr : K) (data : bytes) (d : SipDialog) :
  pending s = None -> from_invite data = Some d -> is_new_dialog (dialogs s !! addr) d = true ->
  let '(s1, o1) := probe_end (probe_begin s addr false data) [all_out] in
  let '(s2, o2) := ring_timer s1 addr all_out in
  let '(s3, o3) := ok_timer s2 addr all_out in
  o1 = [build_sip_response d TRYING false] /\ o2 = [generate_sip_ringing d] /\ o3 = [generate_sip_ok d]
  /\ dialogs s3 !! addr = Some (set_stage d Established) /\ deferred s3 !! addr = None /\ pending s3 = None.
Proof.
  intros Hp Hd Hnew. destruct (invite_upper data d Hd) as (m & Em & Eu).
  destruct (from_invite_ok data d Hd) as [_ Hst].
  unfold probe_begin. rewrite Em, Eu. unfold take_request. rewrite decide_True, Hd, Hnew by done.
  cbn [immediate_responses]. unfold immediate_responses. rewrite lookup_insert_eq.
  unfold generate_sip_responses. rewrite decide_True, Hst by done.
  unfold probe_end. cbn [pending p_use_stored p_pre_acquired p_responses p_fresh_call p_addr p_method
    p_stage_before send_all goes_out all_out acquired consumed delivered orb andb app length dialogs deferred generation].
  rewrite decide_False by done. unfold ring_timer. cbn [deferred dialogs]. rewrite lookup_insert_eq.
  rewrite lookup_alter_eq, lookup_insert_eq. cbn [fmap option_fmap option_map].
  match goal with |- context [set_stage d ?st] => assert (st = Invited) as -> end.
  { rewrite Hst. unfold sip_stage_after_immediate_response. rewrite decide_True by done. done. }
  rewrite decide_True by done. unfold ok_timer. cbn [deferred dialogs]. rewrite !lookup_insert_eq.
  rewrite decide_True by (split; [done|split; [by right|done]]).
  cbn [dialogs deferred pending]. rewrite lookup_insert_eq, lookup_delete_eq. by split_and!.
Qed.
End calls.

(** ** An example call, and two observations *)

Definition message (ls : list string) : bytes := crlf_lines (bstr <$> ls) ++ CRLF.
Definition test_invite : bytes :=
  message ["INVITE sip:bob@b.example SIP/2.0"; "Via: SIP/2.0/UDP a.example;branch=z9hG4bK1";
           "From: <sip:alice@a.example>;tag=1"; "To: <sip:bob@b.example>"; "Call-ID: c1"; "CSeq: 1 INVITE"].
Definition test_options : bytes :=
  message ["OPTIONS sip:bob@b.example SIP/2.0"; "Via: SIP/2.0/UDP a.example;branch=z9hG4bK2";
           "From: <sip:alice@a.example>;tag=1"; "To: <sip:bob@b.example>"; "Call-ID: c1"; "CSeq: 2 OPTIONS"].
Definition test_dialog : SipDialog := default (mkSipDialog Idle [] [] [] [] [] [] [] [] []) (from_invite test_invite).

Lemma test_invite_parses : from_invite test_invite = Some test_dialog.
Proof. vm_compute. reflexivity. Qed.

Lemma invite_is_answered_witness :
  pending (calls_new (K := nat)) = None /\ from_invite test_invite = Some test_dialog
  /\ (let '(s1, o1) := probe_end (probe_begin calls_new 7 false test_invite) [all_out] in
      let '(s2, o2) := ring_timer s1 7 all_out in
      let '(s3, o3) := ok_timer s2 7 all_out in
      o1 = [build_sip_response test_dialog TRYING false] /\ o2 = [generate_sip_ringing test_dialog]
      /\ o3 = [generate_sip_ok test_dialog]
      /\ dialogs s3 !! 7 = Some (set_stage test_dialog Established) /\ deferred s3 !! 7 = None
      /\ pending s3 = None).
Proof.
  assert (is_new_dialog (dialogs (calls_new (K := nat)) !! 7) test_dialog = true) as Hn by (vm_compute; reflexivity).
  split; [reflexivity|]. split; [exact test_invite_parses|].
  pose proof (invite_is_answered (calls_new (K := nat)) 7 test_invite test_dialog eq_refl test_invite_parses Hn) as H.
  exact H.
Defined.

(** The state after the INVITE was answered with 100 Trying. *)
Definition after_invite : Calls (K := nat) := (probe_end (probe_begin calls_new 7 false test_invite) [all_out]).1.

Lemma after_invite_reach :
  calls_reach [(7, build_sip_response test_dialog TRYING false)] after_invite
  /\ pending after_invite = None /\ dialogs after_invite !! 7 = Some (set_stage test_dialog Invited)
  /\ deferred after_invite !! 7 = Some (mkDeferred 0 (bstr "c1") WaitRinging).
Proof.
  split; [|vm_compute; done]. set (s1 := probe_begin (calls_new (K := nat)) 7 false test_invite).
  assert (calls_reach [] s1) as H1.
  { apply (reach_step [] calls_new []); [apply reach_new|]. apply step_begin; [done|by evaluate]. }
  set (p := mkProbe 7 INVITE (Some (bstr "c1")) (Some Idle) true false [build_sip_response test_dialog TRYING false]).
  assert (pending s1 = Some p) as Hp by (vm_compute; reflexivity).
  assert (probe_end s1 [all_out] = (after_invite, [build_sip_response test_dialog TRYING false])) as He
    by (vm_compute; reflexivity).
  exact (reach_step [] s1 _ after_invite H1 (step_end s1 p [all_out] _ _ Hp He)).
Qed.

Lemma sip_calls_safe_witness :
  exists tr, calls_reach tr after_invite /\ tr <> []
    /\ Forall (fun e => sip_ok e.2) tr /\ dialogs_ok (dialogs after_invite).
Proof.
  destruct after_invite_reach as (Hr & _). eexists. split; [exact Hr|]. split; [discriminate|].
  exact (sip_calls_safe _ _ Hr).
Defined.

Lemma sip_stage_changes_witness :
  let '(s', out) := ring_timer after_invite 7 all_out in
  calls_step after_invite (pair 7 <$> out) s' /\ out = [generate_sip_ringing test_dialog]
  /\ change (sent_to 7 (pair 7 <$> out)) (dialogs after_invite !! 7) (dialogs s' !! 7).
Proof.
  destruct after_invite_reach as (Hr & _).
  destruct (ring_timer after_invite 7 all_out) as [s' out] eqn:E.
  assert (calls_step after_invite (pair 7 <$> out) s') as Hs by (by apply (step_ring _ _ all_out)).
  split; [exact Hs|]. split; [|exact (proj1 (sip_stage_changes _ _ _ _ 7 Hr Hs))].
  apply (f_equal snd) in E. cbn [snd] in E. rewrite <- E. vm_compute. reflexivity.
Defined.

(** The deferred answers take the transaction headers of the latest request of the
    call: an OPTIONS in between, and the 180 Ringing to the INVITE carries the
    branch and the sequence number of the OPTIONS. *)
Lemma deferred_ringing_of_other_transaction :
  let s1 := (probe_end (probe_begin after_invite 7 false test_options) [all_out]).1 in
  exists pkt, (ring_timer s1 7 all_out).2 = [pkt]
    /\ reads_as pkt RINGING
         [bstr "Via: SIP/2.0/UDP a.example;branch=z9hG4bK2"; bstr "From: <sip:alice@a.example>;tag=1";
          bstr "To: <sip:bob@b.example>;tag=" ++ to_tag test_dialog; bstr "Call-ID: c1"; bstr "CSeq: 2 OPTIONS"].
Proof.
  cbv zeta. eexists. split; [vm_compute; reflexivity|]. eexists. split; [vm_compute; reflexivity|].
  split_and!; vm_compute; reflexivity.
Qed.

(** A seven-byte datagram is answered with 41 bytes: the lower bound on the size
    of a request is only checked when no method is found. *)
Lemma short_invite_answered :
  let data := bstr "INVITE " in
  length data = 7 /\ detect_protocol data = Ok (Some Sip)
  /\ exists pkt, (probe_end (probe_begin (calls_new (K := nat)) 7 false data) [all_out]).2 = [pkt]
       /\ length pkt = 41.
Proof. cbv zeta. split; [done|]. split; [vm_compute; reflexivity|]. eexists. by split; [vm_compute; reflexivity|]. Qed.
