(* ===== verification/HttpServer.v ===== *)
(** * The HTTP/1.1 server ([src/src/http/server.rs])

    The connection reader over the events of a socket, the request head, the body
    framing, chunked bodies, the response writer, and the loop that serves one
    connection.  The crate [http] is an interface: what it accepts as a method, a
    target, a header name and a header value. *)
From S2P Require Import Prelude Text.

(** ** What the [http] crate promises *)

(** Method, target, names and values are their bytes; [header_name] gives the name
    in lower case. *)
Class HttpCrate : Type := {
  method_ok : bytes -> bool;
  uri_ok : bytes -> bool;
  header_name : bytes -> option bytes;
  value_ok : bytes -> bool;
  value_to_str : bytes -> option bytes;
  canonical_reason : Z -> option bytes;
}.

(** A character of a token (RFC 9110, section 5.6.2). *)
Definition token_char (c : Z) : Prop := graph c /\ c ∉ bstr ":;,/?@()<>[]{}=\" /\ c <> 34%Z.

#[export] Instance token_char_dec c : Decision (token_char c).
Proof. unfold token_char. apply _. Defined.

(** The documented behaviour: methods and names are tokens, values have no control
    character but the tab, and [to_str] is the identity on printable values. *)
Class HttpLaws (H : HttpCrate) : Prop := {
  method_token m : method_ok m = true -> m <> [] /\ Forall token_char m;
  name_token n n' : header_name n = Some n' -> n' = to_ascii_lower <$> n /\ n <> [] /\ Forall token_char n;
  value_chars v : value_ok v = true -> Forall (fun c => c = 9 \/ 32 ≤ c /\ c <> 127)%Z v;
  to_str_id v s : value_to_str v = Some s -> s = v;
  to_str_printable v : Forall (fun c => 32 ≤ c ≤ 126)%Z v -> value_to_str v = Some v;
  name_accepts n : n <> [] -> Forall token_char n -> (Z.of_nat (length n) < 2 ^ 16)%Z ->
    header_name n = Some (to_ascii_lower <$> n);
  value_accepts v : Forall (fun c => 32 ≤ c ≤ 126)%Z v -> value_ok v = true;
  reason_chars n s : canonical_reason n = Some s -> Forall (fun c => 32 ≤ c ≤ 126)%Z s;
}.

(** ** Errors *)

Inductive ParseError : Set := Closed | BadRequest (m : bytes) | HeadersTooLarge | BodyTooLarge | Timeout.

(** A call on the connection fails, or waits for the socket until it times out. *)
Inductive Interrupt : Set := Fails (e : ParseError) | Waiting.
#[export] Instance ParseError_eq_dec : EqDecision ParseError.
Proof. solve_decision. Defined.
#[export] Instance Interrupt_eq_dec : EqDecision Interrupt.
Proof. solve_decision. Defined.
Definition bad {A} (m : string) : result Interrupt A := Err (Fails (BadRequest (bstr m))).
Arguments bad {A} m%_string_scope.

Definition error_status (e : ParseError) : Z :=
  match e with
  | Closed => 400 | BadRequest _ => 400 | HeadersTooLarge => 431 | BodyTooLarge => 413 | Timeout => 408
  end.

Definition MAX_REQUEST_LINE : nat := 8 * 1024.
Definition MAX_HEADER_BYTES : nat := 32 * 1024.
Definition MAX_HEADERS : nat := 100.
Definition MAX_BODY_BYTES : Z := 2 * 1024 * 1024.
Definition MAX_REQUESTS_PER_CONNECTION : nat := 512.

(** ** The connection reader *)

(** What the reads of the socket give; after the list they wait. *)
Inductive Event : Set := Data (chunk : bytes) | Eof | IoError.

Record ConnReader : Set := mkConnReader { inner : list Event; buf : bytes; pos : nat }.

Definition reader_new (es : list Event) : ConnReader := mkConnReader es [] 0.

Definition compact (r : ConnReader) : ConnReader :=
  if decide (0 < pos r) then mkConnReader (inner r) (drop (pos r) (buf r)) 0 else r.

Definition has_buffered (r : ConnReader) : bool := bool_decide (pos r < length (buf r)).

Abbreviation io A := (result Interrupt (A * ConnReader)).

(** [Ok(false)] is the end of the stream, which stays; both callers map an I/O
    error to [Closed]. *)
Definition fill (r : ConnReader) : io bool :=
  match inner r with
  | [] => Err Waiting
  | Data [] :: _ => Ok (false, r)
  | Data chunk :: es => Ok (true, mkConnReader es (buf r ++ chunk) (pos r))
  | Eof :: _ => Ok (false, r)
  | IoError :: _ => Err (Fails Closed)
  end.

(** [position(|&b| b == b'\n')]. *)
Fixpoint newline_at (b : bytes) : option nat :=
  match b with
  | [] => None
  | c :: b => if decide (c = 10%Z) then Some 0 else S <$> newline_at b
  end.

Definition pop_cr (line : bytes) : bytes :=
  match reverse line with c :: l => if decide (c = 13%Z) then reverse l else line | [] => line end.

(** One turn per event is enough. *)
Fixpoint read_line_loop (fuel : nat) (limit : nat) (r : ConnReader) : io bytes :=
  match fuel with
  | O => Stuck OutOfFuel
  | S fuel =>
      rest ← slice (buf r) (pos r) (length (buf r));
      match newline_at rest with
      | Some idx => Ok (pop_cr (take idx rest), mkConnReader (inner r) (buf r) (pos r + idx + 1))
      | None =>
          if decide (limit < length rest) then Err (Fails HeadersTooLarge) else
          '(more, r) ← fill r;
          if (more : bool) then read_line_loop fuel limit r
          else if has_buffered r then bad "connection closed mid-request" else Err (Fails Closed)
      end
  end.
Definition read_line (limit : nat) (r : ConnReader) : io bytes :=
  read_line_loop (S (length (inner r))) limit r.

Fixpoint read_exact_loop (fuel : nat) (n : Z) (r : ConnReader) : io bytes :=
  match fuel with
  | O => Stuck OutOfFuel
  | S fuel =>
      have ← usize_sub (length (buf r)) (pos r);
      if decide (Z.of_nat have < n)%Z then
        '(more, r) ← fill r;
        if (more : bool) then read_exact_loop fuel n r else bad "body shorter than Content-Length"
      else
        out ← slice (buf r) (pos r) (pos r + Z.to_nat n);
        Ok (out, mkConnReader (inner r) (buf r) (pos r + Z.to_nat n))
  end.
Definition read_exact (n : Z) (r : ConnReader) : io bytes := read_exact_loop (S (length (inner r))) n r.

(** ** The request head *)

Inductive Version : Set := HTTP_10 | HTTP_11.
Record Head : Set := mkHead {
  method : bytes; target : bytes; version : Version; headers : list (bytes * bytes);
}.

Fixpoint trim_ascii_start (v : bytes) : bytes :=
  match v with c :: v' => if is_ascii_whitespace c then trim_ascii_start v' else v | [] => [] end.
Definition trim_ascii (v : bytes) : bytes := reverse (trim_ascii_start (reverse (trim_ascii_start v))).

Definition ends_in_whitespace (n : bytes) : bool :=
  match reverse n with c :: _ => is_ascii_whitespace c | [] => false end.

Section server.
Context `{HttpCrate}.

(** One header line. *)
Definition parse_header (line : bytes) : result Interrupt (bytes * bytes) :=
  first ← index line 0;
  if decide (first = 32 \/ first = 9)%Z then bad "obsolete line folding" else
  match split_once 58 line with
  | None => bad "header without a colon"
  | Some (name, value) =>
      if ends_in_whitespace name then bad "whitespace before header colon" else
      let value := trim_ascii value in
      match header_name name with
      | None => bad "invalid header name"
      | Some name => if value_ok value then Ok (name, value) else bad "invalid header value"
      end
  end.

(** The loop over header lines; the count bounds its turns. *)
Fixpoint read_headers (fuel : nat) (hs : list (bytes * bytes)) (header_bytes header_count : nat)
    (r : ConnReader) : io (list (bytes * bytes)) :=
  match fuel with
  | O => Stuck OutOfFuel
  | S fuel =>
      '(line, r) ← read_line MAX_HEADER_BYTES r;
      if decide (line = []) then Ok (hs, r) else
      let header_bytes := header_bytes + length line in
      let header_count := header_count + 1 in
      if decide (MAX_HEADER_BYTES < header_bytes \/ MAX_HEADERS < header_count) then Err (Fails HeadersTooLarge) else
      h ← parse_header line;
      read_headers fuel (hs ++ [h]) header_bytes header_count r
  end.

Definition parse_version (v : bytes) : option Version :=
  if decide (v = bstr "HTTP/1.1") then Some HTTP_11
  else if decide (v = bstr "HTTP/1.0") then Some HTTP_10 else None.

Definition parse_request_line (line : bytes) : result Interrupt (bytes * bytes * Version) :=
  if negb (utf8_valid line) then bad "request line is not valid UTF-8" else
  match split_on (fun c => bool_decide (c = 32%Z)) line with
  | [method; target; version] =>
      if negb (method_ok method) then bad "bad method" else
      if decide (method = bstr "CONNECT") then bad "CONNECT is not supported" else
      if negb (bool_decide (head target = Some 47%Z)) then bad "request target must be origin-form" else
      if negb (uri_ok target) then bad "malformed request target" else
      match parse_version version with
      | Some v => Ok (method, target, v)
      | None => bad "unsupported HTTP version"
      end
  | _ => bad "malformed request line"
  end.

Definition read_head (r : ConnReader) : io Head :=
  '(line, r) ← read_line MAX_REQUEST_LINE r;
  if decide (line = []) then bad "empty request line" else
  if decide (MAX_REQUEST_LINE < length line) then Err (Fails HeadersTooLarge) else
  '(m, t, v) ← parse_request_line line;
  '(hs, r) ← read_headers (MAX_HEADERS + 2) [] 0 0 r;
  Ok (mkHead m t v hs, r).

(** ** Body framing *)

Inductive Framing : Set := NoBody | Length (n : Z) | Chunked.

Definition TRANSFER_ENCODING : bytes := bstr "transfer-encoding".
Definition CONTENT_LENGTH : bytes := bstr "content-length".
Definition CONNECTION : bytes := bstr "connection".

Definition get_all (name : bytes) (hs : list (bytes * bytes)) : list bytes :=
  snd <$> filter (fun h => fst h = name) hs.

Definition comma : Z -> bool := fun c => bool_decide (c = 44%Z).

(** The parts of one header must all be the same number. *)
Fixpoint parse_lengths (parts : list bytes) (parsed : option Z) : result Interrupt (option Z) :=
  match parts with
  | [] => Ok parsed
  | part :: parts =>
      let part := trim part in
      if decide (part = []) then bad "invalid Content-Length" else
      if negb (forallb is_ascii_digit part) then bad "invalid Content-Length" else
      match parse_uint (2 ^ 64 - 1) part with
      | None => bad "invalid Content-Length"
      | Some value =>
          match parsed with
          | Some seen =>
              if decide (seen <> value) then bad "conflicting Content-Length values"
              else parse_lengths parts (Some value)
          | None => parse_lengths parts (Some value)
          end
      end
  end.

Definition framing (hs : list (bytes * bytes)) : result Interrupt Framing :=
  let content_lengths := get_all CONTENT_LENGTH hs in
  match get_all TRANSFER_ENCODING hs with
  | [] =>
      match content_lengths with
      | [] => Ok NoBody
      | [value] =>
          match value_to_str value with
          | None => bad "invalid Content-Length"
          | Some text =>
              o ← parse_lengths (split_on comma (trim text)) None;
              match o with
              | None => bad "invalid Content-Length"
              | Some n => if decide (MAX_BODY_BYTES < n)%Z then Err (Fails BodyTooLarge) else Ok (Length n)
              end
          end
      | _ => bad "multiple Content-Length headers"
      end
  | codings =>
      if negb (bool_decide (content_lengths = [])) then bad "both Content-Length and Transfer-Encoding" else
      match codings with
      | [value] =>
          match value_to_str value with
          | None => bad "invalid Transfer-Encoding"
          | Some text =>
              if decide ((to_ascii_lower <$> trim text) = bstr "chunked") then Ok Chunked
              else bad "unsupported Transfer-Encoding"
          end
      | _ => bad "multiple Transfer-Encoding headers"
      end
  end.

(** ** Chunked bodies *)

(** The bytes that the reader can still give. *)
Definition supply (r : ConnReader) : nat :=
  length (buf r) + foldr (fun e n => match e with Data b => length b + n | _ => n end) 0 (inner r).

Fixpoint read_trailers (fuel : nat) (r : ConnReader) : io unit :=
  match fuel with
  | O => Stuck OutOfFuel
  | S fuel =>
      '(trailer, r) ← read_line MAX_HEADER_BYTES r;
      if decide (trailer = []) then Ok (tt, r) else read_trailers fuel r
  end.

Definition is_ascii_hexdigit (c : Z) : bool := bool_decide (is_Some (hex_value c)).

Definition parse_chunk_size (line : bytes) : result Interrupt Z :=
  if negb (utf8_valid line) then bad "invalid chunk size" else
  let size_text := trim (span (fun c => negb (bool_decide (c = 59%Z))) line).1 in
  if decide (size_text = []) then bad "invalid chunk size" else
  if negb (forallb is_ascii_hexdigit size_text) then bad "invalid chunk size" else
  match parse_hex (2 ^ 64 - 1) size_text with
  | Some size => Ok size
  | None => bad "invalid chunk size"
  end.

(** The sum of the lengths wraps: the release build has no overflow checks. *)
Fixpoint read_chunks (fuel : nat) (body : bytes) (r : ConnReader) : io bytes :=
  match fuel with
  | O => Stuck OutOfFuel
  | S fuel =>
      '(line, r) ← read_line 1024 r;
      size ← parse_chunk_size line;
      if decide (size = 0%Z) then
        '(_, r) ← read_trailers (S (supply r)) r; Ok (body, r)
      else if decide (MAX_BODY_BYTES < u64 (Z.of_nat (length body) + size))%Z then Err (Fails BodyTooLarge)
      else
        '(chunk, r) ← read_exact size r;
        '(sep, r) ← read_line 8 r;
        if decide (sep <> []) then bad "malformed chunk terminator" else read_chunks fuel (body ++ chunk) r
  end.
Definition read_chunked (r : ConnReader) : io bytes := read_chunks (S (supply r)) [] r.

(** ** Responses *)

Record Response : Set := mkResponse { status : Z; rheaders : list (bytes * bytes); rbody : bytes }.

Definition CRLF : bytes := [13; 10]%Z.
Definition header_line (h : bytes * bytes) : bytes := fst h ++ bstr ": " ++ snd h ++ CRLF.
Definition is_framing_name (n : bytes) : bool :=
  bool_decide (n = CONTENT_LENGTH \/ n = CONNECTION \/ n = TRANSFER_ENCODING).
Definition bodyless_status (s : Z) : bool := bool_decide (s = 204 \/ s = 304)%Z.

Definition write_response (res : Response) (include_body keep_alive : bool) : bytes :=
  let head :=
    bstr "HTTP/1.1 " ++ decimal (status res) ++ bstr " " ++ default [] (canonical_reason (status res)) ++ CRLF
    ++ mjoin (header_line <$> filter (fun h => is_framing_name (fst h) = false) (rheaders res))
    ++ (if bodyless_status (status res) then []
        else bstr "content-length: " ++ decimal (Z.of_nat (length (rbody res))) ++ CRLF)
    ++ (if keep_alive then bstr "connection: keep-alive" else bstr "connection: close") ++ CRLF
    ++ CRLF in
  head ++ (if include_body && negb (bodyless_status (status res)) then rbody res else []).

Definition error_response (status : Z) (message : bytes) : Response :=
  mkResponse status [(bstr "content-type", bstr "application/json")]
    ([123; 34] ++ bstr "error" ++ [34; 58; 34]
     ++ ((fun c => if decide (c = 34) then 39 else c) <$> message) ++ [34; 125])%Z.

(** ** Serving a connection *)

Definition wants_keep_alive (h : Head) : bool :=
  let value := match get_all CONNECTION (headers h) with v :: _ => default [] (value_to_str v) | [] => [] end in
  let tokens := trim <$> split_on comma (to_ascii_lower <$> value) in
  if decide (bstr "close" ∈ tokens) then false
  else match version h with HTTP_10 => bool_decide (bstr "keep-alive" ∈ tokens) | HTTP_11 => true end.

Definition expects_continue (h : Head) : bool :=
  match get_all (bstr "expect") (headers h) with
  | v :: _ => match value_to_str v with
              | Some s => eq_ignore_ascii_case s (bstr "100-continue") | None => false end
  | [] => false
  end.

Definition read_body (f : Framing) (r : ConnReader) : io bytes :=
  match f with
  | NoBody => Ok ([], r)
  | Length n => if decide (n = 0%Z) then Ok ([], r) else read_exact n r
  | Chunked => read_chunked r
  end.

Definition head_error_message (e : ParseError) : bytes :=
  match e with
  | BadRequest m => m
  | HeadersTooLarge => bstr "request headers too large"
  | BodyTooLarge => bstr "request body too large"
  | Timeout => bstr "request timed out"
  | Closed => []
  end.
Definition framing_error_message (e : ParseError) : bytes :=
  match e with
  | BadRequest m => m
  | BodyTooLarge => bstr "request body too large"
  | _ => bstr "bad request"
  end.

(** The router, as the response to the request of a number on the connection. *)
Context (dispatch : nat -> Head -> bytes -> Response).

(** What was written and which requests were dispatched; writes succeed. *)
Definition Served : Type := bytes * list (Head * bytes).

Definition refuse (out : bytes) (reqs : list (Head * bytes)) (status : Z) (message : bytes) : Served :=
  (out ++ write_response (error_response status message) true false, reqs).

Fixpoint serve_loop (fuel : nat) (k : nat) (r : ConnReader) (out : bytes) (reqs : list (Head * bytes))
    : result Empty_set Served :=
  match fuel with
  | O => Ok (out, reqs)
  | S fuel =>
      match read_head (compact r) with
      | Stuck s => Stuck s
      | Err Waiting | Err (Fails Closed) => Ok (out, reqs)
      | Err (Fails e) => Ok (refuse out reqs (error_status e) (head_error_message e))
      | Ok (h, r) =>
          let keep_alive := wants_keep_alive h && bool_decide (k < MAX_REQUESTS_PER_CONNECTION) in
          let is_head_request := bool_decide (method h = bstr "HEAD") in
          match framing (headers h) with
          | Stuck s => Stuck s
          | Err Waiting => Ok (out, reqs)
          | Err (Fails e) => Ok (refuse out reqs (error_status e) (framing_error_message e))
          | Ok f =>
              let out := if expects_continue h then out ++ bstr "HTTP/1.1 100 Continue" ++ CRLF ++ CRLF else out in
              match read_body f r with
              | Stuck s => Stuck s
              | Err Waiting => Ok (refuse out reqs (error_status Timeout) (bstr "request body timed out"))
              | Err (Fails e) => Ok (refuse out reqs (error_status e) (bstr "malformed request body"))
              | Ok (body, r) =>
                  let response := dispatch k h body in
                  let out := out ++ write_response response (negb is_head_request) keep_alive in
                  let reqs := reqs ++ [(h, body)] in
                  if keep_alive then serve_loop fuel (k + 1) r out reqs else Ok (out, reqs)
              end
          end
      end
  end.

Definition serve_connection (es : list Event) : result Empty_set Served :=
  serve_loop MAX_REQUESTS_PER_CONNECTION 1 (reader_new es) [] [].
End server.
