(* ===== verification/HttpReader.v ===== *)
(** * The connection reader as a parser of one byte stream

    What [read_line] and [read_exact] of [src/src/http/server.rs] give depends only
    on the bytes of the socket, not on how its reads cut them: the reader at a
    point stands for a stream of bytes, a line or a block of bytes is taken from
    the front of it, and a stream has at most one front line. *)
From S2P Require Import Prelude Text HttpServer.

(** ** Lists around a separator *)

Lemma app_cons_once {A} (c : A) l1 l2 r1 r2 :
  c ∉ l1 -> c ∉ l2 -> l1 ++ c :: r1 = l2 ++ c :: r2 -> l1 = l2 /\ r1 = r2.
Proof.
  revert l2. induction l1 as [|x l1 IH]; intros [|y l2] H1 H2 [= E]; subst; rewrite ?not_elem_of_cons in *;
    [done|naive_solver..|].
  destruct (IH l2) as [-> ->]; naive_solver.
Qed.

Lemma before_newline (c : Z) (b a l rest : bytes) :
  b ++ a = l ++ c :: rest -> c ∉ b -> length b ≤ length l /\ a <> [].
Proof.
  intros E Hb. destruct (app_eq_inv _ _ _ _ E) as [(k & -> & Hk)|(k & -> & ->)].
  - destruct k as [|x k].
    + rewrite app_nil_r. cbn in Hk. split; [lia|by intros ->].
    + injection Hk as -> _. exfalso. apply Hb. apply elem_of_app. right. left.
  - rewrite length_app. split; [lia|]. by destruct k.
Qed.

Lemma join_split {A} (p : A -> bool) sep l :
  (forall x, p x = true -> x = sep) -> join_with sep (split_on p l) = l.
Proof.
  intros Hp. induction l as [|x l IH]; cbn; [done|]. pose proof (split_on_nonempty p l) as Hne.
  destruct (split_on p l) as [|h t] eqn:E; [done|]. destruct (p x) eqn:Ex.
  - rewrite (Hp x Ex). cbn in *. by rewrite IH.
  - destruct t as [|h2 t]; cbn in *; by rewrite <- IH.
Qed.

(** ** The stream behind a reader *)

(** What the reads give up to the end of the stream, an error or a wait. *)
Fixpoint avail (es : list Event) : bytes :=
  match es with
  | Data [] :: _ => []
  | Data chunk :: es => chunk ++ avail es
  | _ => []
  end.

Definition stream (r : ConnReader) : bytes := drop (pos r) (buf r) ++ avail (inner r).
Definition reader_ok (r : ConnReader) : Prop := pos r ≤ length (buf r).

(** A front line: up to the line feed, without the carriage return before it. *)
Definition front_line (s l rest : bytes) : Prop :=
  exists line, s = line ++ 10%Z :: rest /\ 10%Z ∉ line /\ l = pop_cr line.

(** Lines up to an empty one. *)
Inductive line_block : bytes -> list bytes -> bytes -> Prop :=
  | block_end s rest : front_line s [] rest -> line_block s [] rest
  | block_line s l s' ls rest :
      front_line s l s' -> l <> [] -> line_block s' ls rest -> line_block s (l :: ls) rest.

(** ** The operations on the stream *)

Lemma reader_new_ok es : reader_ok (reader_new es) /\ stream (reader_new es) = avail es.
Proof. split; [unfold reader_ok; cbn; lia|done]. Qed.

Lemma compact_spec r :
  reader_ok r -> reader_ok (compact r) /\ stream (compact r) = stream r /\ inner (compact r) = inner r.
Proof.
  unfold compact. intros Hr. case_decide; [|done]. unfold reader_ok, stream. cbn. split; [lia|done].
Qed.

Lemma fill_true r r' :
  reader_ok r -> fill r = Ok (true, r') ->
  reader_ok r' /\ stream r' = stream r /\ pos r' = pos r /\ length (buf r) < length (buf r')
  /\ length (inner r) = S (length (inner r')).
Proof.
  unfold fill, reader_ok, stream. intros Hr.
  destruct (inner r) as [|[[|c chunk]| |] es]; intros [= <-]. cbn [inner buf pos length].
  rewrite drop_app_le, <- app_assoc, length_app by done. cbn. repeat split; lia.
Qed.

Lemma fill_false r r' : fill r = Ok (false, r') -> r' = r /\ avail (inner r) = [].
Proof. unfold fill. destruct (inner r) as [|[[|c chunk]| |] es] eqn:E; by intros [= <-]. Qed.

Lemma fill_returns r : returns (fill r).
Proof. unfold fill. by destruct (inner r) as [|[[|]| |]]. Qed.

Lemma fill_more r : avail (inner r) <> [] -> exists r', fill r = Ok (true, r').
Proof. unfold fill. destruct (inner r) as [|[[|]| |]]; naive_solver. Qed.

Lemma newline_at_Some b i :
  newline_at b = Some i <-> exists rest, b = take i b ++ 10%Z :: rest /\ 10%Z ∉ take i b /\ i < length b.
Proof.
  revert i. induction b as [|c b IH]; intros i; cbn [newline_at].
  { split; [done|]. intros (? & ? & ? & ?). cbn in *. lia. }
  case_decide as Hc.
  - subst c. split.
    + intros [= <-]. exists b. split; [done|]. split; [apply not_elem_of_nil|cbn; lia].
    + intros (rest & Hb & Hn & _). destruct i as [|i]; [done|]. exfalso. apply Hn. left.
  - rewrite fmap_Some. setoid_rewrite IH. split.
    + intros (j & (rest & Hb & Hn & Hj) & ->). exists rest. cbn. split; [by rewrite <- Hb|].
      split; [|lia]. apply not_elem_of_cons. split; [congruence|done].
    + intros (rest & Hb & Hn & Hj). destruct i as [|i]; cbn in Hb; [congruence|].
      exists i. split; [|done]. exists rest. injection Hb as Hb. cbn in Hn, Hj.
      apply not_elem_of_cons in Hn as [_ Hn]. repeat split; [done..|lia].
Qed.

Lemma newline_at_None b : newline_at b = None <-> 10%Z ∉ b.
Proof.
  induction b as [|c b IH]; cbn; [split; [intros _; apply not_elem_of_nil|done]|].
  rewrite not_elem_of_cons. case_decide; [naive_solver|].
  destruct (newline_at b); cbn; naive_solver.
Qed.

(** A reader whose buffer holds the line feed gives the line; every other reader
    has to ask the socket. *)
Lemma read_line_buffered fuel limit r i :
  reader_ok r -> newline_at (drop (pos r) (buf r)) = Some i ->
  read_line_loop (S fuel) limit r
  = Ok (pop_cr (take i (drop (pos r) (buf r))), mkConnReader (inner r) (buf r) (pos r + i + 1)).
Proof.
  unfold reader_ok. intros Hr Hi. cbn [read_line_loop].
  rewrite slice_ok, bind_Ok_eq, take_ge by (rewrite ?length_drop; lia). by rewrite Hi.
Qed.

Lemma read_line_waits fuel limit r :
  reader_ok r -> newline_at (drop (pos r) (buf r)) = None ->
  read_line_loop (S fuel) limit r =
    if decide (limit < length (drop (pos r) (buf r))) then Err (Fails HeadersTooLarge) else
    '(more, r) ← fill r;
    if (more : bool) then read_line_loop fuel limit r
    else if has_buffered r then bad "connection closed mid-request" else Err (Fails Closed).
Proof.
  unfold reader_ok. intros Hr Hi. cbn [read_line_loop].
  rewrite slice_ok, bind_Ok_eq, take_ge by (rewrite ?length_drop; lia). by rewrite Hi.
Qed.

Lemma buffered_line r i :
  reader_ok r -> newline_at (drop (pos r) (buf r)) = Some i ->
  let r' := mkConnReader (inner r) (buf r) (pos r + i + 1) in
  reader_ok r' /\ stream r = take i (drop (pos r) (buf r)) ++ 10%Z :: stream r'
  /\ 10%Z ∉ take i (drop (pos r) (buf r)).
Proof.
  intros Hr (rest & Hb & Hn & Hi)%newline_at_Some. rewrite length_drop in Hi.
  unfold reader_ok, stream in *. cbn [inner buf pos]. split; [lia|]. split; [|done].
  rewrite Hb at 1. rewrite <- app_assoc. cbn [app]. do 3 f_equal.
  rewrite <- Nat.add_assoc, <- drop_drop, Hb. rewrite drop_app_ge; rewrite length_take, length_drop; [|lia].
  by replace (i + 1 - i `min` (length (buf r) - pos r)) with 1 by lia.
Qed.

(** [read_line] returns, and what it returns is the front line of the stream. *)
Lemma read_line_sound limit r :
  reader_ok r ->
  match read_line limit r with
  | Ok (l, r') => front_line (stream r) l (stream r') /\ reader_ok r'
  | Err _ => True
  | Stuck _ => False
  end.
Proof.
  unfold read_line. remember (length (inner r)) as n eqn:Hn. revert r Hn.
  induction n as [|n IH]; intros r Hn Hr; destruct (newline_at (drop (pos r) (buf r))) as [i|] eqn:Hi;
    try (rewrite (read_line_buffered _ _ _ i) by done; destruct (buffered_line r i Hr Hi) as (? & ? & ?);
         split; [by eexists|done]);
    rewrite read_line_waits by done; case_decide; try done; pose proof (fill_returns r) as Hf;
    destruct (fill r) as [[[] r1]| |] eqn:E; try done; rewrite bind_Ok_eq; try (by destruct (has_buffered r1));
    destruct (fill_true r r1 Hr E) as (Hr1 & Hs & _ & _ & Hl); [lia|].
  rewrite <- Hs. apply IH; [lia|done].
Qed.

(** A front line within the limit is found, however the socket cuts it. *)
Lemma read_line_complete limit r line rest :
  reader_ok r -> stream r = line ++ 10%Z :: rest -> 10%Z ∉ line -> length line ≤ limit ->
  exists r', read_line limit r = Ok (pop_cr line, r') /\ stream r' = rest /\ reader_ok r'.
Proof.
  unfold read_line. remember (length (inner r)) as n eqn:Hn. revert r Hn.
  induction n as [|n IH]; intros r Hn Hr Hs Hline Hlim;
    (destruct (newline_at (drop (pos r) (buf r))) as [i|] eqn:Hi; [rewrite (read_line_buffered _ _ _ i) by done; destruct (buffered_line r i Hr Hi) as (? & Hs' & ?);
     rewrite Hs in Hs'; apply app_cons_once in Hs' as [-> ->]; [by eexists|done..]|]);
    apply newline_at_None in Hi as Hi'.
  all: assert (Hshort : length (drop (pos r) (buf r)) ≤ length line /\ avail (inner r) <> [])
         by (unfold stream in Hs; by eapply before_newline).
  all: destruct Hshort as [Hshort Hmore]; destruct (fill_more r Hmore) as [r1 E].
  all: destruct (fill_true r r1 Hr E) as (Hr1 & Hs1 & _ & _ & Hl); try lia.
  rewrite read_line_waits by done. rewrite decide_False, E, bind_Ok_eq by lia.
  apply IH; [lia|done|congruence|done|done].
Qed.

(** The same for a block of [n] bytes. *)
Lemma read_exact_buffered fuel n r :
  reader_ok r -> (0 ≤ n ≤ Z.of_nat (length (buf r) - pos r))%Z ->
  exists out r', read_exact_loop (S fuel) n r = Ok (out, r') /\ reader_ok r'
    /\ stream r = out ++ stream r' /\ Z.of_nat (length out) = n.
Proof.
  unfold reader_ok. intros Hr Hn. cbn [read_exact_loop].
  rewrite usize_sub_ok, bind_Ok_eq, decide_False, slice_ok, bind_Ok_eq by lia.
  replace (pos r + Z.to_nat n - pos r) with (Z.to_nat n) by lia.
  eexists _, _. split; [done|]. cbn. split; [lia|]. unfold stream. cbn.
  rewrite <- drop_drop, app_assoc, take_drop. split; [done|].
  rewrite length_take, length_drop. lia.
Qed.

Lemma read_exact_waits fuel n r :
  reader_ok r -> (Z.of_nat (length (buf r) - pos r) < n)%Z ->
  read_exact_loop (S fuel) n r =
    '(more, r) ← fill r;
    if (more : bool) then read_exact_loop fuel n r else bad "body shorter than Content-Length".
Proof.
  unfold reader_ok. intros Hr Hn. cbn [read_exact_loop].
  by rewrite usize_sub_ok, bind_Ok_eq, decide_True by lia.
Qed.

Lemma read_exact_sound n r :
  reader_ok r -> (0 ≤ n)%Z ->
  match read_exact n r with
  | Ok (out, r') => stream r = out ++ stream r' /\ Z.of_nat (length out) = n /\ reader_ok r'
  | Err _ => True
  | Stuck _ => False
  end.
Proof.
  unfold read_exact. remember (length (inner r)) as m eqn:Hm. revert r Hm.
  induction m as [|m IH]; intros r Hm Hr Hn;
    (destruct (decide (n ≤ Z.of_nat (length (buf r) - pos r))%Z) as [H|H];
     [destruct (read_exact_buffered (length (inner r)) n r) as (out & r' & E & ? & ? & ?); [done..|];
      rewrite <- Hm in E; by rewrite E|]);
    rewrite read_exact_waits by (done || lia); pose proof (fill_returns r) as Hf;
    destruct (fill r) as [[[] r1]| |] eqn:E; try done; rewrite bind_Ok_eq;
    destruct (fill_true r r1 Hr E) as (Hr1 & Hs & _ & _ & Hl); [lia|].
  rewrite <- Hs. apply IH; [lia|done..].
Qed.

Lemma read_exact_complete n r out rest :
  reader_ok r -> stream r = out ++ rest -> Z.of_nat (length out) = n ->
  exists r', read_exact n r = Ok (out, r') /\ stream r' = rest /\ reader_ok r'.
Proof.
  unfold read_exact. remember (length (inner r)) as m eqn:Hm. revert r Hm.
  induction m as [|m IH]; intros r Hm Hr Hs Hn;
    (destruct (decide (n ≤ Z.of_nat (length (buf r) - pos r))%Z) as [H|H];
     [destruct (read_exact_buffered (length (inner r)) n r) as (out' & r' & E & ? & Hs' & ?); [done|lia|];
      rewrite <- Hm in E; rewrite Hs in Hs'; apply app_inj_1 in Hs' as [-> ->]; [by eexists|lia]|]);
    assert (Hmore : avail (inner r) <> []) by
      (intros Ha; unfold stream in Hs; rewrite Ha, app_nil_r in Hs; apply (f_equal length) in Hs;
       rewrite length_app, length_drop in Hs; lia);
    destruct (fill_more r Hmore) as [r1 E];
    destruct (fill_true r r1 Hr E) as (Hr1 & Hs1 & _ & _ & Hl); try lia.
  rewrite read_exact_waits, E, bind_Ok_eq by (done || lia).
  apply IH; [lia|done|congruence|done].
Qed.

(** ** A stream has one front line and one block *)

Lemma front_line_fun s l1 l2 r1 r2 : front_line s l1 r1 -> front_line s l2 r2 -> l1 = l2 /\ r1 = r2.
Proof. intros (l & -> & Hl & ->) (l' & E & Hl' & ->). by apply app_cons_once in E as [-> ->]. Qed.

Lemma line_block_fun s ls1 ls2 r1 r2 :
  line_block s ls1 r1 -> line_block s ls2 r2 -> ls1 = ls2 /\ r1 = r2.
Proof.
  intros H. revert ls2. induction H as [s r H|s l s' ls r H Hne _ IH]; intros ls2 H2;
    inversion H2 as [s2 r2' H'|s2 l' s2' ls' r2' H' Hne' H2']; subst;
    destruct (front_line_fun _ _ _ _ _ H H') as [? ?]; subst; try done.
  by destruct (IH _ H2') as [-> ->].
Qed.

Lemma pop_cr_cr l : pop_cr (l ++ [13%Z]) = l.
Proof. unfold pop_cr. rewrite reverse_snoc, decide_True by done. apply reverse_involutive. Qed.

Lemma front_line_crlf l rest : 10%Z ∉ l -> front_line (l ++ CRLF ++ rest) l rest.
Proof.
  intros Hl. exists (l ++ [13%Z]). split; [by rewrite <- app_assoc|]. rewrite pop_cr_cr. split; [|done].
  rewrite elem_of_app, list_elem_of_singleton. naive_solver.
Qed.

Lemma length_pop_cr l : length (pop_cr l) ≤ length l ≤ S (length (pop_cr l)).
Proof.
  unfold pop_cr. destruct (reverse l) as [|c l'] eqn:E; [lia|]. case_decide; [|lia].
  apply (f_equal length) in E. rewrite length_reverse in *. cbn in E. lia.
Qed.

Lemma front_line_shrinks s l rest : front_line s l rest -> length rest + length l < length s.
Proof.
  intros (line & -> & _ & ->). rewrite length_app. cbn. pose proof (length_pop_cr line). lia.
Qed.

Lemma line_block_shrinks s ls rest : line_block s ls rest -> length rest < length s.
Proof. induction 1; repeat match goal with H : front_line _ _ _ |- _ => apply front_line_shrinks in H end; lia. Qed.
