(* ===== verification/HttpHead.v ===== *)
(** * The request head and the framing of its body

    The strictness of the parser of [src/src/http/server.rs]: which request and
    header lines it accepts, as statements about their bytes; [read_head] as the
    parser of the front of the stream; and the framing as a function of the two
    framing headers. *)
From S2P Require Import Prelude Text HttpServer HttpReader.

#[local] Opaque MAX_REQUEST_LINE MAX_HEADER_BYTES MAX_HEADERS.

Section head.
Context `{HttpCrate}.

(** ** Lines *)

(** A header line that is accepted, by its name and its value. *)
Definition header_of (line : bytes) (h : bytes * bytes) : Prop :=
  exists name value,
    line = name ++ 58%Z :: value /\ 58%Z ∉ name
    /\ (forall c, head line = Some c -> c <> 32%Z /\ c <> 9%Z)
    /\ ends_in_whitespace name = false
    /\ header_name name = Some (fst h) /\ snd h = trim_ascii value /\ value_ok (snd h) = true.

(** The target starts with a slash and the fields are separated by one space. *)
Definition request_of (line m t : bytes) (v : Version) : Prop :=
  exists version,
    line = m ++ 32%Z :: t ++ 32%Z :: version /\ utf8_valid line = true
    /\ 32%Z ∉ m /\ 32%Z ∉ t /\ parse_version version = Some v
    /\ method_ok m = true /\ m <> bstr "CONNECT" /\ head t = Some 47%Z /\ uri_ok t = true.

Definition bytes_of (ls : list bytes) : nat := sum_list_with length ls.

(** The head of a stream, and the bytes after it. *)
Definition head_of (s : bytes) (h : Head) (rest : bytes) : Prop :=
  exists line s' ls,
    front_line s line s' /\ request_of line (method h) (target h) (version h)
    /\ line_block s' ls rest /\ Forall2 header_of ls (headers h)
    /\ bytes_of ls ≤ MAX_HEADER_BYTES /\ length ls ≤ MAX_HEADERS /\ length line ≤ MAX_REQUEST_LINE.

Lemma parse_header_ok line h : line <> [] -> parse_header line = Ok h <-> header_of line h.
Proof.
  intros Hne. destruct line as [|c line]; [done|]. unfold parse_header, header_of.
  unfold index. cbn [lookup list_lookup]. rewrite bind_Ok_eq. split.
  - case_decide as Hc; [done|]. destruct (split_once 58 (c :: line)) as [[n v]|] eqn:E; [|done].
    apply split_once_spec in E as [E Hn]. destruct (ends_in_whitespace n) eqn:Ew; [done|].
    destruct (header_name n) as [n'|] eqn:En; [|done]. destruct (value_ok (trim_ascii v)) eqn:Ev; [|done].
    intros [= <-]. exists n, v. split_and!; try done. intros ? [= <-]. tauto.
  - intros (n & v & E & Hn & Hc & Hw & Hname & Hv & Hok). rewrite decide_False.
    2:{ destruct (Hc c eq_refl). tauto. }
    rewrite (proj2 (split_once_spec _ _ _ _) (conj E Hn)), Hw, Hname, <- Hv, Hok. by destruct h.
Qed.

Lemma parse_header_returns line : line <> [] -> returns (parse_header line).
Proof.
  intros Hne. destruct line as [|c line]; [done|]. unfold parse_header, index. cbn [lookup list_lookup].
  rewrite bind_Ok_eq. repeat case_match; done.
Qed.

Lemma split_two_spaces line m t v :
  split_on (fun c => bool_decide (c = 32%Z)) line = [m; t; v] ->
  line = m ++ 32%Z :: t ++ 32%Z :: v /\ 32%Z ∉ m /\ 32%Z ∉ t.
Proof.
  intros E. pose proof (split_on_pieces (fun c => bool_decide (c = 32%Z)) line) as Hp.
  rewrite E in Hp. inversion_clear Hp as [|? ? Hm Ht]. inversion_clear Ht as [|? ? Ht' _].
  split.
  - rewrite <- (join_split (fun c => bool_decide (c = 32%Z)) 32%Z line), E; [done|].
    intros x. by rewrite bool_decide_eq_true.
  - split; [rename Hm into HF|rename Ht' into HF]; intros Hin;
      pose proof (proj1 (Forall_forall _ _) HF _ Hin) as Hx; by rewrite bool_decide_eq_false in Hx.
Qed.

Lemma split_three (m t v : bytes) :
  32%Z ∉ m -> 32%Z ∉ t -> 32%Z ∉ v ->
  split_on (fun c => bool_decide (c = 32%Z)) (m ++ 32%Z :: t ++ 32%Z :: v) = [m; t; v].
Proof.
  intros Hm Ht Hv. apply (split_join _ 32%Z [m; t; v]); [done..|].
  repeat constructor; apply Forall_forall; intros x Hx; apply bool_decide_eq_false; by intros ->.
Qed.

Lemma parse_version_plain s v : parse_version s = Some v -> 32%Z ∉ s.
Proof.
  unfold parse_version. repeat case_decide; subst; intros [= <-];
    by apply (bool_decide_unpack _).
Qed.

Lemma parse_request_line_ok line m t v :
  parse_request_line line = Ok (m, t, v) <-> request_of line m t v.
Proof.
  unfold parse_request_line, request_of. split.
  - destruct (utf8_valid line) eqn:Eu; cbn [negb]; [|done].
    destruct (split_on _ line) as [|m' [|t' [|v' []]]] eqn:E; try done.
    apply split_two_spaces in E as (-> & Hm & Ht).
    destruct (method_ok m') eqn:Em; cbn [negb]; [|done]. case_decide; [done|].
    destruct (bool_decide (head t' = _)) eqn:Eh; cbn [negb]; [|done]. apply bool_decide_eq_true in Eh.
    destruct (uri_ok t') eqn:Et; cbn [negb]; [|done]. destruct (parse_version v') eqn:Ev; [|done].
    intros [= <- <- <-]. by exists v'.
  - intros (v' & -> & Hu & Hm & Ht & Hv & Em & Hc & Eh & Et).
    rewrite Hu, split_three by eauto using parse_version_plain. cbn [negb].
    by rewrite Em, decide_False, bool_decide_eq_true_2, Et, Hv by done.
Qed.

Lemma parse_request_line_returns line : returns (parse_request_line line).
Proof. unfold parse_request_line. repeat case_match; done. Qed.

(** ** The loop over the header lines *)

Lemma bytes_of_cons l ls : bytes_of (l :: ls) = length l + bytes_of ls.
Proof. done. Qed.

Lemma read_headers_sound fuel hs hb hc r :
  reader_ok r -> MAX_HEADERS < fuel + hc -> hb ≤ MAX_HEADER_BYTES -> hc ≤ MAX_HEADERS ->
  match read_headers fuel hs hb hc r with
  | Ok (hs', r') => exists ls new,
      hs' = hs ++ new /\ line_block (stream r) ls (stream r') /\ Forall2 header_of ls new
      /\ hb + bytes_of ls ≤ MAX_HEADER_BYTES /\ hc + length ls ≤ MAX_HEADERS /\ reader_ok r'
  | Err _ => True
  | Stuck _ => False
  end.
Proof.
  revert hs hb hc r. induction fuel as [|fuel IH]; intros hs hb hc r Hr Hf Hb Hc; [lia|].
  cbn [read_headers]. pose proof (read_line_sound MAX_HEADER_BYTES r Hr) as Hl.
  destruct (read_line MAX_HEADER_BYTES r) as [[l r1]| |]; [|done..]. rewrite bind_Ok_eq. destruct Hl as [Hl Hr1].
  case_decide as Hne.
  { subst l. exists [], []. rewrite app_nil_r. cbn. split_and!; auto using block_end; lia. }
  case_decide as Hlim; [done|].
  pose proof (parse_header_returns l Hne) as Hp.
  destruct (parse_header l) as [h| |] eqn:Eh; [|done..]. rewrite bind_Ok_eq.
  apply parse_header_ok in Eh; [|done].
  specialize (IH (hs ++ [h]) (hb + length l) (hc + 1) r1 Hr1 ltac:(lia) ltac:(lia) ltac:(lia)).
  destruct (read_headers fuel _ _ _ r1) as [[hs' r']| |]; [|done..].
  destruct IH as (ls & new & -> & Hbl & Hh & ? & ? & ?).
  exists (l :: ls), (h :: new). rewrite <- app_assoc, bytes_of_cons. cbn [app length].
  split_and!; eauto using block_line; lia.
Qed.

(** A front line shorter than the limit is always found. *)
Lemma read_front_line limit r l rest :
  reader_ok r -> front_line (stream r) l rest -> length l < limit ->
  exists r', read_line limit r = Ok (l, r') /\ stream r' = rest /\ reader_ok r'.
Proof.
  intros Hr (line & Hs & Hn & ->) Hl. apply read_line_complete; [done..|].
  pose proof (length_pop_cr line). lia.
Qed.

Lemma read_headers_complete fuel hs hb hc r ls new rest :
  reader_ok r -> MAX_HEADERS < fuel + hc ->
  line_block (stream r) ls rest -> Forall2 header_of ls new ->
  hb + bytes_of ls < MAX_HEADER_BYTES -> hc + length ls ≤ MAX_HEADERS ->
  exists r', read_headers fuel hs hb hc r = Ok (hs ++ new, r') /\ stream r' = rest /\ reader_ok r'.
Proof.
  revert hs hb hc r ls new. induction fuel as [|fuel IH]; intros hs hb hc r ls new Hr Hf Hbl Hh Hb Hc; [lia|].
  cbn [read_headers]. inversion Hbl as [s' rest' Hl|s' l s1 ls' rest' Hl Hne Hbl']; subst.
  - destruct (read_front_line MAX_HEADER_BYTES r [] rest) as (r' & -> & ? & ?); [done..|change (bytes_of []) with 0 in *; cbn [length]; lia|].
    rewrite bind_Ok_eq, decide_True by done. inversion Hh. rewrite app_nil_r. eauto.
  - inversion Hh as [|l' h ls2 new' Hlh Hh']; subst. rewrite bytes_of_cons in Hb. cbn [length] in Hc.
    destruct (read_front_line MAX_HEADER_BYTES r l s1) as (r1 & -> & <- & ?); [done..|lia|].
    rewrite bind_Ok_eq, !decide_False by (done || lia).
    rewrite (proj2 (parse_header_ok l h Hne) Hlh), bind_Ok_eq.
    destruct (IH (hs ++ [h]) (hb + length l) (hc + 1) r1 ls' new') as (r' & -> & ? & ?); try done; try lia.
    rewrite <- app_assoc. by eexists.
Qed.

Lemma read_head_sound r :
  reader_ok r ->
  match read_head r with
  | Ok (h, r') => head_of (stream r) h (stream r') /\ reader_ok r'
  | Err _ => True
  | Stuck _ => False
  end.
Proof.
  intros Hr. unfold read_head. pose proof (read_line_sound MAX_REQUEST_LINE r Hr) as Hl.
  destruct (read_line MAX_REQUEST_LINE r) as [[l r1]| |]; [|done..]. destruct Hl as [Hl Hr1].
  rewrite bind_Ok_eq. case_decide; [done|]. case_decide as Hlen; [done|].
  pose proof (parse_request_line_returns l) as Hp.
  destruct (parse_request_line l) as [[[m t] v]| |] eqn:El; [|done..]. rewrite bind_Ok_eq.
  apply parse_request_line_ok in El.
  pose proof (read_headers_sound (MAX_HEADERS + 2) [] 0 0 r1 Hr1 ltac:(lia) ltac:(lia) ltac:(lia)) as Hh.
  destruct (read_headers _ [] 0 0 r1) as [[hs r']| |]; [|done..]. rewrite bind_Ok_eq.
  destruct Hh as (ls & new & -> & Hbl & HF & ? & ? & ?). cbn [app]. split; [|done].
  exists l, (stream r1), ls. split_and!; try done; lia.
Qed.

Lemma read_head_complete r h line s' ls rest :
  reader_ok r -> front_line (stream r) line s' -> length line < MAX_REQUEST_LINE ->
  request_of line (method h) (target h) (version h) ->
  line_block s' ls rest -> Forall2 header_of ls (headers h) ->
  bytes_of ls < MAX_HEADER_BYTES -> length ls ≤ MAX_HEADERS ->
  exists r', read_head r = Ok (h, r') /\ stream r' = rest /\ reader_ok r'.
Proof.
  intros Hr Hl Hlen Hreq Hbl Hh Hb Hc. unfold read_head.
  destruct (read_front_line MAX_REQUEST_LINE r line s') as (r1 & -> & <- & ?); [done..|].
  rewrite bind_Ok_eq, decide_False.
  2:{ intros ->. destruct Hreq as (v & E & _). by destruct (method h). }
  rewrite decide_False by lia. rewrite (proj2 (parse_request_line_ok _ _ _ _) Hreq), bind_Ok_eq.
  destruct (read_headers_complete (MAX_HEADERS + 2) [] 0 0 r1 ls (headers h) rest)
    as (r' & -> & ? & ?); [done|lia|done..|]. rewrite bind_Ok_eq. destruct h. by eexists.
Qed.

(** A stream has one head. *)
Lemma header_of_fun line h1 h2 : line <> [] -> header_of line h1 -> header_of line h2 -> h1 = h2.
Proof. intros Hne H1%parse_header_ok H2%parse_header_ok; [congruence|done..]. Qed.

Lemma line_block_nonempty s ls rest : line_block s ls rest -> Forall (fun l => l <> []) ls.
Proof. by induction 1; constructor. Qed.

Lemma head_of_fun s h1 h2 r1 r2 : head_of s h1 r1 -> head_of s h2 r2 -> h1 = h2 /\ r1 = r2.
Proof.
  intros (l1 & s1 & ls1 & Hl1 & Hq1 & Hb1 & Hh1 & _) (l2 & s2 & ls2 & Hl2 & Hq2 & Hb2 & Hh2 & _).
  destruct (front_line_fun _ _ _ _ _ Hl1 Hl2) as [-> ->].
  destruct (line_block_fun _ _ _ _ _ Hb1 Hb2) as [-> ->].
  apply parse_request_line_ok in Hq1, Hq2. rewrite Hq1 in Hq2. split; [|done].
  assert (headers h1 = headers h2) as Hhs.
  { apply line_block_nonempty in Hb1. clear -Hb1 Hh1 Hh2. revert Hh2. generalize (headers h2).
    induction Hh1 as [|l h ls hs Hlh _ IH]; intros hs2 Hh2; inversion Hh2; subst; [done|].
    inversion_clear Hb1. f_equal; [by eapply header_of_fun|by apply IH]. }
  destruct h1, h2. cbn in *. congruence.
Qed.
(** ** Framing *)

(** A member of a [Content-Length] list. *)
Definition length_member (n : Z) (part : bytes) : Prop :=
  trim part <> [] /\ Forall digit (trim part) /\ parse_uint (2 ^ 64 - 1) (trim part) = Some n.

(** The framing headers of each framing; every other combination is refused. *)
Definition framed (hs : list (bytes * bytes)) (f : Framing) : Prop :=
  match f with
  | NoBody => get_all TRANSFER_ENCODING hs = [] /\ get_all CONTENT_LENGTH hs = []
  | Length n => get_all TRANSFER_ENCODING hs = [] /\ (n ≤ MAX_BODY_BYTES)%Z /\
      exists v text, get_all CONTENT_LENGTH hs = [v] /\ value_to_str v = Some text
        /\ Forall (length_member n) (split_on comma (trim text))
  | Chunked => get_all CONTENT_LENGTH hs = [] /\
      exists v text, get_all TRANSFER_ENCODING hs = [v] /\ value_to_str v = Some text
        /\ to_ascii_lower <$> trim text = bstr "chunked"
  end.

Lemma all_digits s : forallb is_ascii_digit s = true <-> Forall digit s.
Proof.
  induction s as [|c s IH]; cbn [forallb]; [by split|].
  unfold is_ascii_digit at 1, digit. by rewrite andb_true_iff, bool_decide_eq_true, Forall_cons, IH.
Qed.

Lemma parse_lengths_Some parts m o :
  parse_lengths parts (Some m) = Ok o <-> o = Some m /\ Forall (length_member m) parts.
Proof.
  induction parts as [|part parts IH]; cbn [parse_lengths]; [by split; [intros [= <-]|intros [-> _]]|].
  rewrite Forall_cons. unfold length_member at 1. split.
  - case_decide; [done|]. destruct (forallb _ _) eqn:Ed; cbn [negb]; [|done]. apply all_digits in Ed.
    destruct (parse_uint _ _) as [value|]; [|done]. case_decide; [done|].
    assert (value = m) as -> by lia. rewrite IH. naive_solver.
  - intros (-> & (Hne & Hd & Hp) & Hps). apply all_digits in Hd.
    rewrite decide_False, Hd, Hp by done. cbn [negb]. rewrite decide_False by (by intros []). by apply IH.
Qed.

Lemma parse_lengths_None part parts o :
  parse_lengths (part :: parts) None = Ok o <-> exists m, o = Some m /\ Forall (length_member m) (part :: parts).
Proof.
  cbn [parse_lengths]. setoid_rewrite Forall_cons. unfold length_member at 1. split.
  - case_decide; [done|]. destruct (forallb _ _) eqn:Ed; cbn [negb]; [|done]. apply all_digits in Ed.
    destruct (parse_uint _ _) as [value|]; [|done]. rewrite parse_lengths_Some. naive_solver.
  - intros (m & -> & (Hne & Hd & Hp) & Hps). apply all_digits in Hd.
    rewrite decide_False, Hd, Hp by done. cbn [negb]. by apply parse_lengths_Some.
Qed.

Lemma parse_lengths_returns parts o : returns (parse_lengths parts o).
Proof.
  revert o. induction parts as [|part parts IH]; intros o; cbn [parse_lengths]; [done|].
  repeat case_match; auto; done.
Qed.

Lemma framing_returns hs : returns (framing hs).
Proof.
  unfold framing. repeat case_match; try done.
  apply returns_bind; [apply parse_lengths_returns|]. intros o _. repeat case_match; done.
Qed.

Lemma framing_framed hs f : framing hs = Ok f <-> framed hs f.
Proof.
  unfold framing, framed. destruct (get_all TRANSFER_ENCODING hs) as [|c [|c2 cs]].
  - destruct (get_all CONTENT_LENGTH hs) as [|v [|v2 vs]]; [destruct f; naive_solver| |destruct f; naive_solver].
    destruct (value_to_str v) as [text|] eqn:Et; [|destruct f; naive_solver].
    pose proof (split_on_nonempty comma (trim text)) as Hne.
    destruct (split_on comma (trim text)) as [|part parts] eqn:Es; [done|]. split.
    + intros E. apply bind_Ok in E as (o & (m & -> & Hm)%parse_lengths_None & E).
      case_decide; [done|]. injection E as <-. split; [done|]. split; [lia|]. exists v, text. by rewrite Es.
    + destruct f as [|n|]; [naive_solver| |naive_solver]. intros (_ & Hn & v' & text' & [= <-] & Et' & HF).
      rewrite Et in Et'. injection Et' as <-. rewrite Es in HF.
      rewrite (proj2 (parse_lengths_None part parts (Some n))), bind_Ok_eq by eauto.
      by rewrite decide_False by lia.
  - destruct (get_all CONTENT_LENGTH hs) as [|v vs]; [|destruct f; naive_solver].
    rewrite bool_decide_eq_true_2 by done. cbn [negb].
    destruct (value_to_str c) as [text|] eqn:Et; [|destruct f; naive_solver].
    case_decide; destruct f; naive_solver.
  - destruct (get_all CONTENT_LENGTH hs) as [|v vs]; rewrite ?bool_decide_eq_true_2 by done;
      destruct f; naive_solver.
Qed.

Lemma framed_range hs f n : framed hs f -> f = Length n -> (0 ≤ n ≤ MAX_BODY_BYTES)%Z.
Proof.
  intros Hf ->. destruct Hf as (_ & Hn & v & text & _ & _ & HF). split; [|done].
  pose proof (split_on_nonempty comma (trim text)). destruct (split_on comma (trim text)); [done|].
  inversion_clear HF as [|? ? (_ & _ & Hp) _]. apply parse_uint_range in Hp. lia.
Qed.

Lemma head_of_shrinks s h rest : head_of s h rest -> length rest < length s.
Proof.
  intros (line & s' & ls & Hl%front_line_shrinks & _ & Hb%line_block_shrinks & _). lia.
Qed.
End head.
