(* ===== verification/HttpBody.v ===== *)
(** * The request body

    The three framings as relations between a stream, the body at its front and
    the bytes after it, and [read_body] as their parser. *)
From S2P Require Import Prelude Text HttpServer HttpReader HttpHead.

#[local] Opaque MAX_HEADER_BYTES MAX_BODY_BYTES.

(** ** The relations *)

(** A chunked body: chunks behind their sizes, an empty chunk, trailers. *)
Inductive chunked_body : bytes -> bytes -> bytes -> Prop :=
  | last_chunk s line s1 trailers rest :
      front_line s line s1 -> parse_chunk_size line = Ok 0%Z -> line_block s1 trailers rest ->
      chunked_body s [] rest
  | data_chunk s line chunk s2 s3 body rest :
      front_line s line (chunk ++ s2) -> chunk <> [] ->
      parse_chunk_size line = Ok (Z.of_nat (length chunk)) ->
      front_line s2 [] s3 -> chunked_body s3 body rest ->
      chunked_body s (chunk ++ body) rest.

Definition body_of (f : Framing) (s body rest : bytes) : Prop :=
  match f with
  | NoBody => body = [] /\ s = rest
  | Length n => Z.of_nat (length body) = n /\ s = body ++ rest
  | Chunked => chunked_body s body rest
  end.

Lemma chunked_body_fun s b1 b2 r1 r2 :
  chunked_body s b1 r1 -> chunked_body s b2 r2 -> b1 = b2 /\ r1 = r2.
Proof.
  intros H. revert b2. induction H as [s line s1 ts rest Hl Hz Hb|s line chunk s2 s3 body rest Hl Hne Hz Hs _ IH];
    intros b2 H2; inversion H2 as [s' line' s1' ts' rest' Hl' Hz' Hb'|s' line' chunk' s2' s3' body' rest' Hl' Hne' Hz' Hs' H2'];
    subst; destruct (front_line_fun _ _ _ _ _ Hl Hl') as [-> E]; rewrite Hz in Hz'; try (injection Hz' as Hz').
  - subst. by destruct (line_block_fun _ _ _ _ _ Hb Hb') as [_ ->].
  - by destruct chunk'.
  - by destruct chunk.
  - apply app_inj_1 in E as [-> ->]; [|lia]. destruct (front_line_fun _ _ _ _ _ Hs Hs') as [_ ->].
    by destruct (IH _ H2') as [-> ->].
Qed.

Lemma body_of_fun f s b1 b2 r1 r2 : body_of f s b1 r1 -> body_of f s b2 r2 -> b1 = b2 /\ r1 = r2.
Proof.
  destruct f; cbn.
  - intros [-> ->] [-> ->]. done.
  - intros [Hl ->] [Hl2 E]. apply app_inj_1 in E as [-> ->]; [done|lia].
  - apply chunked_body_fun.
Qed.

Lemma body_of_shrinks f s body rest : body_of f s body rest -> length rest ≤ length s.
Proof.
  destruct f; cbn; [by intros [_ ->]|intros [_ ->]; rewrite length_app; lia|].
  induction 1 as [s line s1 ts rest Hl _ Hb|s line chunk s2 s3 body rest Hl _ _ Hs _ IH].
  - apply front_line_shrinks in Hl. apply line_block_shrinks in Hb. lia.
  - apply front_line_shrinks in Hl, Hs. rewrite length_app in Hl. lia.
Qed.

(** ** Chunked bodies are read as the relation says *)

Lemma stream_supply r : length (stream r) ≤ supply r.
Proof.
  unfold stream, supply. rewrite length_app, length_drop. enough (length (avail (inner r)) ≤
    foldr (fun e n => match e with Data b => length b + n | _ => n end) 0 (inner r)) by lia.
  induction (inner r) as [|[[|c b]| |] es IH]; cbn; rewrite ?length_app; cbn; lia.
Qed.

Lemma parse_chunk_size_returns line : returns (parse_chunk_size line).
Proof. unfold parse_chunk_size. repeat case_match; done. Qed.

Lemma parse_chunk_size_range line n : parse_chunk_size line = Ok n -> (0 ≤ n < 2 ^ 64)%Z.
Proof.
  unfold parse_chunk_size. case_match; [done|]. case_decide; [done|]. case_match; [done|].
  destruct (parse_hex _ _) as [m|] eqn:E; intros [= <-]. apply parse_hex_range in E. lia.
Qed.

Lemma read_trailers_sound fuel r :
  reader_ok r -> length (stream r) < fuel ->
  match read_trailers fuel r with
  | Ok (_, r') => exists ls, line_block (stream r) ls (stream r') /\ reader_ok r'
  | Err _ => True
  | Stuck _ => False
  end.
Proof.
  revert r. induction fuel as [|fuel IH]; intros r Hr Hf; [lia|]. cbn [read_trailers].
  pose proof (read_line_sound MAX_HEADER_BYTES r Hr) as Hl.
  destruct (read_line _ r) as [[l r1]| |]; [|done..]. rewrite bind_Ok_eq. destruct Hl as [Hl Hr1].
  case_decide as Hne; [subst l; exists []; eauto using block_end|].
  pose proof (front_line_shrinks _ _ _ Hl). specialize (IH r1 Hr1 ltac:(lia)).
  destruct (read_trailers fuel r1) as [[u r']| |]; [|done..].
  destruct IH as (ls & ? & ?). exists (l :: ls). eauto using block_line.
Qed.

(** The body stays within the limit while the lengths cannot wrap. *)
Lemma read_chunks_sound fuel body r :
  reader_ok r -> length (stream r) < fuel ->
  match read_chunks fuel body r with
  | Ok (body', r') => exists b,
      body' = body ++ b /\ chunked_body (stream r) b (stream r') /\ reader_ok r'
      /\ (Z.of_nat (length body) ≤ MAX_BODY_BYTES ->
          Z.of_nat (length body + length (stream r)) < 2 ^ 64 -> Z.of_nat (length body') ≤ MAX_BODY_BYTES)%Z
  | Err _ => True
  | Stuck _ => False
  end.
Proof.
  revert body r. induction fuel as [|fuel IH]; intros body r Hr Hf; [lia|]. cbn [read_chunks].
  pose proof (read_line_sound 1024 r Hr) as Hl.
  destruct (read_line 1024 r) as [[line r1]| |]; [|done..]. rewrite bind_Ok_eq. destruct Hl as [Hl Hr1].
  pose proof (front_line_shrinks _ _ _ Hl) as Hs1. pose proof (parse_chunk_size_returns line) as Hp.
  destruct (parse_chunk_size line) as [size| |] eqn:Ez; [|done..]. rewrite bind_Ok_eq.
  pose proof (parse_chunk_size_range _ _ Ez) as Hz. case_decide as H0.
  { subst size. pose proof (read_trailers_sound (S (supply r1)) r1 Hr1) as Ht.
    pose proof (stream_supply r1). specialize (Ht ltac:(lia)).
    destruct (read_trailers _ r1) as [[u r']| |]; [|done..]. rewrite bind_Ok_eq.
    destruct Ht as (ls & Hls & Hr'). exists []. rewrite app_nil_r. eauto 6 using last_chunk. }
  case_decide as Hlim; [done|]. pose proof (read_exact_sound size r1 Hr1 ltac:(lia)) as Hx.
  destruct (read_exact size r1) as [[chunk r2]| |]; [|done..]. rewrite bind_Ok_eq.
  destruct Hx as (Hs2 & Hc & Hr2). pose proof (read_line_sound 8 r2 Hr2) as Hl3.
  destruct (read_line 8 r2) as [[sep r3]| |]; [|done..]. rewrite bind_Ok_eq. destruct Hl3 as [Hl3 Hr3].
  destruct (decide (sep <> [])) as [|Hsep]; [done|]. apply dec_stable in Hsep as ->.
  pose proof (front_line_shrinks _ _ _ Hl3) as Hs3. rewrite Hs2, length_app in Hs1.
  specialize (IH (body ++ chunk) r3 Hr3 ltac:(lia)).
  destruct (read_chunks fuel _ r3) as [[body' r']| |]; [|done..]. destruct IH as (b & -> & Hb & Hr' & Hmax).
  exists (chunk ++ b). rewrite <- app_assoc. split; [done|]. split_and!; [|done|].
  - rewrite Hs2 in Hl. econstructor; [done|by intros ->|by rewrite Hc|done..].
  - intros Hbody Htot. rewrite app_assoc. apply Hmax; rewrite length_app; [|lia].
    unfold u64 in Hlim. rewrite wrap_small in Hlim; lia.
Qed.

Lemma read_body_sound f r :
  reader_ok r -> (forall n, f = Length n -> 0 ≤ n ≤ MAX_BODY_BYTES)%Z ->
  match read_body f r with
  | Ok (body, r') => body_of f (stream r) body (stream r') /\ reader_ok r'
      /\ (Z.of_nat (length (stream r)) < 2 ^ 64 -> Z.of_nat (length body) ≤ MAX_BODY_BYTES)%Z
  | Err _ => True
  | Stuck _ => False
  end.
Proof.
  intros Hr Hf. assert (0 ≤ MAX_BODY_BYTES)%Z as Hmax by done. destruct f as [|n|]; cbn [read_body body_of].
  - by split_and!.
  - case_decide as Hn; [subst n; by split_and!|]. specialize (Hf n eq_refl).
    pose proof (read_exact_sound n r Hr ltac:(lia)) as Hx.
    destruct (read_exact n r) as [[out r']| |]; [|done..]. destruct Hx as (-> & <- & ?). split_and!; try done; lia.
  - unfold read_chunked. pose proof (stream_supply r).
    pose proof (read_chunks_sound (S (supply r)) [] r Hr ltac:(lia)) as Hx.
    destruct (read_chunks _ [] r) as [[body r']| |]; [|done..].
    destruct Hx as (b & -> & ? & ? & Hb). split_and!; [done..|]. intros. apply Hb; [done|cbn; lia].
Qed.

(** ** What a sender writes *)

(** The body as its bytes, or as chunks behind size lines of the sender's choice. *)
Inductive Payload : Set := Plain (b : bytes) | Pieces (cs : list (bytes * bytes)) (last : bytes) (trailers : list bytes).

Definition wire_line (l : bytes) : bytes := l ++ CRLF.
Definition wire_piece (c : bytes * bytes) : bytes := wire_line (fst c) ++ snd c ++ CRLF.
Definition payload_bytes (p : Payload) : bytes :=
  match p with
  | Plain b => b
  | Pieces cs last trailers =>
      mjoin (wire_piece <$> cs) ++ wire_line last ++ mjoin (wire_line <$> trailers) ++ CRLF
  end.
Definition payload_body (p : Payload) : bytes :=
  match p with Plain b => b | Pieces cs _ _ => mjoin (snd <$> cs) end.

Definition line_ok (limit : nat) (l : bytes) : Prop := 10%Z ∉ l /\ length l < limit.
Definition piece_ok (c : bytes * bytes) : Prop :=
  line_ok 1024 (fst c) /\ snd c <> [] /\ parse_chunk_size (fst c) = Ok (Z.of_nat (length (snd c))).
Definition payload_ok (f : Framing) (p : Payload) : Prop :=
  match f, p with
  | NoBody, Plain b => b = []
  | Length n, Plain b => Z.of_nat (length b) = n
  | Chunked, Pieces cs last trailers =>
      Forall piece_ok cs /\ line_ok 1024 last /\ parse_chunk_size last = Ok 0%Z
      /\ Forall (fun l => line_ok MAX_HEADER_BYTES l /\ l <> []) trailers
      /\ (Z.of_nat (length (payload_body p)) ≤ MAX_BODY_BYTES)%Z
  | _, _ => False
  end.

#[export] Instance payload_ok_dec f p : Decision (payload_ok f p).
Proof. destruct f, p; cbn; unfold piece_ok, line_ok; apply _. Defined.

(** A line of the sender is read off. *)
Lemma read_wire_line limit r l rest :
  reader_ok r -> line_ok limit l -> stream r = wire_line l ++ rest ->
  exists r', read_line limit r = Ok (l, r') /\ stream r' = rest /\ reader_ok r'.
Proof.
  intros Hr [Hn Hlen] Hs. apply read_front_line; [done| |done].
  rewrite Hs. unfold wire_line. rewrite <- app_assoc. by apply front_line_crlf.
Qed.

Lemma empty_line_ok limit : 0 < limit -> line_ok limit [].
Proof. intros. split; [apply not_elem_of_nil|done]. Qed.

Lemma read_trailers_complete fuel r ts rest :
  reader_ok r -> length ts < fuel -> Forall (fun l => line_ok MAX_HEADER_BYTES l /\ l <> []) ts ->
  stream r = mjoin (wire_line <$> ts) ++ CRLF ++ rest ->
  exists r', read_trailers fuel r = Ok (tt, r') /\ stream r' = rest /\ reader_ok r'.
Proof.
  intros Hr Hf Hts. revert fuel r Hr Hf. induction Hts as [|l ts [Hl Hne] _ IH]; intros [|fuel] r Hr Hf Hs;
    cbn [length] in Hf; try lia; cbn [read_trailers].
  - destruct (read_wire_line MAX_HEADER_BYTES r [] rest) as (r' & -> & ? & ?); [done| |done|].
    { apply empty_line_ok. by apply Nat.ltb_lt. }
    rewrite bind_Ok_eq, decide_True by done. by eexists.
  - csimpl in Hs. rewrite <- app_assoc in Hs.
    destruct (read_wire_line MAX_HEADER_BYTES r l _ Hr Hl Hs) as (r1 & -> & ? & ?).
    rewrite bind_Ok_eq, decide_False by done. apply IH; [done|lia|done].
Qed.

Lemma read_chunks_complete fuel body r cs last ts rest :
  reader_ok r -> length cs < fuel -> Forall piece_ok cs -> line_ok 1024 last -> parse_chunk_size last = Ok 0%Z ->
  Forall (fun l => line_ok MAX_HEADER_BYTES l /\ l <> []) ts ->
  (Z.of_nat (length body + length (mjoin (snd <$> cs))) ≤ MAX_BODY_BYTES)%Z ->
  stream r = payload_bytes (Pieces cs last ts) ++ rest ->
  exists r', read_chunks fuel body r = Ok (body ++ mjoin (snd <$> cs), r') /\ stream r' = rest /\ reader_ok r'.
Proof.
  intros Hr Hf Hcs Hlast Hz Hts. revert fuel body r Hr Hf.
  induction Hcs as [|[line chunk] cs (Hl & Hne & Hp) _ IH]; intros [|fuel] body r Hr Hf Hmax Hs;
    cbn [length] in Hf; try lia; cbn [read_chunks]; cbn [payload_bytes] in Hs; csimpl in Hs;
    rewrite <- ?app_assoc in Hs.
  - destruct (read_wire_line 1024 r last _ Hr Hlast Hs) as (r1 & -> & Hs1 & Hr1).
    rewrite bind_Ok_eq, Hz, bind_Ok_eq, decide_True by done.
    destruct (read_trailers_complete (S (supply r1)) r1 ts rest) as (r2 & -> & ? & ?); [done| |done..|].
    { pose proof (stream_supply r1) as Hsup. rewrite Hs1, length_app in Hsup.
      enough (length ts ≤ length (mjoin (wire_line <$> ts))) by lia. clear.
      induction ts as [|l ts IH]; csimpl; [lia|]. unfold wire_line at 1. rewrite !length_app. cbn. lia. }
    rewrite bind_Ok_eq. cbn. rewrite app_nil_r. by eexists.
  - unfold wire_piece in Hs. cbn [fst snd] in *. rewrite <- ?app_assoc in Hs.
    destruct (read_wire_line 1024 r line _ Hr Hl Hs) as (r1 & -> & Hs1 & Hr1). csimpl in Hmax.
    rewrite bind_Ok_eq, Hp, bind_Ok_eq. rewrite length_app in Hmax.
    rewrite decide_False by (destruct chunk; [done|cbn; lia]).
    assert (MAX_BODY_BYTES < 2 ^ 64)%Z by done.
    rewrite decide_False by (unfold u64; rewrite wrap_small; lia).
    destruct (read_exact_complete _ r1 chunk _ Hr1 Hs1 eq_refl) as (r2 & -> & Hs2 & Hr2). rewrite bind_Ok_eq.
    destruct (read_wire_line 8 r2 [] _ Hr2 (empty_line_ok 8 ltac:(lia)) Hs2) as (r3 & -> & Hs3 & Hr3).
    rewrite bind_Ok_eq, decide_False by tauto.
    destruct (IH fuel (body ++ chunk) r3) as (r4 & -> & ? & ?); [done|lia| |by rewrite Hs3; cbn [payload_bytes]; rewrite <- !app_assoc|].
    { rewrite length_app. lia. }
    csimpl. rewrite <- app_assoc. by eexists.
Qed.

Lemma read_body_complete f r p rest :
  reader_ok r -> payload_ok f p -> stream r = payload_bytes p ++ rest ->
  exists r', read_body f r = Ok (payload_body p, r') /\ stream r' = rest /\ reader_ok r'.
Proof.
  intros Hr Hp Hs. destruct f as [|n|], p as [b|cs last ts]; try done; cbn [read_body payload_ok payload_body] in *.
  - subst b. by eexists.
  - case_decide; [|by eapply read_exact_complete]. assert (b = []) as -> by (destruct b; [done|cbn in *; lia]).
    by eexists.
  - destruct Hp as (Hcs & Hlast & Hz & Hts & Hmax).
    apply (read_chunks_complete (S (supply r)) [] r cs last ts); try done.
    pose proof (stream_supply r) as Hsup. rewrite Hs in Hsup. cbn [payload_bytes] in Hsup.
    rewrite !length_app in Hsup. enough (length cs ≤ length (mjoin (wire_piece <$> cs))) by lia. clear.
    induction cs as [|[l c] cs IH]; csimpl; [lia|]. rewrite length_app. cbn in *. rewrite length_app. cbn.
    rewrite !length_app. cbn. lia.
Qed.
