(* ===== verification/HttpServe.v ===== *)
(** * Serving a connection

    What [serve_connection] does with a connection, for every router: the requests
    it dispatches are those at the front of the byte stream, whatever the cuts of
    the socket; well-formed requests that are pipelined are each answered, in
    order; the answers frame themselves. *)
From S2P Require Import Prelude Text HttpServer HttpReader HttpHead HttpBody.

#[local] Opaque MAX_REQUEST_LINE MAX_HEADER_BYTES MAX_HEADERS MAX_BODY_BYTES MAX_REQUESTS_PER_CONNECTION.

Section serve.
Context `{HttpCrate} (dispatch : nat -> Head -> bytes -> Response).

(** ** The requests of a stream *)

(** Requests one behind the other; every one but the last keeps the connection. *)
Inductive requests_of : bytes -> list (Head * bytes) -> Prop :=
  | requests_end s : requests_of s []
  | requests_next s h f s1 body s2 reqs :
      head_of s h s1 -> framed (headers h) f -> body_of f s1 body s2 -> requests_of s2 reqs ->
      (reqs <> [] -> wants_keep_alive h = true) ->
      requests_of s ((h, body) :: reqs).

Definition interim (h : Head) : bytes :=
  if expects_continue h then bstr "HTTP/1.1 100 Continue" ++ CRLF ++ CRLF else [].

Definition keeps (k : nat) (h : Head) : bool :=
  wants_keep_alive h && bool_decide (k < MAX_REQUESTS_PER_CONNECTION).

(** The answer to the request of number [k]. *)
Definition reply (k : nat) (h : Head) (body : bytes) : bytes :=
  interim h ++ write_response (dispatch k h body) (negb (bool_decide (method h = bstr "HEAD"))) (keeps k h).

Fixpoint replies (k : nat) (reqs : list (Head * bytes)) : bytes :=
  match reqs with
  | [] => []
  | (h, body) :: reqs => reply k h body ++ replies (k + 1) reqs
  end.

(** What may follow the answers: nothing, or one error that closes. *)
Definition last_words (tail : bytes) : Prop :=
  tail = [] \/ exists pre e message,
    tail = pre ++ write_response (error_response (error_status e) message) true false
    /\ (pre = [] \/ exists h, pre = interim h).

Lemma last_words_nil : last_words [].
Proof. by left. Qed.

Lemma last_words_error e message :
  last_words (write_response (error_response (error_status e) message) true false).
Proof. right. exists [], e, message. split; [done|by left]. Qed.

Lemma last_words_interim h e message :
  last_words (interim h ++ write_response (error_response (error_status e) message) true false).
Proof. right. exists (interim h), e, message. split; [done|]. right. by eexists. Qed.

Lemma interim_out out h :
  (if expects_continue h then out ++ bstr "HTTP/1.1 100 Continue" ++ CRLF ++ CRLF else out) = out ++ interim h.
Proof. unfold interim. case_match; [done|]. by rewrite app_nil_r. Qed.

(** What the loop may give from the [k]-th request on. *)
Definition serves (k fuel : nat) (s out : bytes) (reqs : list (Head * bytes)) (res : result Empty_set Served) : Prop :=
  exists new tail,
    res = Ok (out ++ replies k new ++ tail, reqs ++ new)
    /\ requests_of s new /\ length new ≤ fuel /\ last_words tail
    /\ (Z.of_nat (length s) < 2 ^ 64 -> Forall (fun q => Z.of_nat (length (snd q)) ≤ MAX_BODY_BYTES) new)%Z.

Lemma serves_stop k fuel s out reqs out' tail :
  out' = out ++ tail -> last_words tail -> serves k fuel s out reqs (Ok (out', reqs)).
Proof.
  intros -> Ht. exists [], tail. rewrite app_nil_r. split_and!; [done|constructor|cbn; lia|done|done].
Qed.

Lemma serves_quietly k fuel s out reqs : serves k fuel s out reqs (Ok (out, reqs)).
Proof. apply (serves_stop _ _ _ _ _ _ []); [by rewrite app_nil_r|apply last_words_nil]. Qed.

Lemma serves_refuse k fuel s out reqs e message :
  serves k fuel s out reqs (Ok (refuse out reqs (error_status e) message)).
Proof. apply (serves_stop _ _ _ _ _ _ _ eq_refl), last_words_error. Qed.

Lemma serves_refuse_body k fuel s out reqs h e message :
  serves k fuel s out reqs (Ok (refuse (out ++ interim h) reqs (error_status e) message)).
Proof. eapply serves_stop; [unfold refuse; by rewrite <- app_assoc|apply last_words_interim]. Qed.

(** A request and what comes after its answer. *)
Lemma serves_request k fuel s out reqs h f s1 body s2 res :
  head_of s h s1 -> framed (headers h) f -> body_of f s1 body s2 -> length s2 ≤ length s ->
  (Z.of_nat (length s1) < 2 ^ 64 -> Z.of_nat (length body) ≤ MAX_BODY_BYTES)%Z -> length s1 ≤ length s ->
  (if keeps k h then serves (k + 1) fuel s2 (out ++ reply k h body) (reqs ++ [(h, body)]) res
   else res = Ok (out ++ reply k h body, reqs ++ [(h, body)])) ->
  serves k (S fuel) s out reqs res.
Proof.
  intros Hh Hf Hb Hs2 Hmax Hs1 Hres. destruct (keeps k h) eqn:Hk.
  - destruct Hres as (new & tail & -> & Hreqs & Hlen & Htail & Hall).
    exists ((h, body) :: new), tail. cbn [replies length]. rewrite <- !app_assoc.
    split_and!; [done| |lia|done|intros; constructor; [apply Hmax|apply Hall]; lia].
    econstructor; [done..|]. intros _. unfold keeps in Hk. by apply andb_true_iff in Hk as [-> _].
  - subst res. exists [(h, body)], []. cbn [replies length]. rewrite !app_nil_r.
    split_and!; [done| |lia|apply last_words_nil|intros; repeat constructor; apply Hmax; lia].
    econstructor; [done..|constructor|done].
Qed.

Lemma serve_loop_sound fuel k r out reqs :
  reader_ok r -> serves k fuel (stream r) out reqs (serve_loop dispatch fuel k r out reqs).
Proof.
  revert k r out reqs. induction fuel as [|fuel IH]; intros k r out reqs Hr; cbn [serve_loop];
    [apply serves_quietly|].
  destruct (compact_spec r Hr) as (Hr1 & Hs1 & _). rewrite <- Hs1.
  pose proof (read_head_sound (compact r) Hr1) as Hh.
  destruct (read_head (compact r)) as [[h r2]|[e|]|]; [|destruct e as [|m| | |]|apply serves_quietly|done].
  2: apply serves_quietly.
  2: apply (serves_refuse _ _ _ _ _ (BadRequest m)).
  2: apply (serves_refuse _ _ _ _ _ HeadersTooLarge).
  2: apply (serves_refuse _ _ _ _ _ BodyTooLarge).
  2: apply (serves_refuse _ _ _ _ _ Timeout).
  destruct Hh as [Hh Hr2]. pose proof (framing_returns (headers h)) as Hfr.
  destruct (framing (headers h)) as [f|[e|]|] eqn:Ef;
    [|apply serves_refuse|apply serves_quietly|done].
  rewrite interim_out. apply framing_framed in Ef as Hf.
  pose proof (read_body_sound f r2 Hr2 (fun n => framed_range _ f n Hf)) as Hb.
  destruct (read_body f r2) as [[body r3]|[e|]|];
    [|apply serves_refuse_body|apply (serves_refuse_body _ _ _ _ _ h Timeout)|done].
  destruct Hb as (Hb & Hr3 & Hmax). pose proof (head_of_shrinks _ _ _ Hh). pose proof (body_of_shrinks _ _ _ _ Hb).
  eapply serves_request; [done..|lia|done|lia|].
  fold (keeps k h). unfold reply. rewrite app_assoc. destruct (keeps k h); [by apply IH|done].
Qed.

(** ** One reading of a stream *)

Lemma requests_of_prefix s q1 q2 :
  requests_of s q1 -> requests_of s q2 -> q1 `prefix_of` q2 \/ q2 `prefix_of` q1.
Proof.
  intros H1. revert q2. induction H1 as [s|s h f s1 body s2 reqs Hh Hf Hb _ IH _]; intros q2 H2.
  { left. apply prefix_nil. }
  inversion H2 as [s'|s' h' f' s1' body' s2' reqs' Hh' Hf' Hb' Hreqs' _]; subst; [right; apply prefix_nil|].
  destruct (head_of_fun _ _ _ _ _ Hh Hh') as [<- <-].
  apply framing_framed in Hf, Hf'. assert (f' = f) as -> by congruence.
  destruct (body_of_fun _ _ _ _ _ _ Hb Hb') as [<- <-].
  destruct (IH _ Hreqs'); [left|right]; by apply prefix_cons.
Qed.

(** ** Well-formed requests *)

Definition version_text (v : Version) : bytes :=
  match v with HTTP_10 => bstr "HTTP/1.0" | HTTP_11 => bstr "HTTP/1.1" end.
Definition request_line (h : Head) : bytes :=
  method h ++ 32%Z :: target h ++ 32%Z :: version_text (version h).
Definition field_line (h : bytes * bytes) : bytes := fst h ++ bstr ": " ++ snd h.
Definition print_head (h : Head) : bytes :=
  wire_line (request_line h) ++ mjoin (wire_line <$> (field_line <$> headers h)) ++ CRLF.

(** A header as the crate holds it, trimmed. *)
Definition field_ok (h : bytes * bytes) : Prop :=
  header_name (fst h) = Some (fst h) /\ value_ok (snd h) = true /\ trim_ascii (snd h) = snd h.

#[export] Instance field_ok_dec h : Decision (field_ok h).
Proof. unfold field_ok. apply _. Defined.

Record request_ok (q : Head * Payload) : Prop := {
  ok_method : method_ok (method q.1) = true /\ method q.1 <> bstr "CONNECT";
  ok_target : head (target q.1) = Some 47%Z /\ uri_ok (target q.1) = true /\ Forall graph (target q.1);
  ok_fields : Forall field_ok (headers q.1);
  ok_line : length (request_line q.1) < MAX_REQUEST_LINE;
  ok_count : length (headers q.1) ≤ MAX_HEADERS;
  ok_bytes : bytes_of (field_line <$> headers q.1) < MAX_HEADER_BYTES;
  ok_body : exists f, framed (headers q.1) f /\ payload_ok f q.2;
}.

Definition wire (q : Head * Payload) : bytes := print_head q.1 ++ payload_bytes q.2.
Definition received (q : Head * Payload) : Head * bytes := (q.1, payload_body q.2).

(** The requests up to the first that ends the connection. *)
Fixpoint served (k : nat) (reqs : list (Head * bytes)) : list (Head * bytes) :=
  match reqs with
  | [] => []
  | q :: reqs => if keeps k (fst q) then q :: served (k + 1) reqs else [q]
  end.
End serve.

(** ** The lines of well-formed requests *)

Section print.
Context {H : HttpCrate} `{!HttpLaws H}.

Lemma version_text_ok v : parse_version (version_text v) = Some v /\ Forall graph (version_text v).
Proof. destruct v; (split; [done|]); apply (bool_decide_unpack _); by vm_compute. Qed.

Lemma token_graph m : Forall token_char m -> Forall graph m.
Proof. intros Hm. eapply Forall_impl; [done|]. by intros c []. Qed.

Lemma graph_plain s : Forall graph s -> 32%Z ∉ s /\ 10%Z ∉ s.
Proof.
  intros Hs. rewrite Forall_forall in Hs. split; intros Hin; apply Hs in Hin; unfold graph in Hin; lia.
Qed.

Lemma request_line_ok h :
  method_ok (method h) = true -> method h <> bstr "CONNECT" -> head (target h) = Some 47%Z ->
  uri_ok (target h) = true -> Forall graph (target h) ->
  request_of (request_line h) (method h) (target h) (version h) /\ 10%Z ∉ request_line h.
Proof.
  intros Hm Hc Ht Hu Hg. destruct (method_token _ Hm) as [_ Hmg%token_graph].
  destruct (version_text_ok (version h)) as [Hv Hvg].
  destruct (graph_plain _ Hmg), (graph_plain _ Hg), (graph_plain _ Hvg).
  unfold request_line. split.
  - eexists. split; [done|]. split_and!; try done. apply utf8_ascii.
    repeat (rewrite Forall_app || rewrite Forall_cons). unfold graph in *.
    split_and!; try lia; eapply Forall_impl; try done; cbn; lia.
  - rewrite !elem_of_app, !elem_of_cons, elem_of_app, elem_of_cons. naive_solver.
Qed.

Lemma field_line_ok h : field_ok h -> header_of (field_line h) h /\ 10%Z ∉ field_line h /\ field_line h <> [].
Proof.
  intros (Hn & Hv & Ht). destruct h as [n v]. cbn [fst snd] in *. unfold field_line. cbn [fst snd].
  destruct (name_token _ _ Hn) as (_ & Hne & Htok). pose proof (token_graph _ Htok) as Hg.
  split_and!.
  - exists n, (32%Z :: v). split; [done|]. split.
    { intros Hin. rewrite Forall_forall in Htok. destruct (Htok _ Hin) as (_ & Hx & _). apply Hx.
      by apply (bool_decide_unpack _). }
    split_and!; try done.
    + destruct n as [|c n]; [done|]. inversion_clear Hg. intros ? [= <-]. unfold graph in *. lia.
    + unfold ends_in_whitespace. destruct (reverse n) as [|c l] eqn:E; [done|].
      assert (c ∈ n) as Hin by (rewrite <- elem_of_reverse, E; left). rewrite Forall_forall in Hg.
      apply Hg in Hin. unfold graph, is_ascii_whitespace in *. apply bool_decide_eq_false.
      rewrite !elem_of_cons, elem_of_nil. lia.
  - apply value_chars in Hv. rewrite Forall_forall in Hv.
    rewrite !elem_of_app. intros [Hin|[Hin|Hin]].
    + by apply (graph_plain _ Hg).
    + revert Hin. by apply (bool_decide_unpack _).
    + apply Hv in Hin. lia.
  - by destruct n.
Qed.

Lemma line_block_print ls rest :
  Forall (fun l => 10%Z ∉ l /\ l <> []) ls -> line_block (mjoin (wire_line <$> ls) ++ CRLF ++ rest) ls rest.
Proof.
  induction 1 as [|l ls [Hl Hne] _ IH]; csimpl.
  - apply block_end, (front_line_crlf []), not_elem_of_nil.
  - unfold wire_line at 1. rewrite <- !app_assoc. eapply block_line; [by apply front_line_crlf|done|done].
Qed.

Lemma read_printed_head q r rest :
  reader_ok r -> request_ok q -> stream r = print_head q.1 ++ rest ->
  exists r', read_head r = Ok (q.1, r') /\ stream r' = rest /\ reader_ok r'.
Proof.
  intros Hr [[Hm Hc] (Ht & Hu & Hg) Hf Hline Hcount Hbytes _] Hs.
  destruct (request_line_ok _ Hm Hc Ht Hu Hg) as [Hreq Hnl].
  assert (Forall (fun l => 10%Z ∉ l /\ l <> []) (field_line <$> headers q.1)) as Hls.
  { apply Forall_fmap. eapply Forall_impl; [done|]. intros h Hh. by apply field_line_ok. }
  eapply read_head_complete; [done| |done|done|by apply line_block_print| |done|by rewrite length_fmap].
  - rewrite Hs. unfold print_head, wire_line at 1. rewrite <- !app_assoc. by apply front_line_crlf.
  - apply Forall2_fmap_l, Forall_Forall2_diag. eapply Forall_impl; [done|]. intros h Hh. by apply field_line_ok.
Qed.

(** A connection with nothing left says nothing. *)
Lemma read_head_empty r :
  reader_ok r -> stream r = [] -> read_head r = Err Waiting \/ read_head r = Err (Fails Closed).
Proof.
  intros Hr [Hb Ha]%app_nil. unfold read_head, read_line.
  rewrite read_line_waits by (rewrite ?Hb; done). rewrite Hb, decide_False by (cbn; lia).
  unfold fill, has_buffered. destruct (inner r) as [|[[|c b]| |] es]; [by left| |done| |by right].
  all: right; rewrite bind_Ok_eq, bool_decide_eq_false_2; [done|].
  all: apply (f_equal length) in Hb; rewrite length_drop in Hb; cbn in Hb; lia.
Qed.

Lemma serve_loop_complete dispatch fuel k r out reqs ms :
  reader_ok r -> 0 < fuel -> k + fuel = S MAX_REQUESTS_PER_CONNECTION ->
  Forall request_ok ms -> stream r = mjoin (wire <$> ms) ->
  serve_loop dispatch fuel k r out reqs
  = Ok (out ++ replies dispatch k (served k (received <$> ms)), reqs ++ served k (received <$> ms)).
Proof.
  intros Hr Hfuel Hk Hms. revert fuel k r out reqs Hr Hfuel Hk.
  induction Hms as [|q ms Hq _ IH]; intros [|fuel] k r out reqs Hr Hfuel Hk Hs; try lia; cbn [serve_loop];
    destruct (compact_spec r Hr) as (Hr1 & Hs1 & _); rewrite Hs in Hs1.
  - cbn [fmap list_fmap served replies]. rewrite !app_nil_r. by destruct (read_head_empty _ Hr1 Hs1) as [-> | ->].
  - csimpl in Hs1. unfold wire in Hs1 at 1. rewrite <- app_assoc in Hs1.
    destruct (read_printed_head q _ _ Hr1 Hq Hs1) as (r2 & -> & Hs2 & Hr2).
    destruct (ok_body _ Hq) as (f & Hf & Hp). apply framing_framed in Hf as ->. rewrite interim_out.
    destruct (read_body_complete f r2 _ _ Hr2 Hp Hs2) as (r3 & -> & Hs3 & Hr3).
    cbn [fmap list_fmap served received fst]. fold (keeps k q.1). destruct (keeps k q.1) eqn:Hkeep.
    + rewrite (IH fuel (k + 1) r3); [|done| |lia|done].
      * unfold received at 3. cbn [replies]. unfold reply. rewrite Hkeep, <- !app_assoc. done.
      * apply andb_true_iff in Hkeep as [_ Hkeep]. apply bool_decide_eq_true in Hkeep. lia.
    + unfold received. cbn [replies]. unfold reply. by rewrite Hkeep, app_nil_r, <- !app_assoc.
Qed.

(** ** Responses frame themselves *)

Definition handler_fields (res : Response) : list (bytes * bytes) :=
  filter (fun h => is_framing_name (fst h) = false) (rheaders res).
Definition sent_fields (res : Response) (keep_alive : bool) : list (bytes * bytes) :=
  handler_fields res
  ++ (if bodyless_status (status res) then [] else [(CONTENT_LENGTH, decimal (Z.of_nat (length (rbody res))))])
  ++ [(CONNECTION, if keep_alive then bstr "keep-alive" else bstr "close")].
Definition status_line (res : Response) : bytes :=
  bstr "HTTP/1.1 " ++ decimal (status res) ++ bstr " " ++ default [] (canonical_reason (status res)).
Definition sent_body (res : Response) (include_body : bool) : bytes :=
  if include_body && negb (bodyless_status (status res)) then rbody res else [].

Lemma header_lines_print hs : mjoin (header_line <$> hs) = mjoin (wire_line <$> (field_line <$> hs)).
Proof.
  rewrite <- list_fmap_compose. f_equal. apply list_fmap_ext. intros i [n v] _.
  unfold compose, header_line, wire_line, field_line. cbn [fst snd]. by rewrite <- !app_assoc.
Qed.

Lemma one_line_print n v : mjoin (wire_line <$> (field_line <$> [(n, v)])) = n ++ bstr ": " ++ v ++ CRLF.
Proof. cbn [fmap list_fmap mjoin list_join]. unfold wire_line, field_line. cbn [fst snd]. by rewrite app_nil_r, <- !app_assoc. Qed.

Lemma write_response_lines res include_body keep_alive :
  write_response res include_body keep_alive
  = wire_line (status_line res) ++ mjoin (wire_line <$> (field_line <$> sent_fields res keep_alive))
    ++ CRLF ++ sent_body res include_body.
Proof.
  unfold write_response, sent_fields, status_line, sent_body. cbn zeta.
  rewrite header_lines_print, !fmap_app, !join_app. fold (handler_fields res).
  change (bstr "content-length: ") with (CONTENT_LENGTH ++ bstr ": ").
  change (bstr "connection: keep-alive") with (CONNECTION ++ bstr ": " ++ bstr "keep-alive").
  change (bstr "connection: close") with (CONNECTION ++ bstr ": " ++ bstr "close").
  destruct (bodyless_status (status res)), keep_alive; rewrite !one_line_print; unfold wire_line;
    by rewrite <- !app_assoc.
Qed.

Lemma trim_ascii_graph v : Forall graph v -> trim_ascii v = v.
Proof.
  assert (forall l, Forall graph l -> trim_ascii_start l = l) as Hs.
  { intros [|c l] Hl; [done|]. inversion_clear Hl as [|? ? Hc _]. cbn. unfold is_ascii_whitespace.
    rewrite bool_decide_eq_false_2; [done|]. unfold graph in Hc. rewrite !elem_of_cons, elem_of_nil. lia. }
  intros Hv. unfold trim_ascii. rewrite (Hs v Hv), Hs; [apply reverse_involutive|by apply Forall_reverse].
Qed.

Lemma server_field_ok n v :
  n <> [] -> Forall token_char n -> (Z.of_nat (length n) < 2 ^ 16)%Z -> to_ascii_lower <$> n = n ->
  Forall graph v -> field_ok (n, v).
Proof.
  intros Hne Hn Hlen Hlow Hv. split_and!; cbn [fst snd].
  - by rewrite name_accepts, Hlow.
  - apply value_accepts. eapply Forall_impl; [done|]. unfold graph. lia.
  - by apply trim_ascii_graph.
Qed.

Lemma sent_fields_ok res keep_alive :
  Forall field_ok (rheaders res) -> (Z.of_nat (length (rbody res)) < 2 ^ 64)%Z ->
  Forall field_ok (sent_fields res keep_alive).
Proof.
  intros Hf Hlen. unfold sent_fields. rewrite !Forall_app. split_and!.
  - apply Forall_forall. intros h [_ Hh]%list_elem_of_filter. exact (proj1 (Forall_forall _ _) Hf h Hh).
  - case_match; [constructor|]. apply Forall_singleton, server_field_ok; [done| |done..|].
    + by apply (bool_decide_unpack _).
    + apply digits_graph, decimal_digits. lia.
  - apply Forall_singleton, server_field_ok; [done| |done..|];
      [|destruct keep_alive]; by apply (bool_decide_unpack _).
Qed.

(** The framing headers that are sent are the server's. *)
Lemma get_all_app n h1 h2 : get_all n (h1 ++ h2) = get_all n h1 ++ get_all n h2.
Proof. unfold get_all. by rewrite filter_app, fmap_app. Qed.

Lemma get_all_handler n res : is_framing_name n = true -> get_all n (handler_fields res) = [].
Proof.
  intros Hn. unfold get_all, handler_fields. induction (rheaders res) as [|h hs IH]; [done|].
  rewrite filter_cons. case_decide as Hh; [|done]. rewrite filter_cons, decide_False; [done|]. congruence.
Qed.

Lemma sent_framing res keep_alive :
  let hs := sent_fields res keep_alive in
  get_all TRANSFER_ENCODING hs = []
  /\ get_all CONNECTION hs = [if keep_alive then bstr "keep-alive" else bstr "close"]
  /\ get_all CONTENT_LENGTH hs
     = (if bodyless_status (status res) then [] else [decimal (Z.of_nat (length (rbody res)))]).
Proof.
  cbn zeta. unfold sent_fields. rewrite !get_all_app, !get_all_handler by done.
  by destruct (bodyless_status (status res)), keep_alive.
Qed.

Lemma decimal_member n : (0 ≤ n < 2 ^ 64)%Z -> length_member n (decimal n).
Proof.
  intros Hn. unfold length_member. rewrite trim_decimal by done. split_and!.
  - by destruct (decimal_spec n) as (_ & ? & _).
  - by apply decimal_digits.
  - apply parse_uint_decimal; lia.
Qed.

Lemma status_line_plain res : (0 ≤ status res < 2 ^ 64)%Z -> 10%Z ∉ status_line res.
Proof.
  intros Hs. unfold status_line. rewrite !elem_of_app.
  intros [Hin|[Hin|[Hin|Hin]]].
  - revert Hin. by apply (bool_decide_unpack _).
  - revert Hin. by apply graph_plain, digits_graph, decimal_digits.
  - revert Hin. by apply (bool_decide_unpack _).
  - destruct (canonical_reason (status res)) as [s|] eqn:E; [|by apply elem_of_nil in Hin].
    apply reason_chars in E. rewrite Forall_forall in E. apply E in Hin. lia.
Qed.

Lemma write_response_sound res include_body keep_alive rest :
  Forall field_ok (rheaders res) -> (0 ≤ status res < 2 ^ 64)%Z -> (Z.of_nat (length (rbody res)) < 2 ^ 64)%Z ->
  exists s' ls,
    front_line (write_response res include_body keep_alive ++ rest) (status_line res) s'
    /\ line_block s' ls (sent_body res include_body ++ rest)
    /\ Forall2 header_of ls (sent_fields res keep_alive).
Proof.
  intros Hf Hs Hlen. pose proof (sent_fields_ok res keep_alive Hf Hlen) as Hok.
  rewrite write_response_lines. unfold wire_line at 1. rewrite <- !app_assoc.
  eexists _, _. split; [by apply front_line_crlf, status_line_plain|]. split; [apply line_block_print|].
  - apply Forall_fmap. eapply Forall_impl; [done|]. intros h Hh. by apply field_line_ok.
  - apply Forall2_fmap_l, Forall_Forall2_diag. eapply Forall_impl; [done|]. intros h Hh. by apply field_line_ok.
Qed.
End print.
