(* ===== verification/HttpProps.v ===== *)
(** * The HTTP server: its properties

    The statements about [serve_connection], the framing and the responses, and a
    crate to try them on. *)
From S2P Require Import Prelude Text HttpServer HttpReader HttpHead HttpBody HttpServe.

#[local] Opaque MAX_REQUEST_LINE MAX_HEADER_BYTES MAX_HEADERS MAX_BODY_BYTES MAX_REQUESTS_PER_CONNECTION.

(** ** A crate *)

Definition token (m : bytes) : bool := bool_decide (m <> [] /\ Forall token_char m).
Definition printable (v : bytes) : bool := bool_decide (Forall (fun c => 32 ≤ c ≤ 126)%Z v).

Definition ascii_crate : HttpCrate := {|
  method_ok := token;
  uri_ok u := bool_decide (Forall graph u);
  header_name n :=
    if token n && bool_decide (Z.of_nat (length n) < 2 ^ 16)%Z then Some (to_ascii_lower <$> n) else None;
  value_ok := printable;
  value_to_str v := if printable v then Some v else None;
  canonical_reason s :=
    if decide (s = 200)%Z then Some (bstr "OK") else if decide (s = 204)%Z then Some (bstr "No Content") else None;
|}.

Lemma ascii_crate_laws : HttpLaws ascii_crate.
Proof.
  split; cbn; unfold token, printable.
  - intros m Hm. by apply bool_decide_eq_true in Hm.
  - intros n n'. case_match eqn:E; [|done]. apply andb_true_iff in E as [E _].
    apply bool_decide_eq_true in E. intros [= <-]. tauto.
  - intros v Hv. apply bool_decide_eq_true in Hv. eapply Forall_impl; [done|]. cbn. lia.
  - intros v s. case_match; congruence.
  - intros v Hv. by rewrite bool_decide_eq_true_2.
  - intros n Hne Hn Hlen. by rewrite !bool_decide_eq_true_2.
  - intros v Hv. by apply bool_decide_eq_true_2.
  - intros n s. repeat case_decide; intros [= <-]; by apply (bool_decide_unpack _).
Qed.

(** ** The framing *)

(** C33: [framing] answers every list of headers, and answers a framing exactly
    when the two framing headers state that one: no headers at all for no body;
    one [Content-Length] whose members are all the same decimal number within the
    limit; or one [Transfer-Encoding] that is [chunked], alone.  Both headers
    together are always refused. *)
Theorem framing_exact `{HttpCrate} (hs : list (bytes * bytes)) :
  returns (framing hs) /\ (forall f, framing hs = Ok f <-> framed hs f)
  /\ ~ exists f, get_all TRANSFER_ENCODING hs <> [] /\ get_all CONTENT_LENGTH hs <> [] /\ framing hs = Ok f.
Proof.
  split; [apply framing_returns|]. split; [intros; apply framing_framed|].
  intros (f & Ht & Hc & Hf%framing_framed). destruct f; cbn in Hf; tauto.
Qed.

(** ** The connection *)

(** C5: Whatever bytes a client sends and however the socket cuts them,
    [serve_connection] returns without a panic; the requests it dispatches are
    consecutive requests from the front of the byte stream, at most 512, each
    parsed by the strict grammar with a body of at most 2 MiB; what it writes is
    the answer to each of them in order, then nothing or one error response. *)
Theorem serve_connection_sound `{HttpCrate} (dispatch : nat -> Head -> bytes -> Response) (es : list Event) :
  (Z.of_nat (length (avail es)) < 2 ^ 64)%Z ->
  exists reqs tail,
    serve_connection dispatch es = Ok (replies dispatch 1 reqs ++ tail, reqs)
    /\ requests_of (avail es) reqs /\ length reqs ≤ MAX_REQUESTS_PER_CONNECTION /\ last_words tail
    /\ Forall (fun q => Z.of_nat (length (snd q)) ≤ MAX_BODY_BYTES)%Z reqs.
Proof.
  intros Hlen. destruct (reader_new_ok es) as [Hr Hs].
  destruct (serve_loop_sound dispatch MAX_REQUESTS_PER_CONNECTION 1 (reader_new es) [] [] Hr)
    as (new & tail & E & Hreqs & Hn & Ht & Hb). rewrite Hs in *. exists new, tail. eauto 6.
Qed.

(** C6: Two connections on which the same bytes arrive dispatch the same
    requests, one of them perhaps more than the other: how the bytes are cut into
    reads, and what the router does with them, never moves a request boundary. *)
Theorem segmentation_prefix `{HttpCrate} (d1 d2 : nat -> Head -> bytes -> Response) es1 es2 o1 q1 o2 q2 :
  avail es1 = avail es2 ->
  serve_connection d1 es1 = Ok (o1, q1) -> serve_connection d2 es2 = Ok (o2, q2) ->
  q1 `prefix_of` q2 \/ q2 `prefix_of` q1.
Proof.
  unfold serve_connection. intros Hes E1 E2.
  destruct (reader_new_ok es1) as [Hr1 Hs1], (reader_new_ok es2) as [Hr2 Hs2].
  destruct (serve_loop_sound d1 MAX_REQUESTS_PER_CONNECTION 1 _ [] [] Hr1) as (n1 & t1 & E1' & H1 & _).
  destruct (serve_loop_sound d2 MAX_REQUESTS_PER_CONNECTION 1 _ [] [] Hr2) as (n2 & t2 & E2' & H2 & _).
  rewrite E1 in E1'. rewrite E2 in E2'. simplify_eq. rewrite Hs1, Hes in H1. rewrite Hs2 in H2.
  by eapply requests_of_prefix.
Qed.

(** C4: Well-formed requests sent one behind the other, with bodies by length or
    in chunks of any spelling and in reads of any size, are all dispatched with
    their exact heads and bodies, and answered in order, up to the first that
    does not keep the connection. *)
Theorem pipelined_requests_answered {H : HttpCrate} `{!HttpLaws H} (dispatch : nat -> Head -> bytes -> Response) es ms :
  Forall request_ok ms -> avail es = mjoin (wire <$> ms) ->
  let reqs := served 1 (received <$> ms) in
  serve_connection dispatch es = Ok (replies dispatch 1 reqs, reqs).
Proof.
  intros Hms Hes. destruct (reader_new_ok es) as [Hr Hs]. unfold serve_connection.
  rewrite (serve_loop_complete dispatch MAX_REQUESTS_PER_CONNECTION 1 _ [] [] ms); try done.
  by apply Nat.ltb_lt.
Qed.

(** ** Responses *)

(** A response on the wire is one status line, the handler's headers without
    its framing headers, the server's [Content-Length] and [Connection], an empty
    line and the body; the length is that of the body (none for 204 and 304) and
    there is no [Transfer-Encoding], whatever the handler set.  So the reader of
    the connection finds the next response where this one ends. *)
Theorem response_frames_itself {H : HttpCrate} `{!HttpLaws H} (res : Response) (include_body keep_alive : bool) (rest : bytes) :
  Forall field_ok (rheaders res) -> (100 ≤ status res ≤ 999)%Z -> (Z.of_nat (length (rbody res)) < 2 ^ 64)%Z ->
  let hs := sent_fields res keep_alive in
  exists s' ls,
    front_line (write_response res include_body keep_alive ++ rest) (status_line res) s'
    /\ line_block s' ls (sent_body res include_body ++ rest) /\ Forall2 header_of ls hs
    /\ get_all TRANSFER_ENCODING hs = []
    /\ get_all CONNECTION hs = [if keep_alive then bstr "keep-alive" else bstr "close"]
    /\ (if bodyless_status (status res) then get_all CONTENT_LENGTH hs = [] /\ sent_body res include_body = []
        else exists v, get_all CONTENT_LENGTH hs = [v] /\ length_member (Z.of_nat (length (rbody res))) v
             /\ sent_body res include_body = if include_body then rbody res else []).
Proof.
  intros Hf Hst Hlen. cbn zeta. destruct (sent_framing res keep_alive) as (Ht & Hc & Hl).
  destruct (write_response_sound res include_body keep_alive rest Hf ltac:(lia) Hlen) as (s' & ls & H1 & H2 & H3).
  exists s', ls. rewrite Ht, Hc, Hl. split_and!; try done. unfold sent_body.
  destruct (bodyless_status (status res)); [by rewrite andb_false_r|]. rewrite andb_true_r.
  eexists. split; [done|]. split; [|done]. apply decimal_member. lia.
Qed.

(** ** The limit on chunked bodies *)

(** A socket that sends and then falls silent. *)
Definition sends (blocks : list bytes) : list Event := Data <$> blocks.

Lemma read_exact_starves n r blocks :
  inner r = sends blocks -> Forall (fun b => b <> []) blocks -> reader_ok r ->
  (Z.of_nat (length (stream r)) < n)%Z -> read_exact n r = Err Waiting.
Proof.
  intros Hi Hb. unfold read_exact. rewrite Hi. unfold sends at 1. rewrite length_fmap. revert r Hi.
  induction Hb as [|b blocks Hne _ IH]; intros r Hi Hr Hn; cbn [length];
    (rewrite read_exact_waits; [|done|unfold stream in Hn; rewrite length_app, length_drop in Hn; lia]); unfold fill; rewrite Hi; [done|].
  cbn [sends fmap list_fmap]. destruct b as [|c b]; [done|]. rewrite bind_Ok_eq.
  assert (fill r = Ok (true, mkConnReader (sends blocks) (buf r ++ c :: b) (pos r))) as E
    by (unfold fill; by rewrite Hi).
  destruct (fill_true r _ Hr E) as (Hr' & Hs' & _). apply IH; [done|done|].
  rewrite <- Hs' in Hn. exact Hn.
Qed.

Lemma avail_sends blocks : Forall (fun b => b <> []) blocks -> avail (sends blocks) = mjoin blocks.
Proof.
  induction 1 as [|[|c b] blocks Hne _ IH]; [done|done|].
  change (avail (sends ((c :: b) :: blocks))) with ((c :: b) ++ avail (sends blocks)). by rewrite IH.
Qed.

Definition wrapping_body : bytes :=
  bstr "1" ++ CRLF ++ bstr "x" ++ CRLF ++ bstr "ffffffffffffffff" ++ CRLF.

(** The sum of [read_chunked] wraps: a first chunk of one byte and a second one of
    [2^64 - 1] pass the limit, and whatever the client sends after them is
    buffered until the body times out. *)
Lemma chunk_limit_wraps blocks :
  Forall (fun b => b <> []) blocks -> (Z.of_nat (length (mjoin blocks)) < 2 ^ 64 - 1)%Z ->
  read_chunked (mkConnReader (sends blocks) wrapping_body 0) = Err Waiting.
Proof.
  intros Hb Hlen. pose (at_pos := fun p => mkConnReader (sends blocks) wrapping_body p). fold (at_pos 0).
  assert (read_line 1024 (at_pos 0) = Ok (bstr "1", at_pos 3)) as E1 by (vm_compute; reflexivity).
  assert (read_exact 1 (at_pos 3) = Ok (bstr "x", at_pos 4)) as E2 by (vm_compute; reflexivity).
  assert (read_line 8 (at_pos 4) = Ok ([], at_pos 6)) as E3 by (vm_compute; reflexivity).
  assert (read_line 1024 (at_pos 6) = Ok (bstr "ffffffffffffffff", at_pos 24)) as E4 by (vm_compute; reflexivity).
  assert (parse_chunk_size (bstr "1") = Ok 1%Z) as P1 by (vm_compute; reflexivity).
  assert (parse_chunk_size (bstr "ffffffffffffffff") = Ok (2 ^ 64 - 1)%Z) as P2 by (vm_compute; reflexivity).
  unfold read_chunked. change (supply (at_pos 0)) with (S (23 + foldr
    (fun e n => match e with Data b => length b + n | _ => n end) 0 (sends blocks))).
  generalize (23 + foldr (fun e n => match e with Data b => length b + n | _ => n end) 0 (sends blocks)) as fuel.
  intros fuel. cbn [read_chunks]. rewrite E1, bind_Ok_eq, P1, bind_Ok_eq, !decide_False by done.
  rewrite E2, bind_Ok_eq, E3, bind_Ok_eq, decide_False, E4, bind_Ok_eq, P2, bind_Ok_eq by tauto.
  rewrite (decide_False (P := (2 ^ 64 - 1 = 0)%Z)) by done.
  rewrite (decide_False (P := (MAX_BODY_BYTES < _)%Z)) by (vm_compute; done).
  rewrite (read_exact_starves _ _ blocks); [done|done|done|unfold reader_ok; cbn; lia|].
  unfold stream. cbn [inner pos buf at_pos]. change (drop 24 wrapping_body) with (@nil Z). cbn [app].
  rewrite avail_sends by done. lia.
Qed.

(** ** Witnesses *)

Section witnesses.
#[local] Existing Instance ascii_crate.
#[local] Existing Instance ascii_crate_laws.

Definition echo (k : nat) (h : Head) (body : bytes) : Response :=
  mkResponse 200 [(bstr "x-target", target h); (TRANSFER_ENCODING, bstr "chunked")] body.

Definition post : Head * Payload :=
  (mkHead (bstr "POST") (bstr "/a") HTTP_11 [(CONTENT_LENGTH, bstr "2")], Plain (bstr "hi")).
Definition put : Head * Payload :=
  (mkHead (bstr "PUT") (bstr "/b") HTTP_11 [(TRANSFER_ENCODING, bstr "Chunked"); (CONNECTION, bstr "close")],
   Pieces [(bstr "03;x=y", bstr "abc"); (bstr "1", bstr "d")] (bstr "0") [bstr "trailer: yes"]).

(** Both requests, one byte per read. *)
Definition byte_by_byte : list Event := (fun c => Data [c]) <$> (wire post ++ wire put).

Lemma post_ok : request_ok post.
Proof.
  split; try (apply (bool_decide_unpack _); vm_compute; exact I).
  exists (Length 2). split; [apply framing_framed|]; by vm_compute.
Qed.

Lemma put_ok : request_ok put.
Proof.
  split; try (apply (bool_decide_unpack _); vm_compute; exact I).
  exists Chunked. split; [apply framing_framed; by vm_compute|].
  apply (bool_decide_unpack _). vm_compute. exact I.
Qed.

Lemma serve_connection_sound_witness :
  exists reqs tail, serve_connection echo byte_by_byte = Ok (replies echo 1 reqs ++ tail, reqs) /\ length reqs = 2.
Proof.
  destruct (serve_connection_sound echo byte_by_byte) as (reqs & tail & E & _ & _ & _ & _);
    [vm_compute; reflexivity|].
  exists reqs, tail. split; [exact E|].
  assert (exists out, serve_connection echo byte_by_byte = Ok (out, [received post; received put])) as [out E']
    by (eexists; vm_compute; reflexivity).
  rewrite E' in E. injection E as _ <-. reflexivity.
Defined.

Lemma segmentation_prefix_witness :
  exists o1 q1 o2 q2,
    serve_connection echo byte_by_byte = Ok (o1, q1)
    /\ serve_connection echo [Data (wire post ++ wire put); Eof] = Ok (o2, q2)
    /\ (q1 `prefix_of` q2 \/ q2 `prefix_of` q1).
Proof.
  destruct (serve_connection echo byte_by_byte) as [[o1 q1]| |] eqn:E1; [|by vm_compute in E1..].
  destruct (serve_connection echo [Data (wire post ++ wire put); Eof]) as [[o2 q2]| |] eqn:E2; [|by vm_compute in E2..].
  exists o1, q1, o2, q2. split; [reflexivity|]. split; [reflexivity|].
  apply (segmentation_prefix echo echo byte_by_byte [Data (wire post ++ wire put); Eof] o1 q1 o2 q2);
    [vm_compute; reflexivity|exact E1|exact E2].
Defined.

Lemma pipelined_requests_answered_witness :
  let reqs := served 1 (received <$> [post; put]) in
  length reqs = 2 /\ serve_connection echo byte_by_byte = Ok (replies echo 1 reqs, reqs).
Proof.
  split; [vm_compute; reflexivity|].
  apply (pipelined_requests_answered echo byte_by_byte [post; put]).
  - constructor; [apply post_ok|]. constructor; [apply put_ok|constructor].
  - vm_compute. reflexivity.
Defined.

Lemma response_frames_itself_witness :
  exists s' ls,
    front_line (write_response (echo 1 post.1 (bstr "hello")) true true ++ bstr "HTTP/1.1 ") (bstr "HTTP/1.1 200 OK") s'
    /\ line_block s' ls (bstr "helloHTTP/1.1 ").
Proof.
  destruct (response_frames_itself (echo 1 post.1 (bstr "hello")) true true (bstr "HTTP/1.1 "))
    as (s' & ls & H1 & H2 & _).
  - apply (bool_decide_unpack _). vm_compute. exact I.
  - cbn. lia.
  - vm_compute. reflexivity.
  - exists s', ls. split; [exact H1|exact H2].
Defined.
End witnesses.
