(* ===== verification/HttpQuery.v ===== *)
(** * Query strings ([src/src/http/query.rs], [src/src/api/session.rs])

    Percent-decoding, the pairs of a query string, and the encoder of the session
    handlers.  Strings are their UTF-8 bytes. *)
From S2P Require Import Prelude Text.

(** ** [String::from_utf8_lossy] *)

Definition REPLACEMENT : bytes := [239; 191; 189]%Z.

(** The second byte that may follow a leading byte. *)
Definition second_ok (a b : Z) : bool :=
  if decide (a = 224)%Z then cont_in 160 191 b
  else if decide (a = 237)%Z then cont_in 128 159 b
  else if decide (a = 240)%Z then cont_in 144 191 b
  else if decide (a = 244)%Z then cont_in 128 143 b
  else cont_in 128 191 b.

Definition utf8_width (a : Z) : nat :=
  if cont_in 0 127 a then 1 else if cont_in 194 223 a then 2
  else if cont_in 224 239 a then 3 else if cont_in 240 244 a then 4 else 0.

(** The first character, or the longest start of one, which one replacement
    character stands for. *)
Definition utf8_step (a : Z) (s1 : bytes) : option bytes * bytes :=
  match utf8_width a, s1 with
  | 1, _ => (Some [a], s1)
  | 2, b :: s2 => if second_ok a b then (Some [a; b], s2) else (None, s1)
  | 3, b :: c :: s3 =>
      if second_ok a b then if cont_in 128 191 c then (Some [a; b; c], s3) else (None, c :: s3) else (None, s1)
  | 3, [b] => if second_ok a b then (None, []) else (None, s1)
  | 4, b :: c :: d :: s4 =>
      if second_ok a b then
        if cont_in 128 191 c then
          if cont_in 128 191 d then (Some [a; b; c; d], s4) else (None, d :: s4)
        else (None, c :: d :: s4)
      else (None, s1)
  | 4, [b; c] =>
      if second_ok a b then if cont_in 128 191 c then (None, []) else (None, [c]) else (None, s1)
  | 4, [b] => if second_ok a b then (None, []) else (None, s1)
  | _, _ => (None, s1)
  end.

Fixpoint lossy_go (fuel : nat) (s : bytes) : bytes :=
  match fuel, s with
  | S fuel, a :: s1 =>
      let '(c, s) := utf8_step a s1 in default REPLACEMENT c ++ lossy_go fuel s
  | _, _ => []
  end.
Definition from_utf8_lossy (s : bytes) : bytes := lossy_go (length s) s.

(** ** The decoder *)

(** The loop of [percent_decode]; an escape needs its two digits. *)
Fixpoint percent_loop (s : bytes) : bytes :=
  match s with
  | [] => []
  | c :: s1 =>
      if decide (c = 43)%Z then 32%Z :: percent_loop s1
      else if decide (c = 37)%Z then
        match s1 with
        | h :: l :: s3 =>
            match hex_value h, hex_value l with
            | Some hi, Some lo => Z.lor (u8 (Z.shiftl hi 4)) lo :: percent_loop s3
            | _, _ => c :: percent_loop s1
            end
        | _ => c :: percent_loop s1
        end
      else c :: percent_loop s1
  end.

Definition percent_decode (input : bytes) : bytes :=
  if negb (bool_decide (37%Z ∈ input)) && negb (bool_decide (43%Z ∈ input)) then input
  else from_utf8_lossy (percent_loop input).

Definition parse_pair (pair : bytes) : bytes * bytes :=
  match split_once 61 pair with
  | Some (k, v) => (percent_decode k, percent_decode v)
  | None => (percent_decode pair, [])
  end.

Definition parse_pairs (query : bytes) : list (bytes * bytes) :=
  parse_pair <$> filter (fun p => p <> []) (split_on (fun c => bool_decide (c = 38%Z)) query).

(** ** The encoder: unreserved characters stay, the others are escaped. *)

Definition unreserved (c : Z) : bool :=
  bool_decide (65 ≤ c ≤ 90 \/ 97 ≤ c ≤ 122 \/ 48 ≤ c ≤ 57 \/ c = 45 \/ c = 95 \/ c = 46 \/ c = 126)%Z.
Definition hex_upper (d : Z) : Z := if decide (d < 10)%Z then (48 + d)%Z else (55 + d)%Z.
Definition url_encode (s : bytes) : bytes :=
  s ≫= fun b => if unreserved b then [b] else [37%Z; hex_upper (b / 16); hex_upper (b mod 16)].

(** ** Lossy decoding *)

Lemma cont_in_iff lo hi c : cont_in lo hi c = true <-> (lo ≤ c ≤ hi)%Z.
Proof. unfold cont_in. by rewrite andb_true_iff, !bool_decide_eq_true. Qed.

Lemma lead_three a b :
  (if decide (a = 224)%Z then cont_in 160 191 b
   else if decide (a = 237)%Z then cont_in 128 159 b
   else (cont_in 225 236 a || cont_in 238 239 a) && cont_in 128 191 b)
  = cont_in 224 239 a && second_ok a b.
Proof.
  unfold second_ok. case_decide; [by subst|]. case_decide; [by subst|].
  replace (cont_in 225 236 a || cont_in 238 239 a) with (cont_in 224 239 a)
    by (apply eq_bool_prop_intro; rewrite !Is_true_true, orb_true_iff, !cont_in_iff; lia).
  destruct (cont_in 224 239 a) eqn:E; [|done]. apply cont_in_iff in E. by rewrite !decide_False by lia.
Qed.

Lemma lead_four a b :
  (if decide (a = 240)%Z then cont_in 144 191 b
   else if decide (a = 244)%Z then cont_in 128 143 b
   else cont_in 241 243 a && cont_in 128 191 b)
  = cont_in 240 244 a && second_ok a b.
Proof.
  unfold second_ok. case_decide; [by subst|]. case_decide; [by subst|].
  replace (cont_in 241 243 a) with (cont_in 240 244 a)
    by (apply eq_bool_prop_intro; rewrite !Is_true_true, !cont_in_iff; lia).
  destruct (cont_in 240 244 a) eqn:E; [|done]. apply cont_in_iff in E. by rewrite !decide_False by lia.
Qed.

Lemma second_two a b : cont_in 194 223 a = true -> second_ok a b = cont_in 128 191 b.
Proof. rewrite cont_in_iff. intros. unfold second_ok. by rewrite !decide_False by lia. Qed.

Lemma utf8_valid_step a s1 :
  utf8_valid (a :: s1) = let '(c, s) := utf8_step a s1 in if c then utf8_valid s else false.
Proof.
  unfold utf8_step, utf8_width. cbn [utf8_valid].
  destruct (cont_in 0 127 a) eqn:E1; [done|]. destruct (cont_in 194 223 a) eqn:E2.
  { destruct s1 as [|b s2]; [done|]. rewrite second_two by done. by destruct (cont_in 128 191 b). }
  destruct (cont_in 224 239 a) eqn:E3.
  - assert (cont_in 240 244 a = false) as E4 by (apply not_true_iff_false; rewrite cont_in_iff in *; lia).
    destruct s1 as [|b [|c s3]]; [done|by destruct (second_ok a b)|].
    cbn zeta. rewrite lead_three, E3. cbn [andb]. destruct (second_ok a b) eqn:E5.
    + by destruct (cont_in 128 191 c).
    + destruct s3; [done|]. by rewrite lead_four, E4.
  - destruct (cont_in 240 244 a) eqn:E4.
    + destruct s1 as [|b [|c [|d s4]]]; [done|by destruct (second_ok a b)| |]; cbn zeta; rewrite lead_three, E3;
        cbn [andb]; [by destruct (second_ok a b), (cont_in 128 191 c)|]. rewrite lead_four, E4. cbn [andb].
      by destruct (second_ok a b), (cont_in 128 191 c), (cont_in 128 191 d).
    + destruct s1 as [|b [|c [|d s4]]]; [done..| |]; cbn zeta; rewrite lead_three, E3; [done|].
      cbn [andb]. by rewrite lead_four, E4.
Qed.

Lemma utf8_step_Some a s1 c s :
  utf8_step a s1 = (Some c, s) ->
  exists c', c = a :: c' /\ s1 = c' ++ s /\ forall t, utf8_step a (c' ++ t) = (Some c, t).
Proof.
  unfold utf8_step. intros E. destruct (utf8_width a) as [|[|[|[|[|w]]]]] eqn:Ew; try done.
  - injection E as <- <-. by exists [].
  - destruct s1 as [|b s2]; [done|]. destruct (second_ok a b) eqn:E2; [|done]. injection E as <- <-.
    exists [b]. cbn. by rewrite E2.
  - destruct s1 as [|b [|c2 s3]]; try (by repeat case_match). destruct (second_ok a b) eqn:E2; [|done].
    destruct (cont_in 128 191 c2) eqn:E3; [|done]. injection E as <- <-. exists [b; c2]. cbn. by rewrite E2, E3.
  - destruct s1 as [|b [|c2 [|d s4]]]; try (by repeat case_match). destruct (second_ok a b) eqn:E2; [|done].
    destruct (cont_in 128 191 c2) eqn:E3; [|done]. destruct (cont_in 128 191 d) eqn:E4; [|done].
    injection E as <- <-. exists [b; c2; d]. cbn. by rewrite E2, E3, E4.
Qed.

Lemma utf8_step_shorter a s1 c s : utf8_step a s1 = (c, s) -> length s ≤ length s1.
Proof.
  unfold utf8_step. intros E. repeat case_match; simplify_eq/=; lia.
Qed.

Lemma utf8_step_valid a s1 c s t :
  utf8_step a s1 = (Some c, s) -> utf8_valid (c ++ t) = utf8_valid t.
Proof.
  intros (c' & -> & _ & Ht)%utf8_step_Some. cbn [app]. by rewrite utf8_valid_step, Ht.
Qed.

(** The decoder returns valid text, and leaves valid text alone. *)
Lemma lossy_valid s : utf8_valid (from_utf8_lossy s) = true.
Proof.
  unfold from_utf8_lossy. generalize (length s) as fuel. intros fuel. revert s.
  induction fuel as [|fuel IH]; intros [|a s1]; try done. cbn [lossy_go].
  destruct (utf8_step a s1) as [[c|] s] eqn:E; cbn [default].
  - by rewrite (utf8_step_valid _ _ _ _ _ E).
  - apply IH.
Qed.

Lemma lossy_id s : utf8_valid s = true -> from_utf8_lossy s = s.
Proof.
  unfold from_utf8_lossy. assert (length s ≤ length s) as Hl by done. revert Hl.
  generalize (length s) at 2 3 as fuel. intros fuel. revert s.
  induction fuel as [|fuel IH]; intros [|a s1] Hl Hv; cbn [length lossy_go] in *; try done; [lia|].
  rewrite utf8_valid_step in Hv. destruct (utf8_step a s1) as [[c|] s] eqn:E; [|done].
  pose proof (utf8_step_shorter _ _ _ _ E). destruct (utf8_step_Some _ _ _ _ E) as (c' & -> & -> & _).
  cbn [default app]. rewrite IH; [done|lia|done].
Qed.

(** ** The decoder undoes every encoding *)

(** A spelling of text: a byte as itself when it is neither a percent sign nor a
    plus, a space as a plus, any byte as an escape in digits of either case. *)
Inductive spells : bytes -> bytes -> Prop :=
  | spells_nil : spells [] []
  | spells_plain c s e : c <> 37%Z -> c <> 43%Z -> spells s e -> spells (c :: s) (c :: e)
  | spells_plus s e : spells s e -> spells (32%Z :: s) (43%Z :: e)
  | spells_escape h l hi lo s e :
      hex_value h = Some hi -> hex_value l = Some lo -> spells s e ->
      spells ((hi * 16 + lo)%Z :: s) (37%Z :: h :: l :: e).

Lemma hex_byte hi lo : (0 ≤ hi < 16)%Z -> (0 ≤ lo < 16)%Z -> Z.lor (u8 (Z.shiftl hi 4)) lo = (hi * 16 + lo)%Z.
Proof.
  intros Hh Hl. apply Z.eqb_eq.
  apply (forall_below2 (fun hi lo => Z.lor (u8 (Z.shiftl hi 4)) lo =? hi * 16 + lo)%Z 16 16); [by vm_compute|lia..].
Qed.

Lemma percent_loop_spells s e : spells s e -> percent_loop e = s.
Proof.
  induction 1 as [|c s e H1 H2 _ IH|s e _ IH|h l hi lo s e Hh Hl _ IH]; cbn [percent_loop]; [done| | |].
  - by rewrite !decide_False, IH.
  - by rewrite decide_True, IH.
  - rewrite decide_False, decide_True, Hh, Hl, IH by done. f_equal.
    apply hex_byte; by eapply hex_value_range.
Qed.

Lemma percent_decode_spells s e : spells s e -> utf8_valid s = true -> percent_decode e = s.
Proof.
  intros Hs Hv. unfold percent_decode. pose proof (percent_loop_spells _ _ Hs) as Hl.
  case_match eqn:E; [|by rewrite Hl, lossy_id].
  apply andb_true_iff in E as [H1%negb_true_iff H2%negb_true_iff].
  apply bool_decide_eq_false in H1, H2. clear Hv Hl.
  induction Hs as [|c s e _ _ _ IH| |]; try (exfalso; naive_solver (try (by left))); [done|].
  f_equal. apply IH; intros Hin; [apply H1|apply H2]; by right.
Qed.

Lemma url_encode_spells s : bytes_ok s -> spells s (url_encode s).
Proof.
  intros Hs. induction Hs as [|c s Hc _ IH]; [constructor|]. unfold url_encode. csimpl. fold (url_encode s).
  unfold byte_ok in Hc. destruct (unreserved c) eqn:E; cbn [app].
  - apply bool_decide_eq_true in E. constructor; [lia|lia|done].
  - assert (c = c / 16 * 16 + c mod 16)%Z as Hdiv by (pose proof (Z.div_mod c 16); lia). rewrite Hdiv at 1.
    pose proof (Z.mod_pos_bound c 16 ltac:(lia)). assert (0 ≤ c / 16 < 16)%Z by (split; [apply Z.div_pos; lia|apply Z.div_lt_upper_bound; lia]).
    constructor; [| |done]; unfold hex_upper, hex_value; case_decide; repeat case_decide; try lia; f_equal; lia.
Qed.

Lemma filter_all {A} (P : A -> Prop) `{forall x, Decision (P x)} l : Forall P l -> filter P l = l.
Proof. induction 1 as [|x l Hx _ IH]; [done|]. rewrite filter_cons, decide_True by done. by rewrite IH. Qed.

(** A query as a client writes it: each pair in some spelling without the
    separators, joined with ampersands. *)
Definition spelled_pair (kv : bytes * bytes) (e : bytes) : Prop :=
  exists ek ev, e = ek ++ 61%Z :: ev /\ spells (fst kv) ek /\ spells (snd kv) ev
    /\ utf8_valid (fst kv) = true /\ utf8_valid (snd kv) = true
    /\ 38%Z ∉ ek /\ 61%Z ∉ ek /\ 38%Z ∉ ev.

Lemma parse_pair_spelled kv e : spelled_pair kv e -> parse_pair e = kv.
Proof.
  intros (ek & ev & -> & Hk & Hv & Uk & Uv & _ & He & _). unfold parse_pair.
  rewrite (proj2 (split_once_spec 61 _ ek ev)) by done.
  rewrite (percent_decode_spells _ _ Hk Uk), (percent_decode_spells _ _ Hv Uv). by destruct kv.
Qed.

Lemma spelled_pair_plain kv e : spelled_pair kv e -> e <> [] /\ Forall (fun c => bool_decide (c = 38%Z) = false) e.
Proof.
  intros (ek & ev & -> & _ & _ & _ & _ & Hk & _ & Hv). split; [by destruct ek|].
  apply Forall_forall. intros c Hc. apply bool_decide_eq_false. intros ->.
  rewrite elem_of_app, elem_of_cons in Hc. naive_solver.
Qed.

(** A query gives back the pairs it was written from, in order and with
    repeated names, whichever spelling each byte has: itself, a plus for a space,
    or an escape in digits of either case. *)
Theorem parse_pairs_spelled (kvs : list (bytes * bytes)) (es : list bytes) :
  Forall2 spelled_pair kvs es -> parse_pairs (join_with 38%Z es) = kvs.
Proof.
  intros Hp. unfold parse_pairs. destruct es as [|e es]; [by inversion Hp|].
  assert (Forall (fun e => e <> [] /\ Forall (fun c => bool_decide (c = 38%Z) = false) e) (e :: es)) as Hes.
  { apply Forall_forall. intros x Hx. destruct (list_elem_of_lookup_1 _ _ Hx) as [i Hi].
    destruct (Forall2_lookup_r _ _ _ _ _ Hp Hi) as (kv & _ & Hs). by eapply spelled_pair_plain. }
  rewrite split_join; [|done..|].
  - rewrite filter_all; [|by eapply Forall_impl; [exact Hes|]; intros ? []].
    clear Hes. induction Hp as [|kv x kvs xs Hx _ IH]; [done|]. csimpl. by rewrite IH, (parse_pair_spelled _ _ Hx).
  - eapply Forall_impl; [exact Hes|]. by intros ? [].
Qed.

Lemma url_encode_plain s : bytes_ok s -> Forall (fun c => c <> 38 /\ c <> 61)%Z (url_encode s).
Proof.
  induction 1 as [|c s Hc _ IH]; [constructor|]. unfold url_encode. csimpl. fold (url_encode s).
  apply Forall_app. split; [|done]. unfold byte_ok in Hc. destruct (unreserved c) eqn:E.
  - apply bool_decide_eq_true in E. apply Forall_singleton. lia.
  - assert (0 ≤ c / 16 < 16)%Z by (split; [apply Z.div_pos; lia|apply Z.div_lt_upper_bound; lia]).
    pose proof (Z.mod_pos_bound c 16 ltac:(lia)). rewrite !Forall_cons.
    unfold hex_upper. split_and!; try done; repeat case_decide; lia.
Qed.

(** Of two pairs the first is written plainly, the second with escapes. *)
Lemma parse_pairs_spelled_witness :
  parse_pairs (bstr "q=a+b&%71=%E2%82%AC") = [(bstr "q", bstr "a b"); (bstr "q", [226; 130; 172]%Z)].
Proof.
  refine (parse_pairs_spelled _ [bstr "q=a+b"; bstr "%71=%E2%82%AC"] _).
  constructor; [|constructor; [|constructor]].
  - exists (bstr "q"), (bstr "a+b"). split_and!; try reflexivity; try (apply (bool_decide_unpack _); reflexivity).
    + apply spells_plain; [done|done|constructor].
    + apply spells_plain; [done|done|]. apply spells_plus. apply spells_plain; [done|done|constructor].
  - exists (bstr "%71"), (bstr "%E2%82%AC"). split_and!; try reflexivity; try (apply (bool_decide_unpack _); reflexivity).
    + apply (spells_escape 55 49 7 1); [reflexivity|reflexivity|constructor].
    + apply (spells_escape 69 50 14 2); [reflexivity|reflexivity|].
      apply (spells_escape 56 50 8 2); [reflexivity|reflexivity|].
      apply (spells_escape 65 67 10 12); [reflexivity|reflexivity|constructor].
Defined.
