(* ===== verification/HttpRouter.v ===== *)
(** * Routing ([src/src/http/router.rs])

    Patterns and their matches, method routers, routers and the dispatch of one
    request.  Handlers are elements of a type; [dispatch] gives the one to call. *)
From stdpp Require Import gmap.
From S2P Require Import Prelude Text HttpQuery.

(** ** Patterns *)

Inductive Segment : Set := Literal (s : bytes) | Param (name : bytes).
#[export] Instance Segment_eq_dec : EqDecision Segment.
Proof. solve_decision. Defined.

Record Pattern : Set := mkPattern { segments : list Segment; params : nat }.
#[export] Instance Pattern_eq_dec : EqDecision Pattern.
Proof. solve_decision. Defined.

(** [split('/')] without the empty parts. *)
Definition parts (path : bytes) : list bytes :=
  filter (fun s => s <> []) (split_on (fun c => bool_decide (c = 47%Z)) path).

Definition is_param (s : Segment) : bool := match s with Param _ => true | Literal _ => false end.
Definition count_params (ss : list Segment) : nat := length (filter (fun s => is_param s = true) ss).

Definition parse_segment (s : bytes) : Segment :=
  match strip_prefix [58%Z] s with Some name => Param name | None => Literal s end.

Definition parse (path : bytes) : Pattern :=
  let segments := parse_segment <$> parts path in mkPattern segments (count_params segments).

(** The parameters that were captured; a name that comes twice keeps the later part. *)
Fixpoint match_segments (ss : list Segment) (actual : list bytes) (captured : gmap bytes bytes)
    : option (gmap bytes bytes) :=
  match ss, actual with
  | [], [] => Some captured
  | [], _ :: _ => None
  | _ :: _, [] => None
  | Literal literal :: ss, part :: actual =>
      if decide (literal <> part) then None else match_segments ss actual captured
  | Param name :: ss, part :: actual => match_segments ss actual (<[name := percent_decode part]> captured)
  end.

Definition matches (p : Pattern) (path : bytes) : option (gmap bytes bytes) :=
  match_segments (segments p) (parts path) ∅.

Definition prefixed (p : Pattern) (prefix : bytes) : Pattern :=
  let segments := segments (parse prefix) ++ segments p in mkPattern segments (count_params segments).

(** ** Routers *)

(** The handlers of one path by method. *)
Abbreviation MethodRouter Handler := (list (bytes * Handler)).

Section router.
Context {Handler : Type}.

Definition with_method (method : bytes) (handler : Handler) : MethodRouter Handler := [(method, handler)].
Definition add (r : MethodRouter Handler) (method : bytes) (handler : Handler) : MethodRouter Handler :=
  filter (fun e => fst e <> method) r ++ [(method, handler)].

Definition GET : bytes := bstr "GET".
Definition POST : bytes := bstr "POST".
Definition DELETE : bytes := bstr "DELETE".
Definition HEAD : bytes := bstr "HEAD".

Definition allowed (r : MethodRouter Handler) : bytes :=
  let methods := fst <$> r in
  join_text (bstr ", ") (if decide (GET ∈ methods) then methods ++ [HEAD] else methods).

Record Router : Type := mkRouter { routes : list (Pattern * MethodRouter Handler); fallback : option Handler }.

Definition router_new : Router := mkRouter [] None.
Definition route (r : Router) (path : bytes) (m : MethodRouter Handler) : Router :=
  let pattern := parse path in
  mkRouter (filter (fun e => fst e <> pattern) (routes r) ++ [(pattern, m)]) (fallback r).
Definition merge (r other : Router) : Router :=
  mkRouter (routes r ++ routes other) (match fallback r with None => fallback other | f => f end).
Definition nest (r : Router) (prefix : bytes) (other : Router) : Router :=
  mkRouter (routes r ++ ((fun e => (prefixed (fst e) prefix, snd e)) <$> routes other)) (fallback r).
Definition set_fallback (r : Router) (handler : Handler) : Router := mkRouter (routes r) (Some handler).

(** ** Dispatch *)

(** The fewest captures win, and the first of those. *)
Fixpoint best_route (rs : list (Pattern * MethodRouter Handler)) (path : bytes)
    (best : option (MethodRouter Handler * gmap bytes bytes * nat)) : option (MethodRouter Handler * gmap bytes bytes * nat) :=
  match rs with
  | [] => best
  | (pattern, methods) :: rs =>
      best_route rs path
        (match matches pattern path with
         | Some caps =>
             let better := match best with None => true | Some (_, _, n) => bool_decide (params pattern < n) end in
             if better then Some (methods, caps, params pattern) else best
         | None => best
         end)
  end.

Inductive Outcome : Type :=
  | NotFound
  | Fallback (handler : Handler)
  | MethodNotAllowed (allow : bytes)
  | Call (handler : Handler) (captured : gmap bytes bytes).

Definition handler_for (methods : MethodRouter Handler) (method : bytes) : option Handler :=
  snd <$> head (filter (fun e => fst e = method) methods).

Definition dispatch (r : Router) (method path : bytes) : Outcome :=
  match best_route (routes r) path None with
  | None => match fallback r with Some handler => Fallback handler | None => NotFound end
  | Some (methods, captured, _) =>
      let method := if decide (method = HEAD) then GET else method in
      match handler_for methods method with
      | None => MethodNotAllowed (allowed methods)
      | Some handler => Call handler captured
      end
  end.
End router.
Arguments Router : clear implicits.
Arguments Outcome : clear implicits.

(** Binding the state turns each handler into one without. *)
Definition with_state {H H'} (bind : H -> H') (r : Router H) : Router H' :=
  mkRouter ((fun e : Pattern * MethodRouter H => (fst e, (fun m => (fst m, bind (snd m))) <$> (snd e : list _))) <$> routes r)
    (bind <$> fallback r).

(** ** What matches *)

(** A part of a path fits a segment. *)
Definition fits (s : Segment) (part : bytes) : Prop :=
  match s with Literal l => l = part | Param _ => True end.

(** What a fitting path captures. *)
Fixpoint captures (ss : list Segment) (actual : list bytes) (m : gmap bytes bytes) : gmap bytes bytes :=
  match ss, actual with
  | Param name :: ss, part :: actual => captures ss actual (<[name := percent_decode part]> m)
  | Literal _ :: ss, _ :: actual => captures ss actual m
  | _, _ => m
  end.

#[export] Instance fits_dec s part : Decision (fits s part).
Proof. destruct s; cbn; apply _. Defined.

Lemma match_segments_Some ss actual m m' :
  match_segments ss actual m = Some m' <-> Forall2 fits ss actual /\ m' = captures ss actual m.
Proof.
  revert actual m. induction ss as [|[l|n] ss IH]; intros [|part actual] m; cbn [match_segments captures].
  - split; [intros [= <-]; by split; [constructor|]|by intros [_ ->]].
  - split; [done|intros [H _]; inversion H].
  - split; [done|intros [H _]; inversion H].
  - case_decide as Hd.
    + split; [done|]. intros [H _]. by inversion H.
    + rewrite IH, Forall2_cons. cbn. naive_solver.
  - split; [done|intros [H _]; inversion H].
  - rewrite IH, Forall2_cons. cbn. naive_solver.
Qed.

Lemma matches_Some p path m :
  matches p path = Some m <-> Forall2 fits (segments p) (parts path) /\ m = captures (segments p) (parts path) ∅.
Proof. apply match_segments_Some. Qed.

(** ** The best route *)

Section best.
Context {Handler : Type}.
Implicit Types rs : list (Pattern * MethodRouter Handler).

(** The route at an index is the choice for a path: it matches, no route that
    matches has fewer captures, and none before it has as few. *)
Definition chosen rs (path : bytes) (i : nat) (p : Pattern) (ms : MethodRouter Handler) (m : gmap bytes bytes) : Prop :=
  rs !! i = Some (p, ms) /\ matches p path = Some m
  /\ forall j q qs m', rs !! j = Some (q, qs) -> matches q path = Some m' ->
       params p ≤ params q /\ (params q = params p -> i ≤ j).

(** The best so far stands when every later match has at least as many captures. *)
Definition better_than (n : nat) (best : option (MethodRouter Handler * gmap bytes bytes * nat)) : Prop :=
  forall ms m n', best = Some (ms, m, n') -> n < n'.
Definition no_better rs path (n : nat) : Prop :=
  forall j q qs m', rs !! j = Some (q, qs) -> matches q path = Some m' -> n ≤ params q.

Lemma no_better_cons p ms rs path n :
  (forall m', matches p path = Some m' -> n ≤ params p) -> no_better rs path n -> no_better ((p, ms) :: rs) path n.
Proof. intros H0 H [|j] q qs m'; cbn; [intros [= <- <-]; apply H0|apply H]. Qed.

Lemma chosen_head p ms rs path m :
  matches p path = Some m -> no_better rs path (params p) -> chosen ((p, ms) :: rs) path 0 p ms m.
Proof.
  intros Hm H. split; [done|]. split; [done|]. intros [|j] q qs m'; cbn; [by intros [= <- <-]|].
  intros Hj Hq. split; [by eapply H|lia].
Qed.

Lemma chosen_cons p ms rs path i q qs m :
  (forall m', matches p path = Some m' -> params q < params p) ->
  chosen rs path i q qs m -> chosen ((p, ms) :: rs) path (S i) q qs m.
Proof.
  intros H0 (Hi & Hm & H). split; [done|]. split; [done|]. intros [|j] q' qs' m'; cbn.
  - intros [= <- <-] Hp%H0. lia.
  - intros Hj Hq. destruct (H j q' qs' m' Hj Hq) as [? Hle]. split; [done|]. intros E%Hle. lia.
Qed.

Lemma best_route_spec rs path best :
  match best_route rs path best with
  | Some (ms, m, n) =>
      (best = Some (ms, m, n) /\ no_better rs path n)
      \/ (exists i p, chosen rs path i p ms m /\ n = params p /\ better_than n best)
  | None => best = None /\ forall j q qs, rs !! j = Some (q, qs) -> matches q path = None
  end.
Proof.
  revert best. induction rs as [|[p ms0] rs IH]; intros best; cbn [best_route].
  { destruct best as [[[ms m] n]|]; [left; split; [done|]|split; [done|]]; intros j q qs; by rewrite lookup_nil. }
  destruct (matches p path) as [caps|] eqn:Ep.
  - destruct (match best with Some _ => _ | None => true end) eqn:Eb.
    + specialize (IH (Some (ms0, caps, params p))).
      assert (better_than (params p) best) as Hb.
      { intros ms m n' ->. by apply bool_decide_eq_true in Eb. }
      destruct (best_route rs path _) as [[[ms m] n]|]; [|by destruct IH]. right.
      destruct IH as [([= <- <- <-] & Hno)|(i & q & Hi & -> & Hq)].
      * exists 0, p. split; [by apply chosen_head|done].
      * specialize (Hq _ _ _ eq_refl). exists (S i), q. split; [apply chosen_cons; [by intros|done]|].
        split; [done|]. intros ms' m' n' E%Hb. lia.
    + destruct best as [[[ms1 m1] n1]|]; [|done]. apply bool_decide_eq_false in Eb.
      specialize (IH (Some (ms1, m1, n1))). destruct (best_route rs path _) as [[[ms m] n]|]; [|by destruct IH].
      destruct IH as [([= <- <- <-] & Hno)|(i & q & Hi & -> & Hq)].
      * left. split; [done|]. apply no_better_cons; [intros; lia|done].
      * right. exists (S i), q. split; [|done]. specialize (Hq _ _ _ eq_refl).
        apply chosen_cons; [intros; lia|done].
  - specialize (IH best). destruct (best_route rs path best) as [[[ms m] n]|].
    + destruct IH as [[-> Hno]|(i & q & Hi & -> & Hq)].
      * left. split; [done|]. apply no_better_cons; [by rewrite Ep|done].
      * right. exists (S i), q. split; [apply chosen_cons; [by rewrite Ep|done]|done].
    + destruct IH as [-> Hno]. split; [done|]. intros [|j] q qs; cbn; [by intros [= <- <-]|apply Hno].
Qed.

Lemma best_route_chosen rs path :
  match best_route rs path None with
  | Some (ms, m, n) => exists i p, chosen rs path i p ms m
  | None => forall j q qs, rs !! j = Some (q, qs) -> matches q path = None
  end.
Proof.
  pose proof (best_route_spec rs path None) as H. destruct (best_route rs path None) as [[[ms m] n]|]; [|tauto].
  destruct H as [[? _]|(i & p & Hi & _)]; [done|eauto].
Qed.

(** When at most one pattern matches a path, that route is the choice. *)
Lemma best_route_unique rs path i p ms m :
  rs !! i = Some (p, ms) -> matches p path = Some m ->
  (forall j q qs m', rs !! j = Some (q, qs) -> matches q path = Some m' -> j = i) ->
  exists n, best_route rs path None = Some (ms, m, n).
Proof.
  intros Hi Hm Huniq. pose proof (best_route_chosen rs path) as H.
  destruct (best_route rs path None) as [[[ms' m'] n]|].
  - destruct H as (j & q & Hj & Hq & _). assert (j = i) as -> by by eapply Huniq.
    rewrite Hi in Hj. injection Hj as <- <-. rewrite Hm in Hq. injection Hq as <-. by exists n.
  - by rewrite (H _ _ _ Hi) in Hm.
Qed.

(** Two patterns that differ in a literal, or in length, never match one path. *)
Fixpoint clash (ss1 ss2 : list Segment) : bool :=
  match ss1, ss2 with
  | [], [] => false
  | s1 :: ss1, s2 :: ss2 =>
      match s1, s2 with Literal l1, Literal l2 => negb (bool_decide (l1 = l2)) | _, _ => false end || clash ss1 ss2
  | _, _ => true
  end.

Lemma clash_sound ss1 ss2 actual :
  clash ss1 ss2 = true -> Forall2 fits ss1 actual -> Forall2 fits ss2 actual -> False.
Proof.
  intros Hc H1. revert ss2 Hc. induction H1 as [|s1 part ss1 actual Hs1 _ IH]; intros [|s2 ss2] Hc H2;
    inversion H2; subst; cbn in Hc; [done|]. apply orb_true_iff in Hc as [Hc|Hc]; [|by eapply IH].
  destruct s1, s2; try done. cbn in *. subst. apply negb_true_iff, bool_decide_eq_false in Hc. done.
Qed.

Fixpoint all_clash (ps : list Pattern) : bool :=
  match ps with
  | [] => true
  | p :: ps => forallb (fun q => clash (segments p) (segments q)) ps && all_clash ps
  end.

Lemma all_clash_unique rs path i j p q ps qs m m' :
  all_clash (fst <$> rs) = true -> rs !! i = Some (p, ps) -> rs !! j = Some (q, qs) ->
  matches p path = Some m -> matches q path = Some m' -> i = j.
Proof.
  intros Hc Hi Hj [Hp _]%matches_Some [Hq _]%matches_Some. revert i j Hi Hj Hc.
  assert (forall x y xs k r rs, forallb (fun q => clash (segments x) (segments q)) (fst <$> rs) = true ->
    rs !! k = Some (y, xs) -> Forall2 fits (segments x) r -> Forall2 fits (segments y) r -> False) as Hone.
  { intros x y xs k r rs' Hf Hk Hx Hy. rewrite forallb_forall in Hf.
    eapply (clash_sound (segments x) (segments y)); [|done..]. apply Hf.
    apply list_elem_of_In, list_elem_of_fmap. exists (y, xs). split; [done|]. by eapply list_elem_of_lookup_2. }
  induction rs as [|[x xs] rs IH]; intros [|i] [|j] Hi Hj Hc; try done; cbn in Hi, Hj, Hc;
    apply andb_true_iff in Hc as [Hf Hc].
  - injection Hi as <- <-. exfalso. by eapply Hone.
  - injection Hj as <- <-. exfalso. by eapply Hone.
  - f_equal. by apply IH.
Qed.

(** ** Dispatch *)

Definition served_method (method : bytes) : bytes := if decide (method = HEAD) then GET else method.

(** What a route answers to a method. *)
Definition answer (ms : MethodRouter Handler) (method : bytes) (captured : gmap bytes bytes) : Outcome Handler :=
  match handler_for ms (served_method method) with
  | None => MethodNotAllowed (allowed ms)
  | Some handler => Call handler captured
  end.

Lemma dispatch_cases (r : Router Handler) method path :
  (exists i p ms m, chosen (routes r) path i p ms m /\ dispatch r method path = answer ms method m)
  \/ ((forall i p ms, routes r !! i = Some (p, ms) -> matches p path = None)
      /\ dispatch r method path = match fallback r with Some h => Fallback h | None => NotFound end).
Proof.
  pose proof (best_route_chosen (routes r) path) as H. unfold dispatch.
  destruct (best_route (routes r) path None) as [[[ms m] n]|]; [left|right; by split].
  destruct H as (i & p & Hi). by exists i, p, ms, m.
Qed.

Lemma handler_for_Some (ms : MethodRouter Handler) method h :
  NoDup (fst <$> ms) -> handler_for ms method = Some h <-> (method, h) ∈ ms.
Proof.
  unfold handler_for. induction ms as [|[m h'] ms IH]; cbn [fmap list_fmap].
  { split; [done|]. by intros ?%elem_of_nil. }
  intros [Hm Hnd]%NoDup_cons. rewrite filter_cons, elem_of_cons. cbn [fst]. case_decide as E.
  - subst m. cbn. split; [intros [= <-]; by left|]. intros [[= <-]|Hin]; [done|].
    exfalso. apply Hm. apply list_elem_of_fmap. by exists (method, h).
  - rewrite IH by done. naive_solver.
Qed.
End best.

(** Dispatch answers with the most specific route: the handler called is the
    one of the request's method (of GET for HEAD) on a route that matches the
    path with the fewest captures, the first registered of those, and it gets what
    that route captures; a method the route does not serve is answered 405, a
    path that nothing matches goes to the fallback. *)
Theorem dispatch_most_specific {Handler} (r : Router Handler) (method path : bytes) :
  match dispatch r method path with
  | Call h captured => exists i p ms,
      chosen (routes r) path i p ms captured /\ handler_for ms (served_method method) = Some h
  | MethodNotAllowed allow => exists i p ms m,
      chosen (routes r) path i p ms m /\ handler_for ms (served_method method) = None /\ allow = allowed ms
  | Fallback h => fallback r = Some h /\ forall i p ms, routes r !! i = Some (p, ms) -> matches p path = None
  | NotFound => fallback r = None /\ forall i p ms, routes r !! i = Some (p, ms) -> matches p path = None
  end.
Proof.
  destruct (dispatch_cases r method path) as [(i & p & ms & m & Hc & ->)|[Hno ->]].
  - unfold answer. destruct (handler_for ms (served_method method)) eqn:E; eauto 8.
  - by destruct (fallback r).
Qed.
