(* ===== verification/ApiRoutes.v ===== *)
(** * The routes of the application ([src/src/api/mod.rs], [src/src/main.rs])

    The router that the binary serves, built by the calls of [build_router] and
    [main]; handlers are named by their path in the crate. *)
From stdpp Require Import gmap.
From S2P Require Import Prelude Text HttpQuery HttpRouter.

(** A handler that gets the application state, or one that does not. *)
Inductive AppHandler : Set := Stateful (name : string) | Stateless (name : string).

(** [routing::get(h).post(h')...]. *)
Definition method_router (hs : list (bytes * string)) : MethodRouter string :=
  match hs with
  | [] => []
  | (m, h) :: hs => foldl (fun r e => add r (fst e) (snd e)) (with_method m h) hs
  end.
Definition add_route (r : Router string) (e : string * list (bytes * string)) : Router string :=
  route r (bstr (fst e)) (method_router (snd e)).

(** Each pair is one [.route] call. *)
Definition ADMIN_ROUTES : list (string * list (bytes * string)) :=
  [
   ("/information", [(GET, "routes::information")]);
   ("/interface", [(GET, "routes::interface_info")]);
   ("/activity/heatmap", [(GET, "activity::heatmap")]);
   ("/activity", [(DELETE, "activity::purge")]);
   ("/session", [(GET, "session::get_session"); (POST, "session::create_session"); (DELETE, "session::delete_session")]);
   ("/setup/2", [(POST, "setup::setup_step2")]);
   ("/setup/4", [(GET, "setup::setup_step4_get"); (POST, "setup::setup_step4_post")]);
   ("/client", [(GET, "clients::list_clients"); (POST, "clients::create_client")]);
   ("/client/:id", [(GET, "clients::get_client"); (POST, "clients::update_client"); (DELETE, "clients::delete_client")]);
   ("/client/:id/configuration", [(GET, "clients::client_configuration")]);
   ("/client/:id/qrcode.svg", [(GET, "clients::client_qrcode")]);
   ("/client/:id/enable", [(POST, "clients::enable_client")]);
   ("/client/:id/disable", [(POST, "clients::disable_client")]);
   ("/client/:id/rotateKey", [(POST, "clients::rotate_client_key")]);
   ("/client/:id/generateOneTimeLink", [(POST, "clients::generate_one_time_link")]);
   ("/admin/general", [(GET, "admin::get_general"); (POST, "admin::update_general")]);
   ("/admin/hooks", [(GET, "admin::get_hooks"); (POST, "admin::update_hooks")]);
   ("/admin/ip-info", [(GET, "admin::get_ip_info")]);
   ("/admin/userconfig", [(GET, "admin::get_userconfig"); (POST, "admin::update_userconfig")]);
   ("/admin/interface", [(GET, "admin::get_interface"); (POST, "admin::update_interface")]);
   ("/admin/interface/cidr", [(POST, "admin::change_cidr")]);
   ("/admin/interface/restart", [(POST, "admin::restart_interface")]);
   ("/admin/xray/inbound", [(GET, "xray::get_inbound"); (POST, "xray::update_inbound")]);
   ("/admin/xray/inbound/regenerate-keys", [(POST, "xray::regenerate_keys")]);
   ("/admin/xray/inbound/regenerate-xhttp-path", [(POST, "xray::regenerate_xhttp_path")]);
   ("/admin/xray/inbound/probe-dest", [(POST, "xray::probe_dest")]);
   ("/admin/xray/inbound/dest-candidates", [(GET, "xray::dest_candidates")]);
   ("/admin/trusttunnel/inbound", [(GET, "trusttunnel::get_inbound"); (POST, "trusttunnel::update_inbound")]);
   ("/admin/trusttunnel/inbound/certificate", [(POST, "trusttunnel::upload_certificate")]);
   ("/admin/trusttunnel/inbound/regenerate-certificate", [(POST, "trusttunnel::regenerate_certificate")]);
   ("/admin/trusttunnel/status", [(GET, "trusttunnel::supervisor_status")]);
   ("/admin/trusttunnel/restart", [(POST, "trusttunnel::restart")]);
   ("/admin/xray/status", [(GET, "xray::supervisor_status")]);
   ("/admin/xray/restart", [(POST, "xray::restart")]);
   ("/admin/dns/bundle", [(GET, "dns::get_bundle"); (POST, "dns::update_bundle")]);
   ("/admin/dns/status", [(GET, "dns::supervisor_status")]);
   ("/admin/dns/restart", [(POST, "dns::restart")])
  ]%string.

Definition SERVICE_ROUTES : list (string * list (bytes * string)) :=
  [
   ("/admin/mtproxy/inbound", [(GET, "mtproxy::get_inbound"); (POST, "mtproxy::update_inbound")]);
   ("/admin/mtproxy/status", [(GET, "mtproxy::supervisor_status")]);
   ("/admin/mtproxy/stats", [(GET, "mtproxy::stats")]);
   ("/admin/mtproxy/restart", [(POST, "mtproxy::restart")]);
   ("/admin/mtproxy/users", [(GET, "mtproxy::list_users"); (POST, "mtproxy::create_user")]);
   ("/admin/mtproxy/users/:username", [(GET, "mtproxy::get_user"); (POST, "mtproxy::update_user"); (DELETE, "mtproxy::delete_user")]);
   ("/admin/mtproxy/users/:username/rotate-secret", [(POST, "mtproxy::rotate_secret")]);
   ("/admin/mtproxy/users/:username/qrcode.svg", [(GET, "mtproxy::user_qrcode")]);
   ("/admin/proxy/settings", [(GET, "proxy::get_settings"); (POST, "proxy::update_settings")]);
   ("/admin/proxy/status", [(GET, "proxy::supervisor_status")]);
   ("/admin/proxy/restart", [(POST, "proxy::restart")]);
   ("/admin/qqdns/settings", [(GET, "qqdns::get_settings"); (POST, "qqdns::update_settings")]);
   ("/admin/qqdns/status", [(GET, "qqdns::supervisor_status")]);
   ("/admin/qqdns/restart", [(POST, "qqdns::restart")]);
   ("/admin/qqdns/client-config", [(GET, "qqdns::client_config")]);
   ("/admin/mdnsvpn/inbound", [(GET, "mdnsvpn::get_inbound"); (POST, "mdnsvpn::update_inbound")]);
   ("/admin/mdnsvpn/inbound/regenerate-key", [(POST, "mdnsvpn::regenerate_key")]);
   ("/admin/mdnsvpn/status", [(GET, "mdnsvpn::supervisor_status")]);
   ("/admin/mdnsvpn/restart", [(POST, "mdnsvpn::restart")]);
   ("/mdnsvpn/clients", [(GET, "mdnsvpn::list_clients"); (POST, "mdnsvpn::create_client")]);
   ("/mdnsvpn/clients/:id", [(GET, "mdnsvpn::get_client"); (POST, "mdnsvpn::update_client"); (DELETE, "mdnsvpn::delete_client")]);
   ("/mdnsvpn/clients/:id/config.toml", [(GET, "mdnsvpn::client_config_toml")]);
   ("/mdnsvpn/clients/:id/resolvers.txt", [(GET, "mdnsvpn::client_resolvers_txt")]);
   ("/mdnsvpn/clients/:id/config.json", [(GET, "mdnsvpn::client_config_json")]);
   ("/mdnsvpn/clients/:id/share", [(GET, "mdnsvpn::client_share_url")]);
   ("/mdnsvpn/clients/:id/bundle.zip", [(GET, "mdnsvpn::client_bundle_zip")]);
   ("/mdnsvpn/clients/:id/qrcode.svg", [(GET, "mdnsvpn::client_qrcode")]);
   ("/xray/clients", [(GET, "xray::list_clients"); (POST, "xray::create_client")]);
   ("/xray/clients/:id", [(GET, "xray::get_client"); (POST, "xray::update_client"); (DELETE, "xray::delete_client")]);
   ("/xray/clients/:id/share", [(GET, "xray::client_share_url")]);
   ("/xray/clients/:id/qrcode.svg", [(GET, "xray::client_qrcode")]);
   ("/xray/clients/:id/json", [(GET, "xray::client_amnezia_json")]);
   ("/xray/clients/:id/variants", [(GET, "xray::client_variants")]);
   ("/trusttunnel/users", [(GET, "trusttunnel::list_users"); (POST, "trusttunnel::create_user")]);
   ("/trusttunnel/users/:id", [(GET, "trusttunnel::get_user"); (POST, "trusttunnel::update_user"); (DELETE, "trusttunnel::delete_user")]);
   ("/trusttunnel/users/:id/rotate-password", [(POST, "trusttunnel::rotate_password")]);
   ("/trusttunnel/users/:id/share", [(GET, "trusttunnel::user_share")]);
   ("/trusttunnel/users/:id/qrcode.svg", [(GET, "trusttunnel::user_qrcode")]);
   ("/trusttunnel/users/:id/client.toml", [(GET, "trusttunnel::user_client_toml")]);
   ("/me", [(POST, "session::update_me")]);
   ("/me/password", [(POST, "session::change_password")]);
   ("/me/totp", [(POST, "session::toggle_totp")])
  ]%string.

Definition API_ROUTES : list (string * list (bytes * string)) := ADMIN_ROUTES ++ SERVICE_ROUTES.

Definition ROOT_ROUTES : list (string * list (bytes * string)) :=
  [("/cnf/:oneTimeLink", [(GET, "routes::one_time_link")]);
   ("/metrics/json", [(GET, "routes::metrics_json")]);
   ("/metrics/prometheus", [(GET, "routes::metrics_prometheus")]);
   ("/health", [(GET, "health")])]%string.

Definition STATIC_ROUTES : list (string * list (bytes * string)) :=
  [("/app.js", [(GET, "app.js")]); ("/favicon.png", [(GET, "favicon.png")]);
   ("/favicon-coffeeblack.ico", [(GET, "favicon-coffeeblack.ico")]);
   ("/favicon.ico", [(GET, "favicon-coffeeblack.ico")]); ("/logo.png", [(GET, "logo.png")]);
   ("/logo-coffeeblack.svg", [(GET, "logo-coffeeblack.svg")]);
   ("/apple-touch-icon.png", [(GET, "apple-touch-icon.png")]);
   ("/apple-touch-icon-coffeeblack.png", [(GET, "apple-touch-icon-coffeeblack.png")]);
   ("/manifest.json", [(GET, "manifest.json")])]%string.

Definition build_router : Router AppHandler :=
  let api := with_state Stateful (foldl add_route router_new API_ROUTES) in
  let root := with_state Stateless (foldl add_route router_new ROOT_ROUTES) in
  nest root (bstr "/api") api.

Definition app : Router AppHandler :=
  set_fallback (merge build_router (with_state Stateless (foldl add_route router_new STATIC_ROUTES)))
    (Stateless "index.html").

(** ** The table that the site should serve

    Each path written out, with its handlers: the API under its prefix with the
    state bound, the rest as it is. *)
Definition full_path (prefix : string) (bind : string -> AppHandler) (e : string * list (bytes * string)) : bytes * list (bytes * AppHandler) :=
  (bstr prefix ++ bstr (fst e), map (fun m => (fst m, bind (snd m))) (snd e)).
Definition site_routes : list (bytes * list (bytes * AppHandler)) :=
  map (full_path "" Stateless) ROOT_ROUTES ++ map (full_path "/api" Stateful) API_ROUTES ++ map (full_path "" Stateless) STATIC_ROUTES.

(** A part of a path fits a part of a pattern: a name after a colon, or the same text. *)
Definition part_fits (s part : bytes) : Prop := head s = Some 58%Z \/ s = part.
#[export] Instance part_fits_dec s part : Decision (part_fits s part).
Proof. unfold part_fits. apply _. Defined.
Definition path_fits (pattern path : bytes) : Prop := Forall2 part_fits (parts pattern) (parts path).

#[export] Instance path_fits_dec pattern path : Decision (path_fits pattern path).
Proof. unfold path_fits. apply _. Defined.

(** What the names after colons stand for. *)
Definition bound_names (pattern path : bytes) : gmap bytes bytes :=
  foldl (fun m sp => match fst sp with
                     | c :: name => if decide (c = 58%Z) then <[name := percent_decode (snd sp)]> m else m
                     | [] => m
                     end) ∅ (zip (parts pattern) (parts path)).

Lemma app_table : routes app = (fun e => (parse (fst e), snd e)) <$> site_routes.
Proof. vm_compute. reflexivity. Qed.

Lemma parse_segment_cases s :
  parse_segment s = match s with c :: name => if decide (c = 58%Z) then Param name else Literal s | [] => Literal [] end.
Proof.
  destruct s as [|c name]; [done|]. unfold parse_segment. cbn [strip_prefix]. repeat case_decide; congruence || done.
Qed.

Lemma path_fits_segments pattern path : Forall2 fits (segments (parse pattern)) (parts path) <-> path_fits pattern path.
Proof.
  unfold path_fits, parse. cbn [segments]. rewrite Forall2_fmap_l.
  assert (forall s part, (fits ∘ parse_segment) s part <-> part_fits s part) as Hs.
  { intros s part. unfold compose. rewrite parse_segment_cases. unfold part_fits.
    destruct s as [|c name]; cbn; [|case_decide; cbn]; naive_solver. }
  split; intros Hf; (eapply Forall2_impl; [exact Hf|]); intros s part; apply Hs.
Qed.

Lemma bound_names_captures pattern path : captures (segments (parse pattern)) (parts path) ∅ = bound_names pattern path.
Proof.
  unfold bound_names, parse. cbn [segments]. generalize (parts path) (∅ : gmap bytes bytes).
  induction (parts pattern) as [|s ps IH]; intros [|part actual] m; try done.
  - cbn. rewrite parse_segment_cases. destruct s; [done|]. by case_decide.
  - cbn. rewrite parse_segment_cases. destruct s as [|c name]; cbn; [apply IH|]. case_decide; apply IH.
Qed.

(** ** Every route is reachable *)

(** No two patterns of the application match the same path. *)
Lemma app_routes_clash : all_clash (fst <$> routes app) = true.
Proof. vm_compute. reflexivity. Qed.

Lemma app_methods_once : forallb (fun e => bool_decide (NoDup (fst <$> snd e))) (routes app) = true.
Proof. vm_compute. reflexivity. Qed.
Lemma app_no_head : forallb (fun e => negb (bool_decide (HEAD ∈ fst <$> snd e))) (routes app) = true.
Proof. vm_compute. reflexivity. Qed.

(** The order of the routes does not matter. *)
Lemma app_dispatch_route (r : Router AppHandler) method path p ms :
  routes r ≡ₚ routes app -> (p, ms) ∈ routes app -> Forall2 fits (segments p) (parts path) ->
  dispatch r method path = answer ms method (captures (segments p) (parts path) ∅).
Proof.
  intros Hr Hi Hf. assert (matches p path = Some (captures (segments p) (parts path) ∅)) as Hm
    by by apply matches_Some.
  destruct (dispatch_cases r method path) as [(j & q & qs & m' & (Hj & Hq & _) & ->)|[Hno _]].
  - apply list_elem_of_lookup_2 in Hj. rewrite Hr in Hj.
    apply list_elem_of_lookup in Hi as [i Hi], Hj as [k Hj].
    assert (k = i) as -> by (by eapply all_clash_unique; [apply app_routes_clash|..]).
    rewrite Hi in Hj. injection Hj as <- <-. by rewrite Hm in Hq; injection Hq as <-.
  - rewrite <- Hr in Hi. apply list_elem_of_lookup in Hi as [i Hi]. by rewrite (Hno _ _ _ Hi) in Hm.
Qed.

(** C31: The routes of the application do not shadow each other: with the routes of
    the router that the program builds in whatever order, a path that fits a route of
    the written-out table is answered by that route's handler, with HEAD served by
    GET, with the parts of the path under its names, and with 405 and the route's
    methods for other methods; every other path is answered by the page of the
    interface. *)
Theorem app_dispatch_exact (r : Router AppHandler) method path :
  routes r ≡ₚ routes app -> fallback r = fallback app ->
  (forall pattern ms, (pattern, ms) ∈ site_routes -> path_fits pattern path ->
    (forall h, (served_method method, h) ∈ ms -> dispatch r method path = Call h (bound_names pattern path))
    /\ (served_method method ∉ fst <$> ms ->
        dispatch r method path = MethodNotAllowed (join_text (bstr ", ") ((fst <$> ms) ++ if decide (GET ∈ fst <$> ms) then [HEAD] else []))))
  /\ ((forall pattern ms, (pattern, ms) ∈ site_routes -> ~ path_fits pattern path) ->
      dispatch r method path = Fallback (Stateless "index.html")).
Proof.
  intros Hr Hfb. split.
  - intros pattern ms Hi Hf. assert ((parse pattern, ms) ∈ routes app) as Hin.
    { rewrite app_table. apply list_elem_of_fmap. by exists (pattern, ms). }
    rewrite (app_dispatch_route r method path _ ms Hr Hin) by by apply path_fits_segments. rewrite bound_names_captures. unfold answer.
    assert (NoDup (fst <$> ms)) as Hnd.
    { pose proof app_methods_once as H. rewrite forallb_forall in H.
      by apply list_elem_of_In, H, bool_decide_eq_true in Hin. }
    pose proof (handler_for_Some ms (served_method method)) as Hh. split.
    + intros h Hh'. by rewrite (proj2 (Hh h Hnd) Hh').
    + intros Hno. destruct (handler_for ms (served_method method)) as [h|] eqn:E.
      * pose proof (proj1 (Hh h Hnd) eq_refl) as Hin'. exfalso. apply Hno, list_elem_of_fmap. by exists (served_method method, h).
      * unfold allowed. by case_decide; rewrite ?app_nil_r.
  - intros Hno. destruct (dispatch_cases r method path) as [(j & q & qs & m' & (Hj & Hq & _) & _)|[_ ->]]; [|by rewrite Hfb].
    apply matches_Some in Hq as [Hq _]. apply list_elem_of_lookup_2 in Hj. rewrite Hr, app_table in Hj.
    apply list_elem_of_fmap in Hj as ([pattern ms] & [= -> ->] & Hin). destruct (Hno _ _ Hin). by apply path_fits_segments.
Qed.

(** In the opposite order of registration. *)
Lemma app_dispatch_exact_witness :
  let r := mkRouter (reverse (routes app)) (fallback app) in
  dispatch r (bstr "DELETE") (bstr "/api/client/7") = Call (Stateful "clients::delete_client") {[bstr "id" := bstr "7"]}
  /\ dispatch r (bstr "HEAD") (bstr "//health/") = Call (Stateless "health") ∅
  /\ dispatch r (bstr "PUT") (bstr "/api/me") = MethodNotAllowed (bstr "POST").
Proof.
  set (r := mkRouter (reverse (routes app)) (fallback app)). cbn zeta.
  assert (routes r ≡ₚ routes app) as Hr by apply reverse_Permutation.
  split; [|split].
  - destruct (app_dispatch_exact r (bstr "DELETE") (bstr "/api/client/7") Hr eq_refl) as [H _].
    destruct (H (bstr "/api/client/:id") _ (list_elem_of_lookup_2 site_routes 12 _ eq_refl)) as [Hc _]; [|apply Hc; by right; right; left].
    apply (bool_decide_unpack _). vm_compute. exact I.
  - destruct (app_dispatch_exact r (bstr "HEAD") (bstr "//health/") Hr eq_refl) as [H _].
    destruct (H (bstr "/health") _ (list_elem_of_lookup_2 site_routes 3 _ eq_refl)) as [Hc _]; [|apply Hc; by left].
    apply (bool_decide_unpack _). vm_compute. exact I.
  - destruct (app_dispatch_exact r (bstr "PUT") (bstr "/api/me") Hr eq_refl) as [H _].
    destruct (H (bstr "/api/me") _ (list_elem_of_lookup_2 site_routes 80 _ eq_refl)) as [_ Hc]; [|apply Hc].
    + apply (bool_decide_unpack _). vm_compute. exact I.
    + apply (bool_decide_unpack _). vm_compute. exact I.
Defined.
