(* ===== verification/HttpCookie.v ===== *)
(** * Cookies ([src/src/http/cookie.rs])

    Cookies with their attributes, the [Set-Cookie] text, and the jar of one
    request. *)
From S2P Require Import Prelude Text HttpServer HttpReader HttpProps.

(** ** Cookies *)

Inductive SameSite : Set := Strict | Lax | SameSiteNone.
Definition same_site_str (s : SameSite) : bytes :=
  match s with Strict => bstr "Strict" | Lax => bstr "Lax" | SameSiteNone => bstr "None" end.

Record Cookie : Set := mkCookie {
  name : bytes; value : bytes; path : option bytes; http_only : bool; secure : bool;
  same_site : option SameSite; max_age : option Z; removal : bool;
}.

Definition cookie_new (name value : bytes) : Cookie := mkCookie name value None false false None None false.

(** The setters of [CookieBuilder]; the age is in seconds. *)
Definition with_path (p : bytes) (c : Cookie) : Cookie :=
  mkCookie (name c) (value c) (Some p) (http_only c) (secure c) (same_site c) (max_age c) (removal c).
Definition with_http_only (yes : bool) (c : Cookie) : Cookie :=
  mkCookie (name c) (value c) (path c) yes (secure c) (same_site c) (max_age c) (removal c).
Definition with_secure (yes : bool) (c : Cookie) : Cookie :=
  mkCookie (name c) (value c) (path c) (http_only c) yes (same_site c) (max_age c) (removal c).
Definition with_same_site (s : SameSite) (c : Cookie) : Cookie :=
  mkCookie (name c) (value c) (path c) (http_only c) (secure c) (Some s) (max_age c) (removal c).
Definition with_max_age (secs : Z) (c : Cookie) : Cookie :=
  mkCookie (name c) (value c) (path c) (http_only c) (secure c) (same_site c) (Some secs) (removal c).

Definition to_set_cookie (c : Cookie) : bytes :=
  name c ++ [61%Z] ++ (if removal c then [] else value c)
  ++ match path c with Some p => bstr "; Path=" ++ p | None => [] end
  ++ (if removal c then bstr "; Max-Age=0; Expires=Thu, 01 Jan 1970 00:00:00 GMT"
      else match max_age c with Some a => bstr "; Max-Age=" ++ decimal a | None => [] end)
  ++ (if http_only c then bstr "; HttpOnly" else [])
  ++ (if secure c then bstr "; Secure" else [])
  ++ match same_site c with Some s => bstr "; SameSite=" ++ same_site_str s | None => [] end.

(** ** The jar *)

Record CookieJar : Set := mkJar { incoming : list Cookie; outgoing : list Cookie }.

Fixpoint trim_quotes_start (v : bytes) : bytes :=
  match v with c :: v' => if decide (c = 34%Z) then trim_quotes_start v' else v | [] => [] end.
(** [trim_matches] of the double quote. *)
Definition trim_quotes (v : bytes) : bytes := reverse (trim_quotes_start (reverse (trim_quotes_start v))).

(** A pair of the [Cookie] header, when it is well formed. *)
Definition parse_cookie (pair : bytes) : option Cookie :=
  let pair := trim pair in
  if decide (pair = []) then None else
  match split_once 61 pair with
  | None => None
  | Some (name, value) =>
      let name := trim name in
      if decide (name = []) then None else Some (cookie_new name (trim_quotes (trim value)))
  end.

Definition semicolon : Z -> bool := fun c => bool_decide (c = 59%Z).
Definition parse_cookies (text : bytes) : list Cookie := omap parse_cookie (split_on semicolon text).

Section jar.
Context `{HttpCrate}.

(** Over the values of the [Cookie] headers. *)
Definition from_headers (hs : list (bytes * bytes)) : CookieJar :=
  mkJar (get_all (bstr "cookie") hs ≫= fun v => match value_to_str v with Some t => parse_cookies t | None => [] end) [].

Definition find_cookie (n : bytes) (cs : list Cookie) : option Cookie := head (filter (fun c => name c = n) cs).

Definition get (j : CookieJar) (n : bytes) : option Cookie :=
  match find_cookie n (outgoing j) with
  | Some pending => if removal pending then None else Some pending
  | None => find_cookie n (incoming j)
  end.

Definition put (j : CookieJar) (c : Cookie) : CookieJar :=
  mkJar (incoming j) (filter (fun o => name o <> name c) (outgoing j) ++ [c]).
Definition add (j : CookieJar) (c : Cookie) : CookieJar := put j c.

Definition removed (c : Cookie) : Cookie :=
  mkCookie (name c) [] (match path c with None => Some [47%Z] | p => p end)
    (http_only c) (secure c) (same_site c) (max_age c) true.
Definition remove (j : CookieJar) (c : Cookie) : CookieJar := put j (removed c).

(** A text that is not a header value is dropped. *)
Definition write_headers (j : CookieJar) (hs : list (bytes * bytes)) : list (bytes * bytes) :=
  hs ++ ((fun t => (bstr "set-cookie", t)) <$> filter (fun t => value_ok t = true) (to_set_cookie <$> outgoing j)).
End jar.

(** ** The jar is a map under its changes *)

Lemma find_cookie_app n c1 c2 :
  find_cookie n (c1 ++ c2) = match find_cookie n c1 with Some c => Some c | None => find_cookie n c2 end.
Proof. unfold find_cookie. rewrite filter_app. by destruct (filter _ c1). Qed.

Lemma find_cookie_filter n m cs :
  find_cookie n (filter (fun o => name o <> m) cs) = if decide (n = m) then None else find_cookie n cs.
Proof.
  unfold find_cookie. induction cs as [|c cs IH]; [by case_decide|].
  rewrite !filter_cons. repeat case_decide; subst; rewrite ?filter_cons, ?decide_True, ?decide_False by done;
    try done; by rewrite IH, ?decide_True, ?decide_False by done.
Qed.

Lemma find_cookie_name n cs c : find_cookie n cs = Some c -> name c = n.
Proof.
  unfold find_cookie. intros E. assert (c ∈ filter (fun c => name c = n) cs) as Hc.
  { destruct (filter _ cs); [done|]. injection E as ->. left. }
  by apply list_elem_of_filter in Hc as [? _].
Qed.

Lemma get_put j c n :
  get (put j c) n = if decide (n = name c) then (if removal c then None else Some c) else get j n.
Proof.
  unfold get, put. cbn [incoming outgoing]. rewrite find_cookie_app, find_cookie_filter.
  unfold find_cookie at 2. case_decide as E.
  - subst n. by rewrite filter_cons, decide_True.
  - rewrite filter_cons, decide_False by done. cbn. by destruct (find_cookie n (outgoing j)).
Qed.

(** At most one [Set-Cookie] per name. *)
Definition jar_ok (j : CookieJar) : Prop := NoDup (name <$> outgoing j).

Lemma jar_ok_put j c : jar_ok j -> jar_ok (put j c).
Proof.
  unfold jar_ok, put. cbn [outgoing]. intros Hj. rewrite fmap_app. apply NoDup_app. split_and!.
  - induction (outgoing j) as [|o os IH]; [done|]. cbn in Hj. apply NoDup_cons in Hj as [Ho Hos].
    rewrite filter_cons. case_decide; [|by apply IH]. cbn. apply NoDup_cons. split; [|by apply IH].
    intros (x & Hx & [_ Hin]%list_elem_of_filter)%list_elem_of_fmap. apply Ho, list_elem_of_fmap. by exists x.
  - intros n (x & -> & [Hne _]%list_elem_of_filter)%list_elem_of_fmap ?%list_elem_of_singleton. done.
  - apply NoDup_singleton.
Qed.

(** ** What a client sends back *)

(** A cookie whose text needs no quoting. *)
Definition plain_cookie (c : Cookie) : Prop :=
  name c <> [] /\ Forall (fun x => graph x /\ x <> 59 /\ x <> 61)%Z (name c)
  /\ Forall (fun x => graph x /\ x <> 59 /\ x <> 34)%Z (value c).

#[export] Instance plain_cookie_dec c : Decision (plain_cookie c).
Proof. unfold plain_cookie. apply _. Defined.

Definition cookie_pair (c : Cookie) : bytes := name c ++ 61%Z :: value c.
(** The [Cookie] header of a client: pairs behind semicolons and blanks. *)
Definition cookie_text (cs : list Cookie) : bytes :=
  match cs with
  | [] => []
  | c :: cs => join_with 59%Z (cookie_pair c :: ((fun c => 32%Z :: cookie_pair c) <$> cs))
  end.

Definition space_or_other (w : bytes) : bool :=
  bool_decide (w = [32%Z]) || match w with d :: _ => negb (bool_decide (d = 32%Z)) | [] => false end.

Lemma first_match_space ws s :
  forallb space_or_other ws = true -> [32%Z] ∈ ws -> first_match ws (32%Z :: s) = Some s.
Proof.
  induction ws as [|w ws IH]; cbn [forallb]; [by intros _ ?%elem_of_nil|].
  intros [Hw Hws]%andb_true_iff. rewrite elem_of_cons. intros Hin. cbn [first_match].
  apply orb_true_iff in Hw as [->%bool_decide_eq_true|Hw]; [by rewrite decide_True|].
  destruct w as [|d w]; [done|]. apply negb_true_iff, bool_decide_eq_false in Hw.
  rewrite decide_False by (cbn; congruence). apply IH; [done|]. destruct Hin as [[= <-]|]; done.
Qed.

Lemma trim_space s : s <> [] -> Forall graph s -> trim (32%Z :: s) = s.
Proof.
  intros Hne Hs. unfold trim at 1, trim_start. cbn [length trim_go].
  rewrite (first_match_space WHITE_SPACE s) by (by apply (bool_decide_unpack _); vm_compute).
  fold (trim_start s). change (trim_end (trim_start s)) with (trim s). by apply trim_id.
Qed.

Lemma trim_graph s : Forall graph s -> trim s = s.
Proof. intros Hs. destruct s as [|c s]; [done|]. by apply trim_id. Qed.

Lemma trim_quotes_id v : Forall (fun x => x <> 34%Z) v -> trim_quotes v = v.
Proof.
  assert (forall l, Forall (fun x => x <> 34%Z) l -> trim_quotes_start l = l) as H.
  { intros [|c l] Hl; [done|]. inversion_clear Hl. cbn. by rewrite decide_False. }
  intros Hv. unfold trim_quotes. rewrite (H v Hv), H; [apply reverse_involutive|by apply Forall_reverse].
Qed.

Lemma cookie_pair_plain c :
  plain_cookie c -> Forall (fun x => graph x /\ x <> 59)%Z (cookie_pair c) /\ cookie_pair c <> [].
Proof.
  intros (Hne & Hn & Hv). unfold cookie_pair. split; [|by destruct (name c)].
  apply Forall_app. split; [eapply Forall_impl; [done|]; naive_solver|]. constructor; [unfold graph; lia|].
  eapply Forall_impl; [done|]; naive_solver.
Qed.

Lemma parse_cookie_plain c p :
  plain_cookie c -> p = cookie_pair c \/ p = 32%Z :: cookie_pair c ->
  parse_cookie p = Some (cookie_new (name c) (value c)).
Proof.
  intros Hc Hp. destruct (cookie_pair_plain c Hc) as [Hg Hne].
  assert (Forall graph (cookie_pair c)) as Hgr by (eapply Forall_impl; [done|]; naive_solver).
  unfold parse_cookie. assert (trim p = cookie_pair c) as ->.
  { destruct Hp as [-> | ->]; [by apply trim_graph|by apply trim_space]. }
  destruct Hc as (Hn & Hname & Hval). rewrite decide_False by done.
  rewrite (proj2 (split_once_spec 61 (cookie_pair c) (name c) (value c))).
  2:{ split; [done|]. intros Hin. rewrite Forall_forall in Hname. by apply Hname in Hin as (_ & _ & ?). }
  rewrite !trim_graph by (eapply Forall_impl; [done|]; naive_solver).
  rewrite decide_False, trim_quotes_id; [done| |done]. eapply Forall_impl; [done|]; naive_solver.
Qed.

Lemma parse_cookies_text cs :
  cs <> [] -> Forall plain_cookie cs -> parse_cookies (cookie_text cs) = (fun c => cookie_new (name c) (value c)) <$> cs.
Proof.
  intros Hne Hcs. destruct cs as [|c cs]; [done|]. inversion_clear Hcs as [|? ? Hc Hcs'].
  unfold parse_cookies, cookie_text.
  assert (forall c, plain_cookie c -> Forall (fun x => semicolon x = false) (cookie_pair c)) as Hplain.
  { intros c' Hc'. eapply Forall_impl; [apply (cookie_pair_plain _ Hc')|]. intros x [_ Hx]. by apply bool_decide_eq_false. }
  rewrite split_join; [|done|done|].
  - cbn [omap list_omap]. rewrite (parse_cookie_plain c) by eauto. csimpl. f_equal.
    induction Hcs' as [|d ds Hd _ IH]; [done|]. csimpl. by rewrite (parse_cookie_plain d), IH by eauto.
  - constructor; [by apply Hplain|]. apply Forall_fmap. eapply Forall_impl; [done|]. intros d Hd. constructor; [done|by apply Hplain].
Qed.

Lemma cookie_text_printable cs : Forall plain_cookie cs -> Forall (fun c => 32 ≤ c ≤ 126)%Z (cookie_text cs).
Proof.
  assert (forall c, plain_cookie c -> Forall (fun x => 32 ≤ x ≤ 126)%Z (cookie_pair c)) as Hp.
  { intros c Hc. eapply Forall_impl; [apply (cookie_pair_plain c Hc)|]. unfold graph. intros x [? _]. lia. }
  intros Hcs. destruct Hcs as [|c cs Hc Hcs]; [constructor|]. apply Hp in Hc. revert Hc.
  unfold cookie_text. generalize (cookie_pair c) as l. induction Hcs as [|d ds Hd _ IH]; intros l Hl; [done|].
  change (join_with 59%Z (l :: _)) with (l ++ 59%Z :: join_with 59%Z ((32%Z :: cookie_pair d) :: ((fun c => 32%Z :: cookie_pair c) <$> ds))).
  apply Forall_app. split; [done|]. constructor; [lia|]. apply IH. constructor; [lia|]. by apply Hp.
Qed.

Lemma get_from_headers {H : HttpCrate} `{!HttpLaws H} cs n :
  Forall plain_cookie cs -> cs <> [] ->
  (value <$> get (from_headers [(bstr "cookie", cookie_text cs)]) n) = (value <$> find_cookie n cs).
Proof.
  intros Hcs Hne.
  unfold get, from_headers. cbn [outgoing incoming].
  change (find_cookie n []) with (@None Cookie). cbv match.
  change (get_all (bstr "cookie") [(bstr "cookie", cookie_text cs)]) with [cookie_text cs].
  cbn [mbind list_bind]. rewrite app_nil_r, to_str_printable by by apply cookie_text_printable.
  rewrite parse_cookies_text by done. unfold find_cookie.
  induction cs as [|d ds IH]; [done|]. csimpl. rewrite !filter_cons. cbn [name cookie_new].
  case_decide; [done|]. inversion_clear Hcs. destruct ds as [|d' ds]; [done|]. by apply IH.
Qed.

(** A cookie that the application sets comes back: from the header a client
    sends with any plain cookies, the jar finds the first of each name with its
    value.  Setting one shadows it, removing one hides it, other names are not
    touched, and at most one [Set-Cookie] per name is written. *)
Theorem cookie_jar_correct {H : HttpCrate} `{!HttpLaws H} (cs : list Cookie) (c : Cookie) (n : bytes) :
  Forall plain_cookie cs -> cs <> [] ->
  let j := from_headers [(bstr "cookie", cookie_text cs)] in
  (value <$> get j n) = (value <$> find_cookie n cs)
  /\ get (add j c) n = (if decide (n = name c) then (if removal c then None else Some c) else get j n)
  /\ get (remove j c) n = (if decide (n = name c) then None else get j n)
  /\ jar_ok (add j c) /\ jar_ok (remove j c).
Proof.
  intros Hcs Hne. cbn zeta. assert (jar_ok (from_headers [(bstr "cookie", cookie_text cs)])) as Hj by apply NoDup_nil_2.
  split_and!; [|apply get_put|unfold remove; by rewrite get_put|by apply jar_ok_put..].
  by apply get_from_headers.
Qed.

Lemma cookie_jar_correct_witness :
  let j := from_headers (H := ascii_crate) [(bstr "cookie", bstr "a=1; b=x=y; a=2")] in
  (value <$> get j (bstr "b")) = Some (bstr "x=y") /\ get (remove j (cookie_new (bstr "a") [])) (bstr "a") = None.
Proof.
  destruct (cookie_jar_correct (H := ascii_crate) (HttpLaws0 := ascii_crate_laws)
    [cookie_new (bstr "a") (bstr "1"); cookie_new (bstr "b") (bstr "x=y"); cookie_new (bstr "a") (bstr "2")]
    (cookie_new (bstr "a") []) (bstr "b")) as (E & _).
  - apply (bool_decide_unpack _). vm_compute. exact I.
  - discriminate.
  - split; [exact E|vm_compute; reflexivity].
Defined.
