(* ===== verification/Totp.v ===== *)
(** * One-time passwords ([src/src/api/session.rs])

    The base32 of the secrets, HOTP with its truncation, and the check of a code
    over the steps around the current one.  HMAC-SHA-1 is a parameter that gives
    twenty bytes. *)
From S2P Require Import Prelude Text QqCodec.

Definition ALPHA : list Z := bstr "ABCDEFGHIJKLMNOPQRSTUVWXYZ234567".

(** [buf << k] at 32 bits. *)
Definition shl32 (buf : Z) (k : Z) : Z := u32 (Z.shiftl buf k).

(** The inner loop: at most three digits come out of a byte. *)
Fixpoint encode_digits (fuel : nat) (buf : Z) (bits : nat) (out : bytes) : result Empty_set (nat * bytes) :=
  if decide (bits < 5) then Ok (bits, out) else
  match fuel with
  | O => Stuck OutOfFuel
  | S fuel =>
      let bits := bits - 5 in
      c ← index ALPHA (Z.to_nat (Z.land (Z.shiftr buf (Z.of_nat bits)) 31));
      encode_digits fuel buf bits (out ++ [c])
  end.

Fixpoint encode_bytes (bs : bytes) (buf : Z) (bits : nat) (out : bytes) : result Empty_set (Z * nat * bytes) :=
  match bs with
  | [] => Ok (buf, bits, out)
  | b :: bs =>
      let buf := Z.lor (shl32 buf 8) b in
      '(bits, out) ← encode_digits 3 buf (bits + 8) out;
      encode_bytes bs buf bits out
  end.

Definition base32_encode (bs : bytes) : result Empty_set bytes :=
  '(buf, bits, out) ← encode_bytes bs 0 0 [];
  if decide (0 < bits) then
    c ← index ALPHA (Z.to_nat (Z.land (shl32 buf (5 - Z.of_nat bits)) 31)); Ok (out ++ [c])
  else Ok out.

(** Decoding works on the characters; those outside ASCII are white space or
    refused, so here they are the encodings of [WHITE_SPACE] or refused. *)
Definition digit_value (c : Z) : option Z :=
  if decide (65 ≤ c ≤ 90)%Z then Some (c - 65)%Z
  else if decide (97 ≤ c ≤ 122)%Z then Some (c - 97)%Z
  else if decide (50 ≤ c ≤ 55)%Z then Some (26 + (c - 50))%Z
  else None.

Fixpoint decode_loop (fuel : nat) (s : bytes) (buf : Z) (bits : nat) (out : bytes) : option bytes :=
  match fuel with
  | O => Some out
  | S fuel =>
      match s with
      | [] => Some out
      | c :: s1 =>
          if decide (c = 61%Z) then decode_loop fuel s1 buf bits out else
          match first_match WHITE_SPACE s with
          | Some s' => decode_loop fuel s' buf bits out
          | None =>
              v ← digit_value c;
              let buf := Z.lor (shl32 buf 5) v in
              let bits := bits + 5 in
              if decide (8 ≤ bits) then
                decode_loop fuel s1 buf (bits - 8) (out ++ [Z.land (Z.shiftr buf (Z.of_nat (bits - 8))) 255])
              else decode_loop fuel s1 buf bits out
          end
      end
  end.
Definition base32_decode (s : bytes) : option bytes := decode_loop (length s) s 0 0 [].

(** ** HOTP *)

Section hotp.
Context (hmac_sha1 : bytes -> bytes -> bytes).

Definition be64 (n : Z) : bytes := (fun i => u8 (Z.shiftr n (8 * (7 - Z.of_nat i)))) <$> seq 0 8.

(** [format!("{:06}")]. *)
Definition pad6 (n : Z) : bytes := let d := decimal n in replicate (6 - length d) 48%Z ++ d.

Definition hotp_sha1 (secret : bytes) (counter : Z) : result Empty_set bytes :=
  let hs := hmac_sha1 secret (be64 counter) in
  last ← index hs 19;
  let offset := Z.to_nat (Z.land last 15) in
  b0 ← index hs offset;
  b1 ← index hs (offset + 1);
  b2 ← index hs (offset + 2);
  b3 ← index hs (offset + 3);
  let bin := Z.lor (Z.lor (Z.lor (Z.shiftl (Z.land b0 127) 24) (Z.shiftl b1 16)) (Z.shiftl b2 8)) b3 in
  Ok (pad6 (bin mod 1000000)).

Definition ct_eq (a b : bytes) : bool :=
  if decide (length a <> length b) then false
  else bool_decide (foldl (fun diff xy => Z.lor diff (Z.lxor (fst xy) (snd xy))) 0%Z (zip a b) = 0%Z).

(** The steps before, at and after the current one, in this order. *)
Fixpoint try_steps (secret code : bytes) (steps : list Z) : result Empty_set (option Z) :=
  match steps with
  | [] => Ok None
  | step :: steps =>
      expected ← hotp_sha1 secret step;
      if ct_eq expected code then Ok (Some step) else try_steps secret code steps
  end.

Definition verify_totp_secret_step (now : Z) (secret code : bytes) : result Empty_set (option Z) :=
  if negb (forallb is_ascii_digit code) || negb (bool_decide (length code = 6)) then Ok None else
  let current := (now / 30)%Z in
  try_steps secret code [Z.max 0 (current - 1); current; (current + 1)%Z].

(** [None] when the stored secret is not base32. *)
Definition verify_totp_code_step (now : Z) (key_b32 code : bytes) : option (result Empty_set (option Z)) :=
  secret ← base32_decode key_b32; Some (verify_totp_secret_step now secret code).
End hotp.

(** ** The two base32 codecs of the program agree *)

(** The accumulators have the same low 32 bits. *)
Definition same32 (b1 b2 : Z) : Prop := u32 b1 = u32 b2.

Lemma same32_testbit b1 b2 i : same32 b1 b2 -> (0 ≤ i < 32)%Z -> Z.testbit b1 i = Z.testbit b2 i.
Proof.
  intros E Hi. assert (Z.testbit (u32 b1) i = Z.testbit (u32 b2) i) as H by by rewrite E.
  unfold u32 in H. rewrite !testbit_wrap in H by lia. case_bool_decide; [done|lia].
Qed.

Lemma same32_ext b1 b2 : (forall i, (0 ≤ i < 32)%Z -> Z.testbit b1 i = Z.testbit b2 i) -> same32 b1 b2.
Proof.
  intros H. apply Z.bits_inj'. intros i Hi. unfold u32. rewrite !testbit_wrap by lia.
  case_bool_decide; [apply H; lia|done].
Qed.

(** A group of bits below the thirty-second. *)
Lemma same32_group b1 b2 k (w : Z) :
  same32 b1 b2 -> (0 ≤ w)%Z -> (Z.of_nat k + w ≤ 32)%Z ->
  Z.land (Z.shiftr b1 (Z.of_nat k)) (Z.ones w) = Z.land (Z.shiftr b2 (Z.of_nat k)) (Z.ones w).
Proof.
  intros E Hw Hk. apply Z.bits_inj'. intros i Hi. rewrite !Z.land_spec, !Z.shiftr_spec by lia.
  destruct (decide (i < w)%Z) as [Hlt|Hge].
  - by rewrite (same32_testbit b1 b2) by (done || lia).
  - rewrite Z.ones_spec_high by lia. by rewrite !andb_false_r.
Qed.

Lemma same32_push b1 b2 k v : (0 ≤ k)%Z -> same32 b1 b2 ->
  same32 (Z.lor (shl32 b1 k) v) (u64 (Z.lor (Z.shiftl b2 k) v)).
Proof.
  intros Hk E. apply same32_ext. intros i Hi. unfold u64, shl32, u32.
  rewrite Z.lor_spec, !testbit_wrap, Z.lor_spec, !bool_decide_eq_true_2 by lia.
  cbn [andb]. f_equal. destruct (decide (k ≤ i)%Z).
  - rewrite !Z.shiftl_spec by lia. apply same32_testbit; [done|lia].
  - by rewrite !Z.shiftl_spec_low by lia.
Qed.

Definition upper (c : Z) : Z := if decide (97 ≤ c ≤ 122)%Z then (c - 32)%Z else c.

Lemma alpha_upper v : digit5 v -> index (E := Empty_set) ALPHA (Z.to_nat v) = Ok (upper (b32_char v)).
Proof.
  revert v. by apply (forall_below_dec (fun v => index (E := Empty_set) ALPHA (Z.to_nat v) = Ok (upper (b32_char v))) 32).
Qed.

Lemma encode_digits_drain f1 f2 b1 b2 bits out :
  same32 b1 b2 -> bits ≤ 5 * f1 + 4 -> bits ≤ 5 * f2 + 4 -> bits ≤ 32 ->
  encode_digits f1 b1 bits (upper <$> out)
  = Ok ((b32_drain f2 out b2 bits).2, upper <$> (b32_drain f2 out b2 bits).1) /\ (b32_drain f2 out b2 bits).2 < 5.
Proof.
  intros E. revert f2 bits out. induction f1 as [|f1 IH]; intros f2 bits out H1 H2 H32; cbn [encode_digits].
  { rewrite decide_True by lia. destruct f2; cbn [b32_drain]; [|rewrite decide_False by lia]; cbn [fst snd]; split; (done || lia). }
  destruct (decide (bits < 5)) as [Hb|Hb].
  { destruct f2; cbn [b32_drain]; [|rewrite decide_False by lia]; cbn [fst snd]; split; (done || lia). }
  destruct f2 as [|f2]; [lia|]. cbn [b32_drain]. rewrite decide_True by lia.
  pose proof (same32_group b1 b2 (bits - 5) 5 E ltac:(lia) ltac:(lia)) as Hg. change (Z.ones 5) with 31%Z in Hg.
  rewrite Hg, alpha_upper, bind_Ok_eq by apply digit5_land.
  change [upper ?x] with (upper <$> [x]). rewrite <- fmap_app. apply IH; lia.
Qed.

Lemma encode_bytes_loop bs b1 b2 bits out :
  same32 b1 b2 -> bits < 5 ->
  exists b1', same32 b1' (b32_encode_loop bs out b2 bits).1.2 /\ (b32_encode_loop bs out b2 bits).2 < 5 /\
  encode_bytes bs b1 bits (upper <$> out)
  = Ok (b1', (b32_encode_loop bs out b2 bits).2, upper <$> (b32_encode_loop bs out b2 bits).1.1).
Proof.
  revert b1 b2 bits out. induction bs as [|b bs IH]; intros b1 b2 bits out E Hb; cbn [encode_bytes b32_encode_loop].
  { exists b1. by split_and!. }
  assert (same32 (Z.lor (shl32 b1 8) b) (u64 (Z.lor (Z.shiftl b2 8) b))) as E' by (apply same32_push; [lia|done]).
  destruct (encode_digits_drain 3 (bits + 8) _ _ (bits + 8) out E') as [-> Hn]; [lia..|]. rewrite bind_Ok_eq.
  destruct (b32_drain (bits + 8) out _ (bits + 8)) as [out' n]. cbn [fst snd] in *. by apply IH.
Qed.

Lemma base32_encode_agrees bs :
  base32_encode bs = Ok (upper <$> b32_encode_nopad_lower bs).
Proof.
  unfold base32_encode, b32_encode_nopad_lower.
  destruct (encode_bytes_loop bs 0 0 0 [] eq_refl) as (b1 & E & Hn & Hloop); [lia|].
  change (upper <$> []) with (@nil Z) in Hloop. rewrite Hloop, bind_Ok_eq.
  destruct (b32_encode_loop bs [] 0 0) as [[out b2] n]. cbn [fst snd] in *. case_decide as Hp; [|done].
  pose proof (same32_push b1 b2 (5 - Z.of_nat n) 0 ltac:(lia) E) as E'. rewrite !Z.lor_0_r in E'.
  pose proof (same32_group _ _ 0 5 E' ltac:(lia) ltac:(lia)) as Hg. rewrite !Z.shiftr_0_r in Hg.
  change (Z.ones 5) with 31%Z in Hg. rewrite Hg, alpha_upper, bind_Ok_eq by apply digit5_land.
  by rewrite fmap_app.
Qed.

(** A digit of either case is one for both decoders. *)
Definition b32_digit (c : Z) : Prop := graph c /\ (0 ≤ b32_value c)%Z.

Lemma digit_value_b32 c : b32_digit c -> digit_value c = Some (b32_value c) /\ c <> 61%Z.
Proof.
  unfold b32_digit, digit_value, b32_value, graph. intros [Hg Hc].
  repeat case_decide; try lia; split; try lia; f_equal; lia.
Qed.

Lemma decode_loop_agrees s b1 b2 bits out :
  Forall b32_digit s -> same32 b1 b2 -> bits < 8 ->
  decode_loop (length s) s b1 bits out = result_ok (b32_decode_loop s out b2 bits).
Proof.
  intros Hs. revert b1 b2 bits out. induction Hs as [|c s Hc _ IH]; intros b1 b2 bits out E Hb; [done|].
  cbn [length decode_loop b32_decode_loop]. destruct (digit_value_b32 c Hc) as [Hv Hne].
  destruct Hc as [Hg Hpos]. destruct white_space_bytes as [Hws _].
  rewrite decide_False, (first_match_None _ _ _ Hws Hg), Hv by done. cbn [mbind option_bind].
  rewrite (decide_False (P := (b32_value c < 0)%Z)) by lia.
  pose proof (same32_push b1 b2 5 (b32_value c) ltac:(lia) E) as E'. case_decide; [|by apply IH; [|lia]].
  rewrite <- (IH _ (u64 (Z.lor (Z.shiftl b2 5) (b32_value c)))) by (done || lia).
  do 3 f_equal. pose proof (same32_group _ _ (bits + 5 - 8) 8 E' ltac:(lia) ltac:(lia)) as Hgr.
  change (Z.ones 8) with 255%Z in Hgr. rewrite Hgr. unfold u8, wrap. by rewrite <- (Z.land_ones _ 8) by lia.
Qed.

Lemma upper_digits bs : bytes_ok bs ->
  Forall b32_digit (upper <$> b32_encode_nopad_lower bs)
  /\ b32_value <$> (upper <$> b32_encode_nopad_lower bs) = b32_value <$> b32_encode_nopad_lower bs.
Proof.
  intros Hbs. destruct (b32_encode_spec bs Hbs) as (vs & pad & -> & Hv & _).
  assert (forall v, digit5 v -> graph (upper (b32_char v)) /\ b32_value (upper (b32_char v)) = v) as Hd.
  { apply (forall_below_dec (fun v => graph (upper (b32_char v)) /\ b32_value (upper (b32_char v)) = v) 32).
    by vm_compute. }
  induction Hv as [|v vs Hvd _ IH]; [done|]. destruct IH as [IH1 IH2], (Hd v Hvd) as [Hg Hval]. csimpl. split.
  - constructor; [|done]. split; [done|]. rewrite Hval. lia.
  - by rewrite IH2, Hval, b32_value_char.
Qed.

Lemma base32_round_trip bs : bytes_ok bs ->
  exists key, base32_encode bs = Ok key /\ base32_decode key = Some bs /\ b32_decode_nopad key = Ok bs.
Proof.
  intros Hbs. destruct (upper_digits bs Hbs) as [Hd Hv]. exists (upper <$> b32_encode_nopad_lower bs).
  split; [apply base32_encode_agrees|]. pose proof (b32_decode_encode_values bs _ Hbs Hv) as E. split; [|done].
  unfold base32_decode. rewrite (decode_loop_agrees _ 0 0) by (done || lia).
  unfold b32_decode_nopad in E. by rewrite E.
Qed.

(** ** The comparison *)

Lemma ct_eq_go a b d :
  (0 ≤ d)%Z -> bytes_ok a -> bytes_ok b -> length a = length b ->
  foldl (fun diff xy => Z.lor diff (Z.lxor (fst xy) (snd xy))) d (zip a b) = 0%Z <-> d = 0%Z /\ a = b.
Proof.
  intros Hd Ha. revert d b Hd. induction Ha as [|x a Hx _ IH]; intros d b Hd Hb Hl; destruct b as [|y b]; try done.
  { cbn. naive_solver. }
  inversion_clear Hb as [|? ? Hy Hb']. cbn [zip_with zip foldl fst snd]. unfold byte_ok in *.
  rewrite IH; [|apply Z.lor_nonneg; split; [done|]; apply Z.lxor_nonneg; lia|done|cbn in Hl; lia].
  rewrite Z.lor_eq_0_iff, Z.lxor_eq_0_iff. naive_solver.
Qed.

Lemma ct_eq_spec a b : bytes_ok a -> bytes_ok b -> ct_eq a b = bool_decide (a = b).
Proof.
  intros Ha Hb. unfold ct_eq. case_decide as Hl; [rewrite bool_decide_eq_false_2; [done|congruence]|].
  apply bool_decide_ext. rewrite ct_eq_go by (done || lia). naive_solver.
Qed.

(** ** Codes *)

Lemma decimal_go_length k fuel n acc :
  (0 ≤ n < 10 ^ Z.of_nat k)%Z -> 0 < k -> length (decimal_go fuel n acc) ≤ k + length acc.
Proof.
  revert k n acc. induction fuel as [|fuel IH]; intros k n acc Hn Hk; cbn [decimal_go]; [lia|].
  case_decide as H0; [cbn; lia|]. destruct k as [|k]; [lia|].
  assert (10 ^ Z.of_nat (S k) = 10 * 10 ^ Z.of_nat k)%Z as Hp by (rewrite Nat2Z.inj_succ, Z.pow_succ_r; lia).
  destruct k as [|k].
  - exfalso. apply H0. apply Z.div_small. cbn in Hn. lia.
  - etransitivity; [apply (IH (S k)); [|lia]|cbn; lia].
    split; [apply Z.div_pos; lia|apply Z.div_lt_upper_bound; lia].
Qed.

Definition six_digits (code : bytes) : Prop := Forall digit code /\ length code = 6.

Lemma pad6_six n : (0 ≤ n < 1000000)%Z -> six_digits (pad6 n).
Proof.
  intros Hn. assert (0 ≤ n < 2 ^ 64)%Z as Hn64 by lia. unfold pad6.
  assert (length (decimal n) ≤ 6) as Hlen.
  { unfold decimal. rewrite decide_False by lia.
    pose proof (decimal_go_length 6 20 n [] ltac:(lia) ltac:(lia)) as H. cbn [length] in H. lia. }
  split.
  - apply Forall_app. split; [|by apply decimal_digits]. apply Forall_replicate. unfold digit. lia.
  - rewrite length_app, length_replicate. lia.
Qed.

Lemma six_digits_bytes code : six_digits code -> bytes_ok code.
Proof. intros [H _]. eapply Forall_impl; [exact H|]. unfold digit, byte_ok. lia. Qed.

Section verify.
Context (hmac_sha1 : bytes -> bytes -> bytes).
Context (Hmac : forall key msg, length (hmac_sha1 key msg) = 20 /\ bytes_ok (hmac_sha1 key msg)).

Lemma hotp_code secret counter :
  exists code, hotp_sha1 hmac_sha1 secret counter = Ok code /\ six_digits code.
Proof.
  destruct (Hmac secret (be64 counter)) as [Hlen Hb]. unfold hotp_sha1.
  generalize dependent (hmac_sha1 secret (be64 counter)). intros hs Hlen Hb.
  destruct (index_lt (E := Empty_set) hs 19) as (last & _ & ->); [lia|]. rewrite bind_Ok_eq.
  assert (0 ≤ Z.land last 15 < 16)%Z as Ho by (change 15%Z with (Z.ones 4); rewrite Z.land_ones by lia; apply Z.mod_pos_bound; lia).
  destruct (index_lt (E := Empty_set) hs (Z.to_nat (Z.land last 15))) as (b0 & _ & ->); [lia|].
  destruct (index_lt (E := Empty_set) hs (Z.to_nat (Z.land last 15) + 1)) as (b1 & _ & ->); [lia|].
  destruct (index_lt (E := Empty_set) hs (Z.to_nat (Z.land last 15) + 2)) as (b2 & _ & ->); [lia|].
  destruct (index_lt (E := Empty_set) hs (Z.to_nat (Z.land last 15) + 3)) as (b3 & _ & ->); [lia|].
  rewrite !bind_Ok_eq. eexists. split; [done|]. apply pad6_six, Z.mod_pos_bound. lia.
Qed.

Lemma try_steps_spec secret code steps :
  bytes_ok code ->
  exists o, try_steps hmac_sha1 secret code steps = Ok o
    /\ match o with
       | Some step => step ∈ steps /\ hotp_sha1 hmac_sha1 secret step = Ok code
       | None => forall step, step ∈ steps -> hotp_sha1 hmac_sha1 secret step <> Ok code
       end.
Proof.
  intros Hc. induction steps as [|step steps (o & Ho & IH)]; cbn [try_steps].
  { exists None. split; [done|]. by intros step ?%elem_of_nil. }
  destruct (hotp_code secret step) as (e & E & He). rewrite E, bind_Ok_eq.
  rewrite ct_eq_spec by eauto using six_digits_bytes. case_bool_decide as Heq.
  - subst e. exists (Some step). split; [done|]. split; [left|done].
  - exists o. split; [done|]. destruct o as [s|].
    + destruct IH. split; [by right|done].
    + intros s [->|Hs]%elem_of_cons; [rewrite E; congruence|by apply IH].
Qed.

Lemma verify_step_spec now secret code :
  exists o, verify_totp_secret_step hmac_sha1 now secret code = Ok o
    /\ match o with
       | Some step => step ∈ [Z.max 0 (now / 30 - 1); now / 30; now / 30 + 1]%Z /\ hotp_sha1 hmac_sha1 secret step = Ok code
       | None => forall step, step ∈ [Z.max 0 (now / 30 - 1); now / 30; now / 30 + 1]%Z ->
           hotp_sha1 hmac_sha1 secret step <> Ok code
       end.
Proof.
  unfold verify_totp_secret_step. destruct (_ || _) eqn:E.
  - exists None. split; [done|]. intros step _ Hs. destruct (hotp_code secret step) as (e & He & Hd & Hl).
    rewrite Hs in He. injection He as <-. apply orb_true_iff in E as [E|E]; apply negb_true_iff in E.
    + apply not_true_iff_false in E. apply E, forallb_forall. intros x Hx.
      apply bool_decide_eq_true. apply list_elem_of_In in Hx. rewrite Forall_forall in Hd. by apply Hd.
    + by apply bool_decide_eq_false in E.
  - apply try_steps_spec. apply orb_false_iff in E as [E _]. apply negb_false_iff in E.
    apply Forall_forall. intros x Hx. rewrite forallb_forall in E. apply list_elem_of_In, E, bool_decide_eq_true in Hx.
    unfold byte_ok. lia.
Qed.
End verify.

(** C34: A secret that was enrolled is the one that codes are checked against: the
    base32 text of its bytes decodes to them, and the check of a code then gives
    one of the steps around the current one whose code it is, and refuses
    it when there is none; every code is six digits, and nothing panics. *)
Theorem totp_correct hmac_sha1 (secret : bytes) :
  (forall key msg, length (hmac_sha1 key msg) = 20 /\ bytes_ok (hmac_sha1 key msg)) -> bytes_ok secret ->
  exists key, base32_encode secret = Ok key /\ forall now code,
    let steps := [Z.max 0 (now / 30 - 1); now / 30; now / 30 + 1]%Z in
    (forall step, step ∈ steps -> exists c, hotp_sha1 hmac_sha1 secret step = Ok c /\ six_digits c)
    /\ exists o, verify_totp_code_step hmac_sha1 now key code = Some (Ok o)
       /\ match o with
          | Some step => step ∈ steps /\ hotp_sha1 hmac_sha1 secret step = Ok code
          | None => forall step, step ∈ steps -> hotp_sha1 hmac_sha1 secret step <> Ok code
          end.
Proof.
  intros Hmac Hs. destruct (base32_round_trip secret Hs) as (key & E & D & _). exists key. split; [done|].
  intros now code steps. split; [by intros; apply hotp_code|].
  destruct (verify_step_spec hmac_sha1 Hmac now secret code) as (o & Ho & Hcase). exists o. split; [|exact Hcase].
  unfold verify_totp_code_step. rewrite D. cbn [mbind option_bind]. by rewrite Ho.
Qed.

(** A MAC that begins with the low bytes of the counter. *)
Definition counter_mac (key msg : bytes) : bytes := take 20 (reverse (u8 <$> msg) ++ replicate 20 0%Z).

Lemma counter_mac_ok key msg : length (counter_mac key msg) = 20 /\ bytes_ok (counter_mac key msg).
Proof.
  unfold counter_mac. split; [rewrite length_take, length_app, length_replicate; lia|].
  apply Forall_take, Forall_app. split; [|apply Forall_replicate; unfold byte_ok; lia].
  apply Forall_reverse, Forall_fmap, Forall_true. intros x. unfold compose, byte_ok, u8, wrap. apply Z.mod_pos_bound. lia.
Qed.

Lemma totp_correct_witness :
  exists key, base32_encode (bstr "hello") = Ok key
    /\ exists o, verify_totp_code_step counter_mac 300 key (bstr "772160") = Some (Ok o) /\ o <> None.
Proof.
  destruct (totp_correct counter_mac (bstr "hello") counter_mac_ok) as (key & E & H).
  { apply (bool_decide_unpack _). vm_compute. exact I. }
  exists key. split; [exact E|]. destruct (H 300%Z (bstr "772160")) as (_ & o & Ho & Hc). exists o. split; [exact Ho|].
  intros ->. refine (Hc 10%Z _ _); [right; left|]. vm_compute. reflexivity.
Defined.
