(* ===== verification/ApiLimits.v ===== *)
(** * Attempt limits ([src/src/api/session.rs])

    The store of attempt times behind the login and the metrics endpoints: its
    keys, the two limiters over it, and the limiter of one-time codes.  The clock
    is an argument of each call, which runs under the lock of its store. *)
From stdpp Require Import gmap.
From S2P Require Import Prelude Text HttpQuery HttpServer HttpCookie.

(** ** Keys *)

Definition MAX_RATE_LIMIT_KEYS : nat := 16384.
Definition RATE_LIMIT_SUBJECT_MAX : nat := 64.

(** [chars().take(n)] of a string. *)
Fixpoint take_chars (n : nat) (s : bytes) : bytes :=
  match n, s with
  | S n, a :: s1 => let '(c, s) := utf8_step a s1 in default [a] c ++ take_chars n s
  | _, _ => []
  end.

Definition rate_limit_key (prefix subject : bytes) : bytes :=
  prefix ++ 58%Z :: take_chars RATE_LIMIT_SUBJECT_MAX subject.

(** ** Windows *)

Abbreviation AttemptStore K := (gmap K (list Z)).

(** [now.saturating_sub(t) < horizon]. *)
Definition fresh (horizon now t : Z) : Prop := (Z.max 0 (now - t) < horizon)%Z.
#[export] Instance fresh_dec h n t : Decision (fresh h n t).
Proof. unfold fresh. apply _. Defined.
Definition live (horizon now : Z) (window : list Z) : list Z := filter (fresh horizon now) window.

(** The window of a key without its stale times, and with this attempt when there
    is room for it. *)
Definition attempt `{Countable K} (horizon : Z) (now : Z) (key : K) (limit : nat) (store : AttemptStore K)
    : AttemptStore K * bool :=
  let window := live horizon now (default [] (store !! key)) in
  if decide (limit ≤ length window) then (<[key := window]> store, false)
  else (<[key := window ++ [now]]> store, true).

(** ** The store of login attempts *)

Definition sweep (now : Z) (store : AttemptStore bytes) : AttemptStore bytes :=
  omap (fun w => let w := live 60 now w in if decide (w = []) then None else Some w) store.

(** The store when there may be room for new keys. *)
Definition make_room (now : Z) (store : AttemptStore bytes) : AttemptStore bytes * bool :=
  if decide (MAX_RATE_LIMIT_KEYS < size store) then
    let store := sweep now store in (store, bool_decide (size store ≤ MAX_RATE_LIMIT_KEYS))
  else (store, true).

Inductive Denied : Set := ServerBusy | TooManyFromAddress | TooManyForUser.

Definition check_ip_attempt_limit (now : Z) (prefix : bytes) (ip : option bytes) (limit : nat)
    (store : AttemptStore bytes) : AttemptStore bytes * option Denied :=
  match ip with
  | None => (store, None)
  | Some ip =>
      let '(store, room) := make_room now store in
      if negb room then (store, Some ServerBusy) else
      let '(store, ok) := attempt 60 now (rate_limit_key prefix ip) limit store in
      (store, if ok then None else Some TooManyFromAddress)
  end.

Definition USER : bytes := bstr "user".
Definition IP : bytes := bstr "ip".

(** The limits at the head of [create_session]; the window that is dropped when
    the address is refused is never empty, since the attempt is in it. *)
Definition login_limit (now : Z) (username : bytes) (client_ip : option bytes)
    (store : AttemptStore bytes) : AttemptStore bytes * option Denied :=
  let '(store, room) := make_room now store in
  if negb room then (store, Some ServerBusy) else
  let user_key := rate_limit_key USER username in
  let '(store, ok) := attempt 60 now user_key 10 store in
  if negb ok then (store, Some TooManyForUser) else
  match client_ip with
  | None => (store, None)
  | Some ip =>
      let '(store, ok) := attempt 60 now (rate_limit_key IP ip) 50 store in
      if negb ok then
        (if decide (store !! user_key = Some []) then delete user_key store else store, Some TooManyFromAddress)
      else (store, None)
  end.

(** [check_totp_rate_limit]. *)
Definition check_totp_rate_limit (now : Z) (user_id : Z) (store : AttemptStore Z) : AttemptStore Z * bool :=
  attempt 300 now user_id 5 store.

#[local] Opaque MAX_RATE_LIMIT_KEYS.

(** ** The address of a client *)

Section client_ip.
Context `{HttpCrate}.

(** The text of the first header of a name, trimmed by [f] and not empty. *)
Definition header_text (n : bytes) (hs : list (bytes * bytes)) : option bytes := head (get_all n hs) ≫= value_to_str.
Definition nonempty (s : bytes) : option bytes := if decide (s = []) then None else Some s.

Definition comma : Z -> bool := fun c => bool_decide (c = 44%Z).

(** [peer] is the text of the address of the socket. *)
Definition resolve_client_ip (trust_proxy : bool) (hs : list (bytes * bytes)) (peer : option bytes) : option bytes :=
  let forwarded := v ← header_text (bstr "x-forwarded-for") hs; l ← last (split_on comma v); nonempty (trim l) in
  let real := v ← header_text (bstr "x-real-ip") hs; nonempty (trim v) in
  if trust_proxy then
    match forwarded, real with Some ip, _ => Some ip | None, Some ip => Some ip | None, None => peer end
  else peer.

Lemma last_split (forged real : bytes) :
  44%Z ∉ real -> last (split_on comma (forged ++ 44%Z :: real)) = Some real.
Proof.
  intros Hr. induction forged as [|c forged IH]; cbn [app split_on].
  - rewrite split_on_none; [done|]. apply Forall_forall. intros c Hc. apply bool_decide_eq_false. by intros ->.
  - destruct (split_on comma (forged ++ 44%Z :: real)) as [|w ws] eqn:E; [done|].
    destruct (comma c); [by rewrite last_cons, IH|]. destruct ws as [|w' ws]; [|done].
    exfalso. revert E. clear. revert w. induction forged as [|c forged IH]; cbn [app split_on].
    + intros w [= _ E]. by apply split_on_nonempty in E.
    + intros w. destruct (split_on comma (forged ++ 44%Z :: real)) as [|w1 ws1] eqn:E1;
        [by apply split_on_nonempty in E1|].
      destruct (comma c); [done|]. intros [= <- ->]. by eapply IH.
Qed.

(** What a client writes in front of the address its proxy appended does not
    matter, and no header does without a trusted proxy. *)
Lemma resolve_client_ip_spec hs peer forged real :
  header_text (bstr "x-forwarded-for") hs = Some (forged ++ 44%Z :: 32%Z :: real) ->
  44%Z ∉ real -> real <> [] -> Forall graph real ->
  resolve_client_ip true hs peer = Some real /\ resolve_client_ip false hs peer = peer.
Proof.
  intros Hh Hc Hne Hg. split; [|done]. unfold resolve_client_ip. rewrite Hh. cbn [mbind option_bind].
  rewrite last_split by (rewrite elem_of_cons; naive_solver). cbn [mbind option_bind].
  rewrite trim_space by done. unfold nonempty. by rewrite decide_False.
Qed.

(** A proxy that adds a line of its own instead is not heard: the first line
    counts, which is that of the client. *)
Lemma first_line_counts hs forged real peer :
  get_all (bstr "x-forwarded-for") hs = [forged; real] -> value_to_str forged = Some forged ->
  44%Z ∉ forged -> forged <> [] -> Forall graph forged ->
  resolve_client_ip true hs peer = Some forged.
Proof.
  intros Hh Hv Hc Hne Hg. unfold resolve_client_ip, header_text. rewrite Hh. cbn [head mbind option_bind]. rewrite Hv.
  cbn [mbind option_bind]. rewrite split_on_none; [|apply Forall_forall; intros c Hin; apply bool_decide_eq_false; by intros ->].
  cbn [last mbind option_bind]. rewrite trim_graph by done. unfold nonempty. by rewrite decide_False.
Qed.
End client_ip.

(** ** A window holds what was accepted *)

(** The accepted times of a key against its window: the same fresh ones at every
    time from the last call on. *)
Definition tracks (horizon last : Z) (accepted window : list Z) : Prop :=
  forall now, (last ≤ now)%Z -> live horizon now window = live horizon now accepted.

Lemma live_mono horizon last now l : (last ≤ now)%Z -> live horizon now (live horizon last l) = live horizon now l.
Proof.
  intros Hle. unfold live. rewrite list_filter_filter_l; [done|]. unfold fresh. intros. lia.
Qed.

Lemma live_app horizon now l1 l2 : live horizon now (l1 ++ l2) = live horizon now l1 ++ live horizon now l2.
Proof. apply filter_app. Qed.

Lemma tracks_later horizon last last' a w : (last ≤ last')%Z -> tracks horizon last a w -> tracks horizon last' a w.
Proof. intros Hle Ht now Hn. apply Ht. lia. Qed.

Lemma tracks_live horizon last now a w :
  (last ≤ now)%Z -> tracks horizon last a w -> tracks horizon now a (live horizon now w).
Proof. intros Hle Ht n Hn. rewrite live_mono by done. apply Ht. lia. Qed.

Lemma tracks_push horizon now a w : tracks horizon now a w -> tracks horizon now (a ++ [now]) (w ++ [now]).
Proof. intros Ht n Hn. rewrite !live_app. by rewrite Ht. Qed.

(** Ascending accepted times never crowd an interval: at each the window had
    fewer than the limit. *)
Definition within (a horizon : Z) (l : list Z) : list Z := filter (fun t => a ≤ t < a + horizon)%Z l.
Definition crowded_never (horizon : Z) (limit : nat) (l : list Z) : Prop :=
  forall a, length (within a horizon l) ≤ limit.

Lemma crowded_never_push horizon limit l now :
  (0 < horizon)%Z -> Forall (fun t => t ≤ now)%Z l -> length (live horizon now l) < limit ->
  crowded_never horizon limit l -> crowded_never horizon limit (l ++ [now]).
Proof.
  intros Hh Hle Hlen Hc a. unfold within. rewrite filter_app, length_app. fold (within a horizon l).
  destruct (decide (a ≤ now < a + horizon)%Z) as [Hin|Hout].
  - rewrite (filter_cons_True _ now) by done. cbn [length].
    enough (length (within a horizon l) ≤ length (live horizon now l)) by (cbn; lia).
    clear Hlen Hc. unfold within, live. induction Hle as [|t l Ht _ IH]; [done|].
    rewrite !filter_cons. unfold fresh at 1. repeat case_decide; cbn [length]; lia.
  - rewrite (filter_cons_False _ now) by done. specialize (Hc a). cbn. lia.
Qed.

(** ** Runs of the limiters *)

Inductive LimitCall : Set := LoginCall (username : bytes) (ip : option bytes) | MetricsCall (ip : option bytes).
Definition METRICS : bytes := bstr "metrics".

Definition limit_step (now : Z) (c : LimitCall) (store : AttemptStore bytes) : AttemptStore bytes * option Denied :=
  match c with
  | LoginCall username ip => login_limit now username ip store
  | MetricsCall ip => check_ip_attempt_limit now METRICS ip 30 store
  end.

Fixpoint run_calls (calls : list (Z * LimitCall)) (store : AttemptStore bytes) : list (option Denied) * AttemptStore bytes :=
  match calls with
  | [] => ([], store)
  | (now, c) :: calls =>
      let '(store, r) := limit_step now c store in
      let '(rs, store) := run_calls calls store in (r :: rs, store)
  end.

(** The windows a call counts in. *)
Definition keys_of (c : LimitCall) : list bytes :=
  match c with
  | LoginCall u ip => rate_limit_key USER u :: match ip with Some ip => [rate_limit_key IP ip] | None => [] end
  | MetricsCall (Some ip) => [rate_limit_key METRICS ip]
  | MetricsCall None => []
  end.

(** The limit of a key, by what stands before its colon. *)
Definition limit_of (key : bytes) : nat :=
  match split_once 58 key with
  | Some (prefix, _) => if decide (prefix = USER) then 10 else if decide (prefix = IP) then 50 else 30
  | None => 30
  end.

(** The times at which calls that count in a window were let through. *)
Fixpoint allowed_times (key : bytes) (calls : list (Z * LimitCall)) (rs : list (option Denied)) : list Z :=
  match calls, rs with
  | (now, c) :: calls, r :: rs =>
      (if decide (r = None /\ key ∈ keys_of c) then [now] else []) ++ allowed_times key calls rs
  | _, _ => []
  end.

#[export] Instance Denied_eq_dec : EqDecision Denied.
Proof. solve_decision. Defined.

Record limits_ok (last : Z) (store : AttemptStore bytes) (hist : bytes -> list Z) : Prop := {
  hist_past k : Forall (fun t => t ≤ last)%Z (hist k);
  hist_tracks k : tracks 60 last (hist k) (default [] (store !! k));
  hist_sparse k : crowded_never 60 (limit_of k) (hist k);
}.

Definition push (key : bytes) (now : Z) (hist : bytes -> list Z) : bytes -> list Z :=
  fun k => if decide (k = key) then hist k ++ [now] else hist k.

Lemma limits_ok_later last now store hist : (last ≤ now)%Z -> limits_ok last store hist -> limits_ok now store hist.
Proof.
  intros Hle [Hp Ht Hs]. split; intros k.
  - eapply Forall_impl; [apply Hp|]. cbn. lia.
  - eapply tracks_later; [done|apply Ht].
  - apply Hs.
Qed.

(** A change that only drops stale times. *)
Lemma limits_ok_ext last store store' hist :
  (forall k now, (last ≤ now)%Z ->
     live 60 now (default [] (store' !! k)) = live 60 now (default [] (store !! k))) ->
  limits_ok last store hist -> limits_ok last store' hist.
Proof.
  intros He [Hp Ht Hs]. split; [done| |done]. intros k now Hn. rewrite He by done. by apply Ht.
Qed.

Lemma attempt_ok now key store hist :
  limits_ok now store hist ->
  let '(store', ok) := attempt 60 now key (limit_of key) store in
  limits_ok now store' (if ok then push key now hist else hist).
Proof.
  intros [Hp Ht Hs]. unfold attempt. case_decide as Hl.
  - eapply (limits_ok_ext _ store); [|by split]. intros k n Hn. destruct (decide (k = key)) as [->|Hk].
    + rewrite lookup_insert_eq. cbn. by apply live_mono.
    + by rewrite lookup_insert_ne by done.
  - split; intros k; unfold push; destruct (decide (k = key)) as [->|Hk];
      rewrite ?lookup_insert_eq, ?lookup_insert_ne by done; try done.
    + apply Forall_app. split; [apply Hp|]. apply Forall_singleton. lia.
    + apply tracks_push. eapply tracks_live; [done|apply Ht].
    + apply crowded_never_push; [lia|apply Hp| |apply Hs]. rewrite <- Ht by done. lia.
Qed.

Lemma make_room_ok now store hist : limits_ok now store hist -> limits_ok now (make_room now store).1 hist.
Proof.
  intros Hok. unfold make_room. case_decide; [|done]. cbn [fst]. eapply (limits_ok_ext _ store); [|done].
  intros k n Hn. unfold sweep. rewrite lookup_omap. destruct (store !! k) as [w|]; [|done]. cbn [mbind option_bind].
  change (default [] (Some w)) with w. rewrite <- (live_mono 60 now n w) by done. by case_decide as E; [rewrite E|].
Qed.

Lemma limit_of_key prefix subject : 58%Z ∉ prefix ->
  limit_of (rate_limit_key prefix subject)
  = if decide (prefix = USER) then 10 else if decide (prefix = IP) then 50 else 30.
Proof.
  intros Hp. unfold limit_of, rate_limit_key. by rewrite (proj2 (split_once_spec 58 _ prefix _)) by done.
Qed.

Lemma limit_user u : limit_of (rate_limit_key USER u) = 10.
Proof. rewrite limit_of_key; [done|]. by apply (bool_decide_unpack _). Qed.
Lemma limit_ip u : limit_of (rate_limit_key IP u) = 50.
Proof. rewrite limit_of_key; [done|]. by apply (bool_decide_unpack _). Qed.
Lemma limit_metrics u : limit_of (rate_limit_key METRICS u) = 30.
Proof. rewrite limit_of_key; [done|]. by apply (bool_decide_unpack _). Qed.

(** One call: the histories grow by this time, and do so for every window of a
    call that is let through. *)
Definition grows (now : Z) (hist hist' : bytes -> list Z) : Prop :=
  forall k, hist' k = hist k \/ hist' k = hist k ++ [now].

Lemma user_ip_keys u ip : rate_limit_key USER u <> rate_limit_key IP ip.
Proof. unfold rate_limit_key. by intros [=]. Qed.

Lemma limit_step_ok last now c store hist :
  (last ≤ now)%Z -> limits_ok last store hist ->
  let '(store', r) := limit_step now c store in
  exists hist', limits_ok now store' hist' /\ grows now hist hist'
    /\ (r = None -> forall k, k ∈ keys_of c -> hist' k = hist k ++ [now]).
Proof.
  intros Hle Hok. apply (limits_ok_later last now) in Hok as Hok0; [|done]. clear Hok.
  pose proof (make_room_ok _ _ _ Hok0) as Hok.
  assert (grows now hist hist) as Hrefl by (by left).
  assert (forall key, grows now hist (push key now hist)) as Hpush.
  { intros key k. unfold push. case_decide; [by right|by left]. }
  destruct c as [u ip|[ip|]]; cbn [limit_step keys_of].
  - unfold login_limit. destruct (make_room now store) as [store1 room]. cbn [fst] in Hok.
    destruct room; cbn [negb]; [|by exists hist].
    pose proof (attempt_ok now (rate_limit_key USER u) store1 hist Hok) as Ha. rewrite limit_user in Ha.
    destruct (attempt 60 now (rate_limit_key USER u) 10 store1) as [store2 ok] eqn:E2.
    destruct ok; cbn [negb]; [|by exists hist].
    destruct ip as [ip|]; [|exists (push (rate_limit_key USER u) now hist); split_and!; [done|done|];
      intros _ k Hk%list_elem_of_singleton; subst k; unfold push; by rewrite decide_True].
    pose proof (attempt_ok now (rate_limit_key IP ip) store2 _ Ha) as Hb. rewrite limit_ip in Hb.
    destruct (attempt 60 now (rate_limit_key IP ip) 50 store2) as [store3 ok]. destruct ok; cbn [negb].
    + eexists. split; [exact Hb|]. split.
      * intros k. unfold push. destruct (decide (k = rate_limit_key IP ip)) as [->|];
          destruct (decide _) as [Hk|]; [by apply eq_sym, user_ip_keys in Hk|..]; auto.
      * intros _ k [Hk|Hk%list_elem_of_singleton]%elem_of_cons; subst k; unfold push.
        -- rewrite decide_False by apply user_ip_keys. by rewrite decide_True by done.
        -- rewrite (decide_True (P := rate_limit_key IP ip = rate_limit_key IP ip)) by done.
           rewrite decide_False by (intros Hk; by apply eq_sym, user_ip_keys in Hk). done.
    + eexists. split; [|split; [apply Hpush|done]]. case_decide as Hd; [|exact Hb].
      eapply limits_ok_ext; [|exact Hb]. intros k n Hn. destruct (decide (k = rate_limit_key USER u)) as [->|Hk].
      * by rewrite lookup_delete_eq, Hd.
      * by rewrite lookup_delete_ne.
  - unfold check_ip_attempt_limit. destruct (make_room now store) as [store1 room]. cbn [fst] in Hok.
    destruct room; cbn [negb]; [|by exists hist].
    pose proof (attempt_ok now (rate_limit_key METRICS ip) store1 hist Hok) as Ha. rewrite limit_metrics in Ha.
    destruct (attempt 60 now (rate_limit_key METRICS ip) 30 store1) as [store2 ok].
    destruct ok; [|by exists hist]. exists (push (rate_limit_key METRICS ip) now hist). split_and!; [done|done|].
    intros _ k Hk%list_elem_of_singleton. subst k. unfold push. by rewrite decide_True.
  - cbn. exists hist. split_and!; [done|done|by intros _ k ?%elem_of_nil].
Qed.

(** ** The limits *)

Fixpoint ascending (last : Z) (calls : list (Z * LimitCall)) : Prop :=
  match calls with [] => True | (now, _) :: calls => (last ≤ now)%Z /\ ascending now calls end.

Lemma grows_sublist now hist hist' k : grows now hist hist' -> hist k `sublist_of` hist' k.
Proof. intros Hg. destruct (Hg k) as [-> | ->]; [done|]. by apply sublist_inserts_r. Qed.

Lemma run_calls_ok last calls store hist :
  limits_ok last store hist -> ascending last calls ->
  exists hist', (forall k, crowded_never 60 (limit_of k) (hist' k))
    /\ forall k, (hist k ++ allowed_times k calls (run_calls calls store).1) `sublist_of` hist' k.
Proof.
  revert last store hist. induction calls as [|[now c] calls IH]; intros last store hist Hok Hasc; cbn [run_calls].
  { exists hist. split; [apply Hok|]. intros k. cbn. by rewrite app_nil_r. }
  destruct Hasc as [Hle Hasc]. pose proof (limit_step_ok last now c store hist Hle Hok) as Hstep.
  destruct (limit_step now c store) as [store1 r]. destruct Hstep as (hist1 & Hok1 & Hg & Hr).
  destruct (IH now store1 hist1 Hok1 Hasc) as (hist' & Hs & Hsub).
  destruct (run_calls calls store1) as [rs store2]. exists hist'. split; [done|]. intros k. cbn [fst allowed_times] in *.
  specialize (Hsub k). case_decide as Hd; cbn [app].
  - destruct Hd as [-> Hk]. rewrite (Hr eq_refl k Hk), <- app_assoc in Hsub. exact Hsub.
  - etransitivity; [|exact Hsub]. apply sublist_app; [by eapply grows_sublist|done].
Qed.

Lemma length_within_sublist a h l1 l2 : l1 `sublist_of` l2 -> length (within a h l1) ≤ length (within a h l2).
Proof.
  unfold within. induction 1 as [|x l1 l2 _ IH|x l1 l2 _ IH]; [done| |]; rewrite !filter_cons; repeat case_decide; cbn; lia.
Qed.

Lemma limits_ok_empty : limits_ok 0 ∅ (fun _ => []).
Proof.
  split; intros k; [constructor| |intros a; cbn; lia]. intros now _. by rewrite lookup_empty.
Qed.

(** C24: Whatever calls arrive, in any mix of users and addresses, as long as the
    clock does not run backwards: in every interval of 60 seconds at most 10
    logins of one user name, 50 logins from one address and 30 metrics requests
    from one address get past the limiter. *)
Theorem attempt_limits (calls : list (Z * LimitCall)) :
  ascending 0 calls ->
  let rs := (run_calls calls ∅).1 in
  forall (subject : bytes) (a : Z),
    length (within a 60 (allowed_times (rate_limit_key USER subject) calls rs)) ≤ 10
    /\ length (within a 60 (allowed_times (rate_limit_key IP subject) calls rs)) ≤ 50
    /\ length (within a 60 (allowed_times (rate_limit_key METRICS subject) calls rs)) ≤ 30.
Proof.
  intros Hasc. cbn zeta. intros subject a.
  destruct (run_calls_ok 0 calls ∅ _ limits_ok_empty Hasc) as (hist' & Hs & Hsub).
  assert (forall k, length (within a 60 (allowed_times k calls (run_calls calls ∅).1)) ≤ limit_of k) as Hk.
  { intros k. etransitivity; [apply length_within_sublist, (Hsub k)|apply Hs]. }
  rewrite <- (limit_user subject), <- (limit_ip subject) at 1. rewrite <- (limit_metrics subject) at 1.
  auto.
Qed.

(** ** The store stays small *)

Lemma size_sweep now store : size (sweep now store) ≤ size store.
Proof.
  unfold sweep. induction store as [|k w store Hk IH] using map_ind; [by rewrite omap_empty|].
  rewrite (map_size_insert_None k w store) by done.
  destruct (live 60 now w) as [|t l] eqn:E.
  - rewrite omap_insert_None by (rewrite E; by rewrite decide_True). rewrite delete_id by by rewrite lookup_omap, Hk. lia.
  - rewrite (omap_insert_Some _ _ _ _ (t :: l)) by (rewrite E; by rewrite decide_False).
    rewrite map_size_insert_None by by rewrite lookup_omap, Hk. lia.
Qed.

Lemma size_attempt (now : Z) (key : bytes) (limit : nat) (store : AttemptStore bytes) :
  size (attempt 60 now key limit store).1 ≤ S (size store).
Proof. unfold attempt. case_decide; cbn [fst]; rewrite map_size_insert; case_match; unfold id; lia. Qed.

Lemma make_room_size now store :
  size (make_room now store).1 ≤ size store
  /\ ((make_room now store).2 = true -> size (make_room now store).1 ≤ MAX_RATE_LIMIT_KEYS).
Proof.
  unfold make_room. case_decide; cbn [fst snd]; [|split; [done|lia]].
  split; [apply size_sweep|]. apply bool_decide_eq_true.
Qed.

Lemma limit_step_size now c store :
  size store ≤ MAX_RATE_LIMIT_KEYS + 2 -> size (limit_step now c store).1 ≤ MAX_RATE_LIMIT_KEYS + 2.
Proof.
  intros Hsize. destruct (make_room_size now store) as [Hle Hroom].
  destruct c as [u ip|[ip|]]; cbn [limit_step]; [| |done].
  - unfold login_limit. destruct (make_room now store) as [store1 room]. cbn [fst snd] in *.
    destruct room; cbn [negb]; [|cbn; lia]. specialize (Hroom eq_refl).
    pose proof (size_attempt now (rate_limit_key USER u) 10 store1) as H2.
    destruct (attempt 60 now _ 10 store1) as [store2 ok]. destruct ok; cbn [negb fst] in *; [|lia].
    destruct ip as [ip|]; [|cbn; lia]. pose proof (size_attempt now (rate_limit_key IP ip) 50 store2) as H3.
    destruct (attempt 60 now _ 50 store2) as [store3 ok]. destruct ok; cbn [negb fst] in *; [lia|].
    case_decide; [|lia]. rewrite map_size_delete. case_match; unfold id; lia.
  - unfold check_ip_attempt_limit. destruct (make_room now store) as [store1 room]. cbn [fst snd] in *.
    destruct room; cbn [negb]; [|cbn; lia]. specialize (Hroom eq_refl).
    pose proof (size_attempt now (rate_limit_key METRICS ip) 30 store1) as H2.
    destruct (attempt 60 now _ 30 store1) as [store2 ok]. cbn [fst] in *. lia.
Qed.

(** Whatever user names and addresses are tried, at whatever times, the store
    of attempts never holds more than two keys above its bound. *)
Theorem attempt_store_bounded (calls : list (Z * LimitCall)) :
  size (run_calls calls ∅).2 ≤ MAX_RATE_LIMIT_KEYS + 2.
Proof.
  assert (forall store, size store ≤ MAX_RATE_LIMIT_KEYS + 2 -> size (run_calls calls store).2 ≤ MAX_RATE_LIMIT_KEYS + 2) as H.
  { induction calls as [|[now c] calls IH]; intros store Hs; [done|]. cbn [run_calls].
    pose proof (limit_step_size now c store Hs) as Hs1. destruct (limit_step now c store) as [store1 r].
    specialize (IH store1 Hs1). by destruct (run_calls calls store1). }
  apply H. rewrite map_size_empty. lia.
Qed.

(** The eviction of an empty user window never happens: the attempt of the call is
    in it.  One attempt of a user name stays until a sweep. *)
Lemma eviction_never_runs (now : Z) (key : bytes) (limit : nat) (store store' : AttemptStore bytes) :
  attempt 60 now key limit store = (store', true) -> store' !! key <> Some [].
Proof.
  unfold attempt. case_decide; [done|]. intros [= <-]. rewrite lookup_insert_eq. intros [= E].
  by apply app_nil in E as [_ ?].
Qed.

Lemma attempt_limits_witness :
  let calls := replicate 12 (100%Z, LoginCall (bstr "root") None) in
  ascending 0 calls
  /\ length (within 50 60 (allowed_times (rate_limit_key USER (bstr "root")) calls (run_calls calls ∅).1)) ≤ 10.
Proof.
  split; [repeat split; lia|].
  refine (proj1 (attempt_limits (replicate 12 (100%Z, LoginCall (bstr "root") None)) _ (bstr "root") 50%Z)).
  repeat split; lia.
Defined.
