(* ===== verification/ApiSession.v ===== *)
(** * Sessions and credentials ([src/src/api/session.rs], [src/src/api/mod.rs])

    The shared state of the web interface and the handlers over it: login, logout,
    the current user, profile, password and second factor.  A login is a sequence
    of steps, each atomic under one lock or one statement of the database, so that
    the steps of two logins may interleave.  Argon2, HMAC and the random bytes are
    parameters; the database is its table of users and its session timeout. *)
From stdpp Require Import gmap.
From S2P Require Import Prelude Text HttpQuery HttpServer HttpCookie Totp ApiLimits.

(** ** State *)

Record SessionData : Set := mkSession { user_id : Z; s_username : bytes; s_role : Z; created_at : Z }.

(** [is_expired]: the timeout is cast to unsigned. *)
Definition is_expired (now timeout : Z) (s : SessionData) : bool :=
  bool_decide (u64 timeout < Z.max 0 (now - created_at s))%Z.

(** A row of the users table. *)
Record User : Set := mkUser {
  u_id : Z; u_username : bytes; password : bytes; email : option bytes; u_name : bytes; u_role : Z;
  totp_key : option bytes; totp_verified : bool; totp_last_step : Z; enabled : bool;
}.

Record App : Type := mkApp {
  sessions : gmap bytes SessionData;
  login_attempts : AttemptStore bytes;
  totp_attempts : AttemptStore Z;
  users : gmap Z User;
  session_timeout : Z;
}.

Definition with_sessions (f : gmap bytes SessionData -> gmap bytes SessionData) (a : App) : App :=
  mkApp (f (sessions a)) (login_attempts a) (totp_attempts a) (users a) (session_timeout a).
Definition with_login_attempts (s : AttemptStore bytes) (a : App) : App :=
  mkApp (sessions a) s (totp_attempts a) (users a) (session_timeout a).
Definition with_totp_attempts (s : AttemptStore Z) (a : App) : App :=
  mkApp (sessions a) (login_attempts a) s (users a) (session_timeout a).
Definition with_users (f : gmap Z User -> gmap Z User) (a : App) : App :=
  mkApp (sessions a) (login_attempts a) (totp_attempts a) (f (users a)) (session_timeout a).

(** ** The database *)

(** User names are unique. *)
Definition get_user_by_username (a : App) (username : bytes) : option User :=
  head (filter (fun u => u_username u = username) (snd <$> map_to_list (users a))).

Definition get_totp_last_step (a : App) (id : Z) : option Z := totp_last_step <$> users a !! id.

(** The watermark only rises. *)
Definition set_totp_last_step (id step : Z) : App -> App :=
  with_users (alter (fun u => if decide (totp_last_step u < step)%Z
    then mkUser (u_id u) (u_username u) (password u) (email u) (u_name u) (u_role u) (totp_key u) (totp_verified u) step (enabled u)
    else u) id).

Definition update_password (id : Z) (hash : bytes) : App -> App :=
  with_users (alter (fun u =>
    mkUser (u_id u) (u_username u) hash (email u) (u_name u) (u_role u) (totp_key u) (totp_verified u) (totp_last_step u) (enabled u)) id).
Definition update_profile (id : Z) (e n : option bytes) : App -> App :=
  with_users (alter (fun u =>
    mkUser (u_id u) (u_username u) (password u) (match e with Some e => Some e | None => email u end)
      (default (u_name u) n) (u_role u) (totp_key u) (totp_verified u) (totp_last_step u) (enabled u)) id).
Definition update_totp (id : Z) (key : option bytes) (verified : bool) : App -> App :=
  with_users (alter (fun u =>
    mkUser (u_id u) (u_username u) (password u) (email u) (u_name u) (u_role u)
      (match key with Some k => Some k | None => totp_key u end) verified (totp_last_step u) (enabled u)) id).

(** ** Replies *)

Inductive ApiError : Set := Unauthorized | BadRequest400 | Forbidden | TooMany | Internal.
#[export] Instance ApiError_eq_dec : EqDecision ApiError.
Proof. solve_decision. Defined.

Abbreviation reply A := (result ApiError A).

Definition COOKIE_NAME : bytes := bstr "coffeeblack_session".

(** ** Sessions *)

Definition session_token (j : CookieJar) : option bytes := value <$> get j COOKIE_NAME.

Definition require_auth (now : Z) (j : CookieJar) (a : App) : reply User :=
  match session_token j with
  | None => Err Unauthorized
  | Some token =>
      match sessions a !! token with
      | None => Err Unauthorized
      | Some s =>
          if is_expired now (session_timeout a) s then Err Unauthorized
          else match users a !! user_id s with Some u => Ok u | None => Err Internal end
      end
  end.

Definition require_admin (now : Z) (j : CookieJar) (a : App) : reply User :=
  u ← require_auth now j a; if decide (u_role u < 1)%Z then Err Forbidden else Ok u.

Definition prune_expired_sessions (now : Z) (a : App) : App :=
  with_sessions (filter (fun e => is_expired now (session_timeout a) (snd e) = false)) a.

(** Every session of the user but the one of the token. *)
Definition revoke_user_sessions (id : Z) (keep : option bytes) : App -> App :=
  with_sessions (filter (fun e => user_id (snd e) <> id \/ keep = Some (fst e))).

Definition get_session (now : Z) (j : CookieJar) (a : App) : reply User := require_auth now j a.

Definition delete_session (j : CookieJar) (a : App) : App * CookieJar :=
  (match get j COOKIE_NAME with Some c => with_sessions (delete (value c)) a | None => a end,
   remove j (cookie_new COOKIE_NAME [])).

(** ** Credentials *)

Record LoginRequest : Set := mkLogin {
  l_username : bytes; l_password : bytes; remember : bool; totp_code : option bytes;
}.

(** A login with the address of its client and the token that its random bytes
    would give. *)
Record LoginCallIn : Set := mkCall { request : LoginRequest; client_ip : option bytes; token : bytes }.

Inductive LoginReply : Set := LoggedIn (user : Z) (cookie : Cookie) | TotpRequired.

(** Where a login stands: what it does next. *)
Inductive Phase : Set :=
  | AtLimit
  | AtLookup
  | AtTotpLimit (u : User) (key code : bytes)
  | AtVerify (u : User) (key code : bytes)
  | AtLastStep (u : User) (step : Z)
  | AtSetStep (u : User) (step : Z)
  | AtInsert (u : User)
  | Answered (r : reply LoginReply).

(** [chars().count()]. *)
Fixpoint count_chars (fuel : nat) (s : bytes) : nat :=
  match fuel, s with
  | S fuel, a :: s1 => S (count_chars fuel (utf8_step a s1).2)
  | _, _ => 0
  end.

Section credentials.
Context (verify_password : bytes -> bytes -> option bool).
Context (hash_password : bytes -> bytes -> bytes).
Context (hmac_sha1 : bytes -> bytes -> bytes).
Context (dummy_hash : bytes) (insecure : bool).

Definition session_cookie (token : bytes) (remember : bool) : Cookie :=
  let c := with_same_site Strict (with_secure (negb insecure) (with_http_only true
             (with_path [47%Z] (cookie_new COOKIE_NAME token)))) in
  if remember then with_max_age (30 * 86400) c else c.

(** After the password: the second factor when it is active. *)
Definition second_factor (u : User) (code : option bytes) : Phase :=
  match totp_key u with
  | Some key =>
      if totp_verified u && negb (bool_decide (key = [])) then
        match code with Some code => AtTotpLimit u key code | None => Answered (Ok TotpRequired) end
      else AtInsert u
  | None => AtInsert u
  end.

Definition login_step (now : Z) (c : LoginCallIn) (p : Phase) (a : App) : App * Phase :=
  match p with
  | AtLimit =>
      let '(store, denied) := login_limit now (l_username (request c)) (client_ip c) (login_attempts a) in
      (with_login_attempts store a, match denied with Some _ => Answered (Err TooMany) | None => AtLookup end)
  | AtLookup =>
      let user_opt := get_user_by_username a (l_username (request c)) in
      let hash_to_check := match user_opt with Some u => password u | None => dummy_hash end in
      (a, match verify_password (l_password (request c)) hash_to_check with
          | None => Answered (Err Internal)
          | Some valid =>
              match user_opt with
              | Some u => if valid && enabled u then second_factor u (totp_code (request c)) else Answered (Err Unauthorized)
              | None => Answered (Err Unauthorized)
              end
          end)
  | AtTotpLimit u key code =>
      let '(store, ok) := check_totp_rate_limit now (u_id u) (totp_attempts a) in
      (with_totp_attempts store a, if ok then AtVerify u key code else Answered (Err TooMany))
  | AtVerify u key code =>
      (a, match verify_totp_code_step hmac_sha1 now key code with
          | None => Answered (Err Internal)
          | Some (Ok (Some step)) => AtLastStep u step
          | Some (Ok None) => Answered (Err Unauthorized)
          | Some (Err e) => match e with end
          | Some (Stuck s) => Answered (Stuck s)
          end)
  | AtLastStep u step =>
      (a, match get_totp_last_step a (u_id u) with
          | None => Answered (Err Internal)
          | Some last => if decide (step ≤ last)%Z then Answered (Err Unauthorized) else AtSetStep u step
          end)
  | AtSetStep u step => (set_totp_last_step (u_id u) step a, AtInsert u)
  | AtInsert u =>
      (with_sessions (insert (token c) (mkSession (u_id u) (u_username u) (u_role u) now)) a,
       Answered (Ok (LoggedIn (u_id u) (session_cookie (token c) (remember (request c))))))
  | Answered r => (a, p)
  end.

(** The handler: its steps one after the other, each with its reading of the
    clock; seven are the longest way. *)
Fixpoint login_run (fuel : nat) (clock : nat -> Z) (c : LoginCallIn) (p : Phase) (a : App) : App * Phase :=
  match fuel with
  | O => (a, p)
  | S fuel => let '(a, p) := login_step (clock 0) c p a in login_run fuel (fun i => clock (S i)) c p a
  end.

Definition create_session (clock : nat -> Z) (c : LoginCallIn) (j : CookieJar) (a : App)
    : App * reply (CookieJar * LoginReply) :=
  let '(a, p) := login_run 7 clock c AtLimit a in
  (a, match p with
      | Answered (Ok (LoggedIn u cookie)) => Ok (add j cookie, LoggedIn u cookie)
      | Answered (Ok TotpRequired) => Ok (j, TotpRequired)
      | Answered (Err e) => Err e
      | Answered (Stuck s) => Stuck s
      | _ => Stuck OutOfFuel
      end).

(** [verify_password(..).map_err(map_err)?]. *)
Definition check_password (pw hash : bytes) : reply bool :=
  match verify_password pw hash with Some valid => Ok valid | None => Err Internal end.

Definition update_me (now : Z) (j : CookieJar) (current : option bytes) (e n : option bytes) (a : App) : App * reply unit :=
  match require_auth now j a with
  | Ok u =>
      match match current with Some pw => check_password pw (password u) | None => Ok true end with
      | Ok true => (update_profile (u_id u) e n a, Ok tt)
      | Ok false => (a, Err Unauthorized)
      | Err e => (a, Err e)
      | Stuck s => (a, Stuck s)
      end
  | Err e => (a, Err e)
  | Stuck s => (a, Stuck s)
  end.

Definition change_password (now : Z) (salt : bytes) (j : CookieJar) (current new : bytes) (confirm : option bytes)
    (a : App) : App * reply unit :=
  match require_auth now j a with
  | Ok u =>
      match check_password current (password u) with
      | Ok true =>
          if negb (match confirm with Some c => bool_decide (c = new) | None => true end) then (a, Err BadRequest400) else
          if decide (count_chars (length new) new < 12) then (a, Err BadRequest400) else
          let a := update_password (u_id u) (hash_password salt new) a in
          (revoke_user_sessions (u_id u) (session_token j) a, Ok tt)
      | Ok false => (a, Err Unauthorized)
      | Err e => (a, Err e)
      | Stuck s => (a, Stuck s)
      end
  | Err e => (a, Err e)
  | Stuck s => (a, Stuck s)
  end.

(** ** The second factor *)

Inductive TotpRequest : Set :=
  | Setup (current : option bytes) | Create (code : bytes) | Delete (current : bytes).
Inductive TotpReply : Set := SetUp (key uri : bytes) | Created | Deleted.

Definition totp_uri (u : User) (key : bytes) : bytes :=
  bstr "otpauth://totp/" ++ url_encode (bstr "wg-easy:" ++ u_username u) ++ bstr "?secret=" ++ key
  ++ bstr "&issuer=wg-easy&algorithm=SHA1&digits=6&period=30".

Definition totp_setup (secret : bytes) (current : option bytes) (u : User) (a : App) : App * reply TotpReply :=
  match (if totp_verified u then match current with Some pw => check_password pw (password u) | None => Ok false end
         else Ok true) with
  | Ok true =>
      match base32_encode secret with
      | Ok key => (update_totp (u_id u) (Some key) false a, Ok (SetUp key (totp_uri u key)))
      | Err e => match e with end
      | Stuck s => (a, Stuck s)
      end
  | Ok false => (a, Err Unauthorized)
  | Err e => (a, Err e)
  | Stuck s => (a, Stuck s)
  end.

Definition totp_create (now : Z) (code : bytes) (u : User) (a : App) : App * reply TotpReply :=
  match totp_key u with
  | None => (a, Err BadRequest400)
  | Some key =>
      let '(store, ok) := check_totp_rate_limit now (u_id u) (totp_attempts a) in
      let a := with_totp_attempts store a in
      if negb ok then (a, Err TooMany) else
      match verify_totp_code_step hmac_sha1 now key code with
      | None => (a, Err Internal)
      | Some (Ok (Some step)) => (set_totp_last_step (u_id u) step (update_totp (u_id u) None true a), Ok Created)
      | Some (Ok None) => (a, Err BadRequest400)
      | Some (Err e) => match e with end
      | Some (Stuck s) => (a, Stuck s)
      end
  end.

Definition totp_delete (j : CookieJar) (current : bytes) (u : User) (a : App) : App * reply TotpReply :=
  match check_password current (password u) with
  | Ok true => (revoke_user_sessions (u_id u) (session_token j) (update_totp (u_id u) (Some []) false a), Ok Deleted)
  | Ok false => (a, Err Unauthorized)
  | Err e => (a, Err e)
  | Stuck s => (a, Stuck s)
  end.

(** [secret] is what the random bytes give. *)
Definition toggle_totp (now : Z) (secret : bytes) (j : CookieJar) (r : TotpRequest) (a : App) : App * reply TotpReply :=
  match require_auth now j a with
  | Ok u =>
      match r with
      | Setup current => totp_setup secret current u a
      | Create code => totp_create now code u a
      | Delete current => totp_delete j current u a
      end
  | Err e => (a, Err e)
  | Stuck s => (a, Stuck s)
  end.
End credentials.
