(* ===== verification/ApiSessionProps.v ===== *)
(** * Sessions: their properties

    Logins as interleaved steps among everything else that changes the shared
    state, and the handlers one at a time. *)
From stdpp Require Import gmap.
From stdpp Require Import relations.
From S2P Require Import Prelude Text HttpQuery HttpServer HttpProps HttpCookie Totp ApiLimits ApiSession.

Section world.
Context (verify_password : bytes -> bytes -> option bool).
Context (hmac_sha1 : bytes -> bytes -> bytes).
Context (dummy_hash : bytes) (insecure : bool).

Abbreviation step_of := (login_step verify_password hmac_sha1 dummy_hash insecure).

(** ** The interleaving of logins *)

(** The shared state, the logins that have arrived, each where it stands, and the
    turns they have taken: which login, when, and the state it found. *)
Record World : Type := mkWorld {
  app : App; logins : list (LoginCallIn * Phase); past : list (nat * Z * App) }.

(** Something other than a login's step has changed the state. *)
Definition with_app (a : App) (w : World) : World := mkWorld a (logins w) (past w).

(** Between the steps of logins anything else may happen: logouts, sweeps,
    revocations, changes to the users, to the limits and to the timeout. *)
Inductive world_step : World -> World -> Prop :=
  | arrive w c : world_step w (mkWorld (app w) (logins w ++ [(c, AtLimit)]) (past w))
  | advance w i c p now a' p' :
      logins w !! i = Some (c, p) -> step_of now c p (app w) = (a', p') ->
      world_step w (mkWorld a' (<[i := (c, p')]> (logins w)) ((i, now, app w) :: past w))
  | logout w `{HttpCrate} j : world_step w (with_app (delete_session j (app w)).1 w)
  | prune w now : world_step w (with_app (prune_expired_sessions now (app w)) w)
  | revoke w id keep : world_step w (with_app (revoke_user_sessions id keep (app w)) w)
  | change_users w f : world_step w (with_app (with_users f (app w)) w)
  | change_limits w s : world_step w (with_app (with_login_attempts s (app w)) w)
  | change_totp_limits w s : world_step w (with_app (with_totp_attempts s (app w)) w).

(** ** What a login has shown *)

(** The password is that of an enabled user of the name. *)
Definition verified (c : LoginCallIn) (u : User) : Prop :=
  verify_password (l_password (request c)) (password u) = Some true
  /\ enabled u = true /\ u_username u = l_username (request c).

Definition factor_off (u : User) : Prop :=
  totp_key u = None \/ totp_key u = Some [] \/ totp_verified u = false.

(** At one of its turns the login found that user in the table. *)
Definition looked_up (turns : list (nat * Z * App)) (i : nat) (c : LoginCallIn) (u : User) : Prop :=
  exists t a k, (i, t, a) ∈ turns /\ users a !! k = Some u /\ verified c u.

(** The second factor is off, or the code matched at one of its turns. *)
Definition factor_shown (turns : list (nat * Z * App)) (i : nat) (c : LoginCallIn) (u : User) : Prop :=
  factor_off u \/ exists key code step t a,
    (i, t, a) ∈ turns /\ totp_key u = Some key /\ totp_code (request c) = Some code
    /\ verify_totp_code_step hmac_sha1 t key code = Some (Ok (Some step)).

Definition phase_ok (turns : list (nat * Z * App)) (i : nat) (c : LoginCallIn) (p : Phase) : Prop :=
  match p with
  | AtTotpLimit u key code | AtVerify u key code =>
      looked_up turns i c u /\ totp_key u = Some key /\ totp_code (request c) = Some code
  | AtLastStep u _ | AtSetStep u _ | AtInsert u => looked_up turns i c u /\ factor_shown turns i c u
  | _ => True
  end.

(** A login of that token put the session there, after showing all it had to. *)
Definition granted (ls : list (LoginCallIn * Phase)) (turns : list (nat * Z * App)) (tok : bytes) (s : SessionData) : Prop :=
  exists i c u t a,
    ls !! i = Some (c, Answered (Ok (LoggedIn (u_id u) (session_cookie insecure tok (remember (request c))))))
    /\ token c = tok /\ (i, t, a) ∈ turns /\ s = mkSession (u_id u) (u_username u) (u_role u) t
    /\ looked_up turns i c u /\ factor_shown turns i c u.

Record world_ok (w : World) : Prop := {
  phases_ok i c p : logins w !! i = Some (c, p) -> phase_ok (past w) i c p;
  sessions_ok tok s : sessions (app w) !! tok = Some s -> granted (logins w) (past w) tok s;
}.

Lemma looked_up_mono turns turns' i c u : turns ⊆ turns' -> looked_up turns i c u -> looked_up turns' i c u.
Proof. intros Hs (t & a & k & Hin & H). exists t, a, k. split; [by apply Hs|done]. Qed.

Lemma factor_shown_mono turns turns' i c u : turns ⊆ turns' -> factor_shown turns i c u -> factor_shown turns' i c u.
Proof.
  intros Hs [?|(key & code & step & t & a & Hin & H)]; [by left|]. right.
  exists key, code, step, t, a. split; [by apply Hs|done].
Qed.

#[local] Hint Resolve looked_up_mono factor_shown_mono : core.

Lemma phase_ok_mono turns turns' i c p : turns ⊆ turns' -> phase_ok turns i c p -> phase_ok turns' i c p.
Proof. intros Hs. destruct p; cbn; intuition eauto. Qed.

Lemma second_factor_ok turns i c u : looked_up turns i c u -> phase_ok turns i c (second_factor u (totp_code (request c))).
Proof.
  intros Hv. unfold second_factor. destruct (totp_key u) as [key|] eqn:Ek; [|split; [done|left; by left]].
  destruct (totp_verified u) eqn:Et; cbn [andb]; [|split; [done|left; right; by right]].
  case_bool_decide as Hk; cbn [negb]; [subst key; split; [done|left; right; by left]|].
  by destruct (totp_code (request c)) eqn:Ec.
Qed.

Lemma get_user_table a n u : get_user_by_username a n = Some u -> u_username u = n /\ exists k, users a !! k = Some u.
Proof.
  unfold get_user_by_username. intros E.
  assert (u ∈ filter (fun u => u_username u = n) (snd <$> map_to_list (users a))) as Hu.
  { destruct (filter _ _); [done|]. injection E as ->. left. }
  apply list_elem_of_filter in Hu as [? ([k u'] & -> & Hk)%list_elem_of_fmap].
  split; [done|]. exists k. by apply elem_of_map_to_list in Hk.
Qed.

(** A step of login [i] shows what its next place needs, and adds a session only
    when it answers so. *)
Lemma login_step_ok turns i now c p a a' p' :
  phase_ok turns i c p -> step_of now c p a = (a', p') ->
  let turns := (i, now, a) :: turns in
  phase_ok turns i c p' /\ forall tok s, sessions a' !! tok = Some s ->
    sessions a !! tok = Some s
    \/ exists u, p = AtInsert u /\ tok = token c /\ s = mkSession (u_id u) (u_username u) (u_role u) now
         /\ p' = Answered (Ok (LoggedIn (u_id u) (session_cookie insecure tok (remember (request c))))).
Proof.
  intros Hp E. cbn zeta. assert (Hnow : (i, now, a) ∈ (i, now, a) :: turns) by left.
  apply (phase_ok_mono _ ((i, now, a) :: turns)) in Hp; [|by apply list_subseteq_cons].
  destruct p as [| |u key code|u key code|u step|u step|u|r]; cbn [login_step phase_ok] in *.
  - destruct (login_limit _ _ _ _) as [store [d|]]; injection E as <- <-; by split; [|left].
  - injection E as <- <-. split; [|by left]. destruct (verify_password _ _) as [valid|] eqn:Ev; [|done].
    destruct (get_user_by_username _ _) as [u|] eqn:Eu; [|done].
    destruct valid; cbn [andb]; [|done]. destruct (enabled u) eqn:En; [|done]. apply second_factor_ok.
    apply get_user_table in Eu as [Hn [k Hk]]. by exists now, a, k.
  - destruct (check_totp_rate_limit _ _ _) as [store [|]]; injection E as <- <-; by split; [|left].
  - injection E as <- <-. split; [|by left]. destruct Hp as (Hv & Hk & Hc).
    destruct (verify_totp_code_step _ _ _ _) as [[[step|]|[]|]|] eqn:Ev; [|done..]. split; [done|]. right.
    by exists key, code, step, now, a.
  - injection E as <- <-. split; [|by left]. destruct (get_totp_last_step _ _); [|done]. by case_decide.
  - injection E as <- <-. split; [done|by left].
  - injection E as <- <-. split; [done|]. intros tok s. cbn [sessions with_sessions].
    rewrite lookup_insert_Some. intros [[<- <-]|[_ Hs]]; [right|by left]. by exists u.
  - injection E as <- <-. split; [done|by left].
Qed.

(** Logins that have answered stay where they are, and the turns stay taken. *)
Lemma granted_mono ls ls' turns turns' tok s :
  (forall i c r, ls !! i = Some (c, Answered r) -> ls' !! i = Some (c, Answered r)) -> turns ⊆ turns' ->
  granted ls turns tok s -> granted ls' turns' tok s.
Proof.
  intros H Hs (i & c & u & t & a & Hi & Ht & Hin & Es & Hl & Hf). exists i, c, u, t, a.
  split_and!; eauto.
Qed.

Lemma granted_advance ls turns i c p p' x tok s :
  ls !! i = Some (c, p) -> (forall r, p = Answered r -> p' = Answered r) ->
  granted ls turns tok s -> granted (<[i := (c, p')]> ls) (x :: turns) tok s.
Proof.
  intros Hi Hp. apply granted_mono; [|by apply list_subseteq_cons]. intros k c1 r Hk.
  destruct (decide (i = k)) as [<-|Hne]; [|by rewrite list_lookup_insert_ne].
  rewrite Hi in Hk. injection Hk as <- ->. rewrite list_lookup_insert_eq by by eapply lookup_lt_Some.
  by rewrite (Hp r eq_refl).
Qed.

(** Everything but a login only takes sessions away. *)
Lemma world_ok_fewer w a' :
  (forall tok s, sessions a' !! tok = Some s -> sessions (app w) !! tok = Some s) ->
  world_ok w -> world_ok (with_app a' w).
Proof. intros Hs [Hp Hg]. split; [done|]. intros tok s H. by apply Hg, Hs. Qed.

Lemma world_step_ok w w' : world_step w w' -> world_ok w -> world_ok w'.
Proof.
  intros Hstep Hok. destruct Hstep as [w c|w i c p now a' p' Hi E|w H j|w now|w id keep|w f|w s|w s];
    try (apply world_ok_fewer; [|done]; done).
  - destruct Hok as [Hp Hg]. split; cbn [logins app past].
    + intros i c' p' [Hi|[_ Hi]]%lookup_app_Some; [by eapply Hp|].
      apply list_lookup_singleton_Some in Hi as [_ [= <- <-]]. done.
    + intros tok s Hs. eapply granted_mono; [|done|by apply Hg]. intros i c' r Hin. by apply lookup_app_l_Some.
  - destruct Hok as [Hp Hg]. destruct (login_step_ok (past w) i now c p (app w) a' p' (Hp _ _ _ Hi) E) as [Hp' Hs'].
    assert (past w ⊆ (i, now, app w) :: past w) as Hsub by by apply list_subseteq_cons.
    split; cbn [logins app past].
    + intros k c1 p1 Hk. destruct (decide (i = k)) as [<-|Hne].
      * rewrite list_lookup_insert_eq in Hk by by eapply lookup_lt_Some. by injection Hk as <- <-.
      * rewrite list_lookup_insert_ne in Hk by done. eapply phase_ok_mono; [done|by eapply Hp].
    + intros tok s Hs. destruct (Hs' tok s Hs) as [Hold|(u & -> & -> & -> & ->)].
      * eapply granted_advance; [done| |by apply Hg]. intros r ->. by injection E as _ <-.
      * destruct (phase_ok_mono _ _ _ _ _ Hsub (Hp _ _ _ Hi)) as [Hl Hf].
        exists i, c, u, now, (app w). split_and!; [|done|left|done|done|done].
        apply list_lookup_insert_eq. by eapply lookup_lt_Some.
  - apply world_ok_fewer; [|done]. unfold delete_session. cbn [fst].
    intros tok s. destruct (get j COOKIE_NAME); [|done]. cbn. rewrite lookup_delete_Some. tauto.
  - apply world_ok_fewer; [|done]. cbn. intros tok s. rewrite map_lookup_filter_Some. tauto.
  - apply world_ok_fewer; [|done]. cbn. intros tok s. rewrite map_lookup_filter_Some. tauto.
Qed.

Definition world_start (a : App) : World := mkWorld (with_sessions (fun _ => ∅) a) [] [].

Lemma world_start_ok a : world_ok (world_start a).
Proof. split; [done|]. cbn. intros tok s. by rewrite lookup_empty. Qed.

Lemma reachable_ok a w : rtc world_step (world_start a) w -> world_ok w.
Proof.
  intros Hr. remember (world_start a) as w0 eqn:E. assert (world_ok w0) as H0 by (subst; apply world_start_ok).
  clear E. induction Hr as [|w1 w2 w3 Hs _ IH]; [done|]. apply IH. by eapply world_step_ok.
Qed.
End world.

(** C10: However the steps of logins interleave with each other and with anything
    else that changes the shared state, every session in the store was put there
    by a login with its token that answered with success: the session is that of
    a user whom the login, at one of its turns, found in the users table under
    the name it gave, enabled and with the password it gave; the user's second
    factor was off in that row, or the login gave a code that matched the row's
    key at the time of one of its turns; and the session dates from the time of
    one of its turns. *)
Theorem sessions_are_earned verify_password hmac_sha1 dummy_hash insecure (a : App) (w : World) tok s :
  rtc (world_step verify_password hmac_sha1 dummy_hash insecure) (world_start a) w ->
  sessions (app w) !! tok = Some s ->
  exists i c u t at_insert,
    logins w !! i = Some (c, Answered (Ok (LoggedIn (u_id u) (session_cookie insecure tok (remember (request c))))))
    /\ token c = tok
    /\ s = mkSession (u_id u) (u_username u) (u_role u) t /\ (i, t, at_insert) ∈ past w
    /\ (exists t0 a0 row, (i, t0, a0) ∈ past w /\ users a0 !! row = Some u
         /\ u_username u = l_username (request c) /\ enabled u = true
         /\ verify_password (l_password (request c)) (password u) = Some true)
    /\ (totp_key u = None \/ totp_key u = Some [] \/ totp_verified u = false
        \/ exists key code step t1 a1, (i, t1, a1) ∈ past w
             /\ totp_key u = Some key /\ totp_code (request c) = Some code
             /\ verify_totp_code_step hmac_sha1 t1 key code = Some (Ok (Some step))).
Proof.
  intros Hr Hs. destruct (reachable_ok _ _ _ _ _ _ Hr) as [_ Hg].
  destruct (Hg _ _ Hs) as (i & c & u & t & b & Hi & Ht & Hin & -> & (t0 & a0 & k & H0 & Hk & Hp & He & Hn) & Hf).
  exists i, c, u, t, b. split_and!; try done; [by exists t0, a0, k|]. unfold factor_shown, factor_off in Hf. tauto.
Qed.

(** ** Changing the password *)

(** C32: A password change that succeeds was asked for by the holder of a live
    session who gave the current password; it stores the hash of the new one and
    takes away every other session of the user, and only those.  One that does
    not succeed changes nothing. *)
Theorem change_password_evicts `{HttpCrate} verify_password hash_password now salt j current new confirm a a' r :
  change_password verify_password hash_password now salt j current new confirm a = (a', r) ->
  (r <> Ok tt -> a' = a)
  /\ (r = Ok tt -> exists u,
       require_auth now j a = Ok u /\ verify_password current (password u) = Some true
       /\ password <$> users a' !! u_id u = (fun _ => hash_password salt new) <$> users a !! u_id u
       /\ (forall id, id <> u_id u -> users a' !! id = users a !! id)
       /\ forall tok, sessions a' !! tok =
            (s ← sessions a !! tok; if decide (user_id s <> u_id u \/ session_token j = Some tok) then Some s else None)).
Proof.
  unfold change_password. destruct (require_auth now j a) as [u|e|s] eqn:Ea; [|by intros [= <- <-]..].
  unfold check_password. destruct (verify_password current (password u)) as [[|]|] eqn:Ev; [|by intros [= <- <-]..].
  destruct (negb _); [by intros [= <- <-]|]. case_decide; [by intros [= <- <-]|]. intros [= <- <-].
  split; [done|]. intros _. exists u. split_and!; [done|done| | |].
  - cbn. rewrite lookup_alter_eq. by destruct (users a !! u_id u).
  - intros id Hid. cbn. by rewrite lookup_alter_ne.
  - intros tok. cbn. apply option_eq. intros s. rewrite map_lookup_filter_Some, bind_Some. cbn. split.
    + intros [Hs Hd]. exists s. split; [done|]. by rewrite decide_True.
    + intros (s' & Hs' & Hd). case_decide; [|done]. by injection Hd as <-.
Qed.

(** ** One login *)

Section login.
Context (verify_password : bytes -> bytes -> option bool).
Context (hmac_sha1 : bytes -> bytes -> bytes).
Context (dummy_hash : bytes) (insecure : bool).

Abbreviation run := (login_run verify_password hmac_sha1 dummy_hash insecure).

Lemma run_answered n clock c r a : run n clock c (Answered r) a = (a, Answered r).
Proof. revert clock. induction n as [|n IH]; intros clock; cbn; [done|]. apply IH. Qed.

(** The session and the answer that a login ends with. *)
Definition logs_in (c : LoginCallIn) (u : User) (now : Z) (a : App) : App :=
  with_sessions (insert (token c) (mkSession (u_id u) (u_username u) (u_role u) now)) a.
Definition success (c : LoginCallIn) (u : User) : Phase :=
  Answered (Ok (LoggedIn (u_id u) (session_cookie insecure (token c) (remember (request c))))).

Lemma run_insert n clock c u a :
  run (S n) clock c (AtInsert u) a = (logs_in c u (clock 0) a, success c u).
Proof. cbn [login_run login_step]. apply run_answered. Qed.

(** From the one-time code on: success takes a step above the watermark. *)
Lemma run_totp clock c u key code a a' p id cookie :
  run 5 clock c (AtTotpLimit u key code) a = (a', p) -> p = Answered (Ok (LoggedIn id cookie)) ->
  exists step last a1,
    verify_totp_code_step hmac_sha1 (clock 1) key code = Some (Ok (Some step))
    /\ get_totp_last_step a (u_id u) = Some last /\ (last < step)%Z
    /\ users a1 = users (set_totp_last_step (u_id u) step a) /\ sessions a1 = sessions a
    /\ a' = logs_in c u (clock 4) a1 /\ p = success c u.
Proof.
  intros E ->. cbn [login_run] in E. destruct (login_step _ _ _ _ (clock 0) c _ a) as [a1 p1] eqn:E1.
  cbn [login_step] in E1. destruct (check_totp_rate_limit _ _ _) as [store ok]. injection E1 as <- <-.
  destruct ok; [|cbn in E; congruence]. cbn [login_step] in E.
  destruct (verify_totp_code_step hmac_sha1 (clock 1) key code) as [[[step|]|[]|]|] eqn:Ev; try (cbn in E; congruence).
  cbn [login_step] in E. change (get_totp_last_step (with_totp_attempts store a) (u_id u)) with (get_totp_last_step a (u_id u)) in E.
  destruct (get_totp_last_step a (u_id u)) as [last|] eqn:El; [|cbn in E; congruence].
  case_decide as Hle; [cbn in E; congruence|]. cbn [login_step] in E. injection E as <- <- <-.
  exists step, last, (set_totp_last_step (u_id u) step (with_totp_attempts store a)).
  split_and!; try done. lia.
Qed.

Definition factor_on (u : User) : bool :=
  match totp_key u with Some key => totp_verified u && negb (bool_decide (key = [])) | None => false end.

Lemma factor_off_on u : factor_off u -> factor_on u = false.
Proof.
  unfold factor_on. intros [->|[->| -> ]]; [done|by rewrite andb_false_r|]. by destruct (totp_key u).
Qed.

(** What a successful login went through; its steps read the clock three times
    without a second factor and seven times with one. *)
Definition logged_in (clock : nat -> Z) (c : LoginCallIn) (a a' : App) (u : User) (now : Z) (a1 : App) : Prop :=
  get_user_by_username a (l_username (request c)) = Some u /\ verified verify_password c u
  /\ now = clock (if factor_on u then 6 else 2)
  /\ a' = logs_in c u now a1 /\ sessions a1 = sessions a
  /\ ((factor_off u /\ users a1 = users a)
      \/ exists key code t step last,
           totp_key u = Some key /\ totp_code (request c) = Some code
           /\ verify_totp_code_step hmac_sha1 t key code = Some (Ok (Some step))
           /\ get_totp_last_step a (u_id u) = Some last /\ (last < step)%Z
           /\ users a1 = users (set_totp_last_step (u_id u) step a)).

Lemma run_first n clock c a :
  run (S n) clock c AtLimit a =
    let '(store, denied) := login_limit (clock 0) (l_username (request c)) (client_ip c) (login_attempts a) in
    run n (fun i => clock (S i)) c (match denied with Some _ => Answered (Err TooMany) | None => AtLookup end)
      (with_login_attempts store a).
Proof. cbn [login_run login_step]. by destruct (login_limit _ _ _ _). Qed.

Lemma run_second n clock c a :
  run (S n) clock c AtLookup a =
    let user_opt := get_user_by_username a (l_username (request c)) in
    let hash_to_check := match user_opt with Some u => password u | None => dummy_hash end in
    run n (fun i => clock (S i)) c
      (match verify_password (l_password (request c)) hash_to_check with
       | None => Answered (Err Internal)
       | Some valid =>
           match user_opt with
           | Some u => if valid && enabled u then second_factor u (totp_code (request c)) else Answered (Err Unauthorized)
           | None => Answered (Err Unauthorized)
           end
       end) a.
Proof. done. Qed.

Lemma second_factor_cases u code :
  (second_factor u code = AtInsert u /\ factor_off u)
  \/ (second_factor u code = Answered (Ok TotpRequired) /\ code = None)
  \/ exists key k, second_factor u code = AtTotpLimit u key k /\ totp_key u = Some key /\ code = Some k /\ factor_on u = true.
Proof.
  unfold second_factor, factor_off, factor_on. destruct (totp_key u) as [key|]; [|left; split; [done|by left]].
  destruct (totp_verified u); cbn [andb]; [|left; split; [done|right; by right]].
  case_bool_decide as Hk; cbn [negb]; [subst; left; split; [done|right; by left]|].
  right. destruct code as [k|]; [right; by exists key, k|by left].
Qed.

Lemma create_session_success clock c j a a' j' id cookie :
  create_session verify_password hmac_sha1 dummy_hash insecure clock c j a = (a', Ok (j', LoggedIn id cookie)) ->
  j' = add j cookie /\ cookie = session_cookie insecure (token c) (remember (request c))
  /\ exists u now a1, id = u_id u /\ logged_in clock c a a' u now a1.
Proof.
  unfold create_session. destruct (run 7 clock c AtLimit a) as [a2 p] eqn:E. intros Hr.
  assert (p = Answered (Ok (LoggedIn id cookie)) /\ a' = a2 /\ j' = add j cookie) as (Hp & -> & ->).
  { destruct p as [| | | | | | |[[]| |]]; try congruence. by injection Hr as <- <- <- <-. }
  clear Hr. split; [done|]. rewrite run_first in E.
  destruct (login_limit _ _ _ _) as [store [d|]]; [rewrite run_answered in E; congruence|].
  rewrite run_second in E. set (a0 := with_login_attempts store a) in E.
  change (get_user_by_username a0 (l_username (request c))) with (get_user_by_username a (l_username (request c))) in E.
  cbv zeta in E. destruct (get_user_by_username a (l_username (request c))) as [u|] eqn:Eu;
    [|by destruct (verify_password (l_password (request c)) dummy_hash); rewrite run_answered in E; congruence].
  destruct (verify_password (l_password (request c)) (password u)) as [valid|] eqn:Ev;
    [|rewrite run_answered in E; congruence].
  destruct (valid && enabled u) eqn:Een; [|rewrite run_answered in E; congruence].
  apply andb_true_iff in Een as [-> Een].
  assert (verified verify_password c u) as Hv by (split_and!; [done|done|by eapply get_user_table]).
  destruct (second_factor_cases u (totp_code (request c))) as [[E2 Hoff]|[[E2 _]|(key & code & E2 & Hk & Hc & Hon)]];
    rewrite E2 in E.
  - rewrite run_insert in E. injection E as <- E. rewrite Hp in E. unfold success in E. injection E as <- <-.
    split; [done|]. exists u, (clock 2), a0. split; [done|]. split_and!; try done; [by rewrite factor_off_on|by left].
  - rewrite run_answered in E. congruence.
  - destruct (run_totp _ _ _ _ _ _ _ _ _ _ E Hp) as (step & last & a1 & Hver & Hlast & Hlt & Hus & Hss & -> & Hp').
    rewrite Hp in Hp'. unfold success in Hp'. injection Hp' as -> ->. split; [done|].
    exists u, (clock 6), a1. split; [done|]. split_and!; try done; [by rewrite Hon|]. right. exists key, code, (clock 3), step, last. done.
Qed.

Lemma logged_in_watermark clock c a a' u now a1 :
  logged_in clock c a a' u now a1 ->
  factor_off u \/ exists key code t step last,
    totp_key u = Some key /\ totp_code (request c) = Some code
    /\ verify_totp_code_step hmac_sha1 t key code = Some (Ok (Some step))
    /\ get_totp_last_step a (u_id u) = Some last /\ (last < step)%Z /\ get_totp_last_step a' (u_id u) = Some step.
Proof.
  intros (_ & _ & _ & -> & _ & [[Hoff _]|(key & code & t & step & last & Hk & Hc & Hv & Hl & Hlt & Hu)]); [by left|].
  right. exists key, code, t, step, last. split_and!; try done.
  unfold get_totp_last_step in *. cbn. rewrite Hu. cbn. rewrite lookup_alter_eq.
  destruct (users a !! u_id u) as [u0|]; [|done]. cbn in *. injection Hl as Hl. by rewrite decide_True by lia.
Qed.

(** The rows are kept under their own numbers. *)
Definition users_ok (a : App) : Prop := forall k u, users a !! k = Some u -> u_id u = k.

Lemma get_user_row a n u : users_ok a -> get_user_by_username a n = Some u -> users a !! u_id u = Some u.
Proof.
  unfold get_user_by_username. intros Hok E.
  assert (u ∈ filter (fun u => u_username u = n) (snd <$> map_to_list (users a))) as Hu.
  { destruct (filter _ _); [done|]. injection E as ->. left. }
  apply list_elem_of_filter in Hu as [_ ([k u'] & -> & Hin)%list_elem_of_fmap].
  apply elem_of_map_to_list in Hin. cbn. by rewrite (Hok k u' Hin).
Qed.

Lemma logged_in_row clock c a a' u now a1 :
  users_ok a -> logged_in clock c a a' u now a1 ->
  exists u', users a' !! u_id u = Some u' /\ u_username u' = u_username u /\ factor_on u' = factor_on u.
Proof.
  intros Hok (Hu & _ & _ & -> & _ & Hcase). pose proof (get_user_row _ _ _ Hok Hu) as Hrow. cbn.
  destruct Hcase as [[_ ->]|(key & code & t & step & last & _ & _ & _ & _ & _ & ->)]; [by exists u|].
  cbn. rewrite lookup_alter_eq, Hrow. cbn. case_decide; by eexists.
Qed.
End login.

(** C30: Logins that come one after the other never use a one-time code twice: each
    that succeeds with the second factor on matched a step above every step used
    before, as long as nothing in between lowers the user's watermark. *)
Theorem totp_single_use verify_password hmac_sha1 dummy_hash insecure clock1 c1 j1 a1 a1' j1' clock2 c2 j2 a2 a2' j2' id k1 k2 :
  create_session verify_password hmac_sha1 dummy_hash insecure clock1 c1 j1 a1 = (a1', Ok (j1', LoggedIn id k1)) ->
  create_session verify_password hmac_sha1 dummy_hash insecure clock2 c2 j2 a2 = (a2', Ok (j2', LoggedIn id k2)) ->
  (forall l, get_totp_last_step a1' id = Some l -> exists l', get_totp_last_step a2 id = Some l' /\ l ≤ l')%Z ->
  exists u1 u2, get_user_by_username a1 (l_username (request c1)) = Some u1
    /\ get_user_by_username a2 (l_username (request c2)) = Some u2
    /\ (factor_off u1 \/ factor_off u2 \/ exists key1 key2 code1 code2 t1 t2 step1 step2,
          totp_key u1 = Some key1 /\ totp_code (request c1) = Some code1
          /\ verify_totp_code_step hmac_sha1 t1 key1 code1 = Some (Ok (Some step1))
          /\ totp_key u2 = Some key2 /\ totp_code (request c2) = Some code2
          /\ verify_totp_code_step hmac_sha1 t2 key2 code2 = Some (Ok (Some step2))
          /\ (step1 < step2)%Z).
Proof.
  intros E1 E2 Hle.
  destruct (create_session_success _ _ _ _ _ _ _ _ _ _ _ _ E1) as (_ & _ & u1 & n1 & b1 & -> & L1).
  destruct (create_session_success _ _ _ _ _ _ _ _ _ _ _ _ E2) as (_ & _ & u2 & n2 & b2 & Hid & L2).
  exists u1, u2. split; [apply L1|]. split; [apply L2|].
  destruct (logged_in_watermark _ _ _ _ _ _ _ _ _ L1) as [?|(key1 & code1 & t1 & s1 & l1 & ? & ? & ? & _ & _ & W1)]; [by left|].
  destruct (logged_in_watermark _ _ _ _ _ _ _ _ _ L2) as [?|(key2 & code2 & t2 & s2 & l2 & ? & ? & ? & W2 & Hlt & _)];
    [by right; left|].
  right; right. exists key1, key2, code1, code2, t1, t2, s1, s2. split_and!; try done.
  destruct (Hle _ W1) as (l' & Hl' & Hs). rewrite Hid, W2 in Hl'. injection Hl' as <-. lia.
Qed.

(** ** From login to logout *)

(** C11: The cookie of a successful login opens the session: sent back by a client
    it authenticates the user of that name until the session is older than the
    timeout, and no longer once the client has logged out.  The age counts from
    the login's last reading of the clock: the third without a second factor,
    the seventh with one. *)
Theorem login_session_life {H : HttpCrate} `{!HttpLaws H} verify_password hmac_sha1 dummy_hash insecure clock c j a a' j' id cookie :
  users_ok a -> Forall (fun x => graph x /\ x <> 59 /\ x <> 34)%Z (token c) ->
  create_session verify_password hmac_sha1 dummy_hash insecure clock c j a = (a', Ok (j', LoggedIn id cookie)) ->
  let jar := from_headers [(bstr "cookie", cookie_text [cookie])] in
  exists u,
    u_username u = l_username (request c) /\ users a' !! id = Some u
    /\ let login_time := clock (if factor_on u then 6 else 2) in
    (forall now, require_auth now jar a' =
          if decide (u64 (session_timeout a') < Z.max 0 (now - login_time))%Z then Err Unauthorized else Ok u)
    /\ (forall now, require_auth now jar (delete_session jar a').1 = Err Unauthorized).
Proof.
  intros Hok Htok E. cbn zeta.
  destruct (create_session_success _ _ _ _ _ _ _ _ _ _ _ _ E) as (_ & Hcookie & u & now0 & a1 & -> & L).
  destruct (logged_in_row _ _ _ _ _ _ _ _ _ Hok L) as (u' & Hrow & Hname & Hon).
  destruct L as (_ & (_ & _ & Hu) & Hnow & Ha' & _ & _). rewrite <- Hon in Hnow.
  assert (session_token (from_headers [(bstr "cookie", cookie_text [cookie])]) = Some (token c)) as Ht.
  { unfold session_token. rewrite get_from_headers.
    - subst cookie. unfold session_cookie. destruct (remember (request c)); done.
    - apply Forall_singleton. subst cookie. unfold session_cookie.
      destruct (remember (request c)); (split; [done|]; split; [by apply (bool_decide_unpack _)|done]).
    - done. }
  assert (sessions a' !! token c = Some (mkSession (u_id u) (u_username u) (u_role u) now0)) as Hs.
  { rewrite Ha'. cbn. by rewrite lookup_insert_eq. }
  exists u'. split; [congruence|]. split; [done|]. cbn zeta. rewrite <- Hnow. split; intros now; unfold require_auth; rewrite Ht.
  - rewrite Hs. unfold is_expired. cbn [user_id created_at]. rewrite Hrow. case_bool_decide; case_decide; done.
  - unfold session_token in Ht. unfold delete_session. destruct (get _ COOKIE_NAME) as [k|]; [|done].
    injection Ht as ->. cbn. by rewrite lookup_delete_eq.
Qed.

(** ** Concrete runs *)

(** The steps of the logins in the order of a schedule. *)
Fixpoint schedule verify_password hmac_sha1 dummy_hash insecure (now : Z) (turns : list nat) (w : World) : World :=
  match turns with
  | [] => w
  | i :: turns =>
      schedule verify_password hmac_sha1 dummy_hash insecure now turns
        match logins w !! i with
        | Some (c, p) =>
            let '(a, p) := login_step verify_password hmac_sha1 dummy_hash insecure now c p (app w) in
            mkWorld a (<[i := (c, p)]> (logins w)) ((i, now, app w) :: past w)
        | None => w
        end
  end.

Lemma schedule_steps verify_password hmac_sha1 dummy_hash insecure now turns w :
  rtc (world_step verify_password hmac_sha1 dummy_hash insecure) w
    (schedule verify_password hmac_sha1 dummy_hash insecure now turns w).
Proof.
  revert w. induction turns as [|i turns IH]; intros w; [done|]. cbn [schedule].
  destruct (logins w !! i) as [[c p]|] eqn:Hi; [|apply IH].
  destruct (login_step _ _ _ _ now c p (app w)) as [a p'] eqn:E. eapply rtc_l; [by eapply advance|apply IH].
Qed.

(** Passwords stored as they are. *)
Definition same_password (pw hash : bytes) : option bool := Some (bool_decide (pw = hash)).

Definition alice : User :=
  mkUser 1 (bstr "alice") (bstr "correct horse") None (bstr "Alice") 1 (Some (bstr "ME")) true 0 true.
Definition site : App := mkApp ∅ ∅ ∅ {[1%Z := alice]} 3600.

(** A login at about second 300 + 30 k with the code of step 10 + k. *)
Definition alice_login (code tok : string) : LoginCallIn :=
  mkCall (mkLogin (bstr "alice") (bstr "correct horse") false (Some (bstr code))) None (bstr tok).
Definition first_login : LoginCallIn := alice_login "772160" "aaaa".
Definition second_login : LoginCallIn := alice_login "549376" "bbbb".
Definition race_login : LoginCallIn := alice_login "772160" "cccc".

Abbreviation site_schedule := (schedule same_password counter_mac [] false 300%Z).
Abbreviation site_login := (create_session same_password counter_mac [] false).

(** One code opens two sessions when both logins read the watermark before either
    of them raises it. *)
Definition race_start : World := mkWorld site [(first_login, AtLimit); (race_login, AtLimit)] [].
Definition race : World := site_schedule [0; 0; 0; 0; 0; 1; 1; 1; 1; 1; 0; 0; 1; 1] race_start.

Lemma one_code_two_sessions :
  rtc (world_step same_password counter_mac [] false) race_start race
  /\ totp_code (request first_login) = totp_code (request race_login)
  /\ user_id <$> sessions (app race) !! bstr "aaaa" = Some 1%Z
  /\ user_id <$> sessions (app race) !! bstr "cccc" = Some 1%Z.
Proof. split; [apply schedule_steps|]. split_and!; by vm_compute. Qed.

Lemma sessions_are_earned_witness :
  exists i c u t t0 a0 row, logins race !! i = Some (c, Answered (Ok (LoggedIn (u_id u) (session_cookie false (bstr "cccc") (remember (request c))))))
    /\ mkSession 1 (bstr "alice") 1 300 = mkSession (u_id u) (u_username u) (u_role u) t
    /\ (i, t0, a0) ∈ past race /\ users a0 !! row = Some u /\ enabled u = true.
Proof.
  destruct (sessions_are_earned same_password counter_mac [] false site race (bstr "cccc")
            (mkSession 1 (bstr "alice") 1 300)) as (i & c & u & t & b & Hi & _ & Es & _ & (t0 & a0 & row & H0 & Hrow & _ & He & _) & _).
  - eapply rtc_l; [apply (arrive _ _ _ _ _ first_login)|]. eapply rtc_l; [apply (arrive _ _ _ _ _ race_login)|].
    exact (schedule_steps same_password counter_mac [] false 300 _ race_start).
  - by vm_compute.
  - exists i, c, u, t, t0, a0, row. split_and!; [exact Hi|exact Es|exact H0|exact Hrow|exact He].
Defined.

(** Two logins half a minute apart, and what they leave. *)
Definition no_cookies : CookieJar := mkJar [] [].
Definition first_run : App * reply (CookieJar * LoginReply) := site_login (fun i => 300 + Z.of_nat i)%Z first_login no_cookies site.
Definition second_run : App * reply (CookieJar * LoginReply) :=
  site_login (fun _ => 330%Z) second_login no_cookies first_run.1.
Definition cookie_of (c : LoginCallIn) : Cookie := session_cookie false (token c) (remember (request c)).

Lemma first_run_ok : first_run = (first_run.1, Ok (add no_cookies (cookie_of first_login), LoggedIn 1 (cookie_of first_login))).
Proof. vm_compute. reflexivity. Qed.

Lemma second_run_ok :
  second_run = (second_run.1, Ok (add no_cookies (cookie_of second_login), LoggedIn 1 (cookie_of second_login))).
Proof. vm_compute. reflexivity. Qed.

(** The code of the first is refused when it comes again. *)
Example replay_refused : (site_login (fun _ => 305%Z) race_login no_cookies first_run.1).2 = Err Unauthorized.
Proof. by vm_compute. Qed.

Lemma totp_single_use_witness :
  exists u1 u2, get_user_by_username site (bstr "alice") = Some u1
    /\ get_user_by_username first_run.1 (bstr "alice") = Some u2 /\ totp_last_step u2 = 10%Z.
Proof.
  destruct (totp_single_use same_password counter_mac [] false _ _ _ _ _ _ _ _ _ _ _ _ 1%Z _ _ first_run_ok second_run_ok)
    as (u1 & u2 & H1 & H2 & _).
  - intros l Hl. exists l. split; [exact Hl|lia].
  - exists u1, u2. split; [exact H1|]. split; [exact H2|].
    assert (totp_last_step <$> get_user_by_username first_run.1 (bstr "alice") = Some 10%Z) as E by by vm_compute.
    change (get_user_by_username first_run.1 (bstr "alice") = Some u2) in H2. rewrite H2 in E. by injection E.
Defined.

#[local] Existing Instance ascii_crate.
#[local] Existing Instance ascii_crate_laws.

Definition alice_jar : CookieJar := from_headers [(bstr "cookie", cookie_text [cookie_of first_login])].

Lemma login_session_life_witness :
  exists u, u_username u = bstr "alice"
    /\ (forall now, require_auth now alice_jar first_run.1 =
          if decide (3600 < Z.max 0 (now - 306))%Z then Err Unauthorized else Ok u).
Proof.
  destruct (login_session_life same_password counter_mac [] false (fun i => 300 + Z.of_nat i)%Z first_login no_cookies site
              first_run.1 (add no_cookies (cookie_of first_login)) 1%Z (cookie_of first_login)) as (u & Hu & Hrow & Hlife & _).
  - intros k u. unfold site. cbn [users]. rewrite lookup_singleton_Some. by intros [<- <-].
  - apply (bool_decide_unpack _). vm_compute. exact I.
  - exact first_run_ok.
  - assert (factor_on <$> users first_run.1 !! 1%Z = Some true) as Hon by by vm_compute.
    rewrite Hrow in Hon. cbn in Hon. injection Hon as Hon. rewrite Hon in Hlife.
    exists u. split; [exact Hu|]. exact Hlife.
Defined.

Lemma change_password_evicts_witness :
  exists u, require_auth 400 alice_jar (app race) = Ok u
    /\ forall tok, sessions (change_password same_password (fun _ pw => pw) 400 [] alice_jar
            (bstr "correct horse") (bstr "battery staple") None (app race)).1 !! tok =
          (s ← sessions (app race) !! tok;
           if decide (user_id s <> u_id u \/ session_token alice_jar = Some tok) then Some s else None).
Proof.
  destruct (change_password_evicts same_password (fun _ pw => pw) 400 [] alice_jar
              (bstr "correct horse") (bstr "battery staple") None (app race) _ (Ok tt)
              ltac:(rewrite (surjective_pairing (change_password _ _ _ _ _ _ _ _ _)); f_equal; by vm_compute))
    as [_ H].
  destruct (H eq_refl) as (u & Hu & _ & _ & _ & Hs). exists u. split; [exact Hu|exact Hs].
Defined.
