(* ===== verification/NetAddr.v ===== *)
(** * Internet addresses of the standard library

    [cidr.rs], [db.rs] and [firewall.rs] parse and print [Ipv4Addr] and
    [Ipv6Addr]: the readers of the standard library, which take a prefix of their
    input, the printers, and that they are inverse.  An address is its number. *)
From S2P Require Import Prelude Text.

(** ** Numbers *)

Definition DOT : Z := 46.
Definition COLON : Z := 58.

(** [char::to_digit]. *)
Definition to_digit (radix c : Z) : option Z :=
  d ← hex_value c; if decide (d < radix)%Z then Some d else None.

Fixpoint span_digits (radix : Z) (s : bytes) : list Z * bytes :=
  match s with
  | c :: s' =>
      match to_digit radix c with
      | Some d => let '(ds, r) := span_digits radix s' in (d :: ds, r)
      | None => ([], s)
      end
  | [] => ([], [])
  end.

(** Digits, the most significant first, and the number they write. *)
Definition of_base (b : Z) (ds : list Z) : Z := foldl (fun n d => n * b + d)%Z 0%Z ds.
Definition to_base (b : Z) (k : nat) (a : Z) : list Z :=
  (fun i => a / b ^ Z.of_nat (k - 1 - i) mod b)%Z <$> seq 0 k.

(** [read_number]: at least one and at most [max_digits] digits. *)
Definition read_number (radix : Z) (max_digits : nat) (allow_zero_prefix : bool) (max : Z) (s : bytes)
    : option (Z * bytes) :=
  let '(ds, r) := span_digits radix s in
  if decide (max_digits < length ds) then None
  else if decide (ds = []) then None
  else if negb allow_zero_prefix && bool_decide (head ds = Some 0%Z) && bool_decide (1 < length ds) then None
  else if decide (of_base radix ds ≤ max)%Z then Some (of_base radix ds, r) else None.

Definition read_given_char (c : Z) (s : bytes) : option bytes :=
  match s with x :: s => if decide (x = c) then Some s else None | [] => None end.

(** The separator stands before every element but the first. *)
Definition read_separator {A} (sep : Z) (first : bool) (inner : bytes -> option (A * bytes)) (s : bytes)
    : option (A * bytes) :=
  if first then inner s else s ← read_given_char sep s; inner s.

(** ** IPv4 *)

Definition of_octets (os : list Z) : Z := of_base 256 os.
Definition octets (a : Z) : list Z := to_base 256 4 a.

Fixpoint read_octets (k : nat) (first : bool) (s : bytes) : option (list Z * bytes) :=
  match k with
  | O => Some ([], s)
  | S k =>
      '(o, s) ← read_separator DOT first (read_number 10 3 false 255) s;
      '(os, s) ← read_octets k false s;
      Some (o :: os, s)
  end.

Definition read_ipv4_addr (s : bytes) : option (Z * bytes) :=
  '(os, s) ← read_octets 4 true s; Some (of_octets os, s).

(** The whole input. *)
Definition parse_with {A} (inner : bytes -> option (A * bytes)) (s : bytes) : option A :=
  '(a, r) ← inner s; if decide (r = []) then Some a else None.

Definition parse_ipv4 (s : bytes) : option Z :=
  if decide (15 < length s) then None else parse_with read_ipv4_addr s.

Definition show_ipv4 (a : Z) : bytes := join_with DOT (decimal <$> octets a).

(** ** IPv6 *)

Definition of_segments (gs : list Z) : Z := of_base 65536 gs.
Definition segments (a : Z) : list Z := to_base 65536 8 a.

(** The groups that were read, whether they end in an IPv4 address, and the rest;
    such an address needs room for two groups. *)
Fixpoint read_groups (k : nat) (first : bool) (s : bytes) : list Z * bool * bytes :=
  match k with
  | O => ([], false, s)
  | S k =>
      match (if decide (k = 0) then None else read_separator COLON first read_ipv4_addr s) with
      | Some (a, s) => ([a / 65536; a mod 65536]%Z, true, s)
      | None =>
          match read_separator COLON first (read_number 16 4 true 65535) s with
          | Some (g, s) => let '(gs, v4, s) := read_groups k false s in (g :: gs, v4, s)
          | None => ([], false, s)
          end
      end
  end.

Definition read_ipv6_addr (s : bytes) : option (Z * bytes) :=
  let '(head, head_ipv4, s) := read_groups 8 true s in
  if decide (length head = 8) then Some (of_segments head, s) else
  if head_ipv4 then None else
  s ← read_given_char COLON s;
  s ← read_given_char COLON s;
  let '(tail, _, s) := read_groups (8 - (length head + 1)) true s in
  Some (of_segments (head ++ replicate (8 - length head - length tail) 0%Z ++ tail), s).

Definition parse_ipv6 (s : bytes) : option Z := parse_with read_ipv6_addr s.

(** [{:x}] of a group. *)
Definition hex_lower (d : Z) : Z := if decide (d < 10)%Z then (48 + d)%Z else (87 + d)%Z.
Fixpoint hex_go (fuel : nat) (n : Z) (acc : bytes) : bytes :=
  match fuel with
  | O => acc
  | S fuel =>
      let acc := hex_lower (n mod 16) :: acc in
      if decide (n / 16 = 0)%Z then acc else hex_go fuel (n / 16) acc
  end.
Definition hex (n : Z) : bytes := hex_go 4 n [].

(** The first longest run of zero groups: start and length. *)
Definition zero_step (st : nat * (nat * nat) * (nat * nat)) (g : Z) : nat * (nat * nat) * (nat * nat) :=
  let '(i, current, longest) := st in
  if decide (g = 0%Z) then
    let start := if decide (snd current = 0) then i else fst current in
    let current := (start, S (snd current)) in
    (S i, current, if decide (snd longest < snd current) then current else longest)
  else (S i, (0, 0), longest).
Definition zeroes (gs : list Z) : nat * nat := snd (foldl zero_step (0, (0, 0), (0, 0)) gs).

Definition fmt_subslice (gs : list Z) : bytes := join_with COLON (hex <$> gs).

(** [to_ipv4_mapped]. *)
Definition to_ipv4_mapped (a : Z) : option Z :=
  if decide (a / 2 ^ 32 = 65535)%Z then Some (a mod 2 ^ 32)%Z else None.

Definition show_ipv6 (a : Z) : bytes :=
  match to_ipv4_mapped a with
  | Some v4 => bstr "::ffff:" ++ show_ipv4 v4
  | None =>
      let gs := segments a in
      let '(start, len) := zeroes gs in
      if decide (1 < len) then
        fmt_subslice (take start gs) ++ [COLON; COLON] ++ fmt_subslice (drop (start + len) gs)
      else fmt_subslice gs
  end.

(** ** Either family *)

Inductive IpAddr : Set := V4 (a : Z) | V6 (a : Z).
#[export] Instance IpAddr_eq_dec : EqDecision IpAddr.
Proof. solve_decision. Defined.

Definition read_ip_addr (s : bytes) : option (IpAddr * bytes) :=
  match read_ipv4_addr s with
  | Some (a, r) => Some (V4 a, r)
  | None => '(a, r) ← read_ipv6_addr s; Some (V6 a, r)
  end.
Definition parse_ip (s : bytes) : option IpAddr := parse_with read_ip_addr s.

Definition show_ip (a : IpAddr) : bytes := match a with V4 a => show_ipv4 a | V6 a => show_ipv6 a end.

Example parse_examples :
  (parse_ipv4 (bstr "10.8.0.1"), parse_ipv4 (bstr "10.08.0.1"), parse_ipv4 (bstr "999.0.0.1"),
   parse_ipv6 (bstr "fd00::5:1"), show_ipv6 <$> parse_ipv6 (bstr "0:0:0:0:0:ffff:1.2.3.4"),
   show_ipv6 <$> parse_ipv6 (bstr "1:0:0:2:0:0:0:3"), parse_ipv6 (bstr "1::2::3"), parse_ipv6 (bstr "1:2:3:4:5:6:7:8:9"))
  = (Some 168296449%Z, None, None, Some (0xfd00 * 2 ^ 112 + 5 * 65536 + 1)%Z, Some (bstr "::ffff:1.2.3.4"),
     Some (bstr "1:0:0:2::3"), None, None).
Proof. by vm_compute. Qed.

(** ** Digits *)

Lemma of_base_app b l1 l2 : of_base b (l1 ++ l2) = (of_base b l1 * b ^ Z.of_nat (length l2) + of_base b l2)%Z.
Proof.
  unfold of_base. rewrite foldl_app. generalize (foldl (fun n d => n * b + d)%Z 0%Z l1). intros n.
  assert (forall m l, foldl (fun n d => n * b + d)%Z m l = (m * b ^ Z.of_nat (length l) + foldl (fun n d => n * b + d)%Z 0%Z l)%Z)
    as H; [|apply H].
  intros m l. revert m. induction l as [|d l IH]; intros m; cbn [foldl length]; [lia|].
  rewrite (IH (m * b + d)%Z), (IH (0 * b + d)%Z), Nat2Z.inj_succ, Z.pow_succ_r by lia. lia.
Qed.

Lemma of_base_snoc b l d : of_base b (l ++ [d]) = (of_base b l * b + d)%Z.
Proof. unfold of_base. by rewrite foldl_app. Qed.

Lemma of_base_range b ds : (0 < b)%Z -> Forall (fun d => 0 ≤ d < b)%Z ds -> (0 ≤ of_base b ds < b ^ Z.of_nat (length ds))%Z.
Proof.
  intros Hb. induction ds as [|d ds IH] using rev_ind; [cbn; lia|]. intros [Hds Hd]%Forall_app.
  rewrite Forall_singleton in Hd. rewrite of_base_snoc, length_app, Nat2Z.inj_add, Z.pow_add_r by lia. specialize (IH Hds).
  change (Z.of_nat (length [d])) with 1%Z. rewrite Z.pow_1_r. nia.
Qed.

Lemma to_base_S b k a : (0 < b)%Z -> to_base b (S k) a = to_base b k (a / b) ++ [(a mod b)%Z].
Proof.
  intros Hb. unfold to_base. rewrite seq_S, fmap_app. f_equal.
  - apply list_fmap_ext. intros i x Hx. apply lookup_seq in Hx as [-> Hi]. cbn [Nat.add].
    replace (Z.of_nat (S k - 1 - i)) with (1 + Z.of_nat (k - 1 - i))%Z by lia.
    rewrite Z.pow_add_r, Z.pow_1_r by lia. rewrite Z.div_div by lia. done.
  - cbn [fmap list_fmap Nat.add]. replace (S k - 1 - k) with 0 by lia.
    change (Z.of_nat 0) with 0%Z. by rewrite Z.pow_0_r, Z.div_1_r.
Qed.

Lemma of_to_base b k a : (0 < b)%Z -> of_base b (to_base b k a) = (a mod b ^ Z.of_nat k)%Z.
Proof.
  intros Hb. revert a. induction k as [|k IH]; intros a; [cbn; by rewrite Z.mod_1_r|].
  rewrite to_base_S, of_base_snoc, IH by done. rewrite Nat2Z.inj_succ, Z.pow_succ_r, Z.rem_mul_r by lia. lia.
Qed.

Lemma to_base_digits b k a : (0 < b)%Z -> Forall (fun d => 0 ≤ d < b)%Z (to_base b k a).
Proof. intros Hb. apply Forall_fmap, Forall_true. intros i. cbn. by apply Z.mod_pos_bound. Qed.

Lemma length_to_base b k a : length (to_base b k a) = k.
Proof. unfold to_base. by rewrite length_fmap, length_seq. Qed.

(** ** Reading what was printed *)

Definition stops (radix : Z) (r : bytes) : Prop := match r with c :: _ => to_digit radix c = None | [] => True end.

Lemma span_digits_app radix p r ds :
  span_digits radix p = (ds, []) -> stops radix r -> span_digits radix (p ++ r) = (ds, r).
Proof.
  intros Hp Hr. revert ds Hp. induction p as [|c p IH]; intros ds; cbn [span_digits app].
  - intros [= <-]. destruct r as [|c r]; [done|]. cbn in *. by rewrite Hr.
  - destruct (to_digit radix c); [|done]. destruct (span_digits radix p) as [ds' r'].
    intros [= <- ->]. by rewrite (IH _ eq_refl).
Qed.

Definition printed_number (radix : Z) (max_digits : nat) (allow : bool) (max : Z) (p : bytes) (n : Z) : bool :=
  bool_decide (read_number radix max_digits allow max p = Some (n, [])).

Lemma read_number_app radix max_digits allow max p n r :
  printed_number radix max_digits allow max p n = true -> stops radix r ->
  read_number radix max_digits allow max (p ++ r) = Some (n, r).
Proof.
  unfold printed_number. intros Hp%bool_decide_eq_true Hr. unfold read_number in *.
  destruct (span_digits radix p) as [ds r'] eqn:E. repeat (case_match; [done|]). case_decide; [|done].
  injection Hp as <- ->. rewrite (span_digits_app _ _ _ _ E Hr). repeat (rewrite decide_False by done).
  match goal with H : _ && _ && _ = false |- _ => rewrite H end. by rewrite decide_True.
Qed.

Lemma read_octet o r : (0 ≤ o < 256)%Z -> stops 10 r -> read_number 10 3 false 255 (decimal o ++ r) = Some (o, r).
Proof.
  intros Ho. apply read_number_app. revert o Ho.
  apply (forall_below (fun o => printed_number 10 3 false 255 (decimal o) o) 256). by vm_compute.
Qed.

Lemma to_digit_hex d : (0 ≤ d < 16)%Z -> to_digit 16 (hex_lower d) = Some d.
Proof. apply (forall_below_dec (fun d => to_digit 16 (hex_lower d) = Some d) 16). by vm_compute. Qed.

Lemma hex_go_spec fuel n acc ds :
  (0 ≤ n < 16 ^ Z.of_nat (S fuel))%Z -> span_digits 16 acc = (ds, []) ->
  exists ds', span_digits 16 (hex_go (S fuel) n acc) = (ds' ++ ds, []) /\ of_base 16 ds' = n
    /\ 0 < length ds' ≤ S fuel.
Proof.
  revert n acc ds. induction fuel as [|fuel IH]; intros n acc ds Hn Hacc.
  - exists [n]. cbn [hex_go]. rewrite Z.mod_small by lia.
    assert (span_digits 16 (hex_lower n :: acc) = (n :: ds, [])) as E
      by (cbn [span_digits]; rewrite to_digit_hex by lia; by rewrite Hacc).
    rewrite decide_True by (apply Z.div_small; lia). rewrite E. cbn. split_and!; (done || lia).
  - remember (S fuel) as k. cbn [hex_go].
    assert (span_digits 16 (hex_lower (n mod 16) :: acc) = ((n mod 16)%Z :: ds, [])) as E
      by (cbn [span_digits]; rewrite to_digit_hex by (apply Z.mod_pos_bound; lia); by rewrite Hacc).
    pose proof (Z.div_mod n 16 ltac:(lia)). case_decide as H0.
    + exists [(n mod 16)%Z]. rewrite E. cbn. split_and!; (done || lia).
    + rewrite Nat2Z.inj_succ, Z.pow_succ_r in Hn by lia. subst k.
      destruct (IH (n / 16)%Z _ _ ltac:(split; [apply Z.div_pos; lia|apply Z.div_lt_upper_bound; lia]) E)
        as (ds' & E' & Hv & Hl).
      exists (ds' ++ [(n mod 16)%Z]). rewrite <- app_assoc, of_base_snoc, Hv, length_app. cbn [length app].
      split_and!; [done|lia..].
Qed.

Lemma read_group g r : (0 ≤ g < 65536)%Z -> stops 16 r -> read_number 16 4 true 65535 (hex g ++ r) = Some (g, r).
Proof.
  intros Hg. apply read_number_app. unfold printed_number. apply bool_decide_eq_true_2.
  destruct (hex_go_spec 3 g [] [] Hg eq_refl) as (ds & E & Hv & Hl). unfold read_number, hex. rewrite E, app_nil_r, Hv.
  rewrite decide_False by lia. rewrite decide_False by (intros ->; cbn in Hl; lia). cbn [negb andb].
  by rewrite decide_True by lia.
Qed.

Lemma read_given c s : read_given_char c (c :: s) = Some s.
Proof. cbn. by rewrite decide_True. Qed.

Definition sep_text (sep : Z) (ts : list bytes) : bytes := mjoin (cons sep <$> ts).

Lemma join_sep sep t ts : join_with sep (t :: ts) = t ++ sep_text sep ts.
Proof.
  revert t. induction ts as [|t' ts IH]; intros t; [by rewrite app_nil_r|].
  change (join_with sep (t :: t' :: ts)) with (t ++ sep :: join_with sep (t' :: ts)). by rewrite IH.
Qed.

Lemma stops_sep radix sep ts r : to_digit radix sep = None -> stops radix r -> stops radix (sep_text sep ts ++ r).
Proof. by destruct ts. Qed.

Lemma read_octets_text os r :
  Forall (fun o => 0 ≤ o < 256)%Z os -> stops 10 r ->
  read_octets (length os) false (sep_text DOT (decimal <$> os) ++ r) = Some (os, r).
Proof.
  intros Hos Hr. induction Hos as [|o os Ho _ IH]; [done|]. cbn [length read_octets].
  change (sep_text DOT (decimal <$> o :: os)) with ((DOT :: decimal o) ++ sep_text DOT (decimal <$> os)).
  rewrite <- app_assoc. cbn [app read_separator read_given_char]. rewrite decide_True by done. cbn [mbind option_bind].
  rewrite read_octet by (done || by apply stops_sep). cbn [mbind option_bind]. by rewrite IH.
Qed.

Lemma read_octets_first os r :
  os <> [] -> Forall (fun o => 0 ≤ o < 256)%Z os -> stops 10 r ->
  read_octets (length os) true (join_with DOT (decimal <$> os) ++ r) = Some (os, r).
Proof.
  intros Hne Hos Hr. destruct Hos as [|o os Ho Hos]; [done|]. rewrite fmap_cons, join_sep, <- app_assoc.
  cbn [length read_octets read_separator]. rewrite read_octet by (done || by apply stops_sep).
  cbn [mbind option_bind]. by rewrite read_octets_text.
Qed.

Lemma octets_spec a :
  length (octets a) = 4 /\ Forall (fun o => 0 ≤ o < 256)%Z (octets a) /\ of_octets (octets a) = (a mod 2 ^ 32)%Z.
Proof. split_and!; [apply length_to_base|by apply to_base_digits|by apply (of_to_base 256 4)]. Qed.

Lemma read_show_ipv4 a r : (0 ≤ a < 2 ^ 32)%Z -> stops 10 r -> read_ipv4_addr (show_ipv4 a ++ r) = Some (a, r).
Proof.
  intros Ha Hr. destruct (octets_spec a) as (Hl & Hd & Hv). unfold read_ipv4_addr, show_ipv4.
  rewrite <- Hl, read_octets_first by (done || by intros E; rewrite E in Hl). cbn [mbind option_bind].
  by rewrite Hv, Z.mod_small.
Qed.

Lemma parse_with_whole {A} (inner : bytes -> option (A * bytes)) s a :
  inner s = Some (a, []) -> parse_with inner s = Some a.
Proof. unfold parse_with. intros ->. cbn [mbind option_bind]. by rewrite decide_True. Qed.

Lemma parse_with_inv {A} (inner : bytes -> option (A * bytes)) s a :
  parse_with inner s = Some a -> inner s = Some (a, []).
Proof.
  unfold parse_with. destruct (inner s) as [[a' r]|]; [|done]. cbn [mbind option_bind]. case_decide; [|done].
  intros [= <-]. by subst.
Qed.

Lemma length_octet o : (0 ≤ o < 256)%Z -> length (decimal o) ≤ 3.
Proof. apply (forall_below_dec (fun o => length (decimal o) ≤ 3) 256). by vm_compute. Qed.

Lemma length_show_ipv4 a : length (show_ipv4 a) ≤ 15.
Proof.
  destruct (octets_spec a) as (Hl & Hd & _). unfold show_ipv4.
  destruct (octets a) as [|o0 [|o1 [|o2 [|o3 [|]]]]]; try done. rewrite !Forall_cons in Hd.
  destruct Hd as (H0%length_octet & H1%length_octet & H2%length_octet & H3%length_octet & _).
  rewrite fmap_cons, join_sep. cbn. rewrite !length_app. cbn [length]. rewrite !length_app. cbn [length].
  rewrite !length_app. cbn [length]. rewrite app_nil_r. lia.
Qed.

Lemma parse_show_ipv4 a : (0 ≤ a < 2 ^ 32)%Z -> parse_ipv4 (show_ipv4 a) = Some a.
Proof.
  intros Ha. unfold parse_ipv4. rewrite decide_False by (pose proof (length_show_ipv4 a); lia).
  apply parse_with_whole. pose proof (read_show_ipv4 a [] Ha I) as H. by rewrite app_nil_r in H.
Qed.

(** A group of hexadecimal digits is not the start of an IPv4 address. *)
Lemma span_digits_rest radix p r ds r' :
  Forall (fun c => c <> DOT) p -> stops radix r -> head r <> Some DOT ->
  span_digits radix (p ++ r) = (ds, r') -> head r' <> Some DOT.
Proof.
  intros Hp Hr Hd. revert ds. induction Hp as [|c p Hc _ IH]; intros ds; cbn [app span_digits].
  - destruct r as [|c r]; cbn in *; [by intros [= _ <-]|]. rewrite Hr. by intros [= _ <-].
  - destruct (to_digit radix c); [|intros [= _ <-]; cbn; congruence].
    destruct (span_digits radix (p ++ r)) as [ds' r1] eqn:E. intros [= _ <-]. by eapply IH.
Qed.

Lemma stops_16_10 r : stops 16 r -> stops 10 r.
Proof.
  destruct r as [|c r]; [done|]. cbn. unfold to_digit. destruct (hex_value c) as [d|] eqn:E; [|done]. cbn.
  apply hex_value_range in E. case_decide; [done|lia].
Qed.

Lemma span_all_digits radix p ds : span_digits radix p = (ds, []) -> Forall (fun c => is_Some (to_digit radix c)) p.
Proof.
  revert ds. induction p as [|c p IH]; intros ds; [constructor|]. cbn [span_digits].
  destruct (to_digit radix c) eqn:E; [|done]. destruct (span_digits radix p) as [ds' r'].
  intros [= _ ->]. constructor; [by eexists|by eapply IH].
Qed.

Lemma hex_digits g : (0 ≤ g < 65536)%Z -> Forall (fun c => is_Some (to_digit 16 c)) (hex g).
Proof. intros Hg. destruct (hex_go_spec 3 g [] [] Hg eq_refl) as (ds & E & _). by eapply span_all_digits. Qed.

Lemma hex_plain g : (0 ≤ g < 65536)%Z -> Forall (fun c => c <> DOT /\ c <> COLON) (hex g).
Proof.
  intros Hg. eapply Forall_impl; [by apply hex_digits|]. intros c [d Hd]. split; intros ->; by vm_compute in Hd.
Qed.

Lemma no_ipv4 g r :
  (0 ≤ g < 65536)%Z -> stops 16 r -> head r <> Some DOT -> read_ipv4_addr (hex g ++ r) = None.
Proof.
  intros Hg Hr Hd. unfold read_ipv4_addr. cbn [read_octets read_separator].
  destruct (read_number 10 3 false 255 (hex g ++ r)) as [[o s]|] eqn:E; [|done]. cbn [mbind option_bind].
  assert (read_given_char DOT s = None) as ->; [|done].
  unfold read_number in E. destruct (span_digits 10 (hex g ++ r)) as [ds s'] eqn:Es.
  repeat (case_match; [done|]). case_decide; [|done]. injection E as _ ->.
  apply span_digits_rest in Es; [|eapply Forall_impl; [by apply hex_plain|by intros ? []]|by apply stops_16_10|done].
  destruct s as [|c s]; [done|]. cbn in *. rewrite decide_False by congruence. done.
Qed.

(** What may come after a group: the end, or a separator. *)
Definition after_group (r : bytes) : Prop := match r with [] => True | c :: _ => c = COLON end.

Lemma after_group_stops r : after_group r -> stops 16 r /\ head r <> Some DOT.
Proof. destruct r as [|c r]; [done|]. intros ->. by split. Qed.

Lemma after_group_text gs r : after_group r -> after_group (sep_text COLON (hex <$> gs) ++ r).
Proof. by destruct gs. Qed.

Lemma read_groups_one k first g r :
  (0 ≤ g < 65536)%Z -> after_group r ->
  read_groups (S k) first ((if first then [] else [COLON]) ++ hex g ++ r)
  = (let '(gs, v4, s) := read_groups k false r in (g :: gs, v4, s)).
Proof.
  intros Hg Hr. destruct (after_group_stops r Hr) as [Hs Hd].
  assert (forall A (inner : bytes -> option (A * bytes)),
    read_separator COLON first inner ((if first then [] else [COLON]) ++ hex g ++ r) = inner (hex g ++ r)) as E.
  { intros A inner. by destruct first. }
  cbn [read_groups]. rewrite !E, no_ipv4 by done. destruct (decide (k = 0)); by rewrite read_group.
Qed.

Lemma read_groups_text k gs r :
  Forall (fun g => 0 ≤ g < 65536)%Z gs -> after_group r ->
  read_groups (length gs + k) false (sep_text COLON (hex <$> gs) ++ r)
  = (let '(gs', v4, s) := read_groups k false r in (gs ++ gs', v4, s)).
Proof.
  intros Hgs Hr. induction Hgs as [|g gs Hg _ IH]; [cbn; by destruct (read_groups k false r) as [[] ]|].
  change (sep_text COLON (hex <$> g :: gs)) with ([COLON] ++ hex g ++ sep_text COLON (hex <$> gs)).
  rewrite <- !app_assoc. change (length (g :: gs) + k) with (S (length gs + k)).
  rewrite (read_groups_one _ false) by (done || by apply after_group_text). rewrite IH.
  by destruct (read_groups k false r) as [[] ].
Qed.

(** A whole slice in front of what may follow it. *)
Lemma read_groups_slice k gs r :
  Forall (fun g => 0 ≤ g < 65536)%Z gs -> gs <> [] -> after_group r ->
  read_groups (length gs + k) true (fmt_subslice gs ++ r)
  = (let '(gs', v4, s) := read_groups k false r in (gs ++ gs', v4, s)).
Proof.
  intros Hgs Hne Hr. destruct Hgs as [|g gs Hg Hgs]; [done|]. unfold fmt_subslice. rewrite fmap_cons, join_sep, <- app_assoc.
  change (length (g :: gs) + k) with (S (length gs + k)).
  etransitivity; [exact (read_groups_one (length gs + k) true g _ Hg (after_group_text _ _ Hr))|].
  rewrite read_groups_text by done.
  by destruct (read_groups k false r) as [[] ].
Qed.

Lemma read_groups_end k first : read_groups k first [] = ([], false, []).
Proof. destruct k as [|k]; [done|]. by destruct first; cbn; destruct (decide (k = 0)). Qed.

Lemma read_groups_gap k first r :
  read_groups k first (COLON :: (if first then r else COLON :: r)) = ([], false, COLON :: (if first then r else COLON :: r)).
Proof. destruct k as [|k]; [done|]. by destruct first; cbn; destruct (decide (k = 0)). Qed.

(** A run of zero groups. *)
Definition zero_run (gs : list Z) (span : nat * nat) : Prop :=
  fst span + snd span ≤ length gs /\ forall j, fst span ≤ j < fst span + snd span -> gs !! j = Some 0%Z.

Lemma zero_run_app gs l span : zero_run gs span -> zero_run (gs ++ l) span.
Proof.
  intros [Hl H]. split; [rewrite length_app; lia|]. intros j Hj. rewrite lookup_app_l by lia. by apply H.
Qed.

Lemma zeroes_fold gs :
  exists current longest, foldl zero_step (0, (0, 0), (0, 0)) gs = (length gs, current, longest)
    /\ (snd current = 0 \/ fst current + snd current = length gs) /\ zero_run gs current /\ zero_run gs longest.
Proof.
  induction gs as [|g gs (current & longest & E & Hc & Hr & Hl)] using rev_ind.
  { exists (0, 0), (0, 0). split_and!; try done; [by left|split; cbn; (done || lia)..]. }
  rewrite foldl_app, E. cbn [foldl zero_step]. rewrite length_app, Nat.add_1_r.
  destruct (decide (g = 0%Z)) as [->|Hg].
  - set (start := if decide (snd current = 0) then length gs else fst current).
    assert (start + snd current = length gs) as Hs by (unfold start; case_decide; lia).
    assert (zero_run (gs ++ [0%Z]) (start, S (snd current))) as Hrun.
    { split; cbn [fst snd]; [rewrite length_app; cbn; lia|]. intros j Hj. destruct (decide (j = length gs)) as [->|Hne].
      - by rewrite lookup_app_r, Nat.sub_diag by lia.
      - rewrite lookup_app_l by lia. apply Hr. unfold start in *. case_decide; lia. }
    exists (start, S (snd current)), (if decide (snd longest < S (snd current)) then (start, S (snd current)) else longest).
    split_and!; [done|right; cbn; lia|done|]. case_decide; [done|by apply zero_run_app].
  - exists (0, 0), longest. split_and!; [done|by left|split; cbn; [lia|lia]|by apply zero_run_app].
Qed.

Lemma zeroes_spec gs start len :
  zeroes gs = (start, len) -> start + len ≤ length gs
    /\ gs = take start gs ++ replicate len 0%Z ++ drop (start + len) gs.
Proof.
  unfold zeroes. destruct (zeroes_fold gs) as (current & longest & -> & _ & _ & Hl). cbn [snd]. intros ->.
  destruct Hl as [Hlen Hz]. cbn [fst snd] in *. split; [done|]. rewrite <- drop_drop.
  rewrite <- (take_drop start gs) at 1. f_equal. rewrite <- (take_drop len (drop start gs)) at 1. f_equal.
  apply list_eq. intros i. destruct (decide (i < len)) as [Hi|Hi].
  - rewrite lookup_take_lt, lookup_drop, lookup_replicate_2 by done. apply Hz. lia.
  - rewrite lookup_take_ge by lia. symmetry. apply lookup_ge_None. rewrite length_replicate. lia.
Qed.

Lemma segments_spec a :
  length (segments a) = 8 /\ Forall (fun g => 0 ≤ g < 65536)%Z (segments a)
  /\ of_segments (segments a) = (a mod 2 ^ 128)%Z.
Proof. split_and!; [apply length_to_base|by apply to_base_digits|by apply (of_to_base 65536 8)]. Qed.

Lemma read_gapped pre post len :
  length pre + len + length post = 8 -> 1 < len ->
  Forall (fun g => 0 ≤ g < 65536)%Z pre -> Forall (fun g => 0 ≤ g < 65536)%Z post ->
  read_ipv6_addr (fmt_subslice pre ++ [COLON; COLON] ++ fmt_subslice post)
  = Some (of_segments (pre ++ replicate len 0%Z ++ post), []).
Proof.
  intros Hl Hlen Hpre Hpost. unfold read_ipv6_addr.
  assert (read_groups 8 true (fmt_subslice pre ++ [COLON; COLON] ++ fmt_subslice post)
          = (pre, false, [COLON; COLON] ++ fmt_subslice post)) as ->.
  { destruct (decide (pre = [])) as [->|Hne]; [apply (read_groups_gap 8 true)|].
    replace 8 with (length pre + (8 - length pre)) by lia. rewrite read_groups_slice by done.
    change ([COLON; COLON] ++ fmt_subslice post) with (COLON :: COLON :: fmt_subslice post).
    by rewrite (read_groups_gap _ false), app_nil_r. }
  rewrite decide_False by lia. cbn [app]. rewrite read_given. cbn [mbind option_bind]. rewrite read_given.
  cbn [mbind option_bind].
  assert (read_groups (8 - (length pre + 1)) true (fmt_subslice post) = (post, false, [])) as ->.
  { destruct (decide (post = [])) as [->|Hne]; [apply read_groups_end|].
    replace (8 - (length pre + 1)) with (length post + (7 - length pre - length post)) by lia.
    rewrite <- (app_nil_r (fmt_subslice post)), read_groups_slice by done. by rewrite read_groups_end, app_nil_r. }
  by replace (8 - length pre - length post) with len by lia.
Qed.

Lemma read_mapped v4 : (0 ≤ v4 < 2 ^ 32)%Z ->
  read_ipv6_addr (bstr "::ffff:" ++ show_ipv4 v4) = Some ((65535 * 2 ^ 32 + v4)%Z, []).
Proof.
  intros Hv. unfold read_ipv6_addr.
  change (bstr "::ffff:" ++ show_ipv4 v4) with (COLON :: COLON :: (hex 65535 ++ COLON :: show_ipv4 v4)).
  rewrite (read_groups_gap 8 true), decide_False, read_given by done. cbn [mbind option_bind]. rewrite read_given.
  cbn [mbind option_bind length Nat.add Nat.sub].
  assert (read_groups 6 false (COLON :: show_ipv4 v4) = ([v4 / 65536; v4 mod 65536]%Z, true, [])) as E.
  { pose proof (read_show_ipv4 v4 [] Hv I) as H. rewrite app_nil_r in H.
    cbn [read_groups read_separator]. rewrite decide_False, read_given by done. cbn [mbind option_bind]. by rewrite H. }
  assert (read_groups 7 true (hex 65535 ++ COLON :: show_ipv4 v4) = ([65535; v4 / 65536; v4 mod 65536]%Z, true, [])) as ->.
  { etransitivity; [by apply (read_groups_one 6 true 65535)|]. by rewrite E. }
  cbn [length Nat.sub]. do 2 f_equal. unfold of_segments, of_base. cbn [foldl app replicate].
  pose proof (Z.div_mod v4 65536). lia.
Qed.

Lemma read_show_ipv6 a : (0 ≤ a < 2 ^ 128)%Z -> read_ipv6_addr (show_ipv6 a) = Some (a, []).
Proof.
  intros Ha. unfold show_ipv6, to_ipv4_mapped. case_decide as Hm.
  { rewrite read_mapped by (apply Z.mod_pos_bound; lia). do 2 f_equal. pose proof (Z.div_mod a (2 ^ 32)). lia. }
  destruct (segments_spec a) as (Hl & Hd & Hv). rewrite Z.mod_small in Hv by done.
  destruct (zeroes (segments a)) as [start len] eqn:Ez. destruct (zeroes_spec _ _ _ Ez) as [Hlen Heq]. case_decide.
  - rewrite (read_gapped _ _ len).
    + by rewrite <- Heq, Hv.
    + rewrite length_take, length_drop. lia.
    + done.
    + by apply Forall_take.
    + by apply Forall_drop.
  - unfold read_ipv6_addr. rewrite <- (app_nil_r (fmt_subslice _)).
    change 8 with (8 + 0) at 1. rewrite <- Hl at 1. rewrite read_groups_slice by (done || by intros E; rewrite E in Hl).
    cbn [read_groups]. rewrite app_nil_r, decide_True by done. by rewrite Hv.
Qed.

Lemma parse_show_ipv6 a : (0 ≤ a < 2 ^ 128)%Z -> parse_ipv6 (show_ipv6 a) = Some a.
Proof. intros Ha. by apply parse_with_whole, read_show_ipv6. Qed.

(** ** What is read *)

Definition v4_char (c : Z) : Prop := digit c \/ c = DOT.
Definition addr_char (c : Z) : Prop := is_Some (to_digit 16 c) \/ c = DOT \/ c = COLON.

(** The reader takes a prefix of such characters, and gives such a value. *)
Definition takes {A} (P : Z -> Prop) (Q : A -> Prop) (inner : bytes -> option (A * bytes)) : Prop :=
  forall s a r, inner s = Some (a, r) -> (exists p, s = p ++ r /\ Forall P p) /\ Q a.

Lemma takes_weaken {A} (P P' : Z -> Prop) (Q : A -> Prop) inner :
  (forall c, P c -> P' c) -> takes P Q inner -> takes P' Q inner.
Proof.
  intros HP H s a r E. destruct (H _ _ _ E) as [(p & -> & Hp) Ha]. split; [|done]. exists p. split; [done|].
  by eapply Forall_impl.
Qed.

Lemma span_digits_takes radix s ds r :
  span_digits radix s = (ds, r) ->
  (exists p, s = p ++ r /\ Forall (fun c => is_Some (to_digit radix c)) p) /\ Forall (fun d => 0 ≤ d < radix)%Z ds.
Proof.
  revert ds. induction s as [|c s IH]; intros ds; cbn [span_digits].
  - intros [= <- <-]. split; [by exists []|done].
  - destruct (to_digit radix c) as [d|] eqn:Ed; [|intros [= <- <-]; split; [by exists []|done]].
    destruct (span_digits radix s) as [ds' r'] eqn:E. intros [= <- <-]. destruct (IH _ eq_refl) as [(p & -> & Hp) Hd].
    split; [exists (c :: p); split; [done|by constructor]|]. constructor; [|done].
    unfold to_digit in Ed. destruct (hex_value c) as [v|] eqn:Ev; [|done]. cbn in Ed. case_decide; [|done].
    injection Ed as <-. apply hex_value_range in Ev. lia.
Qed.

Lemma read_number_takes radix max_digits allow max :
  (0 < radix)%Z ->
  takes (fun c => is_Some (to_digit radix c)) (fun n => 0 ≤ n ≤ max)%Z (read_number radix max_digits allow max).
Proof.
  intros Hr s n r. unfold read_number. destruct (span_digits radix s) as [ds r'] eqn:E.
  destruct (span_digits_takes _ _ _ _ E) as [Hp Hd].
  do 2 (case_decide; [done|]). destruct (negb _ && _ && _); [done|]. case_decide; [|done].
  intros [= <- <-]. split; [done|]. split; [by apply of_base_range|done].
Qed.

Lemma read_separator_takes {A} (P : Z -> Prop) (Q : A -> Prop) sep first inner :
  P sep -> takes P Q inner -> takes P Q (read_separator sep first inner).
Proof.
  intros Hsep H s a r. unfold read_separator. destruct first; [apply H|]. destruct s as [|c s]; [done|].
  cbn [read_given_char]. case_decide as Hc; [|done]. subst c. cbn [mbind option_bind]. intros E.
  destruct (H _ _ _ E) as [(p & -> & Hp) Ha]. split; [|done]. exists (sep :: p). split; [done|by constructor].
Qed.

Lemma digit_10 c : is_Some (to_digit 10 c) -> digit c.
Proof.
  intros [d Hd]. unfold to_digit, hex_value in Hd. unfold digit. repeat case_decide; cbn in Hd; try case_decide; try done; lia.
Qed.

Lemma read_octets_takes k first :
  takes v4_char (fun os => length os = k /\ Forall (fun o => 0 ≤ o < 256)%Z os) (read_octets k first).
Proof.
  revert first. induction k as [|k IH]; intros first s os r; cbn [read_octets].
  { intros [= <- <-]. split; [by exists []|done]. }
  destruct (read_separator DOT first (read_number 10 3 false 255) s) as [[o s1]|] eqn:E1; [|done]. cbn [mbind option_bind].
  destruct (read_octets k false s1) as [[os' s2]|] eqn:E2; [|done]. cbn [mbind option_bind]. intros [= <- <-].
  assert (takes v4_char (fun n => 0 ≤ n ≤ 255)%Z (read_number 10 3 false 255)) as Hn.
  { eapply takes_weaken; [|by apply read_number_takes]. intros c Hc. left. by apply digit_10. }
  apply read_separator_takes with (sep := DOT) (first := first) in Hn; [|by right].
  destruct (Hn _ _ _ E1) as [(p1 & -> & Hp1) Ho]. destruct (IH _ _ _ _ E2) as [(p2 & -> & Hp2) [Hl Hos]].
  split; [exists (p1 ++ p2); split; [by rewrite app_assoc|by apply Forall_app]|].
  split; [cbn; lia|constructor; [lia|done]].
Qed.

Definition v4_range (a : Z) : Prop := (0 ≤ a < 2 ^ 32)%Z.
Definition v6_range (a : Z) : Prop := (0 ≤ a < 2 ^ 128)%Z.

Lemma read_ipv4_takes : takes v4_char v4_range read_ipv4_addr.
Proof.
  intros s a r. unfold read_ipv4_addr. destruct (read_octets 4 true s) as [[os s1]|] eqn:E; [|done].
  cbn [mbind option_bind]. intros [= <- <-]. destruct (read_octets_takes _ _ _ _ _ E) as [Hp [Hl Hos]].
  split; [done|]. pose proof (of_base_range 256 os ltac:(lia) Hos) as H. rewrite Hl in H. exact H.
Qed.

Lemma v4_addr_char c : v4_char c -> addr_char c.
Proof.
  intros [Hc| ->]; [left|by right; left]. unfold digit in Hc. unfold to_digit, hex_value.
  rewrite decide_True by lia. cbn. rewrite decide_True by lia. by eexists.
Qed.

Lemma read_groups_takes k first s gs v4 r :
  read_groups k first s = (gs, v4, r) ->
  (exists p, s = p ++ r /\ Forall addr_char p) /\ length gs ≤ k /\ Forall (fun g => 0 ≤ g < 65536)%Z gs.
Proof.
  revert first s gs v4 r. induction k as [|k IH]; intros first s gs v4 r; cbn [read_groups].
  { intros [= <- <- <-]. split; [by exists []|by split]. }
  destruct (if decide (k = 0) then None else read_separator COLON first read_ipv4_addr s) as [[a s1]|] eqn:E1.
  - intros [= <- <- <-]. case_decide; [done|].
    assert (takes addr_char v4_range (read_separator COLON first read_ipv4_addr)) as Hv.
    { apply read_separator_takes; [by right; right|]. eapply takes_weaken; [apply v4_addr_char|apply read_ipv4_takes]. }
    destruct (Hv _ _ _ E1) as [Hp Ha]. split; [done|]. split; [cbn; lia|]. unfold v4_range in Ha. rewrite !Forall_cons.
    split_and!; [apply Z.div_pos; lia|apply Z.div_lt_upper_bound; lia|apply Z.mod_pos_bound; lia|apply Z.mod_pos_bound; lia|done].
  - destruct (read_separator COLON first (read_number 16 4 true 65535) s) as [[g s1]|] eqn:E2;
      [|intros [= <- <- <-]; split; [by exists []|split; [cbn; lia|done]]].
    destruct (read_groups k false s1) as [[gs' v4'] s2] eqn:E3. intros [= <- <- <-].
    assert (takes addr_char (fun n => 0 ≤ n ≤ 65535)%Z (read_separator COLON first (read_number 16 4 true 65535))) as Hv.
    { apply read_separator_takes; [by right; right|]. eapply takes_weaken; [|by apply read_number_takes].
      intros c Hc. by left. }
    destruct (Hv _ _ _ E2) as [(p1 & -> & Hp1) Hg]. destruct (IH _ _ _ _ _ E3) as [(p2 & -> & Hp2) [Hl Hgs]].
    split; [exists (p1 ++ p2); split; [by rewrite app_assoc|by apply Forall_app]|].
    split; [cbn; lia|constructor; [lia|done]].
Qed.

Lemma read_given_inv c s s' : read_given_char c s = Some s' -> s = c :: s'.
Proof. destruct s as [|x s]; cbn; [done|]. case_decide; [|done]. intros [= <-]. by subst. Qed.

Lemma read_ipv6_takes : takes addr_char v6_range read_ipv6_addr.
Proof.
  intros s a r. unfold read_ipv6_addr. destruct (read_groups 8 true s) as [[hd v4] s1] eqn:E1.
  destruct (read_groups_takes _ _ _ _ _ _ E1) as [(p1 & -> & Hp1) [Hl1 Hg1]]. case_decide as H8.
  { intros [= <- <-]. split; [by exists p1|]. pose proof (of_base_range 65536 hd ltac:(lia) Hg1) as H. rewrite H8 in H. exact H. }
  destruct v4; [done|].
  destruct (read_given_char COLON s1) as [s2|] eqn:E2; [|done]. cbn [mbind option_bind]. apply read_given_inv in E2 as ->.
  destruct (read_given_char COLON s2) as [s3|] eqn:E3; [|done]. cbn [mbind option_bind]. apply read_given_inv in E3 as ->.
  destruct (read_groups _ true s3) as [[tl v4'] s4] eqn:E4. intros [= <- <-].
  destruct (read_groups_takes _ _ _ _ _ _ E4) as [(p2 & -> & Hp2) [Hl2 Hg2]]. split.
  - exists (p1 ++ [COLON; COLON] ++ p2). split; [by rewrite <- !app_assoc|]. rewrite !Forall_app, !Forall_cons.
    split_and!; try done; by right; right.
  - pose proof (of_base_range 65536 (hd ++ replicate (8 - length hd - length tl) 0%Z ++ tl) ltac:(lia)) as H.
    rewrite !length_app, length_replicate in H. replace (length hd + (8 - length hd - length tl + length tl)) with 8 in H by lia.
    apply H. rewrite !Forall_app. split_and!; [done|apply Forall_replicate; lia|done].
Qed.

(** An IPv6 address has a colon, an IPv4 address has none. *)
Lemma read_groups_no_colon k s : COLON ∉ s -> read_groups k false s = ([], false, s).
Proof.
  intros Hs. assert (forall A (inner : bytes -> option (A * bytes)), read_separator COLON false inner s = None) as E.
  { intros A inner. unfold read_separator. destruct (read_given_char COLON s) eqn:E; [|done].
    apply read_given_inv in E as ->. exfalso. apply Hs. left. }
  destruct k as [|k]; [done|]. cbn [read_groups]. rewrite !E. by case_decide.
Qed.

Lemma read_groups_first k s gs v4 r :
  COLON ∉ s -> read_groups (S k) true s = (gs, v4, r) -> COLON ∉ r /\ length gs ≤ 2.
Proof.
  intros Hs E. destruct (read_groups_takes _ _ _ _ _ _ E) as [(p & Hp & _) _]. split.
  { rewrite Hp, not_elem_of_app in Hs. tauto. }
  cbn [read_groups read_separator] in E.
  destruct (if decide (k = 0) then None else read_ipv4_addr s) as [[a s1]|]; [by injection E as <- _ _|].
  destruct (read_number 16 4 true 65535 s) as [[g s1]|] eqn:E1; [|injection E as <- _ _; cbn; lia].
  destruct (read_number_takes 16 4 true 65535 ltac:(lia) _ _ _ E1) as [(p1 & -> & _) _].
  rewrite not_elem_of_app in Hs. rewrite (read_groups_no_colon k s1) in E by tauto. injection E as <- _ _. cbn. lia.
Qed.

Lemma read_ipv6_colon s a r : read_ipv6_addr s = Some (a, r) -> COLON ∈ s.
Proof.
  intros E. destruct (decide (COLON ∈ s)) as [|Hs]; [done|]. exfalso. revert E. unfold read_ipv6_addr.
  destruct (read_groups 8 true s) as [[gs v4] s1] eqn:E. destruct (read_groups_first 7 _ _ _ _ Hs E) as [Hs1 Hl].
  rewrite decide_False by lia. destruct v4; [done|]. destruct (read_given_char COLON s1) eqn:E1; [|done].
  apply read_given_inv in E1 as ->. exfalso. apply Hs1. left.
Qed.

(** Whole addresses. *)
Lemma parse_ip_inv s a :
  parse_ip s = Some a -> Forall addr_char s /\ s <> []
    /\ match a with V4 a => v4_range a /\ COLON ∉ s | V6 a => v6_range a /\ COLON ∈ s end.
Proof.
  intros E%parse_with_inv. unfold read_ip_addr in E. destruct (read_ipv4_addr s) as [[a4 r]|] eqn:E4.
  - injection E as <- ->. destruct (read_ipv4_takes _ _ _ E4) as [(p & Hp & Hc) Ha]. rewrite app_nil_r in Hp. subst p.
    split_and!; [by eapply Forall_impl; [|apply v4_addr_char]|by intros ->|done|].
    intros Hin. rewrite Forall_forall in Hc. destruct (Hc _ Hin) as [Hd|Hd]; [unfold digit, COLON in Hd; lia|done].
  - destruct (read_ipv6_addr s) as [[a6 r]|] eqn:E6; [|done]. cbn [mbind option_bind] in E. injection E as <- ->.
    destruct (read_ipv6_takes _ _ _ E6) as [(p & Hp & Hc) Ha]. rewrite app_nil_r in Hp. subst p.
    pose proof (read_ipv6_colon _ _ _ E6) as Hin. split_and!; [done|by intros ->; apply elem_of_nil in Hin|done|done].
Qed.

Lemma parse_ipv4_inv s a :
  parse_ipv4 s = Some a -> parse_ip s = Some (V4 a).
Proof.
  unfold parse_ipv4. case_decide; [done|]. intros E%parse_with_inv. apply parse_with_whole.
  unfold read_ip_addr. by rewrite E.
Qed.

Lemma read_families s v r : read_ipv4_addr s = Some (v, r) -> read_ipv6_addr s = None.
Proof.
  intros E. unfold read_ipv6_addr. assert (read_groups 8 true s = ([v / 65536; v mod 65536]%Z, true, r)) as ->; [|done].
  cbn [read_groups read_separator]. rewrite decide_False by done. by rewrite E.
Qed.

Lemma parse_ipv6_inv s a : parse_ipv6 s = Some a -> parse_ip s = Some (V6 a).
Proof.
  intros E%parse_with_inv. apply parse_with_whole. unfold read_ip_addr. rewrite E.
  destruct (read_ipv4_addr s) as [[a4 r]|] eqn:E4; [|done]. apply read_families in E4. congruence.
Qed.

Definition ip_range (a : IpAddr) : Prop := match a with V4 a => v4_range a | V6 a => v6_range a end.

Lemma parse_show_ip a : ip_range a -> parse_ip (show_ip a) = Some a.
Proof.
  destruct a as [a|a]; cbn; intros Ha; [by apply parse_ipv4_inv, parse_show_ipv4|by apply parse_ipv6_inv, parse_show_ipv6].
Qed.

Lemma show_ip_inj a b : ip_range a -> ip_range b -> show_ip a = show_ip b -> a = b.
Proof. intros Ha Hb E. apply parse_show_ip in Ha, Hb. rewrite E in Ha. congruence. Qed.
