(* ===== verification/Cidr.v ===== *)
(** * Networks ([src/src/cidr.rs])

    Prefixes of both families, parsing and printing, containment and the ranges of
    hosts.  The two families differ in their width and in what a host is, so most
    definitions take the width. *)
From Stdlib Require Import Sorting.Sorted.
From S2P Require Import Prelude Text NetAddr.

(** ** Prefixes *)

Definition split_prefix (s : bytes) (max_digits : nat) (max_len : Z) : option (bytes * Z) :=
  '(addr, prefix) ← split_once 47 s;
  if bool_decide (prefix = []) || bool_decide (max_digits < length prefix) then None else
  if negb (forallb is_ascii_digit prefix) then None else
  len ← parse_uint 255 prefix;
  if decide (max_len < len)%Z then None else Some (addr, len).

(** [Ipv4Net] has width 32, [Ipv6Net] has width 128. *)
Record Net : Set := mkNet { addr : Z; prefix_len : Z }.
#[export] Instance Net_eq_dec : EqDecision Net.
Proof. solve_decision. Defined.

Definition net_new (w : Z) (a p : Z) : option Net := if decide (w < p)%Z then None else Some (mkNet a p).

Definition mask (w : Z) (n : Net) : Z :=
  if decide (prefix_len n = 0%Z) then 0%Z else wrap w (Z.shiftl (2 ^ w - 1) (w - prefix_len n)).
Definition complement (w m : Z) : Z := Z.lxor m (2 ^ w - 1).
Definition network (w : Z) (n : Net) : Z := Z.land (addr n) (mask w n).
Definition broadcast (w : Z) (n : Net) : Z := Z.lor (addr n) (complement w (mask w n)).
Definition contains (w : Z) (n : Net) (other : Z) : bool :=
  bool_decide (Z.land other (mask w n) = Z.land (addr n) (mask w n)).

(** ** Ranges *)

Record Range : Set := mkRange { next : Z; last_addr : Z; done_flag : bool }.

Definition hosts_v4 (n : Net) : Range :=
  let start := network 32 n in
  let last := broadcast 32 n in
  if decide (prefix_len n < 31)%Z then mkRange (Z.min (start + 1) (2 ^ 32 - 1)) (Z.max (last - 1) 0) false
  else mkRange start last false.
Definition hosts_v6 (n : Net) : Range := mkRange (network 128 n) (broadcast 128 n) false.

Definition range_next (r : Range) : option Z * Range :=
  if done_flag r || bool_decide (last_addr r < next r)%Z then (None, r) else
  (Some (next r),
   if decide (next r = last_addr r) then mkRange (next r) (last_addr r) true
   else mkRange (next r + 1) (last_addr r) false).

(** ** Text *)

Definition parse_net4 (s : bytes) : option Net :=
  '(a, p) ← split_prefix s 2 32; a ← parse_ipv4 a; Some (mkNet a p).
Definition parse_net6 (s : bytes) : option Net :=
  '(a, p) ← split_prefix s 3 128; a ← parse_ipv6 a; Some (mkNet a p).
Definition show_net4 (n : Net) : bytes := show_ipv4 (addr n) ++ 47%Z :: decimal (prefix_len n).
Definition show_net6 (n : Net) : bytes := show_ipv6 (addr n) ++ 47%Z :: decimal (prefix_len n).

Inductive IpNet : Set := Net4 (n : Net) | Net6 (n : Net).

Definition parse_net (s : bytes) : option IpNet :=
  match parse_net4 s with
  | Some n => Some (Net4 n)
  | None => n ← parse_net6 s; Some (Net6 n)
  end.
Definition ipnet_addr (n : IpNet) : IpAddr := match n with Net4 n => V4 (addr n) | Net6 n => V6 (addr n) end.
Definition ipnet_prefix_len (n : IpNet) : Z := match n with Net4 n | Net6 n => prefix_len n end.
Definition ipnet_contains (n : IpNet) (other : IpAddr) : bool :=
  match n, other with
  | Net4 n, V4 a => contains 32 n a
  | Net6 n, V6 a => contains 128 n a
  | _, _ => false
  end.
Definition show_net (n : IpNet) : bytes := match n with Net4 n => show_net4 n | Net6 n => show_net6 n end.

(** ** Masks as arithmetic *)

Definition net_ok (w : Z) (n : Net) : Prop := (0 ≤ addr n < 2 ^ w)%Z /\ (0 ≤ prefix_len n ≤ w)%Z.

(** The number of addresses. *)
Definition block (w : Z) (n : Net) : Z := (2 ^ (w - prefix_len n))%Z.

Lemma mask_bits w n i : (0 ≤ prefix_len n ≤ w)%Z -> (0 ≤ i)%Z ->
  Z.testbit (mask w n) i = bool_decide (w - prefix_len n ≤ i < w)%Z.
Proof.
  intros Hp Hi. unfold mask. case_decide as H0.
  - rewrite Z.bits_0. symmetry. apply bool_decide_eq_false. lia.
  - rewrite testbit_wrap by lia. destruct (decide (w - prefix_len n ≤ i)%Z) as [Hge|Hlt].
    + rewrite Z.shiftl_spec by lia. change (2 ^ w - 1)%Z with (Z.pred (2 ^ w)). rewrite <- Z.ones_equiv.
      rewrite Z.testbit_ones by lia. case_bool_decide; case_bool_decide; cbn [andb]; lia.
    + rewrite Z.shiftl_spec_low by lia. rewrite andb_false_r. symmetry. apply bool_decide_eq_false. lia.
Qed.

Lemma land_mask w n a : (0 ≤ a < 2 ^ w)%Z -> (0 ≤ prefix_len n ≤ w)%Z ->
  Z.land a (mask w n) = (a / block w n * block w n)%Z.
Proof.
  intros Ha Hp. unfold block. rewrite <- Z.shiftl_mul_pow2, <- Z.shiftr_div_pow2 by lia. apply Z.bits_inj'. intros i Hi.
  rewrite Z.land_spec, mask_bits by done. destruct (decide (i < w - prefix_len n)%Z) as [Hlt|Hge].
  - rewrite Z.shiftl_spec_low by lia. rewrite bool_decide_eq_false_2 by lia. by rewrite andb_false_r.
  - rewrite Z.shiftl_spec, Z.shiftr_spec by lia. replace (i - (w - prefix_len n) + (w - prefix_len n))%Z with i by lia.
    case_bool_decide; [by rewrite andb_true_r|]. rewrite andb_false_r. symmetry. apply (testbit_high w a); lia.
Qed.

Lemma block_pos w n : (0 ≤ prefix_len n ≤ w)%Z -> (0 < block w n)%Z.
Proof. intros Hp. apply Z.pow_pos_nonneg; lia. Qed.

(** The network starts at a multiple of its size. *)
Lemma network_spec w n : net_ok w n ->
  network w n = (addr n / block w n * block w n)%Z /\ (0 ≤ network w n ≤ addr n)%Z
  /\ (network w n + block w n ≤ 2 ^ w)%Z.
Proof.
  intros [Ha Hp]. pose proof (block_pos w n Hp) as Hb. unfold network. rewrite land_mask by done. split; [done|].
  pose proof (Z.div_mod (addr n) (block w n) ltac:(lia)) as Hd. pose proof (Z.mod_pos_bound (addr n) (block w n) Hb).
  pose proof (Z.div_pos (addr n) (block w n) ltac:(lia) Hb). split; [nia|].
  assert (2 ^ w = 2 ^ prefix_len n * block w n)%Z as Hw by (unfold block; rewrite <- Z.pow_add_r by lia; f_equal; lia).
  assert (addr n / block w n < 2 ^ prefix_len n)%Z by (apply Z.div_lt_upper_bound; nia). nia.
Qed.

Lemma broadcast_spec w n : net_ok w n -> broadcast w n = (network w n + block w n - 1)%Z.
Proof.
  intros [Ha Hp]. unfold broadcast, complement.
  assert (Z.lor (addr n) (Z.lxor (mask w n) (2 ^ w - 1)) = Z.lor (network w n) (Z.ones (w - prefix_len n))) as ->.
  { apply Z.bits_inj'. intros i Hi. unfold network. change (2 ^ w - 1)%Z with (Z.pred (2 ^ w)). rewrite <- Z.ones_equiv.
    rewrite !Z.lor_spec, Z.lxor_spec, Z.land_spec, mask_bits, !Z.testbit_ones by lia.
    destruct (decide (i < w)%Z) as [Hlt|Hge].
    - replace (0 <=? i)%Z with true by lia. replace (i <? w)%Z with true by lia. cbn [andb].
      case_bool_decide; replace (i <? w - prefix_len n)%Z with (negb (bool_decide (w - prefix_len n ≤ i)%Z))
        by (case_bool_decide; cbn; lia); case_bool_decide; try lia; cbn; by destruct (Z.testbit _ _).
    - rewrite bool_decide_eq_false_2 by lia. replace (i <? w)%Z with false by lia.
      replace (i <? w - prefix_len n)%Z with false by lia. rewrite !andb_false_r. cbn.
      rewrite (testbit_high w (addr n)) by lia. done. }
  destruct (network_spec w n (conj Ha Hp)) as (-> & _ & _). pose proof (block_pos w n Hp).
  assert (block w n - 1 = Z.ones (w - prefix_len n))%Z as E by (rewrite Z.ones_equiv; unfold block; lia).
  rewrite <- Z.add_sub_assoc, E. symmetry.
  rewrite <- Z.lxor_lor; [apply Z.add_nocarry_lxor|]; apply Z.bits_inj_0; intros i;
    rewrite Z.land_spec, Z.testbit_ones by lia; unfold block; rewrite <- Z.shiftl_mul_pow2 by lia;
    (destruct (decide (0 ≤ i < w - prefix_len n)%Z); [rewrite Z.shiftl_spec_low by lia; done|
      replace ((0 <=? i) && (i <? w - prefix_len n))%Z with false by lia; apply andb_false_r]).
Qed.

Lemma contains_spec w n a : net_ok w n -> (0 ≤ a < 2 ^ w)%Z ->
  contains w n a = bool_decide (network w n ≤ a ≤ broadcast w n)%Z.
Proof.
  intros [Ha Hp] Hr. unfold contains. rewrite broadcast_spec by done.
  destruct (network_spec w n (conj Ha Hp)) as (-> & _ & _). rewrite !land_mask by done. apply bool_decide_ext.
  pose proof (block_pos w n Hp) as Hb.
  pose proof (Z.div_mod a (block w n) ltac:(lia)). pose proof (Z.mod_pos_bound a (block w n) Hb).
  split; [intros E; nia|]. intros [H1 H2]. f_equal.
  assert (a / block w n = addr n / block w n)%Z; [|done]. nia.
Qed.

(** ** Ranges as lists *)

(** What a range still yields. *)
Definition range_list (r : Range) : list Z :=
  if done_flag r then [] else seqZ (next r) (last_addr r - next r + 1).

Lemma seqZ_nil_le m n : (n ≤ 0)%Z -> seqZ m n = [].
Proof. intros Hn. unfold seqZ. by replace (Z.to_nat n) with 0 by lia. Qed.

Lemma range_next_spec r :
  match range_list r with
  | [] => range_next r = (None, r)
  | a :: l => exists r', range_next r = (Some a, r') /\ range_list r' = l
  end.
Proof.
  unfold range_list, range_next. destruct (done_flag r) eqn:Ed; cbn [orb]; [done|].
  case_bool_decide as Hlt; [by rewrite seqZ_nil_le by lia|].
  rewrite seqZ_cons by lia. eexists. split; [done|]. case_decide as He; cbn [done_flag next last_addr].
  - by rewrite seqZ_nil_le by lia.
  - f_equal; lia.
Qed.

Definition host_v4 (n : Net) (a : Z) : Prop :=
  if decide (prefix_len n < 31)%Z then (network 32 n < a < broadcast 32 n)%Z
  else (network 32 n ≤ a ≤ broadcast 32 n)%Z.

Lemma hosts_v4_spec n a : net_ok 32 n -> a ∈ range_list (hosts_v4 n) <-> host_v4 n a.
Proof.
  intros Hn. destruct (network_spec 32 n Hn) as (_ & Hnet & Hend). pose proof (broadcast_spec 32 n Hn) as Hb.
  destruct Hn as [Ha Hp]. unfold range_list, hosts_v4, host_v4. case_decide as H31; cbn [done_flag next last_addr]; rewrite elem_of_seqZ.
  - assert (2 ^ 2 ≤ block 32 n)%Z by (unfold block; apply Z.pow_le_mono_r; lia). lia.
  - lia.
Qed.

Lemma hosts_v6_spec n a : a ∈ range_list (hosts_v6 n) <-> (network 128 n ≤ a ≤ broadcast 128 n)%Z.
Proof. unfold range_list, hosts_v6. cbn [done_flag next last_addr]. rewrite elem_of_seqZ. lia. Qed.

Lemma seqZ_ascending m k : StronglySorted Z.lt (seqZ m (Z.of_nat k)).
Proof.
  revert m. induction k as [|k IH]; intros m; [constructor|]. rewrite seqZ_cons by lia.
  replace (Z.pred (Z.of_nat (S k))) with (Z.of_nat k) by lia. constructor; [apply IH|].
  apply Forall_forall. intros x Hx%elem_of_seqZ. lia.
Qed.

Lemma range_ascending r : StronglySorted Z.lt (range_list r).
Proof.
  unfold range_list. destruct (done_flag r); [constructor|].
  destruct (decide (0 ≤ last_addr r - next r + 1)%Z) as [Hp|Hn]; [|rewrite seqZ_nil_le by lia; constructor].
  rewrite <- (Z2Nat.id (last_addr r - next r + 1)) by done. apply seqZ_ascending.
Qed.

Lemma range_nodup r : NoDup (range_list r).
Proof. unfold range_list. destruct (done_flag r); [constructor|apply NoDup_seqZ]. Qed.

(** ** Text *)

Definition net_char (c : Z) : Prop := addr_char c \/ c = 47%Z.

Lemma addr_char_slash : ~ addr_char 47.
Proof. intros [[d Hd]|[Hd|Hd]]; by vm_compute in Hd. Qed.

Lemma addr_text_slash s : Forall addr_char s -> 47%Z ∉ s.
Proof. intros Hs Hin. rewrite Forall_forall in Hs. by apply addr_char_slash, Hs. Qed.

Lemma split_prefix_inv s k m a p :
  split_prefix s k m = Some (a, p) ->
  exists ds, s = a ++ 47%Z :: ds /\ 47%Z ∉ a /\ Forall digit ds /\ (0 ≤ p ≤ m)%Z.
Proof.
  unfold split_prefix. destruct (split_once 47 s) as [[a' ds]|] eqn:E; [|done]. cbn [mbind option_bind].
  apply split_once_spec in E as [-> Hs]. destruct (_ || _); [done|]. destruct (negb _) eqn:Ed; [done|].
  apply negb_false_iff in Ed. destruct (parse_uint 255 ds) as [n|] eqn:Ep; [|done]. cbn [mbind option_bind].
  case_decide; [done|]. intros [= <- <-]. exists ds. apply parse_uint_range in Ep. split_and!; [done|done| |lia|lia].
  apply Forall_forall. intros c Hc. rewrite forallb_forall in Ed. apply list_elem_of_In, Ed, bool_decide_eq_true in Hc. exact Hc.
Qed.

Lemma digits_addr ds : Forall digit ds -> Forall addr_char ds /\ COLON ∉ ds.
Proof.
  intros Hd. split; [eapply Forall_impl; [exact Hd|]; intros c Hc; apply v4_addr_char; by left|].
  intros Hin. rewrite Forall_forall in Hd. apply Hd in Hin. unfold digit, COLON in Hin. lia.
Qed.

Lemma net_text a ds : Forall addr_char a -> Forall digit ds -> Forall net_char (a ++ 47%Z :: ds).
Proof.
  intros Ha Hd. destruct (digits_addr ds Hd) as [Hds _]. apply Forall_app. split; [eapply Forall_impl; [exact Ha|by left]|].
  constructor; [by right|]. eapply Forall_impl; [exact Hds|by left].
Qed.

Lemma parse_net4_inv s n : parse_net4 s = Some n -> net_ok 32 n /\ Forall net_char s /\ COLON ∉ s.
Proof.
  unfold parse_net4. destruct (split_prefix s 2 32) as [[a p]|] eqn:E; [|done]. cbn [mbind option_bind].
  destruct (parse_ipv4 a) as [v|] eqn:Ea; [|done]. cbn [mbind option_bind]. intros [= <-].
  destruct (split_prefix_inv _ _ _ _ _ E) as (ds & -> & _ & Hds & Hp).
  apply parse_ipv4_inv, parse_ip_inv in Ea as (Hc & _ & Hv & Hcol). split; [by split|]. split; [by apply net_text|].
  rewrite not_elem_of_app, not_elem_of_cons. split_and!; [done|done|by apply digits_addr].
Qed.

Lemma parse_net6_inv s n : parse_net6 s = Some n -> net_ok 128 n /\ Forall net_char s /\ COLON ∈ s.
Proof.
  unfold parse_net6. destruct (split_prefix s 3 128) as [[a p]|] eqn:E; [|done]. cbn [mbind option_bind].
  destruct (parse_ipv6 a) as [v|] eqn:Ea; [|done]. cbn [mbind option_bind]. intros [= <-].
  destruct (split_prefix_inv _ _ _ _ _ E) as (ds & -> & _ & Hds & Hp).
  apply parse_ipv6_inv, parse_ip_inv in Ea as (Hc & _ & Hv & Hcol). split; [by split|]. split; [by apply net_text|].
  apply elem_of_app. by left.
Qed.

Lemma split_prefix_show a p k m :
  47%Z ∉ a -> (0 ≤ p ≤ m)%Z -> (m < 256)%Z -> length (decimal p) ≤ k -> split_prefix (a ++ 47%Z :: decimal p) k m = Some (a, p).
Proof.
  intros Ha Hp Hm Hk. unfold split_prefix. rewrite (proj2 (split_once_spec 47 _ a (decimal p))) by done. cbn [mbind option_bind].
  destruct (decimal_spec p ltac:(lia)) as (Hd & Hne & _).
  rewrite bool_decide_eq_false_2, bool_decide_eq_false_2 by (done || lia). cbn [orb].
  assert (forallb is_ascii_digit (decimal p) = true) as ->.
  { apply forallb_forall. intros c Hc. apply bool_decide_eq_true. rewrite Forall_forall in Hd. by apply Hd, list_elem_of_In. }
  cbn [negb]. rewrite parse_uint_decimal by lia. cbn [mbind option_bind]. by rewrite decide_False by lia.
Qed.

Lemma length_prefix4 p : (0 ≤ p < 33)%Z -> length (decimal p) ≤ 2.
Proof. apply (forall_below_dec (fun p => length (decimal p) ≤ 2) 33). by vm_compute. Qed.

Lemma length_prefix6 p : (0 ≤ p < 129)%Z -> length (decimal p) ≤ 3.
Proof. apply (forall_below_dec (fun p => length (decimal p) ≤ 3) 129). by vm_compute. Qed.

Lemma show_ip_slash a : ip_range a -> 47%Z ∉ show_ip a.
Proof. intros Ha. apply addr_text_slash. by apply parse_show_ip, parse_ip_inv in Ha as [? _]. Qed.

Lemma parse_show_net4 n : net_ok 32 n -> parse_net4 (show_net4 n) = Some n.
Proof.
  intros [Ha Hp]. unfold parse_net4, show_net4.
  rewrite split_prefix_show by (done || lia || apply (show_ip_slash (V4 _) Ha) || apply length_prefix4; lia).
  cbn [mbind option_bind]. rewrite parse_show_ipv4 by done. by destruct n.
Qed.

Lemma parse_show_net6 n : net_ok 128 n -> parse_net6 (show_net6 n) = Some n.
Proof.
  intros [Ha Hp]. unfold parse_net6, show_net6.
  rewrite split_prefix_show by (done || lia || apply (show_ip_slash (V6 _) Ha) || apply length_prefix6; lia).
  cbn [mbind option_bind]. rewrite parse_show_ipv6 by done. by destruct n.
Qed.

Definition ipnet_ok (n : IpNet) : Prop := match n with Net4 n => net_ok 32 n | Net6 n => net_ok 128 n end.

Lemma parse_net_inv s n :
  parse_net s = Some n -> ipnet_ok n /\ Forall net_char s /\ match n with Net4 _ => COLON ∉ s | Net6 _ => COLON ∈ s end.
Proof.
  unfold parse_net. destruct (parse_net4 s) as [n4|] eqn:E4; [intros [= <-]; by apply parse_net4_inv|].
  destruct (parse_net6 s) as [n6|] eqn:E6; [|done]. cbn [mbind option_bind]. intros [= <-]. by apply parse_net6_inv.
Qed.

Lemma parse_show_net n : ipnet_ok n -> parse_net (show_net n) = Some n.
Proof.
  destruct n as [n|n]; cbn [show_net ipnet_ok]; intros Hn; unfold parse_net; [by rewrite parse_show_net4|].
  pose proof (parse_show_net6 n Hn) as E. destruct (parse_net4 (show_net6 n)) as [n4|] eqn:E4; [|by rewrite E].
  apply parse_net4_inv in E4 as (_ & _ & H4). by apply parse_net6_inv in E as (_ & _ & H6).
Qed.

(** ** A prefix as a whole *)

(** The first addresses a range yields. *)
Fixpoint range_take (k : nat) (r : Range) : list Z :=
  match k with
  | O => []
  | S k => match range_next r with (Some a, r) => a :: range_take k r | (None, _) => [] end
  end.

Lemma range_take_spec k r : range_take k r = take k (range_list r).
Proof.
  revert r. induction k as [|k IH]; intros r; [by rewrite take_0|]. cbn [range_take].
  pose proof (range_next_spec r) as Hr. destruct (range_list r) as [|a l]; [by rewrite Hr|].
  destruct Hr as (r' & -> & <-). by rewrite IH.
Qed.

Definition width (n : IpNet) : Z := match n with Net4 _ => 32 | Net6 _ => 128 end.
Definition net_of (n : IpNet) : Net := match n with Net4 n | Net6 n => n end.
Definition ip_value (a : IpAddr) : Z := match a with V4 a | V6 a => a end.
Definition same_family (n : IpNet) (a : IpAddr) : Prop := match n, a with Net4 _, V4 _ | Net6 _, V6 _ => True | _, _ => False end.
Definition ipnet_hosts (n : IpNet) : Range := match n with Net4 n => hosts_v4 n | Net6 n => hosts_v6 n end.

(** C22: a text that parses as a prefix has a printed form that parses to the same prefix,
    host bits included; it contains the addresses of its family that agree with it on the first
    [prefix_len] bits; and its hosts come in ascending order and are those addresses, less the
    first and the last of an IPv4 prefix shorter than 31. *)
Theorem prefix_correct s n :
  parse_net s = Some n ->
  let w := width n in let p := ipnet_prefix_len n in
  (0 ≤ p ≤ w)%Z /\ parse_net (show_net n) = Some n
  /\ (forall a, ip_range a -> ipnet_contains n a = true
        <-> same_family n a /\ (ip_value a / 2 ^ (w - p) = ip_value (ipnet_addr n) / 2 ^ (w - p))%Z)
  /\ exists l, StronglySorted Z.lt l /\ (forall k, range_take k (ipnet_hosts n) = take k l)
       /\ forall a, a ∈ l <-> (0 ≤ a < 2 ^ w)%Z /\ contains w (net_of n) a = true
            /\ (w = 32%Z -> (p < 31)%Z -> a <> network w (net_of n) /\ a <> broadcast w (net_of n)).
Proof.
  intros E. pose proof (parse_net_inv s n E) as (Hok & _). cbn zeta. split; [by destruct n, Hok|]. split; [by apply parse_show_net|]. split.
  - intros a Ha. assert (forall w m x, net_ok w m -> (0 ≤ x < 2 ^ w)%Z ->
      contains w m x = true <-> (x / 2 ^ (w - prefix_len m) = addr m / 2 ^ (w - prefix_len m))%Z) as Hc.
    { intros w m x [Hm Hp] Hx. unfold contains. rewrite !land_mask by done. rewrite bool_decide_eq_true. pose proof (block_pos w m Hp).
      change (2 ^ (w - prefix_len m))%Z with (block w m). split; [by intros ?%Z.mul_cancel_r; [|lia]|by intros ->]. }
    destruct n as [n|n], a as [a|a]; cbn [ipnet_contains same_family ip_value ipnet_addr width ipnet_prefix_len]; naive_solver.
  - exists (range_list (ipnet_hosts n)). split; [apply range_ascending|]. split; [intros k; apply range_take_spec|]. intros a.
    assert (forall w m, net_ok w m -> (network w m ≤ a ≤ broadcast w m)%Z <-> (0 ≤ a < 2 ^ w)%Z /\ contains w m a = true) as Hc.
    { intros w m Hm. destruct (network_spec w m Hm) as (_ & H1 & H2). pose proof (broadcast_spec w m Hm) as H3. split.
      - intros Ha. assert (0 ≤ a < 2 ^ w)%Z by lia. split; [done|]. rewrite contains_spec by done. by apply bool_decide_eq_true.
      - intros [Ha Hc]. rewrite contains_spec in Hc by done. by apply bool_decide_eq_true in Hc. }
    destruct n as [n|n]; cbn [ipnet_hosts width net_of ipnet_prefix_len ipnet_ok] in *.
    + rewrite hosts_v4_spec by done. pose proof (Hc 32%Z n Hok) as Hc4. unfold host_v4.
      case_decide; [|rewrite Hc4; split; [intros [? ?]; split; [done|]; split; [done|intros _ ?; lia]|intros (? & ? & _); done]].
      split; [intros Ha|intros (H1 & H2 & H3)].
      * destruct (proj1 Hc4) as [H1 H2]; [lia|]. split; [done|]. split; [done|]. lia.
      * pose proof (proj2 Hc4 (conj H1 H2)). destruct (H3 eq_refl) as [? ?]; [done|]. lia.
    + rewrite hosts_v6_spec, (Hc 128%Z n Hok). split; [|tauto]. intros [H1 H2]. split; [done|]. split; [done|]. lia.
Qed.

Lemma prefix_correct_witness :
  let n := Net4 (mkNet (10 * 2 ^ 24 + 8 * 2 ^ 16 + 5) 24) in
  let w := width n in let p := ipnet_prefix_len n in
  (0 ≤ p ≤ w)%Z /\ parse_net (show_net n) = Some n
  /\ (forall a, ip_range a -> ipnet_contains n a = true
        <-> same_family n a /\ (ip_value a / 2 ^ (w - p) = ip_value (ipnet_addr n) / 2 ^ (w - p))%Z)
  /\ exists l, StronglySorted Z.lt l /\ (forall k, range_take k (ipnet_hosts n) = take k l)
       /\ forall a, a ∈ l <-> (0 ≤ a < 2 ^ w)%Z /\ contains w (net_of n) a = true
            /\ (w = 32%Z -> (p < 31)%Z -> a <> network w (net_of n) /\ a <> broadcast w (net_of n)).
Proof. apply (prefix_correct (bstr "10.8.0.5/24")). vm_compute. reflexivity. Defined.
