(* ===== verification/NetAlloc.v ===== *)
(** * Address allocation ([src/src/db.rs], [src/src/api/admin.rs], [src/src/wg/config_gen.rs])

    The table of clients with its unique addresses, the choice of the next free
    address, the creation of a client, and the change of network that renumbers
    all of them. *)
From stdpp Require Import gmap sorting.
From S2P Require Import Prelude Text NetAddr Cidr.

(** ** The next free address *)

Inductive AllocError : Set := InvalidCidr | NoAddress | UniqueViolation.
#[export] Instance AllocError_eq_dec : EqDecision AllocError.
Proof. solve_decision. Defined.

(** The loop over the hosts. *)
Fixpoint find_host (fuel : nat) (ok : bytes -> bool) (show : Z -> bytes) (hosts : Range) : result AllocError bytes :=
  match fuel with
  | O => Stuck OutOfFuel
  | S fuel =>
      match range_next hosts with
      | (None, _) => Err NoAddress
      | (Some host, hosts) =>
          let ip := show host in
          if ok ip then Ok ip else find_host fuel ok show hosts
      end
  end.

(** The address of the server follows the one that is written, and wraps at the
    top of the space. *)
Definition server_v4 (n : Net) : Z := u32 (addr n + 1).
Definition server_v6 (n : Net) : Z := wrap 128 (addr n + 1).

Definition next_ipv4 (cidr : bytes) (used_ips : list bytes) : result AllocError bytes :=
  match parse_net4 cidr with
  | None => Err InvalidCidr
  | Some net =>
      let server_ip := show_ipv4 (server_v4 net) in
      find_host (length used_ips + 2) (fun ip => bool_decide (ip <> server_ip) && negb (bool_decide (ip ∈ used_ips)))
        show_ipv4 (hosts_v4 net)
  end.

Definition next_ipv6 (cidr : bytes) (used_ips : list bytes) : result AllocError bytes :=
  match parse_net6 cidr with
  | None => Err InvalidCidr
  | Some net =>
      let network_addr := show_ipv6 (addr net) in
      let server_ip := show_ipv6 (server_v6 net) in
      find_host (length used_ips + 3)
        (fun ip => bool_decide (ip <> network_addr) && bool_decide (ip <> server_ip) && negb (bool_decide (ip ∈ used_ips)))
        show_ipv6 (hosts_v6 net)
  end.

(** The [Address] of the server. *)
Definition server_ip (cidr : bytes) : bytes :=
  match parse_net4 cidr with
  | Some net => show_ipv4 (server_v4 net) ++ 47%Z :: decimal (prefix_len net)
  | None =>
      match parse_net6 cidr with
      | Some net => show_ipv6 (server_v6 net) ++ 47%Z :: decimal (prefix_len net)
      | None => cidr
      end
  end.

(** ** The table of clients *)

(** The columns that name addresses; JSON columns are kept as text. *)
Record Client : Set := mkClient {
  c_name : bytes; ipv4_address : option bytes; ipv6_address : option bytes;
  allowed_ips : option bytes; firewall_ips : option bytes; c_enabled : bool;
}.

Record Db : Set := mkDb { clients : gmap Z Client; next_id : Z; ipv4_cidr : bytes; ipv6_cidr : bytes }.

Definition set_addresses (v4 : bytes) (v6 : option bytes) (c : Client) : Client :=
  mkClient (c_name c) (Some v4) (match v6 with Some v6 => Some v6 | None => ipv6_address c end)
    (allowed_ips c) (firewall_ips c) (c_enabled c).

(** A column that must be unique: NULL is not a value. *)
Definition clash (x y : option bytes) : bool :=
  match x, y with Some a, Some b => bool_decide (a = b) | _, _ => false end.
Definition unique_for (id : Z) (c : Client) (m : gmap Z Client) : bool :=
  forallb (fun e => bool_decide (fst e = id)
                    || negb (clash (ipv4_address c) (ipv4_address (snd e)) || clash (ipv6_address c) (ipv6_address (snd e))))
    (map_to_list m).

(** [ORDER BY id]. *)
Definition by_id (x y : Z * Client) : Prop := (fst x ≤ fst y)%Z.
#[export] Instance by_id_dec x y : Decision (by_id x y).
Proof. unfold by_id. apply _. Defined.
Definition get_all_clients (m : gmap Z Client) : list (Z * Client) := merge_sort by_id (map_to_list m).

Definition insert_client (c : Client) (db : Db) : Db * result AllocError Z :=
  let id := next_id db in
  if unique_for id c (clients db) then (mkDb (<[id := c]> (clients db)) (id + 1) (ipv4_cidr db) (ipv6_cidr db), Ok id)
  else (db, Err UniqueViolation).

(** One transaction: an error leaves the table as it was. *)
Definition create_client_alloc_ip (data : Client) (v4_cidr v6_cidr : bytes) (db : Db) : Db * result AllocError Z :=
  let rows := snd <$> get_all_clients (clients db) in
  let used_v4 := omap ipv4_address rows in
  let used_v6 := omap ipv6_address rows in
  match (v4 ← next_ipv4 v4_cidr used_v4;
         if decide (v6_cidr = []) then Ok (v4, None)
         else v6 ← next_ipv6 v6_cidr used_v6; Ok (v4, Some v6)) with
  | Ok (v4, v6) =>
      insert_client (mkClient (c_name data) (Some v4) v6 (allowed_ips data) (firewall_ips data) (c_enabled data)) db
  | Err e => (db, Err e)
  | Stuck s => (db, Stuck s)
  end.

(** The flag is false for an id that no row has, which the code reports as an error. *)
Definition delete_client (id : Z) (db : Db) : Db * bool :=
  (mkDb (delete id (clients db)) (next_id db) (ipv4_cidr db) (ipv6_cidr db), bool_decide (is_Some (clients db !! id))).

(** [update_client] with the two address columns; an unknown id changes nothing. *)
Definition update_client (id : Z) (v4 : bytes) (v6 : option bytes) (db : Db) : Db * result AllocError unit :=
  match clients db !! id with
  | None => (db, Ok tt)
  | Some c =>
      let c := set_addresses v4 v6 c in
      if unique_for id c (clients db)
      then (mkDb (<[id := c]> (clients db)) (next_id db) (ipv4_cidr db) (ipv6_cidr db), Ok tt)
      else (db, Err UniqueViolation)
  end.

Definition update_cidr (v4 v6 : bytes) (db : Db) : Db := mkDb (clients db) (next_id db) v4 v6.

(** The loop of [change_cidr]: each client is its own statement. *)
Fixpoint renumber (v4_cidr v6_cidr : bytes) (ids : list Z) (used_v4 used_v6 : list bytes) (db : Db)
    : Db * result AllocError unit :=
  match ids with
  | [] => (db, Ok tt)
  | id :: ids =>
      match next_ipv4 v4_cidr used_v4 with
      | Ok v4 =>
          match (if decide (v6_cidr = []) then Ok None else v6 ← next_ipv6 v6_cidr used_v6; Ok (Some v6)) with
          | Ok v6 =>
              let '(db, r) := update_client id v4 v6 db in
              match r with
              | Ok _ => renumber v4_cidr v6_cidr ids (used_v4 ++ [v4]) (used_v6 ++ option_list v6) db
              | Err e => (db, Err e)
              | Stuck s => (db, Stuck s)
              end
          | Err e => (db, Err e)
          | Stuck s => (db, Stuck s)
          end
      | Err e => (db, Err e)
      | Stuck s => (db, Stuck s)
      end
  end.

Definition change_cidr (v4_cidr v6_cidr : bytes) (db : Db) : Db * result AllocError unit :=
  let db := update_cidr v4_cidr v6_cidr db in
  renumber v4_cidr v6_cidr (fst <$> get_all_clients (clients db)) [] [] db.

Example next_ipv4_skips :
  next_ipv4 (bstr "10.8.0.0/29") [bstr "10.8.0.2"; bstr "10.8.0.4"] = Ok (bstr "10.8.0.3")
  /\ next_ipv4 (bstr "10.8.0.0/30") [bstr "10.8.0.2"] = Err NoAddress
  /\ next_ipv6 (bstr "fd00::/112") [bstr "fd00::2"] = Ok (bstr "fd00::3").
Proof. by vm_compute. Qed.

(** ** The choice *)

Definition rejected (ok : bytes -> bool) (show : Z -> bytes) (a : Z) : Prop := ok (show a) = false.

Lemma find_host_spec fuel ok show hosts bads :
  NoDup (show <$> range_list hosts) ->
  (forall a, a ∈ range_list hosts -> rejected ok show a -> show a ∈ bads) -> length bads < fuel ->
  match find_host fuel ok show hosts with
  | Ok ip => exists l1 a l2, range_list hosts = l1 ++ a :: l2 /\ ip = show a /\ ok ip = true /\ Forall (rejected ok show) l1
  | Err e => e = NoAddress /\ Forall (rejected ok show) (range_list hosts)
  | Stuck _ => False
  end.
Proof.
  revert hosts bads. induction fuel as [|fuel IH]; intros hosts bads Hnd Hbad Hf; [lia|]. cbn [find_host].
  pose proof (range_next_spec hosts) as Hn. destruct (range_list hosts) as [|a l] eqn:El; [by rewrite Hn|].
  destruct Hn as (hosts' & -> & Hl). destruct (ok (show a)) eqn:Eok; [by exists [], a, l|].
  rewrite fmap_cons, NoDup_cons in Hnd. destruct Hnd as [Hna Hnd].
  assert (length (filter (fun b => b <> show a) bads) < length bads) as Hlen.
  { apply (length_filter_lt _ _ (show a)); [by apply Hbad; [left|]|by intros []]. }
  specialize (IH hosts' (filter (fun b => b <> show a) bads)). rewrite Hl in IH.
  destruct (find_host fuel ok show hosts') as [ip|e|s].
  - destruct IH as (l1 & b & l2 & -> & -> & Hok & Hr); [done| |lia|].
    { intros b Hb Hrej. apply list_elem_of_filter. split; [|by apply Hbad; [right|]].
      intros E. apply Hna. rewrite <- E. by apply list_elem_of_fmap_2. }
    exists (a :: l1), b, l2. split_and!; try done. by constructor.
  - destruct IH as [-> Hr]; [done| |lia|split; [done|by constructor]].
    intros b Hb Hrej. apply list_elem_of_filter. split; [|by apply Hbad; [right|]].
    intros E. apply Hna. rewrite <- E. by apply list_elem_of_fmap_2.
  - apply IH; [done| |lia]. intros b Hb Hrej. apply list_elem_of_filter. split; [|by apply Hbad; [right|]].
    intros E. apply Hna. rewrite <- E. by apply list_elem_of_fmap_2.
Qed.

(** The outcome over ascending hosts: the first free one, or none is. *)
Definition first_free (host free : Z -> Prop) (show : Z -> bytes) (r : result AllocError bytes) : Prop :=
  match r with
  | Ok ip => exists a, ip = show a /\ host a /\ free a /\ forall b, host b -> (b < a)%Z -> ~ free b
  | Err e => e = NoAddress /\ forall b, host b -> ~ free b
  | Stuck _ => False
  end.

Lemma find_host_first fuel ok show hosts bads (host free : Z -> Prop) :
  (forall a, a ∈ range_list hosts <-> host a) -> (forall a, host a -> ok (show a) = true <-> free a) ->
  (forall a b, host a -> host b -> show a = show b -> a = b) ->
  (forall a, host a -> rejected ok show a -> show a ∈ bads) -> length bads < fuel ->
  first_free host free show (find_host fuel ok show hosts).
Proof.
  intros Hhost Hfree Hinj Hbad Hf.
  assert (NoDup (show <$> range_list hosts)) as Hnd.
  { apply NoDup_fmap_2_strong; [|apply range_nodup]. intros a b Ha%Hhost Hb%Hhost. by apply Hinj. }
  pose proof (find_host_spec fuel ok show hosts bads Hnd ltac:(intros a Ha; apply Hbad; by apply Hhost) Hf) as H.
  destruct (find_host fuel ok show hosts) as [ip|e|s]; cbn; [| |done].
  - destruct H as (l1 & a & l2 & El & -> & Hok & Hr). exists a.
    assert (host a) as Ha by (apply Hhost; rewrite El; apply elem_of_app; right; left).
    split_and!; [done|done|by apply Hfree|]. intros b Hb Hlt Hfb.
    pose proof (range_ascending hosts) as Hs. rewrite El in Hs.
    apply Hhost in Hb as Hin. rewrite El, elem_of_app, elem_of_cons in Hin. destruct Hin as [Hin|[->|Hin]].
    + rewrite Forall_forall in Hr. specialize (Hr b Hin). apply (Hfree b Hb) in Hfb. unfold rejected in Hr. congruence.
    + lia.
    + apply StronglySorted_app in Hs as (_ & _ & Hs). apply StronglySorted_inv in Hs as [_ Hs].
      rewrite Forall_forall in Hs. specialize (Hs b Hin). lia.
  - destruct H as [-> Hr]. split; [done|]. intros b Hb Hfb. apply Hhost in Hb as Hin.
    rewrite Forall_forall in Hr. specialize (Hr b Hin). apply (Hfree b Hb) in Hfb. unfold rejected in Hr. congruence.
Qed.

(** [first_free] for the two families. *)
Definition free_v4 (net : Net) (used : list bytes) (a : Z) : Prop := a <> server_v4 net /\ show_ipv4 a ∉ used.
Definition free_v6 (net : Net) (used : list bytes) (a : Z) : Prop :=
  a <> addr net /\ a <> server_v6 net /\ show_ipv6 a ∉ used.
Definition host_v6 (net : Net) (a : Z) : Prop := (network 128 net ≤ a ≤ broadcast 128 net)%Z.

Lemma host_v4_range net a : net_ok 32 net -> host_v4 net a -> v4_range a.
Proof.
  intros Hn Ha. destruct (network_spec 32 net Hn) as (_ & H1 & H2). pose proof (broadcast_spec 32 net Hn).
  destruct Hn as [Hr _]. unfold host_v4 in Ha. unfold v4_range. case_decide; lia.
Qed.

Lemma host_v6_range net a : net_ok 128 net -> host_v6 net a -> v6_range a.
Proof.
  intros Hn Ha. destruct (network_spec 128 net Hn) as (_ & H1 & H2). pose proof (broadcast_spec 128 net Hn).
  destruct Hn as [Hr _]. unfold host_v6 in Ha. unfold v6_range. lia.
Qed.

Lemma wrap_range' w z : (0 ≤ w)%Z -> (0 ≤ wrap w z < 2 ^ w)%Z.
Proof. intros Hw. apply Z.mod_pos_bound. by apply Z.pow_pos_nonneg. Qed.

Lemma show_ipv4_inj a b : v4_range a -> v4_range b -> show_ipv4 a = show_ipv4 b <-> a = b.
Proof. intros Ha Hb. split; [|by intros ->]. intros E. by apply (show_ip_inj (V4 a) (V4 b)) in E as [= ->]. Qed.

Lemma show_ipv6_inj a b : v6_range a -> v6_range b -> show_ipv6 a = show_ipv6 b <-> a = b.
Proof. intros Ha Hb. split; [|by intros ->]. intros E. by apply (show_ip_inj (V6 a) (V6 b)) in E as [= ->]. Qed.

Lemma next_ipv4_spec cidr used net :
  parse_net4 cidr = Some net -> first_free (host_v4 net) (free_v4 net used) show_ipv4 (next_ipv4 cidr used).
Proof.
  intros E. unfold next_ipv4. rewrite E. apply parse_net4_inv in E as (Hn & _ & _).
  assert (v4_range (server_v4 net)) as Hs by by apply (wrap_range' 32).
  apply (find_host_first _ _ _ _ (show_ipv4 (server_v4 net) :: used)); [by intros; apply hosts_v4_spec| | | |cbn; lia].
  - intros a Ha%host_v4_range; [|done]. unfold free_v4. rewrite andb_true_iff, negb_true_iff, bool_decide_eq_true, bool_decide_eq_false.
    by rewrite show_ipv4_inj.
  - intros a b Ha%host_v4_range Hb%host_v4_range; [|done..]. by apply show_ipv4_inj.
  - intros a _. unfold rejected. rewrite andb_false_iff, negb_false_iff, bool_decide_eq_true, bool_decide_eq_false, elem_of_cons.
    intros [H|H]; [left|by right]. destruct (decide (show_ipv4 a = show_ipv4 (server_v4 net))); tauto.
Qed.

Lemma next_ipv6_spec cidr used net :
  parse_net6 cidr = Some net -> first_free (host_v6 net) (free_v6 net used) show_ipv6 (next_ipv6 cidr used).
Proof.
  intros E. unfold next_ipv6. rewrite E. apply parse_net6_inv in E as (Hn & _ & _).
  assert (v6_range (server_v6 net)) as Hs by by apply (wrap_range' 128).
  assert (v6_range (addr net)) as Hnet by apply Hn.
  apply (find_host_first _ _ _ _ (show_ipv6 (addr net) :: show_ipv6 (server_v6 net) :: used)); [apply hosts_v6_spec| | | |cbn; lia].
  - intros a Ha%host_v6_range; [|done]. unfold free_v6.
    rewrite !andb_true_iff, negb_true_iff, !bool_decide_eq_true, bool_decide_eq_false. rewrite !show_ipv6_inj by done. tauto.
  - intros a b Ha%host_v6_range Hb%host_v6_range; [|done..]. by apply show_ipv6_inj.
  - intros a _. unfold rejected.
    rewrite !andb_false_iff, negb_false_iff, bool_decide_eq_true, !bool_decide_eq_false, !elem_of_cons.
    destruct (decide (show_ipv6 a = show_ipv6 (addr net))); destruct (decide (show_ipv6 a = show_ipv6 (server_v6 net))); tauto.
Qed.

(** ** The table *)

Definition shares (c d : Client) : bool :=
  clash (ipv4_address c) (ipv4_address d) || clash (ipv6_address c) (ipv6_address d).

Record db_ok (db : Db) : Prop := {
  ids_used i c : clients db !! i = Some c -> (i < next_id db)%Z;
  addresses_unique i j c d : clients db !! i = Some c -> clients db !! j = Some d -> i <> j -> shares c d = false;
}.

Lemma clash_sym x y : clash x y = clash y x.
Proof. destruct x, y; cbn; try done. by apply bool_decide_ext. Qed.

Lemma shares_sym c d : shares c d = shares d c.
Proof. unfold shares. by rewrite (clash_sym (ipv4_address c)), (clash_sym (ipv6_address c)). Qed.

Lemma unique_for_spec id c m :
  unique_for id c m = true <-> forall j d, m !! j = Some d -> j <> id -> shares c d = false.
Proof.
  unfold unique_for. rewrite forallb_forall. split.
  - intros H j d Hj Hne. specialize (H (j, d)). rewrite <- list_elem_of_In, elem_of_map_to_list in H. specialize (H Hj).
    cbn [fst snd] in H. rewrite bool_decide_eq_false_2 in H by done. by apply negb_true_iff in H.
  - intros H [j d] Hin. rewrite <- list_elem_of_In, elem_of_map_to_list in Hin. cbn [fst snd].
    case_bool_decide as Hne; [done|]. cbn [orb]. apply negb_true_iff. by apply (H j).
Qed.

Lemma insert_unique db id c next v4 v6 :
  db_ok db -> (id < next)%Z -> (next_id db ≤ next)%Z -> unique_for id c (clients db) = true ->
  db_ok (mkDb (<[id := c]> (clients db)) next v4 v6).
Proof.
  intros [Hid Hu] Hlt Hle Hc. rewrite unique_for_spec in Hc. split; cbn [clients next_id].
  - intros i d. rewrite lookup_insert_Some. intros [[<- _]|[_ Hi%Hid]]; lia.
  - intros i j d e. rewrite !lookup_insert_Some.
    intros [[<- <-]|[Hi Hd]] [[<- <-]|[Hj He]] Hne; [done|by eapply Hc| |by eapply Hu].
    rewrite shares_sym. by eapply Hc.
Qed.

Lemma insert_client_ok c db : db_ok db -> db_ok (insert_client c db).1.
Proof.
  intros Hok. unfold insert_client. destruct (unique_for _ _ _) eqn:E; [|done]. apply insert_unique; (done || lia).
Qed.

Lemma create_client_ok data v4 v6 db : db_ok db -> db_ok (create_client_alloc_ip data v4 v6 db).1.
Proof.
  intros Hok. unfold create_client_alloc_ip. destruct (_ ← next_ipv4 _ _; _) as [[a b]|e|s]; [|done..].
  by apply insert_client_ok.
Qed.

Lemma delete_client_ok id db : db_ok db -> db_ok (delete_client id db).1.
Proof.
  intros [Hid Hu]. split; cbn [delete_client fst clients next_id].
  - intros i c. rewrite lookup_delete_Some. intros [_ Hi]. by eapply Hid.
  - intros i j c d. rewrite !lookup_delete_Some. intros [_ Hi] [_ Hj]. by eapply Hu.
Qed.

Lemma update_client_ok id v4 v6 db : db_ok db -> db_ok (update_client id v4 v6 db).1.
Proof.
  intros Hok. unfold update_client. destruct (clients db !! id) as [c|] eqn:E; [|done].
  destruct (unique_for _ _ _) eqn:Eu; [|done]. apply insert_unique; [done|by eapply ids_used|done|done].
Qed.

Lemma renumber_ok v4 v6 ids u4 u6 db : db_ok db -> db_ok (renumber v4 v6 ids u4 u6 db).1.
Proof.
  revert u4 u6 db. induction ids as [|id ids IH]; intros u4 u6 db Hok; cbn [renumber]; [done|].
  destruct (next_ipv4 v4 u4) as [a|e|s]; [|done..]. destruct (if decide _ then _ else _) as [b|e|s]; [|done..].
  pose proof (update_client_ok id a b db Hok) as Hok'. destruct (update_client id a b db) as [db' [r|e|s]]; [|done..].
  by apply IH.
Qed.

Lemma change_cidr_ok v4 v6 db : db_ok db -> db_ok (change_cidr v4 v6 db).1.
Proof. intros [Hid Hu]. apply renumber_ok. by split. Qed.

(** ** Creating a client *)

Lemma elem_of_all_clients m i c : (i, c) ∈ get_all_clients m <-> m !! i = Some c.
Proof. unfold get_all_clients. rewrite merge_sort_Permutation. apply elem_of_map_to_list. Qed.

Lemma used_addresses (f : Client -> option bytes) m a :
  a ∈ omap f (snd <$> get_all_clients m) <-> exists i c, m !! i = Some c /\ f c = Some a.
Proof.
  rewrite list_elem_of_omap. split.
  - intros (c & ([i d] & -> & Hin)%list_elem_of_fmap & Hf). exists i, d. by rewrite <- elem_of_all_clients.
  - intros (i & c & Hi & Hf). exists c. split; [|done]. apply list_elem_of_fmap. exists (i, c).
    by rewrite elem_of_all_clients.
Qed.

(** A client whose addresses no row has. *)
Lemma fresh_unique id c m :
  (forall a, ipv4_address c = Some a -> a ∉ omap ipv4_address (snd <$> get_all_clients m)) ->
  (forall a, ipv6_address c = Some a -> a ∉ omap ipv6_address (snd <$> get_all_clients m)) ->
  unique_for id c m = true.
Proof.
  intros H4 H6. apply unique_for_spec. intros j d Hj _. unfold shares. apply orb_false_iff. split.
  - destruct (ipv4_address c) as [a|] eqn:Ea; [|done]. destruct (ipv4_address d) as [b|] eqn:Eb; [|done].
    cbn. apply bool_decide_eq_false. intros ->. apply (H4 b eq_refl), used_addresses. by exists j, d.
  - destruct (ipv6_address c) as [a|] eqn:Ea; [|done]. destruct (ipv6_address d) as [b|] eqn:Eb; [|done].
    cbn. apply bool_decide_eq_false. intros ->. apply (H6 b eq_refl), used_addresses. by exists j, d.
Qed.

(** The address that was chosen: the first free one of its network. *)
Definition chosen_v4 (cidr : bytes) (used : list bytes) (ip : bytes) : Prop :=
  exists net a, parse_net4 cidr = Some net /\ ip = show_ipv4 a /\ host_v4 net a /\ free_v4 net used a
    /\ forall b, host_v4 net b -> (b < a)%Z -> ~ free_v4 net used b.
Definition chosen_v6 (cidr : bytes) (used : list bytes) (ip : bytes) : Prop :=
  exists net a, parse_net6 cidr = Some net /\ ip = show_ipv6 a /\ host_v6 net a /\ free_v6 net used a
    /\ forall b, host_v6 net b -> (b < a)%Z -> ~ free_v6 net used b.

(** Why there is none. *)
Definition no_v4 (cidr : bytes) (used : list bytes) (e : AllocError) : Prop :=
  match parse_net4 cidr with
  | None => e = InvalidCidr
  | Some net => e = NoAddress /\ forall b, host_v4 net b -> ~ free_v4 net used b
  end.
Definition no_v6 (cidr : bytes) (used : list bytes) (e : AllocError) : Prop :=
  match parse_net6 cidr with
  | None => e = InvalidCidr
  | Some net => e = NoAddress /\ forall b, host_v6 net b -> ~ free_v6 net used b
  end.

Lemma next_ipv4_cases cidr used :
  (exists ip, next_ipv4 cidr used = Ok ip /\ chosen_v4 cidr used ip)
  \/ exists e, next_ipv4 cidr used = Err e /\ no_v4 cidr used e.
Proof.
  unfold chosen_v4, no_v4. destruct (parse_net4 cidr) as [net|] eqn:E.
  - pose proof (next_ipv4_spec cidr used net E) as H. destruct (next_ipv4 cidr used) as [ip|e|s]; cbn in H; [left|right|done].
    + destruct H as (a & H). exists ip. split; [done|]. by exists net, a.
    + exists e. by split.
  - right. exists InvalidCidr. split; [|done]. unfold next_ipv4. by rewrite E.
Qed.

Lemma next_ipv6_cases cidr used :
  (exists ip, next_ipv6 cidr used = Ok ip /\ chosen_v6 cidr used ip)
  \/ exists e, next_ipv6 cidr used = Err e /\ no_v6 cidr used e.
Proof.
  unfold chosen_v6, no_v6. destruct (parse_net6 cidr) as [net|] eqn:E.
  - pose proof (next_ipv6_spec cidr used net E) as H. destruct (next_ipv6 cidr used) as [ip|e|s]; cbn in H; [left|right|done].
    + destruct H as (a & H). exists ip. split; [done|]. by exists net, a.
    + exists e. by split.
  - right. exists InvalidCidr. split; [|done]. unfold next_ipv6. by rewrite E.
Qed.

Lemma chosen_v4_fresh cidr used ip : chosen_v4 cidr used ip -> ip ∉ used.
Proof. by intros (net & a & _ & -> & _ & [_ H] & _). Qed.

Lemma chosen_v6_fresh cidr used ip : chosen_v6 cidr used ip -> ip ∉ used.
Proof. by intros (net & a & _ & -> & _ & (_ & _ & H) & _). Qed.

(** C20: Creating a client gives it the first free host of the network, which is
    never the address of the server or of another client, so that the insertion
    never violates the uniqueness of the columns; it fails only when a network
    does not parse or has no free host, and then changes nothing. *)
Theorem create_client_fresh (data : Client) (v4_cidr v6_cidr : bytes) (db : Db) :
  db_ok db ->
  let used_v4 := omap ipv4_address (snd <$> get_all_clients (clients db)) in
  let used_v6 := omap ipv6_address (snd <$> get_all_clients (clients db)) in
  let '(db', r) := create_client_alloc_ip data v4_cidr v6_cidr db in
  db_ok db' /\
  match r with
  | Ok id => exists v4 v6,
      id = next_id db /\ clients db !! id = None
      /\ clients db' = <[id := mkClient (c_name data) (Some v4) v6 (allowed_ips data) (firewall_ips data) (c_enabled data)]> (clients db)
      /\ chosen_v4 v4_cidr used_v4 v4
      /\ match v6 with Some v6 => chosen_v6 v6_cidr used_v6 v6 | None => v6_cidr = [] end
  | Err e => db' = db /\ (no_v4 v4_cidr used_v4 e \/ v6_cidr <> [] /\ no_v6 v6_cidr used_v6 e)
  | Stuck _ => False
  end.
Proof.
  intros Hok. cbn zeta. pose proof (create_client_ok data v4_cidr v6_cidr db Hok) as Hok'. revert Hok'.
  unfold create_client_alloc_ip. set (used4 := omap ipv4_address _). set (used6 := omap ipv6_address _).
  destruct (next_ipv4_cases v4_cidr used4) as [(v4 & E4 & H4)|(e & E4 & H4)]; rewrite E4;
    [rewrite bind_Ok_eq|cbn; intros ?; split; [done|]; split; [done|by left]].
  assert (clients db !! next_id db = None) as Hnew.
  { destruct (clients db !! next_id db) as [c|] eqn:E; [|done]. apply (ids_used db Hok) in E. lia. }
  case_decide as H6.
  - unfold insert_client. rewrite fresh_unique; [|by intros a [= <-]; apply chosen_v4_fresh in H4|done].
    intros Hok'. split; [done|]. by exists v4, None.
  - destruct (next_ipv6_cases v6_cidr used6) as [(v6 & E6 & Hv6)|(e & E6 & Hv6)]; rewrite E6;
      [rewrite bind_Ok_eq|cbn; intros ?; split; [done|]; split; [done|by right]].
    unfold insert_client. rewrite fresh_unique;
      [|by intros a [= <-]; apply chosen_v4_fresh in H4|by intros a [= <-]; apply chosen_v6_fresh in Hv6].
    intros Hok'. split; [done|]. by exists v4, (Some v6).
Qed.

(** ** Changing the network *)

(** The addresses of a client in the networks of the interface. *)
Definition in_networks (v4_cidr v6_cidr : bytes) (c : Client) : Prop :=
  (exists net a, parse_net4 v4_cidr = Some net /\ ipv4_address c = Some (show_ipv4 a) /\ host_v4 net a /\ a <> server_v4 net)
  /\ (v6_cidr <> [] -> exists net a, parse_net6 v6_cidr = Some net /\ ipv6_address c = Some (show_ipv6 a)
        /\ host_v6 net a /\ a <> addr net /\ a <> server_v6 net).

Lemma chosen_in_networks v4_cidr v6_cidr u4 u6 v4 v6 c :
  chosen_v4 v4_cidr u4 v4 -> match v6 with Some v6 => chosen_v6 v6_cidr u6 v6 | None => v6_cidr = [] end ->
  in_networks v4_cidr v6_cidr (set_addresses v4 v6 c).
Proof.
  intros (net & a & Hp & -> & Hh & [Hs _] & _) H6. split; [by exists net, a|]. intros Hne.
  destruct v6 as [v6|]; [|done]. destruct H6 as (net6 & b & Hp6 & -> & Hh6 & (Ha & Hs6 & _) & _). by exists net6, b.
Qed.

Lemma renumber_keeps v4 v6 ids u4 u6 db db' r :
  renumber v4 v6 ids u4 u6 db = (db', r) ->
  next_id db' = next_id db /\ ipv4_cidr db' = ipv4_cidr db /\ ipv6_cidr db' = ipv6_cidr db
  /\ dom (clients db') = dom (clients db) /\ forall id, id ∉ ids -> clients db' !! id = clients db !! id.
Proof.
  revert u4 u6 db. induction ids as [|i ids IH]; intros u4 u6 db; cbn [renumber]; [by intros [= <- _]|].
  destruct (next_ipv4 v4 u4) as [a|e|s]; [|by intros [= <- _]..].
  destruct (if decide _ then _ else _) as [b|e|s]; [|by intros [= <- _]..].
  assert (next_id (update_client i a b db).1 = next_id db /\ ipv4_cidr (update_client i a b db).1 = ipv4_cidr db
          /\ ipv6_cidr (update_client i a b db).1 = ipv6_cidr db
          /\ dom (clients (update_client i a b db).1) = dom (clients db)
          /\ forall id, id <> i -> clients (update_client i a b db).1 !! id = clients db !! id) as Hu.
  { unfold update_client. destruct (clients db !! i) as [c|] eqn:E; [|done]. destruct (unique_for _ _ _); [|done].
    cbn. split_and!; [done..| |].
    - rewrite dom_insert_L. apply elem_of_dom_2 in E. set_solver.
    - intros id Hne. by rewrite lookup_insert_ne. }
  destruct (update_client i a b db) as [db1 [r1|e|s]]; cbn [fst] in Hu; destruct Hu as (U1 & U2 & U3 & U4 & U5).
  - intros E. destruct (IH _ _ _ E) as (H1 & H2 & H3 & H4 & H5). split_and!; [congruence..|].
    intros id Hid. rewrite elem_of_cons in Hid. rewrite H5, U5 by tauto. done.
  - intros [= <- _]. split_and!; try done. intros id Hid. rewrite elem_of_cons in Hid. apply U5. tauto.
  - intros [= <- _]. split_and!; try done. intros id Hid. rewrite elem_of_cons in Hid. apply U5. tauto.
Qed.

Lemma next_v6_cases v6_cidr u6 (r : result AllocError (option bytes)) :
  r = (if decide (v6_cidr = []) then Ok None else v6 ← next_ipv6 v6_cidr u6; Ok (Some v6)) ->
  (exists v6, r = Ok v6 /\ match v6 with Some v6 => chosen_v6 v6_cidr u6 v6 | None => v6_cidr = [] end)
  \/ exists e, r = Err e.
Proof.
  intros ->. case_decide; [left; by exists None|]. destruct (next_ipv6_cases v6_cidr u6) as [(v6 & -> & Hv)|(e & -> & _)].
  - left. by exists (Some v6).
  - right. by exists e.
Qed.

Lemma renumber_done v4_cidr v6_cidr ids u4 u6 db db' r :
  renumber v4_cidr v6_cidr ids u4 u6 db = (db', r) -> NoDup ids ->
  (forall s, r <> Stuck s)
  /\ (r = Ok tt -> forall id c, id ∈ ids -> clients db' !! id = Some c -> in_networks v4_cidr v6_cidr c).
Proof.
  revert u4 u6 db. induction ids as [|i ids IH]; intros u4 u6 db; cbn [renumber].
  { intros [= <- <-] _. split; [done|]. intros _ id c Hin. by apply elem_of_nil in Hin. }
  destruct (next_ipv4_cases v4_cidr u4) as [(v4 & -> & H4)|(e & -> & _)]; [|by intros [= <- <-]].
  destruct (next_v6_cases v6_cidr u6 _ eq_refl) as [(v6 & -> & H6)|(e & ->)]; [|by intros [= <- <-]].
  unfold update_client. destruct (clients db !! i) as [c0|] eqn:Ec.
  2: { intros E [Hni Hnd]%NoDup_cons. destruct (IH _ _ _ E Hnd) as [Hs Hin]. split; [done|].
       intros Hr id c [->|Hid]%elem_of_cons Hc; [|by eapply Hin].
       destruct (renumber_keeps _ _ _ _ _ _ _ _ E) as (_ & _ & _ & Hd & _).
       exfalso. apply elem_of_dom_2 in Hc. rewrite Hd in Hc. apply elem_of_dom in Hc as [? Hc]. congruence. }
  destruct (unique_for _ _ _); [|by intros [= <- <-]].
  intros E [Hni Hnd]%NoDup_cons. destruct (IH _ _ _ E Hnd) as [Hs Hin]. split; [done|].
  intros Hr id c [->|Hid]%elem_of_cons Hc; [|by eapply Hin].
  destruct (renumber_keeps _ _ _ _ _ _ _ _ E) as (_ & _ & _ & _ & Hk).
  rewrite (Hk i Hni) in Hc. cbn in Hc. rewrite lookup_insert_eq in Hc. injection Hc as <-.
  by eapply chosen_in_networks.
Qed.

(** C21: Changing the network keeps the columns unique and the set of clients; when
    it succeeds every client has a host address of the new networks that is not
    the server's.  The networks of the interface are replaced in any case, also
    when the renumbering stops at an error. *)
Theorem change_cidr_renumbers (v4_cidr v6_cidr : bytes) (db db' : Db) (r : result AllocError unit) :
  db_ok db -> change_cidr v4_cidr v6_cidr db = (db', r) ->
  db_ok db' /\ dom (clients db') = dom (clients db) /\ ipv4_cidr db' = v4_cidr /\ ipv6_cidr db' = v6_cidr
  /\ (forall s, r <> Stuck s)
  /\ (r = Ok tt -> forall id c, clients db' !! id = Some c -> in_networks v4_cidr v6_cidr c).
Proof.
  intros Hok E. pose proof (change_cidr_ok v4_cidr v6_cidr db Hok) as Hok'. rewrite E in Hok'. cbn [fst] in Hok'.
  unfold change_cidr in E. cbn zeta in E. set (ids := fst <$> get_all_clients _) in E.
  assert (NoDup ids) as Hnd.
  { unfold ids, get_all_clients. rewrite merge_sort_Permutation. apply NoDup_fst_map_to_list. }
  destruct (renumber_keeps _ _ _ _ _ _ _ _ E) as (_ & H1 & H2 & H3 & _). destruct (renumber_done _ _ _ _ _ _ _ _ E Hnd) as [Hs Hin].
  split_and!; try done. intros Hr id c Hc. apply (Hin Hr id c); [|done].
  apply elem_of_dom_2 in Hc. rewrite H3 in Hc. apply elem_of_dom in Hc as [d Hd].
  apply list_elem_of_fmap. exists (id, d). split; [done|]. by apply elem_of_all_clients.
Qed.

(** ** Concrete tables *)

Definition bare (name : string) : Client := mkClient (bstr name) None None None None true.
Definition empty_db : Db := mkDb ∅ 1 (bstr "10.8.0.0/24") (bstr "fd00::/112").

Definition create (name : string) (db : Db) : Db := (create_client_alloc_ip (bare name) (ipv4_cidr db) (ipv6_cidr db) db).1.

Lemma empty_db_ok : db_ok empty_db.
Proof. split; intros *; unfold empty_db; cbn [clients]; by rewrite lookup_empty. Qed.

(** After a deletion the order of the clients is no longer that of their
    addresses: the first of them is given an address that the next one still has,
    and the change of network fails with the networks already replaced. *)
Definition reordered : Db := create "c" (delete_client 1 (create "b" (create "a" empty_db))).1.

Lemma reordered_ok : db_ok reordered.
Proof. by repeat (apply create_client_ok || apply delete_client_ok || apply empty_db_ok). Qed.

Lemma change_cidr_conflict :
  (change_cidr (bstr "10.8.0.0/25") (bstr "fd00::/112") reordered).2 = Err UniqueViolation
  /\ ipv4_cidr (change_cidr (bstr "10.8.0.0/25") (bstr "fd00::/112") reordered).1 = bstr "10.8.0.0/25"
  /\ clients (change_cidr (bstr "10.8.0.0/25") (bstr "fd00::/112") reordered).1 = clients reordered.
Proof. by vm_compute. Qed.

(** A network that does not parse is stored too. *)
Lemma change_cidr_garbage :
  change_cidr (bstr "nonsense") [] empty_db = (mkDb ∅ 1 (bstr "nonsense") [], Ok tt).
Proof. by vm_compute. Qed.

Lemma create_client_fresh_witness :
  exists v4 v6, (create_client_alloc_ip (bare "d") (ipv4_cidr reordered) (ipv6_cidr reordered) reordered).2 = Ok 4%Z
    /\ chosen_v4 (ipv4_cidr reordered) (omap ipv4_address (snd <$> get_all_clients (clients reordered))) v4
    /\ match v6 with Some v6 => chosen_v6 (ipv6_cidr reordered) (omap ipv6_address (snd <$> get_all_clients (clients reordered))) v6
       | None => False end.
Proof.
  pose proof (create_client_fresh (bare "d") (ipv4_cidr reordered) (ipv6_cidr reordered) reordered reordered_ok) as H.
  cbv zeta in H.
  assert ((create_client_alloc_ip (bare "d") (ipv4_cidr reordered) (ipv6_cidr reordered) reordered).2 = Ok 4%Z) as E
    by (vm_compute; reflexivity).
  destruct (create_client_alloc_ip (bare "d") (ipv4_cidr reordered) (ipv6_cidr reordered) reordered) as [db' r].
  cbn [snd] in E. subst r. destruct H as (_ & v4 & v6 & _ & _ & _ & H4 & H6). exists v4, v6. split; [reflexivity|].
  split; [exact H4|]. destruct v6; [exact H6|]. vm_compute in H6. discriminate H6.
Defined.

Definition moved : Db := (change_cidr (bstr "192.168.7.0/28") [] reordered).1.

Lemma change_cidr_renumbers_witness :
  db_ok moved /\ forall id c, clients moved !! id = Some c -> in_networks (bstr "192.168.7.0/28") [] c.
Proof.
  destruct (change_cidr_renumbers (bstr "192.168.7.0/28") [] reordered moved (Ok tt) reordered_ok
              ltac:(rewrite (surjective_pairing (change_cidr _ _ _)); f_equal; by vm_compute)) as (H1 & _ & _ & _ & _ & H2).
  split; [exact H1|exact (H2 eq_refl)].
Defined.
