(* ===== verification/Firewall.v ===== *)
(** * The firewall ([src/src/firewall.rs], [src/src/api/clients.rs])

    The text of the nftables transactions: the rules of each client, the redirection
    of DNS, the lockdown of the proxy's port, and the calls that apply them.  The
    [nft] program is a parameter: it takes a transaction or refuses it, and lists
    a chain.  JSON columns are read by a parameter. *)
From stdpp Require Import gmap.
From S2P Require Import Prelude Text NetAddr Cidr NetAlloc.

Definition TABLE : bytes := bstr "coffeeblack".
Definition CHAIN : bytes := bstr "wg-clients".
Definition DNS_FILTER_CHAIN : bytes := bstr "dns-lockdown".
Definition DNS_NAT_CHAIN : bytes := bstr "dns-prerouting".
Definition PROXY_LOCKDOWN_CHAIN : bytes := bstr "proxy-lockdown".

Definition NL : bytes := [10%Z].
Definition QUOTE : bytes := [34%Z].

(** ** Names *)

Definition is_ascii_alphanumeric (c : Z) : bool :=
  bool_decide (48 ≤ c ≤ 57)%Z || bool_decide (65 ≤ c ≤ 90)%Z || bool_decide (97 ≤ c ≤ 122)%Z.

(** Only ASCII characters are kept, so the filter may run over the bytes. *)
Definition comment_char (c : Z) : bool := is_ascii_alphanumeric c || bool_decide (c ∈ [32; 95; 45; 46]%Z).
Definition sanitize_comment (name : bytes) (id : Z) : bytes :=
  bstr "client " ++ decimal id ++ bstr ": " ++ take 80 (filter (fun c => comment_char c = true) name).

Definition iface_char (c : Z) : bool := is_ascii_alphanumeric c || bool_decide (c ∈ [95; 45]%Z).
Definition sanitize_iface (iface : bytes) : bytes := take 15 (filter (fun c => iface_char c = true) iface).

(** ** Targets *)

Definition strip_suffix (suffix s : bytes) : option bytes :=
  r ← strip_prefix (reverse suffix) (reverse s); Some (reverse r).

Definition checked_ip (ip : bytes) : option bytes :=
  if bool_decide (is_Some (parse_ip ip)) || bool_decide (is_Some (parse_net ip)) then Some ip else None.

Definition split_proto (entry : bytes) : bytes * option bytes :=
  match strip_suffix (bstr "/tcp") entry with
  | Some rest => (rest, Some (bstr "tcp"))
  | None => match strip_suffix (bstr "/udp") entry with Some rest => (rest, Some (bstr "udp")) | None => (entry, None) end
  end.

Definition count_byte (c : Z) (s : bytes) : nat := length (filter (fun x => x = c) s).

(** [body[1..end]] and [body[end + 1..]] of a body that starts with a bracket. *)
Definition bracketed (body : bytes) : option (bytes * bytes) :=
  match body with c :: tail => if decide (c = 91%Z) then split_once 93 tail else None | [] => None end.

(** A body that ends in a colon and digits, with no other colon. *)
Definition with_port (body : bytes) : option (bytes * bytes) :=
  if decide (count_byte COLON body ≤ 1) then
    '(ip, maybe_port) ← rsplit_once COLON body;
    if forallb is_ascii_digit maybe_port then Some (ip, maybe_port) else None
  else None.

Definition parse_target (entry : bytes) : option (bytes * option Z * option bytes) :=
  let '(body, proto) := split_proto entry in
  match bracketed body with
  | Some (ip, rest) =>
      match strip_prefix [COLON] rest with
      | Some port_str => ip ← checked_ip ip; port ← parse_uint 65535 port_str; Some (ip, Some port, proto)
      | None => ip ← checked_ip ip; Some (ip, None, proto)
      end
  | None =>
      match with_port body with
      | Some (ip, port_str) => ip ← checked_ip ip; port ← parse_uint 65535 port_str; Some (ip, Some port, proto)
      | None => ip ← checked_ip body; Some (ip, None, proto)
      end
  end.

(** ** The rules of a client *)

Definition gen_rules (src dst : bytes) (port : option Z) (proto : option bytes) (comment : bytes) (is_v6 : bool) : list bytes :=
  let fam := if is_v6 then bstr "ip6" else bstr "ip" in
  let prefix := bstr "add rule inet " ++ TABLE ++ bstr " " ++ CHAIN ++ bstr " " ++ fam ++ bstr " saddr " ++ src
                ++ bstr " " ++ fam ++ bstr " daddr " ++ dst in
  let mk proto_clause port_clause :=
    prefix ++ proto_clause ++ port_clause ++ bstr " accept comment " ++ QUOTE ++ comment ++ QUOTE in
  match port with
  | Some p =>
      let port_clause := bstr " dport " ++ decimal p in
      (if bool_decide (proto = None) || bool_decide (proto = Some (bstr "tcp")) then [mk (bstr " tcp") port_clause] else [])
      ++ (if bool_decide (proto = None) || bool_decide (proto = Some (bstr "udp")) then [mk (bstr " udp") port_clause] else [])
  | None => [mk [] []]
  end.

Section rules.
Context (json_arr : bytes -> option (list bytes)).

Definition targets_of (c : Client) (default_ips : list bytes) : list bytes :=
  match firewall_ips c with
  | Some ((_ :: _) as s) => default [] (json_arr s)
  | _ => match allowed_ips c with Some ((_ :: _) as s) => default [] (json_arr s) | _ => default_ips end
  end.

(** The rules of one target; a target that does not parse has none. *)
Definition target_rules (src4 src6 comment : bytes) (enable_ipv6 : bool) (t : bytes) : list bytes :=
  match parse_target t with
  | None => []
  | Some (ip, port, proto) =>
      let is_v6 := bool_decide (COLON ∈ ip) in
      if is_v6 && negb enable_ipv6 then [] else gen_rules (if is_v6 then src6 else src4) ip port proto comment is_v6
  end.

Definition client_rules (id : Z) (c : Client) (default_ips : list bytes) (enable_ipv6 : bool) : list bytes :=
  let src4 := default (bstr "0.0.0.0") (ipv4_address c) in
  let src6 := default (bstr "::") (ipv6_address c) in
  if negb (bool_decide (is_Some (parse_ipv4 src4))) then [] else
  if negb (bool_decide (is_Some (parse_ipv6 src6))) then [] else
  mjoin (target_rules src4 src6 (sanitize_comment (c_name c) id) enable_ipv6 <$> targets_of c default_ips).

Definition append_client_rules (txn : bytes) (e : Z * Client) (default_ips : list bytes) (enable_ipv6 : bool) : bytes :=
  txn ++ mjoin ((fun r => r ++ NL) <$> client_rules (fst e) (snd e) default_ips enable_ipv6).

(** The transaction of [rebuild_rules]. *)
Definition rules_txn (cs : list (Z * Client)) (default_ips : list bytes) (enable_ipv6 : bool) : bytes :=
  foldl (fun txn e => if c_enabled (snd e) then append_client_rules txn e default_ips enable_ipv6 else txn)
    (bstr "flush chain inet " ++ TABLE ++ bstr " " ++ CHAIN ++ NL) cs
  ++ bstr "add rule inet " ++ TABLE ++ bstr " " ++ CHAIN ++ bstr " drop" ++ NL.
End rules.

(** ** DNS *)

Inductive Family : Set := FamV4 | FamV6.
#[export] Instance Family_eq_dec : EqDecision Family.
Proof. solve_decision. Defined.

(** The brackets an operator may have typed. *)
Definition strip_brackets (t : bytes) : bytes :=
  default t (s ← strip_prefix [91%Z] t; strip_suffix [93%Z] s).

Definition parse_target_ip (target : bytes) : option (Family * bytes) :=
  let t := trim target in
  if decide (t = []) then None else
  if negb (bool_decide (DOT ∈ t) || bool_decide (COLON ∈ t)) then None else
  match parse_ipv4 t with
  | Some v4 => Some (FamV4, show_ipv4 v4)
  | None => v6 ← parse_ipv6 (strip_brackets t); Some (FamV6, show_ipv6 v6)
  end.

Definition DPORTS : bytes := bstr "dport { 53, 853 }".

Definition dns_dnat_rules (iface : bytes) (family : Family) (target : bytes) : list bytes :=
  let '(nfproto, dnat_kw, dst) :=
    match family with
    | FamV4 => (bstr "ipv4", bstr "dnat ip to", target)
    | FamV6 => (bstr "ipv6", bstr "dnat ip6 to", bstr "[" ++ target ++ bstr "]")
    end in
  let rule proto :=
    bstr "add rule inet " ++ TABLE ++ bstr " " ++ DNS_NAT_CHAIN ++ bstr " iifname " ++ QUOTE ++ iface ++ QUOTE
    ++ bstr " meta nfproto " ++ nfproto ++ bstr " " ++ proto ++ bstr " " ++ DPORTS ++ bstr " " ++ dnat_kw ++ bstr " " ++ dst
    ++ bstr ":53" in
  [rule (bstr "udp"); rule (bstr "tcp")].

Definition dns_filter_rules (family : Family) (target : bytes) : list bytes :=
  let saddr_kw := match family with FamV4 => bstr "ip daddr" | FamV6 => bstr "ip6 daddr" end in
  let head := bstr "add rule inet " ++ TABLE ++ bstr " " ++ DNS_FILTER_CHAIN ++ bstr " " in
  [head ++ saddr_kw ++ bstr " " ++ target ++ bstr " accept";
   head ++ bstr "udp " ++ DPORTS ++ bstr " drop"; head ++ bstr "tcp " ++ DPORTS ++ bstr " drop"].

Definition dns_leak_guard_rules (family : Family) : list bytes :=
  let other := match family with FamV4 => bstr "ipv6" | FamV6 => bstr "ipv4" end in
  let rule proto := bstr "add rule inet " ++ TABLE ++ bstr " " ++ DNS_FILTER_CHAIN ++ bstr " meta nfproto " ++ other
    ++ bstr " " ++ proto ++ bstr " " ++ DPORTS ++ bstr " drop" in
  [rule (bstr "udp"); rule (bstr "tcp")].

(** The transaction of [rebuild_dns_lockdown]. *)
Definition dns_txn (iface : bytes) (family : Family) (target : bytes) (block_external : bool) : bytes :=
  let filter_rules := if block_external then dns_filter_rules family target else dns_leak_guard_rules family in
  bstr "flush chain inet " ++ TABLE ++ bstr " " ++ DNS_NAT_CHAIN ++ NL
  ++ bstr "flush chain inet " ++ TABLE ++ bstr " " ++ DNS_FILTER_CHAIN ++ NL
  ++ mjoin ((fun r => r ++ NL) <$> dns_dnat_rules (sanitize_iface iface) family target)
  ++ mjoin ((fun r => r ++ NL) <$> filter_rules).
