(* ===== verification/FirewallSpec.v ===== *)
(** * A reader of nftables rules

    What the firewall's text means: words and quoted strings, the statements that
    occur in it, packets and the verdict of a chain.  Nothing of [Firewall] is
    used here. *)
From S2P Require Import Prelude Text NetAddr Cidr.

(** ** Tokens *)

Inductive Token : Set := Word (w : bytes) | Quoted (q : bytes).
#[export] Instance Token_eq_dec : EqDecision Token.
Proof. solve_decision. Defined.

(** Statements end at a semicolon as at a line, and a hash starts a comment: both
    are refused inside a word. *)
Definition word_char (c : Z) : bool := bool_decide (33 ≤ c ≤ 126)%Z && negb (bool_decide (c ∈ [34; 35; 59; 92]%Z)).
Definition quoted_char (c : Z) : bool := bool_decide (32 ≤ c ≤ 126)%Z && negb (bool_decide (c = 34%Z)).

Definition emit (w : bytes) : list Token := match w with [] => [] | _ => [Word w] end.

(** [q] inside a quoted string; [w] is the token so far. *)
Fixpoint lex (s : bytes) (q : bool) (w : bytes) : option (list Token) :=
  match s with
  | [] => if q then None else Some (emit w)
  | c :: s =>
      if q then
        if decide (c = 34%Z) then ts ← lex s false []; Some (Quoted w :: ts)
        else if quoted_char c then lex s true (w ++ [c]) else None
      else if decide (c = 34%Z) then match w with [] => lex s true [] | _ => None end
      else if decide (c = 32%Z) then ts ← lex s false []; Some (emit w ++ ts)
      else if word_char c then lex s false (w ++ [c]) else None
  end.

(** ** Rules *)

Inductive Proto : Set := Tcp | Udp.
#[export] Instance Proto_eq_dec : EqDecision Proto.
Proof. solve_decision. Defined.

Inductive IpFamily : Set := Ip4 | Ip6.
#[export] Instance IpFamily_eq_dec : EqDecision IpFamily.
Proof. solve_decision. Defined.

Definition family_of (a : IpAddr) : IpFamily := match a with V4 _ => Ip4 | V6 _ => Ip6 end.

Inductive Match : Set :=
  | Saddr (n : IpNet) | Daddr (n : IpNet) | Dport (p : Proto) (ports : list Z)
  | Nfproto (f : IpFamily) | Iifname (i : bytes) | Oifname (i : bytes).

Inductive Verdict : Set := Accept | Drop | Jump (chain : bytes) | Dnat (a : IpAddr) (port : Z).

Record Rule : Set := mkRule { rule_matches : list Match; verdict : Verdict }.

(** An address or a prefix. *)
Definition read_prefix (w : bytes) : option IpNet :=
  match parse_net w with
  | Some n => Some n
  | None => a ← parse_ip w; Some (match a with V4 a => Net4 (mkNet a 32) | V6 a => Net6 (mkNet a 128) end)
  end.
Definition net_family (n : IpNet) : IpFamily := match n with Net4 _ => Ip4 | Net6 _ => Ip6 end.

Definition read_family_kw (w : bytes) : option IpFamily :=
  if decide (w = bstr "ip") then Some Ip4 else if decide (w = bstr "ip6") then Some Ip6 else None.
Definition read_nfproto (w : bytes) : option IpFamily :=
  if decide (w = bstr "ipv4") then Some Ip4 else if decide (w = bstr "ipv6") then Some Ip6 else None.
Definition read_proto (w : bytes) : option Proto :=
  if decide (w = bstr "tcp") then Some Tcp else if decide (w = bstr "udp") then Some Udp else None.
Definition read_port (w : bytes) : option Z :=
  if forallb is_ascii_digit w then parse_uint 65535 w else None.

(** [ip saddr N], [tcp dport P], [tcp dport { P, P }], [meta nfproto F] and the
    names of interfaces: the match and what follows it. *)
Definition read_match (ts : list Token) : option (Match * list Token) :=
  match ts with
  | Word k :: Word f :: Word n :: ts' =>
      if decide (k = bstr "meta" /\ f = bstr "nfproto") then fam ← read_nfproto n; Some (Nfproto fam, ts')
      else match read_family_kw k with
      | Some fam =>
          n ← read_prefix n;
          if decide (net_family n <> fam) then None
          else if decide (f = bstr "saddr") then Some (Saddr n, ts')
          else if decide (f = bstr "daddr") then Some (Daddr n, ts') else None
      | None =>
          p ← read_proto k;
          if decide (f <> bstr "dport") then None
          else if decide (n = bstr "{") then
            match ts' with
            | Word a :: Word b :: Word e :: ts' =>
                if decide (e = bstr "}") then
                  '(a, sep) ← rsplit_once 44 a; if decide (sep = []) then a ← read_port a; b ← read_port b; Some (Dport p [a; b], ts') else None
                else None
            | _ => None
            end
          else n ← read_port n; Some (Dport p [n], ts')
      end
  | Word k :: Quoted i :: ts' =>
      if decide (k = bstr "iifname") then Some (Iifname i, ts')
      else if decide (k = bstr "oifname") then Some (Oifname i, ts') else None
  | _ => None
  end.

(** The address and the port of a translation; an IPv6 address has brackets. *)
Definition read_endpoint (fam : IpFamily) (w : bytes) : option (IpAddr * Z) :=
  '(a, p) ← rsplit_once COLON w;
  p ← read_port p;
  match fam with
  | Ip4 => a ← parse_ipv4 a; Some (V4 a, p)
  | Ip6 => match a with
           | c :: a => if decide (c = 91%Z) then '(a, e) ← rsplit_once 93 a; if decide (e = []) then a ← parse_ipv6 a; Some (V6 a, p) else None
                       else None
           | [] => None
           end
  end.

Definition read_verdict (ts : list Token) : option (Verdict * list Token) :=
  match ts with
  | Word k :: ts' =>
      if decide (k = bstr "accept") then Some (Accept, ts')
      else if decide (k = bstr "drop") then Some (Drop, ts')
      else if decide (k = bstr "jump") then match ts' with Word c :: ts' => Some (Jump c, ts') | _ => None end
      else if decide (k = bstr "dnat") then
        match ts' with
        | Word f :: Word t :: Word e :: ts' =>
            if decide (t = bstr "to") then fam ← read_family_kw f; '(a, p) ← read_endpoint fam e; Some (Dnat a p, ts') else None
        | _ => None
        end
      else None
  | _ => None
  end.

(** Nothing but a comment may follow the verdict. *)
Definition rule_end (ts : list Token) : bool :=
  match ts with
  | [] => true
  | [Word k; Quoted _] => bool_decide (k = bstr "comment")
  | _ => false
  end.

Fixpoint read_rule (fuel : nat) (ts : list Token) : option Rule :=
  match fuel with
  | O => None
  | S fuel =>
      match read_match ts with
      | Some (m, ts) => r ← read_rule fuel ts; Some (mkRule (m :: rule_matches r) (verdict r))
      | None => '(v, ts) ← read_verdict ts; if rule_end ts then Some (mkRule [] v) else None
      end
  end.

Inductive Statement : Set := AddRule (chain : bytes) (r : Rule) | FlushChain (chain : bytes).

(** Statements on the chains of one table. *)
Definition read_statement (table : bytes) (line : bytes) : option Statement :=
  ts ← lex line false [];
  match ts with
  | Word a :: Word b :: Word fam :: Word t :: Word chain :: ts =>
      if decide (fam <> bstr "inet" \/ t <> table) then None
      else if decide (a = bstr "add" /\ b = bstr "rule") then r ← read_rule (length ts) ts; Some (AddRule chain r)
      else if decide (a = bstr "flush" /\ b = bstr "chain" /\ ts = []) then Some (FlushChain chain)
      else None
  | _ => None
  end.

(** A transaction: lines, each with its end. *)
Definition read_txn (table : bytes) (s : bytes) : option (list Statement) :=
  match reverse (split_on (fun c => bool_decide (c = 10%Z)) s) with
  | [] :: lines => mapM (read_statement table) (reverse lines)
  | _ => None
  end.

(** ** Packets *)

Record Packet : Set := mkPacket { iif : bytes; oif : bytes; src : IpAddr; dst : IpAddr; l4 : option (Proto * Z) }.

Definition match_packet (p : Packet) (m : Match) : bool :=
  match m with
  | Saddr n => ipnet_contains n (src p)
  | Daddr n => ipnet_contains n (dst p)
  | Dport pr ports => match l4 p with Some (pr', port) => bool_decide (pr' = pr) && bool_decide (port ∈ ports) | None => false end
  | Nfproto f => bool_decide (family_of (src p) = f)
  | Iifname i => bool_decide (iif p = i)
  | Oifname i => bool_decide (oif p = i)
  end.
Definition match_rule (p : Packet) (r : Rule) : bool := forallb (match_packet p) (rule_matches r).

(** The verdict of the first rule that matches, if any. *)
Definition chain_verdict (rs : list Rule) (p : Packet) : option Verdict :=
  verdict <$> head (filter (fun r => match_rule p r = true) rs).

(** What a transaction leaves in a chain. *)
Definition chain_after (chain : bytes) (before : list Rule) (sts : list Statement) : list Rule :=
  foldl (fun rs st => match st with
                      | AddRule c r => if decide (c = chain) then rs ++ [r] else rs
                      | FlushChain c => if decide (c = chain) then [] else rs
                      end) before sts.

Definition a_rule : bytes :=
  bstr "add rule inet t c iifname " ++ [34%Z] ++ bstr "cb0" ++ [34%Z] ++ bstr " udp dport { 53, 853 } dnat ip6 to [fd00::53]:53".
Example read_a_rule :
  read_statement (bstr "t") a_rule
  = Some (AddRule (bstr "c") (mkRule [Iifname (bstr "cb0"); Dport Udp [53; 853]%Z] (Dnat (V6 (0xfd00 * 2 ^ 112 + 83)) 53))).
Proof. by vm_compute. Qed.
