(* ===== verification/FirewallProps.v ===== *)
(** * The firewall: what its text means

    The transactions as their reader sees them: rules without a surprise whatever
    names and targets the rows hold, and the packets they let through. *)
From stdpp Require Import gmap sorting.
From S2P Require Import Prelude Text NetAddr Cidr NetAlloc Firewall FirewallSpec.

(** ** Lines as tokens *)

Definition token_text (t : Token) : bytes := match t with Word w => w | Quoted q => 34%Z :: q ++ [34%Z] end.
Definition unlex (ts : list Token) : bytes := join_with 32%Z (token_text <$> ts).

Definition token_ok (t : Token) : Prop :=
  match t with
  | Word w => w <> [] /\ Forall (fun c => word_char c = true) w
  | Quoted q => Forall (fun c => quoted_char c = true) q
  end.
#[export] Instance token_ok_dec t : Decision (token_ok t).
Proof. destruct t; unfold token_ok; apply _. Defined.

Lemma word_char_plain c : word_char c = true -> c <> 34%Z /\ c <> 32%Z /\ c <> 10%Z.
Proof.
  unfold word_char. rewrite andb_true_iff, negb_true_iff, bool_decide_eq_true, bool_decide_eq_false.
  intros [H1 H2]. split_and!; [|lia..]. intros ->. apply H2. left.
Qed.

Lemma quoted_char_plain c : quoted_char c = true -> c <> 34%Z /\ c <> 10%Z.
Proof. unfold quoted_char. rewrite andb_true_iff, negb_true_iff, bool_decide_eq_true, bool_decide_eq_false. lia. Qed.

Lemma lex_word w r acc : Forall (fun c => word_char c = true) w -> lex (w ++ r) false acc = lex r false (acc ++ w).
Proof.
  intros Hw. revert acc. induction Hw as [|c w Hc _ IH]; intros acc; cbn [app lex]; [by rewrite app_nil_r|].
  destruct (word_char_plain c Hc) as (H1 & H2 & _). rewrite !decide_False, Hc by done. by rewrite IH, <- app_assoc.
Qed.

Lemma lex_quoted q r acc : Forall (fun c => quoted_char c = true) q ->
  lex (q ++ 34%Z :: r) true acc = (ts ← lex r false []; Some (Quoted (acc ++ q) :: ts)).
Proof.
  intros Hq. revert acc. induction Hq as [|c q Hc _ IH]; intros acc; cbn [app lex];
    [by rewrite decide_True, app_nil_r|].
  destruct (quoted_char_plain c Hc) as [H1 _]. rewrite decide_False, Hc by done. by rewrite IH, <- app_assoc.
Qed.

Lemma lex_token t r : token_ok t ->
  lex (token_text t ++ 32%Z :: r) false [] = (ts ← lex r false []; Some (t :: ts)).
Proof.
  intros Ht. destruct t as [w|q]; cbn [token_text token_ok] in *.
  - destruct Ht as [Hne Hw]. rewrite lex_word by done. cbn [lex app]. rewrite decide_False, decide_True by done.
    by destruct w.
  - cbn [app lex]. rewrite decide_True by done. rewrite <- app_assoc. cbn [app]. rewrite lex_quoted by done. cbn [lex app].
    rewrite decide_False, decide_True by done. cbn [emit app]. by destruct (lex r false []).
Qed.

Lemma lex_last t : token_ok t -> lex (token_text t) false [] = Some [t].
Proof.
  intros Ht. destruct t as [w|q]; cbn [token_text token_ok] in *.
  - destruct Ht as [Hne Hw]. rewrite <- (app_nil_r w), lex_word by done. cbn. rewrite app_nil_r. by destruct w.
  - cbn [lex]. rewrite decide_True by done. by rewrite lex_quoted.
Qed.

Lemma lex_unlex ts : Forall token_ok ts -> lex (unlex ts) false [] = Some ts.
Proof.
  intros Hts. induction Hts as [|t ts Ht Hts IH]; [done|]. destruct ts as [|t' ts]; [by apply lex_last|].
  change (unlex (t :: t' :: ts)) with (token_text t ++ 32%Z :: unlex (t' :: ts)).
  by rewrite lex_token, IH by done.
Qed.

Lemma unlex_one_line ts : Forall token_ok ts -> Forall (fun c => c <> 10%Z) (unlex ts).
Proof.
  assert (forall t, token_ok t -> Forall (fun c => c <> 10%Z) (token_text t)) as Htext.
  { intros [w|q]; cbn.
    - intros [_ Hw]. eapply Forall_impl; [exact Hw|]. intros c Hc. apply (word_char_plain c Hc).
    - intros Hq. constructor; [done|]. apply Forall_app. split; [|by constructor]. eapply Forall_impl; [exact Hq|].
      intros c Hc. apply (quoted_char_plain c Hc). }
  intros Hts. induction Hts as [|t ts Ht Hts IH]; [constructor|]. destruct ts as [|t' ts]; [by apply Htext|].
  change (unlex (t :: t' :: ts)) with (token_text t ++ 32%Z :: unlex (t' :: ts)).
  apply Forall_app. split; [by apply Htext|]. by constructor.
Qed.

Definition lines_text (ls : list bytes) : bytes := mjoin ((fun l => l ++ NL) <$> ls).

Lemma split_lines ls :
  Forall (Forall (fun c => c <> 10%Z)) ls -> split_on (fun c => bool_decide (c = 10%Z)) (lines_text ls) = ls ++ [[]].
Proof.
  intros Hls. induction Hls as [|l ls Hl _ IH]; [done|]. unfold lines_text. cbn [fmap list_fmap mjoin list_join].
  unfold NL. rewrite <- app_assoc. cbn [app]. rewrite split_on_app_sep; [by f_equal| |done].
  eapply Forall_impl; [exact Hl|]. intros c Hc. by apply bool_decide_eq_false.
Qed.

Lemma read_lines table ls :
  Forall (Forall (fun c => c <> 10%Z)) ls -> read_txn table (lines_text ls) = mapM (read_statement table) ls.
Proof.
  intros Hls. unfold read_txn. rewrite split_lines by done. rewrite reverse_app.
  change (reverse [[]]) with ([[]] : list bytes). cbn [app]. by rewrite reverse_involutive.
Qed.

(** ** Addresses as words *)

Lemma net_word_char c : net_char c -> word_char c = true.
Proof.
  intros H. assert (43 ≤ c ≤ 58 \/ 65 ≤ c ≤ 70 \/ 97 ≤ c ≤ 102)%Z as Hc.
  { destruct H as [[[d Hd]|[->| ->]]| ->]; [|unfold DOT; lia|unfold COLON; lia|lia].
    unfold to_digit, hex_value in Hd. repeat case_decide; cbn in Hd; try done; lia. }
  unfold word_char. apply andb_true_iff. rewrite negb_true_iff, bool_decide_eq_true, bool_decide_eq_false.
  split; [lia|]. rewrite !elem_of_cons, elem_of_nil. lia.
Qed.

Lemma net_word s : s <> [] -> Forall net_char s -> token_ok (Word s).
Proof. intros Hne Hs. split; [done|]. eapply Forall_impl; [exact Hs|]. apply net_word_char. Qed.

Lemma addr_net_char s : Forall addr_char s -> Forall net_char s.
Proof. intros Hs. eapply Forall_impl; [exact Hs|by left]. Qed.

Lemma parse_net_slash s n : parse_net s = Some n -> 47%Z ∈ s.
Proof.
  unfold parse_net, parse_net4, parse_net6, split_prefix.
  destruct (split_once 47 s) as [[a b]|] eqn:E; [|done]. apply split_once_spec in E as [-> _]. intros _.
  apply elem_of_app. right. left.
Qed.

(** An address alone is the prefix of its full length. *)
Definition host_net (a : IpAddr) : IpNet := match a with V4 a => Net4 (mkNet a 32) | V6 a => Net6 (mkNet a 128) end.

Lemma read_prefix_ip s a : parse_ip s = Some a -> read_prefix s = Some (host_net a) /\ token_ok (Word s).
Proof.
  intros E. destruct (parse_ip_inv s a E) as (Hc & Hne & _). split; [|apply net_word; [done|by apply addr_net_char]].
  unfold read_prefix. destruct (parse_net s) as [n|] eqn:En; [exfalso|by rewrite E].
  apply parse_net_slash in En. by apply (addr_text_slash s Hc).
Qed.

(** What [checked_ip] lets through is a prefix, of IPv6 when it has a colon. *)
Lemma checked_ip_inv ip ip' :
  checked_ip ip = Some ip' -> ip' = ip /\ token_ok (Word ip) /\ exists n, read_prefix ip = Some n /\ ipnet_ok n
    /\ net_family n = (if bool_decide (COLON ∈ ip) then Ip6 else Ip4).
Proof.
  unfold checked_ip. destruct (_ || _) eqn:E; [|done]. intros [= <-]. split; [done|].
  apply orb_true_iff in E. rewrite !bool_decide_eq_true in E. destruct E as [[a Ea]|[n En]].
  - destruct (read_prefix_ip ip a Ea) as [Hr Ht]. split; [done|]. exists (host_net a).
    destruct (parse_ip_inv ip a Ea) as (_ & _ & Ha). split; [done|].
    destruct a as [a|a]; destruct Ha as [Ha Hcol]; cbn; (split; [split; [exact Ha|cbn; lia]|]);
      [by rewrite bool_decide_eq_false_2|by rewrite bool_decide_eq_true_2].
  - destruct (parse_net_inv ip n En) as (Hok & Hc & Hcol). split.
    { apply net_word; [|done]. intros ->. apply parse_net_slash in En. by apply elem_of_nil in En. }
    exists n. split; [unfold read_prefix; by rewrite En|]. split; [done|].
    destruct n; cbn; [by rewrite bool_decide_eq_false_2|by rewrite bool_decide_eq_true_2].
Qed.

(** A host prefix contains its address only. *)
Lemma host_net_contains a b : ip_range a -> ip_range b -> ipnet_contains (host_net a) b = bool_decide (a = b).
Proof.
  assert (forall w a b, (0 ≤ w)%Z -> (0 ≤ a < 2 ^ w)%Z -> (0 ≤ b < 2 ^ w)%Z ->
            contains w (mkNet a w) b = bool_decide (a = b)) as H.
  { intros w x y Hw Hx Hy. assert (net_ok w (mkNet x w)) as Hn by (split; [exact Hx|cbn; lia]).
    rewrite contains_spec, broadcast_spec by done. destruct (network_spec w _ Hn) as (-> & _ & _). unfold block. cbn [prefix_len addr].
    rewrite Z.sub_diag, Z.pow_0_r, Z.div_1_r. apply bool_decide_ext. lia. }
  intros Ha Hb. destruct a as [a|a], b as [b|b]; cbn in *; try (symmetry; apply bool_decide_eq_false; congruence).
  - rewrite (H 32%Z) by (done || lia). apply bool_decide_ext. naive_solver.
  - rewrite (H 128%Z) by (done || lia). apply bool_decide_ext. naive_solver.
Qed.

(** ** The rules of a target *)

Definition proto_text (p : Proto) : bytes := match p with Tcp => bstr "tcp" | Udp => bstr "udp" end.
Definition fam_text (f : IpFamily) : bytes := match f with Ip4 => bstr "ip" | Ip6 => bstr "ip6" end.

(** The protocol and port of each rule of a target. *)
Definition clauses (port : option Z) (proto : option bytes) : list (option (Proto * Z)) :=
  match port with
  | None => [None]
  | Some n => (fun p => Some (p, n)) <$> filter (fun p => proto = None \/ proto = Some (proto_text p)) [Tcp; Udp]
  end.

Definition clause_tokens (cl : option (Proto * Z)) : list Token :=
  match cl with Some (p, n) => [Word (proto_text p); Word (bstr "dport"); Word (decimal n)] | None => [] end.
Definition clause_matches (cl : option (Proto * Z)) : list Match :=
  match cl with Some (p, n) => [Dport p [n]] | None => [] end.

Definition allow_tokens (f : IpFamily) (src dst comment : bytes) (cl : option (Proto * Z)) : list Token :=
  [Word (bstr "add"); Word (bstr "rule"); Word (bstr "inet"); Word TABLE; Word CHAIN;
   Word (fam_text f); Word (bstr "saddr"); Word src; Word (fam_text f); Word (bstr "daddr"); Word dst]
  ++ clause_tokens cl ++ [Word (bstr "accept"); Word (bstr "comment"); Quoted comment].

Definition family_flag (f : IpFamily) : bool := match f with Ip4 => false | Ip6 => true end.

Ltac same_text := unfold unlex, allow_tokens, token_text, clause_tokens, QUOTE, proto_text, fam_text;
  cbn [app fmap list_fmap join_with]; rewrite <- ?app_assoc; reflexivity.

Lemma gen_rules_text src dst port proto comment f :
  gen_rules src dst port proto comment (family_flag f) = (fun cl => unlex (allow_tokens f src dst comment cl)) <$> clauses port proto.
Proof.
  unfold gen_rules, clauses. destruct port as [n|]; [|by destruct f; cbn [family_flag fmap list_fmap]; f_equal; same_text].
  rewrite !filter_cons, filter_nil.
  change (proto_text Tcp) with (bstr "tcp"). change (proto_text Udp) with (bstr "udp").
  destruct proto as [p|].
  2: { rewrite !decide_True by (by left). rewrite bool_decide_eq_true_2 by done. cbn [orb app].
       destruct f; (cbn [family_flag fmap list_fmap]; f_equal; [same_text|f_equal; same_text]). }
  rewrite (bool_decide_eq_false_2 (Some p = None)) by done. cbn [orb].
  destruct (decide (p = bstr "tcp")) as [->|Ht].
  - rewrite decide_True by (by right). rewrite decide_False by (intros [?|?]; done).
    rewrite bool_decide_eq_true_2, bool_decide_eq_false_2 by done. destruct f; cbn [app fmap list_fmap family_flag]; f_equal; same_text.
  - rewrite decide_False by (intros [?|[=]]; done). rewrite (bool_decide_eq_false_2 (Some p = Some (bstr "tcp"))) by congruence.
    destruct (decide (p = bstr "udp")) as [->|Hu].
    + rewrite decide_True by (by right). rewrite bool_decide_eq_true_2 by done.
      destruct f; cbn [app fmap list_fmap family_flag]; f_equal; same_text.
    + rewrite decide_False by (intros [?|[=]]; done). by rewrite bool_decide_eq_false_2 by congruence.
Qed.

Lemma read_addr_match f (w : bytes) n ts (is_src : bool) :
  read_prefix w = Some n -> net_family n = f ->
  read_match (Word (fam_text f) :: Word (if is_src then bstr "saddr" else bstr "daddr") :: Word w :: ts)
  = Some (if is_src then Saddr n else Daddr n, ts).
Proof.
  intros Hr Hf. unfold read_match.
  rewrite decide_False by (by destruct f; intros [??]). replace (read_family_kw (fam_text f)) with (Some f) by (by destruct f).
  rewrite Hr. cbn [mbind option_bind]. rewrite (decide_False (P := net_family n <> f)) by tauto. by destruct is_src.
Qed.

Lemma decimal_port n : (0 ≤ n ≤ 65535)%Z -> token_ok (Word (decimal n)) /\ read_port (decimal n) = Some n /\ decimal n <> bstr "{".
Proof.
  intros Hn. destruct (decimal_spec n ltac:(lia)) as (Hd & Hne & _). split; [|split].
  - split; [done|]. eapply Forall_impl; [exact Hd|]. intros c Hc. apply net_word_char. left. apply v4_addr_char. by left.
  - unfold read_port. assert (forallb is_ascii_digit (decimal n) = true) as ->; [|by apply parse_uint_decimal; lia].
    apply forallb_forall. intros c Hc. apply bool_decide_eq_true. rewrite Forall_forall in Hd. by apply Hd, list_elem_of_In.
  - intros E. rewrite E in Hd. apply Forall_cons in Hd as [Hd _]. by vm_compute in Hd; destruct Hd.
Qed.

Lemma read_port_match p n ts :
  (0 ≤ n ≤ 65535)%Z -> read_match (Word (proto_text p) :: Word (bstr "dport") :: Word (decimal n) :: ts) = Some (Dport p [n], ts).
Proof.
  intros Hn. destruct (decimal_port n Hn) as (_ & Hp & Hb). unfold read_match.
  rewrite decide_False by (by destruct p; intros [??]). replace (read_family_kw (proto_text p)) with (@None IpFamily) by (by destruct p).
  replace (read_proto (proto_text p)) with (Some p) by (by destruct p). cbn [mbind option_bind].
  rewrite (decide_False (P := bstr "dport" <> bstr "dport")) by tauto. rewrite decide_False by done.
  by rewrite Hp.
Qed.

Lemma read_rule_match fuel ts m ts' r :
  read_match ts = Some (m, ts') -> read_rule fuel ts' = Some r ->
  read_rule (S fuel) ts = Some (mkRule (m :: rule_matches r) (verdict r)).
Proof. intros H1 H2. cbn [read_rule]. by rewrite H1, H2. Qed.

Lemma read_rule_verdict fuel ts v ts' :
  read_match ts = None -> read_verdict ts = Some (v, ts') -> rule_end ts' = true ->
  read_rule (S fuel) ts = Some (mkRule [] v).
Proof. intros H1 H2 H3. cbn [read_rule]. rewrite H1, H2. cbn [mbind option_bind]. by rewrite H3. Qed.

Definition clause_ok (cl : option (Proto * Z)) : Prop := match cl with Some (_, n) => (0 ≤ n ≤ 65535)%Z | None => True end.

Lemma read_statement_tokens table ts sts :
  Forall token_ok ts ->
  (match ts with
   | Word a :: Word b :: Word fam :: Word t :: Word chain :: ts =>
       if decide (fam <> bstr "inet" \/ t <> table) then None
       else if decide (a = bstr "add" /\ b = bstr "rule") then r ← read_rule (length ts) ts; Some (AddRule chain r)
       else if decide (a = bstr "flush" /\ b = bstr "chain" /\ ts = []) then Some (FlushChain chain)
       else None
   | _ => None
   end) = sts -> read_statement table (unlex ts) = sts.
Proof. intros Hts <-. unfold read_statement. by rewrite lex_unlex. Qed.

Definition allow_rule (src dst : IpNet) (cl : option (Proto * Z)) : Rule :=
  mkRule (Saddr src :: Daddr dst :: clause_matches cl) Accept.

(** A token of constant text. *)
Ltac const_token := apply (bool_decide_unpack _); vm_compute; exact I.

Lemma allow_tokens_ok f src dst comment cl :
  token_ok (Word src) -> token_ok (Word dst) -> token_ok (Quoted comment) -> clause_ok cl ->
  Forall token_ok (allow_tokens f src dst comment cl).
Proof.
  intros Hs Hd Hc Hcl. unfold allow_tokens. apply Forall_app. split; [|apply Forall_app; split].
  - repeat (apply Forall_cons; split); [..|by apply Forall_nil]; first [exact Hs|exact Hd|destruct f; const_token].
  - destruct cl as [[p n]|]; [|constructor]. cbn [clause_tokens].
    repeat (apply Forall_cons; split); [destruct p; const_token|const_token|by apply decimal_port|by apply Forall_nil].
  - repeat (apply Forall_cons; split); [const_token|const_token|exact Hc|by apply Forall_nil].
Qed.

Lemma read_allow f src dst ns nd comment cl :
  token_ok (Word src) -> token_ok (Word dst) -> token_ok (Quoted comment) -> clause_ok cl ->
  read_prefix src = Some ns -> net_family ns = f -> read_prefix dst = Some nd -> net_family nd = f ->
  read_statement TABLE (unlex (allow_tokens f src dst comment cl)) = Some (AddRule CHAIN (allow_rule ns nd cl)).
Proof.
  intros Ts Td Tc Tcl Hs Hfs Hd Hfd. apply read_statement_tokens; [by apply allow_tokens_ok|].
  unfold allow_tokens. cbn [app]. rewrite decide_False by (intros [?|?]; done). rewrite decide_True by done.
  set (rest := clause_tokens cl ++ _).
  assert (exists k, length (Word (fam_text f) :: Word (bstr "saddr") :: Word src :: Word (fam_text f) :: Word (bstr "daddr") :: Word dst :: rest)
          = S (S k) /\ read_rule k rest = Some (mkRule (clause_matches cl) Accept)) as (k & -> & Hk).
  { unfold rest. destruct cl as [[p n]|]; cbn [clause_tokens clause_matches app].
    - eexists (S (S _)). split; [reflexivity|]. eapply (read_rule_match _ _ (Dport p [n]) _ (mkRule [] Accept)).
      + by apply read_port_match.
      + by eapply read_rule_verdict.
    - eexists (S _). split; [reflexivity|]. by eapply read_rule_verdict. }
  rewrite (read_rule_match _ _ (Saddr ns) (Word (fam_text f) :: Word (bstr "daddr") :: Word dst :: rest) (mkRule (Daddr nd :: clause_matches cl) Accept)); [done| |].
  - by apply (read_addr_match f src ns _ true).
  - apply (read_rule_match _ _ (Daddr nd) rest (mkRule (clause_matches cl) Accept)); [|done].
    by apply (read_addr_match f dst nd _ false).
Qed.
