(* ===== verification/FirewallEnforce.v ===== *)
(** * What the firewall lets through

    The transaction of [rebuild_rules] as rules, and the packets they accept: those an
    enabled client sends from its own address to a target of its row, and no others. *)
From stdpp Require Import gmap sorting.
From S2P Require Import Prelude Text NetAddr Cidr NetAlloc Firewall FirewallSpec FirewallProps.

(** ** Lines that read as statements *)

Definition reads (ls : list bytes) (sts : list Statement) : Prop :=
  Forall (Forall (fun c => c <> 10%Z)) ls /\ mapM (read_statement TABLE) ls = Some sts.

Lemma reads_nil : reads [] [].
Proof. by split. Qed.

Lemma reads_app ls1 ls2 sts1 sts2 : reads ls1 sts1 -> reads ls2 sts2 -> reads (ls1 ++ ls2) (sts1 ++ sts2).
Proof.
  intros [H1 E1] [H2 E2]. split; [by apply Forall_app|]. apply mapM_Some in E1, E2. apply mapM_Some. by apply Forall2_app.
Qed.

Lemma reads_mjoin {A} (f : A -> list bytes) (g : A -> list Statement) l :
  Forall (fun a => reads (f a) (g a)) l -> reads (mjoin (f <$> l)) (mjoin (g <$> l)).
Proof. intros Hl. induction Hl as [|a l Ha _ IH]; [apply reads_nil|]. cbn. by apply reads_app. Qed.

Lemma reads_tokens ts st : Forall token_ok ts -> read_statement TABLE (unlex ts) = Some st -> reads [unlex ts] [st].
Proof. intros Hts E. split; [by repeat constructor; apply unlex_one_line|]. apply mapM_Some. by repeat constructor. Qed.

Lemma reads_fmap {A} (f : A -> bytes) (g : A -> Statement) l :
  Forall (fun a => reads [f a] [g a]) l -> reads (f <$> l) (g <$> l).
Proof.
  intros Hl. induction Hl as [|a l Ha _ IH]; [apply reads_nil|]. cbn.
  change (f a :: (f <$> l)) with ([f a] ++ (f <$> l)). change (g a :: (g <$> l)) with ([g a] ++ (g <$> l)). by apply reads_app.
Qed.

Lemma read_txn_reads ls sts : reads ls sts -> read_txn TABLE (lines_text ls) = Some sts.
Proof. intros [H E]. by rewrite read_lines. Qed.

Lemma lines_text_app ls1 ls2 : lines_text (ls1 ++ ls2) = lines_text ls1 ++ lines_text ls2.
Proof. unfold lines_text. by rewrite fmap_app, join_app. Qed.

(** ** The rules of the clients *)

Lemma sanitize_comment_ok name id : (0 ≤ id < 2 ^ 63)%Z -> token_ok (Quoted (sanitize_comment name id)).
Proof.
  intros Hid. unfold token_ok, sanitize_comment. rewrite !Forall_app. split_and!.
  - apply (bool_decide_unpack _). vm_compute. exact I.
  - destruct (decimal_spec id ltac:(lia)) as (Hd & _). eapply Forall_impl; [exact Hd|]. intros c Hc. unfold digit in Hc. unfold quoted_char.
    rewrite bool_decide_eq_true_2, bool_decide_eq_false_2 by lia. done.
  - apply (bool_decide_unpack _). vm_compute. exact I.
  - apply Forall_take, Forall_forall. intros c [Hc _]%list_elem_of_filter. unfold comment_char, is_ascii_alphanumeric in Hc.
    unfold quoted_char. apply orb_true_iff in Hc. rewrite !orb_true_iff, !bool_decide_eq_true in Hc.
    rewrite !elem_of_cons, elem_of_nil in Hc. rewrite bool_decide_eq_true_2, bool_decide_eq_false_2 by lia. done.
Qed.

(** The rules of a target, as rules. *)
Definition grants (src4 src6 : Z) (enable_ipv6 : bool) (t : bytes) : list Rule :=
  match parse_target t with
  | None => []
  | Some (ip, port, proto) =>
      match read_prefix ip with
      | None => []
      | Some n =>
          match net_family n with
          | Ip4 => allow_rule (host_net (V4 src4)) n <$> clauses port proto
          | Ip6 => if enable_ipv6 then allow_rule (host_net (V6 src6)) n <$> clauses port proto else []
          end
      end
  end.

Lemma split_proto_inv entry body proto :
  split_proto entry = (body, proto) -> proto = None \/ exists p, proto = Some (proto_text p).
Proof.
  unfold split_proto. repeat case_match; intros [= <- <-]; [right; by exists Tcp|right; by exists Udp|by left].
Qed.

(** What a parsed target holds. *)
Lemma parse_target_inv t ip port proto :
  parse_target t = Some (ip, port, proto) ->
  checked_ip ip = Some ip /\ (forall n, port = Some n -> (0 ≤ n ≤ 65535)%Z)
  /\ (proto = None \/ exists p, proto = Some (proto_text p)).
Proof.
  unfold parse_target. destruct (split_proto t) as [body pr] eqn:Ep. apply split_proto_inv in Ep.
  assert (forall a b, checked_ip a = Some b -> b = a) as Hsame by (intros a b E; by apply checked_ip_inv in E as [-> _]).
  intros E.
  assert (checked_ip ip = Some ip /\ (forall n, port = Some n -> (0 ≤ n ≤ 65535)%Z) /\ proto = pr) as (? & ? & ->); [|done].
  revert E. repeat (case_match; try done); intros E; repeat match type of E with
    | (_ ≫= _) = Some _ => apply bind_Some in E as (? & ? & E) end;
    injection E as <- <- <-; match goal with H : checked_ip _ = Some _ |- _ => pose proof (Hsame _ _ H); subst end;
    (split; [done|]; split; [|done]); intros n [= <-]; by eapply parse_uint_range.
Qed.

Lemma target_rules_reads src4 src6 a4 a6 comment v6 t :
  parse_ipv4 src4 = Some a4 -> parse_ipv6 src6 = Some a6 -> token_ok (Quoted comment) ->
  reads (target_rules src4 src6 comment v6 t) (AddRule CHAIN <$> grants a4 a6 v6 t).
Proof.
  intros H4 H6 Hc. unfold target_rules, grants. destruct (parse_target t) as [[[ip port] proto]|] eqn:Et; [|apply reads_nil].
  destruct (parse_target_inv t ip port proto Et) as (Hip & Hport & _).
  destruct (checked_ip_inv ip ip Hip) as (_ & Htok & n & Hn & _ & Hf). rewrite Hn.
  assert (forall src a, read_prefix src = Some (host_net a) /\ token_ok (Word src) -> net_family (host_net a) = net_family n ->
            reads (gen_rules src ip port proto comment (family_flag (net_family n)))
              (AddRule CHAIN <$> (allow_rule (host_net a) n <$> clauses port proto))) as Hgen.
  { intros src a [Hs Hst] Hsf. rewrite gen_rules_text. rewrite <- list_fmap_compose. apply reads_fmap, Forall_forall.
    intros cl Hcl. assert (clause_ok cl) as Hok.
    { destruct cl as [[p m]|]; [|done]. unfold clauses in Hcl. destruct port as [k|]; [|by apply list_elem_of_singleton in Hcl].
      apply list_elem_of_fmap in Hcl as (p' & [= -> ->] & _). by apply Hport. }
    apply reads_tokens; [by apply allow_tokens_ok|]. by apply (read_allow (net_family n) src ip). }
  destruct (bool_decide (COLON ∈ ip)); rewrite Hf in *; cbn [andb].
  - destruct v6; [|apply reads_nil]. apply (Hgen src6 (V6 a6)); [|done]. apply read_prefix_ip. by apply parse_ipv6_inv.
  - apply (Hgen src4 (V4 a4)); [|done]. apply read_prefix_ip. by apply parse_ipv4_inv.
Qed.

Section clients.
Context (json_arr : bytes -> option (list bytes)) (default_ips : list bytes) (enable_ipv6 : bool).

Definition src4_of (c : Client) : bytes := default (bstr "0.0.0.0") (ipv4_address c).
Definition src6_of (c : Client) : bytes := default (bstr "::") (ipv6_address c).

(** The rules of a client, as rules. *)
Definition client_grants (c : Client) : list Rule :=
  match parse_ipv4 (src4_of c), parse_ipv6 (src6_of c) with
  | Some a4, Some a6 => mjoin (grants a4 a6 enable_ipv6 <$> targets_of json_arr c default_ips)
  | _, _ => []
  end.

Lemma mjoin_fmap {A B C} (f : B -> C) (g : A -> list B) (l : list A) :
  f <$> mjoin (g <$> l) = mjoin ((fun a => f <$> g a) <$> l).
Proof. induction l as [|a l IH]; [done|]. change (f <$> (g a ++ mjoin (g <$> l)) = (f <$> g a) ++ mjoin ((fun a => f <$> g a) <$> l)). by rewrite fmap_app, IH. Qed.

Lemma client_rules_reads id c :
  (0 ≤ id < 2 ^ 63)%Z ->
  reads (client_rules json_arr id c default_ips enable_ipv6) (AddRule CHAIN <$> client_grants c).
Proof.
  intros Hid. unfold client_rules, client_grants. fold (src4_of c) (src6_of c).
  destruct (parse_ipv4 (src4_of c)) as [a4|] eqn:E4; [|apply reads_nil]. rewrite bool_decide_eq_true_2 by done.
  destruct (parse_ipv6 (src6_of c)) as [a6|] eqn:E6; [|apply reads_nil]. rewrite bool_decide_eq_true_2 by done. cbn [negb].
  rewrite mjoin_fmap. apply reads_mjoin, Forall_forall. intros t _.
  apply target_rules_reads; [done|done|by apply sanitize_comment_ok].
Qed.

Definition enabled_grants (cs : list (Z * Client)) : list Rule :=
  mjoin ((fun e => client_grants (snd e)) <$> filter (fun e => c_enabled (snd e) = true) cs).

Definition flush_tokens : list Token := [Word (bstr "flush"); Word (bstr "chain"); Word (bstr "inet"); Word TABLE; Word CHAIN].
Definition drop_tokens : list Token :=
  [Word (bstr "add"); Word (bstr "rule"); Word (bstr "inet"); Word TABLE; Word CHAIN; Word (bstr "drop")].

Lemma rules_txn_lines cs :
  rules_txn json_arr cs default_ips enable_ipv6
  = lines_text ([unlex flush_tokens]
      ++ mjoin ((fun e => client_rules json_arr (fst e) (snd e) default_ips enable_ipv6) <$> filter (fun e => c_enabled (snd e) = true) cs)
      ++ [unlex drop_tokens]).
Proof.
  unfold rules_txn. rewrite (app_assoc [unlex flush_tokens]), lines_text_app.
  change (lines_text [unlex drop_tokens]) with (bstr "add rule inet " ++ TABLE ++ bstr " " ++ CHAIN ++ bstr " drop" ++ NL).
  f_equal. change (bstr "flush chain inet " ++ TABLE ++ bstr " " ++ CHAIN ++ NL) with (lines_text [unlex flush_tokens]).
  generalize [unlex flush_tokens]. induction cs as [|[id c] cs IH]; intros ls; cbn [foldl].
  - by rewrite app_nil_r.
  - rewrite filter_cons. cbn [snd]. destruct (c_enabled c) eqn:Ec.
    + rewrite decide_True by done. unfold append_client_rules. cbn [fst snd fmap list_fmap mjoin list_join].
      change (mjoin ((fun r => r ++ NL) <$> client_rules json_arr id c default_ips enable_ipv6))
        with (lines_text (client_rules json_arr id c default_ips enable_ipv6)).
      rewrite <- lines_text_app, IH. by rewrite <- app_assoc.
    + rewrite decide_False by done. apply IH.
Qed.

Lemma rules_txn_reads cs :
  Forall (fun e => 0 ≤ fst e < 2 ^ 63)%Z cs ->
  read_txn TABLE (rules_txn json_arr cs default_ips enable_ipv6)
  = Some (FlushChain CHAIN :: (AddRule CHAIN <$> enabled_grants cs ++ [mkRule [] Drop])).
Proof.
  intros Hcs. rewrite rules_txn_lines. rewrite fmap_app. apply read_txn_reads.
  apply (reads_app _ _ [FlushChain CHAIN]); [by apply reads_tokens; [apply (bool_decide_unpack _); vm_compute; exact I|vm_compute]|].
  apply reads_app; [|by apply reads_tokens; [apply (bool_decide_unpack _); vm_compute; exact I|vm_compute]].
  unfold enabled_grants. rewrite mjoin_fmap. apply reads_mjoin, Forall_forall. intros e [_ He]%list_elem_of_filter.
  apply client_rules_reads. rewrite Forall_forall in Hcs. by apply Hcs.
Qed.

(** What a target names: a port and a protocol, or either, or neither. *)
Definition covers (port : option Z) (proto : option bytes) (x : option (Proto * Z)) : Prop :=
  port = None /\ proto = None
  \/ exists pr n, x = Some (pr, n) /\ (port = None \/ port = Some n) /\ (proto = None \/ proto = Some (proto_text pr)).

(** What its rules open: without a port they do not look at the protocol. *)
Definition opens (port : option Z) (proto : option bytes) (x : option (Proto * Z)) : Prop :=
  match port with
  | None => True
  | Some n => exists pr, x = Some (pr, n) /\ (proto = None \/ proto = Some (proto_text pr))
  end.

Lemma covers_opens port proto x : covers port proto x -> opens port proto x.
Proof.
  unfold covers, opens. destruct port as [n|]; [|done]. intros [[? _]|(pr & m & -> & [?|[= <-]] & Hp)]; [done..|]. by exists pr.
Qed.

Lemma opens_covers port proto x : (port = None -> proto = None) -> opens port proto x -> covers port proto x.
Proof.
  unfold covers, opens. destruct port as [n|]; [|by left; auto]. intros _ (pr & -> & Hp). right. exists pr, n. auto.
Qed.

(** Packets from the client's address to the prefix, of the same family. *)
Definition sent_by (c : Client) (n : IpNet) (a : IpAddr) : Prop :=
  exists a4 a6, parse_ipv4 (src4_of c) = Some a4 /\ parse_ipv6 (src6_of c) = Some a6
    /\ (net_family n = Ip6 -> enable_ipv6 = true) /\ a = match net_family n with Ip4 => V4 a4 | Ip6 => V6 a6 end.

(** An enabled client has a target for the packet, by one of these readings of it. *)
Definition granted (reading : option Z -> option bytes -> option (Proto * Z) -> Prop) (cs : list (Z * Client)) (p : Packet) : Prop :=
  exists e t ip port proto n, e ∈ cs /\ c_enabled (snd e) = true /\ t ∈ targets_of json_arr (snd e) default_ips
    /\ parse_target t = Some (ip, port, proto) /\ read_prefix ip = Some n
    /\ sent_by (snd e) n (src p) /\ ipnet_contains n (dst p) = true /\ reading port proto (l4 p).
Definition permitted : list (Z * Client) -> Packet -> Prop := granted covers.
Definition opened : list (Z * Client) -> Packet -> Prop := granted opens.

(** No target of an enabled client names a protocol without a port. *)
Definition ports_named (cs : list (Z * Client)) : Prop :=
  forall e t ip proto, e ∈ cs -> c_enabled (snd e) = true -> t ∈ targets_of json_arr (snd e) default_ips -> parse_target t = Some (ip, None, proto) -> proto = None.

Lemma permitted_opened cs p : permitted cs p -> opened cs p.
Proof.
  intros (e & t & ip & port & proto & n & H1 & H2 & H3 & H4 & H5 & H6 & H7 & H8). exists e, t, ip, port, proto, n. split_and!; try done. by apply covers_opens.
Qed.

Lemma opened_permitted cs p : ports_named cs -> opened cs p -> permitted cs p.
Proof.
  intros Hn (e & t & ip & port & proto & n & H1 & H2 & H3 & H4 & H5 & H6 & H7 & H8). exists e, t, ip, port, proto, n. split_and!; try done.
  apply opens_covers; [|done]. intros ->. by apply (Hn e t ip).
Qed.

Lemma allow_rule_matches a n cl p :
  ip_range a -> ip_range (src p) ->
  match_rule p (allow_rule (host_net a) n cl) = true
  <-> src p = a /\ ipnet_contains n (dst p) = true /\ match cl with Some x => l4 p = Some x | None => True end.
Proof.
  intros Ha Hp. unfold match_rule, allow_rule. cbn [rule_matches forallb match_packet].
  rewrite host_net_contains, !andb_true_iff, bool_decide_eq_true by done.
  assert (forallb (match_packet p) (clause_matches cl) = true <-> match cl with Some x => l4 p = Some x | None => True end) as ->;
    [|naive_solver].
  destruct cl as [[pr k]|]; [|done]. cbn [clause_matches forallb match_packet]. rewrite andb_true_r.
  destruct (l4 p) as [[pr' k']|]; [|done]. rewrite andb_true_iff, !bool_decide_eq_true, list_elem_of_singleton. naive_solver.
Qed.

Lemma clauses_open port proto x :
  (exists cl, cl ∈ clauses port proto /\ match cl with Some y => x = Some y | None => True end) <-> opens port proto x.
Proof.
  unfold clauses, opens. destruct port as [k|].
  - split.
    + intros (cl & (pr & -> & Hpr)%list_elem_of_fmap & ->). apply list_elem_of_filter in Hpr as [Hpr _]. by exists pr.
    + intros (pr & -> & Hpr). exists (Some (pr, k)). split; [|done]. apply list_elem_of_fmap. exists pr. split; [done|].
      apply list_elem_of_filter. split; [done|]. destruct pr; [left|right; left].
  - split; [done|]. intros _. exists None. split; [left|done].
Qed.

Lemma grants_match a4 a6 t p :
  v4_range a4 -> v6_range a6 -> ip_range (src p) ->
  (exists r, r ∈ grants a4 a6 enable_ipv6 t /\ match_rule p r = true)
  <-> exists ip port proto n, parse_target t = Some (ip, port, proto) /\ read_prefix ip = Some n
        /\ (net_family n = Ip6 -> enable_ipv6 = true) /\ src p = match net_family n with Ip4 => V4 a4 | Ip6 => V6 a6 end
        /\ ipnet_contains n (dst p) = true /\ opens port proto (l4 p).
Proof.
  intros H4 H6 Hp. unfold grants.
  destruct (parse_target t) as [[[ip port] proto]|]; [|split; [by intros (r & ?%elem_of_nil & _)|naive_solver]].
  destruct (read_prefix ip) as [n|] eqn:En; [|split; [by intros (r & ?%elem_of_nil & _)|intros (? & ? & ? & ? & [= <- <- <-] & E & _); congruence]].
  assert (forall a, ip_range a -> (exists r, r ∈ allow_rule (host_net a) n <$> clauses port proto /\ match_rule p r = true)
            <-> src p = a /\ ipnet_contains n (dst p) = true /\ opens port proto (l4 p)) as Hin.
  { intros a Ha. rewrite <- clauses_open. split.
    - intros (r & (cl & -> & Hcl)%list_elem_of_fmap & Hm). apply allow_rule_matches in Hm as (? & ? & ?); [|done..]. naive_solver.
    - intros (? & ? & cl & Hcl & Hm). exists (allow_rule (host_net a) n cl). split; [by apply list_elem_of_fmap_2|].
      by apply allow_rule_matches. }
  split.
  - intros H. exists ip, port, proto, n. split; [done|]. split; [done|].
    destruct (net_family n), enable_ipv6; try (apply Hin in H; done). by destruct H as (r & ?%elem_of_nil & _).
  - intros (? & ? & ? & n' & [= <- <- <-] & En' & Hv & Ha & H). rewrite En in En'. injection En' as <-.
    destruct (net_family n); [by apply Hin|]. rewrite Hv by done. by apply Hin.
Qed.

Lemma enabled_grants_match cs p :
  ip_range (src p) -> (exists r, r ∈ enabled_grants cs /\ match_rule p r = true) <-> opened cs p.
Proof.
  intros Hp. unfold enabled_grants, opened, granted.
  assert (forall e : Z * Client, (exists r, r ∈ client_grants (snd e) /\ match_rule p r = true)
    <-> exists t ip port proto n, t ∈ targets_of json_arr (snd e) default_ips
    /\ parse_target t = Some (ip, port, proto) /\ read_prefix ip = Some n
    /\ sent_by (snd e) n (src p) /\ ipnet_contains n (dst p) = true /\ opens port proto (l4 p)) as Hc.
  { intros e. unfold client_grants, sent_by.
    destruct (parse_ipv4 (src4_of (snd e))) as [a4|] eqn:E4; [|split; [by intros (r & ?%elem_of_nil & _)|naive_solver]].
    destruct (parse_ipv6 (src6_of (snd e))) as [a6|] eqn:E6; [|split; [by intros (r & ?%elem_of_nil & _)|naive_solver]].
    pose proof (grants_match a4 a6) as Hg.
    apply parse_ipv4_inv, parse_ip_inv in E4 as (_ & _ & H4 & _). apply parse_ipv6_inv, parse_ip_inv in E6 as (_ & _ & H6 & _).
    setoid_rewrite list_elem_of_join. split.
    - intros (r & (l & Hr & (t & -> & Ht)%list_elem_of_fmap) & Hm).
      destruct (proj1 (Hg t p H4 H6 Hp)) as (ip & port & proto & n & ?); [by exists r|]. exists t, ip, port, proto, n. naive_solver.
    - intros (t & ip & port & proto & n & Ht & ? & ? & (? & ? & [= <-] & [= <-] & ? & ?) & ? & ?).
      destruct (proj2 (Hg t p H4 H6 Hp)) as (r & Hr & Hm); [by exists ip, port, proto, n|].
      exists r. split; [|done]. exists (grants a4 a6 enable_ipv6 t). split; [done|]. by apply list_elem_of_fmap_2. }
  setoid_rewrite list_elem_of_join. split.
  - intros (r & (l & Hr & (e & -> & [He Hin]%list_elem_of_filter)%list_elem_of_fmap) & Hm).
    destruct (proj1 (Hc e)) as (t & ip & port & proto & n & ?); [by exists r|]. exists e, t, ip, port, proto, n. naive_solver.
  - intros (e & t & ip & port & proto & n & Hin & He & H). destruct (proj2 (Hc e)) as (r & Hr & Hm); [by exists t, ip, port, proto, n|].
    exists r. split; [|done]. exists (client_grants (snd e)). split; [done|]. apply (list_elem_of_fmap_2 (fun e => client_grants (snd e))).
    by apply list_elem_of_filter.
Qed.
End clients.

(** ** The chain *)

Lemma chain_verdict_default rs v p :
  Forall (fun r => verdict r = v) rs ->
  chain_verdict (rs ++ [mkRule [] Drop]) p = Some (if decide (Exists (fun r => match_rule p r = true) rs) then v else Drop).
Proof.
  intros Hrs. unfold chain_verdict. induction Hrs as [|r rs Hr _ IH]; [done|]. cbn [app].
  rewrite filter_cons. destruct (match_rule p r) eqn:Em.
  - rewrite decide_True by done. cbn. rewrite decide_True by (by left). by f_equal.
  - rewrite decide_False by done. rewrite IH. f_equal. apply decide_ext. rewrite Exists_cons. split; [by right|].
    intros [?|?]; [congruence|done].
Qed.

Lemma grants_accept a4 a6 v6 t : Forall (fun r => verdict r = Accept) (grants a4 a6 v6 t).
Proof.
  unfold grants. repeat case_match; try constructor; apply Forall_forall; by intros r (cl & -> & _)%list_elem_of_fmap.
Qed.

Lemma enabled_grants_accept json_arr default_ips v6 cs :
  Forall (fun r => verdict r = Accept) (enabled_grants json_arr default_ips v6 cs).
Proof.
  unfold enabled_grants. apply Forall_join, Forall_fmap, Forall_forall. intros e _. cbn. unfold client_grants.
  repeat case_match; try constructor. apply Forall_join, Forall_fmap, Forall_forall. intros t _. apply grants_accept.
Qed.

Lemma chain_after_rules chain before rs : chain_after chain before (AddRule chain <$> rs) = before ++ rs.
Proof.
  unfold chain_after. revert before. induction rs as [|r rs IH]; intros before; cbn [fmap list_fmap foldl]; [by rewrite app_nil_r|].
  rewrite decide_True by done. rewrite IH. by rewrite <- app_assoc.
Qed.

Lemma chain_after_flush chain before rs :
  chain_after chain before (FlushChain chain :: (AddRule chain <$> rs)) = rs.
Proof.
  change (chain_after chain (if decide (chain = chain) then [] else before) (AddRule chain <$> rs) = rs).
  rewrite decide_True by done. by rewrite chain_after_rules.
Qed.

(** C7: the transaction of [rebuild_rules] reads as nftables statements on one chain,
    whatever names, addresses and targets the rows hold.  The chain it leaves, whatever was
    there before, accepts every packet that an enabled client sends from its own address to
    a prefix, port and protocol of one of its targets.  If no target names a protocol
    without a port, it accepts exactly these and drops every other; a target that does
    (8.8.8.8/udp) is opened for every protocol, and with that reading of it the verdicts
    are exact in any case. *)
Theorem firewall_enforces json_arr default_ips enable_ipv6 cs :
  Forall (fun e => 0 ≤ fst e < 2 ^ 63)%Z cs ->
  exists sts, read_txn TABLE (rules_txn json_arr cs default_ips enable_ipv6) = Some sts
    /\ Forall (fun st => match st with AddRule c _ | FlushChain c => c = CHAIN end) sts
    /\ forall before p, ip_range (src p) ->
         let v := chain_verdict (chain_after CHAIN before sts) p in
         (permitted json_arr default_ips enable_ipv6 cs p -> v = Some Accept)
         /\ (ports_named json_arr default_ips cs ->
              (v = Some Accept <-> permitted json_arr default_ips enable_ipv6 cs p)
              /\ (v = Some Drop <-> ~ permitted json_arr default_ips enable_ipv6 cs p))
         /\ (v = Some Accept <-> opened json_arr default_ips enable_ipv6 cs p)
         /\ (v = Some Drop <-> ~ opened json_arr default_ips enable_ipv6 cs p).
Proof.
  intros Hcs. eexists. split; [by apply rules_txn_reads|]. split.
  { constructor; [done|]. apply Forall_fmap, Forall_forall. by intros r _. }
  intros before p Hp. rewrite chain_after_flush.
  rewrite (chain_verdict_default _ Accept) by apply enabled_grants_accept.
  pose proof (enabled_grants_match json_arr default_ips enable_ipv6 cs p Hp) as Hm. rewrite <- Exists_exists in Hm.
  pose proof (permitted_opened json_arr default_ips enable_ipv6 cs p) as Hpo. pose proof (opened_permitted json_arr default_ips enable_ipv6 cs p) as Hop.
  destruct (decide _) as [H|H]; cbn zeta; rewrite <- Hm in *; naive_solver.
Qed.

(** Two clients; the second is disabled and its name and targets try to escape. *)
Definition no_json (s : bytes) : option (list bytes) := if decide (s = bstr "x") then Some [bstr "9.9.9.0/24:443/udp"; bstr "1.1.1.1 accept"] else None.
Definition two_clients : list (Z * Client) :=
  [(1%Z, mkClient (bstr "a") (Some (bstr "10.8.0.2")) None None (Some (bstr "x")) true);
   (2%Z, mkClient (bstr "b" ++ QUOTE ++ NL) (Some (bstr "10.8.0.3")) None None None false)].

Lemma firewall_enforces_witness :
  exists sts, read_txn TABLE (rules_txn no_json two_clients [bstr "0.0.0.0/0"] true) = Some sts
    /\ Forall (fun st => match st with AddRule c _ | FlushChain c => c = CHAIN end) sts
    /\ forall before p, ip_range (src p) ->
         let v := chain_verdict (chain_after CHAIN before sts) p in
         (permitted no_json [bstr "0.0.0.0/0"] true two_clients p -> v = Some Accept)
         /\ (ports_named no_json [bstr "0.0.0.0/0"] two_clients ->
              (v = Some Accept <-> permitted no_json [bstr "0.0.0.0/0"] true two_clients p)
              /\ (v = Some Drop <-> ~ permitted no_json [bstr "0.0.0.0/0"] true two_clients p))
         /\ (v = Some Accept <-> opened no_json [bstr "0.0.0.0/0"] true two_clients p)
         /\ (v = Some Drop <-> ~ opened no_json [bstr "0.0.0.0/0"] true two_clients p).
Proof.
  apply (firewall_enforces no_json [bstr "0.0.0.0/0"] true two_clients). repeat constructor; cbn; lia.
Defined.

(** The packets of that example, evaluated. *)
Definition to_target : Packet := mkPacket (bstr "cb0") (bstr "eth0") (V4 (10 * 2 ^ 24 + 8 * 2 ^ 16 + 2)) (V4 (9 * 2 ^ 24 + 9 * 2 ^ 16 + 9 * 2 ^ 8 + 7)) (Some (Udp, 443%Z)).
Definition reply (p : Packet) (port : Z) : Packet := mkPacket (oif p) (iif p) (dst p) (src p) ((fun x => (fst x, port)) <$> l4 p).
Definition two_clients_chain : list Rule :=
  default [] (chain_after CHAIN [] <$> read_txn TABLE (rules_txn no_json two_clients [bstr "0.0.0.0/0"] true)).

(** The packet is let through; the reply to it, which the jump on the outgoing interface
    sends to the same chain, is not: no rule speaks of established connections. *)
Lemma reply_dropped :
  chain_verdict two_clients_chain to_target = Some Accept
  /\ chain_verdict two_clients_chain (reply to_target 40000) = Some Drop.
Proof. by vm_compute. Qed.
