(* ===== verification/FirewallDns.v ===== *)
(** * The DNS lockdown

    The transaction of [rebuild_dns_lockdown] as rules, and the path of a packet
    through the two chains it fills: a peer's DNS goes to the target or nowhere. *)
From stdpp Require Import gmap sorting.
From S2P Require Import Prelude Text NetAddr Cidr NetAlloc Firewall FirewallSpec FirewallProps FirewallEnforce.

(** ** The target *)

Definition family_kw (f : Family) : IpFamily := match f with FamV4 => Ip4 | FamV6 => Ip6 end.
Definition fw_family (a : IpAddr) : Family := match a with V4 _ => FamV4 | V6 _ => FamV6 end.

(** A target is an address in its canonical form. *)
Lemma parse_target_ip_inv t fam target :
  parse_target_ip t = Some (fam, target) -> exists a, ip_range a /\ target = show_ip a /\ fam = fw_family a.
Proof.
  unfold parse_target_ip. do 2 (case_match; [done|]). destruct (parse_ipv4 (trim t)) as [a|] eqn:E4.
  - intros [= <- <-]. apply parse_ipv4_inv, parse_ip_inv in E4 as (_ & _ & Ha & _). by exists (V4 a).
  - destruct (parse_ipv6 _) as [a|] eqn:E6; [|done]. intros [= <- <-].
    apply parse_ipv6_inv, parse_ip_inv in E6 as (_ & _ & Ha & _). by exists (V6 a).
Qed.

Lemma show_ip_word a : ip_range a -> token_ok (Word (show_ip a)) /\ read_prefix (show_ip a) = Some (host_net a).
Proof. intros Ha. by destruct (read_prefix_ip (show_ip a) a (parse_show_ip a Ha)). Qed.

(** ** The rules *)

Definition ports_tokens : list Token := [Word (bstr "dport"); Word (bstr "{"); Word (bstr "53,"); Word (bstr "853"); Word (bstr "}")].
Definition nfproto_text (f : IpFamily) : bytes := match f with Ip4 => bstr "ipv4" | Ip6 => bstr "ipv6" end.
Definition head_tokens (chain : bytes) : list Token := [Word (bstr "add"); Word (bstr "rule"); Word (bstr "inet"); Word TABLE; Word chain].

Definition endpoint (a : IpAddr) : bytes :=
  (match a with V4 _ => show_ip a | V6 _ => bstr "[" ++ show_ip a ++ bstr "]" end) ++ bstr ":53".
Definition dnat_tokens (iface : bytes) (a : IpAddr) (p : Proto) : list Token :=
  head_tokens DNS_NAT_CHAIN
  ++ [Word (bstr "iifname"); Quoted iface; Word (bstr "meta"); Word (bstr "nfproto"); Word (nfproto_text (family_of a)); Word (proto_text p)]
  ++ ports_tokens ++ [Word (bstr "dnat"); Word (fam_text (family_of a)); Word (bstr "to"); Word (endpoint a)].
Definition dns_accept_tokens (a : IpAddr) : list Token :=
  head_tokens DNS_FILTER_CHAIN ++ [Word (fam_text (family_of a)); Word (bstr "daddr"); Word (show_ip a); Word (bstr "accept")].
Definition dns_drop_tokens (f : option IpFamily) (p : Proto) : list Token :=
  head_tokens DNS_FILTER_CHAIN ++ (match f with Some f => [Word (bstr "meta"); Word (bstr "nfproto"); Word (nfproto_text f)] | None => [] end)
  ++ [Word (proto_text p)] ++ ports_tokens ++ [Word (bstr "drop")].

Definition other_family (f : IpFamily) : IpFamily := match f with Ip4 => Ip6 | Ip6 => Ip4 end.
Definition DNS_PORTS : list Z := [53%Z; 853%Z].

Definition dnat_rule (iface : bytes) (a : IpAddr) (p : Proto) : Rule :=
  mkRule [Iifname iface; Nfproto (family_of a); Dport p DNS_PORTS] (Dnat a 53).
Definition dns_accept_rule (a : IpAddr) : Rule := mkRule [Daddr (host_net a)] Accept.
Definition dns_drop_rule (f : option IpFamily) (p : Proto) : Rule :=
  mkRule (match f with Some f => [Nfproto f] | None => [] end ++ [Dport p DNS_PORTS]) Drop.

(** What the filter chain holds, as tokens and as rules. *)
Definition filter_tokens (a : IpAddr) (block_external : bool) : list (list Token) :=
  if block_external then [dns_accept_tokens a; dns_drop_tokens None Udp; dns_drop_tokens None Tcp]
  else dns_drop_tokens (Some (other_family (family_of a))) <$> [Udp; Tcp].
Definition filter_chain (a : IpAddr) (block_external : bool) : list Rule :=
  if block_external then [dns_accept_rule a; dns_drop_rule None Udp; dns_drop_rule None Tcp]
  else dns_drop_rule (Some (other_family (family_of a))) <$> [Udp; Tcp].

Ltac same_line := unfold unlex, dnat_tokens, dns_accept_tokens, dns_drop_tokens, head_tokens, ports_tokens, token_text, QUOTE, endpoint, DPORTS;
  cbn [app fmap list_fmap join_with family_of show_ip]; rewrite <- ?app_assoc; reflexivity.

Lemma dnat_text iface a : dns_dnat_rules iface (fw_family a) (show_ip a) = (fun p => unlex (dnat_tokens iface a p)) <$> [Udp; Tcp].
Proof. destruct a; cbn [dns_dnat_rules fw_family fmap list_fmap]; (f_equal; [same_line|f_equal; same_line]). Qed.

Lemma filter_text a (block_external : bool) :
  (if block_external then dns_filter_rules (fw_family a) (show_ip a) else dns_leak_guard_rules (fw_family a))
  = unlex <$> filter_tokens a block_external.
Proof.
  destruct block_external, a; unfold filter_tokens, dns_filter_rules, dns_leak_guard_rules; cbn [fw_family fmap list_fmap];
    repeat (apply (f_equal2 cons); [same_line|]); reflexivity.
Qed.

(** ** The rules, read back *)

Lemma rsplit_once_app sep a b : sep ∉ b -> rsplit_once sep (a ++ sep :: b) = Some (a, b).
Proof.
  intros Hb. assert (rsplit_once sep b = None) as Hn.
  { destruct (rsplit_once sep b) as [[x y]|] eqn:E; [|done]. apply rsplit_once_spec in E as [-> _]. exfalso. apply Hb, elem_of_app.
    right. left. }
  induction a as [|c a IH]; cbn [app rsplit_once]; [by rewrite Hn, decide_True|by rewrite IH].
Qed.

Lemma read_endpoint_show a : ip_range a -> read_endpoint (family_of a) (endpoint a) = Some (a, 53%Z).
Proof.
  intros Ha. unfold read_endpoint, endpoint. change (bstr ":53") with (COLON :: bstr "53").
  rewrite rsplit_once_app by (apply (bool_decide_unpack _); vm_compute; exact I).
  cbn [mbind option_bind]. replace (read_port (bstr "53")) with (Some 53%Z) by done. cbn [mbind option_bind]. destruct a as [a|a]; cbn [family_of show_ip].
  - by rewrite parse_show_ipv4.
  - change (bstr "[" ++ show_ipv6 a ++ bstr "]") with (91%Z :: show_ipv6 a ++ 93%Z :: []). cbn [app].
    rewrite decide_True by done. rewrite rsplit_once_app by apply not_elem_of_nil. cbn [mbind option_bind].
    rewrite decide_True by done. by rewrite parse_show_ipv6.
Qed.

Lemma endpoint_word a : ip_range a -> token_ok (Word (endpoint a)).
Proof.
  intros Ha. destruct (show_ip_word a Ha) as [[_ Hw] _]. split.
  - unfold endpoint. intros [_ E]%app_nil. by vm_compute in E.
  - unfold endpoint. apply Forall_app. split; [|const_token].
    destruct a; [exact Hw|]. apply Forall_app. split; [const_token|]. apply Forall_app. split; [exact Hw|const_token].
Qed.

Lemma read_statement_rule chain ts r :
  Forall token_ok (head_tokens chain ++ ts) -> read_rule (length ts) ts = Some r ->
  reads [unlex (head_tokens chain ++ ts)] [AddRule chain r].
Proof.
  intros Hts Hr. apply reads_tokens; [done|]. apply read_statement_tokens; [done|]. cbn [head_tokens app].
  rewrite decide_False by (intros [?|?]; done). rewrite decide_True by done. by rewrite Hr.
Qed.

Lemma read_iifname_match i ts : read_match (Word (bstr "iifname") :: Quoted i :: ts) = Some (Iifname i, ts).
Proof. by vm_compute. Qed.

Lemma read_nfproto_match f ts : read_match (Word (bstr "meta") :: Word (bstr "nfproto") :: Word (nfproto_text f) :: ts) = Some (Nfproto f, ts).
Proof. by destruct f; vm_compute. Qed.

Lemma read_ports_match p ts : read_match (Word (proto_text p) :: ports_tokens ++ ts) = Some (Dport p DNS_PORTS, ts).
Proof. by destruct p; vm_compute. Qed.

Lemma dnat_reads iface a p :
  token_ok (Quoted iface) -> ip_range a ->
  reads [unlex (dnat_tokens iface a p)] [AddRule DNS_NAT_CHAIN (dnat_rule iface a p)].
Proof.
  intros Hi Ha. apply read_statement_rule.
  - unfold head_tokens, ports_tokens. cbn [app].
    repeat (apply Forall_cons; split);
      lazymatch goal with
      | |- token_ok (Quoted _) => exact Hi
      | |- token_ok (Word (endpoint _)) => by apply endpoint_word
      | |- Forall _ [] => by apply Forall_nil
      | |- _ => destruct a, p; const_token
      end.
  - cbn [app length ports_tokens].
    eapply (read_rule_match _ _ (Iifname iface) _ (mkRule [Nfproto (family_of a); Dport p DNS_PORTS] (Dnat a 53))); [apply read_iifname_match|].
    eapply (read_rule_match _ _ (Nfproto (family_of a)) _ (mkRule [Dport p DNS_PORTS] (Dnat a 53))); [apply read_nfproto_match|].
    eapply (read_rule_match _ _ (Dport p DNS_PORTS) _ (mkRule [] (Dnat a 53))); [apply read_ports_match|].
    apply (read_rule_verdict _ _ (Dnat a 53) []); [by destruct a| |done].
    unfold read_verdict. rewrite !decide_False by done. rewrite !decide_True by done.
    replace (read_family_kw (fam_text (family_of a))) with (Some (family_of a)) by (by destruct a). cbn [mbind option_bind].
    by rewrite read_endpoint_show.
Qed.

Lemma dns_accept_reads a :
  ip_range a -> reads [unlex (dns_accept_tokens a)] [AddRule DNS_FILTER_CHAIN (dns_accept_rule a)].
Proof.
  intros Ha. destruct (show_ip_word a Ha) as [Hw Hr]. apply read_statement_rule.
  - unfold head_tokens. cbn [app]. repeat (apply Forall_cons; split);
      lazymatch goal with
      | |- token_ok (Word (show_ip _)) => exact Hw
      | |- Forall _ [] => by apply Forall_nil
      | |- _ => destruct a; const_token
      end.
  - cbn [app length]. eapply (read_rule_match _ _ (Daddr (host_net a)) _ (mkRule [] Accept)).
    + apply (read_addr_match (family_of a) (show_ip a) (host_net a) _ false); [done|by destruct a].
    + by eapply read_rule_verdict.
Qed.

Lemma dns_drop_reads f p : reads [unlex (dns_drop_tokens f p)] [AddRule DNS_FILTER_CHAIN (dns_drop_rule f p)].
Proof. apply reads_tokens; destruct f as [[]|], p; try (apply (bool_decide_unpack _); vm_compute; exact I); by vm_compute. Qed.

Lemma filter_reads a block_external :
  ip_range a -> reads (unlex <$> filter_tokens a block_external) (AddRule DNS_FILTER_CHAIN <$> filter_chain a block_external).
Proof.
  intros Ha. destruct block_external; unfold filter_tokens, filter_chain; cbn [fmap list_fmap].
  - apply (reads_app [_] _ [_]); [by apply dns_accept_reads|]. apply (reads_app [_] _ [_]); apply dns_drop_reads.
  - apply (reads_app [_] _ [_]); apply dns_drop_reads.
Qed.

Definition flush (chain : bytes) : list Token := [Word (bstr "flush"); Word (bstr "chain"); Word (bstr "inet"); Word TABLE; Word chain].

Lemma sanitize_iface_ok iface : token_ok (Quoted (sanitize_iface iface)).
Proof.
  unfold token_ok, sanitize_iface. apply Forall_take, Forall_forall. intros c [Hc _]%list_elem_of_filter.
  unfold iface_char, is_ascii_alphanumeric in Hc. unfold quoted_char.
  rewrite !orb_true_iff, !bool_decide_eq_true, !elem_of_cons, elem_of_nil in Hc.
  rewrite bool_decide_eq_true_2, bool_decide_eq_false_2 by lia. done.
Qed.

Lemma dns_txn_reads iface a block_external :
  ip_range a ->
  read_txn TABLE (dns_txn iface (fw_family a) (show_ip a) block_external)
  = Some (FlushChain DNS_NAT_CHAIN :: FlushChain DNS_FILTER_CHAIN
          :: (AddRule DNS_NAT_CHAIN <$> (dnat_rule (sanitize_iface iface) a <$> [Udp; Tcp]))
          ++ (AddRule DNS_FILTER_CHAIN <$> filter_chain a block_external)).
Proof.
  intros Ha. unfold dns_txn. rewrite dnat_text, filter_text.
  change (read_txn TABLE (lines_text [unlex (flush DNS_NAT_CHAIN)] ++ lines_text [unlex (flush DNS_FILTER_CHAIN)]
    ++ lines_text ((fun p => unlex (dnat_tokens (sanitize_iface iface) a p)) <$> [Udp; Tcp])
    ++ lines_text (unlex <$> filter_tokens a block_external))
    = Some ([FlushChain DNS_NAT_CHAIN] ++ [FlushChain DNS_FILTER_CHAIN]
          ++ (AddRule DNS_NAT_CHAIN <$> (dnat_rule (sanitize_iface iface) a <$> [Udp; Tcp]))
          ++ (AddRule DNS_FILTER_CHAIN <$> filter_chain a block_external))).
  rewrite <- !lines_text_app. apply read_txn_reads.
  apply reads_app; [by apply reads_tokens; [apply (bool_decide_unpack _); vm_compute; exact I|vm_compute]|].
  apply reads_app; [by apply reads_tokens; [apply (bool_decide_unpack _); vm_compute; exact I|vm_compute]|].
  apply reads_app; [|by apply filter_reads]. rewrite <- list_fmap_compose. apply reads_fmap, Forall_forall. intros p _.
  apply dnat_reads; [apply sanitize_iface_ok|done].
Qed.

(** ** The path of a packet *)

(** Prerouting translates the destination; a packet that came in on the interface then
    meets the filter chain, whose accept and whose end both let it go on. *)
Definition redirect (p : Packet) (a : IpAddr) (port : Z) : Packet :=
  mkPacket (iif p) (oif p) (src p) a ((fun x => (fst x, port)) <$> l4 p).
Definition dns_path (iface : bytes) (nat_chain filter_chain : list Rule) (p : Packet) : option Packet :=
  let p := match chain_verdict nat_chain p with Some (Dnat a port) => redirect p a port | _ => p end in
  if decide (iif p = iface) then
    match chain_verdict filter_chain p with Some Drop => None | _ => Some p end
  else Some p.

Definition is_dns (p : Packet) : bool := match l4 p with Some (_, port) => bool_decide (port ∈ DNS_PORTS) | None => false end.

Lemma chain_verdict_cons r rs p : chain_verdict (r :: rs) p = if match_rule p r then Some (verdict r) else chain_verdict rs p.
Proof. unfold chain_verdict. rewrite filter_cons. by destruct (match_rule p r); [rewrite decide_True|rewrite decide_False]. Qed.

(** One of the two protocols is the packet's. *)
Lemma dns_either p : match_packet p (Dport Udp DNS_PORTS) || match_packet p (Dport Tcp DNS_PORTS) = is_dns p.
Proof. unfold is_dns. cbn [match_packet]. destruct (l4 p) as [[[] port]|]; [by rewrite bool_decide_eq_false_2|by rewrite orb_false_r|done]. Qed.

(** Two rules that differ in the protocol, as one. *)
Lemma verdict_both ms v p rs :
  chain_verdict (mkRule (ms ++ [Dport Udp DNS_PORTS]) v :: mkRule (ms ++ [Dport Tcp DNS_PORTS]) v :: rs) p
  = if forallb (match_packet p) ms && is_dns p then Some v else chain_verdict rs p.
Proof.
  rewrite !chain_verdict_cons. unfold match_rule. cbn [rule_matches verdict]. rewrite !forallb_app, <- dns_either. cbn [forallb].
  rewrite !andb_true_r. by destruct (forallb (match_packet p) ms), (match_packet p (Dport Udp DNS_PORTS)).
Qed.

Lemma nat_verdict iface a p :
  chain_verdict (dnat_rule iface a <$> [Udp; Tcp]) p
  = if bool_decide (iif p = iface) && bool_decide (family_of (src p) = family_of a) && is_dns p then Some (Dnat a 53) else None.
Proof.
  etransitivity; [apply (verdict_both [Iifname iface; Nfproto (family_of a)] (Dnat a 53) p [])|]. cbn [forallb match_packet]. by rewrite andb_true_r.
Qed.

Lemma filter_verdict a block_external p :
  ip_range a -> ip_range (dst p) ->
  chain_verdict (filter_chain a block_external) p
  = if block_external then if decide (dst p = a) then Some Accept else if is_dns p then Some Drop else None
    else if bool_decide (family_of (src p) = other_family (family_of a)) && is_dns p then Some Drop else None.
Proof.
  intros Ha Hp. destruct block_external; unfold filter_chain.
  - rewrite chain_verdict_cons. change [dns_drop_rule None Udp; dns_drop_rule None Tcp]
      with [mkRule ([] ++ [Dport Udp DNS_PORTS]) Drop; mkRule ([] ++ [Dport Tcp DNS_PORTS]) Drop].
    rewrite (verdict_both [] Drop p []). unfold match_rule, dns_accept_rule. cbn [rule_matches verdict forallb match_packet]. rewrite host_net_contains, andb_true_r by done.
    destruct (decide (dst p = a)) as [<-|Hne]; [by rewrite bool_decide_eq_true_2|]. by rewrite bool_decide_eq_false_2 by congruence.
  - etransitivity; [apply (verdict_both [Nfproto (other_family (family_of a))] Drop p [])|]. cbn [forallb match_packet]. by rewrite andb_true_r.
Qed.

Lemma dns_chains iface a block_external nat0 filter0 :
  let sts := FlushChain DNS_NAT_CHAIN :: FlushChain DNS_FILTER_CHAIN
          :: (AddRule DNS_NAT_CHAIN <$> (dnat_rule iface a <$> [Udp; Tcp]))
          ++ (AddRule DNS_FILTER_CHAIN <$> filter_chain a block_external) in
  chain_after DNS_NAT_CHAIN nat0 sts = dnat_rule iface a <$> [Udp; Tcp]
  /\ chain_after DNS_FILTER_CHAIN filter0 sts = filter_chain a block_external.
Proof. by destruct block_external. Qed.

(** C8: with a target that parses, the transaction of [rebuild_dns_lockdown] reads as
    nftables statements on its two chains, and then a DNS packet (port 53 or 853, either
    protocol) that a peer sends into the interface goes to port 53 of the target when it is of the
    target's family and nowhere otherwise; every other packet goes on as it was. *)
Theorem dns_never_leaks t fam target iface block_external :
  parse_target_ip t = Some (fam, target) ->
  exists a sts, parse_ip target = Some a /\ read_txn TABLE (dns_txn iface fam target block_external) = Some sts
    /\ forall nat0 filter0 p, ip_range (dst p) -> family_of (src p) = family_of (dst p) ->
         dns_path (sanitize_iface iface) (chain_after DNS_NAT_CHAIN nat0 sts) (chain_after DNS_FILTER_CHAIN filter0 sts) p
         = if bool_decide (iif p = sanitize_iface iface) && is_dns p
           then if decide (family_of (dst p) = family_of a) then Some (redirect p a 53) else None
           else Some p.
Proof.
  intros Ht. destruct (parse_target_ip_inv t fam target Ht) as (a & Ha & -> & ->).
  eexists a, _. split; [by apply parse_show_ip|]. split; [by apply dns_txn_reads|]. intros nat0 filter0 p Hp Hf.
  destruct (dns_chains (sanitize_iface iface) a block_external nat0 filter0) as [-> ->]. unfold dns_path.
  rewrite nat_verdict, Hf. destruct (decide (iif p = sanitize_iface iface)) as [Hi|Hi].
  2: { rewrite bool_decide_eq_false_2 by done. cbn [andb]. by rewrite decide_False. }
  rewrite (bool_decide_eq_true_2 (iif p = _)) by done. cbn [andb]. destruct (decide (family_of (dst p) = family_of a)) as [Hfam|Hfam].
  - rewrite (bool_decide_eq_true_2 _ Hfam). cbn [andb]. destruct (is_dns p) eqn:Ed.
    + cbn [iif redirect]. rewrite decide_True by done. rewrite filter_verdict by done. cbn [dst redirect src].
      rewrite decide_True by done. rewrite Hf, Hfam, bool_decide_eq_false_2 by (by destruct (family_of a)). by destruct block_external.
    + rewrite decide_True, filter_verdict, Ed, Hf, Hfam, bool_decide_eq_false_2 by (done || by destruct (family_of a)).
      by destruct block_external, (decide (dst p = a)).
  - rewrite (bool_decide_eq_false_2 (family_of (dst p) = family_of a)) by done. cbn [andb]. rewrite decide_True, filter_verdict by done.
    rewrite (decide_False (P := dst p = a)) by congruence. rewrite Hf, bool_decide_eq_true_2 by (by destruct (family_of (dst p)), (family_of a)).
    by destruct block_external, (is_dns p).
Qed.

Lemma dns_never_leaks_witness :
  exists a sts, parse_ip (bstr "fd00::53") = Some a /\ read_txn TABLE (dns_txn (bstr "cb0") FamV6 (bstr "fd00::53") true) = Some sts
    /\ forall nat0 filter0 p, ip_range (dst p) -> family_of (src p) = family_of (dst p) ->
         dns_path (sanitize_iface (bstr "cb0")) (chain_after DNS_NAT_CHAIN nat0 sts) (chain_after DNS_FILTER_CHAIN filter0 sts) p
         = if bool_decide (iif p = sanitize_iface (bstr "cb0")) && is_dns p
           then if decide (family_of (dst p) = family_of a) then Some (redirect p a 53) else None
           else Some p.
Proof. apply (dns_never_leaks (bstr " [FD00:0::53] ") FamV6). vm_compute. reflexivity. Defined.

(** The filter chain's accept has no port: whatever a peer sends to the target, by
    any protocol, ends there, before the rules of the clients. *)
Lemma target_open a p :
  ip_range a -> dst p = a -> chain_verdict (filter_chain a true) p = Some Accept.
Proof. intros Ha Hd. rewrite filter_verdict by (done || by rewrite Hd). by rewrite decide_True. Qed.
