(* ===== verification/FirewallTarget.v ===== *)
(** * Firewall targets at the API ([src/src/api/clients.rs])

    The validators of routing entries, ports and firewall targets, and what they promise
    the rule generator: which entries it will open.  The texts of the errors are left out. *)
From stdpp Require Import gmap sorting.
From S2P Require Import Prelude Text NetAddr Cidr NetAlloc Firewall FirewallSpec FirewallProps.

Definition validate_routing_entry (entry : bytes) : bool :=
  let e := trim entry in
  negb (bool_decide (e = [])) && (bool_decide (is_Some (parse_ip e)) || bool_decide (is_Some (parse_net e))).

Definition validate_port (port : bytes) : bool :=
  match parse_uint (2 ^ 32 - 1) port with Some p => bool_decide (1 ≤ p ≤ 65535)%Z | None => false end.

Definition validate_firewall_target (entry : bytes) : bool :=
  let e := trim entry in
  if decide (e = []) then false else
  let body := match strip_suffix (bstr "/tcp") e with
              | Some b => b
              | None => default e (strip_suffix (bstr "/udp") e)
              end in
  match strip_prefix [91%Z] body with
  | Some rest =>
      match split_once 93 rest with
      | None => false
      | Some (addr, after) =>
          if negb (bool_decide (is_Some (parse_ipv6 addr))) then false else
          match strip_prefix [COLON] after with
          | Some port => validate_port port
          | None => bool_decide (after = [])
          end
      end
  | None =>
      match (if decide (count_byte COLON body = 1) then rsplit_once COLON body else None) with
      | Some (addr, port) =>
          if forallb is_ascii_digit port then validate_routing_entry addr && validate_port port
          else validate_routing_entry body
      | None => validate_routing_entry body
      end
  end.

(** ** Lemmas *)

Lemma parse_uint_smaller m m' s n : parse_uint m s = Some n -> (n ≤ m')%Z -> parse_uint m' s = Some n.
Proof.
  unfold parse_uint. intros Hp Hn. destruct (match s with [] => s | c :: s' => _ end) as [|c ds]; [done|].
  apply bind_Some in Hp as (k & -> & Hk). cbn. case_decide; [|done]. injection Hk as ->. by rewrite decide_True.
Qed.

Lemma validate_port_parses s : validate_port s = true -> exists n, parse_uint 65535 s = Some n /\ (1 ≤ n ≤ 65535)%Z.
Proof.
  unfold validate_port. destruct (parse_uint _ s) as [n|] eqn:E; [|done]. rewrite bool_decide_eq_true. intros Hn. exists n.
  split; [|done]. eapply parse_uint_smaller; [exact E|lia].
Qed.

Lemma validate_routing_checked s : Forall graph s -> validate_routing_entry s = true -> checked_ip s = Some s.
Proof.
  intros Hs. unfold validate_routing_entry, checked_ip. destruct s as [|c s]; [done|]. rewrite trim_id by done.
  rewrite andb_true_iff. by intros [_ ->].
Qed.

Lemma strip_suffix_Some suffix s r : strip_suffix suffix s = Some r -> s = r ++ suffix.
Proof.
  unfold strip_suffix. destruct (strip_prefix _ _) as [x|] eqn:E; [|done]. intros [= <-]. apply strip_prefix_Some in E.
  by rewrite <- (reverse_involutive s), E, reverse_app, reverse_involutive.
Qed.

(** The body of an entry, as the validator takes it. *)
Lemma split_proto_body e :
  match strip_suffix (bstr "/tcp") e with Some b => b | None => default e (strip_suffix (bstr "/udp") e) end = fst (split_proto e).
Proof. unfold split_proto. by destruct (strip_suffix _ e); [|destruct (strip_suffix _ e)]. Qed.

Lemma split_proto_graph e : Forall graph e -> Forall graph (fst (split_proto e)).
Proof.
  intros He. unfold split_proto. destruct (strip_suffix (bstr "/tcp") e) eqn:E1; [|destruct (strip_suffix (bstr "/udp") e) eqn:E2; [|done]].
  - apply strip_suffix_Some in E1 as ->. by apply Forall_app in He as [He _].
  - apply strip_suffix_Some in E2 as ->. by apply Forall_app in He as [He _].
Qed.

Lemma bracketed_strip body : bracketed body = (rest ← strip_prefix [91%Z] body; split_once 93 rest).
Proof. unfold bracketed. destruct body as [|c tail]; [done|]. cbn [strip_prefix]. destruct (decide (c = 91%Z)) as [->|Hc]; [by rewrite decide_True; [destruct tail|]|by rewrite decide_False]. Qed.

Lemma rsplit_once_None sep s : rsplit_once sep s = None -> count_byte sep s = 0.
Proof.
  unfold count_byte. induction s as [|c s IH]; cbn [rsplit_once]; [done|]. destruct (rsplit_once sep s) as [[]|]; [done|].
  case_decide as Hc; [done|]. intros _. by rewrite filter_cons_False, IH.
Qed.

(** ** What the validator promises *)

(** C23: an entry without white space that the API's validator accepts is one the rule
    generator opens: it parses, its address is an address or a prefix, and its port, if any,
    is between 1 and 65535. *)
Theorem validated_target_opens entry :
  Forall graph entry -> validate_firewall_target entry = true ->
  exists ip port proto n, parse_target entry = Some (ip, port, proto) /\ read_prefix ip = Some n
    /\ forall p, port = Some p -> (1 ≤ p ≤ 65535)%Z.
Proof.
  intros Hg Hv. assert (trim entry = entry) as Ht by (destruct entry; [done|]; by apply trim_id).
  unfold validate_firewall_target in Hv. rewrite Ht in Hv. case_decide; [done|]. rewrite split_proto_body in Hv.
  pose proof (split_proto_graph entry Hg) as Hb. unfold parse_target.
  destruct (split_proto entry) as [body proto]. cbn [fst] in *. rewrite bracketed_strip.
  assert (forall ip, checked_ip ip = Some ip -> exists n, read_prefix ip = Some n) as Hread
    by (intros ip Hip; apply checked_ip_inv in Hip as (_ & _ & n & ? & _); by exists n).
  destruct (strip_prefix [91%Z] body) as [rest|] eqn:Ebr; cbn [mbind option_bind].
  - destruct (split_once 93 rest) as [[addr after]|]; [|done]. revert Hv. case_bool_decide as H6; [|done]. cbn [negb].
    assert (checked_ip addr = Some addr) as Hip.
    { destruct H6 as [a Ha]. apply parse_ipv6_inv in Ha. unfold checked_ip. by rewrite Ha. }
    destruct (Hread addr Hip) as [n Hn]. rewrite Hip. cbn [mbind option_bind].
    destruct (strip_prefix [COLON] after) as [port|].
    + intros (k & -> & Hk)%validate_port_parses. exists addr, (Some k), proto, n. split_and!; [done|done|]. by intros p [= <-].
    + intros _. by exists addr, None, proto, n.
  - unfold with_port.
    assert (forall ip, Forall graph ip -> validate_routing_entry ip = true -> checked_ip ip = Some ip) as Hck by apply validate_routing_checked.
    destruct (rsplit_once COLON body) as [[ip port]|] eqn:Er.
    + destruct (decide (count_byte COLON body = 1)) as [H1|H1].
      * rewrite decide_True by lia. cbn [mbind option_bind]. destruct (forallb is_ascii_digit port).
        -- apply andb_true_iff in Hv as [Hip (k & Hp & Hk)%validate_port_parses].
           apply rsplit_once_spec in Er as [-> _]. apply Forall_app in Hb as [Hb _]. pose proof (Hck ip Hb Hip) as Hc.
           destruct (Hread ip Hc) as [n Hn]. rewrite Hc. cbn [mbind option_bind]. rewrite Hp.
           exists ip, (Some k), proto, n. split_and!; [done|done|]. by intros p [= <-].
        -- pose proof (Hck body Hb Hv) as Hc. destruct (Hread body Hc) as [n Hn]. rewrite Hc. by exists body, None, proto, n.
      * assert (count_byte COLON body ≠ 0).
        { apply rsplit_once_spec in Er as [-> _]. unfold count_byte. rewrite filter_app, length_app, filter_cons_True by done. cbn. lia. }
        rewrite decide_False by lia. pose proof (Hck body Hb Hv) as Hc. destruct (Hread body Hc) as [n Hn]. rewrite Hc.
        by exists body, None, proto, n.
    + pose proof (rsplit_once_None _ _ Er) as H0.
      assert (validate_routing_entry body = true) as Hv' by (by case_decide).
      pose proof (Hck body Hb Hv') as Hc. destruct (Hread body Hc) as [n Hn]. rewrite decide_True by lia. cbn [mbind option_bind]. rewrite Hc.
      by exists body, None, proto, n.
Qed.

Lemma validated_target_opens_witness :
  exists ip port proto n, parse_target (bstr "[2001:db8::1]:443/udp") = Some (ip, port, proto) /\ read_prefix ip = Some n
    /\ forall p, port = Some p -> (1 ≤ p ≤ 65535)%Z.
Proof. apply validated_target_opens; [apply (bool_decide_unpack _)|]; vm_compute; reflexivity. Defined.

(** With white space the two disagree: the validator trims the entry, and again the address
    before a port or a protocol; the generator does not, and opens nothing. *)
Lemma validated_target_dropped :
  Forall (fun t => validate_firewall_target t = true /\ parse_target t = None)
    [bstr " 8.8.8.8"; bstr "8.8.8.8 :53"; bstr "8.8.8.8 /tcp"].
Proof. repeat constructor; vm_compute; reflexivity. Qed.

(** A protocol without a port is no restriction: the rule has neither. *)
Lemma bare_proto_opens_all :
  validate_firewall_target (bstr "8.8.8.8/udp") = true
  /\ parse_target (bstr "8.8.8.8/udp") = Some (bstr "8.8.8.8", None, Some (bstr "udp"))
  /\ gen_rules (bstr "10.8.0.2") (bstr "8.8.8.8") None (Some (bstr "udp")) [] false
     = gen_rules (bstr "10.8.0.2") (bstr "8.8.8.8") None None [] false.
Proof. split_and!; [vm_compute; reflexivity..|done]. Qed.
