(* ===== verification/FirewallCalls.v ===== *)
(** * Applying the firewall ([src/src/firewall.rs], [src/src/proxy/supervisor.rs])

    The calls of [nft], in the order and under the conditions the code makes them.  [nft] is
    an interface: it takes a transaction or refuses it, and its state answers listings.  The
    platform is Linux and the privileged helper is off; the helper would take the
    same transactions. *)
From stdpp Require Import gmap sorting.
From S2P Require Import Prelude Text NetAddr NetAlloc ProxyParams Firewall.

(** [nft -f -] with a transaction; [nft args], its output if it succeeds. *)
Class Nft (W : Type) : Type := {
  nft_apply : bytes -> W -> bool * W;
  nft_output : list bytes -> W -> option bytes;
}.

Definition nft `{Nft W} (args : list bytes) (w : W) : option bytes := trim <$> nft_output args w.

(** [str::find] and what follows the match. *)
Fixpoint find_after (needle s : bytes) : option bytes :=
  match strip_prefix needle s with
  | Some r => Some r
  | None => match s with [] => None | _ :: s => find_after needle s end
  end.

(** [split_whitespace] of a line of [nft]'s output, which is ASCII. *)
Definition parse_handle (line : bytes) : option Z :=
  r ← find_after (bstr "# handle ") line; w ← head (words r); parse_uint (2 ^ 64 - 1) w.

(** ** Ports of the proxy *)

Record ProxySettings : Set := mkProxySettings {
  ps_enabled : bool; ps_protocol : bytes; quic_handshake : bool; quic_cert_domain : bytes; backend_port : Z;
}.

(** The columns of the interface row that are read here. *)
Record IfaceRow : Set := mkIfaceRow {
  i_name : bytes; i_port : Z; i_enabled : bool; firewall_enabled : bool;
  dns_lockdown : bool; dns_lockdown_target : bytes; dns_block_external : bool;
  header_protection_key : bytes; random_trailers : bool;
}.

Definition effective_backend_port (settings : ProxySettings) (iface_port : Z) : Z :=
  if negb (bool_decide (backend_port settings = 0%Z)) then backend_port settings
  else if bool_decide (iface_port < 65535)%Z then (iface_port + 1)%Z else (iface_port - 1)%Z.

Inductive Conflict : Set := HeaderProtection | RandomTrailers.
Definition proxy_conflict (key : bytes) (trailers : bool) : option Conflict :=
  if negb (bool_decide (trim key = [])) then Some HeaderProtection
  else if trailers then Some RandomTrailers else None.

(** Why the proxy would not run; the texts are the administrator's. *)
Inductive Disabled : Set :=
  | ProxyDisabled | InterfaceDisabled | UnsupportedProtocol (p : bytes) | NoCertificateDomain
  | PortCollides (p : Z) | PortOutOfRange (p : Z) | Conflicts (c : Conflict).

Definition should_remain_disabled (settings : ProxySettings) (iface : IfaceRow) : option Disabled :=
  if negb (ps_enabled settings) then Some ProxyDisabled else
  if negb (i_enabled iface) then Some InterfaceDisabled else
  if negb (bool_decide (ps_protocol settings ∈ [bstr "quic"; bstr "dns"; bstr "stun"; bstr "sip"; bstr "auto"]))
  then Some (UnsupportedProtocol (ps_protocol settings)) else
  if quic_handshake settings && bool_decide (ps_protocol settings ∈ [bstr "quic"; bstr "auto"])
     && bool_decide (trim (quic_cert_domain settings) = []) then Some NoCertificateDomain else
  let backend := effective_backend_port settings (i_port iface) in
  if bool_decide (backend = i_port iface) then Some (PortCollides backend) else
  if negb (bool_decide (1 ≤ backend ≤ 65535)%Z) then Some (PortOutOfRange backend) else
  Conflicts <$> proxy_conflict (header_protection_key iface) (random_trailers iface).

(** [settings] is [None] when the table cannot be read. *)
Definition effective_listen_port (settings : option ProxySettings) (iface : IfaceRow) : Z :=
  match settings with
  | Some s => if ps_enabled s && bool_decide (should_remain_disabled s iface = None) then effective_backend_port s (i_port iface)
              else i_port iface
  | None => i_port iface
  end.

(** ** The calls *)

Section calls.
Context {W : Type} {HN : Nft W}.

(** [?] after a call. *)
Definition and_then (r : bool * W) (k : W -> bool * W) : bool * W := if fst r then k (snd r) else r.
(** A call whose result is dropped. *)
Definition ignoring (r : bool * W) (k : W -> bool * W) : bool * W := k (snd r).

Definition FORWARD_CHAIN : bytes :=
  bstr "add chain inet " ++ TABLE ++ bstr " forward { type filter hook forward priority filter; policy accept; }" ++ NL.
Definition ADD_TABLE : bytes := bstr "add table inet " ++ TABLE ++ NL.

Definition jump_text (dir iface chain : bytes) : bytes := dir ++ bstr " " ++ QUOTE ++ iface ++ QUOTE ++ bstr " jump " ++ chain.
Definition add_jump (jump : bytes) : bytes := bstr "add rule inet " ++ TABLE ++ bstr " forward " ++ jump ++ NL.

Definition list_forward (w : W) : bytes := default [] (nft [bstr "list"; bstr "chain"; bstr "inet"; TABLE; bstr "forward"] w).
Definition list_handles (w : W) : bytes :=
  default [] (nft [bstr "--handle"; bstr "--numeric"; bstr "list"; bstr "chain"; bstr "inet"; TABLE; bstr "forward"] w).

Definition init_chain (name : bytes) (w : W) : bool * W :=
  let iface := sanitize_iface name in
  and_then (nft_apply (ADD_TABLE ++ bstr "add chain inet " ++ TABLE ++ bstr " " ++ CHAIN ++ NL ++ FORWARD_CHAIN) w) (fun w =>
  let listing := list_forward w in
  let want_in := jump_text (bstr "iifname") iface CHAIN in
  let want_out := jump_text (bstr "oifname") iface CHAIN in
  let adds := (if str_contains want_in listing then [] else add_jump want_in)
              ++ (if str_contains want_out listing then [] else add_jump want_out) in
  if bool_decide (adds = []) then (true, w) else nft_apply adds w).

Definition flush_chain (w : W) : bool * W := nft_apply (bstr "flush chain inet " ++ TABLE ++ bstr " " ++ CHAIN ++ NL) w.

(** The deletions of the lines that hold one of [jumps]. *)
Definition deletions (jumps : list bytes) (listing : bytes) : bytes :=
  mjoin ((fun line => let line := trim line in
    if existsb (fun j => str_contains j line) jumps then
      match parse_handle line with
      | Some handle => bstr "delete rule inet " ++ TABLE ++ bstr " forward handle " ++ decimal handle ++ NL
      | None => []
      end
    else []) <$> lines listing).

Definition delete_jumps (jumps : list bytes) (w : W) : W :=
  let del := deletions jumps (list_handles w) in
  if bool_decide (del = []) then w else snd (nft_apply del w).

Definition remove_filtering (name : bytes) (w : W) : bool * W :=
  let iface := sanitize_iface name in
  and_then (flush_chain w) (fun w =>
  (true, delete_jumps [jump_text (bstr "iifname") iface CHAIN; jump_text (bstr "oifname") iface CHAIN] w)).

Definition ensure_dns_chains (name : bytes) (w : W) : bool * W :=
  let iface := sanitize_iface name in
  and_then (nft_apply (ADD_TABLE ++ FORWARD_CHAIN
      ++ bstr "add chain inet " ++ TABLE ++ bstr " " ++ DNS_NAT_CHAIN ++ bstr " { type nat hook prerouting priority dstnat; policy accept; }" ++ NL
      ++ bstr "add chain inet " ++ TABLE ++ bstr " " ++ DNS_FILTER_CHAIN ++ NL) w) (fun w =>
  let want := jump_text (bstr "iifname") iface DNS_FILTER_CHAIN in
  if str_contains want (list_forward w) then (true, w) else nft_apply (add_jump want) w).

Definition flush_and_delete (chain : bytes) : bytes :=
  bstr "flush chain inet " ++ TABLE ++ bstr " " ++ chain ++ NL ++ bstr "delete chain inet " ++ TABLE ++ bstr " " ++ chain ++ NL.

Definition delete_dns_filter_jump (iface : bytes) (w : W) : W := delete_jumps [jump_text (bstr "iifname") iface DNS_FILTER_CHAIN] w.

Definition remove_dns_lockdown (name : bytes) (w : W) : bool * W :=
  let w := delete_dns_filter_jump (sanitize_iface name) w in
  let w := snd (nft_apply (flush_and_delete DNS_FILTER_CHAIN) w) in
  let w := snd (nft_apply (flush_and_delete DNS_NAT_CHAIN) w) in
  (true, w).

Definition remove_proxy_lockdown (w : W) : bool * W :=
  (true, snd (nft_apply (flush_and_delete PROXY_LOCKDOWN_CHAIN) w)).

Definition lockdown_txn (backend : Z) : bytes :=
  ADD_TABLE
  ++ bstr "add chain inet " ++ TABLE ++ bstr " " ++ PROXY_LOCKDOWN_CHAIN ++ bstr " { type filter hook input priority filter; policy accept; }" ++ NL
  ++ bstr "flush chain inet " ++ TABLE ++ bstr " " ++ PROXY_LOCKDOWN_CHAIN ++ NL
  ++ bstr "add rule inet " ++ TABLE ++ bstr " " ++ PROXY_LOCKDOWN_CHAIN ++ bstr " udp dport " ++ decimal backend ++ bstr " iifname != " ++ QUOTE ++ bstr "lo"
  ++ QUOTE ++ bstr " drop" ++ NL.

Definition apply_proxy_lockdown (settings : option ProxySettings) (iface : IfaceRow) (w : W) : bool * W :=
  let backend := effective_listen_port settings iface in
  if bool_decide (backend = i_port iface) then remove_proxy_lockdown w else nft_apply (lockdown_txn backend) w.

Definition rebuild_dns_lockdown (disable_ipv6 : bool) (iface : IfaceRow) (w : W) : bool * W :=
  if negb (dns_lockdown iface) || bool_decide (trim (dns_lockdown_target iface) = []) then remove_dns_lockdown (i_name iface) w else
  match parse_target_ip (dns_lockdown_target iface) with
  | None => (false, w)
  | Some (family, target) =>
      if bool_decide (family = FamV6) && disable_ipv6 then (false, w) else
      and_then (ensure_dns_chains (i_name iface) w) (fun w =>
      nft_apply (dns_txn (i_name iface) family target (dns_block_external iface)) w)
  end.

(** [clients] and [default_allowed_ips] are [None] when the table cannot be read. *)
Definition rebuild_rules (json_arr : bytes -> option (list bytes)) (disable_ipv6 : bool) (iface : IfaceRow)
    (clients : option (list (Z * Client))) (default_allowed_ips : option bytes) (w : W) : bool * W :=
  and_then (rebuild_dns_lockdown disable_ipv6 iface w) (fun w =>
  if negb (firewall_enabled iface) then remove_filtering (i_name iface) w else
  and_then (init_chain (i_name iface) w) (fun w =>
  match clients, default_allowed_ips with
  | Some clients, Some ips => nft_apply (rules_txn json_arr clients (default [] (json_arr ips)) (negb disable_ipv6)) w
  | _, _ => (false, w)
  end)).
End calls.
