(* ===== verification/FirewallLive.v ===== *)
(** * The firewall in force

    What the calls leave in the kernel when [nft] takes them: the rules of the chains, the
    jumps into them, once each, and the packets that follow from both. *)
From stdpp Require Import gmap sorting.
From S2P Require Import Prelude Text NetAddr Cidr NetAlloc ProxyParams Firewall FirewallSpec FirewallProps FirewallEnforce FirewallDns FirewallCalls.

Definition FORWARD : bytes := bstr "forward".

(** Declarations of tables and chains; repeating one changes nothing. *)
Definition declares (t : bytes) : bool :=
  forallb (fun l => bool_decide (l = [] \/ is_Some (strip_prefix (bstr "add table ") l) \/ is_Some (strip_prefix (bstr "add chain ") l)))
    (split_on (fun c => bool_decide (c = 10%Z)) t).

Inductive Dir : Set := Incoming | Outgoing.
Definition dir_text (d : Dir) : bytes := match d with Incoming => bstr "iifname" | Outgoing => bstr "oifname" end.
Definition dir_match (d : Dir) (i : bytes) : Match := match d with Incoming => Iifname i | Outgoing => Oifname i end.

(** The jumps of the forward chain, as text and as rules. *)
Record JumpTo : Set := mkJump { j_dir : Dir; j_chain : bytes }.
Definition jump_line (i : bytes) (j : JumpTo) : bytes := jump_text (dir_text (j_dir j)) i (j_chain j).
Definition jump_rule (i : bytes) (j : JumpTo) : Rule := mkRule [dir_match (j_dir j) i] (Jump (j_chain j)).
Definition JUMPS : list JumpTo := [mkJump Incoming DNS_FILTER_CHAIN; mkJump Incoming CHAIN; mkJump Outgoing CHAIN].

#[export] Instance IpNet_eq_dec : EqDecision IpNet.
Proof. solve_decision. Defined.
#[export] Instance Match_eq_dec : EqDecision Match.
Proof. solve_decision. Defined.
#[export] Instance Verdict_eq_dec : EqDecision Verdict.
Proof. solve_decision. Defined.
#[export] Instance Rule_eq_dec : EqDecision Rule.
Proof. solve_decision. Defined.

(** What [nft] documents: a transaction it takes does what its statements say, a
    declaration keeps the rules of every chain, and a listing of the forward chain holds the text of
    its jumps and of no others. *)
Class NftLaws (W : Type) `{Nft W} (i : bytes) : Type := {
  rules : W -> bytes -> list Rule;
  nft_reads t sts w w' chain :
    read_txn TABLE t = Some sts -> nft_apply t w = (true, w') -> rules w' chain = chain_after chain (rules w chain) sts;
  nft_declares t w w' chain : declares t = true -> read_txn TABLE t = None -> nft_apply t w = (true, w') -> rules w' chain = rules w chain;
  nft_lists w j : j ∈ JUMPS -> str_contains (jump_line i j) (list_forward w) = bool_decide (jump_rule i j ∈ rules w FORWARD);
}.

(** ** Jumps *)

Definition jump_tokens (i : bytes) (j : JumpTo) : list Token :=
  head_tokens FORWARD ++ [Word (dir_text (j_dir j)); Quoted i; Word (bstr "jump"); Word (j_chain j)].

Lemma jump_reads name j : j ∈ JUMPS ->
  reads [unlex (jump_tokens (sanitize_iface name) j)] [AddRule FORWARD (jump_rule (sanitize_iface name) j)].
Proof.
  intros Hj. pose proof (sanitize_iface_ok name) as Hi. apply read_statement_rule.
  - unfold head_tokens. cbn [app]. unfold JUMPS in Hj. repeat (apply Forall_cons; split);
      lazymatch goal with
      | |- token_ok (Quoted _) => exact Hi
      | |- Forall _ [] => by apply Forall_nil
      | |- token_ok (Word (dir_text _)) => destruct (j_dir j); const_token
      | |- token_ok (Word (j_chain _)) => rewrite !elem_of_cons, elem_of_nil in Hj; destruct Hj as [->|[->|[->|[]]]]; const_token
      | |- _ => const_token
      end.
  - cbn [app length]. eapply (read_rule_match _ _ (dir_match (j_dir j) (sanitize_iface name)) _ (mkRule [] (Jump (j_chain j)))).
    + by destruct (j_dir j); vm_compute.
    + by apply (read_rule_verdict _ _ (Jump (j_chain j)) []); vm_compute.
Qed.

Lemma add_jump_line i j : add_jump (jump_line i j) = lines_text [unlex (jump_tokens i j)].
Proof. destruct j as [[] c]; unfold add_jump, jump_line, jump_text, lines_text, jump_tokens, unlex, head_tokens, token_text, QUOTE;
  cbn [app fmap list_fmap join_with mjoin list_join j_dir j_chain dir_text]; rewrite <- ?app_assoc; reflexivity. Qed.

Definition missing {W} `{Nft W} (i : bytes) (js : list JumpTo) (w : W) : list JumpTo :=
  filter (fun j => str_contains (jump_line i j) (list_forward w) = false) js.

Lemma read_add_jumps name js : Forall (fun j => j ∈ JUMPS) js ->
  read_txn TABLE (mjoin ((fun j => add_jump (jump_line (sanitize_iface name) j)) <$> js))
  = Some (AddRule FORWARD <$> (jump_rule (sanitize_iface name) <$> js)).
Proof.
  intros Hjs. rewrite <- list_fmap_compose.
  assert (mjoin ((fun j => add_jump (jump_line (sanitize_iface name) j)) <$> js)
          = lines_text ((fun j => unlex (jump_tokens (sanitize_iface name) j)) <$> js)) as ->.
  { clear. induction js as [|j js IH]; [done|]. cbn [fmap list_fmap mjoin list_join]. rewrite add_jump_line.
    etransitivity; [apply (f_equal (app _)), IH|]. symmetry. apply (lines_text_app [_]). }
  apply read_txn_reads, reads_fmap. eapply Forall_impl; [exact Hjs|]. intros j. apply jump_reads.
Qed.

Lemma filter_ext_in {A} (P Q : A -> Prop) `{!forall x, Decision (P x)} `{!forall x, Decision (Q x)} (l : list A) :
  (forall x, x ∈ l -> P x <-> Q x) -> filter P l = filter Q l.
Proof.
  intros Hx. induction l as [|x l IH]; [done|]. rewrite !filter_cons, IH by (intros y Hy; apply Hx; by right).
  apply decide_ext. apply Hx. by left.
Qed.

Lemma other_chain chain other rs acc : other <> chain ->
  foldl (fun rs st => match st with
                      | AddRule c r => if decide (c = chain) then rs ++ [r] else rs
                      | FlushChain c => if decide (c = chain) then [] else rs
                      end) acc (AddRule other <$> rs) = acc.
Proof. intros Hc. induction rs as [|r rs IH]; cbn [fmap list_fmap foldl]; [done|]. by rewrite decide_False. Qed.

(** ** The calls in force *)

Section live.
Context {W : Type} {HN : Nft W} (name : bytes) {HL : NftLaws W (sanitize_iface name)}.
#[local] Notation i := (sanitize_iface name).

(** The text that adds the jumps a listing lacks. *)
Definition adds (js : list JumpTo) (w : W) : bytes :=
  mjoin ((fun j => if str_contains (jump_line i j) (list_forward w) then [] else add_jump (jump_line i j)) <$> js).

Lemma adds_missing js w : adds js w = mjoin ((fun j => add_jump (jump_line i j)) <$> missing i js w).
Proof.
  unfold adds, missing. induction js as [|j js IH]; [done|]. rewrite filter_cons. cbn [fmap list_fmap mjoin list_join].
  destruct (str_contains (jump_line i j) (list_forward w)); [rewrite decide_False by done; exact IH|].
  rewrite decide_True by done. cbn [fmap list_fmap mjoin list_join]. apply (f_equal (app _)), IH.
Qed.

Lemma missing_absent js w : Forall (fun j => j ∈ JUMPS) js ->
  missing i js w = filter (fun j => jump_rule i j ∉ rules w FORWARD) js.
Proof.
  intros Hjs. unfold missing. induction Hjs as [|j js Hj _ IH]; [done|]. rewrite !filter_cons, IH.
  rewrite (nft_lists w j Hj). apply decide_ext. apply bool_decide_eq_false.
Qed.

(** Jumps that are listed already are not added again. *)
Lemma add_missing_jumps js w w' : Forall (fun j => j ∈ JUMPS) js ->
  (if bool_decide (adds js w = []) then (true, w) else nft_apply (adds js w) w) = (true, w') ->
  rules w' FORWARD = rules w FORWARD ++ (jump_rule i <$> filter (fun j => jump_rule i j ∉ rules w FORWARD) js)
  /\ forall chain, chain <> FORWARD -> rules w' chain = rules w chain.
Proof.
  intros Hjs. rewrite adds_missing. rewrite <- missing_absent by done.
  assert (Forall (fun j => j ∈ JUMPS) (missing i js w)) as Hm 
    by (apply Forall_forall; intros j [_ Hj]%list_elem_of_filter; rewrite Forall_forall in Hjs; by apply Hjs).
  case_bool_decide as Ha.
  - intros [= <-]. destruct (missing i js w) as [|j ms]; [by rewrite app_nil_r|]. cbn in Ha. unfold add_jump in Ha. by destruct j as [[] ?].
  - intros Ew. pose proof (read_add_jumps name _ Hm) as Hr. split.
    + rewrite (nft_reads _ _ _ _ FORWARD Hr Ew). apply chain_after_rules.
    + intros chain Hc. rewrite (nft_reads _ _ _ _ chain Hr Ew). apply other_chain. congruence.
Qed.

Lemma init_chain_effect w w' : init_chain name w = (true, w') ->
  rules w' FORWARD = rules w FORWARD ++ (jump_rule i <$> filter (fun j => jump_rule i j ∉ rules w FORWARD) [mkJump Incoming CHAIN; mkJump Outgoing CHAIN])
  /\ forall chain, chain <> FORWARD -> rules w' chain = rules w chain.
Proof.
  unfold init_chain, and_then. destruct (nft_apply _ w) as [[] w1] eqn:E1; [|done]. cbn [fst snd].
  assert (forall c, rules w1 c = rules w c) as Hf by (intros c; eapply nft_declares; [| |exact E1]; by vm_compute).
  intros E2. destruct (add_missing_jumps [mkJump Incoming CHAIN; mkJump Outgoing CHAIN] w1 w') as [H1 H2].
  - repeat constructor.
  - rewrite <- E2. unfold adds. cbn [fmap list_fmap mjoin list_join]. rewrite app_nil_r. reflexivity.
  - split; [by rewrite H1, Hf|]. intros chain Hc. by rewrite H2, Hf.
Qed.

Lemma ensure_dns_chains_effect w w' : ensure_dns_chains name w = (true, w') ->
  rules w' FORWARD = rules w FORWARD ++ (jump_rule i <$> filter (fun j => jump_rule i j ∉ rules w FORWARD) [mkJump Incoming DNS_FILTER_CHAIN]).
Proof.
  unfold ensure_dns_chains, and_then. destruct (nft_apply _ w) as [[] w1] eqn:E1; [|done]. cbn [fst snd].
  assert (forall c, rules w1 c = rules w c) as Hf by (intros c; eapply nft_declares; [| |exact E1]; by vm_compute).
  intros E2. destruct (add_missing_jumps [mkJump Incoming DNS_FILTER_CHAIN] w1 w') as [H1 _].
  - repeat constructor.
  - rewrite <- E2. unfold adds. cbn [fmap list_fmap mjoin list_join]. rewrite app_nil_r.
    unfold jump_line. cbn [j_dir j_chain dir_text].
    by destruct (str_contains (jump_text (bstr "iifname") i DNS_FILTER_CHAIN) (list_forward w1)).
  - by rewrite H1, Hf.
Qed.

Lemma rules_txn_effect json_arr default_ips v6 cs w w' :
  Forall (fun e => 0 ≤ fst e < 2 ^ 63)%Z cs -> nft_apply (rules_txn json_arr cs default_ips v6) w = (true, w') ->
  rules w' CHAIN = enabled_grants json_arr default_ips v6 cs ++ [mkRule [] Drop]
  /\ forall chain, chain <> CHAIN -> rules w' chain = rules w chain.
Proof.
  intros Hcs E. pose proof (rules_txn_reads json_arr default_ips v6 cs Hcs) as Hr. split.
  - rewrite (nft_reads _ _ _ _ CHAIN Hr E). apply chain_after_flush.
  - intros chain Hc. rewrite (nft_reads _ _ _ _ chain Hr E). unfold chain_after. cbn [foldl]. rewrite decide_False by done.
    by apply other_chain.
Qed.

Lemma dns_txn_effect a block_external w w' :
  ip_range a -> nft_apply (dns_txn name (fw_family a) (show_ip a) block_external) w = (true, w') ->
  rules w' DNS_NAT_CHAIN = (dnat_rule i a <$> [Udp; Tcp]) /\ rules w' DNS_FILTER_CHAIN = filter_chain a block_external
  /\ rules w' FORWARD = rules w FORWARD.
Proof.
  intros Ha E. pose proof (dns_txn_reads name a block_external Ha) as Hr.
  destruct (dns_chains i a block_external (rules w DNS_NAT_CHAIN) (rules w DNS_FILTER_CHAIN)) as [H1 H2].
  rewrite (nft_reads _ _ _ _ DNS_NAT_CHAIN Hr E), (nft_reads _ _ _ _ DNS_FILTER_CHAIN Hr E), (nft_reads _ _ _ _ FORWARD Hr E), H1, H2.
  split_and!; [done|done|]. by destruct block_external.
Qed.

Lemma missing_after_dns (rs : list Rule) :
  filter (fun j => jump_rule i j ∉ rs ++ (jump_rule i <$> filter (fun j => jump_rule i j ∉ rs) [mkJump Incoming DNS_FILTER_CHAIN]))
    [mkJump Incoming CHAIN; mkJump Outgoing CHAIN]
  = filter (fun j => jump_rule i j ∉ rs) [mkJump Incoming CHAIN; mkJump Outgoing CHAIN].
Proof.
  assert (forall j, j_chain j = CHAIN ->
    jump_rule i j ∉ rs ++ (jump_rule i <$> filter (fun j => jump_rule i j ∉ rs) [mkJump Incoming DNS_FILTER_CHAIN]) <-> jump_rule i j ∉ rs) as Hj.
  { intros j Hj. rewrite elem_of_app. split; [tauto|]. intros Hn [?|Hin]; [done|].
    apply list_elem_of_fmap in Hin as (j' & Hjj & Hin). apply list_elem_of_filter in Hin as [_ ->%list_elem_of_singleton].
    unfold jump_rule in Hjj. rewrite Hj in Hjj. by injection Hjj. }
  apply filter_ext_in. intros j Hin. apply Hj. rewrite !elem_of_cons, elem_of_nil in Hin. by destruct Hin as [->|[->|[]]].
Qed.
End live.

(** ** Packets *)

(** The chain of a transaction of [rebuild_rules], as [firewall_enforces] has it. *)
Lemma rules_chain_verdict json_arr default_ips v6 cs p :
  ip_range (src p) ->
  chain_verdict (enabled_grants json_arr default_ips v6 cs ++ [mkRule [] Drop]) p = Some Accept
    /\ opened json_arr default_ips v6 cs p
  \/ chain_verdict (enabled_grants json_arr default_ips v6 cs ++ [mkRule [] Drop]) p = Some Drop
    /\ ~ opened json_arr default_ips v6 cs p.
Proof.
  intros Hp. rewrite (chain_verdict_default _ Accept) by apply enabled_grants_accept.
  pose proof (enabled_grants_match json_arr default_ips v6 cs p Hp) as Hm. rewrite <- Exists_exists in Hm.
  destruct (decide _) as [H|H]; [left|right]; naive_solver.
Qed.

(** The forward hook: a jump whose chain has no verdict returns, and the policy accepts. *)
Fixpoint forwarded (env : bytes -> list Rule) (rs : list Rule) (p : Packet) : bool :=
  match rs with
  | [] => true
  | r :: rs =>
      if match_rule p r then
        match (match verdict r with Jump c => chain_verdict (env c) p | v => Some v end) with
        | Some Accept => true
        | Some Drop => false
        | _ => forwarded env rs p
        end
      else forwarded env rs p
  end.

(** What the peers' interface lets through, in either direction, when the jumps are the three. *)
Definition passes json_arr default_ips v6 cs (i : bytes) (a : IpAddr) (block_external : bool) (p : Packet) : Prop :=
  let blocked := is_dns p = true /\ (if block_external then dst p <> a else family_of (src p) <> family_of a) in
  (iif p = i /\ block_external = true /\ dst p = a)
  \/ ((iif p = i -> ~ blocked) /\ (iif p = i \/ oif p = i -> opened json_arr default_ips v6 cs p)).

Lemma three_jumps json_arr default_ips v6 cs i a block_external env p :
  ip_range a -> ip_range (src p) -> ip_range (dst p) ->
  env CHAIN = enabled_grants json_arr default_ips v6 cs ++ [mkRule [] Drop] -> env DNS_FILTER_CHAIN = filter_chain a block_external ->
  forwarded env (jump_rule i <$> JUMPS) p = true <-> passes json_arr default_ips v6 cs i a block_external p.
Proof.
  intros Ha Hs Hd Hc Hf. pose proof (rules_chain_verdict json_arr default_ips v6 cs p Hs) as Hv. rewrite <- Hc in Hv.
  unfold passes, JUMPS. cbn [fmap list_fmap forwarded]. unfold match_rule, jump_rule.
  cbn [rule_matches verdict forallb match_packet dir_match j_dir j_chain]. rewrite !andb_true_r, Hf, filter_verdict by done.
  assert (bool_decide (family_of (src p) = other_family (family_of a)) = negb (bool_decide (family_of (src p) = family_of a))) as ->
    by (by destruct (family_of (src p)), (family_of a)).
  destruct (decide (iif p = i)) as [Hi|Hi]; [rewrite (bool_decide_eq_true_2 _ Hi)|rewrite (bool_decide_eq_false_2 _ Hi)];
    (destruct (decide (oif p = i)) as [Ho|Ho]; [rewrite (bool_decide_eq_true_2 _ Ho)|rewrite (bool_decide_eq_false_2 _ Ho)]);
    destruct Hv as [[Ev Hp]|[Ev Hp]]; rewrite ?Ev;
    (destruct block_external; [destruct (decide (dst p = a))|destruct (decide (family_of (src p) = family_of a)) as [Hfa|Hfa];
       [rewrite ?(bool_decide_eq_true_2 _ Hfa)|rewrite ?(bool_decide_eq_false_2 _ Hfa)]]);
    destruct (is_dns p); cbn [andb negb]; naive_solver.
Qed.

(** C9: when [rebuild_rules] succeeds with the firewall and the lockdown on, under an [nft]
    that does what the transactions say, the DNS of the peers is translated to the target, each
    jump that was missing has been added and no other, and, if none was there, the forward hook
    lets a packet of the interface through exactly when an enabled client's target
    opens it (for every protocol if it names no port) and it is not DNS that goes
    elsewhere, or it goes to the DNS target. *)
Theorem rebuild_in_force {W} `{HN : Nft W} json_arr disable_ipv6 iface cs ips {HL : NftLaws W (sanitize_iface (i_name iface))} w w' :
  firewall_enabled iface = true -> dns_lockdown iface = true -> trim (dns_lockdown_target iface) <> [] ->
  Forall (fun e => 0 ≤ fst e < 2 ^ 63)%Z cs ->
  rebuild_rules json_arr disable_ipv6 iface (Some cs) (Some ips) w = (true, w') ->
  let i := sanitize_iface (i_name iface) in
  exists a, parse_target_ip (dns_lockdown_target iface) = Some (fw_family a, show_ip a)
    /\ (forall p, chain_verdict (rules w' DNS_NAT_CHAIN) p
          = if bool_decide (iif p = i) && bool_decide (family_of (src p) = family_of a) && is_dns p then Some (Dnat a 53) else None)
    /\ rules w' FORWARD = rules w FORWARD ++ (jump_rule i <$> filter (fun j => jump_rule i j ∉ rules w FORWARD) JUMPS)
    /\ (rules w FORWARD = [] -> forall p, ip_range (src p) -> ip_range (dst p) ->
          forwarded (rules w') (rules w' FORWARD) p = true
          <-> passes json_arr (default [] (json_arr ips)) (negb disable_ipv6) cs i a (dns_block_external iface) p).
Proof.
  intros Hfw Hdns Ht Hcs. unfold rebuild_rules, rebuild_dns_lockdown. rewrite Hfw, Hdns, bool_decide_eq_false_2 by done. cbn [negb orb].
  destruct (parse_target_ip _) as [[fam target]|] eqn:Et; [|done].
  destruct (parse_target_ip_inv _ _ _ Et) as (a & Ha & -> & ->).
  destruct (bool_decide _ && _); [done|]. unfold and_then.
  destruct (ensure_dns_chains (i_name iface) w) as [[] w1] eqn:E1; [|done]. cbn [fst snd].
  destruct (nft_apply (dns_txn _ _ _ _) w1) as [[] w2] eqn:E2; [|done]. cbn [fst snd].
  destruct (init_chain (i_name iface) w2) as [[] w3] eqn:E3; [|done]. cbn [fst snd]. intros E4.
  pose proof (ensure_dns_chains_effect (i_name iface) w w1 E1) as F1.
  destruct (dns_txn_effect (i_name iface) a (dns_block_external iface) w1 w2 Ha E2) as (N2 & D2 & F2).
  destruct (init_chain_effect (i_name iface) w2 w3 E3) as [F3 O3].
  destruct (rules_txn_effect (i_name iface) json_arr _ _ cs w3 w' Hcs E4) as [C4 O4].
  assert (rules w' FORWARD = rules w FORWARD ++ (jump_rule (sanitize_iface (i_name iface)) <$> filter (fun j => jump_rule (sanitize_iface (i_name iface)) j ∉ rules w FORWARD) JUMPS)) as HF.
  { rewrite O4, F3, F2, F1, missing_after_dns by done. unfold JUMPS. rewrite <- app_assoc, <- fmap_app. f_equal. f_equal.
    by rewrite <- filter_app. }
  exists a. split; [done|]. split; [|split; [exact HF|]].
  - intros p. rewrite O4, O3, N2 by done. apply nat_verdict.
  - intros H0 p Hs Hd. rewrite HF, H0. unfold JUMPS. rewrite !filter_cons, filter_nil, !decide_True by apply not_elem_of_nil.
    apply three_jumps; [done|done|done|exact C4|]. by rewrite O4, O3.
Qed.

(** ** An [nft] that does what its transactions say *)

Definition Kernel : Type := bytes -> list Rule.
Definition cb0 : bytes := bstr "cb0".
Definition kernel_apply (t : bytes) (k : Kernel) : bool * Kernel :=
  match read_txn TABLE t with
  | Some sts => (true, fun chain => chain_after chain (k chain) sts)
  | None => (declares t, k)
  end.
Definition kernel_output (args : list bytes) (k : Kernel) : option bytes :=
  Some (bstr "chain forward {" ++ NL
        ++ mjoin ((fun j => if decide (jump_rule cb0 j ∈ k FORWARD) then jump_line cb0 j ++ NL else []) <$> JUMPS) ++ bstr "}").
#[export] Instance kernel_nft : Nft Kernel := {| nft_apply := kernel_apply; nft_output := kernel_output |}.

Lemma kernel_lists (k : Kernel) j : j ∈ JUMPS -> str_contains (jump_line cb0 j) (list_forward k) = bool_decide (jump_rule cb0 j ∈ k FORWARD).
Proof.
  intros Hj. unfold list_forward, nft, nft_output, kernel_nft, kernel_output, JUMPS in *. cbn [fmap list_fmap mjoin list_join].
  do 3 (match goal with |- context [decide ?P] => destruct (decide P) end);
    rewrite !elem_of_cons, elem_of_nil in Hj;
    (destruct Hj as [->|[->|[->|[]]]]; [rewrite ?bool_decide_eq_true_2 by done; rewrite ?bool_decide_eq_false_2 by done; by vm_compute..]).
Qed.

#[export] Instance kernel_laws : NftLaws Kernel (sanitize_iface cb0).
Proof.
  refine {| rules := fun k => k |}.
  - intros t sts w w' chain Hr E. cbn in E. unfold kernel_apply in E. rewrite Hr in E. by injection E as <-.
  - intros t w w' chain _ Hr E. cbn in E. unfold kernel_apply in E. rewrite Hr in E. by injection E as _ <-.
  - exact kernel_lists.
Defined.

Definition live_iface : IfaceRow :=
  mkIfaceRow cb0 51820 true true true (bstr "10.8.0.1") true [] false.
Definition live_call (k : Kernel) : bool * Kernel := rebuild_rules no_json false live_iface (Some two_clients) (Some []) k.
Definition live_kernel : Kernel := snd (live_call (fun _ => [])).

Lemma rebuild_in_force_witness :
  let i := sanitize_iface cb0 in
  exists a, parse_target_ip (bstr "10.8.0.1") = Some (fw_family a, show_ip a)
    /\ (forall p, chain_verdict (live_kernel DNS_NAT_CHAIN) p
          = if bool_decide (iif p = i) && bool_decide (family_of (src p) = family_of a) && is_dns p then Some (Dnat a 53) else None)
    /\ live_kernel FORWARD = [] ++ (jump_rule i <$> filter (fun j => jump_rule i j ∉ []) JUMPS)
    /\ ([] = @nil Rule -> forall p, ip_range (src p) -> ip_range (dst p) ->
          forwarded live_kernel (live_kernel FORWARD) p = true <-> passes no_json (default [] (no_json [])) true two_clients i a true p).
Proof.
  apply (rebuild_in_force no_json false live_iface two_clients [] (HL := kernel_laws) (fun _ => []) live_kernel).
  - reflexivity.
  - reflexivity.
  - intros E. vm_compute in E. discriminate E.
  - repeat constructor; cbn; lia.
  - change ((fst (live_call (fun _ => [])), snd (live_call (fun _ => []))) = (true, snd (live_call (fun _ => [])))).
    apply f_equal2; [vm_compute; reflexivity|reflexivity].
Defined.

(** In that kernel a permitted packet goes out and its reply does not come back; a peer reaches
    every port of the DNS target, which no row of the table permits. *)
Lemma live_examples :
  forwarded live_kernel (live_kernel FORWARD) to_target = true
  /\ forwarded live_kernel (live_kernel FORWARD) (reply to_target 40000) = false
  /\ forwarded live_kernel (live_kernel FORWARD)
       (mkPacket cb0 (bstr "eth0") (V4 (10 * 2 ^ 24 + 8 * 2 ^ 16 + 3)) (V4 (10 * 2 ^ 24 + 8 * 2 ^ 16 + 1)) (Some (Tcp, 22%Z))) = true.
Proof. by vm_compute. Qed.
