(* ===== verification/Encoding.v ===== *)
(** * Hex text ([src/src/encoding.rs])

    Both directions.  Base 64 is the [base64ct] crate's and stays a parameter where
    it is used. *)
From S2P Require Import Prelude.

Definition HEX_LOWER : bytes := bstr "0123456789abcdef".

(** A byte's nibbles index the table; the index is below 16. *)
Definition hex_digit (n : Z) : Z := default 0%Z (HEX_LOWER !! Z.to_nat n).
Definition hex_encode (bs : bytes) : bytes := bs ≫= fun b => [hex_digit (Z.shiftr b 4); hex_digit (Z.land b 0x0f)].

Definition nibble (c : Z) : option Z :=
  if decide (48 ≤ c ≤ 57)%Z then Some (c - 48)%Z
  else if decide (97 ≤ c ≤ 102)%Z then Some (c - 97 + 10)%Z
  else if decide (65 ≤ c ≤ 70)%Z then Some (c - 65 + 10)%Z
  else None.

(** The loop over the chunks of two; the length is even. *)
Fixpoint decode_pairs (s : bytes) : option bytes :=
  match s with
  | hi :: lo :: s => h ← nibble hi; l ← nibble lo; r ← decode_pairs s; Some (Z.lor (Z.shiftl h 4) l :: r)
  | _ => Some []
  end.
Definition hex_decode (s : bytes) : option bytes :=
  if decide (length s `mod` 2 <> 0) then None else decode_pairs s.

(** ** Lemmas *)

Definition hex_char (c : Z) : Prop := (48 ≤ c ≤ 57 \/ 97 ≤ c ≤ 102)%Z.
#[export] Instance hex_char_dec c : Decision (hex_char c).
Proof. unfold hex_char. apply _. Defined.

Lemma hex_digit_spec n : (0 ≤ n < 16)%Z -> hex_char (hex_digit n) /\ nibble (hex_digit n) = Some n.
Proof. apply (forall_below_dec (fun n => hex_char (hex_digit n) /\ nibble (hex_digit n) = Some n) 16). by vm_compute. Qed.

Lemma byte_nibbles b : (0 ≤ b < 256)%Z ->
  (0 ≤ Z.shiftr b 4 < 16)%Z /\ (0 ≤ Z.land b 15 < 16)%Z /\ Z.lor (Z.shiftl (Z.shiftr b 4) 4) (Z.land b 15) = b.
Proof.
  apply (forall_below_dec (fun b => (0 ≤ Z.shiftr b 4 < 16)%Z /\ (0 ≤ Z.land b 15 < 16)%Z /\ Z.lor (Z.shiftl (Z.shiftr b 4) 4) (Z.land b 15) = b) 256).
  by vm_compute.
Qed.

Lemma hex_encode_cons b bs : hex_encode (b :: bs) = hex_digit (Z.shiftr b 4) :: hex_digit (Z.land b 15) :: hex_encode bs.
Proof. done. Qed.

Lemma length_hex_encode bs : length (hex_encode bs) = 2 * length bs.
Proof. induction bs as [|b bs IH]; [done|]. rewrite hex_encode_cons. cbn. lia. Qed.

Lemma hex_encode_chars bs : bytes_ok bs -> Forall hex_char (hex_encode bs).
Proof.
  intros Hbs. induction Hbs as [|b bs Hb _ IH]; [constructor|]. rewrite hex_encode_cons.
  destruct (byte_nibbles b Hb) as (H1 & H2 & _). repeat (constructor; [by apply hex_digit_spec|]). done.
Qed.

Lemma hex_round_trip bs : bytes_ok bs -> hex_decode (hex_encode bs) = Some bs.
Proof.
  intros Hbs. unfold hex_decode. rewrite length_hex_encode. rewrite decide_False by (rewrite Nat.mul_comm, Nat.Div0.mod_mul; lia).
  induction Hbs as [|b bs Hb _ IH]; [done|]. rewrite hex_encode_cons. cbn [decode_pairs].
  destruct (byte_nibbles b Hb) as (H1 & H2 & E). destruct (hex_digit_spec _ H1) as [_ ->], (hex_digit_spec _ H2) as [_ ->].
  cbn [mbind option_bind]. rewrite IH. cbn [mbind option_bind]. by rewrite E.
Qed.
