(* ===== verification/Rng.v ===== *)
(** * Random numbers ([src/src/rng.rs])

    The helpers over the operating system's source.  The source is a parameter:
    [os i n] is what the [i]th call for [n] bytes is given.  A computation takes the
    number of calls made so far; the rejection loop has fuel, and a fair source
    ends it. *)
From S2P Require Import Prelude Text Encoding.

Inductive never : Set := .

(** The source, whose contract is to fill the whole buffer. *)
Class Os : Type := { os : nat -> nat -> bytes; os_bytes i n : bytes_ok (os i n); os_length i n : length (os i n) = n }.

Definition Gen (A : Type) : Type := nat -> result never (A * nat).

Definition of_le (bs : bytes) : Z := foldr (fun b acc => b + 256 * acc)%Z 0%Z bs.
Definition i32 (z : Z) : Z := ((z + 2 ^ 31) `mod` 2 ^ 32 - 2 ^ 31)%Z.
Definition i64 (z : Z) : Z := ((z + 2 ^ 63) `mod` 2 ^ 64 - 2 ^ 63)%Z.

Section rng.
Context `{Os} (fuel : nat).

Definition fill (n : nat) : Gen bytes := fun i => Ok (os i n, S i).
Definition byte : Gen Z := fun i => '(b, i) ← fill 1 i; Ok (default 0%Z (head b), i).
Definition next_u64 : Gen Z := fun i => '(b, i) ← fill 8 i; Ok (of_le b, i).

(** The size of the zone that is discarded. *)
Definition reject_below (bound : Z) : Z := (wrap 64 (- bound) `mod` bound)%Z.

Fixpoint reject_loop (fuel : nat) (bound : Z) (i : nat) : result never (Z * nat) :=
  match fuel with
  | O => Stuck OutOfFuel
  | S fuel =>
      '(x, i) ← next_u64 i;
      if decide (reject_below bound ≤ x)%Z then Ok ((x `mod` bound)%Z, i) else reject_loop fuel bound i
  end.

Definition u64_below (bound : Z) : Gen Z := fun i =>
  if decide (bound = 0%Z) then Stuck Panicked else reject_loop fuel bound i.

Definition range_incl_i64 (lo hi : Z) : Gen Z := fun i =>
  if decide (hi < lo)%Z then Stuck Panicked else
  '(x, i) ← u64_below (wrap 64 (hi - lo + 1)) i; Ok (i64 (lo + i64 x), i).

Definition range_excl_i64 (lo hi : Z) : Gen Z := fun i =>
  if decide (hi ≤ lo)%Z then Stuck Panicked else
  '(x, i) ← u64_below (wrap 64 (hi - lo)) i; Ok (i64 (lo + i64 x), i).

(** [b[6]] and [b[8]] with their fixed bits. *)
Definition uuid_v4 : Gen bytes := fun i =>
  '(b, i) ← fill 16 i;
  let b := alter (fun x => Z.lor (Z.land x 0x0f) 0x40) 6 b in
  let b := alter (fun x => Z.lor (Z.land x 0x3f) 0x80) 8 b in
  let h := hex_encode b in
  let part a e := take (e - a) (drop a h) in
  Ok (part 0 8 ++ 45%Z :: part 8 12 ++ 45%Z :: part 12 16 ++ 45%Z :: part 16 20 ++ 45%Z :: part 20 32, i).
End rng.

(** ** Draws *)

Lemma of_le_range bs : bytes_ok bs -> (0 ≤ of_le bs < 256 ^ Z.of_nat (length bs))%Z.
Proof.
  intros Hbs. induction Hbs as [|b bs Hb _ IH]; [done|]. cbn [of_le foldr length]. unfold byte_ok in Hb. fold (of_le bs).
  rewrite Nat2Z.inj_succ, Z.pow_succ_r by lia. lia.
Qed.

Section draws.
Context `{Os}.

(** The number that the [i]th call gives for eight bytes. *)
Definition draw (i : nat) : Z := of_le (os i 8).

Lemma next_u64_eq i : next_u64 i = Ok (draw i, S i).
Proof. done. Qed.

Lemma draw_range i : (0 ≤ draw i < 2 ^ 64)%Z.
Proof. pose proof (of_le_range (os i 8) (os_bytes i 8)) as Hr. by rewrite os_length in Hr. Qed.

Lemma reject_below_spec b : (0 < b < 2 ^ 64)%Z -> reject_below b = (2 ^ 64 `mod` b)%Z /\ (0 ≤ reject_below b < b)%Z.
Proof.
  intros Hb. unfold reject_below, wrap. replace (- b)%Z with (2 ^ 64 - b + (-1) * 2 ^ 64)%Z by lia.
  rewrite Z.mod_add, (Z.mod_small (2 ^ 64 - b)) by lia.
  replace (2 ^ 64 - b)%Z with (2 ^ 64 + (-1) * b)%Z by lia. rewrite Z.mod_add by lia.
  split; [done|]. apply Z.mod_pos_bound. lia.
Qed.

(** What the loop returns: the first draw that is not discarded. *)
Lemma reject_loop_ok fuel b i x j : (0 < b < 2 ^ 64)%Z -> reject_loop fuel b i = Ok (x, j) ->
  (0 ≤ x < b)%Z /\ i < j /\ (reject_below b ≤ draw (j - 1))%Z /\ x = (draw (j - 1) `mod` b)%Z
  /\ forall k, i ≤ k < j - 1 -> (draw k < reject_below b)%Z.
Proof.
  intros Hb. revert i. induction fuel as [|fuel IH]; intros i E; [done|]. cbn [reject_loop] in E. rewrite next_u64_eq, bind_Ok_eq in E.
  cbn beta iota in E. case_decide as Hr.
  - injection E as <- <-. replace (S i - 1) with i by lia. split; [apply Z.mod_pos_bound; lia|].
    split; [lia|]. split; [done|]. split; [done|]. lia.
  - apply IH in E as (H1 & H2 & H3 & H4 & H5). split; [done|]. split; [lia|]. split; [done|]. split; [done|].
    intros k Hk. destruct (decide (k = i)) as [->|]; [lia|]. apply H5. lia.
Qed.

(** A draw that is not discarded ends the loop. *)
Lemma reject_loop_ends b i m fuel : (0 < b < 2 ^ 64)%Z -> (reject_below b ≤ draw m)%Z -> i ≤ m -> m - i < fuel ->
  exists x j, reject_loop fuel b i = Ok (x, j) /\ j ≤ S m /\ (j = S m -> x = (draw m `mod` b)%Z).
Proof.
  intros Hb Hm. revert i. induction fuel as [|fuel IH]; intros i Hi Hf; [lia|]. cbn [reject_loop]. rewrite next_u64_eq, bind_Ok_eq.
  cbn beta iota. case_decide as Hr.
  - eexists _, _. split; [done|]. split; [lia|]. intros [= ->]. done.
  - destruct (decide (i = m)) as [->|]; [lia|]. destruct (IH (S i)) as (x & j & E & Hj & Hx); [lia|lia|]. by exists x, j.
Qed.

(** More fuel changes nothing. *)
Lemma reject_loop_more fuel fuel' b i x j : fuel ≤ fuel' -> reject_loop fuel b i = Ok (x, j) -> reject_loop fuel' b i = Ok (x, j).
Proof.
  revert fuel' i. induction fuel as [|fuel IH]; intros fuel' i Hf E; [done|]. destruct fuel' as [|fuel']; [lia|].
  cbn [reject_loop] in *. rewrite next_u64_eq, bind_Ok_eq in *. cbn beta iota in *. case_decide; [done|]. apply IH; [lia|done].
Qed.
End draws.

(** ** Uniformity *)

Lemma block_count b v m : (0 ≤ v < b)%Z -> length (filter (fun x => x `mod` b = v)%Z (seqZ m b)) = 1.
Proof.
  intros Hv. assert (filter (fun x => x `mod` b = v)%Z (seqZ m b) ≡ₚ [m + (v - m) `mod` b]%Z) as ->; [|done].
  apply NoDup_Permutation; [apply NoDup_filter, NoDup_seqZ|apply NoDup_singleton|]. intros x.
  rewrite list_elem_of_filter, list_elem_of_singleton, elem_of_seqZ. pose proof (Z.mod_pos_bound (v - m) b ltac:(lia)) as Hr. split.
  - intros [Hx Hin]. pose proof (Z.div_mod x b ltac:(lia)).
    rewrite <- (Z.mod_unique (v - m) b (- (x / b)) (x - m)); [lia|left; lia|lia].
  - intros ->. split; [|lia]. rewrite Z.add_mod_idemp_r by lia. replace (m + (v - m))%Z with v by lia. by apply Z.mod_small.
Qed.

Lemma residue_count b v m (q : nat) : (0 ≤ v < b)%Z -> length (filter (fun x => x `mod` b = v)%Z (seqZ m (b * Z.of_nat q))) = q.
Proof.
  intros Hv. revert m. induction q as [|q IH]; intros m; [by rewrite Z.mul_0_r|].
  replace (b * Z.of_nat (S q))%Z with (b + b * Z.of_nat q)%Z by lia.
  assert (0 ≤ b * Z.of_nat q)%Z by nia. rewrite seqZ_app by lia.
  rewrite filter_app, length_app, block_count, IH by done. done.
Qed.

(** C16: the numbers drawn below a bound are in range and have no bias: the draws that are
    kept split evenly over the results, each result being that of exactly [2^64 / bound] of
    the values of a draw; and a draw that is kept ends the loop. *)
Theorem draws_unbiased `{Os} (bound : Z) :
  (0 < bound < 2 ^ 64)%Z ->
  (forall fuel i x j, u64_below fuel bound i = Ok (x, j) -> (0 ≤ x < bound)%Z /\ x = (draw (j - 1) `mod` bound)%Z
     /\ (reject_below bound ≤ draw (j - 1))%Z /\ forall k, i ≤ k < j - 1 -> (draw k < reject_below bound)%Z)
  /\ (forall v, (0 ≤ v < bound)%Z ->
       Z.of_nat (length (filter (fun x => x `mod` bound = v)%Z (seqZ (reject_below bound) (2 ^ 64 - reject_below bound)))) = (2 ^ 64 / bound)%Z)
  /\ (forall i m, i ≤ m -> (reject_below bound ≤ draw m)%Z -> exists r, u64_below (S (m - i)) bound i = Ok r).
Proof.
  intros Hb. assert (forall fuel i, u64_below fuel bound i = reject_loop fuel bound i) as Hu by (intros; unfold u64_below; by rewrite decide_False by lia).
  split; [|split].
  - intros fuel i x j E. rewrite Hu in E. apply reject_loop_ok in E as (H1 & _ & H3 & H4 & H5); [|done]. done.
  - intros v Hv. destruct (reject_below_spec bound Hb) as [-> Hr].
    replace (2 ^ 64 - 2 ^ 64 `mod` bound)%Z with (bound * Z.of_nat (Z.to_nat (2 ^ 64 / bound)))%Z.
    { rewrite residue_count by done. rewrite Z2Nat.id; [done|]. apply Z.div_pos; lia. }
    rewrite Z2Nat.id by (apply Z.div_pos; lia). pose proof (Z.div_mod (2 ^ 64) bound ltac:(lia)). lia.
  - intros i m Him Hm. destruct (reject_loop_ends bound i m (S (m - i)) Hb Hm Him ltac:(lia)) as (x & j & E & _).
    exists (x, j). by rewrite Hu.
Qed.

(** ** Ranges *)

Section ranges.
Context `{Os}.

(** With enough fuel, and then with more, the computation returns. *)
Definition terminates {A} (g : nat -> Gen A) (i : nat) (x : A) (j : nat) : Prop :=
  exists F, forall fuel, F ≤ fuel -> g fuel i = Ok (x, j).

Lemma terminates_ret {A} (x : A) i : terminates (fun _ i => Ok (x, i)) i x i.
Proof. by exists 0. Qed.

Lemma terminates_bind {A B} (g : nat -> Gen A) (h : nat -> A -> Gen B) i x j y k :
  terminates g i x j -> terminates (fun fuel => h fuel x) j y k -> terminates (fun fuel i => '(x, i) ← g fuel i; h fuel x i) i y k.
Proof. intros [F HF] [G HG]. exists (F `max` G). intros fuel Hf. rewrite HF by lia. rewrite bind_Ok_eq. apply HG. lia. Qed.

Definition small_range (lo hi : Z) : Prop := (- 2 ^ 62 < lo /\ hi < 2 ^ 62)%Z.

Lemma i64_small z : (- 2 ^ 63 ≤ z < 2 ^ 63)%Z -> i64 z = z.
Proof. intros Hz. unfold i64. rewrite Z.mod_small by lia. lia. Qed.

(** Both kinds of range, by the number of their values. *)
Lemma range_incl_eq fuel lo hi i : small_range lo hi -> (lo ≤ hi)%Z ->
  range_incl_i64 fuel lo hi i = ('(x, i) ← reject_loop fuel (hi - lo + 1) i; Ok ((lo + x)%Z, i)).
Proof.
  intros [H1 H2] Hle. unfold range_incl_i64, u64_below. rewrite decide_False by lia. rewrite wrap_small by lia. rewrite decide_False by lia.
  destruct (reject_loop fuel (hi - lo + 1) i) as [[x j]| |] eqn:E; [|done|done]. rewrite !bind_Ok_eq.
  apply reject_loop_ok in E as (Hx & _); [|lia]. by rewrite (i64_small x), i64_small by lia.
Qed.

Lemma range_excl_eq fuel lo hi i : small_range lo hi -> (lo < hi)%Z -> range_excl_i64 fuel lo hi i = range_incl_i64 fuel lo (hi - 1) i.
Proof.
  intros [H1 H2] Hle. rewrite range_incl_eq by (unfold small_range; lia). replace (hi - 1 - lo + 1)%Z with (hi - lo)%Z by lia.
  unfold range_excl_i64, u64_below. rewrite decide_False by lia. rewrite wrap_small by lia. rewrite decide_False by lia.
  destruct (reject_loop fuel (hi - lo) i) as [[x j]| |] eqn:E; [|done|done]. rewrite !bind_Ok_eq.
  apply reject_loop_ok in E as (Hx & _); [|lia]. by rewrite (i64_small x), i64_small by lia.
Qed.

Lemma range_incl_ok fuel lo hi i x j : small_range lo hi -> range_incl_i64 fuel lo hi i = Ok (x, j) -> (lo ≤ x ≤ hi)%Z /\ i < j.
Proof.
  intros Hs. destruct (decide (lo ≤ hi)%Z); [|unfold range_incl_i64; by rewrite decide_True by lia].
  rewrite range_incl_eq by done. intros E. apply bind_Ok in E as ([y k] & E & [= <- <-]).
  apply reject_loop_ok in E as (H1 & H2 & _); [|unfold small_range in *; lia]. lia.
Qed.

Lemma range_excl_ok fuel lo hi i x j : small_range lo hi -> range_excl_i64 fuel lo hi i = Ok (x, j) -> (lo ≤ x < hi)%Z /\ i < j.
Proof.
  intros Hs. destruct (decide (lo < hi)%Z); [|unfold range_excl_i64; by rewrite decide_True by lia].
  rewrite range_excl_eq by done. intros E%range_incl_ok; [lia|]. unfold small_range in *. lia.
Qed.

(** A draw that is kept, at [m] or later, ends a range that starts before it. *)
Lemma range_incl_ends lo hi i m : small_range lo hi -> (lo ≤ hi)%Z -> i ≤ m -> (reject_below (hi - lo + 1) ≤ draw m)%Z ->
  exists x j, terminates (fun fuel => range_incl_i64 fuel lo hi) i x j /\ i < j
    /\ (j ≤ m \/ j = S m /\ x = (lo + draw m `mod` (hi - lo + 1))%Z).
Proof.
  intros Hs Hle Him Hm. assert (0 < hi - lo + 1 < 2 ^ 64)%Z as Hb by (unfold small_range in *; lia).
  destruct (reject_loop_ends (hi - lo + 1) i m (S (m - i)) Hb Hm Him ltac:(lia)) as (x & j & E & Hj & Hx).
  exists (lo + x)%Z, j. split.
  - exists (S (m - i)). intros fuel Hf. rewrite range_incl_eq by done. by rewrite (reject_loop_more _ fuel _ _ _ _ Hf E).
  - pose proof (reject_loop_ok _ _ _ _ _ Hb E) as (_ & ? & _). split; [done|]. destruct (decide (j = S m)); [right|left; lia].
    split; [done|]. by rewrite Hx.
Qed.

(** *** Retries *)

(** [loop { let a = g; if ok(a) { break a } }]. *)
Fixpoint retry {A} (n : nat) (g : Gen A) (ok : A -> bool) (i : nat) : result never (A * nat) :=
  match n with
  | O => Stuck OutOfFuel
  | S n => '(a, i) ← g i; if ok a then Ok (a, i) else retry n g ok i
  end.

Lemma retry_ok {A} n (g : Gen A) ok i a j : retry n g ok i = Ok (a, j) -> ok a = true /\ exists i0, g i0 = Ok (a, j).
Proof.
  revert i. induction n as [|n IH]; intros i E; [done|]. cbn [retry] in E. apply bind_Ok in E as ([b k] & E1 & E).
  destruct (ok b) eqn:Eb; [injection E as <- <-; split; [done|by exists i]|by apply (IH k)].
Qed.

(** Before [m] every turn ends and either succeeds or stays before [m]. *)
Lemma retry_ends {A} (g : nat -> Gen A) ok m :
  (forall i, i ≤ m -> exists a j, terminates g i a j /\ i < j /\ (ok a = true \/ j ≤ m)) ->
  forall i, i ≤ m -> exists a j, terminates (fun fuel => retry fuel (g fuel) ok) i a j /\ i < j.
Proof.
  intros Hg. assert (forall k i, m - i ≤ k -> i ≤ m -> exists a j, (exists F, forall n fuel, F ≤ n -> F ≤ fuel -> retry n (g fuel) ok i = Ok (a, j)) /\ i < j) as Hall.
  { induction k as [|k IH]; intros i Hk Hi; destruct (Hg i Hi) as (a & j & [F HF] & Hij & Hok).
    - assert (ok a = true) as Ha by (destruct Hok; [done|lia]). exists a, j. split; [|done]. exists (S F). intros [|n] fuel Hn Hf; [lia|].
      cbn [retry]. by rewrite HF, bind_Ok_eq, Ha by lia.
    - destruct (ok a) eqn:Ha.
      + exists a, j. split; [|done]. exists (S F). intros [|n] fuel Hn Hf; [lia|]. cbn [retry]. by rewrite HF, bind_Ok_eq, Ha by lia.
      + destruct Hok as [|Hj]; [done|]. destruct (IH j ltac:(lia) Hj) as (b & l & [G HG] & Hl). exists b, l. split; [|lia].
        exists (S (F `max` G)). intros [|n] fuel Hn Hf; [lia|]. cbn [retry]. rewrite HF, bind_Ok_eq, Ha by lia. apply HG; lia. }
  intros i Hi. destruct (Hall _ i (Nat.le_refl _) Hi) as (a & j & [F HF] & Hij). exists a, j. split; [|done].
  exists F. intros fuel Hf. by apply HF.
Qed.
End ranges.

(** A fair source: every value comes again, in runs as long as one likes; a random one
    is fair with probability one. *)
Definition fair `{Os} : Prop := forall c, (0 ≤ c < 2 ^ 64)%Z -> forall n len, exists m, n ≤ m /\ forall k, k < len -> draw (m + k) = c.

(** ** Little-endian bytes *)

Definition le_bytes (z : Z) (n : nat) : bytes := (fun k => (Z.shiftr z (8 * Z.of_nat k) `mod` 256)%Z) <$> seq 0 n.

Lemma le_bytes_S z n : le_bytes z (S n) = (z `mod` 256)%Z :: le_bytes (z / 256) n.
Proof.
  unfold le_bytes. cbn [seq]. rewrite fmap_cons. apply (f_equal2 cons); [by rewrite Z.shiftr_0_r|].
  rewrite <- fmap_S_seq, <- list_fmap_compose. apply list_fmap_ext. intros _ k _. unfold compose. apply (f_equal (fun x => x `mod` 256)%Z). change 256%Z with (2 ^ 8)%Z. rewrite <- (Z.shiftr_div_pow2 z 8) by lia. rewrite Z.shiftr_shiftr by lia. apply (f_equal (Z.shiftr z)). lia.
Qed.

Lemma of_le_bytes z n : (0 ≤ z)%Z -> of_le (le_bytes z n) = (z `mod` 256 ^ Z.of_nat n)%Z.
Proof.
  revert z. induction n as [|n IH]; intros z Hz; [by rewrite Z.mod_1_r|]. rewrite le_bytes_S. cbn [of_le foldr].
  fold (of_le (le_bytes (z / 256) n)). rewrite IH by (apply Z.div_pos; lia).
  rewrite Nat2Z.inj_succ, Z.pow_succ_r by lia. pose proof (Z.pow_pos_nonneg 256 (Z.of_nat n)). rewrite Z.rem_mul_r by lia. done.
Qed.
