(* ===== verification/WgParams.v ===== *)
(** * Obfuscation parameters ([src/src/wg/params.rs], [src/src/db.rs])

    Generation from the random source, the grammar of init packets, the ranges, and
    the row the parameters are stored in. *)
From stdpp Require Import sorting.
From S2P Require Import Prelude Text Encoding Rng ProxyParams ProxyConfig.

Record WgParams : Set := mkWgParams {
  p_jc : Z; p_jmin : Z; p_jmax : Z; p_s1 : Z; p_s2 : Z; p_s3 : option Z; p_s4 : option Z;
  p_h1 : bytes; p_h2 : bytes; p_h3 : bytes; p_h4 : bytes;
  p_i1 : option bytes; p_i2 : option bytes; p_i3 : option bytes; p_i4 : option bytes; p_i5 : option bytes;
}.

(** ** Generation *)

Definition H_MIN : Z := 5.
Definition H_MAX : Z := 2147483647.

(** [Vec::dedup]. *)
Fixpoint dedup (l : list Z) : list Z :=
  match l with
  | a :: (b :: _) as l' => if decide (a = b) then dedup l' else a :: dedup l'
  | _ => l
  end.
Definition sort (l : list Z) : list Z := merge_sort Z.le l.

Section generate.
Context `{Os} (fuel : nat).

Definition gen_incl (lo hi : Z) : Gen Z := fun i => '(x, i) ← range_incl_i64 fuel lo hi i; Ok (i32 x, i).

Definition gen_pair (lo hi : Z) : Gen (Z * Z) := fun i => '(a, i) ← gen_incl lo hi i; '(b, i) ← gen_incl lo hi i; Ok ((a, b), i).

(** [(0..n).map(|_| g).collect()]. *)
Fixpoint collect {A} (n : nat) (g : Gen A) (i : nat) : result never (list A * nat) :=
  match n with
  | O => Ok ([], i)
  | S n => '(x, i) ← g i; '(xs, i) ← collect n g i; Ok (x :: xs, i)
  end.

(** The loop that tops the splits up. *)
Fixpoint top_up (n : nat) (splits : list Z) (i : nat) : result never (list Z * nat) :=
  match n with
  | O => Stuck OutOfFuel
  | S n =>
      if decide (8 ≤ length splits) then Ok (splits, i) else
      '(v, i) ← range_excl_i64 fuel H_MIN H_MAX i;
      top_up n (if decide (v ∈ splits) then splits else sort (splits ++ [v])) i
  end.

Definition show_range (splits : list Z) (i : nat) : result never bytes :=
  lo ← index splits (i * 2); hi ← index splits (i * 2 + 1); Ok (decimal lo ++ bstr "-" ++ decimal hi).

Definition generate_cb_params : Gen WgParams := fun i =>
  '(jc, i) ← gen_incl 4 12 i;
  '(jmin, i) ← gen_incl 8 80 i;
  '(jmax, i) ← gen_incl (Z.max (jmin + 1) 1) 1279 i;
  '(s1, i) ← gen_incl 15 150 i;
  '(s2, i) ← retry fuel (gen_incl 15 150) (fun candidate => negb (bool_decide (candidate = s1 + 56)%Z)) i;
  '(s34, i) ← retry fuel (gen_pair 15 150)
                (fun ab => negb (bool_decide (fst ab + 56 = snd ab)%Z) && negb (bool_decide (snd ab + 56 = fst ab)%Z)) i;
  '(splits, i) ← collect 8 (range_excl_i64 fuel H_MIN H_MAX) i;
  '(splits, i) ← top_up fuel (dedup (sort splits)) i;
  h1 ← show_range splits 0; h2 ← show_range splits 1; h3 ← show_range splits 2; h4 ← show_range splits 3;
  '(random, i) ← collect 48 byte i;
  Ok (mkWgParams jc jmin jmax s1 s2 (Some (fst s34)) (Some (snd s34)) h1 h2 h3 h4
        (Some (bstr "<r 2><b 0x" ++ hex_encode random ++ bstr ">")) None None None None, i).
End generate.

(** ** The grammar of init packets *)

Definition MESSAGE_MAX_SIZE : Z := 65535.

(** [char::is_control] on UTF-8 text: C0, DEL, and C1, which begins with [0xC2]. *)
Fixpoint has_control (s : bytes) : bool :=
  match s with
  | [] => false
  | c :: s => bool_decide (c < 32 \/ c = 127)%Z
              || (bool_decide (c = 0xC2)%Z && match s with d :: _ => bool_decide (0x80 ≤ d ≤ 0x9F)%Z | [] => false end)
              || has_control s
  end.

Definition is_ascii_hexdigit (c : Z) : bool := bool_decide (is_Some (hex_value c)).

(** The size of a tag, or none when it is not in the grammar. *)
Definition validate_init_tag (inner : bytes) : option Z :=
  let '(kind, arg) := match split_once 32 inner with Some (k, a) => (k, Some (trim a)) | None => (inner, None) end in
  match arg with
  | None => if decide (kind = bstr "t" \/ kind = bstr "c") then Some 4%Z else None
  | Some a =>
      if decide (kind = bstr "b") then
        let body := match strip_prefix (bstr "0x") a with
                    | Some b => b
                    | None => default a (strip_prefix (bstr "0X") a)
                    end in
        if bool_decide (body = []) || negb (bool_decide (length body `mod` 2 = 0)) then None
        else if negb (forallb is_ascii_hexdigit body) then None
        else Some (Z.of_nat (length body / 2))
      else if decide (kind = bstr "r" \/ kind = bstr "rc" \/ kind = bstr "rd") then
        n ← parse_uint (2 ^ 64 - 1) a;
        if bool_decide (n = 0%Z) then None else if bool_decide (1000 < n)%Z then None else Some n
      else None
  end.

(** Why a text is refused; the diagnostics quote it. *)
Inductive InitError : Set := Control | OutsideTag | Unclosed | BadTag | TooLarge.

Fixpoint init_loop (fuel : nat) (total : Z) (s : bytes) : result InitError unit :=
  match fuel with
  | O => Stuck OutOfFuel
  | S fuel =>
      match s with
      | [] => Ok tt
      | c :: rest =>
          if decide (c <> 60%Z) then Err OutsideTag else
          match split_once 62 rest with
          | None => Err Unclosed
          | Some (inner, s) =>
              match validate_init_tag inner with
              | None => Err BadTag
              | Some size =>
                  let total := Z.min (total + size) (2 ^ 64 - 1) in
                  if bool_decide (MESSAGE_MAX_SIZE < total)%Z then Err TooLarge else init_loop fuel total s
              end
          end
      end
  end.

Definition validate_init_spec (spec : bytes) : result InitError unit :=
  if has_control spec then Err Control else init_loop (S (length spec)) 0 spec.

(** ** Ranges *)

Inductive ParamError : Set :=
  | JcRange | JminRange | JmaxRange | JmaxOrder | S1Range | S2Range | S1S2 | S3Range | S4Range | S3S4 | HeadersEqual.

(** [Err] unless the condition holds. *)
Definition ensure {E} (b : bool) (e : E) : result E unit := if b then Ok tt else Err e.
Definition within (lo hi x : Z) : bool := bool_decide (lo ≤ x ≤ hi)%Z.

Definition validate_wg_params (p : WgParams) : result ParamError unit :=
  _ ← ensure (within 1 128 (p_jc p)) JcRange;
  _ ← ensure (negb (bool_decide (p_jmin p < 0)%Z) && negb (bool_decide (1280 ≤ p_jmin p)%Z)) JminRange;
  _ ← ensure (within 1 1279 (p_jmax p)) JmaxRange;
  _ ← ensure (negb (bool_decide (p_jmax p ≤ p_jmin p)%Z)) JmaxOrder;
  _ ← ensure (negb (bool_decide (p_s1 p < 0)%Z) && negb (bool_decide (1132 < p_s1 p)%Z)) S1Range;
  _ ← ensure (negb (bool_decide (p_s2 p < 0)%Z) && negb (bool_decide (1188 < p_s2 p)%Z)) S2Range;
  _ ← ensure (negb (bool_decide (p_s1 p + 56 = p_s2 p)%Z)) S1S2;
  _ ← match p_s3 p with Some s3 => ensure (within 0 1132 s3) S3Range | None => Ok tt end;
  _ ← match p_s4 p with Some s4 => ensure (within 0 1188 s4) S4Range | None => Ok tt end;
  _ ← match p_s3 p, p_s4 p with
      | Some s3, Some s4 => ensure (negb (bool_decide (s3 + 56 = s4)%Z || bool_decide (s4 + 56 = s3)%Z)) S3S4
      | _, _ => Ok tt
      end;
  ensure (bool_decide (NoDup [p_h1 p; p_h2 p; p_h3 p; p_h4 p])) HeadersEqual.

(** The row after [update_interface_cb_params]: absent values keep the old ones. *)
Definition store_params (p : WgParams) (row : Interface) : Interface :=
  mkInterface (p_jc p) (p_jmin p) (p_jmax p) (p_s1 p) (p_s2 p)
    (match p_s3 p with Some s => Some s | None => i_s3 row end) (match p_s4 p with Some s => Some s | None => i_s4 row end)
    (p_h1 p) (p_h2 p) (p_h3 p) (p_h4 p).

Example init_specs :
  validate_init_spec (bstr "<r 2><b 0x0a1B><t>") = Ok tt /\ validate_init_spec (bstr "<r 1001>") = Err BadTag
  /\ validate_init_spec (bstr "x<t>") = Err OutsideTag /\ validate_init_spec (bstr "<rc 5" ++ [10%Z] ++ bstr ">") = Err Control.
Proof. by vm_compute. Qed.
