(* ===== verification/WgParamsProps.v ===== *)
(** * Generated parameters are usable

    What the generator draws, that it ends under a fair source, and that both the
    validation and the proxy accept it; the grammar of init packets. *)
From stdpp Require Import sorting.
From S2P Require Import Prelude Text Encoding Rng ProxyParams ProxyConfig WgParams.

(** ** Sorted splits *)

Lemma sorted_lt (l : list Z) : StronglySorted Z.le l -> NoDup l -> StronglySorted Z.lt l.
Proof.
  intros Hs Hn. induction Hs as [|x l Hs IH Hx]; [constructor|]. apply NoDup_cons in Hn as [Hx' Hn].
  constructor; [by apply IH|]. rewrite Forall_forall in *. intros y Hy. specialize (Hx y Hy).
  assert (x <> y) by (intros ->; done). lia.
Qed.

Lemma sort_sorted l : StronglySorted Z.le (sort l).
Proof. apply StronglySorted_merge_sort; [intros x y z; lia|intros x y; lia]. Qed.

Lemma elem_of_sort x l : x ∈ sort l <-> x ∈ l.
Proof. unfold sort. by rewrite merge_sort_Permutation. Qed.

Lemma dedup_spec l : StronglySorted Z.le l -> StronglySorted Z.lt (dedup l) /\ (forall x, x ∈ dedup l <-> x ∈ l).
Proof.
  intros Hs. induction Hs as [|x l Hs IH Hx]; [by split; [constructor|]|]. destruct l as [|y l]; [by split; [repeat constructor|]|].
  destruct IH as [IH1 IH2]. cbn [dedup]. destruct (decide (x = y)) as [->|Hne].
  - split; [done|]. intros z. rewrite IH2, !elem_of_cons. tauto.
  - split; [|intros z; by rewrite elem_of_cons, IH2, (elem_of_cons (y :: l))].
    constructor; [done|]. apply Forall_forall. intros z Hz%IH2. rewrite Forall_forall in Hx.
    pose proof (Hx y ltac:(left)). pose proof (Hx z Hz). inversion Hs as [|? ? _ Hy]; subst. rewrite Forall_forall in Hy.
    apply elem_of_cons in Hz as [->|Hz]; [lia|]. pose proof (Hy z Hz). lia.
Qed.

Definition splits_ok (l : list Z) : Prop := StronglySorted Z.lt l /\ Forall (fun x => H_MIN ≤ x < H_MAX)%Z l.

Lemma splits_first l : Forall (fun x => H_MIN ≤ x < H_MAX)%Z l -> splits_ok (dedup (sort l)).
Proof.
  intros Hl. destruct (dedup_spec (sort l) (sort_sorted l)) as [H1 H2]. split; [done|].
  rewrite Forall_forall in *. intros x Hx. apply Hl. by rewrite <- elem_of_sort, <- H2.
Qed.

Lemma splits_push l v : splits_ok l -> (H_MIN ≤ v < H_MAX)%Z -> v ∉ l -> splits_ok (sort (l ++ [v])).
Proof.
  intros [Hs Hl] Hv Hin. split.
  - apply sorted_lt; [apply sort_sorted|]. unfold sort. rewrite merge_sort_Permutation. apply NoDup_app. split; [|split].
    + clear -Hs. induction Hs as [|x l _ IH Hx]; [constructor|]. apply NoDup_cons. split; [|done]. intros Hin. rewrite Forall_forall in Hx.
      specialize (Hx x Hin). lia.
    + intros x Hx ->%list_elem_of_singleton. done.
    + apply NoDup_singleton.
  - apply Forall_forall. intros x. rewrite elem_of_sort, elem_of_app, list_elem_of_singleton. rewrite Forall_forall in Hl. naive_solver.
Qed.

Section generated.
Context `{Os}.

Lemma gen_incl_ok fuel lo hi i x j :
  (- 2 ^ 31 ≤ lo)%Z -> (hi < 2 ^ 31)%Z -> gen_incl fuel lo hi i = Ok (x, j) -> (lo ≤ x ≤ hi)%Z.
Proof.
  intros Hlo Hhi E. apply bind_Ok in E as ([y k] & E & [= <- <-]). apply range_incl_ok in E as [Hy _]; [|unfold small_range; lia].
  unfold i32. rewrite Z.mod_small by lia. lia.
Qed.

Lemma collect_ok {A} (P : A -> Prop) n (g : Gen A) i l j :
  (forall i a j, g i = Ok (a, j) -> P a) -> collect n g i = Ok (l, j) -> Forall P l /\ length l = n.
Proof.
  intros Hg. revert i l. induction n as [|n IH]; intros i l E; [by injection E as <- _|]. cbn [collect] in E.
  apply bind_Ok in E as ([a k] & E1 & E). apply bind_Ok in E as ([xs k'] & E2 & [= <- <-]).
  destruct (IH _ _ E2) as [? <-]. split; [constructor; [by eapply Hg|done]|done].
Qed.

Lemma top_up_ok fuel n l i l' j : splits_ok l -> top_up fuel n l i = Ok (l', j) -> splits_ok l' /\ 8 ≤ length l'.
Proof.
  revert l i. induction n as [|n IH]; intros l i Hl E; [done|]. cbn [top_up] in E. case_decide as H8; [by injection E as <- <-|].
  apply bind_Ok in E as ([v k] & Ev & E). apply range_excl_ok in Ev as [Hv _]; [|unfold small_range, H_MIN, H_MAX; lia].
  eapply IH; [|exact E]. case_decide; [done|]. by apply splits_push.
Qed.

(** The four windows: between 5 and 2^31, in order and apart. *)
Lemma windows l : splits_ok l -> 8 ≤ length l ->
  exists a b c d e f g h, show_range l 0 = Ok (decimal a ++ bstr "-" ++ decimal b) /\ show_range l 1 = Ok (decimal c ++ bstr "-" ++ decimal d)
    /\ show_range l 2 = Ok (decimal e ++ bstr "-" ++ decimal f) /\ show_range l 3 = Ok (decimal g ++ bstr "-" ++ decimal h)
    /\ (5 ≤ a < b /\ b < c < d /\ d < e < f /\ f < g < h /\ h < 2 ^ 31)%Z.
Proof.
  intros [Hs Hl] H8. do 8 (destruct l as [|? l]; [cbn in H8; lia|]). unfold H_MIN, H_MAX in Hl.
  eexists _, _, _, _, _, _, _, _. do 4 (split; [reflexivity|]).
  repeat match goal with
  | H : StronglySorted _ (_ :: _) |- _ => apply StronglySorted_inv in H as [H ?]
  | H : Forall _ (_ :: _) |- _ => apply Forall_cons in H as [? H]
  end. lia.
Qed.

(** What a generated set holds. *)
Record generated (p : WgParams) : Prop := {
  g_jc : (4 ≤ p_jc p ≤ 12)%Z; g_jmin : (8 ≤ p_jmin p ≤ 80)%Z; g_jmax : (p_jmin p < p_jmax p ≤ 1279)%Z;
  g_s1 : (15 ≤ p_s1 p ≤ 150)%Z; g_s2 : (15 ≤ p_s2 p ≤ 150)%Z /\ p_s2 p <> (p_s1 p + 56)%Z;
  g_s34 : exists a b, p_s3 p = Some a /\ p_s4 p = Some b /\ (15 ≤ a ≤ 150 /\ 15 ≤ b ≤ 150 /\ a + 56 <> b /\ b + 56 <> a)%Z;
  g_h : exists a b c d e f g h, p_h1 p = decimal a ++ bstr "-" ++ decimal b /\ p_h2 p = decimal c ++ bstr "-" ++ decimal d
    /\ p_h3 p = decimal e ++ bstr "-" ++ decimal f /\ p_h4 p = decimal g ++ bstr "-" ++ decimal h
    /\ (5 ≤ a < b /\ b < c < d /\ d < e < f /\ f < g < h /\ h < 2 ^ 31)%Z;
  g_i : exists random, bytes_ok random /\ length random = 48 /\ p_i1 p = Some (bstr "<r 2><b 0x" ++ hex_encode random ++ bstr ">")
    /\ p_i2 p = None /\ p_i3 p = None /\ p_i4 p = None /\ p_i5 p = None;
}.

Lemma byte_gen_ok i b j : byte i = Ok (b, j) -> byte_ok b.
Proof.
  intros [= <- _]. pose proof (os_bytes i 1) as Hb. pose proof (os_length i 1) as Hl.
  destruct (os i 1) as [|c bs]; [done|]. by apply Forall_cons in Hb as [? _].
Qed.

Lemma generate_ok fuel i p j : generate_cb_params fuel i = Ok (p, j) -> generated p.
Proof.
  intros E. unfold generate_cb_params in E.
  apply bind_Ok in E as ([jc i1] & E1 & E). apply bind_Ok in E as ([jmin i2] & E2 & E). apply bind_Ok in E as ([jmax i3] & E3 & E).
  apply bind_Ok in E as ([s1 i4] & E4 & E). apply bind_Ok in E as ([s2 i5] & E5 & E). apply bind_Ok in E as ([[a b] i6] & E6 & E).
  apply bind_Ok in E as ([l0 i7] & E7 & E). apply bind_Ok in E as ([l i8] & E8 & E).
  apply (collect_ok (fun x => H_MIN ≤ x < H_MAX)%Z) in E7 as [H7 _].
  2: { intros ? ? ? Ex. apply range_excl_ok in Ex as [? _]; [done|unfold small_range, H_MIN, H_MAX; lia]. }
  apply top_up_ok in E8 as [H8 L8]; [|by apply splits_first].
  destruct (windows l H8 L8) as (w1 & w2 & w3 & w4 & w5 & w6 & w7 & w8 & R1 & R2 & R3 & R4 & Hw).
  rewrite R1, R2, R3, R4, !bind_Ok_eq in E. apply bind_Ok in E as ([random i9] & E9 & [= <- <-]).
  apply (collect_ok byte_ok) in E9 as [B9 L9]; [|apply byte_gen_ok].
  apply gen_incl_ok in E1; [|lia..]. apply gen_incl_ok in E2; [|lia..]. apply gen_incl_ok in E3; [|lia..]. apply gen_incl_ok in E4; [|lia..].
  apply retry_ok in E5 as [N5 (k5 & E5)]. apply gen_incl_ok in E5; [|lia..].
  apply retry_ok in E6 as [N6 (k6 & E6)]. apply bind_Ok in E6 as ([a' k7] & E6a & E6). apply bind_Ok in E6 as ([b' k8] & E6b & [= -> -> _]).
  apply gen_incl_ok in E6a; [|lia..]. apply gen_incl_ok in E6b; [|lia..].
  apply negb_true_iff, bool_decide_eq_false in N5. apply andb_true_iff in N6. rewrite !negb_true_iff, !bool_decide_eq_false in N6. cbn [fst snd] in N6.
  split; cbn [p_jc p_jmin p_jmax p_s1 p_s2 p_s3 p_s4 p_h1 p_h2 p_h3 p_h4 p_i1 p_i2 p_i3 p_i4 p_i5 fst snd]; try lia.
  - exists a, b. split; [done|]. split; [done|]. lia.
  - exists w1, w2, w3, w4, w5, w6, w7, w8. done.
  - by exists random.
Qed.
End generated.

(** ** The grammar of init packets *)

Definition tag_text (inner : bytes) : bytes := 60%Z :: inner ++ [62%Z].
Definition tags_text (tags : list (bytes * Z)) : bytes := mjoin ((fun t => tag_text (fst t)) <$> tags).
Definition tags_size (tags : list (bytes * Z)) : Z := foldr (fun t n => snd t + n)%Z 0%Z tags.
Definition tag_ok (t : bytes * Z) : Prop := 62%Z ∉ fst t /\ validate_init_tag (fst t) = Some (snd t).

Lemma init_tag_size inner n : validate_init_tag inner = Some n -> (0 < n)%Z.
Proof.
  unfold validate_init_tag. destruct (match split_once 32 inner with Some (k, a) => _ | None => _ end) as [kind [a|]].
  - case_decide.
    + set (body := match strip_prefix (bstr "0x") a with Some b => b | None => _ end). cbv zeta.
      destruct (bool_decide (body = []) || _) eqn:Hb; [done|]. destruct (forallb is_ascii_hexdigit body); [cbn [negb]|done]. intros [= <-].
      apply orb_false_iff in Hb as [Hb1 Hb2]. apply bool_decide_eq_false in Hb1. apply negb_false_iff, bool_decide_eq_true in Hb2.
      destruct body as [|c [|d b]]; [done|done|].
      assert (0 < length (c :: d :: b) / 2) as Hp by (apply Nat.div_str_pos; rewrite !length_cons; lia).
      by apply (Nat2Z.inj_lt 0) in Hp.
    + case_decide; [|done]. intros E. apply bind_Some in E as (k & Ek & E). apply parse_uint_range in Ek.
      do 2 (case_bool_decide; [done|]). injection E as <-. lia.
  - case_decide; [by intros [= <-]|done].
Qed.

Lemma init_loop_spec fuel total s :
  (0 ≤ total ≤ MESSAGE_MAX_SIZE)%Z -> length s < fuel ->
  (exists e, init_loop fuel total s = Err e
     /\ forall tags, s = tags_text tags -> Forall tag_ok tags -> (MESSAGE_MAX_SIZE < total + tags_size tags)%Z)
  \/ init_loop fuel total s = Ok tt
     /\ exists tags, s = tags_text tags /\ Forall tag_ok tags /\ (total + tags_size tags ≤ MESSAGE_MAX_SIZE)%Z.
Proof.
  revert total s. induction fuel as [|fuel IH]; intros total s Ht Hf; [lia|]. cbn [init_loop]. destruct s as [|c rest].
  { right. split; [done|]. exists []. cbn. split; [done|]. split; [constructor|lia]. }
  assert (forall tags, c :: rest = tags_text tags ->
            exists t tags', tags = t :: tags' /\ c = 60%Z /\ rest = fst t ++ 62%Z :: tags_text tags') as Hshape.
  { intros [|t tags'] E; [done|]. cbn in E. injection E as -> ->. exists t, tags'. split; [done|]. split; [done|]. by rewrite <- app_assoc. }
  case_decide as Hc.
  { left. eexists. split; [done|]. intros tags E. destruct (Hshape tags E) as (t & tags' & _ & -> & _). done. }
  subst c. destruct (split_once 62 rest) as [[inner s]|] eqn:Es.
  2: { left. eexists. split; [done|]. intros tags E. destruct (Hshape tags E) as (t & tags' & _ & _ & ->). apply split_once_None in Es.
       exfalso. apply Es, elem_of_app. right. left. }
  assert (forall (t : bytes * Z) (r : bytes), rest = fst t ++ 62%Z :: r -> tag_ok t -> fst t = inner /\ r = s) as Hfirst.
  { intros t r -> [Hn _]. rewrite (proj2 (split_once_spec 62 _ (fst t) r)) in Es by done. by injection Es as -> ->. }
  apply split_once_spec in Es as [-> Hinner]. rewrite length_cons, length_app in Hf. cbn [length] in Hf.
  destruct (validate_init_tag inner) as [size|] eqn:Ev.
  2: { left. eexists. split; [done|]. intros tags E Htags. destruct (Hshape tags E) as (t & tags' & -> & _ & E').
       apply Forall_cons in Htags as [Ht1 _]. destruct (Hfirst t _ E' Ht1) as [<- _]. destruct Ht1 as [_ Ht1]. congruence. }
  pose proof (init_tag_size _ _ Ev) as Hsize. unfold MESSAGE_MAX_SIZE in *. case_bool_decide as Hlarge.
  { left. eexists. split; [done|]. intros tags E Htags. destruct (Hshape tags E) as (t & tags' & -> & _ & E').
    apply Forall_cons in Htags as [Ht1 Htags]. destruct (Hfirst t _ E' Ht1) as [Hi _]. destruct Ht1 as [_ Ht1]. rewrite Hi, Ev in Ht1.
    injection Ht1 as ->. cbn [tags_size foldr]. assert (0 ≤ tags_size tags')%Z; [|unfold tags_size in *; lia].
    clear -Htags. induction Htags as [|u us [_ Hu] _ IHu]; [done|]. apply init_tag_size in Hu. cbn. unfold tags_size in IHu. lia. }
  rewrite Z.min_l by lia. destruct (IH (total + size)%Z s) as [(e & E & Hno)|(E & tags & -> & Htags & Hle)]; [lia|lia|left|right].
  - exists e. split; [done|]. intros tags E0 Htags. destruct (Hshape tags E0) as (t & tags' & -> & _ & E').
    apply Forall_cons in Htags as [Ht1 Htags]. destruct (Hfirst t _ E' Ht1) as [Hi Hs]. destruct Ht1 as [_ Ht1]. rewrite Hi, Ev in Ht1.
    injection Ht1 as ->. specialize (Hno tags' (eq_sym Hs) Htags). cbn [tags_size foldr]. unfold tags_size in Hno. lia.
  - split; [done|]. exists ((inner, size) :: tags). split; [|split; [by constructor|cbn; unfold tags_size in Hle; lia]].
    cbn. by rewrite <- app_assoc.
Qed.

(** Sequences of tags with no control character whose sizes fit. *)
Definition init_spec (s : bytes) : Prop :=
  has_control s = false /\ exists tags, s = tags_text tags /\ Forall tag_ok tags /\ (tags_size tags ≤ MESSAGE_MAX_SIZE)%Z.

Lemma init_spec_iff s : returns (validate_init_spec s) /\ (validate_init_spec s = Ok tt <-> init_spec s).
Proof.
  unfold validate_init_spec, init_spec. destruct (has_control s); [by split; [|split; [|intros [? _]]]|].
  destruct (init_loop_spec (S (length s)) 0 s) as [(e & -> & Hno)|(-> & tags & H1 & H2 & H3)]; [by unfold MESSAGE_MAX_SIZE|lia| |].
  - split; [done|]. split; [done|]. intros (_ & tags & H1 & H2 & H3). specialize (Hno tags H1 H2). lia.
  - split; [done|]. split; [|done]. intros _. split; [done|]. by exists tags.
Qed.

(** The forms of a tag that the documentation lists: the digits of the bytes after
    [0x], the count in decimal digits, one space before either. *)
Definition documented_form (inner : bytes) (size : Z) : Prop :=
  ((inner = bstr "t" \/ inner = bstr "c") /\ size = 4%Z)
  \/ (exists digits, inner = bstr "b 0x" ++ digits
        /\ Forall (fun c => is_ascii_hexdigit c = true) digits /\ Z.of_nat (length digits) = (2 * size)%Z /\ (0 < size)%Z)
  \/ (exists k digits, k ∈ [bstr "r "; bstr "rc "; bstr "rd "] /\ inner = k ++ digits
        /\ digits <> [] /\ Forall digit digits /\ parse_digits 0 digits = Some size /\ (1 ≤ size ≤ 1000)%Z).

(** The forms that are accepted: white space around the argument, [0X] or no prefix
    before the digits of the bytes, and a sign before the count, besides. *)
Definition accepted_form (inner : bytes) (size : Z) : Prop :=
  ((inner = bstr "t" \/ inner = bstr "c") /\ size = 4%Z)
  \/ (exists a prefix digits, inner = bstr "b " ++ a /\ trim a = prefix ++ digits /\ prefix ∈ [bstr "0x"; bstr "0X"; []]
        /\ Forall (fun c => is_ascii_hexdigit c = true) digits /\ Z.of_nat (length digits) = (2 * size)%Z /\ (0 < size)%Z)
  \/ (exists k a sign digits, k ∈ [bstr "r "; bstr "rc "; bstr "rd "] /\ inner = k ++ a /\ trim a = sign ++ digits /\ sign ∈ [[]; bstr "+"]
        /\ digits <> [] /\ Forall digit digits /\ parse_digits 0 digits = Some size /\ (1 ≤ size ≤ 1000)%Z).

(** The same, as the code reads it. *)
Definition tag_form (inner : bytes) (size : Z) : Prop :=
  ((inner = bstr "t" \/ inner = bstr "c") /\ size = 4%Z)
  \/ (exists a digits, inner = bstr "b " ++ a /\ (trim a = bstr "0x" ++ digits \/ trim a = bstr "0X" ++ digits \/ trim a = digits)
        /\ Forall (fun c => is_ascii_hexdigit c = true) digits /\ Z.of_nat (length digits) = (2 * size)%Z /\ (0 < size)%Z)
  \/ (exists k a, k ∈ [bstr "r "; bstr "rc "; bstr "rd "] /\ inner = k ++ a /\ parse_uint (2 ^ 64 - 1) (trim a) = Some size /\ (1 ≤ size ≤ 1000)%Z).

Lemma hex_body (body : bytes) size :
  (if bool_decide (body = []) || negb (bool_decide (length body `mod` 2 = 0)) then None
   else if negb (forallb is_ascii_hexdigit body) then None else Some (Z.of_nat (length body / 2))) = Some size
  <-> Forall (fun c => is_ascii_hexdigit c = true) body /\ Z.of_nat (length body) = (2 * size)%Z /\ (0 < size)%Z.
Proof.
  pose proof (Nat.div_mod_eq (length body) 2) as Hd. split.
  - case_bool_decide as He; [done|]. cbn [orb]. case_bool_decide as Hm; [|done]. cbn [negb]. destruct (forallb _ body) eqn:Hh; [cbn [negb]|done].
    intros E. apply (inj Some) in E as <-. split; [apply Forall_forall; intros c Hc; rewrite forallb_forall in Hh; by apply Hh, list_elem_of_In|].
    assert (length body <> 0) by (by destruct body). rewrite Hm in Hd. generalize dependent (length body / 2). intros q Hd. clear Hm. split; lia.
  - intros (Hh & Hl & Hs). rewrite bool_decide_eq_false_2 by (intros ->; cbn in Hl; lia). cbn [orb].
    assert (length body = Z.to_nat size * 2) as Hl' by lia. rewrite Hl', Nat.Div0.mod_mul, Nat.div_mul by done.
    replace (forallb is_ascii_hexdigit body) with true; [cbn; f_equal; lia|]. symmetry. apply forallb_forall. intros c Hc.
    rewrite Forall_forall in Hh. by apply Hh, list_elem_of_In.
Qed.

Lemma not_hex_x (c : Z) r : c = 120%Z \/ c = 88%Z -> ~ Forall (fun c => is_ascii_hexdigit c = true) (48%Z :: c :: r).
Proof. intros Hc Hf. apply Forall_cons in Hf as [_ [Hf _]%Forall_cons]. by destruct Hc as [-> | ->]. Qed.

(** The argument of a byte sequence with its optional prefix. *)
Lemma hex_argument (a : bytes) size :
  (exists digits, (a = bstr "0x" ++ digits \/ a = bstr "0X" ++ digits \/ a = digits)
     /\ Forall (fun c => is_ascii_hexdigit c = true) digits /\ Z.of_nat (length digits) = (2 * size)%Z /\ (0 < size)%Z)
  <-> Forall (fun c => is_ascii_hexdigit c = true) (match strip_prefix (bstr "0x") a with Some b => b | None => default a (strip_prefix (bstr "0X") a) end)
      /\ Z.of_nat (length (match strip_prefix (bstr "0x") a with Some b => b | None => default a (strip_prefix (bstr "0X") a) end)) = (2 * size)%Z /\ (0 < size)%Z.
Proof.
  destruct (strip_prefix (bstr "0x") a) as [b|] eqn:E1.
  - apply strip_prefix_Some in E1 as ->. split; [|intros ?; exists b; tauto]. intros (ds & [E|[E|E]] & Hd & ?).
    + apply app_inv_head in E as ->. done.
    + by cbn in E.
    + subst ds. by apply (not_hex_x 120 b) in Hd; [|left].
  - destruct (strip_prefix (bstr "0X") a) as [b|] eqn:E2; cbn [default].
    + apply strip_prefix_Some in E2 as ->. split; [|intros ?; exists b; tauto]. intros (ds & [E|[E|E]] & Hd & ?).
      * by cbn in E.
      * apply app_inv_head in E as ->. done.
      * subst ds. by apply (not_hex_x 88 b) in Hd; [|right].
    + split; [|intros ?; exists a; tauto]. intros (ds & [E|[E|<-]] & Hd & ?); [| |done].
      * rewrite E, strip_prefix_app in E1. done.
      * rewrite E, strip_prefix_app in E2. done.
Qed.

Lemma init_tag_iff inner size : validate_init_tag inner = Some size <-> tag_form inner size.
Proof.
  unfold validate_init_tag, tag_form. destruct (split_once 32 inner) as [[k a]|] eqn:Es.
  - apply split_once_spec in Es as [-> Hk]. assert (forall t a', 32%Z ∉ t -> k ++ 32%Z :: a = (t ++ [32%Z]) ++ a' -> k = t /\ a = a') as Hinj.
    { intros t a' Ht E. rewrite <- app_assoc in E. cbn [app] in E.
      pose proof (proj2 (split_once_spec 32 (k ++ 32%Z :: a) k a) (conj eq_refl Hk)) as E1.
      pose proof (proj2 (split_once_spec 32 (k ++ 32%Z :: a) t a') (conj E Ht)) as E2. rewrite E1 in E2. by injection E2. }
    assert (forall t, 32%Z ∉ t -> k ++ 32%Z :: a <> t) as Hno by (intros t Ht E; apply Ht; rewrite <- E; apply elem_of_app; right; left).
    case_decide as Hb.
    + subst k. rewrite hex_body, <- hex_argument. split.
      * intros (ds & ?). right. left. exists a, ds. naive_solver.
      * intros [[[E|E] _]|[(a' & ds & E & ?)|(k & a' & Hk' & E & _)]].
        -- exfalso. by apply (Hno (bstr "t")) in E; [|apply (bool_decide_unpack _)].
        -- exfalso. by apply (Hno (bstr "c")) in E; [|apply (bool_decide_unpack _)].
        -- apply (Hinj (bstr "b")) in E as [_ ->]; [|done]. by exists ds.
        -- exfalso. rewrite !elem_of_cons, elem_of_nil in Hk'. destruct Hk' as [->|[->|[->|[]]]]; by cbn in E.
    + split.
      * case_decide as Hr; [|done]. intros E. apply bind_Some in E as (n & En & E). apply parse_uint_range in En as Hn.
        do 2 (case_bool_decide; [done|]). injection E as <-. right. right. exists (k ++ [32%Z]), a. rewrite <- app_assoc. split; [|split; [done|split; [done|lia]]].
        rewrite !elem_of_cons. destruct Hr as [->|[->| ->]]; [by left|by right; left|by right; right; left].
      * intros [[[E|E] _]|[(a' & ds & E & ?)|(k' & a' & Hk' & E & Hp & Hs)]].
        -- exfalso. by apply (Hno (bstr "t")) in E; [|apply (bool_decide_unpack _)].
        -- exfalso. by apply (Hno (bstr "c")) in E; [|apply (bool_decide_unpack _)].
        -- apply (Hinj (bstr "b")) in E as [E' _]; [done|]. apply (bool_decide_unpack _); vm_compute; exact I.
        -- assert (exists t, k' = t ++ [32%Z] /\ 32%Z ∉ t /\ (t = bstr "r" \/ t = bstr "rc" \/ t = bstr "rd")) as (t & -> & Ht & Hcase).
           { rewrite !elem_of_cons, elem_of_nil in Hk'. destruct Hk' as [->|[->|[->|[]]]];
               [exists (bstr "r")|exists (bstr "rc")|exists (bstr "rd")]; (split; [done|split; [apply (bool_decide_unpack _); vm_compute; exact I|tauto]]). }
           apply (Hinj t) in E as [-> ->]; [|done]. rewrite decide_True by done. rewrite Hp. cbn [mbind option_bind].
           by rewrite !bool_decide_eq_false_2 by lia.
  - apply split_once_None in Es. assert (forall t a, 32%Z ∈ t -> inner <> t ++ a) as Hno by (intros t a Ht ->; apply Es, elem_of_app; by left).
    split.
    + case_decide; [|done]. intros [= <-]. by left.
    + intros [[Hi ->]|[(a & ds & E & _)|(k & a & Hk & E & _)]]; [by rewrite decide_True| |].
      * exfalso. apply (Hno (bstr "b ") a); [apply (bool_decide_unpack _); vm_compute; exact I|exact E].
      * exfalso. apply (Hno k a); [|exact E]. rewrite !elem_of_cons, elem_of_nil in Hk.
        destruct Hk as [->|[->|[->|[]]]]; apply (bool_decide_unpack _); vm_compute; exact I.
Qed.

Lemma parse_digits_digits acc l n : parse_digits acc l = Some n -> Forall digit l.
Proof.
  revert acc. induction l as [|c l IH]; intros acc; [done|]. cbn [parse_digits]. case_decide; [|done]. intros E. constructor; [done|by eapply IH].
Qed.

(** A count: digits, perhaps after a sign. *)
Lemma count_form (a : bytes) n : (n ≤ 1000)%Z ->
  parse_uint (2 ^ 64 - 1) a = Some n <->
  exists sign digits, a = sign ++ digits /\ sign ∈ [[]; bstr "+"] /\ digits <> [] /\ Forall digit digits /\ parse_digits 0 digits = Some n.
Proof.
  intros Hn. split.
  - intros E. unfold parse_uint in E. destruct a as [|c a']; [done|]. case_decide as Hc.
    + destruct a' as [|d a']; [done|]. apply bind_Some in E as (m & Em & E). case_decide; [|done]. injection E as ->.
      exists [c], (d :: a'). subst c. split; [done|]. split; [right; left|]. split; [done|]. split; [by eapply parse_digits_digits|done].
    + apply bind_Some in E as (m & Em & E). case_decide; [|done]. injection E as ->.
      exists [], (c :: a'). split; [done|]. split; [left|]. split; [done|]. split; [by eapply parse_digits_digits|done].
  - intros (sign & ds & -> & Hs & Hne & Hd & Hp). rewrite !elem_of_cons, elem_of_nil in Hs. destruct Hs as [->|[->|[]]]; cbn [app].
    + rewrite digits_uint by done. rewrite Hp. cbn [mbind option_bind]. by rewrite decide_True by lia.
    + unfold parse_uint. change (bstr "+") with [b8 "+"]. cbn [app]. rewrite decide_True by done.
      destruct ds as [|d ds]; [done|]. rewrite Hp. cbn [mbind option_bind]. by rewrite decide_True by lia.
Qed.

Lemma tag_form_accepted inner size : tag_form inner size <-> accepted_form inner size.
Proof.
  unfold tag_form, accepted_form. apply or_iff_compat_l. split.
  - intros [(a & ds & -> & Ha & H)|(k & a & Hk & -> & Hp & Hs)]; [left|right].
    + destruct Ha as [Ha|[Ha|Ha]]; [exists a, (bstr "0x"), ds|exists a, (bstr "0X"), ds|exists a, [], ds];
        (split; [done|split; [done|split; [|done]]]); [left|right; left|right; right; left].
    + apply count_form in Hp as (sign & ds & E & Hsg & Hne & Hd & Hp); [|lia]. by exists k, a, sign, ds.
  - intros [(a & px & ds & -> & Ha & Hpx & H)|(k & a & sign & ds & Hk & -> & E & Hsg & Hne & Hd & Hp & Hs)]; [left|right].
    + exists a, ds. split; [done|]. split; [|done]. rewrite Ha. rewrite !elem_of_cons, elem_of_nil in Hpx. destruct Hpx as [->|[->|[->|[]]]]; tauto.
    + exists k, a. split; [done|]. split; [done|]. split; [|done]. apply count_form; [lia|]. by exists sign, ds.
Qed.

(** Digits and letters need no trimming, hold no control character and end no tag. *)
Lemma hexdigit_range (c : Z) : is_ascii_hexdigit c = true -> (48 ≤ c ≤ 57 \/ 65 ≤ c ≤ 70 \/ 97 ≤ c ≤ 102)%Z.
Proof. intros [v Hv]%bool_decide_eq_true. unfold hex_value in Hv. repeat case_decide; (done || lia). Qed.

Lemma documented_accepted inner size : documented_form inner size ->
  accepted_form inner size /\ Forall (fun c => 32 ≤ c < 127 /\ c <> 62)%Z inner.
Proof.
  intros [[[-> | ->] ->]|[(ds & -> & Hd & Hl & Hs)|(k & ds & Hk & -> & Hne & Hd & Hp & Hs)]].
  - split; [left; tauto|]. apply (bool_decide_unpack _); vm_compute; exact I.
  - split; [left; tauto|]. apply (bool_decide_unpack _); vm_compute; exact I.
  - assert (Forall (fun c => 33 ≤ c < 127 /\ c <> 62)%Z (bstr "0x" ++ ds)) as Hc.
    { apply Forall_app. split; [apply (bool_decide_unpack _); vm_compute; exact I|]. eapply Forall_impl; [exact Hd|]. intros c ?%hexdigit_range. lia. }
    split; [right; left; exists (bstr "0x" ++ ds), (bstr "0x"), ds|].
    + split; [done|]. split; [|split; [left|done]]. apply trim_id; [done|]. eapply Forall_impl; [exact Hc|]. intros c Hx. cbn in Hx. unfold graph. lia.
    + change (bstr "b 0x") with (bstr "b " ++ bstr "0x"). rewrite <- app_assoc. apply Forall_app. split; [apply (bool_decide_unpack _); vm_compute; exact I|].
      eapply Forall_impl; [exact Hc|]. intros c ?. cbn in *. lia.
  - split; [right; right; exists k, ds, [], ds|].
    + split; [done|]. split; [done|]. split; [|split; [left|done]].
      apply trim_id; [done|]. eapply Forall_impl; [exact Hd|]. intros c Hx. unfold digit in Hx. unfold graph. lia.
    + apply Forall_app. split; [|eapply Forall_impl; [exact Hd|]; intros c Hc; unfold digit in Hc; cbn; lia].
      rewrite !elem_of_cons, elem_of_nil in Hk. destruct Hk as [->|[->|[->|[]]]]; apply (bool_decide_unpack _); vm_compute; exact I.
Qed.

Lemma no_control s : Forall (fun c => 32 ≤ c < 127)%Z s -> has_control s = false.
Proof.
  intros Hs. induction Hs as [|c s Hc _ IH]; [done|]. cbn [has_control]. rewrite !bool_decide_eq_false_2 by lia. by rewrite IH.
Qed.

Lemma tags_text_chars tags : Forall (fun t : bytes * Z => Forall (fun c => 32 ≤ c < 127 /\ c <> 62)%Z (fst t)) tags ->
  Forall (fun c => 32 ≤ c < 127)%Z (tags_text tags).
Proof.
  intros Ht. induction Ht as [|t tags Hc _ IH]; [done|]. change (tags_text (t :: tags)) with (60%Z :: (fst t ++ [62%Z]) ++ tags_text tags).
  apply Forall_cons. split; [lia|]. rewrite !Forall_app. split; [|done]. split; [|apply Forall_singleton; lia].
  eapply Forall_impl; [exact Hc|]. intros c Hx. cbn in Hx. lia.
Qed.

(** More than the documented forms is accepted. *)
Example undocumented_forms :
  (validate_init_spec <$> [bstr "<b dead>"; bstr "<b 0XDEAD>"; bstr "<b  0xdead >"; bstr "<r +5>"; bstr "<r 005 >"]) = [Ok tt; Ok tt; Ok tt; Ok tt; Ok tt].
Proof. by vm_compute. Qed.

(** C15: the check of an init packet always returns.  It accepts every sequence of tags
    of the documented forms whose sizes add up to at most 65535; and it accepts a text
    exactly when it has no control character and is such a sequence of tags of the
    accepted forms, which are wider than the documented ones: white space around an
    argument, [0X] or no prefix before the bytes, a sign before a count. *)
Theorem init_spec_exact (s : bytes) :
  returns (validate_init_spec s)
  /\ (forall tags, s = tags_text tags -> Forall (fun t => documented_form (fst t) (snd t)) tags -> (tags_size tags ≤ 65535)%Z ->
        validate_init_spec s = Ok tt)
  /\ (validate_init_spec s = Ok tt <->
      has_control s = false /\ exists tags, s = tags_text tags
        /\ Forall (fun t => 62%Z ∉ fst t /\ accepted_form (fst t) (snd t)) tags /\ (tags_size tags ≤ 65535)%Z).
Proof.
  destruct (init_spec_iff s) as [Hr Hi]. split; [done|]. split.
  - intros tags -> Ht Hs. apply Hi. assert (Forall (fun t : bytes * Z => Forall (fun c => 32 ≤ c < 127 /\ c <> 62)%Z (fst t)) tags) as Hc.
    { eapply Forall_impl; [exact Ht|]. intros t Hd. by apply documented_accepted in Hd as [_ Hd]. }
    split; [by apply no_control, tags_text_chars|]. exists tags. split; [done|]. split; [|done]. apply Forall_forall. intros t Hin.
    rewrite Forall_forall in Ht, Hc. specialize (Ht _ Hin). specialize (Hc _ Hin). split; [intros H62; rewrite Forall_forall in Hc; by apply Hc in H62 as [_ H62]|].
    apply init_tag_iff, tag_form_accepted. by apply documented_accepted in Ht as [Ht _].
  - rewrite Hi. apply and_iff_compat_l. split; intros (tags & H1 & H2 & H3); exists tags; (split; [done|split; [|done]]);
      (eapply Forall_impl; [exact H2|]); intros t [Ht Hv]; (split; [done|]);
      [by apply tag_form_accepted, init_tag_iff|by apply init_tag_iff, tag_form_accepted].
Qed.

Lemma init_spec_exact_witness : validate_init_spec (bstr "<r 2><b 0x0a1B><t>") = Ok tt.
Proof.
  destruct (init_spec_exact (bstr "<r 2><b 0x0a1B><t>")) as (_ & H & _).
  apply (H [(bstr "r 2", 2%Z); (bstr "b 0x0a1B", 2%Z); (bstr "t", 4%Z)]).
  - vm_compute. reflexivity.
  - apply Forall_cons. split; [|apply Forall_cons; split; [|apply Forall_singleton]].
    + right. right. exists (bstr "r "), (bstr "2"). split; [left|]. split; [done|]. split; [done|].
      split; [apply (bool_decide_unpack _); vm_compute; exact I|]. split; [vm_compute; reflexivity|cbn; lia].
    + right. left. exists (bstr "0a1B"). split; [done|]. split; [apply (bool_decide_unpack _); vm_compute; exact I|]. split; [done|cbn; lia].
    + left. split; [by left|done].
  - vm_compute. discriminate.
Defined.

(** ** What is generated *)

Definition window_text (a b : Z) : bytes := decimal a ++ bstr "-" ++ decimal b.

Lemma window_split a b : (0 ≤ a < 2 ^ 31)%Z -> (0 ≤ b < 2 ^ 31)%Z ->
  split_once (b8 "-") (window_text a b) = Some (decimal a, decimal b) /\ Forall graph (window_text a b) /\ window_text a b <> [].
Proof.
  intros Ha Hb. destruct (decimal_value a) as (Ga & Na & Ma); [unfold u32_ok, U32_MAX; lia|].
  destruct (decimal_value b) as (Gb & _ & _); [unfold u32_ok, U32_MAX; lia|]. split_and!.
  - by apply split_once_spec.
  - unfold window_text. rewrite !Forall_app. split; [done|]. split; [|done]. constructor; [unfold graph, b8; cbn; lia|constructor].
  - unfold window_text. by destruct (decimal a).
Qed.

Lemma window_inj a b c d : (0 ≤ a < 2 ^ 31)%Z -> (0 ≤ b < 2 ^ 31)%Z -> (0 ≤ c < 2 ^ 31)%Z -> (0 ≤ d < 2 ^ 31)%Z ->
  window_text a b = window_text c d -> a = c.
Proof.
  intros Ha Hb Hc Hd E. destruct (window_split a b Ha Hb) as [E1 _], (window_split c d Hc Hd) as [E2 _]. rewrite E, E2 in E1.
  injection E1 as E1 _. symmetry. apply decimal_inj; [lia|lia|done].
Qed.

Lemma window_reads a b : (0 ≤ a < 2 ^ 31)%Z -> (0 ≤ b < 2 ^ 31)%Z -> reads_h (window_text a b) (mkHRange a b).
Proof.
  intros Ha Hb. destruct (window_split a b Ha Hb) as (Hs & Hg & Hne). unfold reads_h. rewrite trim_id by done.
  rewrite decide_False by done. rewrite Hs. cbn [hmin hmax].
  assert (forall n, (0 ≤ n < 2 ^ 31)%Z -> parse_h_token (decimal n) = Some n) as Hp.
  { intros n Hn. unfold parse_h_token. rewrite trim_decimal by lia. pose proof (decimal_digits n ltac:(lia)) as Hf.
    destruct (decimal n) as [|c ds] eqn:E.
    - by destruct (decimal_value n) as (_ & Hn0 & _); [unfold u32_ok, U32_MAX; lia|].
    - apply Forall_cons in Hf as [Hc Hds]. assert (forall x, x = 120%Z \/ x = 88%Z -> strip_prefix [48%Z; x] (c :: ds) = None) as Hx.
      { intros x Hx. cbn [strip_prefix]. case_decide; [|done]. destruct ds as [|d ds]; [done|]. rewrite decide_False; [done|].
        apply Forall_cons in Hds as [Hd _]. unfold digit in Hd. lia. }
      change (bstr "0x") with [48%Z; 120%Z]. change (bstr "0X") with [48%Z; 88%Z]. rewrite !Hx by tauto. rewrite <- E.
      apply parse_uint_decimal; unfold U32_MAX; lia. }
  by rewrite !Hp.
Qed.

Lemma ensure_true {E} (b : bool) (e : E) : b = true -> ensure b e = Ok tt.
Proof. by intros ->. Qed.

Lemma ensure_bind {E A} (b : bool) (e : E) (k : unit -> result E A) r : b = true -> k tt = r -> ensure b e ≫= k = r.
Proof. by intros ->. Qed.

Lemma generated_valid p : generated p -> validate_wg_params p = Ok tt.
Proof.
  intros [H1 H2 H3 H4 [H5 H5'] (a & b & E3 & E4 & Hab) (a1 & b1 & a2 & b2 & a3 & b3 & a4 & b4 & F1 & F2 & F3 & F4 & Hw) _].
  unfold validate_wg_params, within. rewrite E3, E4.
  repeat (apply ensure_bind;
    [rewrite ?andb_true_iff, ?negb_true_iff, ?orb_false_iff, ?bool_decide_eq_true, ?bool_decide_eq_false; lia|cbv beta]).
  apply ensure_true, bool_decide_eq_true. rewrite F1, F2, F3, F4. fold (window_text a1 b1) (window_text a2 b2) (window_text a3 b3) (window_text a4 b4).
  assert (forall x y u v, (0 ≤ x < y)%Z -> (y < u < v)%Z -> (v < 2 ^ 31)%Z -> window_text x y <> window_text u v) as Hd
    by (intros x y u v Hx Hu Hv E; apply window_inj in E; lia).
  repeat (apply NoDup_cons; split; [rewrite ?elem_of_cons, elem_of_nil; intros Hin;
    repeat (destruct Hin as [Hin|Hin]; [revert Hin; apply Hd; lia|]); done|]). by apply NoDup_nil.
Qed.

Lemma hex_char_graph c : hex_char c -> (48 ≤ c ≤ 102)%Z.
Proof. unfold hex_char. lia. Qed.

Lemma blob_valid random : bytes_ok random -> length random = 48 ->
  validate_init_spec (bstr "<r 2><b 0x" ++ hex_encode random ++ bstr ">") = Ok tt.
Proof.
  intros Hb Hl. pose proof (hex_encode_chars random Hb) as Hc. apply init_spec_iff. split.
  - apply no_control. rewrite !Forall_app. split; [apply (bool_decide_unpack _); vm_compute; exact I|]. split.
    + eapply Forall_impl; [exact Hc|]. intros c ?%hex_char_graph. lia.
    + apply (bool_decide_unpack _); vm_compute; exact I.
  - exists [(bstr "r 2", 2%Z); (bstr "b 0x" ++ hex_encode random, 48%Z)]. split; [by cbn; rewrite ?app_nil_r, <- ?app_assoc|].
    split; [|by vm_compute]. repeat (apply Forall_cons; split); [split; [apply (bool_decide_unpack _); vm_compute; exact I|by vm_compute]| |by apply Forall_nil].
    split.
    + cbn [fst]. rewrite elem_of_app. intros [Hin|Hin]; [by apply (bool_decide_pack _) in Hin; vm_compute in Hin|].
      rewrite Forall_forall in Hc. apply Hc in Hin. unfold hex_char in Hin. lia.
    + apply init_tag_iff. right. left. exists (bstr "0x" ++ hex_encode random), (hex_encode random). cbn [fst snd].
      split; [done|]. split; [left; apply trim_id; [done|]|].
      * apply Forall_app. split; [apply (bool_decide_unpack _); vm_compute; exact I|]. eapply Forall_impl; [exact Hc|]. intros c ?%hex_char_graph.
        unfold graph. lia.
      * rewrite length_hex_encode, Hl. split; [|split; [done|lia]]. eapply Forall_impl; [exact Hc|]. intros c Hcc.
        unfold is_ascii_hexdigit, hex_value, hex_char in *. apply bool_decide_eq_true. repeat case_decide; try (by eexists); lia.
Qed.

(** The proxy reads the four windows and the words back from the row. *)
Lemma generated_proxy p row : generated p ->
  exists q, build_cb_params (store_params p row) = Some q /\ params_ok q
    /\ [jc q; jmin q; jmax q; s1 q; s2 q] = [p_jc p; p_jmin p; p_jmax p; p_s1 p; p_s2 p] /\ Some (s3 q) = p_s3 p /\ Some (s4 q) = p_s4 p.
Proof.
  intros [H1 H2 H3 H4 [H5 H5'] (a & b & E3 & E4 & Hab) (a1 & b1 & a2 & b2 & a3 & b3 & a4 & b4 & F1 & F2 & F3 & F4 & Hw) _].
  set (q := mkCbParams (p_jc p) (p_jmin p) (p_jmax p) (p_s1 p) (p_s2 p) a b (mkHRange a1 b1) (mkHRange a2 b2) (mkHRange a3 b3) (mkHRange a4 b4)).
  assert (params_ok q) as Hq.
  { split; [| |cbn; lia|unfold pairwise_disjoint, disjoint_ranges; cbn; lia]; unfold q, range_ok, u32_ok, U32_MAX; cbn;
      repeat (apply Forall_cons; split); try (by apply Forall_nil); cbn [hmin hmax]; lia. }
  exists q. split; [|split; [done|split; [done|by rewrite E3, E4]]].
  apply (build_cb_params_cases _ q (ok_words _ Hq) (ok_ranges _ Hq)); [|done].
  unfold store_params. rewrite E3, E4, F1, F2, F3, F4. split; [done|]. cbn.
  repeat (apply Forall2_cons; split); try (by apply Forall2_nil); apply window_reads; lia.
Qed.

(** ** Generation ends *)

Lemma forall_small_dec (P : Z -> Prop) `{forall v, Decision (P v)} (l : list Z) : (exists v, v ∈ l /\ ~ P v) \/ Forall P l.
Proof.
  destruct (decide (Forall P l)) as [|Hf]; [by right|]. left. apply not_Forall_Exists, Exists_exists in Hf; [|apply _].
  destruct Hf as (v & Hv & Hn). by exists v.
Qed.

Lemma fresh_split (l : list Z) : length l < 8 -> exists v, (5 ≤ v < 13)%Z /\ v ∉ l.
Proof.
  intros Hl. destruct (forall_small_dec (fun v => v ∈ l) (seqZ 5 8)) as [(v & Hv & Hn)|Hall].
  - exists v. apply elem_of_seqZ in Hv. split; [lia|done].
  - exfalso. assert (8 ≤ length l); [|lia]. change 8 with (length (seqZ 5 8)). apply submseteq_length, NoDup_submseteq; [apply NoDup_seqZ|].
    by apply Forall_forall.
Qed.

Section ends.
Context `{Os} (Hfair : fair).

(** A later draw that a range of [hi - lo + 1] values maps to [v], and [len] of them. *)
Lemma fair_value lo hi v i len : small_range lo hi -> (lo ≤ v ≤ hi)%Z ->
  exists m, i ≤ m /\ forall k, k < len -> (reject_below (hi - lo + 1) ≤ draw (m + k))%Z /\ (lo + draw (m + k) `mod` (hi - lo + 1))%Z = v.
Proof.
  intros Hs Hv. unfold small_range in Hs. destruct (Hfair (hi - lo + 1 + (v - lo))%Z ltac:(lia) i len) as (m & Hm & Hk). exists m. split; [done|].
  intros k Hlt. rewrite Hk by done. destruct (reject_below_spec (hi - lo + 1) ltac:(lia)) as [_ Hr]. split; [lia|].
  replace (hi - lo + 1 + (v - lo))%Z with (v - lo + 1 * (hi - lo + 1))%Z by lia. rewrite Z.mod_add, Z.mod_small by lia. lia.
Qed.

(** A draw of an [i32] range, towards a position whose draw gives [v]. *)
Lemma gen_incl_towards lo hi i m v : (- 2 ^ 31 ≤ lo)%Z -> (hi < 2 ^ 31)%Z -> (lo ≤ v ≤ hi)%Z -> i ≤ m ->
  (reject_below (hi - lo + 1) ≤ draw m)%Z -> (lo + draw m `mod` (hi - lo + 1))%Z = v ->
  exists x j, terminates (fun fuel => gen_incl fuel lo hi) i x j /\ i < j /\ (j ≤ m \/ j = S m /\ x = v).
Proof.
  intros Hlo Hhi Hv Him Hr Hx. destruct (range_incl_ends lo hi i m) as (x & j & Ht & Hij & Hj); [unfold small_range; lia|lia|done|done|].
  exists (i32 x), j. split; [|split; [done|]].
  - apply (terminates_bind (fun fuel => range_incl_i64 fuel lo hi) (fun _ x i => Ok (i32 x, i)) i x j); [done|apply terminates_ret].
  - destruct Hj as [|[-> ->]]; [by left|right]. split; [done|]. rewrite Hx. unfold i32. rewrite Z.mod_small by lia. lia.
Qed.

Lemma gen_incl_term lo hi i : (- 2 ^ 31 ≤ lo)%Z -> (hi < 2 ^ 31)%Z -> (lo ≤ hi)%Z ->
  exists x j, terminates (fun fuel => gen_incl fuel lo hi) i x j /\ i < j.
Proof.
  intros Hlo Hhi Hle. destruct (fair_value lo hi lo i 1) as (m & Him & Hm); [unfold small_range; lia|lia|].
  destruct (Hm 0 ltac:(lia)) as [Hr Hx]. rewrite Nat.add_0_r in *.
  destruct (gen_incl_towards lo hi i m lo) as (x & j & Ht & Hij & _); [done..|lia|done|done|done|]. by exists x, j.
Qed.

Lemma s2_term s1 i : (15 ≤ s1)%Z ->
  exists a j, terminates (fun fuel => retry fuel (gen_incl fuel 15 150) (fun c => negb (bool_decide (c = s1 + 56)%Z))) i a j /\ i < j.
Proof.
  intros Hs. destruct (fair_value 15 150 15 i 1) as (m & Him & Hm); [unfold small_range; lia|lia|].
  destruct (Hm 0 ltac:(lia)) as [Hr Hx]. rewrite Nat.add_0_r in *. apply (retry_ends (fun fuel => gen_incl fuel 15 150) _ m); [|done].
  intros i' Hi'. destruct (gen_incl_towards 15 150 i' m 15) as (x & j & Ht & Hij & Hj); [lia|lia|lia|done|done|done|].
  exists x, j. split; [done|split; [done|]]. destruct Hj as [|[-> ->]]; [by right|left]. rewrite bool_decide_eq_false_2 by lia. done.
Qed.

(** Three draws in a row that give 15: a turn that starts before the last two ends with
    the pair of 15s, or before them. *)
Lemma pair_term i :
  exists ab j, terminates (fun fuel => retry fuel (gen_pair fuel 15 150)
    (fun ab => negb (bool_decide (fst ab + 56 = snd ab)%Z) && negb (bool_decide (snd ab + 56 = fst ab)%Z))) i ab j /\ i < j.
Proof.
  destruct (fair_value 15 150 15 i 3) as (m & Him & Hm); [unfold small_range; lia|lia|].
  destruct (Hm 0 ltac:(lia)) as [R0 X0]. destruct (Hm 1 ltac:(lia)) as [R1 X1]. destruct (Hm 2 ltac:(lia)) as [R2 X2].
  rewrite Nat.add_0_r in *.
  assert (forall i', i' ≤ m -> exists x j, terminates (fun fuel => gen_incl fuel 15 150) i' x j /\ i' < j /\ (j ≤ m \/ j = S m /\ x = 15%Z)) as T0
    by (intros i' Hi'; apply gen_incl_towards; (lia || done)).
  assert (forall k, k = 1 \/ k = 2 -> exists x j, terminates (fun fuel => gen_incl fuel 15 150) (m + k) x j /\ x = 15%Z /\ j = S (m + k)) as T12.
  { intros k Hk. destruct (gen_incl_towards 15 150 (m + k) (m + k) 15) as (x & j & Ht & Hij & Hj); [lia|lia|lia|lia|by destruct Hk as [-> | ->]..|].
    exists x, j. split; [done|]. lia. }
  assert (forall i' a j b l, terminates (fun fuel => gen_incl fuel 15 150) i' a j -> terminates (fun fuel => gen_incl fuel 15 150) j b l ->
    terminates (fun fuel => gen_pair fuel 15 150) i' (a, b) l) as Tp.
  { intros i' a j b l [F1 H1] [F2 H2]. exists (F1 + F2). intros fuel Hf. unfold gen_pair. rewrite H1 by lia. rewrite bind_Ok_eq. cbv beta iota.
    by rewrite H2 by lia. }
  apply (retry_ends (fun fuel => gen_pair fuel 15 150) _ (m + 1)); [|lia]. intros i' Hi'.
  destruct (decide (i' ≤ m)) as [Hle|].
  - destruct (T0 i' Hle) as (a & j & Ha & Hij & [Hj|[-> ->]]).
    + destruct (T0 j Hj) as (b & l & Hb & Hl & Hend). exists (a, b), l. split; [by eapply Tp|]. split; [lia|]. right. lia.
    + destruct (T12 1 ltac:(by left)) as (b & l & Hb & -> & ->). exists (15, 15)%Z, (S (m + 1)).
      split; [by eapply Tp; [exact Ha|rewrite <- Nat.add_1_r]|]. split; [lia|]. by left.
  - replace i' with (m + 1) by lia. destruct (T12 1 ltac:(by left)) as (a & j & Ha & -> & ->). destruct (T12 2 ltac:(by right)) as (b & l & Hb & -> & ->).
    exists (15, 15)%Z, (S (m + 2)). replace (S (m + 1)) with (m + 2) in Ha by lia. split; [by eapply Tp|]. split; [lia|]. by left.
Qed.

Lemma split_towards i m v : (H_MIN ≤ v < H_MAX)%Z -> i ≤ m ->
  (reject_below (H_MAX - 1 - H_MIN + 1) ≤ draw m)%Z -> (H_MIN + draw m `mod` (H_MAX - 1 - H_MIN + 1))%Z = v ->
  exists x j, terminates (fun fuel => range_excl_i64 fuel H_MIN H_MAX) i x j /\ i < j /\ (j ≤ m \/ j = S m /\ x = v).
Proof.
  intros Hv Him Hr Hx. assert (small_range H_MIN H_MAX) as Hs by (unfold small_range, H_MIN, H_MAX; lia).
  destruct (range_incl_ends H_MIN (H_MAX - 1) i m) as (x & j & [F HF] & Hij & Hj); [unfold small_range, H_MIN, H_MAX in *; lia|unfold H_MIN, H_MAX; lia|done|done|].
  exists x, j. split; [|split; [done|by rewrite Hx in Hj]]. exists F. intros fuel Hf. rewrite range_excl_eq by (done || unfold H_MIN, H_MAX; lia).
  by apply HF.
Qed.

Lemma splits_term n i : exists l j, terminates (fun fuel => collect n (range_excl_i64 fuel H_MIN H_MAX)) i l j.
Proof.
  revert i. induction n as [|n IH]; intros i; [exists [], i; by exists 0|].
  destruct (fair_value H_MIN (H_MAX - 1) 5 i 1) as (m & Him & Hm); [unfold small_range, H_MIN, H_MAX; lia|unfold H_MIN, H_MAX; lia|].
  destruct (Hm 0 ltac:(lia)) as [Hr Hx]. rewrite Nat.add_0_r in *.
  destruct (split_towards i m 5) as (x & j & [F HF] & _); [unfold H_MIN, H_MAX; lia|done|done|done|].
  destruct (IH j) as (l & k & [G HG]). exists (x :: l), k. exists (F + G). intros fuel Hf. cbn [collect]. rewrite HF by lia.
  rewrite bind_Ok_eq. cbv beta iota. by rewrite HG by lia.
Qed.

Lemma length_sort l : length (sort l) = length l.
Proof. unfold sort. by rewrite merge_sort_Permutation. Qed.

Lemma top_up_term k l i : 8 - length l ≤ k -> exists l' j F, forall n fuel, F ≤ n -> F ≤ fuel -> top_up fuel n l i = Ok (l', j).
Proof.
  revert l i. induction k as [|k IH]; intros l i Hk.
  { exists l, i, 1. intros [|n] fuel Hn Hf; [lia|]. cbn [top_up]. by rewrite decide_True by lia. }
  destruct (decide (8 ≤ length l)) as [H8|H8]; [apply IH; lia|]. destruct (fresh_split l) as (v & Hv & Hfresh); [lia|].
  destruct (fair_value H_MIN (H_MAX - 1) v i 1) as (m & Him & Hm); [unfold small_range, H_MIN, H_MAX; lia|unfold H_MIN, H_MAX; lia|].
  destruct (Hm 0 ltac:(lia)) as [Hr Hx]. rewrite Nat.add_0_r in *. clear Hm.
  remember (m - i) as d eqn:Hd. revert i Him Hd. induction (lt_wf d) as [d _ IHd]. intros i Him Hd.
  destruct (split_towards i m v) as (x & j & [F HF] & Hij & Hj); [unfold H_MIN, H_MAX; lia|done|done|done|].
  assert (exists l' j' G, forall n fuel, G ≤ n -> G ≤ fuel -> top_up fuel n (if decide (x ∈ l) then l else sort (l ++ [x])) j = Ok (l', j'))
    as (l' & j' & G & HG).
  { destruct (decide (x ∈ l)) as [Hin|].
    - destruct Hj as [Hj|[_ ->]]; [|done]. by apply (IHd (m - j)); [lia|lia|].
    - apply IH. rewrite length_sort, length_app. cbn. lia. }
  exists l', j', (S (F + G)). intros [|n] fuel Hn Hf; [lia|]. cbn [top_up]. rewrite decide_False by done. rewrite HF by lia.
  rewrite bind_Ok_eq. cbv beta iota. apply HG; lia.
Qed.

Lemma bytes_term n i : exists l, collect n byte i = Ok (l, i + n).
Proof.
  revert i. induction n as [|n IH]; intros i; [exists []; by rewrite Nat.add_0_r|]. destruct (IH (S i)) as [l E]. eexists. cbn [collect].
  change (byte i) with (Ok (default 0%Z (head (os i 1)), S i) : result never (Z * nat)). rewrite bind_Ok_eq. cbv beta iota.
  rewrite E, bind_Ok_eq. by rewrite <- Nat.add_succ_comm.
Qed.

Lemma generate_term i : exists p j, terminates (fun fuel => generate_cb_params fuel) i p j.
Proof.
  destruct (gen_incl_term 4 12 i) as (jc & i1 & [F1 E1] & _); [lia..|].
  destruct (gen_incl_term 8 80 i1) as (jmin & i2 & [F2 E2] & _); [lia..|].
  pose proof (gen_incl_ok F2 8 80 i1 jmin i2 ltac:(lia) ltac:(lia) (E2 F2 ltac:(lia))) as Hmin.
  destruct (gen_incl_term (Z.max (jmin + 1) 1) 1279 i2) as (jmax & i3 & [F3 E3] & _); [lia..|].
  destruct (gen_incl_term 15 150 i3) as (s1 & i4 & [F4 E4] & _); [lia..|].
  pose proof (gen_incl_ok F4 15 150 i3 s1 i4 ltac:(lia) ltac:(lia) (E4 F4 ltac:(lia))) as Hs1.
  destruct (s2_term s1 i4) as (s2 & i5 & [F5 E5] & _); [lia|]. destruct (pair_term i5) as (ab & i6 & [F6 E6] & _).
  destruct (splits_term 8 i6) as (l0 & i7 & [F7 E7]). destruct (top_up_term 8 (dedup (sort l0)) i7 ltac:(lia)) as (l & i8 & F8 & E8).
  pose proof (E7 F7 ltac:(lia)) as H7. pose proof (E8 F8 F8 ltac:(lia) ltac:(lia)) as H8.
  apply (collect_ok (fun x => H_MIN ≤ x < H_MAX)%Z) in H7 as [H7 _].
  2: { intros ? ? ? Ex. apply range_excl_ok in Ex as [? _]; [done|unfold small_range, H_MIN, H_MAX; lia]. }
  apply top_up_ok in H8 as [H8 L8]; [|by apply splits_first].
  destruct (windows l H8 L8) as (w1 & w2 & w3 & w4 & w5 & w6 & w7 & w8 & R1 & R2 & R3 & R4 & Hw).
  destruct (bytes_term 48 i8) as (random & E9). eexists _, _. exists (F1 + F2 + F3 + F4 + F5 + F6 + F7 + F8). intros fuel Hf.
  unfold generate_cb_params. do 8 (first [
    rewrite E1 by lia | rewrite E2 by lia | rewrite E3 by lia | rewrite E4 by lia | rewrite E5 by lia | rewrite E6 by lia | rewrite E7 by lia | rewrite E8 by lia];
    rewrite bind_Ok_eq; cbv beta iota).
  rewrite R1, R2, R3, R4, !bind_Ok_eq, E9, bind_Ok_eq. reflexivity.
Qed.
End ends.

(** C14: with a fair source the generation ends; and whatever it returns passes the
    validation, has an init packet of the documented grammar, and is read back by the proxy
    from its row as parameters with ordered junk sizes and header ranges that do not meet. *)
Theorem generated_params_valid `{Os} :
  (fair -> forall i, exists p j F, forall fuel, F ≤ fuel -> generate_cb_params fuel i = Ok (p, j))
  /\ forall fuel i p j, generate_cb_params fuel i = Ok (p, j) ->
       validate_wg_params p = Ok tt /\ (exists init, p_i1 p = Some init /\ validate_init_spec init = Ok tt)
       /\ forall row, exists q, build_cb_params (store_params p row) = Some q /\ params_ok q
            /\ [jc q; jmin q; jmax q; s1 q; s2 q; s3 q; s4 q]
               = [p_jc p; p_jmin p; p_jmax p; p_s1 p; p_s2 p; default 0%Z (p_s3 p); default 0%Z (p_s4 p)].
Proof.
  split.
  - intros Hf i. destruct (generate_term Hf i) as (p & j & F & HF). by exists p, j, F.
  - intros fuel i p j E%generate_ok. split; [by apply generated_valid|]. split.
    + destruct (g_i p E) as (r & Hr & Hl & -> & _). eexists. split; [done|]. by apply blob_valid.
    + intros row. destruct (generated_proxy p row E) as (q & Hq & Hok & Hw & H3 & H4). exists q. split; [done|]. split; [done|].
      injection Hw as -> -> -> -> ->. by rewrite <- H3, <- H4.
Qed.

(** *** A fair source *)

(** The square root of the call's index, which runs through every value. *)
#[local] Program Instance square_os : Os := {| os i n := le_bytes (Z.of_nat (Nat.sqrt i)) n |}.
Next Obligation.
  intros i n. apply Forall_forall. intros b (k & -> & _)%list_elem_of_fmap. unfold byte_ok.
  pose proof (Z.mod_pos_bound (Z.shiftr (Z.of_nat (Nat.sqrt i)) (8 * Z.of_nat k)) 256). lia.
Qed.
Next Obligation. intros i n. unfold le_bytes. by rewrite length_fmap, length_seq. Qed.

Lemma square_fair : fair.
Proof.
  intros c Hc n len. set (K := (c + 2 ^ 64 * (Z.of_nat n + Z.of_nat len))%Z). assert (0 ≤ K)%Z as HK by (unfold K; lia).
  exists (Z.to_nat K * Z.to_nat K). assert (Z.of_nat n + Z.of_nat len ≤ K)%Z as Hle by (unfold K; lia).
  assert (c = K `mod` 2 ^ 64)%Z as Hmod by (unfold K; rewrite (Z.mul_comm (2 ^ 64)), Z.mod_add, Z.mod_small by lia; done).
  clearbody K. split; [nia|]. intros k Hk. unfold draw. cbn [os square_os].
  assert (Nat.sqrt (Z.to_nat K * Z.to_nat K + k) = Z.to_nat K) as ->.
  { apply Nat.sqrt_unique. nia. }
  rewrite Z2Nat.id by done. rewrite of_le_bytes by done. by rewrite Hmod.
Qed.

Lemma draws_unbiased_witness : (0 < 6 < 2 ^ 64)%Z /\ exists r, u64_below 1 6 17 = Ok r.
Proof.
  split; [lia|]. destruct (draws_unbiased 6 ltac:(lia)) as (_ & _ & H). apply (H 17 17); [lia|]. by apply Z.leb_le.
Defined.

Lemma generated_params_valid_witness :
  fair /\ (exists p j F, forall fuel, F ≤ fuel -> generate_cb_params fuel 0 = Ok (p, j)).
Proof. split; [exact square_fair|]. apply (proj1 generated_params_valid square_fair 0). Defined.
