(* ===== verification/WgNetlink.v ===== *)
(** * The generation of the kernel module ([src/src/wg/kernel.rs])

    The generic-netlink query for the family version, its reply, and what the
    overrides and the probes decide.  Numbers are in host order, which is
    little-endian on the platforms built. *)
From S2P Require Import Prelude Text Rng ProxyParams.

Inductive GamingMode : Set := Kernel | Userspace | UnknownMode.
Inductive ModuleGen : Set := Awg3 | Awg2 | Pre2 | NotLoaded | UnknownGen.
#[export] Instance GamingMode_eq_dec : EqDecision GamingMode.
Proof. solve_decision. Defined.
#[export] Instance ModuleGen_eq_dec : EqDecision ModuleGen.
Proof. solve_decision. Defined.

Definition NLMSG_HDRLEN : nat := 16.
Definition GENL_HDRLEN : nat := 4.
Definition NLA_HDRLEN : nat := 4.
Definition NLMSG_ERROR : Z := 2.
Definition NLM_F_REQUEST : Z := 1.
Definition GENL_ID_CTRL : Z := 0x10.
Definition CTRL_CMD_NEWFAMILY : Z := 1.
Definition CTRL_CMD_GETFAMILY : Z := 3.
Definition CTRL_ATTR_FAMILY_NAME : Z := 2.
Definition CTRL_ATTR_VERSION : Z := 3.
Definition ENOENT : Z := 2.
Definition AWG_GENL_NAME : bytes := bstr "amneziawg".

(** [MODE_OVERRIDE] and [GEN_OVERRIDE]: the code stored, and what it forces. *)
Definition set_mode_override (mode : option GamingMode) : Z :=
  match mode with None => 0 | Some Kernel => 1 | Some Userspace => 2 | Some UnknownMode => 3 end.

Definition set_gen_override (gen : option ModuleGen) : Z :=
  match gen with None => 0 | Some Awg3 => 1 | Some Awg2 => 2 | Some Pre2 => 3 | Some NotLoaded => 4 | Some UnknownGen => 5 end.

(** The two files of the probe: whether the directory is there, and the text, if readable. *)
Definition detect (override : Z) (sys_module : bool) (proc_modules : option bytes) : GamingMode :=
  if decide (override = 1)%Z then Kernel else if decide (override = 2)%Z then Userspace else if decide (override = 3)%Z then UnknownMode else
  if sys_module then Kernel else
  match proc_modules with
  | Some text => if existsb (fun line => bool_decide (head (split_whitespace line) = Some AWG_GENL_NAME)) (lines text) then Kernel else Userspace
  | None => Userspace
  end.

Definition from_genl_version (version : Z) : ModuleGen :=
  if decide (version = 0)%Z then UnknownGen else if decide (version = 1)%Z then Pre2 else if decide (version = 2)%Z then Awg2 else Awg3.

(** [Err] stands for a query that failed. *)
Definition module_gen (override : Z) (query : result unit (option Z)) : ModuleGen :=
  if decide (override = 1)%Z then Awg3 else if decide (override = 2)%Z then Awg2 else if decide (override = 3)%Z then Pre2 else
  if decide (override = 4)%Z then NotLoaded else if decide (override = 5)%Z then UnknownGen else
  match query with Ok (Some v) => from_genl_version v | Ok None => NotLoaded | _ => UnknownGen end.

(** ** The query *)

Definition align4 (n : nat) : nat := (n + 3) / 4 * 4.

(** [resize(total, 0)]. *)
Definition resize (n : nat) (s : bytes) : bytes := take n s ++ replicate (n - length s) 0%Z.

Definition getfamily_request (family : bytes) (seq : Z) : bytes :=
  let attr_len := NLA_HDRLEN + length family + 1 in
  let total := NLMSG_HDRLEN + GENL_HDRLEN + align4 attr_len in
  resize total
    (le_bytes (wrap 32 (Z.of_nat total)) 4 ++ le_bytes GENL_ID_CTRL 2 ++ le_bytes NLM_F_REQUEST 2 ++ le_bytes seq 4 ++ le_bytes 0 4
     ++ [CTRL_CMD_GETFAMILY; 1; 0; 0]%Z
     ++ le_bytes (wrap 16 (Z.of_nat attr_len)) 2 ++ le_bytes CTRL_ATTR_FAMILY_NAME 2 ++ family ++ [0%Z]).

(** ** The reply *)

Definition get (buf : bytes) (at_ n : nat) : option bytes :=
  if decide (at_ + n ≤ length buf) then Some (take n (drop at_ buf)) else None.
Definition read_u16 (buf : bytes) (at_ : nat) : option Z := of_le <$> get buf at_ 2.
Definition read_u32 (buf : bytes) (at_ : nat) : option Z := of_le <$> get buf at_ 4.

(** The diagnostics; the code adds the head of the buffer to each. *)
Inductive NlError : Set :=
  | TruncatedHeader | LengthOutOfBounds | TruncatedError | NetlinkError (e : Z) | NotNewFamily | AttrOutOfBounds | ShortVersion | NoVersion | NoReply.

Fixpoint attr_loop (fuel : nat) (msg : bytes) (a : nat) : result NlError (option Z) :=
  match fuel with
  | O => Stuck OutOfFuel
  | S fuel =>
      if decide (a + NLA_HDRLEN ≤ length msg) then
        let alen := default 0%Z (read_u16 msg a) in
        let aty := Z.land (default 0%Z (read_u16 msg (a + 2))) 0x3fff in
        if bool_decide (alen < Z.of_nat NLA_HDRLEN)%Z || bool_decide (Z.of_nat (length msg) < Z.of_nat a + alen)%Z then Err AttrOutOfBounds
        else if decide (aty = CTRL_ATTR_VERSION) then v ← ok_or ShortVersion (read_u32 msg (a + NLA_HDRLEN)); Ok (Some v)
        else attr_loop fuel msg (a + align4 (Z.to_nat alen))
      else Err NoVersion
  end.

Fixpoint message_loop (fuel : nat) (buf : bytes) (off : nat) : result NlError (option Z) :=
  match fuel with
  | O => Stuck OutOfFuel
  | S fuel =>
      if decide (off + NLMSG_HDRLEN ≤ length buf) then
        len ← ok_or TruncatedHeader (read_u32 buf off);
        ty ← ok_or TruncatedHeader (read_u16 buf (off + 4));
        if bool_decide (len < Z.of_nat NLMSG_HDRLEN)%Z || bool_decide (Z.of_nat (length buf) < Z.of_nat off + len)%Z then Err LengthOutOfBounds else
        let len := Z.to_nat len in
        msg ← slice buf off (off + len);
        if decide (ty = NLMSG_ERROR) then
          raw ← ok_or TruncatedError (read_u32 msg NLMSG_HDRLEN);
          let errno := i32 (- i32 raw) in
          if decide (errno = 0%Z) then message_loop fuel buf (off + align4 len)
          else if decide (errno = ENOENT) then Ok None else Err (NetlinkError errno)
        else if decide (ty = GENL_ID_CTRL) then
          if decide (msg !! NLMSG_HDRLEN = Some CTRL_CMD_NEWFAMILY) then attr_loop (S (length msg)) msg (NLMSG_HDRLEN + GENL_HDRLEN)
          else Err NotNewFamily
        else message_loop fuel buf (off + align4 len)
      else Err NoReply
  end.

Definition parse_getfamily_reply (buf : bytes) : result NlError (option Z) := message_loop (S (length buf)) buf 0.

Example netlink_example :
  length (getfamily_request AWG_GENL_NAME 7) = 36
  /\ parse_getfamily_reply (le_bytes 36 4 ++ le_bytes 2 2 ++ le_bytes 0 2 ++ le_bytes 7 4 ++ le_bytes 0 4 ++ le_bytes (2 ^ 32 - 2) 4 ++ replicate 16 0%Z) = Ok None.
Proof. by vm_compute. Qed.
