(* ===== verification/WgNetlinkProps.v ===== *)
(** * The netlink query is read as the kernel writes it

    Messages and attributes of generic netlink as they are laid out, and what the
    reader makes of them. *)
From S2P Require Import Prelude Text Rng WgNetlink.

(** ** Messages *)

(** An attribute, padded to four bytes; its length does not count the padding. *)
Definition attr_text (t : Z * bytes) : bytes :=
  le_bytes (Z.of_nat (4 + length (snd t))) 2 ++ le_bytes (fst t) 2 ++ snd t ++ replicate (align4 (length (snd t)) - length (snd t)) 0%Z.
Definition attrs_text (ts : list (Z * bytes)) : bytes := mjoin (attr_text <$> ts).

Definition message (ty flags seq pid : Z) (body : bytes) : bytes :=
  le_bytes (Z.of_nat (16 + length body)) 4 ++ le_bytes ty 2 ++ le_bytes flags 2 ++ le_bytes seq 4 ++ le_bytes pid 4 ++ body.

(** What the kernel answers: the family with its attributes, or an error number. *)
Definition family_reply (flags seq pid version : Z) (ts : list (Z * bytes)) : bytes :=
  message GENL_ID_CTRL flags seq pid ([1; version; 0; 0]%Z ++ attrs_text ts).
Definition error_reply (flags seq pid errno : Z) (request : bytes) : bytes :=
  message NLMSG_ERROR flags seq pid (le_bytes (- errno) 4 ++ request).

Lemma length_le_bytes z n : length (le_bytes z n) = n.
Proof. unfold le_bytes. by rewrite length_fmap, length_seq. Qed.

Lemma of_le_bytes_mod z n : of_le (le_bytes z n) = (z `mod` 256 ^ Z.of_nat n)%Z.
Proof.
  revert z. induction n as [|n IH]; intros z; [by rewrite Z.mod_1_r|]. rewrite le_bytes_S. cbn [of_le foldr].
  fold (of_le (le_bytes (z / 256) n)). rewrite IH.
  rewrite Nat2Z.inj_succ, Z.pow_succ_r by lia. pose proof (Z.pow_pos_nonneg 256 (Z.of_nat n)). by rewrite Z.rem_mul_r by lia.
Qed.

Lemma get_app pre s post n : length s = n -> get (pre ++ s ++ post) (length pre) n = Some s.
Proof. intros <-. unfold get. rewrite decide_True by (rewrite !length_app; lia). by rewrite drop_app_length, take_app_length. Qed.

Lemma read_u16_app pre z post : (0 ≤ z < 2 ^ 16)%Z -> read_u16 (pre ++ le_bytes z 2 ++ post) (length pre) = Some z.
Proof. intros Hz. unfold read_u16. rewrite get_app by apply length_le_bytes. cbn [fmap option_fmap option_map]. by rewrite of_le_bytes_mod, Z.mod_small. Qed.

Lemma read_u32_app pre z post : read_u32 (pre ++ le_bytes z 4 ++ post) (length pre) = Some (z `mod` 2 ^ 32)%Z.
Proof. unfold read_u32. rewrite get_app by apply length_le_bytes. cbn [fmap option_fmap option_map]. by rewrite of_le_bytes_mod. Qed.

Lemma align4_spec n : exists k, align4 n = 4 * k /\ n ≤ align4 n < n + 4.
Proof. exists ((n + 3) / 4). unfold align4. pose proof (Nat.div_mod_eq (n + 3) 4). pose proof (Nat.mod_upper_bound (n + 3) 4). lia. Qed.

Lemma align4_add n : align4 (4 + n) = 4 + align4 n.
Proof. unfold align4. replace (4 + n + 3) with (n + 3 + 1 * 4) by lia. rewrite Nat.div_add by done. lia. Qed.

Lemma length_attr_text t : length (attr_text t) = align4 (4 + length (snd t)).
Proof.
  unfold attr_text. rewrite !length_app, !length_le_bytes, length_replicate, align4_add.
  destruct (align4_spec (length (snd t))) as (_ & _ & H). lia.
Qed.

(** ** Attributes *)

Definition attr_ok (t : Z * bytes) : Prop := (0 ≤ fst t < 2 ^ 14)%Z /\ (Z.of_nat (4 + length (snd t)) < 2 ^ 16)%Z.

(** What the loop sees of the attribute at its position. *)
Lemma attr_step fuel pre t post : attr_ok t ->
  attr_loop (S fuel) (pre ++ attr_text t ++ post) (length pre)
  = if decide (fst t = CTRL_ATTR_VERSION) then v ← ok_or ShortVersion (read_u32 (pre ++ attr_text t ++ post) (length pre + 4)); Ok (Some v)
    else attr_loop fuel (pre ++ attr_text t ++ post) (length (pre ++ attr_text t)).
Proof.
  intros [Ht Hl]. pose proof (length_attr_text t) as Hlen. destruct (align4_spec (4 + length (snd t))) as (_ & _ & Ha).
  assert (read_u16 (pre ++ attr_text t ++ post) (length pre) = Some (Z.of_nat (4 + length (snd t)))) as R1.
  { unfold attr_text. rewrite <- !app_assoc. apply read_u16_app. lia. }
  assert (read_u16 (pre ++ attr_text t ++ post) (length pre + 2) = Some (fst t)) as R2.
  { unfold attr_text. rewrite <- !app_assoc. rewrite (app_assoc pre).
    replace (length pre + 2) with (length (pre ++ le_bytes (Z.of_nat (4 + length (snd t))) 2)) by (rewrite length_app, length_le_bytes; done).
    apply read_u16_app. lia. }
  cbn [attr_loop]. rewrite decide_True by (rewrite !length_app, Hlen; unfold NLA_HDRLEN; lia).
  rewrite R1, R2. cbn [from_option]. unfold id. change 0x3fff%Z with (Z.ones 14). rewrite Z.land_ones by lia.
  rewrite (Z.mod_small (fst t)) by lia.
  rewrite !bool_decide_eq_false_2 by (rewrite ?length_app, ?Hlen; unfold NLA_HDRLEN; lia). cbn [orb].
  case_decide; [done|]. rewrite Nat2Z.id. by rewrite length_app, Hlen.
Qed.

Lemma attr_loop_found pre ts v post : forall fuel, length ts < fuel -> Forall attr_ok ts -> Forall (fun t => fst t <> CTRL_ATTR_VERSION) ts ->
  (0 ≤ v < 2 ^ 32)%Z -> attr_loop fuel (pre ++ attrs_text ts ++ attr_text (CTRL_ATTR_VERSION, le_bytes v 4) ++ post) (length pre) = Ok (Some v).
Proof.
  revert pre. induction ts as [|t ts IH]; intros pre fuel Hf Hok Hne Hv; (destruct fuel as [|fuel]; [cbn in Hf; lia|]).
  - cbn [attrs_text fmap list_fmap mjoin list_join app]. rewrite attr_step by (split; cbn [fst snd]; rewrite ?length_le_bytes; unfold CTRL_ATTR_VERSION; lia).
    rewrite decide_True by done.
    replace (read_u32 _ _) with (Some v); [done|]. symmetry. unfold attr_text. cbn [fst snd]. rewrite <- !app_assoc.
    set (h1 := le_bytes (Z.of_nat _) 2). set (h2 := le_bytes CTRL_ATTR_VERSION 2). rewrite (app_assoc pre), (app_assoc (pre ++ h1)).
    replace (length pre + 4) with (length ((pre ++ h1) ++ h2)) by (rewrite !length_app; unfold h1, h2; rewrite !length_le_bytes; lia).
    rewrite read_u32_app. by rewrite Z.mod_small.
  - apply Forall_cons in Hok as [Ht Hok]. apply Forall_cons in Hne as [Hn Hne].
    change (attrs_text (t :: ts)) with (attr_text t ++ attrs_text ts). rewrite <- (app_assoc (attr_text t)).
    rewrite attr_step by done. rewrite decide_False by done. rewrite app_assoc. apply IH; [cbn in Hf; lia|done..].
Qed.

Lemma attr_loop_none pre ts : forall fuel, length ts < fuel -> Forall attr_ok ts -> Forall (fun t => fst t <> CTRL_ATTR_VERSION) ts ->
  attr_loop fuel (pre ++ attrs_text ts) (length pre) = Err NoVersion.
Proof.
  revert pre. induction ts as [|t ts IH]; intros pre fuel Hf Hok Hne; (destruct fuel as [|fuel]; [cbn in Hf; lia|]).
  - cbn [attr_loop attrs_text fmap list_fmap mjoin list_join]. rewrite app_nil_r. rewrite decide_False by (unfold NLA_HDRLEN; lia). done.
  - apply Forall_cons in Hok as [Ht Hok]. apply Forall_cons in Hne as [Hn Hne].
    change (attrs_text (t :: ts)) with (attr_text t ++ attrs_text ts).
    rewrite attr_step by done. rewrite decide_False by done. rewrite app_assoc. apply IH; [cbn in Hf; lia|done..].
Qed.

Lemma attr_loop_returns fuel msg a : length msg - a < fuel -> returns (attr_loop fuel msg a).
Proof.
  revert a. induction fuel as [|fuel IH]; intros a Hf; [lia|]. cbn [attr_loop]. unfold NLA_HDRLEN. case_decide as Ha; [|done].
  set (alen := default 0%Z (read_u16 msg a)). case_bool_decide as H1; [done|]. case_bool_decide as H2; [done|]. cbn [orb].
  case_decide; [by destruct (read_u32 msg (a + 4))|]. apply IH. pose proof (align4_spec (Z.to_nat alen)) as (q & _ & H3 & _). lia.
Qed.

Lemma message_loop_returns fuel buf off : length buf - off < fuel -> returns (message_loop fuel buf off).
Proof.
  revert off. induction fuel as [|fuel IH]; intros off Hf; [lia|]. cbn [message_loop]. unfold NLMSG_HDRLEN. case_decide as Ho; [|done].
  destruct (read_u32 buf off) as [len|]; [|done]. cbn [ok_or]. rewrite bind_Ok_eq.
  destruct (read_u16 buf (off + 4)) as [ty|]; [|done]. cbn [ok_or]. rewrite bind_Ok_eq.
  case_bool_decide as H1; [done|]. case_bool_decide as H2; [done|]. cbn [orb].
  pose proof (align4_spec (Z.to_nat len)) as (q & _ & H3 & _).
  rewrite slice_ok, bind_Ok_eq by lia. set (msg := take _ _).
  case_decide.
  - destruct (read_u32 msg 16) as [raw|]; [|done]. cbn [ok_or]. rewrite bind_Ok_eq. case_decide; [apply IH; lia|]. by case_decide.
  - case_decide; [|apply IH; lia]. case_decide; [|done]. apply attr_loop_returns. lia.
Qed.

(** ** Messages of one datagram *)

Lemma message_header ty flags seq pid body : let m := message ty flags seq pid body in
  (0 ≤ ty < 2 ^ 16)%Z -> (Z.of_nat (length m) < 2 ^ 32)%Z ->
  length m = 16 + length body /\ read_u32 m 0 = Some (Z.of_nat (length m)) /\ read_u16 m 4 = Some ty /\ drop 16 m = body.
Proof.
  intros m Ht Hl. assert (length m = 16 + length body) as Hlen by (unfold m, message; rewrite !length_app, !length_le_bytes; lia).
  split; [done|]. split; [|split].
  - pose proof (read_u32_app [] (Z.of_nat (16 + length body)) (le_bytes ty 2 ++ le_bytes flags 2 ++ le_bytes seq 4 ++ le_bytes pid 4 ++ body)) as E.
    cbn [app length] in E. unfold m at 1, message. rewrite E, Hlen, Z.mod_small by lia. done.
  - pose proof (read_u16_app (le_bytes (Z.of_nat (16 + length body)) 4) ty (le_bytes flags 2 ++ le_bytes seq 4 ++ le_bytes pid 4 ++ body) Ht) as E.
    rewrite length_le_bytes in E. exact E.
  - set (h := le_bytes (Z.of_nat (16 + length body)) 4 ++ le_bytes ty 2 ++ le_bytes flags 2 ++ le_bytes seq 4 ++ le_bytes pid 4).
    assert (m = h ++ body) as -> by (unfold m, message, h; by rewrite <- !app_assoc).
    change 16 with (length h). apply drop_app_length.
Qed.

(** The first message, read by one turn of the loop. *)
Lemma message_step ty flags seq pid body rest : let m := message ty flags seq pid body in
  (0 ≤ ty < 2 ^ 16)%Z -> (Z.of_nat (length m) < 2 ^ 32)%Z -> forall fuel,
  message_loop (S fuel) (m ++ rest) 0
  = if decide (ty = NLMSG_ERROR) then
      raw ← ok_or TruncatedError (read_u32 m NLMSG_HDRLEN);
      let errno := i32 (- i32 raw) in
      if decide (errno = 0%Z) then message_loop fuel (m ++ rest) (align4 (length m))
      else if decide (errno = ENOENT) then Ok None else Err (NetlinkError errno)
    else if decide (ty = GENL_ID_CTRL) then
      if decide (m !! NLMSG_HDRLEN = Some CTRL_CMD_NEWFAMILY) then attr_loop (S (length m)) m (NLMSG_HDRLEN + GENL_HDRLEN) else Err NotNewFamily
    else message_loop fuel (m ++ rest) (align4 (length m)).
Proof.
  intros m Ht Hl fuel. destruct (message_header ty flags seq pid body Ht Hl) as (Hlen & R1 & R2 & _). fold m in Hlen, R1, R2.
  assert (forall n at_ s, get m at_ n = Some s -> get (m ++ rest) at_ n = Some s) as Hget.
  { intros n at_ s. unfold get. case_decide; [|done]. rewrite decide_True by (rewrite length_app; lia). intros [= <-].
    rewrite drop_app_le by lia. by rewrite take_app_le by (rewrite length_drop; lia). }
  assert (read_u32 (m ++ rest) 0 = Some (Z.of_nat (length m))) as R1'.
  { unfold read_u32 in *. destruct (get m 0 4) as [s|] eqn:E; [|done]. by rewrite (Hget _ _ _ E). }
  assert (read_u16 (m ++ rest) 4 = Some ty) as R2'.
  { unfold read_u16 in *. destruct (get m 4 2) as [s|] eqn:E; [|done]. by rewrite (Hget _ _ _ E). }
  cbn [message_loop]. rewrite decide_True by (rewrite length_app; unfold NLMSG_HDRLEN; lia). rewrite R1'. change (0 + 4) with 4. rewrite R2'. cbn [ok_or]. rewrite !bind_Ok_eq.
  rewrite !bool_decide_eq_false_2 by (rewrite ?length_app; unfold NLMSG_HDRLEN; lia). cbn [orb]. rewrite Nat2Z.id.
  rewrite slice_ok, bind_Ok_eq by (rewrite ?length_app; lia).
  assert (take (0 + length m - 0) (drop 0 (m ++ rest)) = m) as -> by (rewrite Nat.sub_0_r; apply take_app_length). done.
Qed.

Lemma length_attrs_text ts : length ts ≤ length (attrs_text ts).
Proof.
  induction ts as [|t ts IH]; [done|]. change (attrs_text (t :: ts)) with (attr_text t ++ attrs_text ts).
  rewrite length_app, length_attr_text. pose proof (align4_spec (4 + length (snd t))) as (q & _ & H & _). cbn [length]. lia.
Qed.

(** A family answer is read attribute by attribute. *)
Lemma family_reply_step flags seq pid version ts rest : let m := family_reply flags seq pid version ts in
  (Z.of_nat (length m) < 2 ^ 32)%Z ->
  exists pre fuel, length ts < fuel /\ parse_getfamily_reply (m ++ rest) = attr_loop fuel (pre ++ attrs_text ts) (length pre).
Proof.
  intros m Hl. unfold parse_getfamily_reply, m, family_reply.
  rewrite message_step by (exact Hl || unfold GENL_ID_CTRL; lia). rewrite decide_False by done. rewrite decide_True by done.
  destruct (message_header GENL_ID_CTRL flags seq pid ([1; version; 0; 0]%Z ++ attrs_text ts)) as (Hlen & _ & _ & Hd);
    [unfold GENL_ID_CTRL; lia|exact Hl|]. change (message GENL_ID_CTRL flags seq pid _) with m in Hlen, Hd |- *.
  rewrite decide_True.
  2: { unfold NLMSG_HDRLEN, CTRL_CMD_NEWFAMILY. rewrite <- (Nat.add_0_r 16), <- lookup_drop, Hd. done. }
  exists (take 20 m), (S (length m)). split.
  - pose proof (length_attrs_text ts). rewrite Hlen, length_app. lia.
  - replace (take 20 m ++ attrs_text ts) with m; [f_equal; rewrite length_take, Hlen, length_app; cbn [length]; unfold NLMSG_HDRLEN, GENL_HDRLEN; lia|].
    assert (drop 20 m = attrs_text ts) as <- by (change 20 with (16 + 4); by rewrite <- drop_drop, Hd). symmetry. apply take_drop.
Qed.

Lemma error_reply_step flags seq pid errno request rest : let m := error_reply flags seq pid errno request in
  (0 < errno < 2 ^ 31)%Z -> (Z.of_nat (length m) < 2 ^ 32)%Z ->
  parse_getfamily_reply (m ++ rest) = if decide (errno = ENOENT) then Ok None else Err (NetlinkError errno).
Proof.
  intros m He Hl. unfold parse_getfamily_reply, m, error_reply.
  rewrite message_step by (exact Hl || unfold NLMSG_ERROR; lia). rewrite decide_True by done.
  change (message NLMSG_ERROR flags seq pid _) with m.
  assert (read_u32 m NLMSG_HDRLEN = Some ((- errno) `mod` 2 ^ 32)%Z) as ->.
  { set (h := le_bytes (Z.of_nat (16 + length (le_bytes (- errno) 4 ++ request))) 4 ++ le_bytes NLMSG_ERROR 2 ++ le_bytes flags 2 ++ le_bytes seq 4 ++ le_bytes pid 4).
    assert (m = h ++ le_bytes (- errno) 4 ++ request) as -> by (unfold m, error_reply, message, h; by rewrite <- !app_assoc).
    change NLMSG_HDRLEN with (length h). apply read_u32_app. }
  cbn [ok_or]. rewrite bind_Ok_eq.
  assert ((- errno) `mod` 2 ^ 32 = 2 ^ 32 - errno)%Z as -> by (symmetry; apply (Z.mod_unique _ _ (-1)); lia).
  assert (i32 (- i32 (2 ^ 32 - errno)) = errno) as ->.
  { unfold i32. replace (2 ^ 32 - errno + 2 ^ 31)%Z with (2 ^ 31 - errno + 1 * 2 ^ 32)%Z by lia. rewrite Z.mod_add by lia.
    rewrite (Z.mod_small (2 ^ 31 - errno)) by lia. rewrite Z.mod_small by lia. lia. }
  cbv zeta. rewrite (decide_False (P := errno = 0%Z)) by lia. done.
Qed.

Lemma request_message family seq : (Z.of_nat (length family) < 60000)%Z ->
  getfamily_request family seq = message GENL_ID_CTRL NLM_F_REQUEST seq 0 ([CTRL_CMD_GETFAMILY; 1; 0; 0]%Z
    ++ attr_text (CTRL_ATTR_FAMILY_NAME, family ++ [0%Z])).
Proof.
  intros Hf. unfold getfamily_request, message, attr_text, resize, NLA_HDRLEN, NLMSG_HDRLEN, GENL_HDRLEN. cbn [fst snd].
  replace (4 + length family + 1) with (4 + length (family ++ [0%Z])) by (rewrite length_app; cbn; lia).
  assert (Z.of_nat (length (family ++ [0%Z])) < 60001)%Z as Hn by (rewrite length_app; cbn; lia). set (name := family ++ [0%Z]) in *.
  pose proof (align4_spec (length name)) as (q & _ & Ha). rewrite align4_add.
  set (body := _ ++ le_bytes GENL_ID_CTRL 2 ++ _).
  assert (length body = 24 + length name) as Hb.
  { unfold body, name. rewrite !length_app, !length_le_bytes. cbn [length]. lia. }
  rewrite take_ge by lia. rewrite Hb. replace (16 + 4 + (4 + align4 (length name)) - (24 + length name)) with (align4 (length name) - length name) by lia.
  unfold body. rewrite (wrap_small 16), (wrap_small 32) by lia.
  replace (length ([CTRL_CMD_GETFAMILY; 1%Z; 0%Z; 0%Z] ++ le_bytes (Z.of_nat (4 + length name)) 2 ++ le_bytes CTRL_ATTR_FAMILY_NAME 2 ++ name
    ++ replicate (align4 (length name) - length name) 0%Z)) with (4 + (4 + align4 (length name)))
    by (rewrite !length_app, !length_le_bytes, length_replicate; cbn [length]; lia).
  rewrite <- !app_assoc. unfold name. by rewrite <- !app_assoc.
Qed.

(** C17: the query for the family of the module and its answer.  Any bytes are read without
    a panic and in as many turns as they have; a family answer gives the version it carries,
    whatever stands before and after that attribute and after the message; an answer without
    one is an error; the error of a family that is not registered gives none, any other
    error is reported as itself; and the query is one message with the name as attribute. *)
Theorem netlink_query_correct :
  (forall buf, returns (parse_getfamily_reply buf))
  /\ (forall flags seq pid version ts1 v ts2 rest,
       Forall attr_ok (ts1 ++ ts2) -> Forall (fun t => fst t <> CTRL_ATTR_VERSION) ts1 -> (0 ≤ v < 2 ^ 32)%Z ->
       let m := family_reply flags seq pid version (ts1 ++ (CTRL_ATTR_VERSION, le_bytes v 4) :: ts2) in
       (Z.of_nat (length m) < 2 ^ 32)%Z -> parse_getfamily_reply (m ++ rest) = Ok (Some v))
  /\ (forall flags seq pid version ts rest, Forall attr_ok ts -> Forall (fun t => fst t <> CTRL_ATTR_VERSION) ts ->
       let m := family_reply flags seq pid version ts in
       (Z.of_nat (length m) < 2 ^ 32)%Z -> parse_getfamily_reply (m ++ rest) = Err NoVersion)
  /\ (forall flags seq pid errno request rest, (0 < errno < 2 ^ 31)%Z ->
       let m := error_reply flags seq pid errno request in
       (Z.of_nat (length m) < 2 ^ 32)%Z ->
       parse_getfamily_reply (m ++ rest) = if decide (errno = ENOENT) then Ok None else Err (NetlinkError errno))
  /\ (forall family seq, (Z.of_nat (length family) < 60000)%Z ->
       getfamily_request family seq = message GENL_ID_CTRL NLM_F_REQUEST seq 0 ([CTRL_CMD_GETFAMILY; 1; 0; 0]%Z
         ++ attr_text (CTRL_ATTR_FAMILY_NAME, family ++ [0%Z]))).
Proof.
  split; [|split; [|split; [|split]]].
  - intros buf. apply message_loop_returns. lia.
  - intros flags seq pid version ts1 v ts2 rest Hok Hne Hv m Hl. apply Forall_app in Hok as [Hok1 Hok2].
    subst m. destruct (family_reply_step flags seq pid version _ rest Hl) as (pre & fuel & Hf & ->).
    unfold attrs_text. rewrite fmap_app, join_app. apply attr_loop_found; [rewrite length_app in Hf; lia|done..].
  - intros flags seq pid version ts rest Hok Hne m Hl.
    subst m. destruct (family_reply_step flags seq pid version _ rest Hl) as (pre & fuel & Hf & ->). by apply attr_loop_none.
  - intros flags seq pid errno request rest He m Hl. by apply error_reply_step.
  - intros family seq Hf. by apply request_message.
Qed.

Lemma netlink_query_correct_witness :
  parse_getfamily_reply (family_reply 0 7 100 2 [(2, bstr "amneziawg" ++ [0]); (1, [33; 0]); (3, le_bytes 3 4); (4, le_bytes 0 4)]%Z ++ [9%Z]) = Ok (Some 3%Z)
  /\ parse_getfamily_reply (error_reply 0 7 100 2 (getfamily_request AWG_GENL_NAME 7)) = Ok None.
Proof.
  destruct netlink_query_correct as (_ & H1 & _ & H2 & _). split.
  - apply (H1 0%Z 7%Z 100%Z 2%Z [(2, bstr "amneziawg" ++ [0]); (1, [33; 0])]%Z 3%Z [(4, le_bytes 0 4)]%Z [9%Z]).
    + repeat (apply Forall_cons; split); try (by apply Forall_nil); split; cbn; lia.
    + repeat (apply Forall_cons; split); try (by apply Forall_nil); done.
    + lia.
    + by vm_compute.
  - rewrite <- (app_nil_r (error_reply _ _ _ _ _)). apply (H2 0%Z 7%Z 100%Z 2%Z _ []); [lia|by vm_compute].
Defined.
