(* ===== verification/WgCb3.v ===== *)
(** * AmneziaWG 3 settings ([src/src/wg/cb3.rs])

    The grammar of the range-valued settings, the preconditions of header
    protection, what the installed stack supports, and the configuration lines.
    The conflict with the proxy is in [FirewallCalls]. *)
From S2P Require Import Prelude Text WgNetlink.

(** The column and the configuration key, in the order they are rendered. *)
Definition RANGE_FIELDS : list (bytes * bytes) :=
  [(bstr "content_padding_addition", bstr "ContentPaddingAddition"); (bstr "rekey_after_time", bstr "RekeyAfterTime");
   (bstr "rekey_timeout", bstr "RekeyTimeout"); (bstr "reject_after_time", bstr "RejectAfterTime");
   (bstr "keepalive_timeout", bstr "KeepaliveTimeout"); (bstr "max_handshake_attempts", bstr "MaxHandshakeAttempts")].

Definition HEADER_PROTECTION_MIN_S : Z := 12.

(** Whether the value is accepted; the error quotes it. *)
Definition validate_range (value : bytes) : bool :=
  let v := trim value in
  if decide (v = []) then true else
  let '(lo_s, hi_s) := default (v, v) (split_once 45 v) in
  if bool_decide (lo_s = []) || bool_decide (hi_s = []) || negb (forallb is_ascii_digit lo_s) || negb (forallb is_ascii_digit hi_s) then false else
  match parse_uint (2 ^ 32 - 1) lo_s, parse_uint (2 ^ 32 - 1) hi_s with
  | Some lo, Some hi => negb (bool_decide (65535 < lo)%Z || bool_decide (65535 < hi)%Z || bool_decide (hi < lo)%Z)
  | _, _ => false
  end.

(** The Base64 decoder is a third-party codec. *)
Definition validate_header_protection_key (b64_decode : bytes -> option bytes) (value : bytes) : bool :=
  let v := trim value in
  if decide (v = []) then true else
  match b64_decode v with Some raw => bool_decide (length raw = 32) | None => false end.

Definition padding_too_small (p : bytes * option Z) : bool :=
  match snd p with Some v => bool_decide (v < HEADER_PROTECTION_MIN_S)%Z | None => true end.

(** The paddings that are too small, with their values, if any. *)
Definition check_header_protection_paddings (s1 s2 : Z) (s3 s4 : option Z) : result (list (bytes * option Z)) unit :=
  let too_small := filter (fun p => padding_too_small p = true)
    [(bstr "S1", Some s1); (bstr "S2", Some s2); (bstr "S3", s3); (bstr "S4", s4)] in
  if decide (too_small = []) then Ok tt else Err too_small.

Definition version_token (t : bytes) : bool :=
  match t with c :: d :: _ => bool_decide (c = 118%Z) && is_ascii_digit d | _ => false end.

Definition parse_major_version (line : bytes) : option Z :=
  token ← head (filter (fun t => version_token t = true) (split_whitespace line));
  first ← head (split_on (fun c => bool_decide (c = 46%Z)) (drop 1 token));
  parse_uint (2 ^ 32 - 1) first.

(** The output of [awg --version], if it ran. *)
Definition tools_support_cb3 (version : option bytes) : option bool :=
  out ← version; (fun major => bool_decide (3 ≤ major)%Z) <$> parse_major_version out.

Definition stack_supports_cb3 (tools : option bool) (mode : GamingMode) (gen : ModuleGen) : option bool :=
  if bool_decide (mode = Kernel) && (bool_decide (gen = Awg2) || bool_decide (gen = Pre2)) then Some false else tools.

(** A setting of the configuration file. *)
Definition setting (key value : bytes) : bytes := key ++ bstr " = " ++ value.

Definition config_lines (header_protection_key : bytes) (ranges : list (bytes * bytes)) (random_trailers disable_cookies : bool) : list bytes :=
  (let hpk := trim header_protection_key in if decide (hpk = []) then [] else [setting (bstr "HeaderProtectionKey") hpk])
  ++ (ranges ≫= fun kv => let v := trim (snd kv) in if decide (v = []) then [] else [setting (fst kv) v])
  ++ (if random_trailers then [bstr "RandomTrailers = on"] else [])
  ++ (if disable_cookies then [bstr "DisableCookies = on"] else []).

Example cb3_examples :
  parse_major_version (bstr "amneziawg-tools v3.1.20260812 - https://amnezia.org") = Some 3%Z
  /\ forallb validate_range [[]; bstr "0"; bstr "22-30"; bstr "5-5"; bstr "0-65535"; bstr " 5"] = true
  /\ existsb validate_range [bstr "70000"; bstr "0-70000"; bstr "12abc"; bstr "30-22"; bstr "-5"; bstr "5-"; bstr "1-2-3"] = false
  /\ check_header_protection_paddings 12 12 (Some 11%Z) None = Err [(bstr "S3", Some 11%Z); (bstr "S4", None)].
Proof. by vm_compute. Qed.

(** A number or two in order, each of 16 bits. *)
Lemma digits_forallb s : forallb is_ascii_digit s = true <-> Forall digit s.
Proof.
  induction s as [|c s IH]; [by split|]. cbn [forallb]. rewrite andb_true_iff, Forall_cons, IH. unfold is_ascii_digit, digit.
  by rewrite bool_decide_eq_true.
Qed.

Lemma parse_uint_digits max s : s <> [] -> Forall digit s -> parse_uint max s = (n ← parse_digits 0 s; if decide (n ≤ max)%Z then Some n else None).
Proof.
  intros Hne Hd. destruct s as [|c s]; [done|]. apply Forall_cons in Hd as [Hc _]. unfold digit in Hc. unfold parse_uint.
  rewrite decide_False; [done|]. intros ->. by vm_compute in Hc; destruct Hc.
Qed.

Lemma validate_range_iff value : validate_range value = true <->
  trim value = [] \/ exists lo hi a b, lo <> [] /\ hi <> [] /\ Forall digit lo /\ Forall digit hi
    /\ (trim value = lo ++ 45%Z :: hi \/ trim value = lo /\ hi = lo)
    /\ parse_digits 0 lo = Some a /\ parse_digits 0 hi = Some b /\ (a ≤ b ≤ 65535)%Z.
Proof.
  unfold validate_range. set (v := trim value). case_decide as Hv; [by split; [left|]|].
  assert (forall lo hi, (if bool_decide (lo = []) || bool_decide (hi = []) || negb (forallb is_ascii_digit lo) || negb (forallb is_ascii_digit hi) then false else
    match parse_uint (2 ^ 32 - 1) lo, parse_uint (2 ^ 32 - 1) hi with
    | Some lo, Some hi => negb (bool_decide (65535 < lo)%Z || bool_decide (65535 < hi)%Z || bool_decide (hi < lo)%Z)
    | _, _ => false end) = true <-> exists a b, lo <> [] /\ hi <> [] /\ Forall digit lo /\ Forall digit hi
      /\ parse_digits 0 lo = Some a /\ parse_digits 0 hi = Some b /\ (a ≤ b ≤ 65535)%Z) as Hpair.
  { intros lo hi. destruct (decide (lo <> [] /\ hi <> [] /\ Forall digit lo /\ Forall digit hi)) as [(H1 & H2 & H3 & H4)|Hn].
    - rewrite !bool_decide_eq_false_2 by done. rewrite (proj2 (digits_forallb lo) H3), (proj2 (digits_forallb hi) H4). cbn [orb negb].
      rewrite !parse_uint_digits by done. destruct (parse_digits_Some 0 lo H3) as [a Ea], (parse_digits_Some 0 hi H4) as [b Eb]. rewrite Ea, Eb.
      cbn [mbind option_bind]. split.
      + case_decide; [|done]. case_decide; [|done]. rewrite negb_true_iff, !orb_false_iff, !bool_decide_eq_false. intros [[? ?] ?].
        exists a, b. do 4 (split; [done|]). split; [done|]. split; [done|]. lia.
      + intros (a' & b' & _ & _ & _ & _ & [= <-] & [= <-] & Hab). rewrite !decide_True by lia.
        rewrite negb_true_iff, !orb_false_iff, !bool_decide_eq_false. lia.
    - split; [|intros (a & b & ?); exfalso; tauto]. intros E. exfalso. apply Hn. revert E.
      case_bool_decide; [done|]. case_bool_decide; [done|]. cbn [orb]. destruct (forallb is_ascii_digit lo) eqn:E1; [|done].
      destruct (forallb is_ascii_digit hi) eqn:E2; [|done]. intros _. by rewrite <- !digits_forallb. }
  destruct (split_once 45 v) as [[lo hi]|] eqn:E; cbn [from_option]; unfold id; rewrite Hpair.
  - apply split_once_spec in E as [E Hlo]. split.
    + intros (a & b & H1 & H2 & H3 & H4 & ?). right. exists lo, hi, a, b. naive_solver.
    + intros [?|(lo' & hi' & a & b & H1 & H2 & H3 & H4 & [Ev|[Ev _]] & Hab)]; [done| |].
      * assert (45%Z ∉ lo') as Hlo' by (intros Hin; rewrite Forall_forall in H3; apply H3 in Hin; unfold digit in Hin; lia).
        pose proof (proj2 (split_once_spec 45 v lo hi) (conj E Hlo)) as E1. pose proof (proj2 (split_once_spec 45 v lo' hi') (conj Ev Hlo')) as E2.
        rewrite E1 in E2. injection E2 as -> ->. by exists a, b.
      * exfalso. rewrite Forall_forall in H3. assert (45%Z ∈ lo') as Hin by (rewrite <- Ev, E; apply elem_of_app; right; left).
        apply H3 in Hin. unfold digit in Hin. lia.
  - apply split_once_None in E. split.
    + intros (a & b & H1 & _ & H3 & _ & ?). right. exists v, v, a, b. naive_solver.
    + intros [?|(lo' & hi' & a & b & H1 & H2 & H3 & H4 & [Ev|[-> ->]] & Hab)]; [done| |].
      * exfalso. apply E. rewrite Ev. apply elem_of_app. right. left.
      * by exists a, b.
Qed.
