(* ===== verification/WgConfig.v ===== *)
(** * WireGuard configurations ([src/src/wg/config_gen.rs], [src/src/wg/mod.rs])

    The text of the server's configuration and of a client's, from the rows of the
    database, with what the proxy changes in them.  The rows, the JSON reader and
    the table of letters and digits beyond ASCII are arguments. *)
From S2P Require Import Prelude Text NetAlloc FirewallCalls WgCb3.

(** Third-party code: [serde_json] at a list of strings; and the Unicode property of the
    standard library, for characters beyond ASCII. *)
Class Library : Type := { json_strings : bytes -> option (list bytes); unicode_alphanumeric : bytes -> bool }.

(** ** Rows *)

(** The interface: what the firewall reads of it, and the columns of the configuration. *)
Record Interface : Set := mkInterface {
  w_row : IfaceRow;
  w_device : bytes; w_private_key : bytes; w_public_key : bytes; w_ipv4_cidr : bytes; w_ipv6_cidr : bytes; w_mtu : Z;
  w_j_c : Z; w_j_min : Z; w_j_max : Z; w_s1 : Z; w_s2 : Z; w_s3 : option Z; w_s4 : option Z;
  w_h1 : bytes; w_h2 : bytes; w_h3 : bytes; w_h4 : bytes;
  w_i1 : bytes; w_i2 : bytes; w_i3 : bytes; w_i4 : bytes; w_i5 : bytes;
  content_padding_addition : bytes; rekey_after_time : bytes; rekey_timeout : bytes; reject_after_time : bytes;
  keepalive_timeout : bytes; max_handshake_attempts : bytes; disable_cookies : bool; w_additional_config : bytes;
}.

Record Hooks : Set := mkHooks { pre_up : bytes; post_up : bytes; pre_down : bytes; post_down : bytes }.

Record UserConfig : Set := mkUserConfig {
  default_dns : bytes; default_allowed_ips : bytes; default_additional_config : bytes; u_host : bytes; u_port : Z;
}.

Record Client : Set := mkClient {
  k_id : Z; k_name : bytes; k_ipv4_address : option bytes; k_ipv6_address : option bytes; k_private_key : bytes; k_public_key : bytes;
  k_pre_shared_key : option bytes; k_pre_up : option bytes; k_post_up : option bytes; k_pre_down : option bytes; k_post_down : option bytes;
  k_allowed_ips : option bytes; k_server_allowed_ips : option bytes; k_persistent_keepalive : Z; k_mtu : Z;
  k_j_c : option Z; k_j_min : option Z; k_j_max : option Z;
  k_i1 : option bytes; k_i2 : option bytes; k_i3 : option bytes; k_i4 : option bytes; k_i5 : option bytes;
  k_dns : option bytes; k_server_endpoint : option bytes; k_additional_config : option bytes; k_enabled : bool;
}.

(** ** Pieces *)

Section gen.
Context `{Library} (disable_ipv6 : bool).

Definition parse_json_arr (s : bytes) : list bytes := default [] (json_strings s).

Definition is_alphanumeric (c : bytes) : bool :=
  match c with
  | [c] => bool_decide (48 ≤ c ≤ 57 \/ 65 ≤ c ≤ 90 \/ 97 ≤ c ≤ 122)%Z
  | _ => unicode_alphanumeric c
  end.
Definition shell_char (c : bytes) : bool := is_alphanumeric c || bool_decide (c ∈ [bstr "."; bstr "-"; bstr "_"; bstr "/"; bstr ":"]).
Definition sanitize_for_shell (s : bytes) : bytes := mjoin (filter (fun c => shell_char c = true) (chars s)).

Definition expand (template device port v4 v6 : bytes) : bytes :=
  str_replace (bstr "{{ipv6Cidr}}") (sanitize_for_shell v6)
   (str_replace (bstr "{{ipv4Cidr}}") (sanitize_for_shell v4)
     (str_replace (bstr "{{port}}") (sanitize_for_shell port)
       (str_replace (bstr "{{device}}") (sanitize_for_shell device) template))).

Definition cb3_lines (iface : Interface) : list bytes :=
  config_lines (header_protection_key (w_row iface))
    [(bstr "ContentPaddingAddition", content_padding_addition iface); (bstr "RekeyAfterTime", rekey_after_time iface);
     (bstr "RekeyTimeout", rekey_timeout iface); (bstr "RejectAfterTime", reject_after_time iface);
     (bstr "KeepaliveTimeout", keepalive_timeout iface); (bstr "MaxHandshakeAttempts", max_handshake_attempts iface)]
    (random_trailers (w_row iface)) (disable_cookies iface).

(** A line for a padding that is positive, for a text that is not empty, and for one that is set as well. *)
Definition positive (key : bytes) (v : option Z) : list bytes :=
  match v with Some v => if decide (0 < v)%Z then [setting key (decimal v)] else [] | None => [] end.
Definition nonempty (key : bytes) (v : bytes) : list bytes := if decide (v = []) then [] else [setting key v].
Definition present (key : bytes) (v : option bytes) : list bytes := match v with Some v => nonempty key v | None => [] end.

(** The paddings and the headers, which both ends have. *)
Definition shared_lines (iface : Interface) : list bytes :=
  [setting (bstr "S1") (decimal (w_s1 iface)); setting (bstr "S2") (decimal (w_s2 iface))]
  ++ positive (bstr "S3") (w_s3 iface) ++ positive (bstr "S4") (w_s4 iface)
  ++ nonempty (bstr "H1") (w_h1 iface) ++ nonempty (bstr "H2") (w_h2 iface)
  ++ nonempty (bstr "H3") (w_h3 iface) ++ nonempty (bstr "H4") (w_h4 iface).

Definition junk_lines (jc jmin jmax : Z) : list bytes :=
  [setting (bstr "Jc") (decimal jc); setting (bstr "Jmin") (decimal jmin); setting (bstr "Jmax") (decimal jmax)].

Definition NL : bytes := [10%Z].
Definition block_of (s : bytes) : bytes := if decide (s = []) then [] else NL ++ s.

(** ** The server *)

Definition server_cb (iface : Interface) : list bytes :=
  junk_lines (w_j_c iface) (w_j_min iface) (w_j_max iface) ++ shared_lines iface
  ++ nonempty (bstr "I1") (w_i1 iface) ++ nonempty (bstr "I2") (w_i2 iface) ++ nonempty (bstr "I3") (w_i3 iface)
  ++ nonempty (bstr "I4") (w_i4 iface) ++ nonempty (bstr "I5") (w_i5 iface) ++ cb3_lines iface.

Definition hook_lines (iface : Interface) (hooks : Hooks) : list bytes :=
  [(bstr "PreUp", pre_up hooks); (bstr "PostUp", post_up hooks); (bstr "PreDown", pre_down hooks); (bstr "PostDown", post_down hooks)] ≫= fun kr =>
    let v := expand (snd kr) (w_device iface) (decimal (i_port (w_row iface))) (w_ipv4_cidr iface) (w_ipv6_cidr iface) in
    if decide (trim v = []) then [] else [setting (fst kr) v].

Definition address (iface : Interface) : bytes :=
  let v4 := server_ip (w_ipv4_cidr iface) in
  if disable_ipv6 then v4 else v4 ++ bstr ", " ++ server_ip (w_ipv6_cidr iface).

Definition generate_server_interface (iface : Interface) (hooks : Hooks) : bytes :=
  bstr "# Note: Do not edit this file directly." ++ NL ++ bstr "# Your changes will be overwritten!" ++ NL ++ NL
  ++ bstr "# Server" ++ NL ++ bstr "[Interface]" ++ NL
  ++ setting (bstr "PrivateKey") (w_private_key iface) ++ NL ++ setting (bstr "Address") (address iface) ++ NL
  ++ setting (bstr "ListenPort") (decimal (i_port (w_row iface))) ++ NL ++ setting (bstr "MTU") (decimal (w_mtu iface)) ++ NL
  ++ join_text NL (server_cb iface) ++ block_of (join_text NL (hook_lines iface hooks)) ++ block_of (trim (w_additional_config iface)).

(** [replace(['\n', '\r'], " ")]. *)
Definition safe_name (name : bytes) : bytes := (fun c => if decide (c = 10 \/ c = 13)%Z then 32%Z else c) <$> name.

Definition client_ipv4 (client : Client) : bytes := default (bstr "0.0.0.0") (k_ipv4_address client) ++ bstr "/32".
Definition client_ipv6 (client : Client) : bytes := default (bstr "::") (k_ipv6_address client) ++ bstr "/128".
Definition client_addresses (client : Client) : list bytes :=
  client_ipv4 client :: if disable_ipv6 then [] else [client_ipv6 client].

Definition generate_server_peer (client : Client) : bytes :=
  let allowed := client_addresses client ++ match k_server_allowed_ips client with Some sai => parse_json_arr sai | None => [] end in
  bstr "# Client: " ++ safe_name (k_name client) ++ bstr " (" ++ decimal (k_id client) ++ bstr ")" ++ NL
  ++ bstr "[Peer]" ++ NL ++ setting (bstr "PublicKey") (k_public_key client) ++ NL
  ++ setting (bstr "PresharedKey") (default [] (k_pre_shared_key client)) ++ NL
  ++ setting (bstr "AllowedIPs") (join_text (bstr ", ") allowed) ++ block_of (join_text NL (present (bstr "Endpoint") (k_server_endpoint client))).

(** ** The client *)

(** A list that is the client's when it has one, and the default otherwise. *)
Definition list_or (own : option bytes) (fallback : bytes) : list bytes :=
  match own with Some s => if decide (s = []) then parse_json_arr fallback else parse_json_arr s | None => parse_json_arr fallback end.

Definition client_extra (user_config : UserConfig) (client : Client) : bytes :=
  match k_additional_config client with
  | Some s => if decide (trim s = []) then trim (default_additional_config user_config) else trim s
  | None => trim (default_additional_config user_config)
  end.

Definition client_hooks (client : Client) : list bytes :=
  present (bstr "PreUp") (k_pre_up client) ++ present (bstr "PostUp") (k_post_up client)
  ++ present (bstr "PreDown") (k_pre_down client) ++ present (bstr "PostDown") (k_post_down client).

Definition client_cb (iface : Interface) (client : Client) : list bytes :=
  junk_lines (default (w_j_c iface) (k_j_c client)) (default (w_j_min iface) (k_j_min client)) (default (w_j_max iface) (k_j_max client))
  ++ shared_lines iface
  ++ present (bstr "I1") (k_i1 client) ++ present (bstr "I2") (k_i2 client) ++ present (bstr "I3") (k_i3 client)
  ++ present (bstr "I4") (k_i4 client) ++ present (bstr "I5") (k_i5 client) ++ cb3_lines iface.

Definition generate_client_config (iface : Interface) (user_config : UserConfig) (client : Client) : bytes :=
  let dns_list := list_or (k_dns client) (default_dns user_config) in
  let allowed_list := list_or (k_allowed_ips client) (default_allowed_ips user_config) in
  let hooks := client_hooks client in
  bstr "[Interface]" ++ NL ++ setting (bstr "PrivateKey") (k_private_key client) ++ NL
  ++ setting (bstr "Address") (join_text (bstr ", ") (client_addresses client)) ++ NL
  ++ setting (bstr "MTU") (decimal (k_mtu client))
  ++ (if decide (dns_list = []) then [] else NL ++ setting (bstr "DNS") (join_text (bstr ", ") dns_list)) ++ NL
  ++ (if decide (hooks = []) then [] else join_text NL hooks ++ NL)
  ++ join_text NL (client_cb iface client) ++ block_of (client_extra user_config client) ++ NL
  ++ bstr "[Peer]" ++ NL ++ setting (bstr "PublicKey") (w_public_key iface) ++ NL
  ++ setting (bstr "PresharedKey") (default [] (k_pre_shared_key client)) ++ NL
  ++ setting (bstr "AllowedIPs") (join_text (bstr ", ") allowed_list) ++ NL
  ++ setting (bstr "PersistentKeepalive") (decimal (k_persistent_keepalive client)) ++ NL
  ++ setting (bstr "Endpoint") (u_host user_config ++ bstr ":" ++ decimal (u_port user_config)).

(** ** With the proxy *)

Definition suppress_cb3_conflicts (iface : Interface) : Interface :=
  match proxy_conflict (header_protection_key (w_row iface)) (random_trailers (w_row iface)) with
  | None => iface
  | Some _ =>
      let r := w_row iface in
      mkInterface (mkIfaceRow (i_name r) (i_port r) (i_enabled r) (firewall_enabled r) (dns_lockdown r) (dns_lockdown_target r) (dns_block_external r) [] false)
        (w_device iface) (w_private_key iface) (w_public_key iface) (w_ipv4_cidr iface) (w_ipv6_cidr iface) (w_mtu iface)
        (w_j_c iface) (w_j_min iface) (w_j_max iface) (w_s1 iface) (w_s2 iface) (w_s3 iface) (w_s4 iface)
        (w_h1 iface) (w_h2 iface) (w_h3 iface) (w_h4 iface) (w_i1 iface) (w_i2 iface) (w_i3 iface) (w_i4 iface) (w_i5 iface)
        (content_padding_addition iface) (rekey_after_time iface) (rekey_timeout iface) (reject_after_time iface)
        (keepalive_timeout iface) (max_handshake_attempts iface) (disable_cookies iface) (w_additional_config iface)
  end.

(** [j_c = 0], and the five init packets cleared. *)
Definition without_jc (iface : Interface) : Interface :=
  mkInterface (w_row iface)
    (w_device iface) (w_private_key iface) (w_public_key iface) (w_ipv4_cidr iface) (w_ipv6_cidr iface) (w_mtu iface)
    0 (w_j_min iface) (w_j_max iface) (w_s1 iface) (w_s2 iface) (w_s3 iface) (w_s4 iface)
    (w_h1 iface) (w_h2 iface) (w_h3 iface) (w_h4 iface) (w_i1 iface) (w_i2 iface) (w_i3 iface) (w_i4 iface) (w_i5 iface)
    (content_padding_addition iface) (rekey_after_time iface) (rekey_timeout iface) (reject_after_time iface)
    (keepalive_timeout iface) (max_handshake_attempts iface) (disable_cookies iface) (w_additional_config iface).

Definition without_init (iface : Interface) : Interface :=
  mkInterface (w_row iface)
    (w_device iface) (w_private_key iface) (w_public_key iface) (w_ipv4_cidr iface) (w_ipv6_cidr iface) (w_mtu iface)
    (w_j_c iface) (w_j_min iface) (w_j_max iface) (w_s1 iface) (w_s2 iface) (w_s3 iface) (w_s4 iface)
    (w_h1 iface) (w_h2 iface) (w_h3 iface) (w_h4 iface) [] [] [] [] []
    (content_padding_addition iface) (rekey_after_time iface) (rekey_timeout iface) (reject_after_time iface)
    (keepalive_timeout iface) (max_handshake_attempts iface) (disable_cookies iface) (w_additional_config iface).

(** The interface of the server's configuration, and of a client's. *)
Definition gen_server (active : bool) (iface : Interface) : Interface :=
  if active then suppress_cb3_conflicts (without_init (without_jc iface)) else iface.
Definition gen_client_iface (active : bool) (iface : Interface) : Interface :=
  if active then suppress_cb3_conflicts (without_jc iface) else iface.

Definition with_private_key (pk : option bytes) (c : Client) : Client :=
  match pk with
  | None => c
  | Some pk =>
      mkClient (k_id c) (k_name c) (k_ipv4_address c) (k_ipv6_address c) pk (k_public_key c) (k_pre_shared_key c)
        (k_pre_up c) (k_post_up c) (k_pre_down c) (k_post_down c) (k_allowed_ips c) (k_server_allowed_ips c)
        (k_persistent_keepalive c) (k_mtu c) (k_j_c c) (k_j_min c) (k_j_max c) (k_i1 c) (k_i2 c) (k_i3 c) (k_i4 c) (k_i5 c)
        (k_dns c) (k_server_endpoint c) (k_additional_config c) (k_enabled c)
  end.

Definition gen_client (active : bool) (c : Client) : Client :=
  if active then
    mkClient (k_id c) (k_name c) (k_ipv4_address c) (k_ipv6_address c) (k_private_key c) (k_public_key c) (k_pre_shared_key c)
      (k_pre_up c) (k_post_up c) (k_pre_down c) (k_post_down c) (k_allowed_ips c) (k_server_allowed_ips c)
      (k_persistent_keepalive c) (k_mtu c) (Some 0%Z) (k_j_min c) (k_j_max c) None None None None None
      (k_dns c) (k_server_endpoint c) (k_additional_config c) (k_enabled c)
  else c.

(** Whether the proxy fronts the port. *)
Definition is_active (settings : option ProxySettings) (iface : Interface) : bool :=
  match settings with
  | Some s => ps_enabled s && bool_decide (should_remain_disabled s (w_row iface) = None)
  | None => false
  end.

Definition render_server_config (settings : option ProxySettings) (helper : bool) (iface : Interface) (hooks : Hooks) (clients : list Client) : bytes :=
  let iface' := gen_server (is_active settings iface) iface in
  let hooks := if helper then mkHooks [] [] [] [] else hooks in
  let config := generate_server_interface iface' hooks in
  let port := effective_listen_port settings (w_row iface) in
  let config := if decide (port = i_port (w_row iface)) then config
                else str_replace (setting (bstr "ListenPort") (decimal (i_port (w_row iface)))) (setting (bstr "ListenPort") (decimal port)) config in
  config ++ mjoin ((fun c => NL ++ NL ++ generate_server_peer c) <$> filter (fun c => k_enabled c = true) clients) ++ NL.

Definition build_client_config (settings : option ProxySettings) (iface : Interface) (user_config : UserConfig) (client : Client)
  (private_key_override : option bytes) : bytes :=
  let active := is_active settings iface in
  generate_client_config (gen_client_iface active iface) user_config (gen_client active (with_private_key private_key_override client)).

(** [Err] when the key of the client is not retained. *)
Definition get_client_config (settings : option ProxySettings) (iface : Interface) (user_config : UserConfig) (client : Client) : result unit bytes :=
  if decide (k_private_key client = []) then Err tt else Ok (build_client_config settings iface user_config client None).
End gen.
