(* ===== verification/WgIni.v ===== *)
(** * Replacing in text, and a reader of WireGuard configurations

    Lemmas on [str_replace] and [str_contains]: fuel, lines, and needles that cannot cross
    a character.  The reader: lines without their comments; a heading opens a block,
    [key = value] is an item of the open block.  It shares nothing with the generator. *)
From S2P Require Import Prelude Text.

Lemma strip_prefix_length p s r : strip_prefix p s = Some r -> length s = length p + length r.
Proof. intros ->%strip_prefix_Some. by rewrite length_app. Qed.

Lemma str_replace_fuel pat w s n : pat <> [] -> length s ≤ n -> str_replace_go n pat w s = str_replace pat w s.
Proof.
  intros Hp. unfold str_replace. remember (length s) as k eqn:Hk. revert s n Hk.
  induction (lt_wf k) as [k _ IH]. intros s n Hk Hn. destruct s as [|c s]; [by destruct n, k|].
  destruct k as [|k]; [done|]. destruct n as [|n]; [lia|]. cbn [str_replace_go]. cbn in Hk.
  destruct (strip_prefix pat (c :: s)) as [r|] eqn:E.
  - apply strip_prefix_length in E. assert (length pat <> 0) by (by destruct pat). cbn in E.
    rewrite (IH (length r)) with (n := n) by (done || lia). by rewrite (IH (length r)) with (n := k) by (done || lia).
  - rewrite (IH (length s)) with (n := n) by (done || lia). by rewrite (IH (length s)) with (n := k) by (done || lia).
Qed.

Lemma str_replace_step pat w c s : pat <> [] ->
  str_replace pat w (c :: s) = match strip_prefix pat (c :: s) with Some r => w ++ str_replace pat w r | None => c :: str_replace pat w s end.
Proof.
  intros Hp. unfold str_replace at 1. cbn [length str_replace_go]. destruct (strip_prefix pat (c :: s)) as [r|] eqn:E.
  - apply strip_prefix_length in E. assert (length pat <> 0) by (by destruct pat). cbn in E. by rewrite str_replace_fuel by (done || lia).
  - done.
Qed.

Lemma strip_prefix_line pat l s : 10%Z ∉ pat ->
  strip_prefix pat (l ++ 10%Z :: s) = (fun r => r ++ 10%Z :: s) <$> strip_prefix pat l.
Proof.
  revert l. induction pat as [|c pat IH]; intros l Hp; [done|]. apply not_elem_of_cons in Hp as [Hc Hp].
  destruct l as [|d l]; cbn [app strip_prefix]; [by rewrite decide_False by done|]. case_decide; [by apply IH|done].
Qed.

(** A pattern on one line is replaced line by line. *)
Lemma str_replace_line pat w l s : pat <> [] -> 10%Z ∉ pat ->
  str_replace pat w (l ++ 10%Z :: s) = str_replace pat w l ++ 10%Z :: str_replace pat w s.
Proof.
  intros Hne Hp. remember (length l) as k eqn:Hk. revert l Hk. induction (lt_wf k) as [k _ IH]. intros l Hk. destruct l as [|c l].
  - cbn [app]. rewrite str_replace_step by done. destruct pat as [|d pat]; [done|]. apply not_elem_of_cons in Hp as [Hd Hp].
    cbn [strip_prefix]. by rewrite decide_False by done.
  - change ((c :: l) ++ 10%Z :: s) with (c :: (l ++ 10%Z :: s)). rewrite !str_replace_step by done.
    change (c :: (l ++ 10%Z :: s)) with ((c :: l) ++ 10%Z :: s). rewrite strip_prefix_line by done. cbn in Hk.
    destruct (strip_prefix pat (c :: l)) as [r|] eqn:E; cbn [fmap option_fmap option_map].
    + apply strip_prefix_length in E. assert (length pat <> 0) by (by destruct pat). cbn in E.
      rewrite (IH (length r)) by (done || lia). by rewrite <- app_assoc.
    + rewrite (IH (length l)) by (done || lia). done.
Qed.

Lemma str_contains_iff n s : str_contains n s = true <-> exists a b, s = a ++ n ++ b.
Proof.
  induction s as [|c s IH]; cbn [str_contains]; rewrite orb_true_iff, bool_decide_eq_true.
  - split.
    + intros [[r E%strip_prefix_Some]|]; [|done]. by exists [], r.
    + intros (a & b & E). left. symmetry in E. apply app_nil in E as [-> E]. apply app_nil in E as [-> ->]. by exists [].
  - rewrite IH. split.
    + intros [[r E%strip_prefix_Some]|(a & b & ->)]; [by exists [], r|by exists (c :: a), b].
    + intros ([|d a] & b & E); [left; cbn in E; rewrite E, strip_prefix_app; by eexists|right].
      injection E as -> ->. by exists a, b.
Qed.

Lemma str_replace_absent pat w s : pat <> [] -> str_contains pat s = false -> str_replace pat w s = s.
Proof.
  intros Hp. induction s as [|c s IH]; intros Hc; [done|]. cbn [str_contains] in Hc. apply orb_false_iff in Hc as [H1 H2].
  rewrite str_replace_step by done. destruct (strip_prefix pat (c :: s)) as [r|]; [|by rewrite IH]. by rewrite bool_decide_eq_true_2 in H1 by eauto.
Qed.

Lemma str_replace_self pat w : pat <> [] -> str_replace pat w pat = w.
Proof.
  intros Hp. destruct pat as [|c pat]; [done|]. rewrite str_replace_step by done.
  rewrite <- (app_nil_r (c :: pat)) at 2. rewrite strip_prefix_app. apply app_nil_r.
Qed.

(** A needle without [c] lies on one side of it. *)
Lemma str_contains_sep n c a b : c ∉ n -> str_contains n (a ++ c :: b) = str_contains n a || str_contains n b.
Proof.
  intros Hc. apply eq_true_iff_eq. rewrite orb_true_iff, !str_contains_iff. split.
  - intros (x & y & E). destruct (decide (length x + length n ≤ length a)) as [Hl|Hl]; [left|right].
    + exists x, (drop (length x + length n) a). rewrite app_assoc. rewrite app_assoc in E.
      assert (x ++ n = take (length x + length n) a) as ->; [|by rewrite take_drop].
      rewrite <- (take_app_le a (c :: b)) by lia. rewrite E, <- (length_app x n). by rewrite take_app_length.
    + assert (length a < length x) as Hx.
      { destruct (decide (length a < length x)); [done|]. exfalso. apply Hc.
        assert (n !! (length a - length x) = Some c) as Hn; [|by apply list_elem_of_lookup_2 in Hn].
        rewrite <- (lookup_app_l n y) by lia.
        rewrite <- (lookup_app_r x (n ++ y)) by lia. by rewrite <- E, list_lookup_middle. }
      exists (drop (S (length a)) x), y.
      apply (f_equal (drop (S (length a)))) in E. rewrite (drop_app_ge a), (drop_app_le x) in E by lia.
      rewrite <- E. by replace (S (length a) - length a) with 1 by lia.
  - intros [(x & y & ->)|(x & y & ->)].
    + exists x, (y ++ c :: b). by rewrite <- !app_assoc.
    + exists (a ++ c :: x), y. by rewrite <- !app_assoc.
Qed.

Lemma str_contains_weaken n m s : str_contains (n ++ m) s = true -> str_contains n s = true.
Proof. rewrite !str_contains_iff. intros (a & b & ->). exists a, (m ++ b). by rewrite <- app_assoc. Qed.

Lemma str_contains_char c n s : c ∈ n -> c ∉ s -> str_contains n s = false.
Proof.
  intros Hn Hs. apply not_true_is_false. rewrite str_contains_iff. intros (a & b & ->). apply Hs. rewrite !elem_of_app. tauto.
Qed.

Definition is_space (c : Z) : bool := bool_decide (c = 32 \/ 9 ≤ c ≤ 13)%Z.
Fixpoint skip_space (s : bytes) : bytes := match s with c :: s' => if is_space c then skip_space s' else s | [] => [] end.
Definition strip (s : bytes) : bytes := reverse (skip_space (reverse (skip_space s))).

Inductive Line : Set := Blank | Heading (h : bytes) | Item (k v : bytes).

Definition uncomment (l : bytes) : bytes := (span (fun c => negb (bool_decide (c = 35%Z))) l).1.

Definition read_line (l : bytes) : Line :=
  let l := uncomment l in
  match strip l with
  | [] => Blank
  | 91%Z :: _ => Heading (strip l)
  | _ => match split_once 61 l with Some (k, v) => Item (strip k) (strip v) | None => Item (strip l) [] end
  end.

(** The items before the first heading, and the blocks. *)
Definition Ini : Type := list (bytes * bytes) * list (bytes * list (bytes * bytes)).

Definition add_line (l : Line) (i : Ini) : Ini :=
  match l with
  | Blank => i
  | Heading h => ([], (h, fst i) :: snd i)
  | Item k v => ((k, v) :: fst i, snd i)
  end.

Definition read_lines (ls : list bytes) : Ini := foldr (fun l => add_line (read_line l)) ([], []) ls.
Definition is_newline (c : Z) : bool := bool_decide (c = 10%Z).
Definition read_ini (s : bytes) : Ini := read_lines (split_on is_newline s).

(** The values of a key in a block. *)
Definition values (k : bytes) (items : list (bytes * bytes)) : list bytes := snd <$> filter (fun kv => fst kv = k) items.

(** ** One piece after another *)

Definition ini_app (a b : Ini) : Ini :=
  match snd a with
  | [] => (fst a ++ fst b, snd b)
  | _ => (fst a, removelast (snd a) ++ match last (snd a) with Some (h, its) => [(h, its ++ fst b)] | None => [] end ++ snd b)
  end.

Lemma add_line_app l a b : add_line l (ini_app a b) = ini_app (add_line l a) b.
Proof.
  destruct a as [p bs]. destruct l as [|h|k v]; [done| |]; unfold ini_app; destruct bs as [|[h' its] bs]; reflexivity.
Qed.

Lemma read_lines_app a b : read_lines (a ++ b) = ini_app (read_lines a) (read_lines b).
Proof.
  induction a as [|l a IH].
  { cbn [app]. change (read_lines []) with (([], []) : Ini). destruct (read_lines b). reflexivity. }
  cbn [read_lines foldr app]. fold (read_lines (a ++ b)) (read_lines a). by rewrite IH, add_line_app.
Qed.

Lemma read_ini_cons l s : Forall (fun c => is_newline c = false) l -> read_ini (l ++ 10%Z :: s) = add_line (read_line l) (read_ini s).
Proof. intros Hl. unfold read_ini. by rewrite split_on_app_sep. Qed.

Lemma read_ini_one l : Forall (fun c => is_newline c = false) l -> read_ini l = add_line (read_line l) ([], []).
Proof. intros Hl. unfold read_ini. by rewrite split_on_none. Qed.

Lemma split_on_app {A} (p : A -> bool) a x b : p x = true -> split_on p (a ++ x :: b) = split_on p a ++ split_on p b.
Proof.
  intros Hx. induction a as [|c a IH]; cbn [app split_on]; [by rewrite Hx|]. destruct (p c); [by rewrite IH|].
  rewrite IH. by destruct (split_on p a) as [|h t] eqn:E; [apply split_on_nonempty in E|].
Qed.

(** Text, a newline, text. *)
Lemma read_ini_app a b : read_ini (a ++ 10%Z :: b) = ini_app (read_ini a) (read_ini b).
Proof. unfold read_ini. rewrite split_on_app by done. apply read_lines_app. Qed.

(** ** Settings *)

Definition key_char (c : Z) : Prop := (48 ≤ c ≤ 57 \/ 65 ≤ c ≤ 90 \/ 97 ≤ c ≤ 122)%Z.
Definition key_ok (k : bytes) : Prop := k <> [] /\ Forall key_char k.

(** A value on one line, without a comment sign and blanks around it. *)
Definition clean (v : bytes) : Prop := Forall (fun c => c <> 10 /\ c <> 35)%Z v /\ strip v = v.

#[export] Instance key_char_dec c : Decision (key_char c) := ltac:(unfold key_char; apply _).
#[export] Instance key_ok_dec k : Decision (key_ok k) := ltac:(unfold key_ok; apply _).
#[export] Instance clean_dec v : Decision (clean v) := ltac:(unfold clean; apply _).

Lemma key_char_space c : key_char c -> is_space c = false.
Proof. intros Hc. apply bool_decide_eq_false. unfold key_char in Hc. lia. Qed.

Lemma skip_space_head c s : is_space c = false -> skip_space (c :: s) = c :: s.
Proof. intros Hc. cbn [skip_space]. by rewrite Hc. Qed.

Lemma skip_space_app s t : Forall (fun c => is_space c = true) s -> skip_space (s ++ t) = skip_space t.
Proof. induction 1 as [|c s Hc _ IH]; [done|]. cbn [app skip_space]. by rewrite Hc. Qed.

(** What is skipped and what is kept. *)
Lemma skip_space_split s : exists sp, s = sp ++ skip_space s /\ Forall (fun c => is_space c = true) sp
  /\ match skip_space s with c :: _ => is_space c = false | [] => True end.
Proof.
  induction s as [|c s IH]; [by exists []|]. cbn [skip_space]. destruct (is_space c) eqn:Hc.
  - destruct IH as (sp & E & Hsp & Hh). exists (c :: sp). split; [cbn; by rewrite <- E|]. split; [by constructor|done].
  - exists []. split; [done|]. by split.
Qed.

Lemma strip_head c s : is_space c = false -> exists r, strip (c :: s) = c :: r.
Proof.
  intros Hc. unfold strip. rewrite skip_space_head by done. destruct (skip_space_split (reverse (c :: s))) as (sp & E & Hsp & _).
  destruct (skip_space (reverse (c :: s))) as [|d t] eqn:Ht.
  - rewrite app_nil_r in E. rewrite <- E in Hsp. rewrite Forall_reverse in Hsp. apply Forall_cons in Hsp as [Hc' _]. congruence.
  - apply (f_equal reverse) in E. rewrite reverse_involutive, reverse_app in E. destruct (reverse (d :: t)) as [|e r] eqn:Hr.
    + apply (f_equal reverse) in Hr. by rewrite reverse_involutive in Hr.
    + injection E as <- _. by exists r.
Qed.

Lemma strip_key k sp : key_ok k -> Forall (fun c => is_space c = true) sp -> strip (k ++ sp) = k.
Proof.
  intros [Hne Hk] Hsp. unfold strip. destruct k as [|c k]; [done|]. apply Forall_cons in Hk as Hk'. destruct Hk' as [Hc _].
  cbn [app]. rewrite skip_space_head by by apply key_char_space. change (c :: k ++ sp) with ((c :: k) ++ sp).
  rewrite reverse_app, skip_space_app by by rewrite Forall_reverse. rewrite <- Forall_reverse in Hk.
  destruct (reverse (c :: k)) as [|d r] eqn:Hr; [by apply (f_equal reverse) in Hr; rewrite reverse_involutive in Hr|].
  apply Forall_cons in Hk as [Hd _]. rewrite skip_space_head by by apply key_char_space. rewrite <- Hr. apply reverse_involutive.
Qed.

Lemma uncomment_id l : Forall (fun c => c <> 35%Z) l -> uncomment l = l.
Proof.
  unfold uncomment. induction 1 as [|c l Hc _ IH]; [done|]. cbn [span]. rewrite bool_decide_eq_false_2 by done. cbn [negb].
  destruct (span _ l) as [a b]. cbn [fst] in *. by rewrite IH.
Qed.

Lemma read_setting_line k v : key_ok k -> Forall (fun c => c <> 35%Z) v -> read_line (k ++ bstr " = " ++ v) = Item k (strip v).
Proof.
  intros Hk Hv. pose proof Hk as [Hne Hkc]. unfold read_line. rewrite uncomment_id.
  2: { rewrite !Forall_app. split; [|split].
       - eapply Forall_impl; [exact Hkc|]. intros c Hc. unfold key_char in Hc. lia.
       - apply (bool_decide_unpack _); vm_compute; exact I.
       - done. }
  assert (split_once 61 (k ++ bstr " = " ++ v) = Some (k ++ [32%Z], 32%Z :: v)) as ->.
  { apply split_once_spec. split; [by rewrite <- app_assoc|]. rewrite elem_of_app. intros [Hin|Hin].
    - rewrite Forall_forall in Hkc. apply Hkc in Hin. unfold key_char in Hin. lia.
    - by apply list_elem_of_singleton in Hin. }
  change (strip (32%Z :: v)) with (strip v). rewrite (strip_key k [32%Z] Hk) by (by apply Forall_singleton).
  destruct k as [|c k]; [done|]. apply Forall_cons in Hkc as [Hc _]. destruct (strip_head c (k ++ bstr " = " ++ v)) as [r Hr]; [by apply key_char_space|].
  cbn [app]. rewrite Hr. unfold key_char in Hc. destruct c as [|c|c]; try done. do 7 (destruct c; try done; try lia).
Qed.

Lemma setting_line k v : key_ok k -> clean v ->
  read_line (k ++ bstr " = " ++ v) = Item k v /\ Forall (fun c => is_newline c = false) (k ++ bstr " = " ++ v).
Proof.
  intros Hk [Hv Hs]. pose proof Hk as [Hne Hkc]. split.
  - rewrite read_setting_line, Hs; [done|done|]. eapply Forall_impl; [exact Hv|]. by intros c [].
  - rewrite !Forall_app. split; [|split].
    + eapply Forall_impl; [exact Hkc|]. intros c Hc. unfold key_char in Hc. apply bool_decide_eq_false. lia.
    + apply (bool_decide_unpack _); vm_compute; exact I.
    + eapply Forall_impl; [exact Hv|]. intros c [Hc _]. by apply bool_decide_eq_false.
Qed.

(** A sequence of settings, before something or last. *)
Definition setting_of (kv : bytes * bytes) : bytes := fst kv ++ bstr " = " ++ snd kv.
Definition item_ok (kv : bytes * bytes) : Prop := key_ok (fst kv) /\ clean (snd kv).

Lemma read_setting kv s : item_ok kv -> read_ini (setting_of kv ++ 10%Z :: s) = add_line (Item (fst kv) (snd kv)) (read_ini s).
Proof. intros [Hk Hv]. destruct (setting_line _ _ Hk Hv) as [E Hn]. unfold setting_of. by rewrite read_ini_cons, E. Qed.

Lemma read_setting_last kv : item_ok kv -> read_ini (setting_of kv) = ([kv], []).
Proof. intros [Hk Hv]. destruct (setting_line _ _ Hk Hv) as [E Hn]. unfold setting_of. rewrite read_ini_one, E by done. by destruct kv. Qed.

Definition items_app (its : list (bytes * bytes)) (i : Ini) : Ini := (its ++ fst i, snd i).

Lemma items_app_nil i : items_app [] i = i.
Proof. by destruct i. Qed.

Lemma items_app_app a b i : items_app a (items_app b i) = items_app (a ++ b) i.
Proof. unfold items_app. cbn [fst snd]. by rewrite app_assoc. Qed.

Lemma read_settings kvs s : kvs <> [] -> Forall item_ok kvs ->
  read_ini (join_text [10%Z] (setting_of <$> kvs) ++ 10%Z :: s) = items_app kvs (read_ini s).
Proof.
  intros Hne Hk. induction Hk as [|kv kvs Hkv Hk IH]; [done|]. destruct kvs as [|kv' kvs].
  - cbn [fmap list_fmap join_text]. rewrite read_setting by done. by destruct kv.
  - change (join_text [10%Z] (setting_of <$> kv :: kv' :: kvs)) with (setting_of kv ++ 10%Z :: join_text [10%Z] (setting_of <$> kv' :: kvs)).
    rewrite <- app_assoc. cbn [app]. rewrite read_setting by done. rewrite IH by done. by destruct kv.
Qed.

Lemma read_settings_last kvs : kvs <> [] -> Forall item_ok kvs -> read_ini (join_text [10%Z] (setting_of <$> kvs)) = (kvs, []).
Proof.
  intros Hne Hk. induction Hk as [|kv kvs Hkv Hk IH]; [done|]. destruct kvs as [|kv' kvs].
  - cbn [fmap list_fmap join_text]. by apply read_setting_last.
  - change (join_text [10%Z] (setting_of <$> kv :: kv' :: kvs)) with (setting_of kv ++ 10%Z :: join_text [10%Z] (setting_of <$> kv' :: kvs)).
    rewrite read_setting by done. rewrite IH by done. by destruct kv.
Qed.

(** A comment, whatever follows the sign on its line. *)
Lemma read_comment l s : Forall (fun c => is_newline c = false) l -> read_ini (35%Z :: l ++ 10%Z :: s) = read_ini s.
Proof.
  intros Hl. change (35%Z :: l ++ 10%Z :: s) with ((35%Z :: l) ++ 10%Z :: s). rewrite read_ini_cons by by constructor.
  by destruct (read_ini s).
Qed.
