(* ===== verification/WgConfigProps.v ===== *)
(** * Both ends of a tunnel read the same settings

    The texts of [WgConfig], read by the reader of [WgIni]: exactly the settings of the
    rows, with the values that must match equal on the server and the client. *)
From S2P Require Import Prelude Text NetAlloc FirewallCalls WgCb3 WgConfig WgIni.

(** ** Lines and items *)

Definition opt_item (k v : bytes) : list (bytes * bytes) := if decide (v = []) then [] else [(k, v)].
Definition pos_item (k : bytes) (v : option Z) : list (bytes * bytes) :=
  match v with Some v => if decide (0 < v)%Z then [(k, decimal v)] else [] | None => [] end.
Definition present_item (k : bytes) (v : option bytes) : list (bytes * bytes) := match v with Some v => opt_item k v | None => [] end.

Definition shared_items (iface : Interface) : list (bytes * bytes) :=
  [(bstr "S1", decimal (w_s1 iface)); (bstr "S2", decimal (w_s2 iface))] ++ pos_item (bstr "S3") (w_s3 iface) ++ pos_item (bstr "S4") (w_s4 iface)
  ++ opt_item (bstr "H1") (w_h1 iface) ++ opt_item (bstr "H2") (w_h2 iface) ++ opt_item (bstr "H3") (w_h3 iface) ++ opt_item (bstr "H4") (w_h4 iface).

Definition cb3_items (iface : Interface) : list (bytes * bytes) :=
  opt_item (bstr "HeaderProtectionKey") (trim (header_protection_key (w_row iface)))
  ++ opt_item (bstr "ContentPaddingAddition") (trim (content_padding_addition iface)) ++ opt_item (bstr "RekeyAfterTime") (trim (rekey_after_time iface))
  ++ opt_item (bstr "RekeyTimeout") (trim (rekey_timeout iface)) ++ opt_item (bstr "RejectAfterTime") (trim (reject_after_time iface))
  ++ opt_item (bstr "KeepaliveTimeout") (trim (keepalive_timeout iface)) ++ opt_item (bstr "MaxHandshakeAttempts") (trim (max_handshake_attempts iface))
  ++ (if random_trailers (w_row iface) then [(bstr "RandomTrailers", bstr "on")] else [])
  ++ (if disable_cookies iface then [(bstr "DisableCookies", bstr "on")] else []).

Definition junk_items (jc jmin jmax : Z) : list (bytes * bytes) :=
  [(bstr "Jc", decimal jc); (bstr "Jmin", decimal jmin); (bstr "Jmax", decimal jmax)].

Definition init_items (i1 i2 i3 i4 i5 : option bytes) : list (bytes * bytes) :=
  present_item (bstr "I1") i1 ++ present_item (bstr "I2") i2 ++ present_item (bstr "I3") i3 ++ present_item (bstr "I4") i4 ++ present_item (bstr "I5") i5.

Definition cb_items (iface : Interface) (jc jmin jmax : Z) (i1 i2 i3 i4 i5 : option bytes) : list (bytes * bytes) :=
  junk_items jc jmin jmax ++ shared_items iface ++ init_items i1 i2 i3 i4 i5 ++ cb3_items iface.

Lemma opt_item_lines k v : nonempty k v = setting_of <$> opt_item k v.
Proof. unfold nonempty, opt_item. by case_decide. Qed.

Lemma present_item_lines k v : present k v = setting_of <$> present_item k v.
Proof. destruct v; [apply opt_item_lines|done]. Qed.

Lemma pos_item_lines k v : positive k v = setting_of <$> pos_item k v.
Proof. destruct v as [v|]; [|done]. unfold positive, pos_item. by case_decide. Qed.

Lemma shared_lines_items iface : shared_lines iface = setting_of <$> shared_items iface.
Proof. unfold shared_lines, shared_items. rewrite !pos_item_lines, !opt_item_lines. by rewrite !fmap_app. Qed.

Lemma cb3_lines_items iface : cb3_lines iface = setting_of <$> cb3_items iface.
Proof.
  unfold cb3_lines, config_lines, cb3_items. cbn [mbind list_bind fst snd].
  rewrite !fmap_app, <- !opt_item_lines. unfold nonempty. rewrite app_nil_r, <- !app_assoc.
  by destruct (random_trailers (w_row iface)), (disable_cookies iface).
Qed.

Lemma server_cb_items iface : server_cb iface
  = setting_of <$> cb_items iface (w_j_c iface) (w_j_min iface) (w_j_max iface) (Some (w_i1 iface)) (Some (w_i2 iface)) (Some (w_i3 iface)) (Some (w_i4 iface)) (Some (w_i5 iface)).
Proof.
  unfold server_cb, cb_items, init_items. rewrite cb3_lines_items, shared_lines_items, !opt_item_lines. rewrite !fmap_app. by rewrite <- !app_assoc.
Qed.

Lemma client_cb_items iface c : client_cb iface c
  = setting_of <$> cb_items iface (default (w_j_c iface) (k_j_c c)) (default (w_j_min iface) (k_j_min c)) (default (w_j_max iface) (k_j_max c))
      (k_i1 c) (k_i2 c) (k_i3 c) (k_i4 c) (k_i5 c).
Proof.
  unfold client_cb, cb_items, init_items. rewrite cb3_lines_items, shared_lines_items, !present_item_lines. rewrite !fmap_app. by rewrite <- !app_assoc.
Qed.

(** ** Rows that fit on their lines *)

(** A value on one line that is not mistaken for the port. *)
Definition LISTEN_PORT : bytes := bstr "ListenPort".
Definition plain (v : bytes) : Prop := clean v /\ str_contains LISTEN_PORT v = false.
#[export] Instance plain_dec v : Decision (plain v) := ltac:(unfold plain; apply _).
Definition plain_item (kv : bytes * bytes) : Prop := key_ok (fst kv) /\ str_contains LISTEN_PORT (fst kv) = false /\ plain (snd kv).

Definition num_char (c : Z) : Prop := (c = 45 \/ 48 ≤ c ≤ 57)%Z.

Lemma decimal_chars z : Forall num_char (decimal z).
Proof.
  assert (forall fuel n acc, (0 ≤ n)%Z -> Forall num_char acc -> Forall num_char (decimal_go fuel n acc)) as Hgo.
  { induction fuel as [|fuel IH]; intros n acc Hn Hacc; [done|]. cbn [decimal_go].
    assert (num_char (48 + n mod 10)) by (unfold num_char; pose proof (Z.mod_pos_bound n 10); lia).
    case_decide; [by constructor|]. apply IH; [apply Z.div_pos; lia|by constructor]. }
  unfold decimal. case_decide; [constructor; [by left|]; apply Hgo; [lia|constructor]|apply Hgo; [lia|constructor]].
Qed.

Lemma strip_no_space s : Forall (fun c => is_space c = false) s -> strip s = s.
Proof.
  intros Hs. unfold strip. assert (forall t, Forall (fun c => is_space c = false) t -> skip_space t = t) as Hid
    by (intros [|c t] Ht; [done|]; apply Forall_cons in Ht as [Hc _]; by apply skip_space_head).
  rewrite (Hid s), (Hid (reverse s)) by (done || by rewrite Forall_reverse). apply reverse_involutive.
Qed.

Lemma plain_decimal z : plain (decimal z).
Proof.
  pose proof (decimal_chars z) as Hd. unfold num_char in Hd. split; [split|].
  - eapply Forall_impl; [exact Hd|]. cbn. intros c Hc. lia.
  - apply strip_no_space. eapply Forall_impl; [exact Hd|]. cbn. intros c Hc. apply bool_decide_eq_false. lia.
  - apply (str_contains_char 76%Z); [by left|]. intros Hin. rewrite Forall_forall in Hd. apply Hd in Hin. lia.
Qed.

Lemma setting_no_port kv p : plain_item kv -> str_contains (LISTEN_PORT ++ p) (setting_of kv) = false.
Proof.
  intros (_ & Hk & _ & Hv). apply not_true_is_false. intros Hc%str_contains_weaken. revert Hc. unfold setting_of.
  change (fst kv ++ bstr " = " ++ snd kv) with (fst kv ++ 32%Z :: ([61%Z] ++ 32%Z :: snd kv)).
  rewrite !str_contains_sep by (apply (bool_decide_unpack _); vm_compute; exact I). rewrite Hk, Hv. by vm_compute.
Qed.

Lemma setting_kv_no_port k v p : key_ok k -> str_contains LISTEN_PORT k = false -> plain v -> str_contains (LISTEN_PORT ++ p) (setting k v) = false.
Proof. intros Hk Hn Hv. by apply (setting_no_port (k, v)). Qed.

Lemma read_kv k v s : key_ok k -> plain v -> read_ini (setting k v ++ 10%Z :: s) = add_line (Item k v) (read_ini s).
Proof. intros Hk [Hv _]. by apply (read_setting (k, v)). Qed.

Lemma plain_item_ok kv : plain_item kv -> item_ok kv.
Proof. by intros (? & _ & ? & _). Qed.

Lemma plain_items_ok kvs : Forall plain_item kvs -> Forall item_ok kvs.
Proof. intros H. eapply Forall_impl; [exact H|]. apply plain_item_ok. Qed.

Lemma read_items kvs : Forall item_ok kvs -> read_ini (join_text NL (setting_of <$> kvs)) = (kvs, []).
Proof. intros Hk. destruct kvs; [done|]. by apply read_settings_last. Qed.

Lemma ini_app_nil i : ini_app ([], []) i = i.
Proof. by destruct i. Qed.

Lemma ini_app_items its i : ini_app (its, []) i = items_app its i.
Proof. done. Qed.

Lemma read_block a b s : read_ini (a ++ block_of b ++ 10%Z :: s) = ini_app (read_ini a) (ini_app (read_ini b) (read_ini s)).
Proof.
  unfold block_of. case_decide as Hb.
  - subst b. cbn [app]. change (read_ini []) with (([], []) : Ini). by rewrite ini_app_nil, read_ini_app.
  - unfold NL. cbn [app]. by rewrite read_ini_app, read_ini_app.
Qed.

Lemma read_block_last a b : read_ini (a ++ block_of b) = ini_app (read_ini a) (read_ini b).
Proof.
  unfold block_of. case_decide as Hb; [|apply read_ini_app]. subst b. rewrite app_nil_r. change (read_ini []) with (([], []) : Ini).
  destruct (read_ini a) as [p bs]. unfold ini_app. cbn [fst snd]. destruct (decide (bs = [])) as [->|Hne]; [by rewrite app_nil_r|].
  destruct (exists_last Hne) as (bs' & [h its] & ->). destruct (bs' ++ [(h, its)]) as [|x l] eqn:E; [by destruct bs'|]. rewrite <- E.
  rewrite last_snoc, removelast_last, !app_nil_r. done.
Qed.

Lemma read_newline s : read_ini (10%Z :: s) = read_ini s.
Proof. etrans; [apply (read_ini_app [] s)|apply ini_app_nil]. Qed.

Lemma read_heading h s : Forall (fun c => is_newline c = false) h -> read_line h = Heading h ->
  read_ini (h ++ 10%Z :: s) = ([], (h, fst (read_ini s)) :: snd (read_ini s)).
Proof. intros Hn Hh. by rewrite read_ini_cons, Hh. Qed.

(** *** No other line is taken for the port *)

Section no_port.
Context (p : bytes) (Hp : 10%Z ∉ p).
#[local] Notation needle := (LISTEN_PORT ++ p).

Lemma newline_needle : 10%Z ∉ needle.
Proof. rewrite elem_of_app. intros [Hin|Hin]; [|done]. by apply (bool_decide_pack _) in Hin; vm_compute in Hin. Qed.

Lemma contains_nil : str_contains needle [] = false.
Proof. done. Qed.

Lemma contains_newline s : str_contains needle (10%Z :: s) = str_contains needle s.
Proof. apply (str_contains_sep needle 10%Z [] s), newline_needle. Qed.

Lemma contains_block a b : str_contains needle (a ++ block_of b) = str_contains needle a || str_contains needle b.
Proof.
  unfold block_of. case_decide as Hb; [subst b; by rewrite app_nil_r, contains_nil, orb_false_r|].
  unfold NL. cbn [app]. apply str_contains_sep, newline_needle.
Qed.

Lemma contains_items kvs : Forall plain_item kvs -> str_contains needle (join_text NL (setting_of <$> kvs)) = false.
Proof.
  intros Hk. induction Hk as [|kv kvs Hkv Hk IH]; [done|]. destruct kvs as [|kv' kvs]; [by apply setting_no_port|].
  change (join_text NL (setting_of <$> kv :: kv' :: kvs)) with (setting_of kv ++ 10%Z :: join_text NL (setting_of <$> kv' :: kvs)).
  rewrite str_contains_sep by apply newline_needle. by rewrite setting_no_port, IH.
Qed.
End no_port.

(** ** The rows *)

(** The settings that the tunnel is made of, and the others that the code writes. *)
Definition TUNNEL_KEYS : list bytes :=
  bstr <$> ["S1"; "S2"; "S3"; "S4"; "H1"; "H2"; "H3"; "H4"; "HeaderProtectionKey"; "ContentPaddingAddition"; "RekeyAfterTime"; "RekeyTimeout";
            "RejectAfterTime"; "KeepaliveTimeout"; "MaxHandshakeAttempts"; "RandomTrailers"; "DisableCookies"]%string.
Definition JUNK_KEYS : list bytes := bstr <$> ["Jc"; "I1"; "I2"; "I3"; "I4"; "I5"]%string.
Definition OTHER_KEYS : list bytes :=
  bstr <$> ["PrivateKey"; "Address"; "ListenPort"; "MTU"; "DNS"; "Jmin"; "Jmax"; "PreUp"; "PostUp"; "PreDown"; "PostDown"]%string.

(** Free text: settings only, none of those the code writes. *)
Definition extra_ok (t : bytes) : Prop :=
  snd (read_ini t) = [] /\ str_contains LISTEN_PORT t = false
  /\ Forall (fun kv => fst kv ∉ TUNNEL_KEYS ++ JUNK_KEYS ++ OTHER_KEYS) (fst (read_ini t)).

Ltac const_key := solve [apply (bool_decide_unpack _); vm_compute; exact I].

(** A constant key with a value that [t] shows to be plain. *)
Ltac by_key t := lazymatch goal with |- plain _ => solve [t] | |- _ => const_key end.

Section rows.
Context `{Library} (disable_ipv6 : bool).

Definition expanded (iface : Interface) (raw : bytes) : bytes :=
  expand raw (w_device iface) (decimal (i_port (w_row iface))) (w_ipv4_cidr iface) (w_ipv6_cidr iface).

Definition cb3_texts (iface : Interface) : list bytes :=
  [header_protection_key (w_row iface); content_padding_addition iface; rekey_after_time iface; rekey_timeout iface; reject_after_time iface;
   keepalive_timeout iface; max_handshake_attempts iface].

Record iface_rows (iface : Interface) : Prop := {
  ir_headers : Forall plain [w_h1 iface; w_h2 iface; w_h3 iface; w_h4 iface];
  ir_cb3 : Forall plain (trim <$> cb3_texts iface);
}.

Record server_rows (iface : Interface) (hooks : Hooks) : Prop := {
  sr_iface : iface_rows iface;
  sr_private : plain (w_private_key iface); sr_address : plain (address disable_ipv6 iface);
  sr_init : Forall plain [w_i1 iface; w_i2 iface; w_i3 iface; w_i4 iface; w_i5 iface];
  sr_hooks : Forall plain (expanded iface <$> [pre_up hooks; post_up hooks; pre_down hooks; post_down hooks]);
  sr_extra : extra_ok (trim (w_additional_config iface));
}.

Lemma opt_item_plain k v : key_ok k -> str_contains LISTEN_PORT k = false -> plain v -> Forall plain_item (opt_item k v).
Proof. intros Hk Hp Hv. unfold opt_item. case_decide; [done|]. by apply Forall_singleton. Qed.

Lemma pos_item_plain k v : key_ok k -> str_contains LISTEN_PORT k = false -> Forall plain_item (pos_item k v).
Proof.
  intros Hk Hp. destruct v as [v|]; [|done]. unfold pos_item. case_decide; [|done]. apply Forall_singleton.
  split; [done|]. split; [done|]. apply plain_decimal.
Qed.

Lemma present_item_plain k v : key_ok k -> str_contains LISTEN_PORT k = false -> (forall s, v = Some s -> plain s) -> Forall plain_item (present_item k v).
Proof. intros Hk Hp Hv. destruct v as [v|]; [|done]. apply opt_item_plain; [done|done|by apply Hv]. Qed.

Lemma number_plain k z : key_ok k -> str_contains LISTEN_PORT k = false -> plain_item (k, decimal z).
Proof. intros Hk Hp. split; [done|]. split; [done|]. apply plain_decimal. Qed.

Lemma cb_items_plain iface jc jmin jmax i1 i2 i3 i4 i5 : iface_rows iface ->
  (forall s, Some s ∈ [i1; i2; i3; i4; i5] -> plain s) -> Forall plain_item (cb_items iface jc jmin jmax i1 i2 i3 i4 i5).
Proof.
  intros [Hh Hc] Hi. unfold cb3_texts in Hc. cbn [fmap list_fmap] in Hc.
  repeat match goal with H : Forall plain (_ :: _) |- _ => apply Forall_cons in H as [? H] end.
  assert (forall k v, v ∈ [i1; i2; i3; i4; i5] -> key_ok k -> str_contains LISTEN_PORT k = false -> Forall plain_item (present_item k v)) as Hp.
  { intros k v Hv Hk Hn. apply present_item_plain; [done|done|]. intros s ->. by apply Hi. }
  unfold cb_items, junk_items, shared_items, init_items, cb3_items. rewrite !Forall_app.
  repeat match goal with |- _ /\ _ => split | |- Forall _ (_ :: _) => apply Forall_cons | |- Forall _ [] => apply Forall_nil; exact I end;
    try (apply number_plain; const_key); try (apply pos_item_plain; const_key); try (apply opt_item_plain; [const_key|const_key|done]);
    try (apply Hp; [rewrite !elem_of_cons; tauto|const_key|const_key]).
  - destruct (random_trailers (w_row iface)); [|done]. apply Forall_singleton. const_key.
  - destruct (disable_cookies iface); [|done]. apply Forall_singleton. const_key.
Qed.

(** *** The interface of the server *)

Definition hook_items (iface : Interface) (hooks : Hooks) : list (bytes * bytes) :=
  [(bstr "PreUp", pre_up hooks); (bstr "PostUp", post_up hooks); (bstr "PreDown", pre_down hooks); (bstr "PostDown", post_down hooks)] ≫= fun kr =>
    if decide (trim (expanded iface (snd kr)) = []) then [] else [(fst kr, expanded iface (snd kr))].

Lemma hook_lines_items iface hooks : hook_lines iface hooks = setting_of <$> hook_items iface hooks.
Proof.
  unfold hook_lines, hook_items, expanded. cbn [mbind list_bind fst snd]. rewrite !fmap_app.
  repeat (apply (f_equal2 app); [case_match; reflexivity|]). done.
Qed.

Lemma hook_items_plain iface hooks : server_rows iface hooks -> Forall plain_item (hook_items iface hooks).
Proof.
  intros Hs. pose proof (sr_hooks _ _ Hs) as Hh. cbn [fmap list_fmap] in Hh.
  repeat match goal with H : Forall plain (_ :: _) |- _ => apply Forall_cons in H as [? H] end.
  unfold hook_items. cbn [mbind list_bind fst snd]. rewrite !Forall_app.
  repeat match goal with |- _ /\ _ => split | |- Forall _ [] => apply Forall_nil; exact I end;
    case_decide; try (apply Forall_nil; exact I); (apply Forall_singleton; split; [const_key|split; [const_key|done]]).
Qed.

Definition server_cb_of (iface : Interface) : list (bytes * bytes) :=
  cb_items iface (w_j_c iface) (w_j_min iface) (w_j_max iface) (Some (w_i1 iface)) (Some (w_i2 iface)) (Some (w_i3 iface)) (Some (w_i4 iface)) (Some (w_i5 iface)).

Lemma server_cb_plain iface hooks : server_rows iface hooks -> Forall plain_item (server_cb_of iface).
Proof.
  intros Hs. apply cb_items_plain; [apply Hs|]. intros s Hin. pose proof (sr_init _ _ Hs) as Hi. rewrite Forall_forall in Hi. apply Hi.
  change (Some s ∈ Some <$> [w_i1 iface; w_i2 iface; w_i3 iface; w_i4 iface; w_i5 iface]) in Hin.
  by apply list_elem_of_fmap in Hin as (s' & [= ->] & Hin).
Qed.

(** Before the port, and after it. *)
Definition head_text (iface : Interface) : bytes :=
  bstr "# Note: Do not edit this file directly." ++ NL ++ bstr "# Your changes will be overwritten!" ++ NL ++ NL
  ++ bstr "# Server" ++ NL ++ bstr "[Interface]" ++ NL
  ++ setting (bstr "PrivateKey") (w_private_key iface) ++ NL ++ setting (bstr "Address") (address disable_ipv6 iface).

Definition tail_text (iface : Interface) (hooks : Hooks) : bytes :=
  setting (bstr "MTU") (decimal (w_mtu iface)) ++ NL
  ++ join_text NL (server_cb iface) ++ block_of (join_text NL (hook_lines iface hooks)) ++ block_of (trim (w_additional_config iface)).

Definition port_line (port : Z) : bytes := setting LISTEN_PORT (decimal port).

Lemma server_text iface hooks :
  generate_server_interface disable_ipv6 iface hooks = head_text iface ++ 10%Z :: port_line (i_port (w_row iface)) ++ 10%Z :: tail_text iface hooks.
Proof. unfold generate_server_interface, head_text, tail_text, port_line, NL. by rewrite <- ?app_assoc. Qed.

Lemma decimal_no_newline z : 10%Z ∉ decimal z.
Proof. intros Hin. pose proof (decimal_chars z) as Hd. rewrite Forall_forall in Hd. apply Hd in Hin. unfold num_char in Hin. lia. Qed.

Lemma head_no_port iface hooks p : server_rows iface hooks -> 10%Z ∉ p -> str_contains (LISTEN_PORT ++ p) (head_text iface) = false.
Proof.
  intros Hs Hp. pose proof (newline_needle p Hp) as Hn.
  assert (forall s, str_contains LISTEN_PORT s = false -> str_contains (LISTEN_PORT ++ p) s = false) as Hw.
  { intros s E. apply not_true_is_false. intros E'%str_contains_weaken. congruence. }
  unfold head_text, NL. cbn [app]. rewrite 2 str_contains_sep by done. rewrite contains_newline by done. rewrite !str_contains_sep by done.
  rewrite (setting_kv_no_port (bstr "PrivateKey")) by (by_key ltac:(apply Hs)).
  rewrite (setting_kv_no_port (bstr "Address")) by (by_key ltac:(apply Hs)).
  rewrite (Hw (bstr "# Note: Do not edit this file directly.")), (Hw (bstr "# Your changes will be overwritten!")), (Hw (bstr "# Server")), (Hw (bstr "[Interface]"))
    by by vm_compute. done.
Qed.

Lemma tail_no_port iface hooks p : server_rows iface hooks -> 10%Z ∉ p -> str_contains (LISTEN_PORT ++ p) (tail_text iface hooks) = false.
Proof.
  intros Hs Hp. pose proof (newline_needle p Hp) as Hn.
  unfold tail_text, NL. cbn [app]. rewrite str_contains_sep by done. rewrite app_assoc, !contains_block by done.
  rewrite (setting_kv_no_port (bstr "MTU")) by (by_key ltac:(apply plain_decimal)).
  rewrite server_cb_items, hook_lines_items. fold (server_cb_of iface).
  rewrite !contains_items by (done || by eapply server_cb_plain || by apply hook_items_plain). cbn [orb].
  apply not_true_is_false. intros E%str_contains_weaken. destruct (sr_extra _ _ Hs) as (_ & E' & _). congruence.
Qed.

(** The port is moved and nothing else. *)
Lemma moved_port iface hooks port : server_rows iface hooks ->
  str_replace (port_line (i_port (w_row iface))) (port_line port) (generate_server_interface disable_ipv6 iface hooks)
  = head_text iface ++ 10%Z :: port_line port ++ 10%Z :: tail_text iface hooks.
Proof.
  intros Hs. set (p := i_port (w_row iface)). assert (port_line p = LISTEN_PORT ++ bstr " = " ++ decimal p) as Hpat by done.
  assert (10%Z ∉ bstr " = " ++ decimal p) as Hnl.
  { rewrite elem_of_app. intros [Hin|Hin]; [by apply (bool_decide_pack _) in Hin; vm_compute in Hin|by apply decimal_no_newline in Hin]. }
  assert (10%Z ∉ port_line p) as Hn by (rewrite Hpat; by apply newline_needle). assert (port_line p <> []) as Hne by done.
  rewrite server_text. fold p. rewrite !str_replace_line by done. rewrite str_replace_self by done.
  rewrite (str_replace_absent _ _ (head_text iface)), (str_replace_absent _ _ (tail_text iface hooks)); [done|done| |done|].
  - rewrite Hpat. by apply tail_no_port.
  - rewrite Hpat. by eapply head_no_port.
Qed.

Definition INTERFACE : bytes := bstr "[Interface]".
Definition PEER : bytes := bstr "[Peer]".

Lemma read_interface_heading s : read_ini (INTERFACE ++ 10%Z :: s) = ([], (INTERFACE, fst (read_ini s)) :: snd (read_ini s)).
Proof. apply read_heading; [apply (bool_decide_unpack _); vm_compute; exact I|by vm_compute]. Qed.

Lemma read_peer_heading s : read_ini (PEER ++ 10%Z :: s) = ([], (PEER, fst (read_ini s)) :: snd (read_ini s)).
Proof. apply read_heading; [apply (bool_decide_unpack _); vm_compute; exact I|by vm_compute]. Qed.

(** The items of the server's interface, with the port it listens on. *)
Definition server_items (port : Z) (iface : Interface) (hooks : Hooks) : list (bytes * bytes) :=
  [(bstr "PrivateKey", w_private_key iface); (bstr "Address", address disable_ipv6 iface); (LISTEN_PORT, decimal port); (bstr "MTU", decimal (w_mtu iface))]
  ++ server_cb_of iface ++ hook_items iface hooks ++ fst (read_ini (trim (w_additional_config iface))).

Lemma read_server port iface hooks s : server_rows iface hooks ->
  read_ini (head_text iface ++ 10%Z :: port_line port ++ 10%Z :: tail_text iface hooks ++ 10%Z :: s)
  = ([], (INTERFACE, server_items port iface hooks ++ fst (read_ini s)) :: snd (read_ini s)).
Proof.
  intros Hs. unfold head_text, tail_text, port_line, NL. rewrite <- !app_assoc. cbn [app]. fold NL.
  change (bstr "# Note: Do not edit this file directly.") with (35%Z :: bstr " Note: Do not edit this file directly.").
  change (bstr "# Your changes will be overwritten!") with (35%Z :: bstr " Your changes will be overwritten!").
  change (bstr "# Server") with (35%Z :: bstr " Server"). cbn [app].
  do 2 rewrite read_comment by (apply (bool_decide_unpack _); vm_compute; exact I).
  rewrite read_newline, read_comment by (apply (bool_decide_unpack _); vm_compute; exact I).
  fold INTERFACE. rewrite read_interface_heading.
  rewrite (read_kv (bstr "PrivateKey")) by (by_key ltac:(apply Hs)).
  rewrite (read_kv (bstr "Address")) by (by_key ltac:(apply Hs)).
  rewrite (read_kv (LISTEN_PORT)) by (by_key ltac:(apply plain_decimal)).
  rewrite (read_kv (bstr "MTU")) by (by_key ltac:(apply plain_decimal)).
  rewrite server_cb_items, hook_lines_items. fold (server_cb_of iface).
  rewrite (app_assoc (join_text _ _)), read_block, read_block_last.
  rewrite !read_items by (apply plain_items_ok; (by eapply server_cb_plain) || by apply hook_items_plain).
  destruct (sr_extra _ _ Hs) as (He & _). destruct (read_ini (trim (w_additional_config iface))) as [ex bx] eqn:Ex. cbn [snd] in He. subst bx.
  unfold server_items. rewrite Ex. unfold ini_app. cbn [fst snd add_line app]. by rewrite <- !app_assoc.
Qed.

(** *** Peers *)

Definition peer_allowed (c : Client) : bytes :=
  join_text (bstr ", ") (client_addresses disable_ipv6 c ++ match k_server_allowed_ips c with Some sai => parse_json_arr sai | None => [] end).
Definition psk (c : Client) : bytes := default [] (k_pre_shared_key c).

Record peer_rows (c : Client) : Prop := {
  pr_public : plain (k_public_key c); pr_psk : plain (psk c); pr_allowed : plain (peer_allowed c);
  pr_endpoint : forall s, k_server_endpoint c = Some s -> plain s;
}.

Definition peer_items (c : Client) : list (bytes * bytes) :=
  [(bstr "PublicKey", k_public_key c); (bstr "PresharedKey", psk c); (bstr "AllowedIPs", peer_allowed c)]
  ++ present_item (bstr "Endpoint") (k_server_endpoint c).

Lemma no_newline s : 10%Z ∉ s -> Forall (fun c => is_newline c = false) s.
Proof. intros Hs. apply Forall_forall. intros c Hc. apply bool_decide_eq_false. by intros ->. Qed.

Lemma safe_name_no_newline name : 10%Z ∉ safe_name name.
Proof. intros (c & E & _)%list_elem_of_fmap. case_decide; [done|]. subst c. tauto. Qed.

Lemma read_peer c : peer_rows c -> read_ini (generate_server_peer disable_ipv6 c) = ([], [(PEER, peer_items c)]).
Proof.
  intros Hc. unfold generate_server_peer. fold (psk c). fold (peer_allowed c).
  change (bstr "# Client: ") with (35%Z :: bstr " Client: "). unfold NL. cbn [app]. fold NL.
  set (l := bstr " Client: " ++ safe_name (k_name c) ++ bstr " (" ++ decimal (k_id c) ++ bstr ")"). fold PEER.
  match goal with |- read_ini (35%Z :: ?t) = _ => replace t with (l ++ 10%Z :: PEER ++ 10%Z :: setting (bstr "PublicKey") (k_public_key c) ++ 10%Z ::
    setting (bstr "PresharedKey") (psk c) ++ 10%Z :: setting (bstr "AllowedIPs") (peer_allowed c) ++ block_of (join_text NL (present (bstr "Endpoint") (k_server_endpoint c))))
    by (unfold l; by rewrite <- !app_assoc) end.
  rewrite read_comment.
  2: { apply no_newline. unfold l. rewrite !elem_of_app. intros [Hin|[Hin|[Hin|[Hin|Hin]]]];
         [by apply (bool_decide_pack _) in Hin; vm_compute in Hin|by apply safe_name_no_newline in Hin|by apply (bool_decide_pack _) in Hin; vm_compute in Hin
         |by apply decimal_no_newline in Hin|by apply (bool_decide_pack _) in Hin; vm_compute in Hin]. }
  rewrite read_peer_heading. rewrite (read_kv (bstr "PublicKey")) by (by_key ltac:(apply Hc)). rewrite (read_kv (bstr "PresharedKey")) by (by_key ltac:(apply Hc)).
  rewrite read_block_last, present_item_lines.
  assert (Forall item_ok (present_item (bstr "Endpoint") (k_server_endpoint c))) as He
    by (apply plain_items_ok, present_item_plain; [const_key|const_key|apply Hc]).
  rewrite read_items by done. change (setting (bstr "AllowedIPs") (peer_allowed c)) with (setting_of (bstr "AllowedIPs", peer_allowed c)).
  rewrite read_setting_last by (split; [const_key|apply Hc]). done.
Qed.

Definition peers_text (clients : list Client) : bytes := mjoin ((fun c => NL ++ NL ++ generate_server_peer disable_ipv6 c) <$> clients) ++ NL.

Lemma read_peers clients : Forall peer_rows clients ->
  exists s, peers_text clients = 10%Z :: s /\ read_ini s = ([], (fun c => (PEER, peer_items c)) <$> clients).
Proof.
  intros Hc. induction Hc as [|c clients Hc _ (s & E & Hs)]; [by exists []|].
  exists (10%Z :: generate_server_peer disable_ipv6 c ++ 10%Z :: s). split.
  - rewrite <- E. unfold peers_text. cbn [fmap list_fmap mjoin list_join]. by rewrite <- !app_assoc.
  - rewrite read_newline, read_ini_app, Hs, read_peer by done. unfold ini_app. cbn [fst snd removelast last app]. by rewrite app_nil_r.
Qed.

(** *** The whole text of the server *)

Lemma suppress_rows iface hooks : server_rows iface hooks -> server_rows (suppress_cb3_conflicts iface) hooks.
Proof.
  intros Hs. unfold suppress_cb3_conflicts. destruct (proxy_conflict _ _); [|done]. destruct Hs as [[Hh Hc] H1 H2 H3 H4 H5]. split; try done. split; [done|].
  unfold cb3_texts in *. cbn [fmap list_fmap] in *. apply Forall_cons in Hc as [_ Hc]. apply Forall_cons. split; [const_key|done].
Qed.

Lemma gen_server_rows active iface hooks : server_rows iface hooks -> server_rows (gen_server active iface) hooks.
Proof.
  intros Hs. destruct active; [|done]. apply suppress_rows. destruct Hs as [[Hh Hc] H1 H2 H3 H4 H5]. split; try done.
  cbn [w_i1 w_i2 w_i3 w_i4 w_i5 without_init]. repeat (apply Forall_cons; split; [const_key|]). by apply Forall_nil.
Qed.

Lemma gen_server_port active iface : i_port (w_row (gen_server active iface)) = i_port (w_row iface).
Proof. destruct active; [|done]. unfold gen_server, suppress_cb3_conflicts. by destruct (proxy_conflict _ _). Qed.

Definition enabled (clients : list Client) : list Client := filter (fun c => k_enabled c = true) clients.

Lemma read_server_config settings (helper : bool) iface hooks clients :
  let hooks' := if helper then mkHooks [] [] [] [] else hooks in
  server_rows iface hooks' -> Forall peer_rows (enabled clients) ->
  read_ini (render_server_config disable_ipv6 settings helper iface hooks clients)
  = ([], (INTERFACE, server_items (effective_listen_port settings (w_row iface)) (gen_server (is_active settings iface) iface) hooks')
         :: ((fun c => (PEER, peer_items c)) <$> enabled clients)).
Proof.
  intros hooks' Hs Hc. unfold render_server_config. fold hooks'. set (g := gen_server (is_active settings iface) iface).
  set (port := effective_listen_port settings (w_row iface)). fold (enabled clients). fold (peers_text (enabled clients)).
  assert (server_rows g hooks') as Hg by by apply gen_server_rows.
  assert (i_port (w_row g) = i_port (w_row iface)) as Hport by apply gen_server_port.
  fold LISTEN_PORT. change (setting LISTEN_PORT (decimal (i_port (w_row iface)))) with (port_line (i_port (w_row iface))).
  change (setting LISTEN_PORT (decimal port)) with (port_line port).
  assert ((if decide (port = i_port (w_row iface)) then generate_server_interface disable_ipv6 g hooks'
    else str_replace (port_line (i_port (w_row iface))) (port_line port) (generate_server_interface disable_ipv6 g hooks'))
    = head_text g ++ 10%Z :: port_line port ++ 10%Z :: tail_text g hooks') as ->.
  { rewrite <- Hport. case_decide as Hp; [by rewrite server_text, Hp|by apply moved_port]. }
  destruct (read_peers _ Hc) as (s & -> & Hr).
  rewrite <- !app_assoc. cbn [app]. rewrite <- !app_assoc. cbn [app].
  rewrite read_server by done. rewrite Hr. cbn [fst snd]. by rewrite app_nil_r.
Qed.

(** *** The text of a client *)

Definition dns_text (u : UserConfig) (c : Client) : bytes := join_text (bstr ", ") (list_or (k_dns c) (default_dns u)).
Definition allowed_text (u : UserConfig) (c : Client) : bytes := join_text (bstr ", ") (list_or (k_allowed_ips c) (default_allowed_ips u)).
Definition address_text (c : Client) : bytes := join_text (bstr ", ") (client_addresses disable_ipv6 c).
Definition endpoint_text (u : UserConfig) : bytes := u_host u ++ bstr ":" ++ decimal (u_port u).

Record client_rows (iface : Interface) (u : UserConfig) (c : Client) : Prop := {
  cr_private : plain (k_private_key c); cr_address : plain (address_text c); cr_dns : plain (dns_text u c); cr_allowed : plain (allowed_text u c);
  cr_hooks : forall s, Some s ∈ [k_pre_up c; k_post_up c; k_pre_down c; k_post_down c] -> plain s;
  cr_init : forall s, Some s ∈ [k_i1 c; k_i2 c; k_i3 c; k_i4 c; k_i5 c] -> plain s;
  cr_extra : extra_ok (client_extra u c);
  cr_server : plain (w_public_key iface); cr_psk : plain (psk c); cr_endpoint : plain (endpoint_text u);
}.

Definition client_hook_items (c : Client) : list (bytes * bytes) :=
  present_item (bstr "PreUp") (k_pre_up c) ++ present_item (bstr "PostUp") (k_post_up c)
  ++ present_item (bstr "PreDown") (k_pre_down c) ++ present_item (bstr "PostDown") (k_post_down c).

Definition dns_items (u : UserConfig) (c : Client) : list (bytes * bytes) :=
  if decide (list_or (k_dns c) (default_dns u) = []) then [] else [(bstr "DNS", dns_text u c)].

Definition client_cb_of (iface : Interface) (c : Client) : list (bytes * bytes) :=
  cb_items iface (default (w_j_c iface) (k_j_c c)) (default (w_j_min iface) (k_j_min c)) (default (w_j_max iface) (k_j_max c))
    (k_i1 c) (k_i2 c) (k_i3 c) (k_i4 c) (k_i5 c).

Definition client_items (iface : Interface) (u : UserConfig) (c : Client) : list (bytes * bytes) :=
  [(bstr "PrivateKey", k_private_key c); (bstr "Address", address_text c); (bstr "MTU", decimal (k_mtu c))]
  ++ dns_items u c ++ client_hook_items c ++ client_cb_of iface c ++ fst (read_ini (client_extra u c)).

Definition client_peer_items (iface : Interface) (u : UserConfig) (c : Client) : list (bytes * bytes) :=
  [(bstr "PublicKey", w_public_key iface); (bstr "PresharedKey", psk c); (bstr "AllowedIPs", allowed_text u c);
   (bstr "PersistentKeepalive", decimal (k_persistent_keepalive c)); (bstr "Endpoint", endpoint_text u)].

Lemma client_hook_lines c : client_hooks c = setting_of <$> client_hook_items c.
Proof. unfold client_hooks, client_hook_items. rewrite !present_item_lines. by rewrite !fmap_app. Qed.

Lemma read_client_config iface u c : iface_rows iface -> client_rows iface u c ->
  read_ini (generate_client_config disable_ipv6 iface u c) = ([], [(INTERFACE, client_items iface u c); (PEER, client_peer_items iface u c)]).
Proof.
  intros Hi Hc. pose proof Hc as [Hpriv Haddr Hdns Hallow _ _ _ Hserver Hpsk Hend].
  assert (Forall item_ok (client_cb_of iface c)) as Hcb by (apply plain_items_ok, cb_items_plain; [done|apply Hc]).
  assert (Forall item_ok (client_hook_items c)) as Hh.
  { apply plain_items_ok. unfold client_hook_items. rewrite !Forall_app.
    repeat match goal with |- _ /\ _ => split end; apply present_item_plain; try const_key; intros s E; apply (cr_hooks _ _ _ Hc); rewrite <- E, !elem_of_cons; tauto. }
  unfold generate_client_config. fold (address_text c). fold (dns_text u c). fold (allowed_text u c). fold (psk c). fold (endpoint_text u).
  fold INTERFACE. fold PEER. rewrite client_hook_lines, client_cb_items. fold (client_cb_of iface c).
  set (last := PEER ++ _).
  assert (read_ini last = ([], [(PEER, client_peer_items iface u c)])) as Hlast.
  { unfold last, NL. cbn [app]. rewrite read_peer_heading. rewrite (read_kv (bstr "PublicKey")) by (by_key ltac:(assumption)).
    rewrite (read_kv (bstr "PresharedKey")) by (by_key ltac:(assumption)). rewrite (read_kv (bstr "AllowedIPs")) by (by_key ltac:(assumption)).
    rewrite (read_kv (bstr "PersistentKeepalive")) by (by_key ltac:(apply plain_decimal)).
    change (setting (bstr "Endpoint") (endpoint_text u)) with (setting_of (bstr "Endpoint", endpoint_text u)).
    rewrite read_setting_last by (split; [const_key|apply Hend]). done. }
  set (mid := join_text NL (setting_of <$> client_cb_of iface c) ++ block_of (client_extra u c) ++ NL ++ last).
  assert (read_ini mid = (client_cb_of iface c ++ fst (read_ini (client_extra u c)), [(PEER, client_peer_items iface u c)])) as Hmid.
  { unfold mid. change (NL ++ last) with (10%Z :: last). rewrite read_block, read_items, Hlast by done.
    destruct (cr_extra _ _ _ Hc) as (He & _). destruct (read_ini (client_extra u c)) as [ex bx] eqn:Ex. cbn [snd] in He. subst bx.
    unfold ini_app. cbn [fst snd app]. by rewrite app_nil_r. }
  assert (read_ini ((if decide (setting_of <$> client_hook_items c = []) then [] else join_text NL (setting_of <$> client_hook_items c) ++ NL) ++ mid)
    = items_app (client_hook_items c) (read_ini mid)) as Hhook.
  { case_decide as Hn; [apply fmap_nil_inv in Hn; rewrite Hn; cbn [app]; by rewrite items_app_nil|]. rewrite <- app_assoc. unfold NL. cbn [app].
    apply read_settings; [by intros E; rewrite E in Hn|done]. }
  set (hooks := if decide (setting_of <$> client_hook_items c = []) then [] else _) in *.
  set (dns := if decide (list_or (k_dns c) (default_dns u) = []) then [] else _).
  assert (read_ini (setting (bstr "MTU") (decimal (k_mtu c)) ++ dns ++ 10%Z :: hooks ++ mid)
    = items_app ((bstr "MTU", decimal (k_mtu c)) :: dns_items u c) (items_app (client_hook_items c) (read_ini mid))) as Hmtu.
  { rewrite <- Hhook. unfold dns, dns_items. case_decide; unfold NL; cbn [app].
    - rewrite (read_kv (bstr "MTU")) by (by_key ltac:(apply plain_decimal)). by destruct (read_ini (hooks ++ mid)).
    - rewrite (read_kv (bstr "MTU")) by (by_key ltac:(apply plain_decimal)). rewrite (read_kv (bstr "DNS")) by (by_key ltac:(assumption)).
      by destruct (read_ini (hooks ++ mid)). }
  match goal with |- read_ini ?t = _ => replace t with (INTERFACE ++ 10%Z :: setting (bstr "PrivateKey") (k_private_key c) ++ 10%Z ::
    setting (bstr "Address") (address_text c) ++ 10%Z :: setting (bstr "MTU") (decimal (k_mtu c)) ++ dns ++ 10%Z :: hooks ++ mid) by done end.
  rewrite read_interface_heading, (read_kv (bstr "PrivateKey")), (read_kv (bstr "Address")), Hmtu, Hmid by (by_key ltac:(assumption)).
  unfold items_app, client_items. cbn [fst snd add_line app]. by rewrite <- ?app_assoc.
Qed.

(** ** Agreement *)

Lemma values_app k a b : values k (a ++ b) = values k a ++ values k b.
Proof. unfold values. by rewrite filter_app, fmap_app. Qed.

Lemma values_none k its : Forall (fun kv => fst kv <> k) its -> values k its = [].
Proof.
  intros Hk. unfold values. induction Hk as [|kv its Hkv _ IH]; [done|]. by rewrite filter_cons_False.
Qed.

Lemma values_keys k (ks : list bytes) its : Forall (fun kv => fst kv ∈ ks) its -> k ∉ ks -> values k its = [].
Proof. intros Hi Hk. apply values_none. eapply Forall_impl; [exact Hi|]. by intros kv Hin <-. Qed.

Lemma opt_item_keys k v (ks : list bytes) : k ∈ ks -> Forall (fun kv => fst kv ∈ ks) (opt_item k v).
Proof. intros Hk. unfold opt_item. case_decide; [done|]. by apply Forall_singleton. Qed.

Lemma present_item_keys k v (ks : list bytes) : k ∈ ks -> Forall (fun kv => fst kv ∈ ks) (present_item k v).
Proof. intros Hk. destruct v; [by apply opt_item_keys|done]. Qed.

Ltac const_in := cbn [fst]; lazymatch goal with |- _ ∈ _ => apply (bool_decide_unpack _); vm_compute; exact I end.
Ltac keys_in :=
  rewrite ?Forall_app;
  repeat lazymatch goal with |- _ /\ _ => split | |- Forall _ (_ :: _) => apply Forall_cons | |- Forall _ [] => apply Forall_nil; exact I end;
  lazymatch goal with
  | |- Forall _ (opt_item _ _) => apply opt_item_keys; const_in
  | |- Forall _ (present_item _ _) => apply present_item_keys; const_in
  | |- _ ∈ _ => const_in
  | |- _ => idtac
  end.

Lemma pos_item_keys k v (ks : list bytes) : k ∈ ks -> Forall (fun kv => fst kv ∈ ks) (pos_item k v).
Proof. intros Hk. destruct v as [v|]; [|done]. unfold pos_item. case_decide; [by apply Forall_singleton|done]. Qed.

Lemma tunnel_items_keys iface : Forall (fun kv => fst kv ∈ TUNNEL_KEYS) (shared_items iface ++ cb3_items iface).
Proof.
  unfold shared_items, cb3_items. keys_in; try (apply pos_item_keys; const_in).
  - destruct (random_trailers (w_row iface)); keys_in.
  - destruct (disable_cookies iface); keys_in.
Qed.

Definition INIT_KEYS : list bytes := bstr <$> ["I1"; "I2"; "I3"; "I4"; "I5"]%string.
Definition HOOK_KEYS : list bytes := bstr <$> ["PreUp"; "PostUp"; "PreDown"; "PostDown"]%string.

Lemma init_items_keys i1 i2 i3 i4 i5 : Forall (fun kv => fst kv ∈ INIT_KEYS) (init_items i1 i2 i3 i4 i5).
Proof. unfold init_items. keys_in. Qed.

Lemma hook_items_keys iface hooks : Forall (fun kv => fst kv ∈ HOOK_KEYS) (hook_items iface hooks).
Proof. unfold hook_items. cbn [mbind list_bind fst snd]. keys_in; case_decide; keys_in. Qed.

Lemma client_hook_items_keys c : Forall (fun kv => fst kv ∈ HOOK_KEYS) (client_hook_items c).
Proof. unfold client_hook_items. keys_in. Qed.

Lemma junk_items_keys jc jmin jmax : Forall (fun kv => fst kv ∈ bstr <$> ["Jc"; "Jmin"; "Jmax"]%string) (junk_items jc jmin jmax).
Proof. unfold junk_items. keys_in. Qed.

Lemma dns_items_keys u c : Forall (fun kv => fst kv ∈ OTHER_KEYS) (dns_items u c).
Proof. unfold dns_items. case_decide; keys_in. Qed.

Lemma tunnel_other k : k ∈ TUNNEL_KEYS -> k ∉ JUNK_KEYS /\ k ∉ OTHER_KEYS.
Proof.
  revert k. apply Forall_forall. apply (bool_decide_unpack _). vm_compute. exact I.
Qed.

Lemma junk_other k : k ∈ JUNK_KEYS -> k ∉ TUNNEL_KEYS /\ k ∉ OTHER_KEYS.
Proof.
  revert k. apply Forall_forall. apply (bool_decide_unpack _). vm_compute. exact I.
Qed.

Lemma extra_values k t : extra_ok t -> k ∈ TUNNEL_KEYS ++ JUNK_KEYS ++ OTHER_KEYS -> values k (fst (read_ini t)) = [].
Proof.
  intros (_ & _ & Hk) Hin. apply values_none. eapply Forall_impl; [exact Hk|]. intros kv Hn E. apply Hn. by rewrite E.
Qed.

Definition ALL_KEYS : list bytes := TUNNEL_KEYS ++ JUNK_KEYS ++ OTHER_KEYS.

(** Where the values of a key can come from. *)
Lemma server_values k port iface hooks : server_rows iface hooks -> k ∈ ALL_KEYS -> k ∉ HOOK_KEYS ->
  values k (server_items port iface hooks)
  = values k [(bstr "PrivateKey", w_private_key iface); (bstr "Address", address disable_ipv6 iface); (LISTEN_PORT, decimal port); (bstr "MTU", decimal (w_mtu iface))]
    ++ values k (server_cb_of iface).
Proof.
  intros Hs Hk Hh. unfold server_items. rewrite (values_app k [_; _; _; _]), (values_app k (server_cb_of _)), (values_app k (hook_items _ _)).
  rewrite (values_keys k HOOK_KEYS (hook_items _ _)) by (done || apply hook_items_keys).
  rewrite (extra_values k) by (done || apply (sr_extra _ _ Hs)). by rewrite !app_nil_r.
Qed.

Lemma client_values k iface u c : extra_ok (client_extra u c) -> k ∈ ALL_KEYS -> k ∉ HOOK_KEYS ->
  values k (client_items iface u c)
  = values k [(bstr "PrivateKey", k_private_key c); (bstr "Address", address_text c); (bstr "MTU", decimal (k_mtu c))]
    ++ values k (dns_items u c) ++ values k (client_cb_of iface c).
Proof.
  intros He Hk Hh. unfold client_items. rewrite (values_app k [_; _; _]), (values_app k (dns_items u c)), (values_app k (client_hook_items c)), (values_app k (client_cb_of _ _)).
  rewrite (values_keys k HOOK_KEYS (client_hook_items _)) by (done || apply client_hook_items_keys).
  rewrite (extra_values k) by done. by rewrite !app_nil_r.
Qed.

Lemma cb_values k iface jc jmin jmax i1 i2 i3 i4 i5 :
  values k (cb_items iface jc jmin jmax i1 i2 i3 i4 i5)
  = values k (junk_items jc jmin jmax) ++ values k (shared_items iface) ++ values k (init_items i1 i2 i3 i4 i5) ++ values k (cb3_items iface).
Proof. unfold cb_items. by rewrite !values_app. Qed.

Lemma tunnel_items_none k iface : k ∉ TUNNEL_KEYS -> values k (shared_items iface) = [] /\ values k (cb3_items iface) = [].
Proof. intros Hk. pose proof (tunnel_items_keys iface) as Hi. apply Forall_app in Hi as [H1 H2]. split; by eapply values_keys. Qed.

Lemma values_cons_ne k k' v its : k' <> k -> values k ((k', v) :: its) = values k its.
Proof. intros Hk. unfold values. by rewrite filter_cons_False. Qed.

Lemma values_cons_eq k v its : values k ((k, v) :: its) = v :: values k its.
Proof. unfold values. by rewrite filter_cons_True. Qed.

(** The tunnel's settings are those of the row, on both ends. *)
Lemma cb_tunnel_values k iface jc jmin jmax i1 i2 i3 i4 i5 : k ∈ TUNNEL_KEYS ->
  values k (cb_items iface jc jmin jmax i1 i2 i3 i4 i5) = values k (shared_items iface ++ cb3_items iface).
Proof.
  intros Hk. destruct (tunnel_other k Hk) as [Hj Ho]. rewrite cb_values, values_app.
  rewrite (values_keys k (JUNK_KEYS ++ OTHER_KEYS) (junk_items _ _ _)).
  2: { unfold junk_items. keys_in. }
  2: { rewrite elem_of_app. tauto. }
  rewrite (values_keys k INIT_KEYS (init_items _ _ _ _ _)); [done|apply init_items_keys|]. intros Hi. apply Hj. unfold JUNK_KEYS. by right.
Qed.

Lemma hooks_other k : k ∉ OTHER_KEYS -> k ∉ HOOK_KEYS.
Proof. intros Ho Hh. apply Ho. revert k Ho Hh. assert (HOOK_KEYS ⊆ OTHER_KEYS) as Hsub; [|intros k _; apply Hsub]. apply (bool_decide_unpack _). vm_compute. exact I. Qed.

Lemma server_tunnel_values k port iface hooks : server_rows iface hooks -> k ∈ TUNNEL_KEYS ->
  values k (server_items port iface hooks) = values k (shared_items iface ++ cb3_items iface).
Proof.
  intros Hs Hk. destruct (tunnel_other k Hk) as [Hj Ho]. rewrite server_values by (done || by apply hooks_other || (unfold ALL_KEYS; rewrite !elem_of_app; tauto)).
  rewrite (values_keys k OTHER_KEYS [_; _; _; _]) by (done || keys_in). by apply cb_tunnel_values.
Qed.

Lemma client_tunnel_values k iface u c : extra_ok (client_extra u c) -> k ∈ TUNNEL_KEYS ->
  values k (client_items iface u c) = values k (shared_items iface ++ cb3_items iface).
Proof.
  intros He Hk. destruct (tunnel_other k Hk) as [Hj Ho]. rewrite client_values by (done || by apply hooks_other || (unfold ALL_KEYS; rewrite !elem_of_app; tauto)).
  rewrite (values_keys k OTHER_KEYS [_; _; _]) by (done || keys_in). rewrite (values_keys k OTHER_KEYS (dns_items _ _)) by (done || apply dns_items_keys).
  by apply cb_tunnel_values.
Qed.

Lemma gen_tunnel_items active iface :
  shared_items (gen_client_iface active iface) ++ cb3_items (gen_client_iface active iface) = shared_items (gen_server active iface) ++ cb3_items (gen_server active iface).
Proof. destruct active; [|done]. unfold gen_client_iface, gen_server, suppress_cb3_conflicts. cbn [w_row without_init without_jc]. by destruct (proxy_conflict _ _). Qed.

(** *** The client's row as it is rendered *)

Lemma gen_client_rows active iface u c : client_rows iface u c -> client_rows (gen_client_iface active iface) u (gen_client active c).
Proof.
  intros Hc. assert (forall f : Interface, w_public_key f = w_public_key iface -> client_rows f u (gen_client active c)) as Hall.
  { intros f Hf. destruct Hc as [H1 H2 H3 H4 H5 H6 H7 H8 H9 H10].
    destruct active; [|by split; rewrite ?Hf]. split; rewrite ?Hf; try done.
    intros s Hin. rewrite !elem_of_cons, elem_of_nil in Hin. by destruct Hin as [?|[?|[?|[?|[?|[]]]]]]. }
  apply Hall. destruct active; [|done]. unfold gen_client_iface, suppress_cb3_conflicts. by destruct (proxy_conflict _ _).
Qed.

Lemma gen_client_iface_rows active iface : iface_rows iface -> iface_rows (gen_client_iface active iface).
Proof.
  intros Hi. destruct active; [|done]. unfold gen_client_iface, suppress_cb3_conflicts. destruct (proxy_conflict _ _); [|by destruct Hi].
  destruct Hi as [Hh Hc]. split; [done|]. unfold cb3_texts in *. cbn [fmap list_fmap] in *. apply Forall_cons in Hc as [_ Hc].
  apply Forall_cons. split; [const_key|done].
Qed.

(** A conflict with the proxy clears both settings. *)
Lemma active_cb3 iface k : k = bstr "HeaderProtectionKey" \/ k = bstr "RandomTrailers" ->
  values k (shared_items (gen_server true iface) ++ cb3_items (gen_server true iface)) = [].
Proof.
  intros Hk. assert (trim (header_protection_key (w_row (gen_server true iface))) = [] /\ random_trailers (w_row (gen_server true iface)) = false) as [H1 H2].
  { unfold gen_server, suppress_cb3_conflicts. cbn [w_row without_init without_jc].
    destruct (proxy_conflict _ _) eqn:E; [by split|]. unfold proxy_conflict in E. cbn [w_row without_init without_jc].
    case_bool_decide as Ht; [cbn [negb] in E|done]. by destruct (random_trailers (w_row iface)). }
  apply (values_keys _ (filter (fun k => k <> bstr "HeaderProtectionKey" /\ k <> bstr "RandomTrailers") TUNNEL_KEYS)).
  - unfold shared_items, cb3_items. rewrite H1, H2. unfold opt_item at 5. rewrite decide_True by done.
    keys_in; try (apply pos_item_keys; const_in). destruct (disable_cookies _); keys_in.
  - rewrite list_elem_of_filter. intros [[? ?] _]. by destruct Hk.
Qed.

(** *** Single keys *)

Ltac other_key := first [const_in | (apply (bool_decide_unpack _); vm_compute; exact I)].

Lemma listen_values port iface hooks : server_rows iface hooks -> values LISTEN_PORT (server_items port iface hooks) = [decimal port].
Proof.
  intros Hs. rewrite server_values by (done || other_key).
  do 2 rewrite values_cons_ne by other_key. rewrite values_cons_eq, values_cons_ne by other_key.
  unfold server_cb_of. rewrite cb_values. destruct (tunnel_items_none LISTEN_PORT iface) as [-> ->]; [other_key|].
  rewrite (values_keys _ _ (junk_items _ _ _) (junk_items_keys _ _ _)) by other_key.
  by rewrite (values_keys _ _ (init_items _ _ _ _ _) (init_items_keys _ _ _ _ _)) by other_key.
Qed.

Lemma cb_jc iface jc jmin jmax i1 i2 i3 i4 i5 : values (bstr "Jc") (cb_items iface jc jmin jmax i1 i2 i3 i4 i5) = [decimal jc].
Proof.
  rewrite cb_values. destruct (tunnel_items_none (bstr "Jc") iface) as [-> ->]; [other_key|].
  rewrite (values_keys _ _ (init_items _ _ _ _ _) (init_items_keys _ _ _ _ _)) by other_key.
  unfold junk_items. rewrite values_cons_eq. do 2 rewrite values_cons_ne by other_key. done.
Qed.

Lemma init_other k : k ∈ INIT_KEYS -> k ∉ TUNNEL_KEYS /\ k ∉ OTHER_KEYS /\ k ∈ ALL_KEYS /\ k ∉ bstr <$> ["Jc"; "Jmin"; "Jmax"]%string.
Proof. revert k. apply Forall_forall. apply (bool_decide_unpack _). vm_compute. exact I. Qed.

Lemma cb_init k iface jc jmin jmax i1 i2 i3 i4 i5 : k ∈ INIT_KEYS -> init_items i1 i2 i3 i4 i5 = [] ->
  values k (cb_items iface jc jmin jmax i1 i2 i3 i4 i5) = [].
Proof.
  intros Hk Hi. destruct (init_other k Hk) as (Ht & _ & _ & Hj). rewrite cb_values, Hi. destruct (tunnel_items_none k iface Ht) as [-> ->].
  by rewrite (values_keys _ _ (junk_items _ _ _) (junk_items_keys _ _ _)) by done.
Qed.

Lemma active_server iface : w_j_c (gen_server true iface) = 0%Z /\ w_i1 (gen_server true iface) = [] /\ w_i2 (gen_server true iface) = []
  /\ w_i3 (gen_server true iface) = [] /\ w_i4 (gen_server true iface) = [] /\ w_i5 (gen_server true iface) = [].
Proof. unfold gen_server, suppress_cb3_conflicts. by destruct (proxy_conflict _ _). Qed.

Lemma server_junk active port iface hooks : server_rows (gen_server active iface) hooks -> active = true ->
  values (bstr "Jc") (server_items port (gen_server active iface) hooks) = [bstr "0"].
Proof.
  intros Hs ->. rewrite server_values by (done || other_key). do 4 rewrite values_cons_ne by other_key. unfold server_cb_of. rewrite cb_jc.
  destruct (active_server iface) as [-> _]. by vm_compute.
Qed.

Lemma client_junk active iface u c : extra_ok (client_extra u (gen_client active c)) -> active = true ->
  values (bstr "Jc") (client_items (gen_client_iface active iface) u (gen_client active c)) = [bstr "0"].
Proof.
  intros He ->. rewrite client_values by (done || other_key). do 3 rewrite values_cons_ne by other_key.
  rewrite (values_keys _ _ (dns_items _ _) (dns_items_keys _ _)) by other_key. unfold client_cb_of. rewrite cb_jc. by vm_compute.
Qed.

Lemma server_init k active port iface hooks : server_rows (gen_server active iface) hooks -> active = true -> k ∈ INIT_KEYS ->
  values k (server_items port (gen_server active iface) hooks) = [].
Proof.
  intros Hs -> Hk. destruct (init_other k Hk) as (_ & Ho & Ha & _). rewrite server_values by (done || by apply hooks_other).
  rewrite (values_keys k OTHER_KEYS [_; _; _; _]) by (done || keys_in). apply cb_init; [done|].
  destruct (active_server iface) as (_ & -> & -> & -> & -> & ->). done.
Qed.

Lemma client_init k active iface u c : extra_ok (client_extra u (gen_client active c)) -> active = true -> k ∈ INIT_KEYS ->
  values k (client_items (gen_client_iface active iface) u (gen_client active c)) = [].
Proof.
  intros He -> Hk. destruct (init_other k Hk) as (_ & Ho & Ha & _). rewrite client_values by (done || by apply hooks_other).
  rewrite (values_keys k OTHER_KEYS [_; _; _]) by (done || keys_in). rewrite (values_keys k OTHER_KEYS (dns_items _ _)) by (done || apply dns_items_keys).
  by apply cb_init.
Qed.

Lemma peer_values c : values (bstr "PublicKey") (peer_items c) = [k_public_key c] /\ values (bstr "PresharedKey") (peer_items c) = [psk c]
  /\ values (bstr "AllowedIPs") (peer_items c) = [peer_allowed c].
Proof.
  unfold peer_items. rewrite !values_app.
  assert (Forall (fun kv => fst kv ∈ [bstr "Endpoint"]) (present_item (bstr "Endpoint") (k_server_endpoint c))) as He by keys_in.
  split; [|split]; rewrite (values_keys _ _ _ He) by other_key; repeat (rewrite values_cons_eq || rewrite values_cons_ne by other_key); done.
Qed.

Lemma client_peer_values iface u c : values (bstr "PublicKey") (client_peer_items iface u c) = [w_public_key iface]
  /\ values (bstr "PresharedKey") (client_peer_items iface u c) = [psk c] /\ values (bstr "Endpoint") (client_peer_items iface u c) = [endpoint_text u].
Proof.
  unfold client_peer_items. split; [|split]; repeat (rewrite values_cons_eq || rewrite values_cons_ne by other_key); done.
Qed.

Lemma client_address iface u c : extra_ok (client_extra u c) -> values (bstr "Address") (client_items iface u c) = [address_text c].
Proof.
  intros He. rewrite client_values by (done || other_key). rewrite values_cons_ne by other_key. rewrite values_cons_eq, values_cons_ne by other_key.
  assert (Forall (fun kv => fst kv ∈ [bstr "DNS"]) (dns_items u c)) as Hd by (unfold dns_items; case_decide; keys_in).
  rewrite (values_keys _ _ _ Hd) by other_key. unfold client_cb_of. rewrite cb_values. destruct (tunnel_items_none (bstr "Address") iface) as [-> ->]; [other_key|].
  rewrite (values_keys _ _ (junk_items _ _ _) (junk_items_keys _ _ _)) by other_key.
  by rewrite (values_keys _ _ (init_items _ _ _ _ _) (init_items_keys _ _ _ _ _)) by other_key.
Qed.

(** *** The settings of the rows

    What each end should read, from the rows as they are stored; [active] when the
    proxy fronts the port. *)

Definition cb3_settings (active : bool) (iface : Interface) : list (bytes * bytes) :=
  (if active then [] else opt_item (bstr "HeaderProtectionKey") (trim (header_protection_key (w_row iface))))
  ++ opt_item (bstr "ContentPaddingAddition") (trim (content_padding_addition iface)) ++ opt_item (bstr "RekeyAfterTime") (trim (rekey_after_time iface))
  ++ opt_item (bstr "RekeyTimeout") (trim (rekey_timeout iface)) ++ opt_item (bstr "RejectAfterTime") (trim (reject_after_time iface))
  ++ opt_item (bstr "KeepaliveTimeout") (trim (keepalive_timeout iface)) ++ opt_item (bstr "MaxHandshakeAttempts") (trim (max_handshake_attempts iface))
  ++ (if negb active && random_trailers (w_row iface) then [(bstr "RandomTrailers", bstr "on")] else [])
  ++ (if disable_cookies iface then [(bstr "DisableCookies", bstr "on")] else []).

Definition cb_settings (active : bool) (iface : Interface) (jc jmin jmax : Z) (inits : list (bytes * bytes)) : list (bytes * bytes) :=
  [(bstr "Jc", decimal (if active then 0 else jc)%Z); (bstr "Jmin", decimal jmin); (bstr "Jmax", decimal jmax)]
  ++ shared_items iface ++ (if active then [] else inits) ++ cb3_settings active iface.

Definition server_settings (active : bool) (port : Z) (iface : Interface) (hooks : Hooks) : list (bytes * bytes) :=
  [(bstr "PrivateKey", w_private_key iface);
   (bstr "Address", server_ip (w_ipv4_cidr iface) ++ (if disable_ipv6 then [] else bstr ", " ++ server_ip (w_ipv6_cidr iface)));
   (bstr "ListenPort", decimal port); (bstr "MTU", decimal (w_mtu iface))]
  ++ cb_settings active iface (w_j_c iface) (w_j_min iface) (w_j_max iface)
       (opt_item (bstr "I1") (w_i1 iface) ++ opt_item (bstr "I2") (w_i2 iface) ++ opt_item (bstr "I3") (w_i3 iface)
        ++ opt_item (bstr "I4") (w_i4 iface) ++ opt_item (bstr "I5") (w_i5 iface))
  ++ hook_items iface hooks ++ fst (read_ini (trim (w_additional_config iface))).

(** A client's addresses, and a list that is its own or else the default. *)
Definition addresses (c : Client) : list bytes :=
  (default (bstr "0.0.0.0") (k_ipv4_address c) ++ bstr "/32") :: (if disable_ipv6 then [] else [default (bstr "::") (k_ipv6_address c) ++ bstr "/128"]).
Definition own_list (own : option bytes) (fallback : bytes) : list bytes :=
  default [] (json_strings (match own with Some s => if decide (s = []) then fallback else s | None => fallback end)).
Definition own_extra (u : UserConfig) (c : Client) : bytes :=
  let own := trim (default [] (k_additional_config c)) in if decide (own = []) then trim (default_additional_config u) else own.

Definition server_peer_settings (c : Client) : list (bytes * bytes) :=
  [(bstr "PublicKey", k_public_key c); (bstr "PresharedKey", default [] (k_pre_shared_key c));
   (bstr "AllowedIPs", join_text (bstr ", ") (addresses c ++ match k_server_allowed_ips c with Some l => default [] (json_strings l) | None => [] end))]
  ++ present_item (bstr "Endpoint") (k_server_endpoint c).

Definition client_settings (active : bool) (iface : Interface) (u : UserConfig) (c : Client) (pk : option bytes) : list (bytes * bytes) :=
  [(bstr "PrivateKey", default (k_private_key c) pk); (bstr "Address", join_text (bstr ", ") (addresses c)); (bstr "MTU", decimal (k_mtu c))]
  ++ (if decide (own_list (k_dns c) (default_dns u) = []) then [] else [(bstr "DNS", join_text (bstr ", ") (own_list (k_dns c) (default_dns u)))])
  ++ present_item (bstr "PreUp") (k_pre_up c) ++ present_item (bstr "PostUp") (k_post_up c)
  ++ present_item (bstr "PreDown") (k_pre_down c) ++ present_item (bstr "PostDown") (k_post_down c)
  ++ cb_settings active iface (default (w_j_c iface) (k_j_c c)) (default (w_j_min iface) (k_j_min c)) (default (w_j_max iface) (k_j_max c))
       (init_items (k_i1 c) (k_i2 c) (k_i3 c) (k_i4 c) (k_i5 c))
  ++ fst (read_ini (own_extra u c)).

Definition client_peer_of (iface : Interface) (u : UserConfig) (c : Client) : list (bytes * bytes) :=
  [(bstr "PublicKey", w_public_key iface); (bstr "PresharedKey", default [] (k_pre_shared_key c));
   (bstr "AllowedIPs", join_text (bstr ", ") (own_list (k_allowed_ips c) (default_allowed_ips u)));
   (bstr "PersistentKeepalive", decimal (k_persistent_keepalive c)); (bstr "Endpoint", u_host u ++ bstr ":" ++ decimal (u_port u))].

Lemma no_conflict row : proxy_conflict (header_protection_key row) (random_trailers row) = None ->
  trim (header_protection_key row) = [] /\ random_trailers row = false.
Proof.
  unfold proxy_conflict. case_bool_decide; cbn [negb]; [|done]. by destruct (random_trailers row).
Qed.

(** The rows that are rendered hold the settings of the rows that are stored. *)
Lemma server_cb_settings active port iface hooks :
  server_items port (gen_server active iface) hooks = server_settings active port iface hooks.
Proof.
  unfold server_items, server_settings, server_cb_of, cb_items, cb_settings, init_items, address. destruct active; [|by destruct disable_ipv6; rewrite ?app_nil_r, <- ?app_assoc].
  unfold gen_server, suppress_cb3_conflicts. destruct (proxy_conflict _ _) eqn:E; [by destruct disable_ipv6; rewrite ?app_nil_r, <- ?app_assoc|].
  apply no_conflict in E as [E1 E2]. cbn [w_row without_init without_jc] in E1, E2. unfold cb3_items, cb3_settings.
  cbn [w_row without_init without_jc]. rewrite E1, E2. by destruct disable_ipv6; rewrite ?app_nil_r, <- ?app_assoc.
Qed.

Lemma own_list_or own fallback : list_or own fallback = own_list own fallback.
Proof. unfold list_or, own_list, parse_json_arr. destruct own as [s|]; [|done]. by case_decide. Qed.

Lemma client_extra_own u c : client_extra u c = own_extra u c.
Proof. unfold client_extra, own_extra. by destruct (k_additional_config c). Qed.

Lemma client_cb_settings active iface u c pk :
  client_items (gen_client_iface active iface) u (gen_client active (with_private_key pk c)) = client_settings active iface u c pk.
Proof.
  unfold client_items, client_settings, client_cb_of, cb_items, cb_settings, dns_items, dns_text, client_hook_items.
  rewrite own_list_or, client_extra_own. destruct active; [|by destruct pk; rewrite <- ?app_assoc].
  unfold gen_client_iface, suppress_cb3_conflicts. destruct (proxy_conflict _ _) eqn:E; [by destruct pk; rewrite <- ?app_assoc|].
  apply no_conflict in E as [E1 E2]. cbn [w_row without_jc] in E1, E2. unfold cb3_items, cb3_settings.
  cbn [w_row without_jc]. rewrite E1, E2. by destruct pk; rewrite <- ?app_assoc.
Qed.

Lemma client_peer_settings active iface u c pk :
  client_peer_items (gen_client_iface active iface) u (gen_client active (with_private_key pk c)) = client_peer_of iface u c.
Proof.
  unfold client_peer_items, client_peer_of, allowed_text. rewrite own_list_or. destruct active; [|by destruct pk].
  unfold gen_client_iface, suppress_cb3_conflicts. by destruct (proxy_conflict _ _), pk.
Qed.

(** *** The theorem *)

End rows.

(** ** A tunnel *)

#[local] Instance sample_library : Library := {| json_strings s := Some [s]; unicode_alphanumeric _ := false |}.

Definition sample_row : IfaceRow := mkIfaceRow (bstr "cb0") 51820 true false false [] false [] false.
Definition sample_interface : Interface :=
  mkInterface sample_row (bstr "eth0") (bstr "SRVPRIV=") (bstr "SRVPUB=") (bstr "10.8.0.0/24") (bstr "fdcc::/112") 1420
    7 10 1000 128 56 (Some 20%Z) None (bstr "5-100") (bstr "200-300") (bstr "400-500") (bstr "600-700")
    (bstr "<r 2>") [] [] [] [] (bstr " 10-20") [] [] [] [] [] true (bstr "FwMark = 7").
Definition sample_hooks : Hooks := mkHooks [] (bstr "echo {{port}} {{device}}") [] [].
Definition sample_user : UserConfig := mkUserConfig (bstr "1.1.1.1") (bstr "0.0.0.0/0") [] (bstr "vpn.example.org") 51820.
Definition sample_client : Client :=
  mkClient 3 (bstr "phone" ++ [10%Z] ++ bstr "PostUp = id") (Some (bstr "10.8.0.2")) (Some (bstr "fdcc::2")) (bstr "CPRIV=") (bstr "CPUB=") (Some (bstr "PSK="))
    None None None None None None 25 1400 None None None (Some (bstr "<t>")) None None None None None None None true.
Definition sample_settings : ProxySettings := mkProxySettings true (bstr "dns") false [] 0.

Lemma sample_rows : server_rows false sample_interface sample_hooks /\ Forall (peer_rows false) (enabled [sample_client])
  /\ client_rows false sample_interface sample_user (with_private_key None sample_client).
Proof.
  split; [|split].
  - split; [split; apply (bool_decide_unpack _); vm_compute; exact I|apply (bool_decide_unpack _); vm_compute; exact I..|].
    split; [by vm_compute|]. split; [by vm_compute|]. apply (bool_decide_unpack _); vm_compute; exact I.
  - apply Forall_singleton. split; [apply (bool_decide_unpack _); vm_compute; exact I..|done].
  - split; try (apply (bool_decide_unpack _); vm_compute; exact I).
    + intros s Hs. rewrite !elem_of_cons, elem_of_nil in Hs. by destruct Hs as [?|[?|[?|[?|[]]]]].
    + intros s Hs. rewrite !elem_of_cons, elem_of_nil in Hs.
      destruct Hs as [[= ->]|[?|[?|[?|[?|[]]]]]]; [apply (bool_decide_unpack _); vm_compute; exact I|done..].
Qed.


(** What is written, as it is. *)
Example sample_text : values (bstr "PostUp") (fst (read_ini (bstr "PostUp = a # b"))) = [bstr "a"]
  /\ length (snd (read_ini (render_server_config false (Some sample_settings) false sample_interface sample_hooks [sample_client]))) = 2.
Proof. by vm_compute. Qed.
