(* ===== verification/PrivHelper.v ===== *)
(** * The privileged helper ([src/src/privhelper.rs])

    The root process behind the socket: which commands a request runs and what it
    writes.  Commands are an interface: each takes an argument vector and an input,
    and gives its output if it succeeds. *)
From S2P Require Import Prelude Text ProxyParams NetAddr Cidr WgConfig.

(** How writing the configuration file ends: it is not opened; it was emptied and
    the write stops after some bytes; its mode is not set; or all is done. *)
Inductive WriteEnd : Set := NotOpened | Short (n : nat) | NoMode | Written.
#[export] Instance WriteEnd_eq_dec : EqDecision WriteEnd.
Proof. solve_decision. Defined.

(** A command; and how a write ends. *)
Class Host (W : Type) : Type := {
  exec : list bytes -> bytes -> W -> option bytes * W;
  write_end : W -> WriteEnd;
}.

(** ** Requests *)

Record FirewallParams : Set := mkFirewallParams { f_ipv4_cidr : bytes; f_ipv6_cidr : bytes; f_port : Z }.

Inductive Request : Set :=
  | WgUp | WgDown | WgSync (config : bytes) (firewall : option FirewallParams) | WgShow | NftApply (ruleset : bytes) | NftList | Ping.

(** [Err] is the generic refusal: the detail goes to the helper's log. *)
Definition Response : Type := result unit bytes.

Record HelperConfig : Set := mkHelperConfig { interface : bytes }.

(** The state: the file of the interface, what was run, and the rest of the host. *)
Record Helper (W : Type) : Type := mkHelper { file : option bytes; log : list (list bytes * bytes); host : W }.
Arguments mkHelper {W}.
Arguments file {W}.
Arguments log {W}.
Arguments host {W}.

(** ** Hooks *)

Definition QUOTE : bytes := [34%Z].
Definition POST_UP_TEMPLATE : bytes :=
  bstr "nft add table inet coffeeblack;"
  ++ bstr " nft 'add chain inet coffeeblack forward { type filter hook forward priority filter; policy accept; }';"
  ++ bstr " nft 'add chain inet coffeeblack nat-postrouting { type nat hook postrouting priority srcnat; }';"
  ++ bstr " nft 'add chain inet coffeeblack filter-input { type filter hook input priority filter; policy accept; }';"
  ++ bstr " nft 'add chain inet coffeeblack wg-clients';"
  ++ bstr " nft add rule inet coffeeblack nat-postrouting ip saddr {{ipv4Cidr}} oifname " ++ QUOTE ++ bstr "{{device}}" ++ QUOTE ++ bstr " masquerade;"
  ++ bstr " nft add rule inet coffeeblack nat-postrouting ip6 saddr {{ipv6Cidr}} oifname " ++ QUOTE ++ bstr "{{device}}" ++ QUOTE ++ bstr " masquerade;"
  ++ bstr " nft add rule inet coffeeblack filter-input udp dport {{port}} accept;".
Definition POST_DOWN_TEMPLATE : bytes := bstr "nft delete table inet coffeeblack 2>/dev/null || true".

Definition validate (f : FirewallParams) : bool :=
  bool_decide (is_Some (parse_net (f_ipv4_cidr f))) && bool_decide (is_Some (parse_net (f_ipv6_cidr f))).

Definition subst (f : FirewallParams) (device t : bytes) : bytes :=
  str_replace (bstr "{{ipv6Cidr}}") (f_ipv6_cidr f)
    (str_replace (bstr "{{ipv4Cidr}}") (f_ipv4_cidr f)
      (str_replace (bstr "{{port}}") (decimal (f_port f)) (str_replace (bstr "{{device}}") device t))).

Definition render (f : FirewallParams) (device : bytes) : option bytes :=
  if validate f then
    Some (NL ++ bstr "PostUp = " ++ subst f device POST_UP_TEMPLATE ++ NL ++ bstr "PostDown = " ++ subst f device POST_DOWN_TEMPLATE)
  else None.

Definition HOOK_DIRECTIVES : list bytes := bstr <$> ["preup"; "postup"; "predown"; "postdown"]%string.

(** Whether a line is refused. *)
Definition hook_line (line : bytes) : bool :=
  let line := trim_start line in
  if bool_decide (head line = Some 35%Z) then false else
  match split_once 61 line with
  | None => false
  | Some (key, _) => bool_decide (to_ascii_lower <$> trim key ∈ HOOK_DIRECTIVES)
  end.

Definition reject_hook_directives (config : bytes) : bool := negb (existsb hook_line (lines config)).

(** ** Operations *)

Section helper.
Context {W : Type} `{Host W} (cfg : HelperConfig).

Definition run_with_stdin (argv : list bytes) (input : bytes) (h : Helper W) : option bytes * Helper W :=
  let '(out, w) := exec argv input (host h) in
  (trim <$> out, mkHelper (file h) (log h ++ [(argv, input)]) w).
Definition run (argv : list bytes) (h : Helper W) : option bytes * Helper W := run_with_stdin argv [] h.

Definition argv_up : list bytes := [bstr "awg-quick"; bstr "up"; interface cfg].
Definition argv_down : list bytes := [bstr "awg-quick"; bstr "down"; interface cfg].
Definition argv_dump : list bytes := [bstr "awg"; bstr "show"; interface cfg; bstr "dump"].
Definition argv_show : list bytes := [bstr "awg"; bstr "show"; interface cfg].
Definition argv_strip : list bytes := [bstr "awg-quick"; bstr "strip"; interface cfg].
Definition argv_sync : list bytes := [bstr "awg"; bstr "syncconf"; interface cfg; bstr "/dev/stdin"].
Definition argv_nft_check : list bytes := [bstr "nft"; bstr "-c"; bstr "-f"; bstr "/dev/stdin"].
Definition argv_nft : list bytes := [bstr "nft"; bstr "-f"; bstr "/dev/stdin"].
Definition argv_list : list bytes := [bstr "nft"; bstr "list"; bstr "table"; bstr "inet"; bstr "coffeeblack-vpn"].

Definition wg_sync (config : bytes) (firewall : option FirewallParams) (h : Helper W) : Response * Helper W :=
  if negb (reject_hook_directives config) then (Err tt, h) else
  match (match firewall with Some fw => render fw (interface cfg) | None => Some [] end) with
  | None => (Err tt, h)
  | Some owned =>
      let text := config ++ owned in
      let wrote := write_end (host h) in
      let h :=
        match wrote with
        | NotOpened => h
        | Short n => mkHelper (Some (take n text)) (log h) (host h)
        | NoMode | Written => mkHelper (Some text) (log h) (host h)
        end in
      if decide (wrote <> Written) then (Err tt, h) else
      let '(shown, h) := run argv_show h in
      match shown with
      | None => (Ok [], h)
      | Some _ =>
          let '(stripped, h) := run argv_strip h in
          match stripped with
          | None => (Err tt, h)
          | Some stripped =>
              let '(out, h) := run_with_stdin argv_sync stripped h in
              (match out with Some _ => Ok [] | None => Err tt end, h)
          end
      end
  end.

Definition nft_apply (ruleset : bytes) (h : Helper W) : Response * Helper W :=
  let '(checked, h) := run_with_stdin argv_nft_check ruleset h in
  match checked with
  | None => (Err tt, h)
  | Some _ => let '(out, h) := run_with_stdin argv_nft ruleset h in (match out with Some _ => Ok [] | None => Err tt end, h)
  end.

(** The output is kept for the operations that show something. *)
Definition respond (keep : bool) (r : option bytes * Helper W) : Response * Helper W :=
  (match fst r with Some out => Ok (if keep then out else []) | None => Err tt end, snd r).

Definition dispatch (req : Request) (h : Helper W) : Response * Helper W :=
  match req with
  | Ping => (Ok (bstr "pong"), h)
  | WgUp => respond false (run argv_up h)
  | WgDown => respond false (run argv_down h)
  | WgShow => respond true (run argv_dump h)
  | WgSync config firewall => wg_sync config firewall h
  | NftApply ruleset => nft_apply ruleset h
  | NftList => respond true (run argv_list h)
  end.

(** One connection: a line of at most [MAX_REQUEST_BYTES]; the JSON reader is third-party. *)
Definition MAX_REQUEST_BYTES : Z := 1024 * 1024.

Fixpoint take_line (limit : Z) (s : bytes) : bytes :=
  match s with
  | [] => []
  | c :: s => if decide (limit <= 0)%Z then [] else if decide (c = 10%Z) then [c] else c :: take_line (limit - 1) s
  end.

(** A line that is no UTF-8 ends the connection without an answer. *)
Definition answer_line (json_request : bytes -> option Request) (line : bytes) (h : Helper W) : option (Response * Helper W) :=
  if utf8_valid line then
    Some (match json_request (trim line) with Some req => dispatch req h | None => (Err tt, h) end)
  else None.

Definition handle_connection (json_request : bytes -> option Request) (input : bytes) (h : Helper W) : option (Response * Helper W) :=
  answer_line json_request (take_line MAX_REQUEST_BYTES input) h.

Fixpoint serve (json_request : bytes -> option Request) (inputs : list bytes) (h : Helper W) : Helper W :=
  match inputs with
  | [] => h
  | input :: inputs =>
      serve json_request inputs (match handle_connection json_request input h with Some (_, h) => h | None => h end)
  end.
End helper.

Example hook_lines_refused :
  (reject_hook_directives <$> [bstr "[Interface]" ++ NL ++ bstr "PostUp = id"; bstr "  preup=/bin/sh"; bstr "PostDown" ++ [9%Z] ++ bstr "=" ++ [9%Z] ++ bstr "id"])
  = [false; false; false]
  /\ reject_hook_directives (bstr "MTU = 1420" ++ NL ++ bstr "# PostUp = id" ++ NL ++ bstr "Jc = 4") = true.
Proof. by vm_compute. Qed.
