(* ===== verification/PrivHelperProps.v ===== *)
(** * What the helper lets a caller do

    [awg-quick]'s reading of a configuration, and that whatever is sent to the
    helper, the commands of the hooks in its file are its own, but for a line that
    is only the name of a hook. *)
From S2P Require Import Prelude Text ProxyParams NetAddr Cidr WgConfig WgIni WgConfigProps PrivHelper.

(** ** The hooks that [awg-quick] runs *)

Definition QUICK_HOOKS : list bytes := bstr <$> ["preup"; "postup"; "predown"; "postdown"]%string.

(** A line without its comment; the key before the first sign, the value after it, or
    the whole line for both; the case of the key does not matter. *)
Definition quick_line (l : bytes) : option (bytes * bytes) :=
  let l := uncomment l in
  let '(k, v) := match split_once 61 l with Some kv => kv | None => (l, l) end in
  if decide (to_ascii_lower <$> strip k ∈ QUICK_HOOKS) then Some (strip k, strip v) else None.

(** [read] of bash drops zero bytes. *)
Definition quick_hooks (text : bytes) : list (bytes * bytes) :=
  omap quick_line (split_on is_newline (filter (fun c => c <> 0%Z) text)).

(** ** Trimming by both rules *)

Definition spaces (s : bytes) : Prop := Forall (fun c => is_space c = true) s.

Lemma space_cases c : is_space c = true -> c ∈ [9; 10; 11; 12; 13; 32]%Z.
Proof.
  intros Hc%bool_decide_eq_true. rewrite !elem_of_cons, elem_of_nil. lia.
Qed.

Lemma first_match_blank c s : is_space c = true ->
  first_match WHITE_SPACE (c :: s) = Some s /\ first_match (reverse <$> WHITE_SPACE) (c :: s) = Some s.
Proof.
  intros Hc%space_cases. rewrite !elem_of_cons, elem_of_nil in Hc.
  destruct Hc as [->|[->|[->|[->|[->|[->|[]]]]]]]; split; destruct s; reflexivity.
Qed.

Lemma trim_go_spaces ws sp t : (forall c s, is_space c = true -> first_match ws (c :: s) = Some s) -> spaces sp ->
  forall n, trim_go (length sp + n) ws (sp ++ t) = trim_go n ws t.
Proof.
  intros Hw Hsp n. induction Hsp as [|c sp Hc _ IH]; [done|]. cbn [length Nat.add app trim_go]. by rewrite Hw.
Qed.

Lemma key_char_graph c : key_char c -> graph c.
Proof. unfold key_char, graph. lia. Qed.

Lemma trim_start_spaces sp k r : spaces sp -> key_ok k -> trim_start (sp ++ k ++ r) = k ++ r.
Proof.
  intros Hsp [Hne Hk]. unfold trim_start. rewrite length_app, trim_go_spaces; [|by intros; apply first_match_blank|done].
  apply trim_go_id; [apply white_space_bytes| |by destruct k]. intros c E. destruct k as [|d k]; [done|]. cbn in E. injection E as <-.
  apply Forall_cons in Hk as [Hd _]. by apply key_char_graph.
Qed.

Lemma trim_key k sp : spaces sp -> key_ok k -> trim (k ++ sp) = k.
Proof.
  intros Hsp Hk. unfold trim. pose proof (trim_start_spaces [] k sp ltac:(by apply Forall_nil) Hk) as Hs. cbn [app] in Hs. rewrite Hs. unfold trim_end.
  rewrite reverse_app, length_app. destruct Hk as [Hne Hk]. rewrite (Nat.add_comm (length k)), <- (length_reverse sp).
  rewrite trim_go_spaces; [|by intros; apply first_match_blank|by apply Forall_reverse].
  rewrite trim_go_id; [apply reverse_involutive|apply white_space_bytes| |].
  - intros c E. apply key_char_graph. assert (c ∈ reverse k) as Hin by (destruct (reverse k) as [|d r]; [by cbn in E|injection E as ->; by left]).
    rewrite Forall_forall in Hk. apply Hk. by rewrite elem_of_reverse in Hin.
  - intros E. apply Hne. by rewrite <- (reverse_involutive k), E.
Qed.

Lemma strip_split s : exists sp sp', s = sp ++ strip s ++ sp' /\ spaces sp /\ spaces sp'.
Proof.
  destruct (skip_space_split s) as (sp & E & Hsp & _). destruct (skip_space_split (reverse (skip_space s))) as (sp' & E' & Hsp' & _).
  exists sp, (reverse sp'). split; [|split; [done|by apply Forall_reverse]]. unfold strip. rewrite E at 1. f_equal.
  apply (f_equal reverse) in E'. rewrite reverse_involutive, reverse_app in E'. exact E'.
Qed.

Lemma hook_key k : to_ascii_lower <$> k ∈ QUICK_HOOKS -> key_ok k.
Proof.
  intros Hk. assert (Forall (fun w : bytes => w <> [] /\ Forall (fun c => 97 ≤ c ≤ 122)%Z w) QUICK_HOOKS) as Hall
    by (apply (bool_decide_unpack _); vm_compute; exact I).
  rewrite Forall_forall in Hall. destruct (Hall _ Hk) as [Hne Hc]. split; [by intros ->|].
  rewrite Forall_fmap in Hc. eapply Forall_impl; [exact Hc|]. intros c. cbn. unfold to_ascii_lower, key_char. case_decide; lia.
Qed.

(** A hook with a command, however it is spaced and spelled, is refused. *)
Lemma hook_line_true kr x : 61%Z ∉ kr -> to_ascii_lower <$> strip kr ∈ QUICK_HOOKS -> hook_line (kr ++ 61%Z :: x) = true.
Proof.
  intros Hkr Hh. pose proof (hook_key _ Hh) as Hk. destruct (strip_split kr) as (sp & sp' & E & Hsp & Hsp'). unfold hook_line.
  rewrite E, <- !app_assoc, trim_start_spaces by done. rewrite bool_decide_eq_false_2.
  2: { destruct Hk as [Hne Hk]. destruct (strip kr) as [|c k]; [done|]. cbn. intros [= ->]. apply Forall_cons in Hk as [Hc _]. unfold key_char in Hc. lia. }
  replace (split_once 61 (strip kr ++ sp' ++ 61%Z :: x)) with (Some (strip kr ++ sp', x)).
  - rewrite trim_key by done. apply bool_decide_eq_true. exact Hh.
  - symmetry. apply split_once_spec. split; [by rewrite <- app_assoc|]. intros Hin. apply Hkr. rewrite E, elem_of_app. by right.
Qed.

Lemma strip_cr_split l a x : l = a ++ 61%Z :: x -> exists y, strip_cr l = a ++ 61%Z :: y.
Proof.
  intros ->. unfold strip_cr. rewrite reverse_app, reverse_cons. destruct (reverse x) as [|c r] eqn:E; cbn [app].
  - apply (f_equal reverse) in E. rewrite reverse_involutive in E. subst x. rewrite decide_False by done. by exists [].
  - case_decide; [|by exists x]. exists (reverse r). rewrite !reverse_app, reverse_involutive. done.
Qed.

Lemma span_uncomment l : exists t, l = uncomment l ++ t.
Proof.
  unfold uncomment. induction l as [|c l [t E]]; [by exists []|]. cbn [span]. case_bool_decide; cbn [negb fst]; [by eexists|].
  destruct (span _ l) as [a b]. cbn [fst] in *. exists t. cbn. by rewrite <- E.
Qed.

(** What is left of a hook is its name alone, wherever the line is cut. *)
Lemma accepted_line l l' k v : l `prefix_of` l' -> hook_line l' = false \/ hook_line (strip_cr l') = false -> quick_line l = Some (k, v) -> v = k.
Proof.
  intros [rest El] Hl. unfold quick_line. destruct (span_uncomment l) as [t E]. destruct (split_once 61 (uncomment l)) as [[kr vr]|] eqn:Es.
  - case_decide as Hh; [|done]. exfalso. apply split_once_spec in Es as [Eu Hkr]. rewrite Eu, <- app_assoc in E. cbn [app] in E.
    rewrite E, <- app_assoc in El. cbn [app] in El. destruct (strip_cr_split _ _ _ El) as [y Ey].
    rewrite Ey, El, !hook_line_true in Hl by done. by destruct Hl.
  - case_decide; [|done]. by intros [= <- <-].
Qed.

Lemma piece_of_lines s l : l ∈ split_on is_newline s -> l = [] \/ l ∈ lines s \/ strip_cr l ∈ lines s.
Proof.
  unfold lines. change (fun c : Z => bool_decide (c = 10%Z)) with is_newline. induction (split_on is_newline s) as [|p [|q ps] IH]; intros Hin; [by apply elem_of_nil in Hin| |].
  - apply list_elem_of_singleton in Hin as ->. cbn [lines_go]. case_decide; [by left|]. right. left. by left.
  - change (lines_go (p :: q :: ps)) with (strip_cr p :: lines_go (q :: ps)). apply elem_of_cons in Hin as [->|Hin]; [right; right; by left|].
    destruct (IH Hin) as [?|[?|?]]; [by left|right; left; by right|right; right; by right].
Qed.

Lemma no_zero (s : bytes) : 0%Z ∉ s -> filter (fun c => c <> 0%Z) s = s.
Proof.
  induction s as [|c s IH]; intros H0; [done|]. apply not_elem_of_cons in H0 as [Hc Hs]. rewrite filter_cons_True by done. by rewrite IH.
Qed.

(** The lines of a text that goes on: the same, but the last one goes on too. *)
Lemma split_on_go_on {A} (p : A -> bool) a b h t : split_on p b = h :: t ->
  exists init last, split_on p a = init ++ [last] /\ split_on p (a ++ b) = init ++ (last ++ h) :: t.
Proof.
  intros Eb. induction a as [|c a (init & last & Ea & Eab)]; [by exists [], []|]. cbn [app split_on]. rewrite Ea, Eab.
  destruct (p c); [by exists ([] :: init), last|]. destruct init as [|i init]; [by exists [], (c :: last)|by exists ((c :: i) :: init), last].
Qed.

Lemma split_on_take {A} (p : A -> bool) n s l : l ∈ split_on p (take n s) -> exists l', l' ∈ split_on p s /\ l `prefix_of` l'.
Proof.
  intros Hl. destruct (split_on p (drop n s)) as [|h t] eqn:Eb; [by destruct (split_on_nonempty p (drop n s))|].
  destruct (split_on_go_on p (take n s) _ _ _ Eb) as (init & last & Ea & Eab). rewrite take_drop in Eab. rewrite Ea in Hl.
  rewrite Eab. apply elem_of_app in Hl as [Hl|Hl%list_elem_of_singleton].
  - exists l. split; [apply elem_of_app; by left|done].
  - subst l. exists (last ++ h). split; [apply elem_of_app; right; left|by apply prefix_app_r].
Qed.

(** An accepted configuration has no command to run, even if it is cut. *)
Lemma accepted_piece config l l' k v : reject_hook_directives config = true -> l' ∈ split_on is_newline config -> l `prefix_of` l' ->
  quick_line l = Some (k, v) -> v = k.
Proof.
  intros Hr Hl Hp Hq.
  assert (forall m, m ∈ lines config -> hook_line m = false) as Hno.
  { intros m Hm. unfold reject_hook_directives in Hr. apply negb_true_iff in Hr. destruct (hook_line m) eqn:E; [|done].
    rewrite <- Hr. symmetry. apply existsb_exists. exists m. split; [by apply list_elem_of_In|done]. }
  destruct (piece_of_lines _ _ Hl) as [->|Hcase]; [apply prefix_nil_inv in Hp as ->; by vm_compute in Hq|].
  apply (accepted_line l l'); [done| |done]. destruct Hcase as [Hm|Hm]; [left|right]; by apply Hno.
Qed.

Lemma accepted_hooks config k v : 0%Z ∉ config -> reject_hook_directives config = true -> (k, v) ∈ quick_hooks config -> v = k.
Proof.
  intros H0 Hr Hin. unfold quick_hooks in Hin. rewrite no_zero in Hin by done. apply list_elem_of_omap in Hin as (l & Hl & Hq).
  by apply (accepted_piece config l l).
Qed.

(** The commands of the templates around what is filled in. *)
Definition up_command (device v4 v6 port : bytes) : bytes :=
  bstr "nft add table inet coffeeblack;"
  ++ bstr " nft 'add chain inet coffeeblack forward { type filter hook forward priority filter; policy accept; }';"
  ++ bstr " nft 'add chain inet coffeeblack nat-postrouting { type nat hook postrouting priority srcnat; }';"
  ++ bstr " nft 'add chain inet coffeeblack filter-input { type filter hook input priority filter; policy accept; }';"
  ++ bstr " nft 'add chain inet coffeeblack wg-clients';"
  ++ bstr " nft add rule inet coffeeblack nat-postrouting ip saddr " ++ v4 ++ bstr " oifname " ++ QUOTE ++ device ++ QUOTE ++ bstr " masquerade;"
  ++ bstr " nft add rule inet coffeeblack nat-postrouting ip6 saddr " ++ v6 ++ bstr " oifname " ++ QUOTE ++ device ++ QUOTE ++ bstr " masquerade;"
  ++ bstr " nft add rule inet coffeeblack filter-input udp dport " ++ port ++ bstr " accept;".

(** Text in which no placeholder begins, whatever follows. *)
Fixpoint quiet (l : bytes) : bool :=
  match l with
  | [] => true
  | c :: l' => negb (bool_decide (c = 123%Z) && match l' with d :: _ => bool_decide (d = 123%Z) | [] => true end) && quiet l'
  end.

Lemma quiet_replace pat w l s : quiet l = true -> str_replace (123 :: 123 :: pat)%Z w (l ++ s) = l ++ str_replace (123 :: 123 :: pat)%Z w s.
Proof.
  induction l as [|c l IH]; intros Hq; [done|]. cbn [quiet] in Hq. apply andb_true_iff in Hq as [Hc Hq]. cbn [app].
  rewrite str_replace_step by done. replace (strip_prefix _ _) with (@None bytes); [by rewrite IH|]. symmetry. cbn [strip_prefix].
  destruct (decide (123 = c)%Z) as [H1|]; [|reflexivity]. subst c. destruct l as [|d l]; [by vm_compute in Hc|]. cbn [app].
  rewrite decide_False; [done|]. intros <-. by vm_compute in Hc.
Qed.

Lemma replace_here pat w s : str_replace (123 :: 123 :: pat)%Z w ((123 :: 123 :: pat)%Z ++ s) = w ++ str_replace (123 :: 123 :: pat)%Z w s.
Proof.
  pose proof (strip_prefix_app (123 :: 123 :: pat)%Z s) as E. cbn [app] in *. rewrite str_replace_step by done. by rewrite E.
Qed.

(** A placeholder of another name. *)
Lemma replace_skip pat w name s : strip_prefix (123 :: pat)%Z (123 :: name ++ s)%Z = None -> head (name ++ s) <> Some 123%Z -> quiet name = true ->
  str_replace (123 :: 123 :: pat)%Z w (123 :: 123 :: name ++ s)%Z = (123 :: 123 :: name)%Z ++ str_replace (123 :: 123 :: pat)%Z w s.
Proof.
  intros E Hh Hq. rewrite str_replace_step by done. change (strip_prefix (123 :: 123 :: pat)%Z (123 :: 123 :: name ++ s)%Z) with (strip_prefix (123 :: pat)%Z (123 :: name ++ s)%Z).
  rewrite E. rewrite str_replace_step by done. replace (strip_prefix _ _) with (@None bytes).
  - cbn [app]. by rewrite quiet_replace.
  - symmetry. cbn [strip_prefix]. rewrite decide_True by done. destruct (name ++ s) as [|d r]; [done|]. rewrite decide_False; [done|]. intros <-. by apply Hh.
Qed.

(** *** Filling the templates *)

Inductive Var : Set := Device | Port | V4Cidr | V6Cidr.
#[export] Instance Var_eq_dec : EqDecision Var.
Proof. solve_decision. Defined.

Definition var_name (x : Var) : bytes :=
  match x with Device => bstr "device}}" | Port => bstr "port}}" | V4Cidr => bstr "ipv4Cidr}}" | V6Cidr => bstr "ipv6Cidr}}" end.
Definition placeholder (x : Var) : bytes := (123 :: 123 :: var_name x)%Z.

Inductive Chunk : Set := Lit (l : bytes) | Hole (x : Var).
Definition chunk_text (r : Var -> bytes) (c : Chunk) : bytes := match c with Lit l => l | Hole x => r x end.
Definition fill_in (r : Var -> bytes) (cs : list Chunk) : bytes := mjoin (chunk_text r <$> cs).
Definition lit_quiet (c : Chunk) : Prop := match c with Lit l => quiet l = true | Hole _ => True end.

Lemma replace_other x y w s : x <> y -> str_replace (placeholder x) w (placeholder y ++ s) = placeholder y ++ str_replace (placeholder x) w s.
Proof.
  intros Hne. unfold placeholder at 1 2 4. cbn [app]. apply replace_skip; [by destruct x, y|by destruct y|by destruct y].
Qed.

Lemma replace_fill x w r cs : r x = placeholder x -> (forall y, y <> x -> r y = placeholder y \/ quiet (r y) = true) -> Forall lit_quiet cs ->
  str_replace (placeholder x) w (fill_in r cs) = fill_in (fun y => if decide (y = x) then w else r y) cs.
Proof.
  intros Hx Hy Hcs. induction Hcs as [|c cs Hc _ IH]; [done|].
  change (fill_in r (c :: cs)) with (chunk_text r c ++ fill_in r cs).
  change (fill_in (fun y => if decide (y = x) then w else r y) (c :: cs))
    with (chunk_text (fun y => if decide (y = x) then w else r y) c ++ fill_in (fun y => if decide (y = x) then w else r y) cs).
  rewrite <- IH. destruct c as [l|y]; cbn [chunk_text lit_quiet] in *; [by apply quiet_replace|].
  case_decide as Hyx; [subst y; rewrite Hx; apply replace_here|].
  destruct (Hy y Hyx) as [->|Hq]; [by apply replace_other|by apply quiet_replace].
Qed.

Definition up_chunks : list Chunk :=
  [Lit (bstr "nft add table inet coffeeblack;"
     ++ bstr " nft 'add chain inet coffeeblack forward { type filter hook forward priority filter; policy accept; }';"
     ++ bstr " nft 'add chain inet coffeeblack nat-postrouting { type nat hook postrouting priority srcnat; }';"
     ++ bstr " nft 'add chain inet coffeeblack filter-input { type filter hook input priority filter; policy accept; }';"
     ++ bstr " nft 'add chain inet coffeeblack wg-clients';" ++ bstr " nft add rule inet coffeeblack nat-postrouting ip saddr ");
   Hole V4Cidr; Lit (bstr " oifname " ++ QUOTE); Hole Device;
   Lit (QUOTE ++ bstr " masquerade;" ++ bstr " nft add rule inet coffeeblack nat-postrouting ip6 saddr "); Hole V6Cidr;
   Lit (bstr " oifname " ++ QUOTE); Hole Device;
   Lit (QUOTE ++ bstr " masquerade;" ++ bstr " nft add rule inet coffeeblack filter-input udp dport "); Hole Port; Lit (bstr " accept;")].

(** The characters of a device, a port and a network open no placeholder. *)
Lemma quiet_chars s : 123%Z ∉ s -> quiet s = true.
Proof.
  induction s as [|c s IH]; intros Hs; [done|]. apply not_elem_of_cons in Hs as [Hc Hs]. cbn [quiet].
  rewrite bool_decide_eq_false_2 by done. by apply IH.
Qed.

Lemma net_quiet s n : parse_net s = Some n -> Forall net_char s /\ 123%Z ∉ s.
Proof.
  intros E. apply parse_net_inv in E as (_ & Hs & _). split; [done|]. intros Hin. rewrite Forall_forall in Hs. apply Hs in Hin.
  destruct Hin as [[[d Hd]|[Hd|Hd]]|Hd]; by vm_compute in Hd.
Qed.

Lemma up_filled f device : validate f = true -> 123%Z ∉ device ->
  subst f device POST_UP_TEMPLATE = up_command device (f_ipv4_cidr f) (f_ipv6_cidr f) (decimal (f_port f)).
Proof.
  intros Hv Hd. unfold validate in Hv. apply andb_true_iff in Hv as [[n4 H4]%bool_decide_eq_true [n6 H6]%bool_decide_eq_true].
  apply net_quiet in H4 as [_ H4]. apply net_quiet in H6 as [_ H6].
  assert (123%Z ∉ decimal (f_port f)) as Hp.
  { intros Hin. pose proof (decimal_chars (f_port f)) as Hc. rewrite Forall_forall in Hc. apply Hc in Hin. unfold num_char in Hin. lia. }
  apply quiet_chars in H4, H6, Hp, Hd. unfold subst.
  assert (POST_UP_TEMPLATE = fill_in placeholder up_chunks) as -> by by vm_compute.
  assert (Forall lit_quiet up_chunks) as Hc by (repeat (apply Forall_cons; split); try (by apply Forall_nil); by vm_compute).
  change (bstr "{{device}}") with (placeholder Device). change (bstr "{{port}}") with (placeholder Port).
  change (bstr "{{ipv4Cidr}}") with (placeholder V4Cidr). change (bstr "{{ipv6Cidr}}") with (placeholder V6Cidr).
  rewrite (replace_fill Device) by (done || by left). rewrite (replace_fill Port) by (done || by (intros []; auto)).
  rewrite (replace_fill V4Cidr) by (done || by (intros []; auto)). rewrite (replace_fill V6Cidr) by (done || by (intros []; auto)).
  unfold fill_in, up_chunks, up_command. cbn [fmap list_fmap chunk_text mjoin list_join]. rewrite <- !app_assoc.
  rewrite app_nil_r. done.
Qed.

Lemma down_filled f device : subst f device POST_DOWN_TEMPLATE = POST_DOWN_TEMPLATE.
Proof. unfold subst. by rewrite !str_replace_absent by by vm_compute. Qed.

(** ** The file *)

Definition UP_HOOK : bytes := bstr "PostUp".
Definition DOWN_HOOK : bytes := bstr "PostDown".

Lemma up_is_hook : to_ascii_lower <$> UP_HOOK ∈ QUICK_HOOKS.
Proof. apply (bool_decide_unpack _). vm_compute. exact I. Qed.
Lemma down_is_hook : to_ascii_lower <$> DOWN_HOOK ∈ QUICK_HOOKS.
Proof. apply (bool_decide_unpack _). vm_compute. exact I. Qed.

(** A device name in no way special to the readers. *)
Definition device_ok (device : bytes) : Prop := Forall (fun c => c ∉ [0; 10; 35; 123]%Z) device.

Lemma quick_setting k v : key_ok k -> Forall (fun c => c <> 35%Z) v -> quick_line (k ++ bstr " = " ++ v)
  = if decide (to_ascii_lower <$> k ∈ QUICK_HOOKS) then Some (k, strip v) else None.
Proof.
  intros Hk Hv. unfold quick_line. rewrite uncomment_id.
  2: { rewrite !Forall_app. split; [|split; [apply (bool_decide_unpack _); vm_compute; exact I|done]]. destruct Hk as [_ Hk].
       eapply Forall_impl; [exact Hk|]. intros c Hc. unfold key_char in Hc. lia. }
  replace (split_once 61 (k ++ bstr " = " ++ v)) with (Some (k ++ [32%Z], 32%Z :: v)).
  - change (strip (32%Z :: v)) with (strip v). by rewrite strip_key by (done || by apply Forall_singleton).
  - symmetry. apply split_once_spec. split; [by rewrite <- app_assoc|]. rewrite elem_of_app, list_elem_of_singleton. intros [Hin|Hin]; [|done].
    destruct Hk as [_ Hk]. rewrite Forall_forall in Hk. apply Hk in Hin. unfold key_char in Hin. lia.
Qed.

Lemma quick_hooks_app a b : quick_hooks (a ++ 10%Z :: b) = quick_hooks a ++ quick_hooks b.
Proof.
  unfold quick_hooks. rewrite filter_app, filter_cons_True by done. rewrite split_on_app by done. apply omap_app.
Qed.

Lemma quick_hooks_line l : 0%Z ∉ l -> 10%Z ∉ l -> quick_hooks l = match quick_line l with Some kv => [kv] | None => [] end.
Proof.
  intros H0 Hn. unfold quick_hooks. rewrite no_zero by done. rewrite split_on_none; [cbn; by destruct (quick_line l)|].
  apply Forall_forall. intros c Hc. apply bool_decide_eq_false. by intros ->.
Qed.

Definition command_char (c : Z) : Prop := c ∉ [0; 10; 35]%Z.

Lemma up_command_chars device v4 v6 port : Forall command_char device -> Forall command_char v4 -> Forall command_char v6 -> Forall command_char port ->
  Forall command_char (up_command device v4 v6 port).
Proof.
  intros Hd H4 H6 Hp. unfold up_command. rewrite !Forall_app.
  repeat lazymatch goal with |- _ /\ _ => split end; try done; apply (bool_decide_unpack _); vm_compute; exact I.
Qed.

Lemma net_command s n : parse_net s = Some n -> Forall net_char s /\ Forall command_char s.
Proof.
  intros E. apply net_quiet in E as [Hs _]. split; [done|]. eapply Forall_impl; [exact Hs|]. intros c Hc. unfold command_char.
  rewrite !elem_of_cons, elem_of_nil. intros [->|[->|[->|[]]]]; destruct Hc as [[[d Hd]|[Hd|Hd]]|Hd]; by vm_compute in Hd.
Qed.

Lemma not_in_const c (s : bytes) : bool_decide (c ∈ s) = false -> c ∉ s.
Proof. apply bool_decide_eq_false. Qed.

(** What the helper adds: two settings, of the fixed commands with networks and a port in them. *)
Lemma owned_text f device owned : device_ok device -> render f device = Some owned ->
  exists up, up = up_command device (f_ipv4_cidr f) (f_ipv6_cidr f) (decimal (f_port f))
    /\ owned = 10%Z :: (UP_HOOK ++ bstr " = " ++ up) ++ 10%Z :: (DOWN_HOOK ++ bstr " = " ++ POST_DOWN_TEMPLATE)
    /\ Forall net_char (f_ipv4_cidr f) /\ Forall net_char (f_ipv6_cidr f) /\ Forall command_char up.
Proof.
  intros Hd. unfold render. destruct (validate f) eqn:Hv; [|done]. intros E. apply (inj Some) in E as <-.
  assert (Forall command_char device) as Hdc.
  { eapply Forall_impl; [exact Hd|]. intros c Hc Hin. apply Hc. rewrite !elem_of_cons in *. tauto. }
  rewrite up_filled, down_filled; [|done|].
  2: { intros Hin. unfold device_ok in Hd. rewrite Forall_forall in Hd. apply (Hd _ Hin). apply (bool_decide_unpack _). vm_compute. exact I. }
  unfold validate in Hv. apply andb_true_iff in Hv as [[n4 H4]%bool_decide_eq_true [n6 H6]%bool_decide_eq_true].
  destruct (net_command _ _ H4) as [N4 C4], (net_command _ _ H6) as [N6 C6].
  assert (Forall command_char (decimal (f_port f))) as Cp.
  { eapply Forall_impl; [apply decimal_chars|]. intros c Hc. unfold num_char in Hc. unfold command_char. rewrite !elem_of_cons, elem_of_nil. lia. }
  pose proof (up_command_chars _ _ _ _ Hdc C4 C6 Cp) as Cu. exists (up_command device (f_ipv4_cidr f) (f_ipv6_cidr f) (decimal (f_port f))).
  split; [reflexivity|]. revert Cu. generalize (up_command device (f_ipv4_cidr f) (f_ipv6_cidr f) (decimal (f_port f))). intros up Cu.
  split; [|split; [exact N4|split; [exact N6|exact Cu]]]. unfold NL. rewrite <- !app_assoc. reflexivity.
Qed.

Lemma not_in_setting c k v : bool_decide (c ∈ k ++ bstr " = ") = false -> c ∈ [0; 10; 35]%Z -> Forall command_char v -> c ∉ k ++ bstr " = " ++ v.
Proof.
  intros Hk%bool_decide_eq_false Hc Hv Hin. rewrite app_assoc, elem_of_app in Hin. destruct Hin as [Hin|Hin]; [by apply Hk|].
  rewrite Forall_forall in Hv. by apply (Hv _ Hin).
Qed.

Lemma down_chars : Forall command_char POST_DOWN_TEMPLATE.
Proof. apply (bool_decide_unpack _). vm_compute. exact I. Qed.

Lemma no_comment v : Forall command_char v -> Forall (fun c => c <> 35%Z) v.
Proof. intros Hv. eapply Forall_impl; [exact Hv|]. intros c Hc ->. apply Hc. by right; right; left. Qed.

Lemma own_setting key cmd : key ∈ [UP_HOOK; DOWN_HOOK] -> Forall command_char cmd ->
  quick_line (key ++ bstr " = " ++ cmd) = Some (key, strip cmd).
Proof.
  rewrite !elem_of_cons, elem_of_nil. intros Hk Hc. assert (to_ascii_lower <$> key ∈ QUICK_HOOKS) as Hh.
  { destruct Hk as [->|[->|[]]]; [apply up_is_hook|apply down_is_hook]. }
  rewrite quick_setting, decide_True; [done|done|by apply hook_key|by apply no_comment].
Qed.

(** A setting that is cut: its name alone, or the beginning of its value. *)
Lemma cut_setting key cmd l k v : key ∈ [UP_HOOK; DOWN_HOOK] -> Forall command_char cmd -> l `prefix_of` key ++ bstr " = " ++ cmd ->
  quick_line l = Some (k, v) -> v = k \/ exists c, c `prefix_of` cmd /\ k = key /\ v = strip c.
Proof.
  intros Hk Hc [rest El] Hq. destruct (decide (length l < length (key ++ bstr " = "))) as [Hlt|Hge].
  - assert (l = take (length l) (key ++ bstr " = ")) as E.
    { rewrite app_assoc in El. apply (f_equal (take (length l))) in El. rewrite take_app_le in El by lia. by rewrite take_app_length in El. }
    rewrite E in Hq. revert Hlt Hq. generalize (length l). rewrite !elem_of_cons, elem_of_nil in Hk. intros n Hn Hq.
    destruct Hk as [->|[->|[]]]; cbn in Hn; do 12 (destruct n as [|n]; [vm_compute in Hq; try done; injection Hq as <- <-;
      (by left) || (right; exists []; split; [apply prefix_nil|done])|]); lia.
  - right. assert (exists c, l = (key ++ bstr " = ") ++ c /\ c `prefix_of` cmd) as (c & -> & Hp).
    { rewrite app_assoc in El. exists (drop (length (key ++ bstr " = ")) l).
      assert (take (length (key ++ bstr " = ")) l = key ++ bstr " = ") as E.
      { apply (f_equal (take (length (key ++ bstr " = ")))) in El. rewrite take_app_length, take_app_le in El by lia. done. }
      split; [by rewrite <- E at 1; rewrite take_drop|]. exists rest. apply (f_equal (drop (length (key ++ bstr " = ")))) in El.
      by rewrite drop_app_length, drop_app_le in El by lia. }
    assert (Forall command_char c) as Hn by (destruct Hp as [r ->]; by apply Forall_app in Hc as [Hc _]).
    rewrite <- app_assoc, own_setting in Hq by done. injection Hq as <- <-. by exists c.
Qed.

(** The lines of the file: those of the configuration, and the two of the helper. *)
Lemma owned_lines f device owned config l : device_ok device -> render f device = Some owned -> l ∈ split_on is_newline (config ++ owned) ->
  l ∈ split_on is_newline config
  \/ (exists v4 v6 port, Forall net_char v4 /\ Forall net_char v6 /\ Forall command_char (up_command device v4 v6 (decimal port))
       /\ l = UP_HOOK ++ bstr " = " ++ up_command device v4 v6 (decimal port))
  \/ l = DOWN_HOOK ++ bstr " = " ++ POST_DOWN_TEMPLATE.
Proof.
  intros Hd Hr. destruct (owned_text _ _ _ Hd Hr) as (up & Eup & -> & N4 & N6 & Cu).
  assert (forall key v, bool_decide (10%Z ∈ key ++ bstr " = ") = false -> Forall command_char v ->
            split_on is_newline (key ++ bstr " = " ++ v) = [key ++ bstr " = " ++ v]) as Hone.
  { intros key v Hk Hv. apply split_on_none, Forall_forall. intros c Hc. apply bool_decide_eq_false. intros ->.
    revert Hc. apply not_in_setting; [done|by right; left|done]. }
  rewrite !split_on_app by done. rewrite (Hone UP_HOOK), (Hone DOWN_HOOK); [|by vm_compute|apply down_chars|by vm_compute|exact Cu].
  rewrite !elem_of_app, !list_elem_of_singleton. intros [Hl|[Hl|Hl]]; [by left|right; left|by right; right].
  exists (f_ipv4_cidr f), (f_ipv6_cidr f), (f_port f). rewrite <- Eup. by split_and!.
Qed.

Lemma owned_no_zero f device owned : device_ok device -> render f device = Some owned -> 0%Z ∉ owned.
Proof.
  intros Hd Hr. destruct (owned_text _ _ _ Hd Hr) as (up & _ & -> & _ & _ & Cu). rewrite elem_of_cons, elem_of_app, elem_of_cons.
  intros [?|[Hin|[?|Hin]]]; [done| |done|]; revert Hin; apply not_in_setting; (by vm_compute) || (by left) || done || apply down_chars.
Qed.

(** The hooks come after whatever block the configuration ends with: with a peer in it,
    they are settings of that peer. *)
Lemma helper_hooks_in_last_block f device owned config pre blocks h items : device_ok device -> render f device = Some owned ->
  read_ini config = (pre, blocks ++ [(h, items)]) ->
  exists up down, read_ini (config ++ owned) = (pre, blocks ++ [(h, items ++ [(UP_HOOK, up); (DOWN_HOOK, down)])]).
Proof.
  intros Hd Hr Hc. destruct (owned_text _ _ _ Hd Hr) as (up & _ & -> & _ & _ & Cu). exists (strip up), (strip POST_DOWN_TEMPLATE).
  rewrite read_ini_app, Hc. rewrite read_ini_cons, read_setting_line, read_ini_one, read_setting_line.
  - unfold ini_app. cbn [fst snd add_line]. destruct (blocks ++ [(h, items)]) as [|b bs] eqn:E; [by destruct blocks|]. rewrite <- E.
    rewrite removelast_last, last_snoc, app_nil_r. reflexivity.
  - by apply hook_key, down_is_hook.
  - by apply no_comment, down_chars.
  - apply Forall_forall. intros c Hc'. apply bool_decide_eq_false. intros ->. revert Hc'. apply not_in_setting; [by vm_compute|by right; left|apply down_chars].
  - by apply hook_key, up_is_hook.
  - by apply no_comment.
  - apply Forall_forall. intros c Hc'. apply bool_decide_eq_false. intros ->. revert Hc'. apply not_in_setting; [by vm_compute|by right; left|exact Cu].
Qed.

(** A zero byte hides a name from the check, and the reader drops it. *)
Lemma nul_bypass : let config := bstr "Post" ++ 0%Z :: bstr "Up = id" in
  reject_hook_directives config = true /\ quick_hooks config = [(UP_HOOK, bstr "id")].
Proof. by vm_compute. Qed.

(** ** The state of the helper *)

(** A line of the caller that is the name of a hook and nothing else passes the
    check, and [awg-quick] takes the name for the command as well. *)
Definition bare_name (kv : bytes * bytes) : Prop := kv.2 = kv.1.

Lemma bare_name_runs : reject_hook_directives (bstr "PostUp") = true /\ quick_hooks (bstr "PostUp") = [(UP_HOOK, bstr "PostUp")].
Proof. by vm_compute. Qed.

(** The two commands of the helper. *)
Definition own_command (device key command : bytes) : Prop :=
  (key = UP_HOOK /\ exists v4 v6 port, Forall net_char v4 /\ Forall net_char v6 /\ command = up_command device v4 v6 (decimal port))
  \/ (key = DOWN_HOOK /\ command = POST_DOWN_TEMPLATE).

(** A command of the helper, or where a write stopped short the beginning of one. *)
Definition own_hook (whole : Prop) (device : bytes) (kv : bytes * bytes) : Prop :=
  exists command c, own_command device kv.1 command /\ c `prefix_of` command /\ kv.2 = strip c
    /\ (whole -> kv.2 = strip command).

Definition commands (cfg : HelperConfig) : list (list bytes) :=
  [argv_up cfg; argv_down cfg; argv_dump cfg; argv_show cfg; argv_strip cfg; argv_sync cfg; argv_nft_check; argv_nft; argv_list].

Ltac in_commands := unfold commands; rewrite !elem_of_cons; tauto.

(** A ruleset is applied right after it was checked. *)
Inductive log_ok (cfg : HelperConfig) : list (list bytes * bytes) -> Prop :=
  | log_nil : log_ok cfg []
  | log_one l argv input : log_ok cfg l -> argv ∈ commands cfg -> argv <> argv_nft -> log_ok cfg (l ++ [(argv, input)])
  | log_nft l ruleset : log_ok cfg l -> log_ok cfg (l ++ [(argv_nft_check, ruleset); (argv_nft, ruleset)]).

Definition file_ok (cfg : HelperConfig) (whole : Prop) (f : option bytes) : Prop :=
  forall text kv, f = Some text -> kv ∈ quick_hooks text -> bare_name kv \/ own_hook whole (interface cfg) kv.

(** No write stops short. *)
Definition writes_whole (W : Type) `{Host W} : Prop := forall w n, write_end w <> Short n.

Section state.
Context {W : Type} `{Host W} (cfg : HelperConfig) (Hdev : device_ok (interface cfg)).

Definition helper_ok (h : Helper W) : Prop := file_ok cfg (writes_whole W) (file h) /\ log_ok cfg (log h).

Lemma run_with_stdin_ok argv input h out h' : run_with_stdin argv input h = (out, h') -> helper_ok h -> argv ∈ commands cfg -> argv <> argv_nft ->
  helper_ok h'.
Proof.
  unfold run_with_stdin. destruct (exec argv input (host h)) as [o w]. intros [= _ <-] [Hf Hl] Hin Hne. split; [done|]. by apply log_one.
Qed.

Lemma run_log argv input h out h' : run_with_stdin argv input h = (out, h') -> file h' = file h /\ log h' = log h ++ [(argv, input)].
Proof. unfold run_with_stdin. destruct (exec argv input (host h)) as [o w]. by intros [= _ <-]. Qed.

Lemma respond_run_ok argv keep h : helper_ok h -> argv ∈ commands cfg -> argv <> argv_nft -> helper_ok (respond keep (run argv h)).2.
Proof. intros Hh Hin Hne. unfold run. destruct (run_with_stdin argv [] h) as [out h'] eqn:E. cbn. by eapply run_with_stdin_ok. Qed.

Lemma nft_apply_ok ruleset h : helper_ok h -> helper_ok (nft_apply ruleset h).2.
Proof.
  intros Hh. unfold nft_apply. destruct (run_with_stdin argv_nft_check ruleset h) as [checked h1] eqn:E1.
  destruct checked; [|eapply run_with_stdin_ok; [exact E1|done|in_commands|done]].
  destruct (run_with_stdin argv_nft ruleset h1) as [out h2] eqn:E2. cbn. destruct (run_log _ _ _ _ _ E1) as [F1 L1].
  destruct (run_log _ _ _ _ _ E2) as [F2 L2]. destruct Hh as [Hf Hl]. split; [by rewrite F2, F1|].
  rewrite L2, L1, <- app_assoc. by apply log_nft.
Qed.

Lemma written_ok config firewall owned n whole : 0%Z ∉ config -> reject_hook_directives config = true ->
  (match firewall with Some fw => render fw (interface cfg) | None => Some [] end) = Some owned ->
  (whole -> take n (config ++ owned) = config ++ owned) -> file_ok cfg whole (Some (take n (config ++ owned))).
Proof.
  intros H0 Hr Ho Hw text [k v] E Hin. apply (inj Some) in E as <-.
  assert (0%Z ∉ config ++ owned) as Hz.
  { rewrite elem_of_app. intros [?|Hin']; [done|]. destruct firewall as [fw|]; [by apply (owned_no_zero _ _ _ Hdev Ho)|].
    apply (inj Some) in Ho as <-. by apply elem_of_nil in Hin'. }
  unfold quick_hooks in Hin. rewrite no_zero in Hin by (intros H1; by apply Hz, (subseteq_take n)).
  apply list_elem_of_omap in Hin as (l & Hl & Hq).
  assert (exists l', l' ∈ split_on is_newline (config ++ owned) /\ l `prefix_of` l' /\ (whole -> l = l')) as (l' & Hl' & Hp & Hwhole).
  { destruct (decide (length (config ++ owned) <= n)) as [Hle|Hgt]; [rewrite take_ge in Hl by done; by exists l|].
    destruct (split_on_take _ _ _ _ Hl) as (l' & Hl' & Hp). exists l'. split_and!; [done|done|]. intros Hwh.
    apply Hw in Hwh. apply (f_equal length) in Hwh. rewrite length_take in Hwh. lia. }
  clear Hl. destruct firewall as [fw|].
  2: { apply (inj Some) in Ho as <-. rewrite app_nil_r in Hl'. left. by eapply accepted_piece. }
  apply (owned_lines _ _ _ _ _ Hdev Ho) in Hl' as [Hl'|Hown]; [left; by eapply accepted_piece|].
  assert (exists key cmd, own_command (interface cfg) key cmd /\ key ∈ [UP_HOOK; DOWN_HOOK] /\ Forall command_char cmd
          /\ l' = key ++ bstr " = " ++ cmd) as (key & cmd & Hcmd & Hkey & Hchars & ->).
  { destruct Hown as [(v4 & v6 & port & N4 & N6 & Cu & ->)| ->].
    - exists UP_HOOK, (up_command (interface cfg) v4 v6 (decimal port)). split_and!; [|by left|done|done]. left. split; [done|]. by exists v4, v6, port.
    - exists DOWN_HOOK, POST_DOWN_TEMPLATE. split_and!; [by right|by right; left|apply down_chars|done]. }
  destruct (cut_setting _ _ _ _ _ Hkey Hchars Hp Hq) as [Hb|(c & Hc & -> & Hv)]; [by left|]. right. exists cmd, c.
  split_and!; [done|done|done|]. intros Hwh. rewrite (Hwhole Hwh), own_setting in Hq by done. by injection Hq as <-.
Qed.

Lemma wg_sync_ok config firewall h : 0%Z ∉ config -> helper_ok h -> helper_ok (wg_sync cfg config firewall h).2.
Proof.
  intros H0 Hh. unfold wg_sync. destruct (reject_hook_directives config) eqn:Hr; [|done]. cbn [negb].
  destruct (match firewall with Some _ => _ | None => _ end) as [owned|] eqn:Ho; [|done]. cbn zeta.
  assert (forall n, (writes_whole W -> take n (config ++ owned) = config ++ owned) ->
            helper_ok (mkHelper (Some (take n (config ++ owned))) (log h) (host h))) as Hcut
    by (intros n Hn; split; [by eapply written_ok|apply Hh]).
  assert (helper_ok (mkHelper (Some (config ++ owned)) (log h) (host h))) as Hw.
  { rewrite <- (firstn_all (config ++ owned)) at 1. apply Hcut. intros _. apply firstn_all. }
  destruct (write_end (host h)) as [|n| |] eqn:We; [by rewrite decide_True| |by rewrite decide_True|].
  { rewrite decide_True by done. apply Hcut. intros Hwhole. by destruct (Hwhole _ _ We). }
  rewrite decide_False by tauto.
  destruct (run (argv_show cfg) _) as [shown h1] eqn:E1. apply run_with_stdin_ok in E1; [|done|in_commands|done].
  destruct shown; [|done]. destruct (run (argv_strip cfg) h1) as [stripped h2] eqn:E2. apply run_with_stdin_ok in E2; [|done|in_commands|done].
  destruct stripped; [|done]. destruct (run_with_stdin (argv_sync cfg) _ h2) as [out h3] eqn:E3.
  apply run_with_stdin_ok in E3; [|done|in_commands|done]. done.
Qed.

Lemma dispatch_ok req h : (forall config firewall, req = WgSync config firewall -> 0%Z ∉ config) -> helper_ok h -> helper_ok (dispatch cfg req h).2.
Proof.
  intros H0 Hh. destruct req; cbn [dispatch].
  1, 2, 4, 6: apply respond_run_ok; [done|in_commands|done].
  - apply wg_sync_ok; [by eapply H0|done].
  - by apply nft_apply_ok.
  - done.
Qed.

Lemma answer_line_ok json_request line h r h' :
  (forall line config firewall, json_request line = Some (WgSync config firewall) -> 0%Z ∉ config) ->
  answer_line cfg json_request line h = Some (r, h') -> helper_ok h -> helper_ok h'.
Proof.
  intros H0. unfold answer_line. intros E Hh.
  destruct (utf8_valid line); [|done]. apply (inj Some) in E. change h' with ((r, h').2). rewrite <- E.
  destruct (json_request (trim line)) as [req|] eqn:Ej; [|done]. apply dispatch_ok; [|done]. intros config firewall ->. by eapply H0.
Qed.

Lemma serve_ok json_request inputs h :
  (forall line config firewall, json_request line = Some (WgSync config firewall) -> 0%Z ∉ config) ->
  helper_ok h -> helper_ok (serve cfg json_request inputs h).
Proof.
  intros H0. revert h. induction inputs as [|input inputs IH]; intros h Hh; [done|]. cbn [serve]. apply IH.
  destruct (handle_connection cfg json_request input h) as [[r h']|] eqn:E; [|done]. by eapply answer_line_ok.
Qed.
End state.

(** A line of the caller with a command to run, as [awg-quick] reads it. *)
Definition has_hook (config : bytes) : Prop := exists k v, (k, v) ∈ quick_hooks config /\ ~ bare_name (k, v).

(** C12: Whatever the unprivileged process sends, in whatever order, as long as no
    configuration has a zero byte in it: the helper only runs its nine fixed argument
    vectors, applies a ruleset right after checking the same text, and keeps a
    configuration file in which every hook that [awg-quick] would run as root is a
    command of its own with two networks and a port filled in, with one exception: a
    line of the caller that is only the name of a hook is kept, and runs that name
    (lemma bare_name_runs).  Where a write of the file stopped short, a command of its
    own may be cut.  A configuration that gives a hook a command is refused before
    anything is written or run. *)
Theorem helper_hooks_only (W : Type) (HW : Host W) (cfg : HelperConfig) (json_request : bytes -> option Request) (inputs : list bytes) (w : W) :
  device_ok (interface cfg) ->
  (forall line config firewall, json_request line = Some (WgSync config firewall) -> 0%Z ∉ config) ->
  let h := serve cfg json_request inputs (mkHelper None [] w) in
  file_ok cfg (writes_whole W) (file h) /\ log_ok cfg (log h)
  /\ forall config firewall, 0%Z ∉ config -> has_hook config -> dispatch cfg (WgSync config firewall) h = (Err tt, h).
Proof.
  intros Hdev H0 h. assert (helper_ok cfg h) as [Hf Hl].
  { subst h. apply serve_ok; [done|done|]. split; [by intros ? ? ?|constructor]. }
  split; [done|]. split; [done|]. intros config firewall Hz (k & v & Hin & Hne). cbn [dispatch]. unfold wg_sync.
  destruct (reject_hook_directives config) eqn:Hr; [|done]. destruct Hne. by apply (accepted_hooks config).
Qed.

(** *** On a concrete host *)

Definition sample_host : Host unit := {| exec _ _ w := (Some [], w); write_end _ := Written |}.
Definition sample_config : HelperConfig := mkHelperConfig (bstr "cb0").
(** The text [up] and every other text stand for requests. *)
Definition sample_request (line : bytes) : option Request :=
  if decide (0%Z ∈ line) then None else if decide (line = bstr "up") then Some WgUp
  else Some (WgSync line (Some (mkFirewallParams (bstr "10.8.0.0/24") (bstr "fdcc::/64") 51820))).
Definition sample_inputs : list bytes := bstr <$> ["MTU = 1420"; "PostUp = id"; "up"]%string.

Lemma helper_hooks_only_witness :
  let h := @serve unit sample_host sample_config sample_request sample_inputs (mkHelper None [] tt) in
  (fst <$> log h) = [argv_show sample_config; argv_strip sample_config; argv_sync sample_config; argv_up sample_config]
  /\ (quick_hooks <$> file h) = Some [(UP_HOOK, strip (up_command (bstr "cb0") (bstr "10.8.0.0/24") (bstr "fdcc::/64") (bstr "51820"))); (DOWN_HOOK, POST_DOWN_TEMPLATE)]
  /\ file_ok sample_config True (file h)
  /\ @dispatch unit sample_host sample_config (WgSync (bstr "PostUp = id") None) h = (Err tt, h).
Proof.
  split; [by vm_compute|]. split; [by vm_compute|].
  destruct (helper_hooks_only unit sample_host sample_config sample_request sample_inputs tt) as (Hf & _ & Hr).
  - apply (bool_decide_unpack _). vm_compute. exact I.
  - intros line config firewall. unfold sample_request. destruct (decide (0%Z ∈ line)); [done|].
    destruct (decide (line = bstr "up")); [done|]. by intros [= -> _].
  - split; [intros text kv Et Hin; destruct (Hf text kv Et Hin) as [?|(cmd & c & Hc & Hp & Hv & Hw)];
      [by left|right; exists cmd, c; split_and!; [exact Hc|exact Hp|exact Hv|by intros _; apply Hw]]|]. apply Hr; [apply (bool_decide_unpack _); vm_compute; exact I|]. exists UP_HOOK, (bstr "id").
    split; [|done]. apply (bool_decide_unpack _). vm_compute. exact I.
Defined.
