(* ===== verification/Varint.v ===== *)
(** * Variable-length integers (RFC 9000, section 16)

    The writers and the reader of [src/src/proxy/quic_handshake.rs] and
    [src/src/trusttunnel/deeplink.rs]: one, two, four or eight bytes, most
    significant first, with the class of the length in the two top bits. *)
From S2P Require Import Prelude.

(** [to_be_bytes] of a word of [n] bytes. *)
Fixpoint be_bytes (n : nat) (v : Z) : bytes :=
  match n with O => [] | S n => u8 (Z.shiftr v (8 * Z.of_nat n)) :: be_bytes n v end.

(** [quic_handshake.rs]. *)
Definition read_varint (buf : bytes) : option (Z * nat) :=
  first ← head buf;
  let len := Z.to_nat (Z.shiftl 1 (Z.shiftr first 6)) in
  if decide (length buf < len) then None else
  Some (foldl (fun value b => Z.lor (u64 (Z.shiftl value 8)) b) (Z.land first 0x3f) (take (len - 1) (drop 1 buf)), len).

Definition write_varint (value : Z) : bytes :=
  if decide (value ≤ 0x3f)%Z then [u8 value]
  else if decide (value ≤ 0x3fff)%Z then be_bytes 2 (Z.lor 0x4000 (u16 value))
  else if decide (value ≤ 0x3fffffff)%Z then be_bytes 4 (Z.lor 0x80000000 (u32 value))
  else be_bytes 8 (Z.lor 0xc000000000000000 value).

Definition varint_len (value : Z) : nat :=
  if decide (value ≤ 0x3f)%Z then 1 else if decide (value ≤ 0x3fff)%Z then 2 else if decide (value ≤ 0x3fffffff)%Z then 4 else 8.

(** [deeplink.rs], which refuses what does not fit. *)
Definition put_varint (v : Z) : option bytes :=
  if decide (v ≤ 0x3f)%Z then Some [u8 v]
  else if decide (v ≤ 0x3fff)%Z then Some (be_bytes 2 (Z.lor (u16 v) 0x4000))
  else if decide (v ≤ 0x3fffffff)%Z then Some (be_bytes 4 (Z.lor (u32 v) 0x80000000))
  else if decide (v ≤ 0x3fffffffffffffff)%Z then Some (be_bytes 8 (Z.lor v 0xc000000000000000))
  else None.

Example varint_boundaries :
  write_varint <$> [0; 63; 64; 16383; 16384; 1073741823; 1073741824]%Z
  = [[0]; [63]; [64; 64]; [127; 255]; [128; 0; 64; 0]; [191; 255; 255; 255]; [192; 0; 0; 0; 64; 0; 0; 0]]%Z
  /\ put_varint (2 ^ 64 - 1) = None.
Proof. by vm_compute. Qed.

(** ** Words *)

Lemma length_be_bytes n v : length (be_bytes n v) = n.
Proof. induction n as [|n IH]; [done|]. cbn [be_bytes length]. by rewrite IH. Qed.

Lemma be_bytes_ok n v : bytes_ok (be_bytes n v).
Proof. induction n as [|n IH]; [by constructor|]. constructor; [apply u8_range|exact IH]. Qed.

Definition push_byte (value b : Z) : Z := Z.lor (Z.shiftl value 8) b.

Lemma push_byte_add value b : byte_ok b -> push_byte value b = (value * 256 + b)%Z.
Proof.
  intros Hb. unfold push_byte. rewrite Z.shiftl_mul_pow2 by lia. change (2 ^ 8)%Z with 256%Z.
  rewrite <- Z.lxor_lor, <- Z.add_nocarry_lxor; [done|..].
  all: apply Z.bits_inj'; intros i Hi; rewrite Z.land_spec, Z.bits_0;
    destruct (decide (i < 8)%Z);
    [change 256%Z with (2 ^ 8)%Z; rewrite Z.mul_pow2_bits_low by lia; done|rewrite (byte_testbit_high b) by (done || lia); apply andb_false_r].
Qed.

Lemma foldl_be_bytes n v acc : foldl push_byte acc (be_bytes n v) = (acc * 256 ^ Z.of_nat n + v `mod` 256 ^ Z.of_nat n)%Z.
Proof.
  revert acc. induction n as [|n IH]; intros acc; [cbn; rewrite Z.mod_1_r; lia|]. cbn [be_bytes foldl].
  rewrite IH, push_byte_add by apply u8_range. unfold u8, wrap. rewrite Z.shiftr_div_pow2 by lia.
  replace (2 ^ (8 * Z.of_nat n))%Z with (256 ^ Z.of_nat n)%Z by (rewrite Z.pow_mul_r by lia; done). change (2 ^ 8)%Z with 256%Z.
  rewrite Nat2Z.inj_succ, Z.pow_succ_r, (Z.mul_comm 256), (Z.rem_mul_r v) by lia. ring.
Qed.

Lemma foldl_push_wrap l acc : (0 ≤ acc)%Z -> bytes_ok l -> (acc * 256 ^ Z.of_nat (length l) + 256 ^ Z.of_nat (length l) ≤ 2 ^ 64)%Z ->
  foldl (fun value b => Z.lor (u64 (Z.shiftl value 8)) b) acc l = foldl push_byte acc l.
Proof.
  intros Ha Hl. revert acc Ha. induction Hl as [|b l Hb Hl IH]; intros acc Ha Hlt; [done|]. cbn [foldl]. cbn [length] in Hlt.
  rewrite Nat2Z.inj_succ, Z.pow_succ_r in Hlt by lia. pose proof (Z.pow_pos_nonneg 256 (Z.of_nat (length l)) ltac:(lia) ltac:(lia)) as Hp.
  assert ((acc + 1) * 256 ≤ 2 ^ 64)%Z by nia.
  unfold u64 at 2. rewrite wrap_small by (rewrite Z.shiftl_mul_pow2 by lia; lia). fold (push_byte acc b).
  rewrite push_byte_add by done. unfold byte_ok in Hb. apply IH; [lia|]. nia.
Qed.

(** ** Integers *)

Lemma lor_class (c k v : Z) : (0 ≤ k)%Z -> (0 ≤ c)%Z -> (0 ≤ v < 2 ^ k)%Z -> Z.lor (c * 2 ^ k) v = (c * 2 ^ k + v)%Z.
Proof.
  intros Hk Hc Hv. rewrite <- Z.lxor_lor, <- Z.add_nocarry_lxor; [done|..].
  all: apply Z.bits_inj'; intros i Hi; rewrite Z.land_spec, Z.bits_0; destruct (decide (i < k)%Z);
    [rewrite Z.mul_pow2_bits_low by lia; done|rewrite (testbit_high k v i) by lia; apply andb_false_r].
Qed.

(** A word of [n] bytes with class [c], where [2 ^ c = n]. *)
Lemma read_class c m v s : (1 ≤ c ≤ 3)%Z -> Z.of_nat (S m) = (2 ^ c)%Z -> (0 ≤ v < 64 * 256 ^ Z.of_nat m)%Z ->
  read_varint (be_bytes (S m) (c * (64 * 256 ^ Z.of_nat m) + v) ++ s) = Some (v, S m).
Proof.
  intros Hc Hm Hv. set (p := (256 ^ Z.of_nat m)%Z) in *. assert (0 < p)%Z as Hp by (apply Z.pow_pos_nonneg; lia).
  set (w := (c * (64 * p) + v)%Z). cbn [be_bytes app].
  assert (u8 (Z.shiftr w (8 * Z.of_nat m)) = c * 64 + v / p)%Z as Hf.
  { rewrite Z.shiftr_div_pow2 by lia. replace (2 ^ (8 * Z.of_nat m))%Z with p by (unfold p; rewrite Z.pow_mul_r by lia; done).
    unfold w. replace (c * (64 * p) + v)%Z with (c * 64 * p + v)%Z by ring. rewrite Z.div_add_l by lia.
    apply u8_small. unfold byte_ok. pose proof (Z.div_lt_upper_bound v p 64 Hp ltac:(lia)). pose proof (Z.div_pos v p ltac:(lia) Hp). lia. }
  pose proof (Z.div_lt_upper_bound v p 64 Hp ltac:(lia)) as Hd. pose proof (Z.div_pos v p ltac:(lia) Hp) as Hd0.
  unfold read_varint. cbn [head mbind option_bind]. rewrite Hf.
  assert (Z.shiftr (c * 64 + v / p) 6 = c) as ->.
  { rewrite Z.shiftr_div_pow2 by lia. change (2 ^ 6)%Z with 64%Z. rewrite Z.div_add_l by lia. rewrite Z.div_small by lia. lia. }
  rewrite Z.shiftl_mul_pow2, Z.mul_1_l, <- Hm, Nat2Z.id by lia. cbn [length drop].
  rewrite decide_False by (rewrite length_app, length_be_bytes; lia). replace (S m - 1) with m by lia. rewrite drop_0.
  rewrite take_app_le by (rewrite length_be_bytes; lia). rewrite take_ge by (rewrite length_be_bytes; lia).
  assert (Z.land (c * 64 + v / p) 0x3f = v / p)%Z as ->.
  { change 0x3f%Z with (Z.ones 6). rewrite Z.land_ones by lia. change (2 ^ 6)%Z with 64%Z. rewrite Z.add_comm, Z.mod_add by lia. apply Z.mod_small. lia. }
  assert (m ≤ 7) as Hm7 by (assert (2 ^ c ≤ 2 ^ 3)%Z by (apply Z.pow_le_mono_r; lia); lia).
  rewrite foldl_push_wrap; [|done|apply be_bytes_ok|].
  - rewrite foldl_be_bytes. fold p. replace (w `mod` p)%Z with (v `mod` p)%Z.
    + f_equal. f_equal. rewrite (Z.div_mod v p) at 3 by lia. ring.
    + unfold w. rewrite <- (Z.mod_add v (c * 64) p) by lia. f_equal. ring.
  - rewrite length_be_bytes. fold p. assert (p ≤ 256 ^ 7)%Z as Hp7 by (apply Z.pow_le_mono_r; lia). change (256 ^ 7)%Z with (2 ^ 56)%Z in Hp7. nia.
Qed.

Definition varint_ok (v : Z) : Prop := (0 ≤ v < 2 ^ 62)%Z.

(** The four forms of an integer. *)
Lemma write_varint_cases v : varint_ok v ->
  (v ≤ 0x3f)%Z /\ write_varint v = [v]
  \/ (0x3f < v ≤ 0x3fff)%Z /\ write_varint v = be_bytes 2 (1 * (64 * 256 ^ Z.of_nat 1) + v)
  \/ (0x3fff < v ≤ 0x3fffffff)%Z /\ write_varint v = be_bytes 4 (2 * (64 * 256 ^ Z.of_nat 3) + v)
  \/ (0x3fffffff < v)%Z /\ write_varint v = be_bytes 8 (3 * (64 * 256 ^ Z.of_nat 7) + v).
Proof.
  intros Hv. unfold varint_ok in Hv. unfold write_varint. case_decide; [left; split; [done|]; rewrite u8_small by (unfold byte_ok; lia); done|].
  case_decide; [right; left; split; [lia|]|case_decide; [right; right; left; split; [lia|]|right; right; right; split; [lia|]]].
  - unfold u16. rewrite wrap_small by lia. change 0x4000%Z with (1 * 2 ^ 14)%Z. by rewrite lor_class by lia.
  - unfold u32. rewrite wrap_small by lia. change 0x80000000%Z with (2 * 2 ^ 30)%Z. by rewrite lor_class by lia.
  - change 0xc000000000000000%Z with (3 * 2 ^ 62)%Z. by rewrite lor_class by lia.
Qed.

Lemma write_varint_len v : length (write_varint v) = varint_len v.
Proof. unfold write_varint, varint_len. repeat (case_decide; [by rewrite ?length_be_bytes|]). by rewrite length_be_bytes. Qed.

Lemma write_varint_ok v : bytes_ok (write_varint v).
Proof.
  unfold write_varint. repeat (case_decide; [try apply be_bytes_ok; apply Forall_singleton, u8_range|]); [apply be_bytes_ok..].
Qed.

Lemma varint_len_bounds v : 1 ≤ varint_len v ≤ 8.
Proof. unfold varint_len. repeat case_decide; lia. Qed.

Lemma varint_len_mono v w : (v ≤ w)%Z -> varint_len v ≤ varint_len w.
Proof. intros. unfold varint_len. repeat case_decide; lia. Qed.

(** What is written is read back, whatever follows. *)
Lemma read_write_varint v s : varint_ok v -> read_varint (write_varint v ++ s) = Some (v, varint_len v).
Proof.
  intros Hv. rewrite <- write_varint_len. destruct (write_varint_cases v Hv) as [[Hr ->]|[[Hr ->]|[[Hr ->]|[Hr ->]]]]; unfold varint_ok in Hv; rewrite ?length_be_bytes.
  - cbn [app length]. unfold read_varint. cbn [head mbind option_bind]. rewrite Z.shiftr_div_pow2 by lia. change (2 ^ 6)%Z with 64%Z.
    rewrite Z.div_small by lia. cbn [length]. change (Z.to_nat (Z.shiftl 1 0)) with 1. rewrite decide_False by lia. cbn [drop Nat.sub take foldl].
    change 0x3f%Z with (Z.ones 6). rewrite Z.land_ones, Z.mod_small by lia. done.
  - apply (read_class 1 1); [lia|done|]. change (64 * 256 ^ Z.of_nat 1)%Z with (2 ^ 14)%Z. lia.
  - apply (read_class 2 3); [lia|done|]. change (64 * 256 ^ Z.of_nat 3)%Z with (2 ^ 30)%Z. lia.
  - apply (read_class 3 7); [lia|done|]. change (64 * 256 ^ Z.of_nat 7)%Z with (2 ^ 62)%Z. lia.
Qed.

Lemma put_write_varint v : (0 ≤ v)%Z -> put_varint v = if decide (v < 2 ^ 62)%Z then Some (write_varint v) else None.
Proof.
  intros Hv. unfold put_varint, write_varint. repeat (case_decide; [rewrite ?decide_True by lia; by rewrite 1?Z.lor_comm|]). by rewrite decide_False by lia.
Qed.

Lemma foldl_push_range l acc : bytes_ok l ->
  (acc * 256 ^ Z.of_nat (length l) ≤ foldl push_byte acc l < (acc + 1) * 256 ^ Z.of_nat (length l))%Z.
Proof.
  intros Hl. revert acc. induction Hl as [|b l Hb Hl IH]; intros acc; [cbn; lia|]. cbn [foldl length].
  rewrite Nat2Z.inj_succ, Z.pow_succ_r, push_byte_add by (lia || done). unfold byte_ok in Hb. specialize (IH (acc * 256 + b)%Z).
  pose proof (Z.pow_pos_nonneg 256 (Z.of_nat (length l)) ltac:(lia) ltac:(lia)). nia.
Qed.

(** Reading consumes a byte or more, never more than there are, and gives 62 bits. *)
Lemma read_varint_inv buf v n : bytes_ok buf -> read_varint buf = Some (v, n) -> varint_ok v /\ 1 ≤ n ≤ length buf.
Proof.
  intros Hb. unfold read_varint. destruct buf as [|first buf]; [done|]. cbn [head mbind option_bind]. apply Forall_cons in Hb as [Hf Hb].
  case_decide as Hl; [done|]. intros [= <- <-]. unfold byte_ok in Hf.
  assert (0 ≤ Z.shiftr first 6 ≤ 3)%Z as Hs.
  { rewrite Z.shiftr_div_pow2 by lia. change (2 ^ 6)%Z with 64%Z. pose proof (Z.div_lt_upper_bound first 64 4 ltac:(lia) ltac:(lia)).
    pose proof (Z.div_pos first 64 ltac:(lia) ltac:(lia)). lia. }
  rewrite Z.shiftl_mul_pow2 in * by lia. set (c := Z.shiftr first 6) in *. assert (1 ≤ 2 ^ c ≤ 8)%Z as Hn.
  { change 1%Z with (2 ^ 0)%Z at 1. change 8%Z with (2 ^ 3)%Z. split; apply Z.pow_le_mono_r; lia. }
  split; [|lia]. cbn [drop]. rewrite drop_0. set (l := take _ buf).
  assert (bytes_ok l) as Hl' by (by apply Forall_take). assert (length l ≤ 7) as Hlen by (unfold l; rewrite length_take; lia).
  assert (256 ^ Z.of_nat (length l) ≤ 256 ^ 7)%Z as Hp by (apply Z.pow_le_mono_r; lia). change (256 ^ 7)%Z with (2 ^ 56)%Z in Hp.
  pose proof (Z.pow_pos_nonneg 256 (Z.of_nat (length l)) ltac:(lia) ltac:(lia)).
  assert (0 ≤ Z.land first 0x3f < 64)%Z as Ha by (change 0x3f%Z with (Z.ones 6); rewrite Z.land_ones by lia; apply Z.mod_pos_bound; lia).
  rewrite foldl_push_wrap by (lia || nia || done). pose proof (foldl_push_range l (Z.land first 0x3f) Hl') as Hr. unfold varint_ok. nia.
Qed.
