(* ===== verification/QuicPackets.v ===== *)
(** * QUIC packets ([src/src/proxy/quic_handshake.rs])

    Reading a client's Initial packet and its frames; writing long-header packets,
    frames and transport parameters.  The cryptography of rustls is the class
    [QuicCrypto], with the laws of RFC 9001 in [QuicLaws]. *)
From S2P Require Import Prelude Varint.

Definition QUIC_V1 : Z := 1.
Definition PACKET_TYPE_INITIAL : Z := 0.
Definition PACKET_TYPE_HANDSHAKE : Z := 2.
Definition MAX_DATAGRAM : nat := 1200.
Definition AMPLIFICATION_LIMIT : nat := 3.
Definition TAG_LEN : nat := 16.
Definition SAMPLE_OFFSET : nat := 4.
Definition SAMPLE_LEN : nat := 16.
Definition SCID_LEN : nat := 8.

(** Third-party code: the keys of one direction, for packets and for their headers.
    [seal] gives the ciphertext and its tag; both header operations give the first byte
    and the bytes of the packet number. *)
Class QuicCrypto : Type := {
  PacketKeys : Type;
  initial_local : bytes -> option PacketKeys;
  initial_remote : bytes -> option PacketKeys;
  seal : PacketKeys -> Z -> bytes -> bytes -> option (bytes * bytes);
  unseal : PacketKeys -> Z -> bytes -> bytes -> option bytes;
  header_encrypt : PacketKeys -> bytes -> Z -> bytes -> option (Z * bytes);
  header_decrypt : PacketKeys -> bytes -> Z -> bytes -> option (Z * bytes);
}.

(** What is used of them: keys exist, sealing keeps the length, adds a tag and is undone
    by the holder of the same keys; header protection is undone, keeps the length, the
    packet type, and works in place on as many bytes as the first byte says. *)
Class QuicLaws (C : QuicCrypto) : Prop := {
  initial_local_some dcid : is_Some (initial_local dcid);
  initial_remote_some dcid : is_Some (initial_remote dcid);
  seal_some k pn header body : (0 ≤ pn < 2 ^ 62)%Z -> bytes_ok body -> (Z.of_nat (length body) ≤ 65535)%Z -> is_Some (seal k pn header body);
  seal_shape k pn header body c t : seal k pn header body = Some (c, t) -> length c = length body /\ length t = TAG_LEN /\ bytes_ok (c ++ t);
  unseal_seal k pn header body c t : seal k pn header body = Some (c, t) -> unseal k pn header (c ++ t) = Some body;
  unseal_bytes k pn header body plain : unseal k pn header body = Some plain -> bytes_ok plain;
  header_encrypt_some k sample first pn : length sample = SAMPLE_LEN -> length pn = Z.to_nat (Z.land first 3) + 1 -> is_Some (header_encrypt k sample first pn);
  header_encrypt_shape k sample first pn first' pn' : byte_ok first -> bytes_ok pn -> header_encrypt k sample first pn = Some (first', pn') ->
    byte_ok first' /\ bytes_ok pn' /\ length pn' = length pn /\ (Z.land first 0x80 <> 0 -> Z.land first' 0xf0 = Z.land first 0xf0)%Z;
  header_decrypt_encrypt k sample first pn first' pn' rest : length pn = Z.to_nat (Z.land first 3) + 1 -> length (pn ++ rest) = 4 ->
    header_encrypt k sample first pn = Some (first', pn') -> header_decrypt k sample first' (pn' ++ rest) = Some (first, pn ++ rest);
  header_decrypt_shape k sample first pn first' pn' : byte_ok first -> bytes_ok pn -> header_decrypt k sample first pn = Some (first', pn') ->
    byte_ok first' /\ bytes_ok pn' /\ length pn' = length pn;
}.

(** ** Reading *)

Record ClientInitial : Set := mkClientInitial { c_dcid : bytes; c_scid : bytes; c_packet_number : Z; c_payload : bytes }.
Record CryptoChunk : Set := mkCryptoChunk { ch_offset : Z; ch_data : bytes }.

Definition decode_packet_number (largest_acked : option Z) (truncated bits : Z) : Z :=
  let expected := match largest_acked with Some n => u64 (n + 1) | None => 0%Z end in
  let window := u64 (Z.shiftl 1 bits) in
  let half := (window / 2)%Z in
  let candidate := Z.lor (Z.land expected (Z.lnot (window - 1))) truncated in
  if bool_decide (u64 (candidate + half) ≤ expected)%Z && bool_decide (u64 (candidate + window) < 2 ^ 64 - 1)%Z then u64 (candidate + window)
  else if bool_decide (u64 (expected + half) < candidate)%Z && bool_decide (window ≤ candidate)%Z then (candidate - window)%Z
  else candidate.

Section crypto.
Context `{QuicCrypto}.

(** [Err] is a packet that cannot be decrypted; [Ok None] one that is no business of the responder. *)
Definition parse_client_initial (packet : bytes) : result unit (option ClientInitial) :=
  if decide (length packet < 7) then Ok None else
  first ← index packet 0;
  if decide (Z.land first 0x80 = 0%Z) then Ok None else
  version ← slice packet 1 5;
  if decide (foldl push_byte 0%Z version <> QUIC_V1) then Ok None else
  if decide (Z.shiftr (Z.land first 0x30) 4 <> PACKET_TYPE_INITIAL) then Ok None else
  dcid_len ← index packet 5;
  let dcid_len := Z.to_nat dcid_len in
  let pos := 6 in
  if decide (20 < dcid_len \/ length packet < pos + dcid_len + 1) then Ok None else
  dcid ← slice packet pos (pos + dcid_len);
  let pos := pos + dcid_len in
  scid_len ← index packet pos;
  let scid_len := Z.to_nat scid_len in
  let pos := pos + 1 in
  if decide (20 < scid_len \/ length packet < pos + scid_len) then Ok None else
  scid ← slice packet pos (pos + scid_len);
  let pos := pos + scid_len in
  rest ← slice packet pos (length packet);
  match read_varint rest with
  | None => Ok None
  | Some (token_len, n) =>
      let pos := pos + n in
      if decide (Z.of_nat (length packet) < Z.of_nat pos + token_len)%Z then Ok None else
      let pos := pos + Z.to_nat token_len in
      rest ← slice packet pos (length packet);
      match read_varint rest with
      | None => Ok None
      | Some (len, n) =>
          let pn_offset := pos + n in
          if decide (len < Z.of_nat (4 + TAG_LEN) \/ Z.of_nat (length packet) < Z.of_nat pn_offset + len)%Z then Ok None else
          let len := Z.to_nat len in
          if decide (length packet < pn_offset + SAMPLE_OFFSET + SAMPLE_LEN) then Ok None else
          keys ← ok_or tt (initial_remote dcid);
          sample ← slice packet (pn_offset + SAMPLE_OFFSET) (pn_offset + SAMPLE_OFFSET + SAMPLE_LEN);
          pn_bytes ← slice packet pn_offset (pn_offset + 4);
          '(first_byte, pn_bytes) ← ok_or tt (header_decrypt keys sample first pn_bytes);
          let pn_len := Z.to_nat (Z.land first_byte 0x03 + 1) in
          pn ← slice pn_bytes 0 pn_len;
          let truncated := foldl (fun truncated b => Z.lor (u64 (Z.shiftl truncated 8)) b) 0%Z pn in
          let packet_number := decode_packet_number None truncated (8 * Z.of_nat pn_len) in
          header ← slice packet 0 (pn_offset + pn_len);
          let header := <[0 := first_byte]> (take pn_offset header) ++ pn in
          let body_start := pn_offset + pn_len in
          let body_end := pn_offset + len in
          if decide (body_end ≤ body_start \/ length packet < body_end) then Ok None else
          body ← slice packet body_start body_end;
          plain ← ok_or tt (unseal keys packet_number header body);
          Ok (Some (mkClientInitial dcid scid packet_number plain))
      end
  end.

(** Some variable-length integers, one after the other. *)
Fixpoint read_varints (n : nat) (s : bytes) : option (list Z * bytes) :=
  match n with
  | O => Some ([], s)
  | S n => '(v, k) ← read_varint s; '(vs, s) ← read_varints n (drop k s); Some (v :: vs, s)
  end.

Fixpoint skip_varints (fuel : nat) (count : Z) (s : bytes) : result unit (option bytes) :=
  match fuel with
  | O => Stuck OutOfFuel
  | S fuel =>
      if decide (count ≤ 0)%Z then Ok (Some s) else
      match read_varint s with None => Ok None | Some (_, k) => skip_varints fuel (count - 1) (drop k s) end
  end.

(** [rest] is [payload[pos..]]. *)
Fixpoint frames_loop (fuel : nat) (rest : bytes) (out : list CryptoChunk) : result unit (list CryptoChunk) :=
  match fuel with
  | O => Stuck OutOfFuel
  | S fuel =>
      match rest with
      | [] => Ok out
      | frame_type :: rest =>
          if decide (frame_type = 0x00 \/ frame_type = 0x01)%Z then frames_loop fuel rest out
          else if decide (frame_type = 0x02 \/ frame_type = 0x03)%Z then
            match read_varints 4 rest with
            | None => Ok out
            | Some (vs, rest) =>
                let ranges := default 0%Z (vs !! 2) in
                skipped ← skip_varints (S (length rest)) (ranges * 2 + if decide (frame_type = 0x03)%Z then 3 else 0) rest;
                match skipped with None => Ok out | Some rest => frames_loop fuel rest out end
            end
          else if decide (frame_type = 0x06)%Z then
            match read_varint rest with
            | None => Ok out
            | Some (offset, n) =>
                let rest := drop n rest in
                match read_varint rest with
                | None => Ok out
                | Some (len, n) =>
                    let rest := drop n rest in
                    if decide (Z.of_nat (length rest) < len)%Z then Ok out else
                    data ← slice rest 0 (Z.to_nat len);
                    frames_loop fuel (drop (Z.to_nat len) rest) (out ++ [mkCryptoChunk offset data])
                end
            end
          else Ok out
      end
  end.

Definition collect_crypto_frames (payload : bytes) : result unit (list CryptoChunk) := frames_loop (S (length payload)) payload [].

(** ** Writing *)

Record PacketPlan : Type := mkPacketPlan { p_type : Z; p_number : Z; p_payload : bytes; p_keys : PacketKeys }.

Definition long_header (packet_type : Z) (dcid scid : bytes) (payload_len : nat) : bytes :=
  (Z.lor (Z.lor (Z.lor 0x80 0x40) (u8 (Z.shiftl packet_type 4))) 0x03 :: be_bytes 4 QUIC_V1)
  ++ u8 (Z.of_nat (length dcid)) :: dcid ++ u8 (Z.of_nat (length scid)) :: scid
  ++ (if decide (packet_type = PACKET_TYPE_INITIAL) then write_varint 0 else [])
  ++ write_varint (Z.of_nat (4 + payload_len + TAG_LEN)).

(** The packet is appended to [out]; header protection comes last, over a sample of the ciphertext. *)
Definition encode_packet (plan : PacketPlan) (dcid scid out : bytes) : result unit bytes :=
  let head := long_header (p_type plan) dcid scid (length (p_payload plan)) in
  let pn := be_bytes 4 (u32 (p_number plan)) in
  '(body, tag) ← ok_or tt (seal (p_keys plan) (p_number plan) (head ++ pn) (p_payload plan));
  let pn_and_body := pn ++ body ++ tag in
  if decide (length pn_and_body < SAMPLE_OFFSET + SAMPLE_LEN) then Err tt else
  sample ← slice pn_and_body SAMPLE_OFFSET (SAMPLE_OFFSET + SAMPLE_LEN);
  first ← index head 0;
  '(first, pn) ← ok_or tt (header_encrypt (p_keys plan) sample first pn);
  Ok (out ++ <[0 := first]> head ++ pn ++ body ++ tag).
End crypto.

Definition packet_overhead (packet_type : Z) (dcid_len scid_len payload_len : nat) : nat :=
  1 + 4 + 1 + dcid_len + 1 + scid_len + (if decide (packet_type = PACKET_TYPE_INITIAL) then 1 else 0)
  + varint_len (Z.of_nat (4 + payload_len + TAG_LEN)) + 4 + TAG_LEN.

Definition ack_frame (packet_number : Z) : bytes := 0x02%Z :: write_varint packet_number ++ write_varint 0 ++ write_varint 0 ++ write_varint 0.
Definition crypto_frame (offset : Z) (data : bytes) : bytes := 0x06%Z :: write_varint offset ++ write_varint (Z.of_nat (length data)) ++ data.
Definition connection_close_frame (alert : Z) : bytes := 0x1c%Z :: write_varint (Z.lor 0x0100 alert) ++ write_varint 0 ++ write_varint 0.
Definition crypto_frame_overhead (offset : Z) (len : nat) : nat := 1 + varint_len offset + varint_len (Z.of_nat len).

(** Transport parameters: identifier, length, value. *)
Definition put (id : Z) (value : bytes) : bytes := write_varint id ++ write_varint (Z.of_nat (length value)) ++ value.
Definition put_int (id value : Z) : bytes := put id (write_varint value).

Definition transport_parameters (original_dcid scid : bytes) : bytes :=
  put 0x00 original_dcid ++ put_int 0x01 30000 ++ put_int 0x03 1472 ++ put_int 0x04 786432 ++ put_int 0x05 65536 ++ put_int 0x06 65536
  ++ put_int 0x07 65536 ++ put_int 0x08 100 ++ put_int 0x09 3 ++ put_int 0x0a 3 ++ put_int 0x0b 25 ++ put_int 0x0e 2 ++ put 0x0f scid.
