(* ===== verification/QuicResponder.v ===== *)
(** * The QUIC handshake responder ([src/src/proxy/quic_handshake.rs])

    The ClientHello reassembled from CRYPTO data, the TLS flight and the datagrams
    that carry it.  The TLS connection of rustls is the class [QuicTls]; the clock
    (in milliseconds) and each connection identifier drawn are arguments. *)
From stdpp Require Import gmap sorting.
From S2P Require Import Prelude Text Varint QuicPackets.

Definition PENDING_TTL : Z := 3000.
Definition MAX_PENDING : nat := 2048.
Definition MAX_CRYPTO_BYTES : Z := 64 * 1024.

(** ** Certificates *)

Section resolver.
Context {Cert : Type} (certified_key : bytes -> option Cert).

Record DynamicSniResolver : Type := mkResolver { default_domain : bytes; cache : gmap bytes Cert }.

Definition resolver_new (domain : bytes) : option DynamicSniResolver :=
  let domain := to_ascii_lower <$> domain in
  ck ← certified_key domain;
  Some (mkResolver domain {[domain := ck]}).

Definition label_char (c : Z) : bool := bool_decide (48 ≤ c ≤ 57 \/ 65 ≤ c ≤ 90 \/ 97 ≤ c ≤ 122 \/ c = 45)%Z.

Definition is_valid_sni_hostname (name : bytes) : bool :=
  if bool_decide (name = []) || bool_decide (253 < length name) then false
  else if bool_decide (head name = Some 46%Z) || bool_decide (last name = Some 46%Z) then false
  else forallb (fun label => negb (bool_decide (label = [])) && bool_decide (length label ≤ 63)
         && negb (bool_decide (head label = Some 45%Z)) && negb (bool_decide (last label = Some 45%Z)) && forallb label_char label)
         (split_on (fun c => bool_decide (c = 46%Z)) name).

Definition default_cert (r : DynamicSniResolver) : option Cert :=
  match cache r !! default_domain r with Some ck => Some ck | None => certified_key (default_domain r) end.

(** The name that the client asks for, if any. *)
Definition resolve (r : DynamicSniResolver) (server_name : option bytes) : option Cert :=
  let requested := to_ascii_lower <$> default [] (trim <$> server_name) in
  if decide (requested = default_domain r) then default_cert r else
  match (if is_valid_sni_hostname requested then cache r !! requested else None) with
  | Some ck => Some ck
  | None => default_cert r
  end.
End resolver.
Arguments mkResolver {Cert}.

(** ** TLS *)

Section keys.
Context `{QuicCrypto}.

Inductive KeyChange : Type := HandshakeKeys (local : PacketKeys) | OneRtt.

(** A connection of rustls: what it reads, what it writes with the change of keys, its alert. *)
Class QuicTls : Type := {
  Conn : Type;
  tls_new : bytes -> option Conn;
  read_hs : Conn -> bytes -> bool * Conn;
  write_hs : Conn -> bytes * option KeyChange * Conn;
  tls_alert : Conn -> option Z;
}.

Record TlsFlight : Type := mkTlsFlight { t_initial : bytes; t_handshake : bytes; handshake_keys : option PacketKeys; t_alert : option Z }.
End keys.

Section responder.
Context `{QuicTls}.

(** What is written before the Handshake keys belongs to the Initial epoch. *)
Fixpoint write_loop (fuel : nat) (tls : Conn) (flight : TlsFlight) : result unit (TlsFlight * Conn) :=
  match fuel with
  | O => Stuck OutOfFuel
  | S fuel =>
      let '(buf, change, tls) := write_hs tls in
      let flight := match handshake_keys flight with
        | None => mkTlsFlight (t_initial flight ++ buf) (t_handshake flight) None (t_alert flight)
        | Some k => mkTlsFlight (t_initial flight) (t_handshake flight ++ buf) (Some k) (t_alert flight)
        end in
      match change with
      | Some (HandshakeKeys keys) => write_loop fuel tls (mkTlsFlight (t_initial flight) (t_handshake flight) (Some keys) (t_alert flight))
      | Some OneRtt => Ok (flight, tls)
      | None => if decide (buf = []) then Ok (flight, tls) else write_loop fuel tls flight
      end
  end.

Definition run_tls (fuel : nat) (client_hello original_dcid scid : bytes) : result unit TlsFlight :=
  tls ← ok_or tt (tls_new (transport_parameters original_dcid scid));
  let '(accepted, tls) := read_hs tls client_hello in
  if accepted then
    '(flight, tls) ← write_loop fuel tls (mkTlsFlight [] [] None None);
    Ok (match tls_alert tls with
        | Some a => mkTlsFlight (t_initial flight) (t_handshake flight) (handshake_keys flight) (Some a)
        | None => flight
        end)
  else Ok (mkTlsFlight [] [] None (Some (default 80%Z (tls_alert tls)))).

(** ** State *)

Record Pending : Set := mkPending {
  buffer : bytes; contiguous : nat; received : list (Z * Z); n_scid : bytes; n_dcid : bytes; packet_number : Z; received_bytes : Z; created : Z;
}.

Context {Addr : Type} `{Countable Addr}.
Abbreviation Responder := (gmap (Addr * bytes) Pending).

Definition has_active_connection (r : Responder) (remote : Addr) : bool := bool_decide (remote ∈ (fst ∘ fst <$> map_to_list r)).

Definition expire (now : Z) (r : Responder) : Responder := filter (fun kv => now - created (snd kv) < PENDING_TTL)%Z r.
Definition handle_timeouts (now : Z) (r : Responder) : list (Addr * bytes) * Responder := ([], expire now r).

(** ** The flight as datagrams *)

Fixpoint flight_loop (fuel : nat) (hs_keys : PacketKeys) (handshake dcid scid : bytes) (budget : Z)
  (offset : nat) (pn : Z) (sent : Z) (current : bytes) (datagrams : list bytes) : result unit (bytes * list bytes) :=
  match fuel with
  | O => Stuck OutOfFuel
  | S fuel =>
      if decide (offset < length handshake) then
        let room_in_datagram := MAX_DATAGRAM - length current in
        let fixed := packet_overhead PACKET_TYPE_HANDSHAKE (length dcid) (length scid) 0
                     + crypto_frame_overhead (Z.of_nat offset) (length handshake - offset) in
        if decide (room_in_datagram ≤ fixed + 32) then
          if decide (current = []) then flight_loop fuel hs_keys handshake dcid scid budget offset pn sent current datagrams
          else flight_loop fuel hs_keys handshake dcid scid budget offset pn sent [] (datagrams ++ [current])
        else
          let take_ := (room_in_datagram - fixed) `min` (length handshake - offset) in
          piece ← slice handshake offset (offset + take_);
          let frame := crypto_frame (Z.of_nat offset) piece in
          let packet_len := packet_overhead PACKET_TYPE_HANDSHAKE (length dcid) (length scid) (length frame) + length frame in
          if decide (budget < sent + Z.of_nat packet_len)%Z then Ok (current, datagrams) else
          current ← encode_packet (mkPacketPlan PACKET_TYPE_HANDSHAKE pn frame hs_keys) dcid scid current;
          flight_loop fuel hs_keys handshake dcid scid budget (offset + take_) (pn + 1) (sent + Z.of_nat packet_len) current datagrams
      else Ok (current, datagrams)
  end.

Definition initial_reply (state : Pending) (flight : TlsFlight) : bytes :=
  ack_frame (packet_number state) ++ match t_alert flight with Some alert => connection_close_frame alert | None => crypto_frame 0 (t_initial flight) end.

Definition assemble (fuel : nat) (state : Pending) (scid : bytes) (flight : TlsFlight) (budget : Z) : result unit (list bytes) :=
  keys ← ok_or tt (initial_local (n_dcid state));
  let dcid := n_scid state in
  let initial_payload := initial_reply state flight in
  let overhead := packet_overhead PACKET_TYPE_INITIAL (length dcid) (length scid) (length initial_payload) in
  if decide (budget < Z.of_nat (overhead + length initial_payload))%Z then Ok [] else
  current ← encode_packet (mkPacketPlan PACKET_TYPE_INITIAL 0 initial_payload keys) dcid scid [];
  '(current, datagrams) ← match handshake_keys flight with
    | Some hs_keys => flight_loop fuel hs_keys (t_handshake flight) dcid scid budget 0 0 (Z.of_nat (length current)) current []
    | None => Ok (current, [])
    end;
  Ok (datagrams ++ if decide (current = []) then [] else [current]).

(** ** A datagram of a prober *)

Fixpoint merge_chunks (chunks : list CryptoChunk) (buffer : bytes) (received : list (Z * Z)) : result unit (bytes * list (Z * Z)) :=
  match chunks with
  | [] => Ok (buffer, received)
  | c :: chunks =>
      let stop := Z.min (ch_offset c + Z.of_nat (length (ch_data c))) (2 ^ 64 - 1) in
      if decide (MAX_CRYPTO_BYTES < stop)%Z then Err tt else
      let buffer := buffer ++ replicate (Z.to_nat stop - length buffer) 0%Z in
      let start := Z.to_nat (ch_offset c) in
      if decide (start ≤ Z.to_nat stop /\ Z.to_nat stop ≤ length buffer /\ length (ch_data c) = Z.to_nat stop - start) then
        merge_chunks chunks (take start buffer ++ ch_data c ++ drop (Z.to_nat stop) buffer) (received ++ [(ch_offset c, stop)])
      else Stuck Panicked
  end.

(** [sort_unstable] on pairs. *)
Definition pair_le (a b : Z * Z) : Prop := (a.1 < b.1 \/ a.1 = b.1 /\ a.2 ≤ b.2)%Z.
#[export] Instance pair_le_dec : RelDecision pair_le := ltac:(intros a b; unfold pair_le; apply _).

Definition count_contiguous (received : list (Z * Z)) : nat :=
  foldl (fun contiguous r => if decide (Z.to_nat r.1 ≤ contiguous) then contiguous `max` Z.to_nat r.2 else contiguous) 0 received.

(** A handshake message has a type, three bytes of length and a body. *)
Definition complete_handshake_message (buf : bytes) : option bytes :=
  match buf with
  | _ :: b1 :: b2 :: b3 :: _ =>
      let total := 4 + Z.to_nat (foldl push_byte 0 [b1; b2; b3])%Z in
      if decide (total ≤ length buf) then Some (take total buf) else None
  | _ => None
  end.

Definition fresh (now : Z) (initial : ClientInitial) : Pending :=
  mkPending [] 0 [] (c_scid initial) (c_dcid initial) (c_packet_number initial) 0 now.

(** The state with the data of one more packet. *)
Definition absorb (state : Pending) (initial : ClientInitial) (packet_len : nat) (chunks : list CryptoChunk) : result unit Pending :=
  '(buffer, received) ← merge_chunks chunks (buffer state) (received state);
  let received := merge_sort pair_le received in
  Ok (mkPending buffer (count_contiguous received) received (n_scid state) (n_dcid state)
        (Z.max (packet_number state) (c_packet_number initial)) (Z.min (received_bytes state + Z.of_nat packet_len) (2 ^ 64 - 1)) (created state)).

Definition respond (fuel : nat) (scid : bytes) (remote : Addr) (state : Pending) (client_hello : bytes) : result unit (list (Addr * bytes)) :=
  flight ← run_tls fuel client_hello (n_dcid state) scid;
  let budget := Z.min (received_bytes state * Z.of_nat AMPLIFICATION_LIMIT) (2 ^ 64 - 1) in
  datagrams ← assemble fuel state scid flight budget;
  Ok (map (pair remote) datagrams).

(** The state with the data of one more packet, and the ClientHello if it is whole. *)
Definition gather (state : Pending) (initial : ClientInitial) (packet_len : nat) (chunks : list CryptoChunk) : result unit (Pending * option bytes) :=
  state ← absorb state initial packet_len chunks;
  whole ← slice (buffer state) 0 (contiguous state);
  Ok (state, complete_handshake_message whole).

(** Once the entry is out of the table: it goes back if the message is not whole. *)
Definition advance (fuel : nat) (scid : bytes) (remote : Addr) (packet : bytes) (state : Pending) (initial : ClientInitial)
  (chunks : list CryptoChunk) (r : Responder) : result unit (list (Addr * bytes)) * Responder :=
  match gather state initial (length packet) chunks with
  | Err e => (Err e, r)
  | Stuck s => (Stuck s, r)
  | Ok (state, None) => (Ok [], <[(remote, c_dcid initial) := state]> r)
  | Ok (state, Some client_hello) => (respond fuel scid remote state client_hello, r)
  end.

(** The result, and the state also when there is none. *)
Definition try_handle (fuel : nat) (now : Z) (scid : bytes) (remote : Addr) (packet : bytes) (r : Responder)
  : result unit (list (Addr * bytes)) * Responder :=
  match parse_client_initial packet with
  | Err e => (Err e, r)
  | Stuck s => (Stuck s, r)
  | Ok None => (Ok [], r)
  | Ok (Some initial) =>
      match collect_crypto_frames (c_payload initial) with
      | Err e => (Err e, r)
      | Stuck s => (Stuck s, r)
      | Ok chunks =>
          let key := (remote, c_dcid initial) in
          match r !! key with
          | None => if decide (MAX_PENDING ≤ size r) then (Err tt, r) else advance fuel scid remote packet (fresh now initial) initial chunks r
          | Some state => advance fuel scid remote packet state initial chunks (delete key r)
          end
      end
  end.

(** An error is logged and not answered. *)
Definition handle_datagram (fuel : nat) (now : Z) (scid : bytes) (remote : Addr) (packet : bytes) (r : Responder)
  : result unit (list (Addr * bytes)) * Responder :=
  let '(answer, r) := try_handle fuel now scid remote packet (expire now r) in
  (match answer with Err _ => Ok [] | _ => answer end, r).
End responder.
