(* ===== verification/QuicParse.v ===== *)
(** * Reading what a QUIC client sends

    The frames of RFC 9000 that may stand in an Initial packet, as text, and what
    [collect_crypto_frames] makes of any text and of theirs; protected packets, what
    [parse_client_initial] makes of any bytes and of them, and that the server's are such. *)
From S2P Require Import Prelude Varint QuicPackets.

(** ** Any bytes *)

Lemma read_varint_progress s v n : bytes_ok s -> read_varint s = Some (v, n) -> varint_ok v /\ bytes_ok (drop n s) /\ length (drop n s) < length s.
Proof.
  intros Hs E. destruct (read_varint_inv _ _ _ Hs E) as [Hv Hn]. split; [done|]. split; [by apply Forall_drop|]. rewrite length_drop. lia.
Qed.

Lemma read_varints_shrink n s vs s' : bytes_ok s -> read_varints n s = Some (vs, s') -> bytes_ok s' /\ length s' ≤ length s.
Proof.
  revert s vs s'. induction n as [|n IH]; intros s vs s' Hs E; [cbn in E; by injection E as <- <-|]. cbn [read_varints] in E.
  destruct (read_varint s) as [[v k]|] eqn:Ev; [|done]. cbn [mbind option_bind] in E. destruct (read_varint_progress _ _ _ Hs Ev) as (_ & Hd & Hl).
  destruct (read_varints n (drop k s)) as [[vs1 s1]|] eqn:E1; [|done]. cbn [mbind option_bind] in E. injection E as <- <-.
  destruct (IH _ _ _ Hd E1) as [Hb Hle]. split; [done|lia].
Qed.

Lemma skip_varints_total fuel count s : bytes_ok s -> length s < fuel ->
  exists o, skip_varints fuel count s = Ok o /\ forall s', o = Some s' -> bytes_ok s' /\ length s' ≤ length s.
Proof.
  revert count s. induction fuel as [|fuel IH]; intros count s Hs Hl; [lia|]. cbn [skip_varints]. case_decide.
  { eexists. split; [done|]. by intros s' [= <-]. }
  destruct (read_varint s) as [[v k]|] eqn:Ev; [|by eexists]. destruct (read_varint_progress _ _ _ Hs Ev) as (_ & Hd & Hk).
  destruct (IH (count - 1)%Z _ Hd ltac:(lia)) as (o & E & Ho). exists o. split; [done|]. intros s' Es. destruct (Ho s' Es). split; [done|lia].
Qed.

Definition chunk_ok (c : CryptoChunk) : Prop := varint_ok (ch_offset c) /\ bytes_ok (ch_data c).

Lemma frames_loop_total fuel rest out : bytes_ok rest -> length rest < fuel -> Forall chunk_ok out ->
  exists cs, frames_loop fuel rest out = Ok cs /\ Forall chunk_ok cs.
Proof.
  revert rest out. induction fuel as [|fuel IH]; intros rest out Hr Hl Ho; [lia|]. cbn [frames_loop].
  destruct rest as [|t rest]; [by eexists|]. apply Forall_cons in Hr as [Ht Hr]. cbn [length] in Hl.
  case_decide; [apply IH; [done|lia|done]|]. case_decide.
  - destruct (read_varints 4 rest) as [[vs rest1]|] eqn:E; [|by eexists]. destruct (read_varints_shrink _ _ _ _ Hr E) as [Hb Hle].
    match goal with |- context [skip_varints _ ?c rest1] => destruct (skip_varints_total (S (length rest1)) c rest1 Hb ltac:(lia)) as (o & Eo & Hs) end.
    rewrite Eo. cbn [mbind result_bind]. destruct o as [rest2|]; [|by eexists]. destruct (Hs rest2 eq_refl). apply IH; [done|lia|done].
  - case_decide; [|by eexists]. destruct (read_varint rest) as [[offset n]|] eqn:E1; [|by eexists].
    destruct (read_varint_progress _ _ _ Hr E1) as (Hv & Hd & Hl1). destruct (read_varint (drop n rest)) as [[len m]|] eqn:E2; [|by eexists].
    destruct (read_varint_progress _ _ _ Hd E2) as (Hv2 & Hd2 & Hl2). case_decide; [by eexists|]. unfold varint_ok in Hv2.
    rewrite slice_ok by lia. cbn [mbind result_bind]. apply IH; [by apply Forall_drop|rewrite length_drop; lia|].
    apply Forall_app. split; [done|]. apply Forall_singleton. split; [done|]. by apply Forall_take, Forall_drop.
Qed.

Lemma collect_total payload : bytes_ok payload -> exists cs, collect_crypto_frames payload = Ok cs /\ Forall chunk_ok cs.
Proof. intros Hp. apply frames_loop_total; [done|lia|by constructor]. Qed.

(** ** Frames *)

Inductive Frame : Set :=
  | Padding
  | Ping
  | Ack (largest delay first : Z) (ranges : list (Z * Z)) (ecn : option (Z * Z * Z))
  | Crypto (c : CryptoChunk).

Definition varints (vs : list Z) : bytes := mjoin (write_varint <$> vs).

Definition frame_text (f : Frame) : bytes :=
  match f with
  | Padding => [0x00%Z]
  | Ping => [0x01%Z]
  | Ack largest delay first ranges ecn =>
      (if ecn then 0x03%Z else 0x02%Z) :: varints [largest; delay; Z.of_nat (length ranges); first]
      ++ varints (mjoin ((fun r => [r.1; r.2]) <$> ranges) ++ match ecn with Some (a, b, c) => [a; b; c] | None => [] end)
  | Crypto c => crypto_frame (ch_offset c) (ch_data c)
  end.

Definition frame_ok (f : Frame) : Prop :=
  match f with
  | Padding | Ping => True
  | Ack largest delay first ranges ecn =>
      Forall varint_ok ([largest; delay; Z.of_nat (length ranges); first] ++ mjoin ((fun r => [r.1; r.2]) <$> ranges)
        ++ match ecn with Some (a, b, c) => [a; b; c] | None => [] end)
  | Crypto c => varint_ok (ch_offset c) /\ varint_ok (Z.of_nat (length (ch_data c)))
  end.

Definition frames_text (fs : list Frame) : bytes := mjoin (frame_text <$> fs).
Definition chunks_of (fs : list Frame) : list CryptoChunk := omap (fun f => match f with Crypto c => Some c | _ => None end) fs.

Lemma read_varint_drop v s : varint_ok v -> drop (varint_len v) (write_varint v ++ s) = s.
Proof. intros. rewrite <- write_varint_len. apply drop_app_length. Qed.

Lemma read_varints_varints vs s : Forall varint_ok vs -> read_varints (length vs) (varints vs ++ s) = Some (vs, s).
Proof.
  intros Hv. induction Hv as [|v vs Hv _ IH]; [done|]. cbn [length read_varints]. change (varints (v :: vs)) with (write_varint v ++ varints vs).
  rewrite <- app_assoc, read_write_varint by done. cbn [mbind option_bind]. rewrite read_varint_drop, IH by done. done.
Qed.

Lemma varints_len vs : Forall varint_ok vs -> length vs ≤ length (varints vs).
Proof.
  intros Hv. induction Hv as [|v vs Hv _ IH]; [done|]. change (varints (v :: vs)) with (write_varint v ++ varints vs).
  rewrite length_app, write_varint_len. pose proof (varint_len_bounds v). cbn [length]. lia.
Qed.

Lemma skip_varints_varints fuel vs s : Forall varint_ok vs -> length vs < fuel ->
  skip_varints fuel (Z.of_nat (length vs)) (varints vs ++ s) = Ok (Some s).
Proof.
  intros Hv. revert fuel. induction Hv as [|v vs Hv _ IH]; intros fuel Hl; (destruct fuel as [|fuel]; [cbn in Hl; lia|]); cbn [skip_varints length]; [done|].
  rewrite decide_False by lia. change (varints (v :: vs)) with (write_varint v ++ varints vs).
  rewrite <- app_assoc, read_write_varint by done. rewrite read_varint_drop by done. cbn [length] in Hl.
  replace (Z.of_nat (S (length vs)) - 1)%Z with (Z.of_nat (length vs)) by lia. apply IH. lia.
Qed.

Lemma pairs_length (ranges : list (Z * Z)) : length (mjoin ((fun r => [r.1; r.2]) <$> ranges)) = 2 * length ranges.
Proof. induction ranges as [|r rs IH]; [done|]. change (mjoin ((fun r => [r.1; r.2]) <$> r :: rs)) with ([r.1; r.2] ++ mjoin ((fun r => [r.1; r.2]) <$> rs)). rewrite length_app, IH. cbn [length]. lia. Qed.

Lemma read_crypto_frame fuel c rest out : varint_ok (ch_offset c) -> varint_ok (Z.of_nat (length (ch_data c))) ->
  frames_loop (S fuel) (crypto_frame (ch_offset c) (ch_data c) ++ rest) out = frames_loop fuel rest (out ++ [c]).
Proof.
  intros Ho Hl. unfold crypto_frame. cbn [app frames_loop]. do 2 rewrite decide_False by lia. rewrite decide_True by done.
  rewrite <- !app_assoc, read_write_varint, read_varint_drop by done. rewrite read_write_varint, read_varint_drop by done.
  rewrite decide_False by (rewrite length_app; lia). rewrite Nat2Z.id. rewrite slice_ok by (rewrite ?length_app; lia). cbn [mbind result_bind].
  rewrite Nat.sub_0_r, drop_0, take_app_length, drop_app_length. by destruct c.
Qed.

(** The text of frames gives their CRYPTO data. *)
Lemma frames_loop_text fs fuel out : Forall frame_ok fs -> length (frames_text fs) < fuel -> frames_loop fuel (frames_text fs) out = Ok (out ++ chunks_of fs).
Proof.
  intros Hfs. revert fuel out. induction Hfs as [|f fs Hf _ IH]; intros fuel out Hl; (destruct fuel as [|fuel]; [cbn in Hl; lia|]); [cbn; by rewrite app_nil_r|].
  change (frames_text (f :: fs)) with (frame_text f ++ frames_text fs) in *. rewrite length_app in Hl.
  destruct f as [| |largest delay first ranges ecn|c]; cbn [frame_text frame_ok chunks_of omap list_omap] in *; fold (chunks_of fs).
  - cbn [app frames_loop]. rewrite decide_True by auto. apply IH. cbn in Hl. lia.
  - cbn [app frames_loop]. rewrite decide_True by auto. apply IH. cbn in Hl. lia.
  - set (head := [largest; delay; Z.of_nat (length ranges); first]) in *.
    set (more := mjoin ((fun r => [r.1; r.2]) <$> ranges) ++ match ecn with Some (a, b, c) => [a; b; c] | None => [] end) in *.
    apply Forall_app in Hf as [Hhead Hmore].
    assert (Z.of_nat (length more) = Z.of_nat (length ranges) * 2 + if decide ((if ecn then 0x03%Z else 0x02%Z) = 0x03%Z) then 3 else 0)%Z as Hlen.
    { unfold more. rewrite length_app, pairs_length. destruct ecn as [[[a b] c]|]; [rewrite decide_True by done|rewrite decide_False by done]; cbn [length]; lia. }
    cbn [app frames_loop]. rewrite decide_False by (destruct ecn; lia). rewrite decide_True by (destruct ecn; auto).
    change 4 with (length head). rewrite <- app_assoc, read_varints_varints by done. cbn [lookup]. 
    replace (head !! 2) with (Some (Z.of_nat (length ranges))) by done. cbn [from_option]. unfold id. rewrite <- Hlen.
    rewrite skip_varints_varints; [|done|rewrite length_app; pose proof (varints_len more Hmore); lia]. cbn [mbind result_bind].
    apply IH. cbn [length] in Hl. rewrite length_app in Hl. lia.
  - destruct Hf as [Ho Hd]. rewrite read_crypto_frame by done. rewrite IH; [by rewrite <- app_assoc|]. unfold crypto_frame in Hl. cbn [length] in Hl. lia.
Qed.

Lemma collect_frames fs : Forall frame_ok fs -> collect_crypto_frames (frames_text fs) = Ok (chunks_of fs).
Proof. intros Hfs. unfold collect_crypto_frames. rewrite frames_loop_text by (done || lia). done. Qed.

(** ** Lengths *)

Lemma crypto_frame_length offset data : length (crypto_frame offset data) = crypto_frame_overhead offset (length data) + length data.
Proof. unfold crypto_frame, crypto_frame_overhead. cbn [length]. rewrite !length_app, !write_varint_len. lia. Qed.

(** ** Slices *)

Lemma slice_mid {E A} (a b c : list A) i j : i = length a -> j = i + length b -> slice (E := E) (a ++ b ++ c) i j = Ok b.
Proof.
  intros -> ->. rewrite slice_ok by (rewrite ?length_app; lia). replace (length a + length b - length a) with (length b) by lia.
  by rewrite drop_app_length, take_app_length.
Qed.

Lemma slice_tail {E A} (a b : list A) i : i = length a -> slice (E := E) (a ++ b) i (length (a ++ b)) = Ok b.
Proof.
  intros ->. rewrite slice_ok by (rewrite ?length_app; lia). rewrite drop_app_length, take_ge; [done|]. rewrite length_app. lia.
Qed.

Lemma index_mid {E A} (a : list A) x b i : i = length a -> index (E := E) (a ++ x :: b) i = Ok x.
Proof. intros ->. apply index_Some. by rewrite list_lookup_middle. Qed.

Ltac flat_app := repeat (progress (cbn [app]) || rewrite <- app_assoc); done.

(** ** Layout *)

(** Any of the encodings of an integer. *)
Definition varint_text (v : Z) (t : bytes) : Prop := forall s, read_varint (t ++ s) = Some (v, length t).

Lemma write_varint_text v : varint_ok v -> varint_text v (write_varint v).
Proof. intros Hv s. by rewrite read_write_varint, write_varint_len. Qed.

Definition first_byte (packet_type : Z) (pn_len : nat) : Z := (192 + packet_type * 16 + Z.of_nat (pn_len - 1))%Z.

(** [token] is the token with its length, [len] the length of the rest. *)
Definition head_text (packet_type : Z) (dcid scid token len : bytes) (pn_len : nat) : bytes :=
  (first_byte packet_type pn_len :: be_bytes 4 QUIC_V1) ++ Z.of_nat (length dcid) :: dcid ++ Z.of_nat (length scid) :: scid ++ token ++ len.

Section crypto.
Context `{C : QuicCrypto, Laws : !QuicLaws C}.

Definition protected_packet (k : PacketKeys) (packet_type : Z) (dcid scid token len : bytes) (pn : Z) (pn_len : nat) (payload packet : bytes) : Prop :=
  exists c t first' pn', let head := head_text packet_type dcid scid token len pn_len in
    seal k pn (head ++ be_bytes pn_len pn) payload = Some (c, t)
    /\ header_encrypt k (take SAMPLE_LEN (drop SAMPLE_OFFSET (be_bytes pn_len pn ++ c ++ t))) (first_byte packet_type pn_len) (be_bytes pn_len pn) = Some (first', pn')
    /\ packet = <[0 := first']> head ++ pn' ++ c ++ t.

Lemma decode_fresh t bits : (8 ≤ bits ≤ 32)%Z -> (0 ≤ t < 2 ^ bits)%Z -> decode_packet_number None t bits = t.
Proof.
  intros Hb Ht. unfold decode_packet_number. rewrite Z.land_0_l, Z.lor_0_l.
  assert (2 ^ bits ≤ 2 ^ 32)%Z as Hmax by (apply Z.pow_le_mono_r; lia). assert (2 ^ 8 ≤ 2 ^ bits)%Z as Hmin by (apply Z.pow_le_mono_r; lia).
  change (2 ^ 32)%Z with 4294967296%Z in Hmax. change (2 ^ 8)%Z with 256%Z in Hmin.
  assert (u64 (Z.shiftl 1 bits) = 2 ^ bits)%Z as ->.
  { rewrite Z.shiftl_mul_pow2, Z.mul_1_l by lia. apply wrap_small. change (2 ^ 64)%Z with 18446744073709551616%Z. lia. }
  set (w := (2 ^ bits)%Z) in *. pose proof (Z.div_le_upper_bound w 2 w ltac:(lia) ltac:(lia)). pose proof (Z.div_le_lower_bound w 2 128 ltac:(lia) ltac:(lia)).
  unfold u64. rewrite (wrap_small 64 (t + w / 2)) by (change (2 ^ 64)%Z with 18446744073709551616%Z; lia).
  rewrite (bool_decide_eq_false_2 (t + w / 2 ≤ 0)%Z) by lia. cbn [andb].
  rewrite (bool_decide_eq_false_2 (w ≤ t)%Z) by lia. by rewrite andb_false_r.
Qed.

Lemma first_byte_facts ptype n : (0 ≤ ptype ≤ 3)%Z -> 1 ≤ n ≤ 4 ->
  let f := first_byte ptype n in
  byte_ok f /\ Z.land f 0x80 <> 0%Z /\ Z.shiftr (Z.land f 0x30) 4 = ptype /\ Z.to_nat (Z.land f 3) + 1 = n /\ Z.to_nat (Z.land f 3 + 1) = n
  /\ f = Z.lor (Z.lor (Z.lor 0x80 0x40) (u8 (Z.shiftl ptype 4))) (Z.of_nat (n - 1)).
Proof.
  intros Hp Hn f. subst f. assert (ptype = 0 \/ ptype = 1 \/ ptype = 2 \/ ptype = 3)%Z as Hps by lia. assert (n = 1 \/ n = 2 \/ n = 3 \/ n = 4) as Hns by lia.
  destruct Hps as [->|[->|[->| ->]]]; destruct Hns as [->|[->|[->| ->]]]; unfold byte_ok; vm_compute; repeat split; (done || lia).
Qed.

(** What header protection leaves of the first byte. *)
Lemma masked_first f f' : Z.land f' 0xf0 = Z.land f 0xf0 -> Z.land f' 0x80 = Z.land f 0x80 /\ Z.land f' 0x30 = Z.land f 0x30.
Proof.
  intros E. assert (forall m, Z.land 0xf0 m = m -> Z.land f' m = Z.land f m) as Hm by (intros m <-; rewrite !Z.land_assoc, E; done). split; by apply Hm.
Qed.

Lemma foldl_be n v : (0 ≤ v < 256 ^ Z.of_nat n)%Z -> foldl push_byte 0%Z (be_bytes n v) = v.
Proof. intros. rewrite foldl_be_bytes, Z.mod_small by lia. lia. Qed.

(** A client's Initial packet, alone or with something after it in the datagram. *)
Lemma parse_protected k dcid scid token_len token len pn pn_len payload packet rest :
  length dcid ≤ 20 -> length scid ≤ 20 -> 1 ≤ pn_len ≤ 4 -> 4 ≤ pn_len + length payload -> (0 ≤ pn < 256 ^ Z.of_nat pn_len)%Z ->
  varint_text (Z.of_nat (length token)) token_len -> varint_text (Z.of_nat (pn_len + length payload + TAG_LEN)) len ->
  initial_remote dcid = Some k ->
  protected_packet k PACKET_TYPE_INITIAL dcid scid (token_len ++ token) len pn pn_len payload packet ->
  parse_client_initial (packet ++ rest) = Ok (Some (mkClientInitial dcid scid pn payload)).
Proof.
  intros Hd Hs Hpl Hpay Hpn Htl Hlen Hk (c & t & f' & pn' & Hseal & Hhe & ->).
  destruct (seal_shape _ _ _ _ _ _ Hseal) as (Lc & Lt & Bct). destruct (first_byte_facts PACKET_TYPE_INITIAL pn_len ltac:(done) Hpl) as (Bf & Ff1 & Ff2 & Ff3 & Ff4 & _).
  destruct (header_encrypt_shape _ _ _ _ _ _ Bf (be_bytes_ok _ _) Hhe) as (Bf' & Bpn' & Lpn' & Hm). rewrite length_be_bytes in Lpn'.
  destruct (masked_first _ _ (Hm Ff1)) as [M1 M2]. set (first := first_byte PACKET_TYPE_INITIAL pn_len) in *.
  set (cipher := c ++ t) in *. assert (length cipher = length payload + 16) as Lci by (unfold cipher; rewrite length_app, Lc, Lt; done).
  unfold head_text. fold first. cbn [app insert list_insert].
  set (a1 := f' :: be_bytes 4 QUIC_V1). set (a2 := a1 ++ [Z.of_nat (length dcid)]). set (a3 := a2 ++ dcid).
  set (a4 := a3 ++ [Z.of_nat (length scid)]). set (a5 := a4 ++ scid). set (a6 := a5 ++ token_len ++ token). set (a7 := a6 ++ len).
  set (r7 := pn' ++ cipher ++ rest). match goal with |- parse_client_initial ?X = _ => set (P := X) end.
  assert (P = a7 ++ r7) as P7 by (unfold P, a7, a6, a5, a4, a3, a2, a1, r7; flat_app).
  assert (P = a6 ++ len ++ r7) as P6 by (rewrite P7; unfold a7; by rewrite <- app_assoc).
  assert (P = a5 ++ (token_len ++ token) ++ len ++ r7) as P5 by (rewrite P6; unfold a6; by rewrite <- !app_assoc).
  assert (P = a4 ++ scid ++ (token_len ++ token) ++ len ++ r7) as P4 by (rewrite P5; unfold a5; by rewrite <- !app_assoc).
  assert (P = a3 ++ Z.of_nat (length scid) :: scid ++ (token_len ++ token) ++ len ++ r7) as P3 by (rewrite P4; unfold a4; by rewrite <- !app_assoc).
  assert (P = a2 ++ dcid ++ Z.of_nat (length scid) :: scid ++ (token_len ++ token) ++ len ++ r7) as P2 by (rewrite P3; unfold a3; by rewrite <- !app_assoc).
  assert (P = a1 ++ Z.of_nat (length dcid) :: dcid ++ Z.of_nat (length scid) :: scid ++ (token_len ++ token) ++ len ++ r7) as P1
    by (rewrite P2; unfold a2; by rewrite <- !app_assoc).
  assert (length a1 = 5) as L1 by done. assert (length a2 = 6) as L2 by done.
  assert (length a3 = 6 + length dcid) as L3 by (unfold a3; rewrite length_app; lia).
  assert (length a4 = 6 + length dcid + 1) as L4 by (unfold a4; rewrite length_app, L3; done).
  assert (length a5 = 6 + length dcid + 1 + length scid) as L5 by (unfold a5; rewrite length_app; lia).
  assert (length a6 = length a5 + length token_len + length token) as L6 by (unfold a6; rewrite !length_app; lia).
  assert (length a7 = length a6 + length len) as L7 by (unfold a7; rewrite !length_app; lia).
  assert (length P = length a7 + (pn_len + (length payload + 16 + length rest))) as LP by (rewrite P7; unfold r7; rewrite !length_app; lia).
  clearbody P. unfold parse_client_initial. rewrite decide_False by lia.
  assert (index (E := unit) P 0 = Ok f') as -> by (rewrite P1; by apply (index_mid [])). cbn [mbind result_bind].
  rewrite decide_False by (rewrite M1; done).
  assert (slice (E := unit) P 1 5 = Ok (be_bytes 4 QUIC_V1)) as -> by (rewrite P1; by apply (slice_mid [f'])). cbn [mbind result_bind].
  rewrite foldl_be, decide_False by (done || auto). rewrite M2, Ff2, decide_False by auto.
  assert (index (E := unit) P 5 = Ok (Z.of_nat (length dcid))) as -> by (rewrite P1; by apply index_mid). cbn [mbind result_bind]. rewrite Nat2Z.id.
  rewrite decide_False by lia.
  assert (slice (E := unit) P 6 (6 + length dcid) = Ok dcid) as -> by (rewrite P2; by apply slice_mid). cbn [mbind result_bind].
  assert (index (E := unit) P (6 + length dcid) = Ok (Z.of_nat (length scid))) as -> by (rewrite P3; by apply index_mid). cbn [mbind result_bind]. rewrite Nat2Z.id.
  rewrite decide_False by lia. rewrite <- L4.
  assert (slice (E := unit) P (length a4) (length a4 + length scid) = Ok scid) as -> by (rewrite P4; by apply slice_mid). cbn [mbind result_bind].
  replace (length a4 + length scid) with (length a5) by lia.
  assert (slice (E := unit) P (length a5) (length P) = Ok (token_len ++ token ++ len ++ r7)) as ->
    by (rewrite P5, <- app_assoc; by apply slice_tail). cbn [mbind result_bind]. rewrite Htl.
  rewrite decide_False by lia. rewrite Nat2Z.id, <- L6.
  assert (slice (E := unit) P (length a6) (length P) = Ok (len ++ r7)) as -> by (rewrite P6; by apply slice_tail). cbn [mbind result_bind]. rewrite Hlen.
  rewrite <- L7. unfold TAG_LEN in *. rewrite decide_False by lia. rewrite Nat2Z.id. unfold SAMPLE_OFFSET, SAMPLE_LEN. rewrite decide_False by lia.
  rewrite Hk. cbn [ok_or mbind result_bind].
  set (pnb := be_bytes pn_len pn) in *. set (tk := take (4 - pn_len) cipher). set (dp := drop (4 - pn_len) cipher).
  assert (cipher = tk ++ dp) as Ecd by (symmetry; apply take_drop). assert (length tk = 4 - pn_len) as Ltk by (unfold tk; rewrite length_take; lia).
  assert (16 ≤ length dp) as Ldp by (unfold dp; rewrite length_drop; lia). assert (length pnb = pn_len) as Lpnb by apply length_be_bytes.
  assert (take SAMPLE_LEN (drop SAMPLE_OFFSET (pnb ++ cipher)) = take 16 dp) as Esample.
  { unfold SAMPLE_LEN, SAMPLE_OFFSET. rewrite Ecd, app_assoc, drop_app_length' by (rewrite length_app; lia). done. }
  rewrite Esample in Hhe.
  assert (slice (E := unit) P (length a7 + 4) (length a7 + 4 + 16) = Ok (take 16 dp)) as ->.
  { rewrite P7. unfold r7. rewrite Ecd. replace (a7 ++ pn' ++ (tk ++ dp) ++ rest) with ((a7 ++ pn' ++ tk) ++ take 16 dp ++ (drop 16 dp ++ rest)).
    - apply slice_mid; [rewrite !length_app|rewrite length_take]; lia.
    - rewrite <- !app_assoc. do 3 f_equal. rewrite app_assoc. by rewrite take_drop. }
  cbn [mbind result_bind].
  assert (slice (E := unit) P (length a7) (length a7 + 4) = Ok (pn' ++ tk)) as ->.
  { rewrite P7. unfold r7. rewrite Ecd. replace (pn' ++ (tk ++ dp) ++ rest) with ((pn' ++ tk) ++ dp ++ rest) by flat_app.
    apply slice_mid; [done|rewrite length_app; lia]. }
  cbn [mbind result_bind].
  rewrite (header_decrypt_encrypt k _ first pnb f' pn' tk) by (done || (rewrite ?length_app; lia)). cbn [ok_or mbind result_bind].
  rewrite Ff4.
  assert (slice (E := unit) (pnb ++ tk) 0 pn_len = Ok pnb) as -> by (apply (slice_mid [] pnb tk); [done|cbn; lia]). cbn [mbind result_bind].
  rewrite foldl_push_wrap; [|done|apply be_bytes_ok|].
  2: { rewrite Lpnb. assert (256 ^ Z.of_nat pn_len ≤ 256 ^ 4)%Z by (apply Z.pow_le_mono_r; lia). lia. }
  assert (decode_packet_number None (foldl push_byte 0%Z pnb) (8 * Z.of_nat pn_len) = pn) as ->
    by (unfold pnb; rewrite foldl_be by done; apply decode_fresh; [lia|rewrite Z.pow_mul_r by lia; done]).
  assert (slice (E := unit) P 0 (length a7 + pn_len) = Ok (a7 ++ pn')) as ->.
  { rewrite P7. unfold r7. rewrite app_assoc. apply (slice_mid [] (a7 ++ pn')); [done|rewrite length_app; lia]. }
  cbn [mbind result_bind]. rewrite take_app_length. rewrite decide_False by lia.
  assert (slice (E := unit) P (length a7 + pn_len) (length a7 + Z.to_nat (Z.of_nat (pn_len + length payload + 16))) = Ok cipher) as Eb.
  { rewrite P7. unfold r7. rewrite app_assoc. apply slice_mid; rewrite ?length_app; lia. }
  rewrite Nat2Z.id in Eb. rewrite Eb. cbn [mbind result_bind].
  replace (<[0 := first]> a7) with (head_text PACKET_TYPE_INITIAL dcid scid (token_len ++ token) len pn_len).
  2: { unfold a7, a6, a5, a4, a3, a2, a1, head_text. fold first. cbn [app insert list_insert]. flat_app. }
  pose proof (unseal_seal _ _ _ _ _ _ Hseal) as Hu. change (c ++ t) with cipher in Hu. by rewrite Hu.
Qed.

(** ** Any bytes *)

Definition initial_ok (i : ClientInitial) : Prop :=
  length (c_dcid i) ≤ 20 /\ length (c_scid i) ≤ 20 /\ (0 ≤ c_packet_number i < 2 ^ 32)%Z /\ bytes_ok (c_payload i).

Definition parsed (r : result unit (option ClientInitial)) : Prop :=
  match r with Stuck _ => False | Ok (Some i) => initial_ok i | _ => True end.

Lemma slice_bytes_ok l a b : bytes_ok l -> bytes_ok (take (b - a) (drop a l)).
Proof. intros. by apply Forall_take, Forall_drop. Qed.

Lemma parse_sound packet : bytes_ok packet -> parsed (parse_client_initial packet).
Proof.
  intros Hb. unfold parse_client_initial. case_decide as H7; [done|]. apply Nat.nlt_ge in H7.
  destruct (index_lt (E := unit) packet 0 ltac:(lia)) as (first & Hf & ->). cbn [mbind result_bind]. case_decide; [done|].
  rewrite slice_ok by lia. cbn [mbind result_bind]. case_decide; [done|]. case_decide; [done|].
  destruct (index_lt (E := unit) packet 5 ltac:(lia)) as (dl & _ & ->). cbn [mbind result_bind]. set (d := Z.to_nat dl). case_decide; [done|].
  rewrite slice_ok by lia. cbn [mbind result_bind].
  destruct (index_lt (E := unit) packet (6 + d) ltac:(lia)) as (sl & _ & ->). cbn [mbind result_bind]. set (s := Z.to_nat sl). case_decide; [done|].
  rewrite slice_ok by lia. cbn [mbind result_bind]. rewrite slice_ok by lia. cbn [mbind result_bind].
  destruct (read_varint _) as [[tl n]|] eqn:E1; [|done]. apply read_varint_inv in E1 as [Ht Hn]; [|by apply slice_bytes_ok].
  unfold varint_ok in Ht. rewrite length_take, length_drop in Hn. case_decide; [done|]. rewrite slice_ok by lia. cbn [mbind result_bind].
  destruct (read_varint _) as [[ln n']|] eqn:E2; [|done]. apply read_varint_inv in E2 as [Hl Hn']; [|by apply slice_bytes_ok].
  unfold varint_ok in Hl. rewrite length_take, length_drop in Hn'. unfold TAG_LEN, SAMPLE_OFFSET, SAMPLE_LEN. case_decide; [done|]. case_decide; [done|].
  set (o := 6 + d + 1 + s + n + Z.to_nat tl + n') in *.
  destruct (initial_remote_some (take (6 + d - 6) (drop 6 packet))) as [k ->]. cbn [ok_or mbind result_bind].
  rewrite slice_ok by lia. cbn [mbind result_bind]. rewrite slice_ok by lia. cbn [mbind result_bind].
  destruct (header_decrypt _ _ _ _) as [[f' pn']|] eqn:E3; [|done]. cbn [ok_or mbind result_bind].
  apply header_decrypt_shape in E3 as (Bf & Bpn & Lpn); [|exact (Forall_lookup_1 _ _ _ _ Hb Hf)|by apply slice_bytes_ok].
  rewrite length_take, length_drop in Lpn.
  assert (1 ≤ Z.to_nat (Z.land f' 3 + 1) ≤ 4) as Hk by (pose proof (land_range 2 f' 3 ltac:(lia) ltac:(lia)); lia). set (m := Z.to_nat (Z.land f' 3 + 1)) in *.
  rewrite (slice_ok pn' 0 m) by lia. cbn [mbind result_bind]. rewrite (slice_ok packet 0 (o + m)) by lia. cbn [mbind result_bind]. case_decide; [done|].
  rewrite slice_ok by lia. cbn [mbind result_bind]. destruct (unseal _ _ _ _) as [plain|] eqn:E4; [|done]. cbn.
  set (l := take (m - 0) (drop 0 pn')). assert (length l = m) as Ll by (unfold l; rewrite length_take, length_drop; lia).
  assert (bytes_ok l) as Bl by (by apply slice_bytes_ok).
  pose proof (foldl_push_range l 0 Bl) as Hr. rewrite Ll in Hr.
  assert (256 ^ Z.of_nat m ≤ 256 ^ 4)%Z as Hmax by (apply Z.pow_le_mono_r; lia). change (256 ^ 4)%Z with (2 ^ 32)%Z in Hmax.
  repeat split; cbn; [rewrite length_take; lia|rewrite length_take; lia|..|by eapply unseal_bytes].
  all: rewrite foldl_push_wrap by (done || (rewrite ?Ll; lia)); rewrite decode_fresh; [lia|lia|rewrite Z.pow_mul_r by lia; change (2 ^ 8)%Z with 256%Z; lia].
Qed.

(** ** What the server writes *)

Lemma encode_packet_ok k ptype pn payload dcid scid out :
  (0 ≤ ptype ≤ 3)%Z -> (0 ≤ pn < 2 ^ 32)%Z -> bytes_ok payload -> (Z.of_nat (length payload) ≤ 65535)%Z -> length dcid ≤ 20 -> length scid ≤ 20 ->
  exists p, encode_packet (mkPacketPlan ptype pn payload k) dcid scid out = Ok (out ++ p)
    /\ protected_packet k ptype dcid scid (if decide (ptype = PACKET_TYPE_INITIAL) then write_varint 0 else [])
         (write_varint (Z.of_nat (4 + length payload + TAG_LEN))) pn 4 payload p
    /\ length p = packet_overhead ptype (length dcid) (length scid) (length payload) + length payload.
Proof.
  intros Ht Hpn Hpay Hl Hd Hs. destruct (first_byte_facts ptype 4 Ht ltac:(lia)) as (Bf & Ff1 & Ff2 & Ff3 & _ & Ff5). cbn [Nat.sub] in Ff5. change (Z.of_nat 3) with 3%Z in Ff5.
  unfold encode_packet. cbn [p_type p_number p_payload p_keys].
  assert (long_header ptype dcid scid (length payload)
    = head_text ptype dcid scid (if decide (ptype = PACKET_TYPE_INITIAL) then write_varint 0 else []) (write_varint (Z.of_nat (4 + length payload + TAG_LEN))) 4) as ->.
  { unfold long_header, head_text. rewrite <- Ff5. rewrite !u8_small by (unfold byte_ok; lia). done. }
  set (head := head_text _ _ _ _ _ _). unfold u32. rewrite wrap_small by done. set (pnb := be_bytes 4 pn).
  destruct (seal_some k pn (head ++ pnb) payload ltac:(lia) Hpay Hl) as [[c t] Es]. rewrite Es. cbn [ok_or mbind result_bind].
  destruct (seal_shape _ _ _ _ _ _ Es) as (Lc & Lt & Bct). unfold TAG_LEN in Lt.
  assert (length (pnb ++ c ++ t) = 4 + (length payload + 16)) as Lp by (rewrite !length_app, Lc, Lt; done).
  rewrite decide_False by (rewrite Lp; unfold SAMPLE_OFFSET, SAMPLE_LEN; lia).
  rewrite slice_ok by (rewrite ?Lp; unfold SAMPLE_OFFSET, SAMPLE_LEN; lia). cbn [mbind result_bind].
  replace (SAMPLE_OFFSET + SAMPLE_LEN - SAMPLE_OFFSET) with SAMPLE_LEN by done.
  assert (index (E := unit) head 0 = Ok (first_byte ptype 4)) as -> by done. cbn [mbind result_bind].
  destruct (header_encrypt_some k (take SAMPLE_LEN (drop SAMPLE_OFFSET (pnb ++ c ++ t))) (first_byte ptype 4) pnb) as [[f' pn'] Eh].
  { rewrite length_take, length_drop, Lp. unfold SAMPLE_OFFSET, SAMPLE_LEN. lia. }
  { by rewrite Ff3. }
  rewrite Eh. cbn [ok_or mbind result_bind]. eexists. split; [done|]. split.
  - exists c, t, f', pn'. split; [exact Es|]. split; [exact Eh|done].
  - destruct (header_encrypt_shape _ _ _ _ _ _ Bf (be_bytes_ok _ _) Eh) as (_ & _ & Lpn' & _). rewrite !length_app, length_insert, Lpn', Lc, Lt.
    unfold head, head_text, packet_overhead, pnb, TAG_LEN. rewrite !length_app. cbn [length]. rewrite !length_app. cbn [length]. rewrite !length_app, !length_be_bytes, write_varint_len.
    case_decide; [rewrite write_varint_len; change (varint_len 0) with 1; lia|cbn [length]; lia].
Qed.
End crypto.
