(* ===== verification/QuicFlight.v ===== *)
(** * From pieces to a message, and from a flight to datagrams

    What the reassembly holds after any pieces of a message, in any order, and when it
    gives the message; the datagrams of an answer are whole protected packets, whatever
    the TLS layer wrote, within the budget, and the loop that fills them ends. *)
From stdpp Require Import gmap sorting.
From S2P Require Import Prelude Text Varint QuicPackets QuicResponder QuicParse.

(** ** Contiguous bytes *)

#[export] Instance pair_le_total : Total pair_le.
Proof. intros [a b] [c d]. unfold pair_le. cbn. lia. Qed.
#[export] Instance pair_le_trans : Transitive pair_le.
Proof. intros [a b] [c d] [e f]. unfold pair_le. cbn. lia. Qed.

Definition extend (contiguous : nat) (r : Z * Z) : nat := if decide (Z.to_nat r.1 ≤ contiguous) then contiguous `max` Z.to_nat r.2 else contiguous.

Lemma extend_mono l c : c ≤ foldl extend c l.
Proof.
  revert c. induction l as [|r l IH]; intros c; [done|]. cbn [foldl]. specialize (IH (extend c r)). unfold extend in *. case_decide; lia.
Qed.

Lemma extend_stop l c : Forall (fun r => c < Z.to_nat r.1) l -> foldl extend c l = c.
Proof. intros Hl. induction Hl as [|r l Hr _ IH]; [done|]. cbn [foldl]. unfold extend at 2. by rewrite decide_False by lia. Qed.

(** A range that starts within the count ends within it. *)
Lemma extend_closed l c r : StronglySorted pair_le l -> r ∈ l -> Z.to_nat r.1 ≤ foldl extend c l -> Z.to_nat r.2 ≤ foldl extend c l.
Proof.
  intros Hs. revert c. induction Hs as [|x l Hs IH Hx]; intros c Hin Hle; [by apply elem_of_nil in Hin|]. cbn [foldl] in *.
  apply elem_of_cons in Hin as [->|Hin]; [|by apply IH]. unfold extend in *. case_decide as Hd.
  - fold extend in *. pose proof (extend_mono l (c `max` Z.to_nat x.2)). lia.
  - fold extend in *. assert (Forall (fun r => c < Z.to_nat r.1) l) as Hl by (eapply Forall_impl; [exact Hx|]; intros y Hy; unfold pair_le in Hy; lia).
    rewrite (extend_stop l c Hl) in Hle |- *. lia.
Qed.

Definition covered (l : list (Z * Z)) (i : nat) : Prop := exists r, r ∈ l /\ Z.to_nat r.1 ≤ i < Z.to_nat r.2.

Lemma extend_covered l c i : i < foldl extend c l -> i < c \/ covered l i.
Proof.
  revert c. induction l as [|r l IH]; intros c Hi; [by left|]. cbn [foldl] in Hi. destruct (IH _ Hi) as [Hc|(x & Hx & Hr)].
  - unfold extend in Hc. case_decide; [|by left]. destruct (decide (i < c)); [by left|]. right. exists r. split; [by left|lia].
  - right. exists x. split; [by right|done].
Qed.

Lemma count_covered l i : StronglySorted pair_le l -> i < count_contiguous l -> covered l i.
Proof. intros Hs Hi. destruct (extend_covered l 0 i Hi) as [?|?]; [lia|done]. Qed.

Lemma count_max l n : StronglySorted pair_le l -> (forall i, i < n -> covered l i) -> n ≤ count_contiguous l.
Proof.
  intros Hs Hn. destruct (decide (n ≤ count_contiguous l)) as [|Hlt]; [done|]. destruct (Hn (count_contiguous l) ltac:(lia)) as (r & Hin & Hr).
  pose proof (extend_closed l 0 r Hs Hin) as Hc. change (foldl extend 0 l) with (count_contiguous l) in Hc. lia.
Qed.

Lemma count_bound l n : Forall (fun r => Z.to_nat r.2 ≤ n) l -> count_contiguous l ≤ n.
Proof.
  intros Hl. unfold count_contiguous. change (foldl extend 0 l ≤ n). cut (forall c, c ≤ n -> foldl extend c l ≤ n); [intros Hc; apply Hc; lia|].
  induction Hl as [|r l Hr _ IH]; intros c Hc; [done|]. cbn [foldl]. apply IH. unfold extend. case_decide; lia.
Qed.

Lemma sorted_ranges l : StronglySorted pair_le (merge_sort pair_le l).
Proof. apply StronglySorted_merge_sort; apply _. Qed.

Lemma covered_sort l i : covered (merge_sort pair_le l) i <-> covered l i.
Proof. unfold covered. split; intros (r & Hin & Hr); exists r; (split; [|done]); revert Hin; by rewrite merge_sort_Permutation. Qed.

(** ** The buffer *)

Definition ranges_ok (buffer : bytes) (received : list (Z * Z)) : Prop :=
  (Z.of_nat (length buffer) ≤ MAX_CRYPTO_BYTES)%Z /\ Forall (fun r => Z.to_nat r.2 ≤ length buffer) received.

Definition merged (r : result unit (bytes * list (Z * Z))) : Prop :=
  match r with Stuck _ => False | Err _ => True | Ok (b, l) => ranges_ok b l end.

Definition pad_to (b : bytes) (n : nat) : bytes := b ++ replicate (n - length b) 0%Z.

Lemma length_pad_to b n : length (pad_to b n) = length b `max` n.
Proof. unfold pad_to. rewrite length_app, length_replicate. lia. Qed.

(** One chunk that is within the limit. *)
Lemma merge_chunk c cs b l : chunk_ok c -> (Z.of_nat (length b) ≤ MAX_CRYPTO_BYTES)%Z ->
  let stop := (ch_offset c + Z.of_nat (length (ch_data c)))%Z in let start := Z.to_nat (ch_offset c) in
  merge_chunks (c :: cs) b l =
    if decide (MAX_CRYPTO_BYTES < stop)%Z then Err tt
    else merge_chunks cs (take start (pad_to b (Z.to_nat stop)) ++ ch_data c ++ drop (Z.to_nat stop) (pad_to b (Z.to_nat stop))) (l ++ [(ch_offset c, stop)]).
Proof.
  intros [Ho Hd] Hb stop start. unfold varint_ok in Ho. cbn [merge_chunks]. fold start.
  destruct (decide (MAX_CRYPTO_BYTES < stop)%Z) as [Hlt|Hle].
  - rewrite decide_True; [done|]. fold stop. unfold MAX_CRYPTO_BYTES in *. lia.
  - rewrite Z.min_l by (fold stop; unfold MAX_CRYPTO_BYTES in *; lia). fold stop. rewrite decide_False by done.
    fold (pad_to b (Z.to_nat stop)). rewrite decide_True; [done|]. rewrite length_pad_to. unfold start, stop. lia.
Qed.

Lemma length_write b (d : bytes) start stop : start ≤ stop -> stop ≤ length b -> length d = stop - start ->
  length (take start b ++ d ++ drop stop b) = length b.
Proof. intros. rewrite !length_app, length_take, length_drop. lia. Qed.

Lemma merge_chunks_sound cs b l : Forall chunk_ok cs -> ranges_ok b l -> merged (merge_chunks cs b l).
Proof.
  intros Hcs. revert b l. induction Hcs as [|c cs Hc _ IH]; intros b l [Hb Hl]; [done|]. rewrite merge_chunk by done.
  destruct Hc as [Ho Hd]. unfold varint_ok in Ho. case_decide as Hlt; [done|]. apply IH.
  set (stop := (ch_offset c + Z.of_nat (length (ch_data c)))%Z) in *.
  split; rewrite length_write by (rewrite ?length_pad_to; unfold stop; lia); rewrite length_pad_to; [lia|].
  apply Forall_app. split; [eapply Forall_impl; [exact Hl|]; cbn; lia|]. apply Forall_singleton. cbn. lia.
Qed.

(** ** Pieces of a message *)

Definition piece_of (msg : bytes) (c : CryptoChunk) : Prop :=
  (0 ≤ ch_offset c)%Z /\ ch_data c = take (length (ch_data c)) (drop (Z.to_nat (ch_offset c)) msg)
  /\ Z.to_nat (ch_offset c) + length (ch_data c) ≤ length msg.

Definition range_of (c : CryptoChunk) : Z * Z := (ch_offset c, ch_offset c + Z.of_nat (length (ch_data c)))%Z.

Definition agrees (msg b : bytes) (l : list (Z * Z)) : Prop :=
  length b ≤ length msg /\ Forall (fun r => Z.to_nat r.2 ≤ length b) l /\ forall i, covered l i -> b !! i = msg !! i.

Lemma merge_pieces msg cs b l : (Z.of_nat (length msg) ≤ MAX_CRYPTO_BYTES)%Z -> Forall (piece_of msg) cs -> Forall chunk_ok cs -> agrees msg b l ->
  exists b', merge_chunks cs b l = Ok (b', l ++ (range_of <$> cs)) /\ agrees msg b' (l ++ (range_of <$> cs)).
Proof.
  intros Hm Hp. revert b l. induction Hp as [|c cs (Ho & Hd & Hle) _ IH]; intros b l Hok (Hb & Hl & Ha); [exists b; by rewrite app_nil_r|].
  apply Forall_cons in Hok as [Hc Hok]. rewrite merge_chunk by (done || lia). rewrite decide_False by lia.
  set (stop := Z.to_nat (ch_offset c + Z.of_nat (length (ch_data c)))). set (start := Z.to_nat (ch_offset c)).
  assert (stop = start + length (ch_data c)) as Estop by (unfold stop, start; lia).
  assert (length (pad_to b stop) = length b `max` stop) as Lp by apply length_pad_to.
  assert (length (take start (pad_to b stop) ++ ch_data c ++ drop stop (pad_to b stop)) = length b `max` stop) as Lw by (rewrite length_write; lia).
  destruct (IH (take start (pad_to b stop) ++ ch_data c ++ drop stop (pad_to b stop)) (l ++ [range_of c])) as (b' & E & Hag); [done| |].
  - split; [|split].
    + rewrite Lw. lia.
    + rewrite Lw. apply Forall_app. split; [eapply Forall_impl; [exact Hl|]; cbn; lia|]. apply Forall_singleton. cbn. fold stop. lia.
    + intros i (r & Hin & Hr). destruct (decide (start ≤ i < stop)) as [Hi|Hi].
      * rewrite lookup_app_r by (rewrite length_take; lia). rewrite length_take, Lp, Nat.min_l by lia. rewrite lookup_app_l by lia.
        rewrite Hd, lookup_take_lt by lia. rewrite lookup_drop. f_equal. fold start. lia.
      * assert (b !! i = msg !! i) as <-.
        { apply Ha. apply elem_of_app in Hin as [Hin|Hin]; [by exists r|]. apply list_elem_of_singleton in Hin as ->. cbn in Hr. fold start stop in Hr. lia. }
        assert (i < length b) as Hib.
        { apply elem_of_app in Hin as [Hin|Hin]; [rewrite Forall_forall in Hl; specialize (Hl _ Hin); cbn in Hl; lia|].
          apply list_elem_of_singleton in Hin as ->. cbn in Hr. fold start stop in Hr. lia. }
        destruct (decide (i < start)).
        -- rewrite lookup_app_l by (rewrite length_take; lia). rewrite lookup_take_lt by lia. unfold pad_to. by rewrite lookup_app_l by lia.
        -- rewrite app_assoc, lookup_app_r by (rewrite length_app, length_take; lia). rewrite length_app, length_take, Lp, lookup_drop.
           replace (stop + (i - (start `min` (length b `max` stop) + length (ch_data c)))) with i by lia. unfold pad_to. by rewrite lookup_app_l by lia.
  - exists b'. rewrite <- app_assoc in E, Hag. split; [exact E|exact Hag].
Qed.

(** ** The message *)

(** A handshake message: its type, its length in three bytes, its body. *)
Definition handshake_message (msg : bytes) : Prop :=
  exists ty body, msg = ty :: be_bytes 3 (Z.of_nat (length body)) ++ body /\ (Z.of_nat (length body) < 2 ^ 24)%Z.

Lemma complete_prefix msg k : handshake_message msg ->
  complete_handshake_message (take k msg) = if decide (length msg ≤ k) then Some msg else None.
Proof.
  intros (ty & body & -> & Hlen). pose proof (foldl_be 3 (Z.of_nat (length body)) ltac:(lia)) as Hf.
  pose proof (length_be_bytes 3 (Z.of_nat (length body))) as L3.
  destruct (be_bytes 3 (Z.of_nat (length body))) as [|b1 [|b2 [|b3 [|? ?]]]]; try done. cbn [app length].
  destruct k as [|[|[|[|k]]]]; try (by rewrite decide_False by lia). cbn [take]. cbn [complete_handshake_message]. rewrite Hf, Nat2Z.id. cbn [length].
  rewrite length_take. destruct (decide (length body ≤ k)).
  - rewrite decide_True by lia. rewrite decide_True by lia. cbn [Nat.add take]. rewrite !take_ge; [done|lia|]. rewrite length_take. lia.
  - rewrite decide_False by lia. by rewrite decide_False by lia.
Qed.

(** After pieces of a message: the whole of it when it is covered, nothing before. *)
Lemma agreed_message msg b l : handshake_message msg -> agrees msg b l ->
  complete_handshake_message (take (count_contiguous (merge_sort pair_le l)) b)
  = if decide (length msg ≤ count_contiguous (merge_sort pair_le l)) then Some msg else None.
Proof.
  intros Hm (Hb & Hl & Ha). rewrite <- (complete_prefix msg) by done. f_equal. set (c := count_contiguous _).
  assert (c ≤ length b) as Hc.
  { apply count_bound. rewrite Forall_forall in *. intros r Hr. apply Hl. by rewrite merge_sort_Permutation in Hr. }
  apply list_eq. intros i. destruct (decide (i < c)) as [Hi|Hi].
  - rewrite !lookup_take_lt by done. apply Ha. apply covered_sort. by apply count_covered; [apply sorted_ranges|].
  - by rewrite !lookup_take_ge by lia.
Qed.

Definition all_covered (msg : bytes) (l : list (Z * Z)) : Prop := forall i, i < length msg -> covered l i.

Lemma all_covered_count msg l : all_covered msg l <-> length msg ≤ count_contiguous (merge_sort pair_le l).
Proof.
  split.
  - intros Hc. apply count_max; [apply sorted_ranges|]. intros i Hi. apply covered_sort. by apply Hc.
  - intros Hle i Hi. apply covered_sort. apply count_covered; [apply sorted_ranges|lia].
Qed.

Definition total (l : list bytes) : nat := sum_list_with length l.

Lemma total_app a b : total (a ++ b) = total a + total b.
Proof. apply sum_list_with_app. Qed.

Section crypto.
Context `{C : QuicCrypto, Laws : !QuicLaws C}.

(** A packet in any case: an error, or one appended of the length foretold. *)
Lemma encode_packet_cases plan dcid scid out :
  encode_packet plan dcid scid out = Err tt
  \/ exists p, encode_packet plan dcid scid out = Ok (out ++ p)
       /\ length p = packet_overhead (p_type plan) (length dcid) (length scid) (length (p_payload plan)) + length (p_payload plan).
Proof.
  unfold encode_packet. destruct (seal _ _ _ _) as [[c t]|] eqn:Es; [|by left]. cbn [ok_or mbind result_bind].
  destruct (seal_shape _ _ _ _ _ _ Es) as (Lc & Lt & Bct). case_decide as Hl; [by left|]. rewrite slice_ok by (unfold SAMPLE_OFFSET, SAMPLE_LEN in *; lia).
  cbn [mbind result_bind]. set (head := long_header _ _ _ _). assert (exists f, index (E := unit) head 0 = Ok f /\ byte_ok f) as (f & -> & Bf).
  { eexists. split; [done|]. unfold byte_ok. change 256%Z with (2 ^ 8)%Z. apply (lor_range 8); [apply (lor_range 8); [done|apply u8_range]|done]. }
  cbn [mbind result_bind]. destruct (header_encrypt _ _ _ _) as [[f' pn']|] eqn:Eh; [|by left]. cbn [ok_or mbind result_bind].
  right. eexists. split; [done|]. destruct (header_encrypt_shape _ _ _ _ _ _ Bf (be_bytes_ok _ _) Eh) as (_ & _ & Lpn' & _).
  rewrite !length_app, length_insert, Lpn', Lc, Lt, length_be_bytes. unfold head, long_header, packet_overhead, TAG_LEN.
  rewrite !length_app. cbn [length]. rewrite !length_app. cbn [length]. rewrite !length_app, !length_be_bytes, write_varint_len.
  case_decide; [rewrite write_varint_len; change (varint_len 0) with 1; lia|cbn [length]; lia].
Qed.

Lemma crypto_frame_bytes offset data : bytes_ok data -> bytes_ok (crypto_frame offset data).
Proof. intros Hd. unfold crypto_frame. apply Forall_cons. split; [done|]. repeat (apply Forall_app; split); done || apply write_varint_ok. Qed.

Lemma packet_overhead_pos ptype d s l : 1 ≤ packet_overhead ptype d s l.
Proof. unfold packet_overhead. lia. Qed.

Lemma fixed_bound d s offset len : d ≤ 20 -> s ≤ 20 -> packet_overhead PACKET_TYPE_HANDSHAKE d s 0 + crypto_frame_overhead offset len ≤ 86.
Proof.
  intros Hd Hs. unfold packet_overhead, crypto_frame_overhead. rewrite decide_False by done. change (varint_len (Z.of_nat (4 + 0 + TAG_LEN))) with 1.
  pose proof (varint_len_bounds offset). pose proof (varint_len_bounds (Z.of_nat len)). unfold TAG_LEN. lia.
Qed.

(** The rest of the work: the bytes to send, and whether a datagram is open. *)
Definition work (handshake : bytes) (offset : nat) (current : bytes) : nat := 2 * (length handshake - offset) + (if decide (current = []) then 0 else 1).

Section loop.
Context (k : PacketKeys) (handshake dcid scid : bytes) (budget : Z) (Hd : length dcid ≤ 20) (Hs : length scid ≤ 20).

(** The loop ends, and keeps to the budget. *)
Lemma flight_loop_total fuel offset pn sent current datagrams : work handshake offset current < fuel ->
  flight_loop fuel k handshake dcid scid budget offset pn sent current datagrams = Err tt
  \/ exists current' datagrams', flight_loop fuel k handshake dcid scid budget offset pn sent current datagrams = Ok (current', datagrams')
       /\ (Z.of_nat (total (datagrams' ++ [current'])) ≤ Z.max budget sent + Z.of_nat (total (datagrams ++ [current])) - sent)%Z.
Proof.
  revert offset pn sent current datagrams. induction fuel as [|fuel IH]; intros offset pn sent current datagrams Hf; [lia|]. cbn [flight_loop].
  destruct (decide (offset < length handshake)) as [Ho|Ho]; [|right; eexists _, _; split; [done|lia]].
  pose proof (fixed_bound (length dcid) (length scid) (Z.of_nat offset) (length handshake - offset) Hd Hs) as Hfix.
  set (fixed := packet_overhead _ _ _ 0 + _) in *. case_decide as Hroom.
  - unfold work in Hf. destruct (decide (current = [])) as [->|Hne]; [cbn [length] in Hroom; unfold MAX_DATAGRAM in Hroom; lia|].
    destruct (IH offset pn sent [] (datagrams ++ [current])) as [E|(c & ds & E & Hle)]; [unfold work; rewrite decide_True by done; lia|by left|].
    right. exists c, ds. split; [exact E|]. rewrite (total_app (datagrams ++ [current]) [[]]) in Hle. change (total [[]]) with 0 in Hle. lia.
  - set (tk := (MAX_DATAGRAM - length current - fixed) `min` (length handshake - offset)).
    assert (1 ≤ tk ≤ length handshake - offset) as Htk by (unfold tk; lia). rewrite slice_ok by lia. cbn [mbind result_bind].
    set (frame := crypto_frame _ _). case_decide as Hb; [right; eexists _, _; split; [done|lia]|].
    destruct (encode_packet_cases (mkPacketPlan PACKET_TYPE_HANDSHAKE pn frame k) dcid scid current) as [->|(p & -> & Lp)]; [by left|].
    cbn [mbind result_bind p_type p_payload] in *. set (plen := packet_overhead _ _ _ (length frame) + length frame) in *.
    assert (current ++ p <> []) as Hcp. { intros [_ ->]%app_nil. cbn in Lp. pose proof (packet_overhead_pos PACKET_TYPE_HANDSHAKE (length dcid) (length scid) (length frame)). unfold plen in Lp. lia. }
    destruct (IH (offset + tk) (pn + 1)%Z (sent + Z.of_nat plen)%Z (current ++ p) datagrams) as [E|(c & ds & E & Hle)].
    + unfold work in *. rewrite decide_False by done. case_decide; lia.
    + by left.
    + right. exists c, ds. split; [exact E|]. rewrite !total_app in Hle |- *. cbn [total sum_list_with] in *. rewrite length_app, Lp in Hle. lia.
Qed.

(** *** Which packets *)

(** Handshake packets with consecutive numbers and consecutive pieces of the flight, from
    an offset to another. *)
Inductive flight_packets : nat -> Z -> list bytes -> nat -> Prop :=
  | fp_nil offset pn : flight_packets offset pn [] offset
  | fp_cons offset pn piece p ps stop :
      piece = take (length piece) (drop offset handshake) -> 0 < length piece -> offset + length piece ≤ length handshake ->
      protected_packet k PACKET_TYPE_HANDSHAKE dcid scid []
        (write_varint (Z.of_nat (4 + length (crypto_frame (Z.of_nat offset) piece) + TAG_LEN))) pn 4 (crypto_frame (Z.of_nat offset) piece) p ->
      flight_packets (offset + length piece) (pn + 1) ps stop ->
      flight_packets offset pn (p :: ps) stop.

Lemma handshake_packet_len offset tk len room : tk ≤ len -> room ≤ MAX_DATAGRAM ->
  packet_overhead PACKET_TYPE_HANDSHAKE (length dcid) (length scid) 0 + crypto_frame_overhead offset len + tk ≤ room ->
  let l := crypto_frame_overhead offset tk + tk in
  l ≤ room /\ packet_overhead PACKET_TYPE_HANDSHAKE (length dcid) (length scid) l + l ≤ room + 1.
Proof.
  intros Htk Hroom Hle l. subst l. unfold MAX_DATAGRAM in Hroom.
  assert (crypto_frame_overhead offset tk ≤ crypto_frame_overhead offset len) as Hm.
  { unfold crypto_frame_overhead. pose proof (varint_len_mono (Z.of_nat tk) (Z.of_nat len) ltac:(lia)). lia. }
  unfold packet_overhead, TAG_LEN in *. rewrite !decide_False in * by done. change (varint_len (Z.of_nat (4 + 0 + 16))) with 1 in Hle.
  split; [lia|]. assert (varint_len (Z.of_nat (4 + (crypto_frame_overhead offset tk + tk) + 16)) ≤ 2) as Hv; [|lia].
  etransitivity; [apply (varint_len_mono _ 0x3fff); lia|done].
Qed.

(** The datagrams are groups of whole packets; what was not sent did not fit the budget. *)
Lemma flight_loop_packets fuel offset pn sent (G : list (list bytes)) (cur : list bytes) : bytes_ok handshake ->
  work handshake offset (concat cur) < fuel -> (concat cur = [] -> cur = []) -> (0 ≤ pn)%Z -> (pn + Z.of_nat (length handshake - offset) < 2 ^ 32)%Z ->
  exists (G' : list (list bytes)) (cur' : list bytes) ps stop,
    flight_loop fuel k handshake dcid scid budget offset pn sent (concat cur) ((@concat Z) <$> G) = Ok (concat cur', (@concat Z) <$> G')
    /\ concat (G' ++ [cur']) = concat (G ++ [cur]) ++ ps /\ flight_packets offset pn ps stop
    /\ (concat cur' = [] -> cur' = [])
    /\ (length handshake ≤ stop \/ (budget < sent + Z.of_nat (total ps) + 1201)%Z)
    /\ (Forall (fun g => length (concat g) ≤ 1201) (G ++ [cur]) -> Forall (fun g => length (concat g) ≤ 1201) (G' ++ [cur'])).
Proof.
  intros Hbytes. revert offset pn sent G cur. induction fuel as [|fuel IH]; intros offset pn sent G cur Hf Hc0 Hp0 Hpn; [lia|]. cbn [flight_loop].
  destruct (decide (offset < length handshake)) as [Ho|Ho].
  2: { exists G, cur, [], offset. split; [done|]. split; [by rewrite app_nil_r|]. split; [constructor|]. split; [done|]. split; [left; lia|done]. }
  pose proof (fixed_bound (length dcid) (length scid) (Z.of_nat offset) (length handshake - offset) Hd Hs) as Hfix.
  set (fixed := packet_overhead _ _ _ 0 + _) in *. case_decide as Hroom.
  - unfold work in Hf. destruct (decide (concat cur = [])) as [E0|Hne]; [rewrite E0 in Hroom; cbn [length] in Hroom; unfold MAX_DATAGRAM in Hroom; lia|].
    destruct (IH offset pn sent (G ++ [cur]) []) as (G' & cur' & ps & stop & E & Ej & Hps & Hc' & Hstop & Hl); [unfold work; rewrite decide_True by done; lia|done|done|done|].
    exists G', cur', ps, stop. rewrite fmap_app in E. split; [exact E|]. split; [rewrite Ej, concat_app; cbn; by rewrite app_nil_r|].
    split; [done|]. split; [done|]. split; [done|]. intros HG. apply Hl. apply Forall_app. split; [done|]. apply Forall_singleton. cbn. lia.
  - set (tk := (MAX_DATAGRAM - length (concat cur) - fixed) `min` (length handshake - offset)).
    assert (1 ≤ tk ≤ length handshake - offset) as Htk by (unfold tk; lia). rewrite slice_ok by lia. cbn [mbind result_bind].
    replace (offset + tk - offset) with tk by lia. set (piece := take tk (drop offset handshake)).
    assert (length piece = tk) as Lpiece by (unfold piece; rewrite length_take, length_drop; lia).
    set (frame := crypto_frame (Z.of_nat offset) piece).
    assert (length frame = crypto_frame_overhead (Z.of_nat offset) tk + tk) as Lframe by (unfold frame; rewrite crypto_frame_length, Lpiece; done).
    destruct (handshake_packet_len (Z.of_nat offset) tk (length handshake - offset) (MAX_DATAGRAM - length (concat cur)) ltac:(lia) ltac:(lia)) as [Hfl Hpl].
    { fold fixed. unfold tk. lia. }
    cbv zeta in Hfl, Hpl. rewrite <- Lframe in Hfl, Hpl. set (plen := packet_overhead _ _ _ (length frame) + length frame) in *.
    case_decide as Hb.
    { exists G, cur, [], offset. split; [done|]. split; [by rewrite app_nil_r|]. split; [constructor|]. split; [done|]. split; [|done]. right. cbn [total sum_list_with]. unfold MAX_DATAGRAM in *. lia. }
    destruct (encode_packet_ok k PACKET_TYPE_HANDSHAKE pn frame dcid scid (concat cur)) as (p & -> & Hp & Lp); [done|lia|by apply crypto_frame_bytes, Forall_take, Forall_drop|unfold MAX_DATAGRAM in *; lia|done|done|].
    cbn [mbind result_bind]. rewrite decide_False in Hp by done.
    assert (concat cur ++ p = concat (cur ++ [p])) as -> by (rewrite concat_app; cbn; by rewrite app_nil_r).
    assert (concat (cur ++ [p]) <> []) as Hcp.
    { rewrite concat_app. intros [_ E]%app_nil. cbn in E. rewrite app_nil_r in E. subst p. cbn in Lp. pose proof (packet_overhead_pos PACKET_TYPE_HANDSHAKE (length dcid) (length scid) (length frame)). lia. }
    destruct (IH (offset + tk) (pn + 1)%Z (sent + Z.of_nat plen)%Z G (cur ++ [p])) as (G' & cur' & ps & stop & E & Ej & Hps & Hc' & Hstop & Hl).
    + unfold work in *. rewrite decide_False by done. case_decide; lia.
    + done.
    + lia.
    + lia.
    + exists G', cur', (p :: ps), stop. split; [exact E|]. split; [|split; [|split; [done|split]]].
      * rewrite Ej, !concat_app. cbn. rewrite !app_nil_r, <- !app_assoc. done.
      * apply (fp_cons _ _ piece); [by rewrite Lpiece|lia|lia|done|by rewrite Lpiece].
      * destruct Hstop as [?|Hstop]; [by left|right]. cbn [total sum_list_with]. fold (total ps). rewrite Lp. fold plen. lia.
      * intros HG. apply Hl. apply Forall_app in HG as [HG HC]. apply Forall_app. split; [done|]. apply Forall_singleton.
        rewrite concat_app, length_app. cbn. rewrite app_nil_r, Lp. fold plen. apply Forall_singleton in HC. unfold MAX_DATAGRAM in *. lia.
Qed.
End loop.

(** ** The answer *)

(** A flight of ordinary size. *)
Definition flight_ok (flight : TlsFlight) : Prop :=
  bytes_ok (t_initial flight) /\ bytes_ok (t_handshake flight) /\   length (t_initial flight) ≤ 1000 /\ (Z.of_nat (length (t_handshake flight)) < 2 ^ 32)%Z /\ (forall a, t_alert flight = Some a -> (0 ≤ a < 256)%Z).

(** The datagrams of an answer: an Initial packet and the packets of the flight. *)
Inductive answers (state : Pending) (scid : bytes) (flight : TlsFlight) (budget : Z) : list bytes -> Prop :=
  | no_budget : (budget < Z.of_nat (packet_overhead PACKET_TYPE_INITIAL (length (n_scid state)) (length scid) (length (initial_reply state flight)) + length (initial_reply state flight)))%Z ->
      answers state scid flight budget []
  | in_full keys p0 ps groups stop :
      initial_local (n_dcid state) = Some keys ->
      protected_packet keys PACKET_TYPE_INITIAL (n_scid state) scid (write_varint 0) (write_varint (Z.of_nat (4 + length (initial_reply state flight) + TAG_LEN)))
        0 4 (initial_reply state flight) p0 ->
      match handshake_keys flight with
      | Some k => flight_packets k (t_handshake flight) (n_scid state) scid 0 0 ps stop
      | None => ps = [] /\ stop = 0
      end ->
      (handshake_keys flight = None \/ stop = length (t_handshake flight) \/ (budget < Z.of_nat (total (p0 :: ps)) + 1201)%Z) ->
      concat groups = p0 :: ps ->
      Forall (fun g => length (concat g) ≤ 1201) groups ->
      answers state scid flight budget ((@concat Z) <$> groups).

Lemma concat_fmap_total (G : list (list bytes)) : total ((@concat Z) <$> G) = total (concat G).
Proof.
  induction G as [|g G IH]; [done|]. cbn [concat]. rewrite total_app, fmap_cons. cbn [total sum_list_with]. fold (total ((@concat Z) <$> G)). rewrite IH. f_equal.
  induction g as [|p g IHg]; [done|]. cbn [concat total sum_list_with]. rewrite length_app, IHg. done.
Qed.

Lemma initial_reply_length state flight : flight_ok flight -> length (initial_reply state flight) ≤ 1016.
Proof.
  intros (_ & _ & Hi & _). unfold initial_reply. rewrite length_app. unfold ack_frame, connection_close_frame. cbn [length]. rewrite !length_app, !write_varint_len.
  pose proof (varint_len_bounds (packet_number state)). change (varint_len 0) with 1. destruct (t_alert flight) as [a|].
  - cbn [length]. rewrite !length_app, !write_varint_len. pose proof (varint_len_bounds (Z.lor 0x0100 a)). change (varint_len 0) with 1. lia.
  - rewrite crypto_frame_length. unfold crypto_frame_overhead. change (varint_len 0) with 1.
    assert (varint_len (Z.of_nat (length (t_initial flight))) ≤ 2) by (etransitivity; [apply (varint_len_mono _ 0x3fff); lia|done]). lia.
Qed.

Lemma initial_reply_bytes state flight : flight_ok flight -> bytes_ok (initial_reply state flight).
Proof.
  intros (Hi & _). unfold initial_reply, ack_frame, connection_close_frame. apply Forall_app. split.
  - apply Forall_cons. split; [done|]. repeat (apply Forall_app; split); apply write_varint_ok.
  - destruct (t_alert flight); [|by apply crypto_frame_bytes]. apply Forall_cons. split; [done|]. repeat (apply Forall_app; split); apply write_varint_ok.
Qed.

Lemma initial_overhead d s l : d ≤ 20 -> s ≤ 20 -> l ≤ 1016 -> packet_overhead PACKET_TYPE_INITIAL d s l ≤ 70.
Proof.
  intros. unfold packet_overhead, TAG_LEN. rewrite decide_True by done.
  assert (varint_len (Z.of_nat (4 + l + 16)) ≤ 2) by (etransitivity; [apply (varint_len_mono _ 0x3fff); lia|done]). lia.
Qed.

(** In any case the answer keeps to the budget. *)
Lemma assemble_total fuel state scid flight budget : length (n_scid state) ≤ 20 -> length scid ≤ 20 -> (0 ≤ budget)%Z ->
  2 * length (t_handshake flight) + 1 < fuel ->
  assemble fuel state scid flight budget = Err tt
  \/ exists ds, assemble fuel state scid flight budget = Ok ds /\ (Z.of_nat (total ds) ≤ budget)%Z.
Proof.
  intros Hd Hs Hb Hf. unfold assemble. destruct (initial_local_some (n_dcid state)) as [keys ->]. cbn [ok_or mbind result_bind].
  set (payload := initial_reply state flight). case_decide as Hbud; [right; by exists []|].
  destruct (encode_packet_cases (mkPacketPlan PACKET_TYPE_INITIAL 0 payload keys) (n_scid state) scid []) as [->|(p & -> & Lp)]; [by left|].
  cbn [mbind result_bind app p_type p_payload] in *.
  assert (forall c ds, (Z.of_nat (total (ds ++ [c])) ≤ budget)%Z -> (Z.of_nat (total (ds ++ if decide (c = []) then [] else [c])) ≤ budget)%Z) as Hfin.
  { intros c ds. case_decide; [subst c|done]. by rewrite !total_app. }
  destruct (handshake_keys flight) as [k|].
  - destruct (flight_loop_total k (t_handshake flight) (n_scid state) scid budget Hd Hs fuel 0 0%Z (Z.of_nat (length p)) p []) as [->|(c & ds & -> & Hle)];
      [unfold work; case_decide; lia|by left|]. cbn [mbind result_bind]. right. eexists. split; [done|]. apply Hfin. cbn [app total sum_list_with] in Hle.
    rewrite Lp in Hle. lia.
  - cbn [mbind result_bind]. right. eexists. split; [done|]. apply Hfin. cbn [app total sum_list_with]. rewrite Lp. lia.
Qed.

(** An ordinary flight is answered in full. *)
Lemma assemble_answers fuel state scid flight budget : length (n_scid state) ≤ 20 -> length scid ≤ 20 -> flight_ok flight ->
  2 * length (t_handshake flight) + 1 < fuel ->
  exists ds, assemble fuel state scid flight budget = Ok ds /\ answers state scid flight budget ds.
Proof.
  intros Hd Hs Hok Hf. pose proof (initial_reply_length state flight Hok) as Hl. pose proof (initial_overhead _ _ _ Hd Hs Hl) as Hov.
  unfold assemble. destruct (initial_local_some (n_dcid state)) as [keys Ek]. rewrite Ek. cbn [ok_or mbind result_bind].
  case_decide as Hbud; [exists []; split; [done|by constructor]|].
  destruct (encode_packet_ok keys PACKET_TYPE_INITIAL 0 (initial_reply state flight) (n_scid state) scid []) as (p & -> & Hp & Lp); [done|done|by apply initial_reply_bytes|lia|done|done|].
  rewrite decide_True in Hp by done. cbn [mbind result_bind app].
  assert (p <> []) as Hne by (intros ->; cbn in Lp; pose proof (packet_overhead_pos PACKET_TYPE_INITIAL (length (n_scid state)) (length scid) (length (initial_reply state flight))); lia).
  destruct (handshake_keys flight) as [k|] eqn:Ehk.
  - destruct (flight_loop_packets k (t_handshake flight) (n_scid state) scid budget Hd Hs fuel 0 0%Z (Z.of_nat (length p)) [] [p])
      as (G & cur & ps & stop & E & Ej & Hps & Hc & Hstop & Hlen).
    + apply Hok.
    + unfold work. case_decide; lia.
    + cbn. rewrite app_nil_r. by intros ->.
    + done.
    + destruct Hok as (_ & _ & _ & ? & _). lia.
    + cbn [concat app fmap list_fmap] in E. rewrite app_nil_r in E. rewrite E. cbn [mbind result_bind].
      set (groups := G ++ if decide (concat cur = []) then [] else [cur]).
      replace (((@concat Z) <$> G) ++ (if decide (concat cur = []) then [] else [concat cur])) with ((@concat Z) <$> groups)
        by (unfold groups; rewrite fmap_app; by case_decide).
      eexists. split; [done|]. apply (in_full _ _ _ _ keys p ps groups stop); [done|done|by rewrite Ehk|..].
      * right. destruct Hstop as [Hstop|Hstop]; [left|right; cbn [total sum_list_with]; fold (total ps); lia].
        apply Nat.le_antisymm; [|done]. clear -Hps. remember 0 as o eqn:Eo. assert (o ≤ length (t_handshake flight)) as Ho by lia. clear Eo. induction Hps; [done|]. apply IHHps. lia.
      * change (p :: ps) with (concat ([] ++ [[p]]) ++ ps). rewrite <- Ej. unfold groups. rewrite !concat_app. f_equal. case_decide as E0; [|done]. rewrite (Hc E0). done.
      * assert (Forall (fun g => length (concat g) ≤ 1201) (G ++ [cur])) as HG.
        { apply Hlen. apply Forall_singleton. cbn. rewrite app_nil_r, Lp. lia. }
        apply Forall_app in HG as [HG HC]. unfold groups. apply Forall_app. split; [done|]. case_decide; [constructor|done].
  - cbn [mbind result_bind]. rewrite decide_False by done. eexists. split; [done|].
    replace ([] ++ [p]) with ((@concat Z) <$> [[p]]) by (cbn; by rewrite app_nil_r).
    apply (in_full _ _ _ _ keys p [] [[p]] 0); [done|done|by rewrite Ehk|by left|done|]. apply Forall_singleton. cbn. rewrite app_nil_r, Lp. lia.
Qed.
End crypto.
