(* ===== verification/QuicProps.v ===== *)
(** * The responder among other traffic

    Any sequence of datagrams from anywhere: no panic, a bounded table, and never more than
    three times what came from an address sent to it.  And a client whose ClientHello
    arrives in pieces, in any order, has the flight of the server. *)
From stdpp Require Import gmap sorting.
From S2P Require Import Prelude Text Varint QuicPackets QuicResponder QuicParse QuicFlight.

(** ** TLS *)

Section tls.
Context `{T : QuicTls}.

(** A connection that comes to an end of what it has to write. *)
Inductive quiet : Conn -> Prop :=
  | quiet_end conn buf conn' : write_hs conn = (buf, Some OneRtt, conn') -> quiet conn
  | quiet_empty conn conn' : write_hs conn = ([], None, conn') -> quiet conn
  | quiet_more conn buf change conn' : write_hs conn = (buf, change, conn') -> quiet conn' -> quiet conn.

Lemma write_loop_mono fuel fuel' conn flight r : fuel ≤ fuel' -> write_loop fuel conn flight = Ok r -> write_loop fuel' conn flight = Ok r.
Proof.
  revert fuel' conn flight. induction fuel as [|fuel IH]; intros fuel' conn flight Hle E; [done|]. destruct fuel' as [|fuel']; [lia|]. cbn [write_loop] in *.
  destruct (write_hs conn) as [[buf change] conn']. destruct change as [[keys|]|]; [apply IH; [lia|done]|done|].
  case_decide; [done|]. apply IH; [lia|done].
Qed.

Lemma write_loop_quiet conn : quiet conn -> forall flight, exists fuel r, write_loop fuel conn flight = Ok r.
Proof.
  induction 1 as [conn buf conn' E|conn conn' E|conn buf change conn' E _ IH]; intros flight.
  - exists 1. cbn [write_loop]. rewrite E. by eexists.
  - exists 1. cbn [write_loop]. rewrite E. rewrite decide_True by done. by eexists.
  - set (flight' := match handshake_keys flight with
        | None => mkTlsFlight (t_initial flight ++ buf) (t_handshake flight) None (t_alert flight)
        | Some k => mkTlsFlight (t_initial flight) (t_handshake flight ++ buf) (Some k) (t_alert flight) end).
    destruct change as [[keys|]|].
    + destruct (IH (mkTlsFlight (t_initial flight') (t_handshake flight') (Some keys) (t_alert flight'))) as (fuel & r & Er). exists (S fuel), r. cbn [write_loop]. rewrite E. exact Er.
    + exists 1. cbn [write_loop]. rewrite E. by eexists.
    + destruct (decide (buf = [])) as [Hb|Hb].
      * exists 1. cbn [write_loop]. rewrite E, decide_True by done. by eexists.
      * destruct (IH flight') as (fuel & r & Er). exists (S fuel), r. cbn [write_loop]. rewrite E, decide_False by done. exact Er.
Qed.

Lemma run_tls_mono fuel fuel' hello dcid scid flight : fuel ≤ fuel' -> run_tls fuel hello dcid scid = Ok flight -> run_tls fuel' hello dcid scid = Ok flight.
Proof.
  intros Hle. unfold run_tls. destruct (tls_new _) as [conn|]; [|done]. cbn [ok_or mbind result_bind]. destruct (read_hs conn hello) as [[] conn']; [|done].
  intros E. apply bind_Ok in E as ([fl c] & E & Er). by rewrite (write_loop_mono _ _ _ _ _ Hle E).
Qed.

(** Law of rustls: a connection does not write for ever. *)
Class TlsLaws : Prop := { tls_quiet conn : quiet conn }.

Lemma run_tls_total `{TlsLaws} hello dcid scid : exists F, (forall fuel, F ≤ fuel -> run_tls fuel hello dcid scid = Err tt) \/ exists flight, forall fuel, F ≤ fuel -> run_tls fuel hello dcid scid = Ok flight.
Proof.
  unfold run_tls. destruct (tls_new _) as [conn|]; [|by exists 0; left]. cbn [ok_or mbind result_bind].
  destruct (read_hs conn hello) as [[] conn']; [|by exists 0; right; eexists].
  destruct (write_loop_quiet conn' (tls_quiet conn') (mkTlsFlight [] [] None None)) as (F & [fl c] & E). exists F. right. eexists. intros fuel Hf.
  rewrite (write_loop_mono _ _ _ _ _ Hf E). done.
Qed.
End tls.

(** ** Events *)

Section responder.
Context `{C : QuicCrypto, Laws : !QuicLaws C, T : !QuicTls, TL : !TlsLaws} {Addr : Type} `{Countable Addr}.

Record Event : Type := mkEvent { e_now : Z; e_cid : bytes; e_remote : Addr; e_packet : bytes }.

Fixpoint run (fuel : nat) (evs : list Event) (r : gmap (Addr * bytes) Pending) : list (result unit (list (Addr * bytes))) * gmap (Addr * bytes) Pending :=
  match evs with
  | [] => ([], r)
  | e :: evs =>
      let h := handle_datagram (Addr := Addr) fuel (e_now e) (e_cid e) (e_remote e) (e_packet e) r in
      let rest := run fuel evs (snd h) in (fst h :: fst rest, snd rest)
  end.

(** ** Budgets *)

Definition pending_ok (p : Pending) : Prop :=
  length (n_scid p) ≤ 20 /\ (0 ≤ received_bytes p)%Z /\ ranges_ok (buffer p) (received p).

Definition table_ok (r : gmap (Addr * bytes) Pending) : Prop := size r ≤ MAX_PENDING /\ map_Forall (fun _ p => pending_ok p) r.

(** What was received from an address, in the handshakes that are pending. *)
Definition credit (remote : Addr) (r : gmap (Addr * bytes) Pending) : Z :=
  map_fold (fun key p n => ((if decide (key.1 = remote) then received_bytes p else 0) + n)%Z) 0%Z r.

Definition share (remote : Addr) (key : Addr * bytes) (p : Pending) : Z := if decide (key.1 = remote) then received_bytes p else 0.

Lemma credit_insert (remote : Addr) (key : Addr * bytes) (p : Pending) (r : gmap (Addr * bytes) Pending) : r !! key = None -> credit remote (<[key := p]> r) = (share remote key p + credit remote r)%Z.
Proof. intros Hr. unfold credit. rewrite map_fold_insert_L; [done|intros; lia|done]. Qed.

Lemma credit_delete (remote : Addr) (key : Addr * bytes) (p : Pending) (r : gmap (Addr * bytes) Pending) : r !! key = Some p -> credit remote r = (share remote key p + credit remote (delete key r))%Z.
Proof. intros Hr. rewrite <- credit_insert by apply lookup_delete_eq. by rewrite insert_delete_id. Qed.

Lemma share_nonneg (remote : Addr) (key : Addr * bytes) (p : Pending) : pending_ok p -> (0 ≤ share remote key p)%Z.
Proof. intros (_ & Hp & _). unfold share. case_decide; lia. Qed.

Lemma credit_expire (remote : Addr) (now : Z) (r : gmap (Addr * bytes) Pending) : map_Forall (fun _ p => pending_ok p) r -> (0 ≤ credit remote (expire now r) ≤ credit remote r)%Z.
Proof.
  unfold expire. induction r as [|key p r Hr IH] using map_ind; intros Hok; [done|]. apply map_Forall_insert in Hok as [Hp Hok]; [|done].
  specialize (IH Hok). rewrite credit_insert by done. pose proof (share_nonneg remote key p Hp).
  destruct (decide (now - created p < PENDING_TTL)%Z).
  - rewrite map_filter_insert_True by done. rewrite credit_insert by (by rewrite map_lookup_filter, Hr). lia.
  - rewrite map_filter_insert_not' by (cbn; done || (intros ? E; congruence)). lia.
Qed.

(** ** One datagram *)

Lemma ranges_ok_sort b l : ranges_ok b l -> ranges_ok b (merge_sort pair_le l).
Proof. intros [Hb Hl]. split; [done|]. by rewrite merge_sort_Permutation. Qed.

(** The state after the data of a packet, without the fuel that comes later. *)
Lemma gather_sound st i n cs : pending_ok st -> Forall chunk_ok cs ->
  gather st i n cs = Err tt
  \/ exists st' o, gather st i n cs = Ok (st', o) /\ pending_ok st' /\ (received_bytes st' ≤ received_bytes st + Z.of_nat n)%Z.
Proof.
  intros (Hs & Hb & Hr) Hcs. unfold gather, absorb. pose proof (merge_chunks_sound cs _ _ Hcs Hr) as Hm.
  destruct (merge_chunks cs (buffer st) (received st)) as [[b l]|[]|]; [|by left|done]. cbn [mbind result_bind merged buffer contiguous] in *.
  apply ranges_ok_sort in Hm. rewrite slice_ok; [|lia|]; cbn [mbind result_bind].
  - right. eexists _, _. split; [done|]. cbn. split; [|lia]. split; [done|]. split; [|done]. cbn. lia.
  - apply count_bound. apply Hm.
Qed.

Definition sent_to (a remote : Addr) (ds : list bytes) : Z := if decide (a = remote) then Z.of_nat (total ds) else 0.
Definition got_from (a remote : Addr) (packet : bytes) : Z := if decide (a = remote) then Z.of_nat (length packet) else 0.

Lemma respond_total scid (remote : Addr) st hello : pending_ok st -> length scid ≤ 20 ->
  exists F, forall fuel, F ≤ fuel -> respond fuel scid remote st hello = Err tt
    \/ exists ds, respond fuel scid remote st hello = Ok (map (pair remote) ds) /\ (Z.of_nat (total ds) ≤ 3 * received_bytes st)%Z.
Proof.
  intros (Hs & Hb & _) Hc. destruct (run_tls_total hello (n_dcid st) scid) as [F [Herr|[flight Hok]]].
  - exists F. intros fuel Hf. left. unfold respond. by rewrite Herr.
  - exists (F `max` (2 * length (t_handshake flight) + 2)). intros fuel Hf. unfold respond. rewrite Hok by lia. cbn [mbind result_bind].
    destruct (assemble_total fuel st scid flight (Z.min (received_bytes st * Z.of_nat AMPLIFICATION_LIMIT) (2 ^ 64 - 1)) Hs Hc ltac:(unfold AMPLIFICATION_LIMIT; lia) ltac:(lia))
      as [->|(ds & -> & Hle)]; [by left|]. right. exists ds. split; [done|]. unfold AMPLIFICATION_LIMIT in Hle. lia.
Qed.

(** What a step may do to the budgets. *)
Definition budget_kept (remote : Addr) (packet : bytes) (ds : list bytes) (before after : Addr -> Z) : Prop :=
  forall a, (sent_to a remote ds + 3 * after a ≤ 3 * (before a + got_from a remote packet))%Z.

Lemma budget_quiet (remote : Addr) packet (before after : Addr -> Z) : (forall a, after a ≤ before a)%Z -> budget_kept remote packet [] before after.
Proof. intros Hle a. specialize (Hle a). unfold sent_to, got_from. cbn. case_decide; lia. Qed.

Lemma advance_sound (scid : bytes) (remote : Addr) (packet : bytes) (st : Pending) (i : ClientInitial) (cs : list CryptoChunk) (base : gmap (Addr * bytes) Pending) :
  pending_ok st -> Forall chunk_ok cs -> length scid ≤ 20 -> base !! (remote, c_dcid i) = None -> size base < MAX_PENDING -> map_Forall (fun _ p => pending_ok p) base ->
  exists r' F, forall fuel, F ≤ fuel -> exists ds,
    (advance fuel scid remote packet st i cs base = (Ok (map (pair remote) ds), r') \/ advance fuel scid remote packet st i cs base = (Err tt, r') /\ ds = [])
    /\ table_ok r' /\ budget_kept remote packet ds (fun a => share a (remote, c_dcid i) st + credit a base)%Z (fun a => credit a r').
Proof.
  intros Hst Hcs Hc Hnone Hsize Hbase. unfold advance.
  assert (forall a, 0 ≤ share a (remote, c_dcid i) st)%Z as Hsh by (intros a; by apply share_nonneg).
  destruct (gather_sound st i (length packet) cs Hst Hcs) as [->|(st' & o & -> & Hst' & Hrec)].
  { exists base, 0. intros fuel _. exists []. split; [by right|]. split; [split; [exact (Nat.lt_le_incl _ _ Hsize)|done]|]. apply budget_quiet. intros a. specialize (Hsh a). cbv beta. lia. }
  destruct o as [hello|].
  - destruct (respond_total scid remote st' hello Hst' Hc) as [F HF]. exists base, F. intros fuel Hf. destruct (HF fuel Hf) as [->|(ds & -> & Hle)].
    + exists []. split; [by right|]. split; [split; [exact (Nat.lt_le_incl _ _ Hsize)|done]|]. apply budget_quiet. intros a. specialize (Hsh a). cbv beta. lia.
    + exists ds. split; [by left|]. split; [split; [exact (Nat.lt_le_incl _ _ Hsize)|done]|]. intros a. specialize (Hsh a). unfold sent_to, got_from, share in *. cbn [fst] in *. repeat case_decide; lia || (subst; done).
  - exists (<[(remote, c_dcid i) := st']> base), 0. intros fuel _. exists []. split; [by left|]. split.
    + split; [rewrite map_size_insert_None by done; lia|]. by apply map_Forall_insert.
    + intros a. rewrite credit_insert by done. unfold sent_to, got_from, share. cbn [fst total sum_list_with]. repeat case_decide; lia || (subst; done).
Qed.

Lemma handle_sound (now : Z) (scid : bytes) (remote : Addr) (packet : bytes) (r : gmap (Addr * bytes) Pending) : bytes_ok packet -> length scid ≤ 20 -> table_ok r ->
  exists r' F, forall fuel, F ≤ fuel -> exists ds,
    handle_datagram fuel now scid remote packet r = (Ok (map (pair remote) ds), r')
    /\ table_ok r' /\ budget_kept remote packet ds (fun a => credit a r) (fun a => credit a r').
Proof.
  intros Hp Hc [Hsize Hr]. unfold handle_datagram. set (r1 := expire now r : gmap (Addr * bytes) Pending).
  assert (forall a, 0 ≤ credit a r1 ≤ credit a r)%Z as Hcr by (intros a; by apply credit_expire).
  assert (table_ok r1) as [Hsize1 Hr1].
  { split; [etransitivity; [apply map_size_filter|done]|]. intros k p Hk. apply map_lookup_filter_Some in Hk as [Hk _]. by apply (Hr k). }
  assert (exists r' F, forall fuel, F ≤ fuel -> exists ds,
    (try_handle fuel now scid remote packet r1 = (Ok (map (pair remote) ds), r') \/ try_handle fuel now scid remote packet r1 = (Err tt, r') /\ ds = [])
    /\ table_ok r' /\ budget_kept remote packet ds (fun a => credit a r1) (fun a => credit a r')) as (r' & F & HF).
  { unfold try_handle. pose proof (parse_sound packet Hp) as Hi. destruct (parse_client_initial packet) as [[i|]|[]|]; cbn [parsed] in Hi; [|..|done].
    2, 3: exists r1, 0; intros fuel _; exists []; (split; [by (left + right)|]); (split; [done|]); by apply budget_quiet.
    destruct Hi as (Hd & Hs & Hn & Hb). destruct (collect_total (c_payload i) Hb) as (cs & -> & Hcs).
    destruct (r1 !! (remote, c_dcid i)) as [st|] eqn:Hk.
    - destruct (advance_sound scid remote packet st i cs (delete (remote, c_dcid i) r1)) as (r' & F & HF); [exact (Hr1 _ _ Hk)|done|done|apply lookup_delete_eq|..].
      + rewrite map_size_delete_Some by (by eexists). unfold MAX_PENDING in *. lia.
      + by apply map_Forall_delete.
      + exists r', F. intros fuel Hf. destruct (HF fuel Hf) as (ds & E & Ht & Hbk). exists ds. split; [exact E|]. split; [done|].
        intros a. rewrite (credit_delete a _ _ _ Hk). apply Hbk.
    - destruct (decide (MAX_PENDING ≤ size r1)); [exists r1, 0; intros fuel _; exists []; split; [by right|]; split; [done|]; by apply budget_quiet|].
      destruct (advance_sound scid remote packet (fresh now i) i cs r1) as (r' & F & HF); [|done|done|done|lia|done|].
      + split; [done|]. split; [done|]. by split.
      + exists r', F. intros fuel Hf. destruct (HF fuel Hf) as (ds & E & Ht & Hbk). exists ds. split; [exact E|]. split; [done|].
        intros a. specialize (Hbk a). unfold share in Hbk. cbn [fresh received_bytes] in Hbk. cbv beta in *. case_decide; lia. }
  exists r', F. intros fuel Hf. destruct (HF fuel Hf) as (ds & E & Ht & Hbk). exists ds. split; [|split; [done|]].
  - destruct E as [->|[-> ->]]; done.
  - intros a. specialize (Hbk a). specialize (Hcr a). cbv beta in *. lia.
Qed.

(** ** Any traffic *)

Definition event_ok (e : Event) : Prop := bytes_ok (e_packet e) /\ length (e_cid e) = SCID_LEN.
Definition zsum (l : list Z) : Z := foldr Z.add 0%Z l.
Lemma zsum_app a b : zsum (a ++ b) = (zsum a + zsum b)%Z.
Proof. unfold zsum. induction a as [|x a IH]; [done|]. cbn [app foldr]. lia. Qed.

Definition sent_total (a : Addr) (evs : list Event) (dss : list (list bytes)) : Z := zsum (zip_with (fun e ds => sent_to a (e_remote e) ds) evs dss).
Definition got_total (a : Addr) (evs : list Event) : Z := zsum ((fun e => got_from a (e_remote e) (e_packet e)) <$> evs).
Definition replies (evs : list Event) (dss : list (list bytes)) : list (result unit (list (Addr * bytes))) :=
  zip_with (fun e ds => Ok (map (pair (e_remote e)) ds)) evs dss.

Lemma run_sound (evs : list Event) (r : gmap (Addr * bytes) Pending) : Forall event_ok evs -> table_ok r ->
  exists r' F, forall fuel, F ≤ fuel -> exists dss, length dss = length evs /\ run fuel evs r = (replies evs dss, r') /\ table_ok r'
    /\ forall a, (sent_total a evs dss + 3 * credit a r' ≤ 3 * (credit a r + got_total a evs))%Z.
Proof.
  intros Hevs. revert r. induction Hevs as [|e evs [Hp Hc] _ IH]; intros r Hr.
  { exists r, 0. intros fuel _. exists []. split; [done|]. split; [done|]. split; [done|]. intros a. unfold sent_total, got_total. cbn. lia. }
  destruct (handle_sound (e_now e) (e_cid e) (e_remote e) (e_packet e) r Hp ltac:(rewrite Hc; unfold SCID_LEN; lia) Hr) as (r1 & F1 & H1).
  assert (table_ok r1) as Hr1 by (destruct (H1 F1 ltac:(lia)) as (ds & _ & Ht & _); exact Ht).
  destruct (IH r1 Hr1) as (r' & F2 & H2). exists r', (F1 `max` F2). intros fuel Hf.
  destruct (H1 fuel ltac:(lia)) as (ds & E & _ & Hb). destruct (H2 fuel ltac:(lia)) as (dss & Hl & Er & Ht & Hs).
  exists (ds :: dss). split; [cbn; by rewrite Hl|]. split; [cbn [run]; rewrite E; cbn [fst snd]; by rewrite Er|]. split; [exact Ht|].
  intros a. specialize (Hb a). specialize (Hs a). unfold sent_total, got_total in *. cbn [zip_with fmap list_fmap zsum foldr] in *. cbv beta in *. fold (zsum (zip_with (fun e ds => sent_to a (e_remote e) ds) evs dss)).
  fold (zsum ((fun e => got_from a (e_remote e) (e_packet e)) <$> evs)). lia.
Qed.

Lemma credit_nonneg (a : Addr) (r : gmap (Addr * bytes) Pending) : map_Forall (fun _ p => pending_ok p) r -> (0 ≤ credit a r)%Z.
Proof. intros Hr. pose proof (credit_expire a 0 r Hr). lia. Qed.

(** ** A client with a ClientHello *)

(** A datagram of the client: an Initial packet, with what comes after it, whose frames
    carry pieces of the message. *)
Inductive probe (k : PacketKeys) (dcid scid hello : bytes) : bytes -> Z -> list CryptoChunk -> Prop :=
  | probe_intro token_len token len pn pn_len fs packet rest :
      1 ≤ pn_len ≤ 4 -> 4 ≤ pn_len + length (frames_text fs) -> (0 ≤ pn < 256 ^ Z.of_nat pn_len)%Z ->
      varint_text (Z.of_nat (length token)) token_len -> varint_text (Z.of_nat (pn_len + length (frames_text fs) + TAG_LEN)) len ->
      Forall frame_ok fs -> Forall chunk_ok (chunks_of fs) -> Forall (piece_of hello) (chunks_of fs) ->
      protected_packet k PACKET_TYPE_INITIAL dcid scid (token_len ++ token) len pn pn_len (frames_text fs) packet ->
      probe k dcid scid hello (packet ++ rest) pn (chunks_of fs).

(** An event of the client, with the number and the pieces of its packet; or one of
    anybody else. *)
Definition Own : Type := option (Z * list CryptoChunk).

Definition classified (k : PacketKeys) (remote : Addr) (dcid scid hello : bytes) (eo : Event * Own) : Prop :=
  match eo.2 with
  | Some (pn, cs) => e_remote eo.1 = remote /\ probe k dcid scid hello (e_packet eo.1) pn cs
  | None => forall i, parse_client_initial (e_packet eo.1) = Ok (Some i) -> (e_remote eo.1, c_dcid i) <> (remote, dcid)
  end.

Definition own_chunks (l : list (Event * Own)) : list CryptoChunk := mjoin ((fun eo => match eo.2 with Some (_, cs) => cs | None => [] end) <$> l).
Definition own_size (eo : Event * Own) : Z := match eo.2 with Some _ => Z.of_nat (length (e_packet eo.1)) | None => 0%Z end.
Definition own_bytes (l : list (Event * Own)) : Z := zsum (own_size <$> l).
Definition own_largest (l : list (Event * Own)) : Z := foldl (fun n eo => match eo.2 with Some (pn, _) => Z.max n pn | None => n end) 0%Z l.
Definition own_silent (eo : Event * Own) (a : result unit (list (Addr * bytes))) : Prop := eo.2 = None \/ a = Ok [].

Lemma probe_parses k dcid scid hello packet pn cs : initial_remote dcid = Some k -> length dcid ≤ 20 -> length scid ≤ 20 ->
  probe k dcid scid hello packet pn cs ->
  (exists payload, parse_client_initial packet = Ok (Some (mkClientInitial dcid scid pn payload)) /\ collect_crypto_frames payload = Ok cs)
  /\ (0 ≤ pn)%Z /\ Forall chunk_ok cs /\ Forall (piece_of hello) cs.
Proof.
  intros Hk Hd Hs. destruct 1 as [tl token len pn pn_len fs packet rest Hl Hp Hpn Ht Hlen Hfs Hcs Hpc Hprot]. split; [|split; [lia|done]].
  exists (frames_text fs). split; [|by apply collect_frames]. by apply (parse_protected k dcid scid tl token len pn pn_len).
Qed.

Lemma covered_app (a b : list (Z * Z)) i : covered (a ++ b) i <-> covered a i \/ covered b i.
Proof. unfold covered. split; [intros (r & [?|?]%elem_of_app & ?); eauto|intros [(r & ? & ?)|(r & ? & ?)]; exists r; (split; [apply elem_of_app; auto|done])]. Qed.

Lemma agrees_sort msg b l : agrees msg b l -> agrees msg b (merge_sort pair_le l).
Proof.
  intros (Hb & Hl & Ha). split; [done|]. split; [by rewrite merge_sort_Permutation|]. intros i Hi. apply Ha. by apply (proj1 (covered_sort l i)).
Qed.

Lemma own_chunks_snoc l e pn cs : own_chunks (l ++ [(e, Some (pn, cs))]) = own_chunks l ++ cs.
Proof. unfold own_chunks. rewrite fmap_app, join_app. cbn. by rewrite app_nil_r. Qed.

Lemma own_bytes_snoc l eo : own_bytes (l ++ [eo]) = (own_bytes l + own_size eo)%Z.
Proof. unfold own_bytes. rewrite fmap_app, zsum_app. change (zsum (own_size <$> [eo])) with (own_size eo + 0)%Z. lia. Qed.

Lemma own_largest_snoc l eo : own_largest (l ++ [eo]) = match eo.2 with Some (pn, _) => Z.max (own_largest l) pn | None => own_largest l end.
Proof. unfold own_largest. by rewrite foldl_app. Qed.

Lemma own_foreign (l : list (Event * Own)) (e : Event) : own_chunks (l ++ [(e, None)]) = own_chunks l /\ own_bytes (l ++ [(e, None)]) = own_bytes l /\ own_largest (l ++ [(e, None)]) = own_largest l.
Proof.
  split; [|split].
  - unfold own_chunks. rewrite fmap_app, join_app. cbn. by rewrite app_nil_r.
  - rewrite own_bytes_snoc. cbn. lia.
  - by rewrite own_largest_snoc.
Qed.

Lemma own_bytes_app (l l' : list (Event * Own)) : own_bytes (l ++ l') = (own_bytes l + own_bytes l')%Z.
Proof. unfold own_bytes. by rewrite fmap_app, zsum_app. Qed.

Lemma own_bytes_nonneg (l : list (Event * Own)) : (0 ≤ own_bytes l)%Z.
Proof.
  induction l as [|eo l IH]; [done|]. change (own_bytes (eo :: l)) with (own_size eo + own_bytes l)%Z. unfold own_size at 1. destruct (snd eo) as [[pn cs]|]; lia.
Qed.

Section client.
Context (k : PacketKeys) (remote : Addr) (dcid scid hello : bytes) (t0 : Z).
Context (Hk : initial_remote dcid = Some k) (Hd : length dcid ≤ 20) (Hs : length scid ≤ 20).
Context (Hm : handshake_message hello) (Hlen : (Z.of_nat (length hello) ≤ MAX_CRYPTO_BYTES)%Z).

Definition whole (l : list (Event * Own)) : Prop := all_covered hello (range_of <$> own_chunks l).

(** The state of the handshake after the events so far. *)
Definition holds (l : list (Event * Own)) (st : Pending) : Prop :=
  n_scid st = scid /\ n_dcid st = dcid /\ created st = t0 /\ (0 ≤ own_bytes l < 2 ^ 62)%Z /\ received_bytes st = own_bytes l /\ agrees hello (buffer st) (received st)
  /\ forall i, covered (received st) i <-> covered (range_of <$> own_chunks l) i.

(** One more packet of the client: the message as soon as it is whole. *)
Lemma gather_own l st i e pn cs : holds l st -> c_packet_number i = pn -> Forall chunk_ok cs -> Forall (piece_of hello) cs ->
  (own_bytes (l ++ [(e, Some (pn, cs))]) < 2 ^ 62)%Z ->
  exists st', gather st i (length (e_packet e)) cs = Ok (st', if decide (length hello ≤ contiguous st') then Some hello else None)
    /\ (length hello ≤ contiguous st' <-> whole (l ++ [(e, Some (pn, cs))])) /\ holds (l ++ [(e, Some (pn, cs))]) st'
    /\ packet_number st' = Z.max (packet_number st) pn.
Proof.
  intros (E1 & E2 & E3 & Hb & E4 & Ha & Hc) Hi Hcs Hpc Hb'. unfold gather, absorb.
  rewrite own_bytes_snoc in Hb'. unfold own_size in Hb'. cbn [snd fst] in Hb'.
  destruct (merge_pieces hello cs _ _ Hlen Hpc Hcs Ha) as (b' & -> & Ha'). cbn [mbind result_bind]. cbn [contiguous buffer].
  set (l' := received st ++ (range_of <$> cs)) in *.
  assert (count_contiguous (merge_sort pair_le l') ≤ length b') as Hcb.
  { apply count_bound. rewrite merge_sort_Permutation. apply Ha'. }
  rewrite slice_ok by lia. cbn [mbind result_bind]. rewrite Nat.sub_0_r, drop_0, (agreed_message hello) by done.
  match goal with |- context [Ok (?s, _) = _] => exists s end. split; [reflexivity|]. cbn [contiguous]. rewrite <- all_covered_count.
  assert (forall j, covered l' j <-> covered (range_of <$> own_chunks (l ++ [(e, Some (pn, cs))])) j) as Hcov.
  { intros j. rewrite own_chunks_snoc, fmap_app. unfold l'. rewrite !covered_app, Hc. done. }
  split; [|split].
  - unfold whole, all_covered. split; intros Hall j Hj; apply Hcov, Hall, Hj.
  - unfold holds. cbn. rewrite own_bytes_snoc. unfold own_size. cbn [snd fst]. split; [done|]. split; [done|]. split; [done|]. split; [lia|].
    split; [rewrite E4, Z.min_l; lia|]. split; [by apply agrees_sort|]. intros j. rewrite covered_sort. apply Hcov.
  - cbn. by rewrite Hi.
Qed.

(** The table before an event of the client: its entry, or none and room for one. *)
Definition ready (l : list (Event * Own)) (now : Z) (r : gmap (Addr * bytes) Pending) : Prop :=
  l = [] /\ now = t0 /\ r !! (remote, dcid) = None /\ size r < MAX_PENDING
  \/ exists st, r !! (remote, dcid) = Some st /\ holds l st /\ packet_number st = own_largest l.

Lemma own_step (l : list (Event * Own)) (e : Event) (pn : Z) (cs : list CryptoChunk) (r : gmap (Addr * bytes) Pending) : ready l (e_now e) r -> e_remote e = remote -> probe k dcid scid hello (e_packet e) pn cs ->
  (e_now e < t0 + PENDING_TTL)%Z -> (own_bytes (l ++ [(e, Some (pn, cs))]) < 2 ^ 62)%Z ->
  exists st' (r' : gmap (Addr * bytes) Pending), holds (l ++ [(e, Some (pn, cs))]) st' /\ packet_number st' = own_largest (l ++ [(e, Some (pn, cs))])
    /\ if decide (length hello ≤ contiguous st') then
         whole (l ++ [(e, Some (pn, cs))]) /\ r' !! (remote, dcid) = None
         /\ forall fuel, handle_datagram fuel (e_now e) (e_cid e) (e_remote e) (e_packet e) r
              = (match respond fuel (e_cid e) remote st' hello with Err _ => Ok [] | a => a end, r')
       else ~ whole (l ++ [(e, Some (pn, cs))]) /\ r' !! (remote, dcid) = Some st'
         /\ forall fuel, handle_datagram fuel (e_now e) (e_cid e) (e_remote e) (e_packet e) r = (Ok [], r').
Proof.
  intros Hr Er Hpr Hnow Hb. rewrite Er. destruct (probe_parses _ _ _ _ _ _ _ Hk Hd Hs Hpr) as ((payload & Hparse & Hcoll) & Hpn & Hcs & Hpc).
  set (i := mkClientInitial dcid scid pn payload) in *. set (r1 := expire (e_now e) r : gmap (Addr * bytes) Pending).
  set (key := (remote, dcid)).
  assert (exists st (base : gmap (Addr * bytes) Pending), holds l st /\ Z.max (packet_number st) pn = Z.max (own_largest l) pn /\ base !! key = None
    /\ forall fuel, try_handle fuel (e_now e) (e_cid e) remote (e_packet e) r1 = advance fuel (e_cid e) remote (e_packet e) st i cs base) as (st & base & Hst & Hmax & Hbase & Htry).
  { unfold try_handle. rewrite Hparse. cbn [c_payload i]. rewrite Hcoll. destruct Hr as [(-> & Ht & Hnone & Hsize)|(st & Hsome & Hst & Hn)].
    - exists (fresh (e_now e) i), r1. split; [|split; [|split]].
      + unfold holds, own_chunks, own_bytes. cbn. split; [done|]. split; [done|]. split; [done|]. split; [lia|]. split; [done|]. split; [split; [cbn; lia|split; [constructor|]]|done].
        intros j (x & Hx & _). by apply elem_of_nil in Hx.
      + cbn. lia.
      + apply map_lookup_filter_None. left. exact Hnone.
      + intros fuel. change (remote, c_dcid i) with key. assert (r1 !! key = None) as Hn1 by (apply map_lookup_filter_None; left; exact Hnone). rewrite Hn1.
        rewrite decide_False; [done|]. pose proof (map_size_filter (fun kv => e_now e - created (snd kv) < PENDING_TTL)%Z r). unfold r1, expire. lia.
    - exists st, (delete key r1). split; [done|]. split; [by rewrite Hn|]. split; [apply lookup_delete_eq|]. intros fuel. change (remote, c_dcid i) with key.
      assert (r1 !! key = Some st) as ->; [|done]. apply map_lookup_filter_Some. split; [done|]. cbn. destruct Hst as (_ & _ & Hcr & _). lia. }
  destruct (gather_own l st i e pn cs Hst eq_refl Hcs Hpc Hb) as (st' & Hg & Hw & Hst' & Hpn').
  assert (packet_number st' = own_largest (l ++ [(e, Some (pn, cs))])) as Hlarge by (rewrite own_largest_snoc, Hpn'; exact Hmax).
  unfold handle_datagram. fold r1. unfold advance in Htry. rewrite Hg in Htry. destruct (decide (length hello ≤ contiguous st')) as [Hle|Hnle].
  - exists st', base. split; [done|]. split; [done|]. rewrite (decide_True (P:=length hello ≤ contiguous st')) by exact Hle. split; [exact (proj1 Hw Hle)|]. split; [done|]. intros fuel. rewrite Htry. by destruct (respond _ _ _ _ _) as [?|[]|?].
  - exists st', (<[key := st']> base). split; [done|]. split; [done|]. rewrite (decide_False (P:=length hello ≤ contiguous st')) by exact Hnle. split; [intros Hall; apply Hnle; exact (proj2 Hw Hall)|].
    split; [apply lookup_insert_eq|]. intros fuel. rewrite Htry. done.
Qed.

(** The others do not touch the entry. *)
Lemma foreign_step (e : Event) (r : gmap (Addr * bytes) Pending) (st : Pending) : classified k remote dcid scid hello (e, None) -> (e_now e < created st + PENDING_TTL)%Z ->
  r !! (remote, dcid) = Some st -> forall fuel, (handle_datagram fuel (e_now e) (e_cid e) (e_remote e) (e_packet e) r).2 !! (remote, dcid) = Some st.
Proof.
  intros Hne Hnow Hr fuel. unfold classified in Hne. cbn [fst snd] in Hne. unfold handle_datagram. set (r1 := expire (e_now e) r : gmap (Addr * bytes) Pending).
  assert (r1 !! (remote, dcid) = Some st) as Hr1 by (apply map_lookup_filter_Some; split; [done|cbn; lia]).
  assert ((try_handle fuel (e_now e) (e_cid e) (e_remote e) (e_packet e) r1).2 !! (remote, dcid) = Some st) as Ht.
  { unfold try_handle. destruct (parse_client_initial (e_packet e)) as [[i|]|[]|] eqn:Hp; [|done..]. specialize (Hne i eq_refl).
    destruct (collect_crypto_frames _) as [cs|[]|]; [|done..].
    assert (forall st' (base : gmap (Addr * bytes) Pending), base !! (remote, dcid) = Some st ->
      (advance fuel (e_cid e) (e_remote e) (e_packet e) st' i cs base).2 !! (remote, dcid) = Some st) as Hadv.
    { intros st' base Hbase. unfold advance. destruct (gather _ _ _ _) as [[st2 [h|]]|[]|]; [done| |done..]. cbn [snd]. by rewrite lookup_insert_ne. }
    destruct (r1 !! (e_remote e, c_dcid i)) as [st'|]; [|by case_decide; [|apply Hadv]]. apply Hadv. by rewrite lookup_delete_ne. }
  destruct (try_handle _ _ _ _ _ _) as [a r']. exact Ht.
Qed.

Lemma whole_mono (l l' : list (Event * Own)) : whole l -> whole (l ++ l').
Proof.
  intros Hw i Hi. specialize (Hw i Hi). unfold own_chunks in *. rewrite fmap_app, join_app, fmap_app. apply covered_app. by left.
Qed.

(** As long as the message is not whole, the client hears nothing and its entry is kept. *)
Lemma run_silent (more l : list (Event * Own)) (r : gmap (Addr * bytes) Pending) :
  (exists st, r !! (remote, dcid) = Some st /\ holds l st /\ packet_number st = own_largest l) ->
  Forall (fun eo => classified k remote dcid scid hello eo /\ e_now eo.1 < t0 + PENDING_TTL)%Z more -> (own_bytes (l ++ more) < 2 ^ 62)%Z -> ~ whole (l ++ more) ->
  forall fuel, exists out (r' : gmap (Addr * bytes) Pending), run fuel (fst <$> more) r = (out, r') /\ Forall2 own_silent more out
    /\ exists st, r' !! (remote, dcid) = Some st /\ holds (l ++ more) st /\ packet_number st = own_largest (l ++ more).
Proof.
  intros Hr Hmore. revert l r Hr. induction Hmore as [|[e o] more [Hcl Hnow] _ IH]; intros l r Hr Hb Hw fuel.
  { exists [], r. split; [done|]. split; [constructor|]. by rewrite app_nil_r. }
  rewrite (app_assoc l [(e, o)] more : l ++ (e, o) :: more = _) in Hb, Hw |- *.
  assert (own_bytes (l ++ [(e, o)]) < 2 ^ 62)%Z as Hb1 by (rewrite own_bytes_app in Hb; pose proof (own_bytes_nonneg more); lia).
  assert (~ whole (l ++ [(e, o)])) as Hw1 by (intros Hall; by apply Hw, whole_mono).
  rewrite fmap_cons. cbn [run fst]. destruct o as [[pn cs]|].
  - unfold classified in Hcl. cbn [fst snd] in Hcl, Hnow. destruct Hcl as [Er Hpr].
    destruct (own_step l e pn cs r (or_intror Hr) Er Hpr Hnow Hb1) as (st' & r1 & Hst' & Hl' & Hcase). case_decide; destruct Hcase as (Hc1 & Hc2 & Hc3); [done|].
    rewrite Hc3. cbn [fst snd]. destruct (IH (l ++ [(e, Some (pn, cs))]) r1 ltac:(by exists st') Hb Hw fuel) as (out & r' & E & Hs' & Hfin).
    exists (Ok [] :: out), r'. rewrite E. split; [done|]. split; [|exact Hfin]. constructor; [by right|done].
  - destruct Hr as (st & Hst & Hh & Hp). destruct (own_foreign l e) as (F1 & F2 & F3).
    assert (holds (l ++ [(e, None)]) st) as Hh' by (unfold holds in *; rewrite F1, F2; exact Hh).
    pose proof (foreign_step e r st Hcl ltac:(cbn in Hnow; destruct Hh as (_ & _ & Hc & _); lia) Hst fuel) as Hr1.
    set (h := handle_datagram _ _ _ _ _ r) in *.
    destruct (IH (l ++ [(e, None)]) h.2 ltac:(exists st; rewrite F3; done) Hb Hw fuel) as (out & r' & E & Hs' & Hfin).
    exists (h.1 :: out), r'. rewrite E. split; [done|]. split; [|exact Hfin]. constructor; [by left|done].
Qed.

(** The event that completes the message is answered with the flight. *)
Lemma own_last (fuel : nat) (l : list (Event * Own)) (e : Event) (pn : Z) (cs : list CryptoChunk) (r : gmap (Addr * bytes) Pending) (flight : TlsFlight) :
  ready l (e_now e) r -> e_remote e = remote -> probe k dcid scid hello (e_packet e) pn cs -> (e_now e < t0 + PENDING_TTL)%Z ->
  (own_bytes (l ++ [(e, Some (pn, cs))]) < 2 ^ 62)%Z -> whole (l ++ [(e, Some (pn, cs))]) ->
  run_tls fuel hello dcid (e_cid e) = Ok flight -> flight_ok flight -> length (e_cid e) ≤ 20 -> 2 * length (t_handshake flight) + 1 < fuel ->
  exists (ds : list bytes) (r' : gmap (Addr * bytes) Pending) (st : Pending),
    handle_datagram fuel (e_now e) (e_cid e) (e_remote e) (e_packet e) r = (Ok (map (pair remote) ds), r')
    /\ r' !! (remote, dcid) = None /\ n_scid st = scid /\ n_dcid st = dcid /\ packet_number st = own_largest (l ++ [(e, Some (pn, cs))])
    /\ answers st (e_cid e) flight (3 * own_bytes (l ++ [(e, Some (pn, cs))])) ds.
Proof.
  intros Hr Er Hpr Hnow Hb Hw Htls Hfl Hc Hf. destruct (own_step l e pn cs r Hr Er Hpr Hnow Hb) as (st & r' & Hst & Hpn & Hcase).
  case_decide; destruct Hcase as (Hc1 & Hc2 & Hc3); [|done]. destruct Hst as (E1 & E2 & _ & Hb1 & E4 & _).
  destruct (assemble_answers fuel st (e_cid e) flight (3 * own_bytes (l ++ [(e, Some (pn, cs))])) ltac:(by rewrite E1) Hc Hfl Hf) as (ds & Ea & Hans).
  exists ds, r', st. split; [|done]. rewrite Hc3. unfold respond. rewrite E2, Htls. cbn [mbind result_bind].
  rewrite E4, Z.min_l by (unfold AMPLIFICATION_LIMIT; lia). rewrite Z.mul_comm. change (Z.of_nat AMPLIFICATION_LIMIT) with 3%Z. by rewrite Ea.
Qed.
End client.

Lemma run_app (fuel : nat) (a b : list Event) (r : gmap (Addr * bytes) Pending) :
  run fuel (a ++ b) r = ((run fuel a r).1 ++ (run fuel b (run fuel a r).2).1, (run fuel b (run fuel a r).2).2).
Proof. revert r. induction a as [|e a IH]; intros r; [cbn; apply surjective_pairing|]. cbn [app run]. by rewrite IH. Qed.

(** The first event is the client's. *)
Definition starts (t0 : Z) (l : list (Event * Own)) : Prop := exists e0 s0 l', l = (e0, Some s0) :: l' /\ e_now e0 = t0.

(** C19: The responder and whatever datagrams it is sent, from any addresses at any times:
    every call returns a list of datagrams for the sender; no address is ever sent more
    than three times the bytes that came from it; and the table never holds more than
    2048 handshakes of at most 64 KiB each. *)
Theorem quic_responder_safe (evs : list Event) : Forall event_ok evs ->
  exists F, forall fuel, F ≤ fuel -> exists dss r, length dss = length evs /\ run fuel evs ∅ = (replies evs dss, r)
    /\ size r ≤ MAX_PENDING /\ map_Forall (fun _ p => Z.of_nat (length (buffer p)) ≤ MAX_CRYPTO_BYTES)%Z r
    /\ forall a, (sent_total a evs dss ≤ 3 * got_total a evs)%Z.
Proof.
  intros Hevs. destruct (run_sound evs ∅ Hevs) as (r & F & HF); [split; [by rewrite map_size_empty; lia|apply map_Forall_empty]|].
  exists F. intros fuel Hf. destruct (HF fuel Hf) as (dss & Hl & E & [Hsize Hok] & Hb). exists dss, r. split; [done|]. split; [done|]. split; [done|]. split.
  - intros key p Hp. destruct (Hok key p Hp) as (_ & _ & Hbuf & _). exact Hbuf.
  - intros a. specialize (Hb a). pose proof (credit_nonneg a r Hok). unfold credit in Hb at 2. rewrite map_fold_empty in Hb. lia.
Qed.

(** C18: A client whose ClientHello comes in pieces, in any number of Initial packets and in
    any order, among the traffic of others, within three seconds, while the table has room
    for it, the message has at most 64 KiB and the TLS layer answers with a flight whose
    first part has at most 1000 bytes: every datagram of its
    own but the last is answered with nothing, the one that completes the message with
    the flight of the TLS layer for exactly that message, as protected packets that
    acknowledge its largest packet number and carry the flight in order, all of it unless
    three times the bytes of the client leave no room; and its entry is gone. *)
Theorem quic_probe_answered (fuel : nat) (k : PacketKeys) (remote : Addr) (dcid scid hello : bytes) (t0 : Z) (pre : list (Event * Own)) (e : Event)
  (pn : Z) (cs : list CryptoChunk) (r : gmap (Addr * bytes) Pending) (flight : TlsFlight) :
  let l := pre ++ [(e, Some (pn, cs))] in
  initial_remote dcid = Some k -> length dcid ≤ 20 -> length scid ≤ 20 ->
  handshake_message hello -> (Z.of_nat (length hello) ≤ MAX_CRYPTO_BYTES)%Z ->
  r !! (remote, dcid) = None -> size r < MAX_PENDING ->
  starts t0 l -> Forall (fun eo => classified k remote dcid scid hello eo /\ e_now eo.1 < t0 + PENDING_TTL)%Z l ->
  ~ whole hello pre -> whole hello l -> (own_bytes l < 2 ^ 62)%Z ->
  run_tls fuel hello dcid (e_cid e) = Ok flight -> flight_ok flight -> length (e_cid e) ≤ 20 -> 2 * length (t_handshake flight) + 1 < fuel ->
  exists (out : list (result unit (list (Addr * bytes)))) (ds : list bytes) (r' : gmap (Addr * bytes) Pending) (st : Pending),
    run fuel (fst <$> l) r = (out ++ [Ok (map (pair remote) ds)], r') /\ Forall2 own_silent pre out /\ r' !! (remote, dcid) = None
    /\ n_scid st = scid /\ n_dcid st = dcid /\ packet_number st = own_largest l /\ answers st (e_cid e) flight (3 * own_bytes l) ds.
Proof.
  intros l Hk Hd Hs Hm Hlen Hr Hsize Hst Hall Hnw Hw Hb Htls Hfl Hc Hf.
  apply Forall_app in Hall as [Hpre Hlast]. apply Forall_singleton in Hlast as [[Er Hpr] Hnow]. cbn [fst snd] in Er, Hpr, Hnow.
  assert (exists out (r1 : gmap (Addr * bytes) Pending), run fuel (fst <$> pre) r = (out, r1) /\ Forall2 own_silent pre out
    /\ ready remote dcid scid hello t0 pre (e_now e) r1) as (out & r1 & Erun & Hsil & Hready).
  { destruct Hst as (e0 & [pn0 cs0] & l' & El & Ht0). destruct pre as [|eo mid].
    { injection El as -> _ _. exists [], r. split; [done|]. split; [constructor|]. by left. }
    injection El as -> _. apply Forall_cons in Hpre as [[[Er0 Hpr0] Hnow0] Hmid]. cbn [fst snd] in Er0, Hpr0, Hnow0.
    change ((e0, Some (pn0, cs0)) :: mid) with ([(e0, Some (pn0, cs0))] ++ mid) in *.
    assert (own_bytes ([(e0, Some (pn0, cs0))] ++ mid) < 2 ^ 62)%Z as Hbm.
    { unfold l in Hb. rewrite own_bytes_app in Hb. pose proof (own_bytes_nonneg [(e, Some (pn, cs))]). lia. }
    assert (own_bytes ([] ++ [(e0, Some (pn0, cs0))]) < 2 ^ 62)%Z as Hb0 by (rewrite own_bytes_app in Hbm; pose proof (own_bytes_nonneg mid); cbn [app]; lia).
    destruct (own_step k remote dcid scid hello t0 Hk Hd Hs Hm Hlen [] e0 pn0 cs0 r) as (st0 & r0 & Hst0 & Hpn0 & Hcase); [by left|done|done|done|done|].
    case_decide; destruct Hcase as (Hc1 & Hc2 & Hc3); [by destruct Hnw; apply whole_mono|]. rewrite fmap_app. cbn [app run fst]. change (fst <$> [(e0, Some (pn0, cs0))] : list Event) with [e0]. cbn [app run]. rewrite Hc3. cbn [fst snd].
    destruct (run_silent k remote dcid scid hello t0 Hk Hd Hs Hm Hlen mid [(e0, Some (pn0, cs0))] r0 ltac:(by exists st0) Hmid Hbm Hnw fuel) as (out & r1 & E & Hsil & Hfin).
    exists (Ok [] :: out), r1. split; [by rewrite E|]. split; [constructor; [by right|done]|]. by right. }
  destruct (own_last k remote dcid scid hello t0 Hk Hd Hs Hm Hlen fuel pre e pn cs r1 flight Hready Er Hpr Hnow Hb Hw Htls Hfl Hc Hf)
    as (ds & r' & st & Eh & Hrest). exists out, ds, r', st. split; [|by split].
  unfold l. rewrite fmap_app, run_app, Erun. cbn [fmap list_fmap fst snd run]. by rewrite Eh.
Qed.
End responder.

(** ** A prober *)

(** Keys that hide nothing, and a server with four bytes to say at each level. *)
#[local] Instance clear_crypto : QuicCrypto := {|
  PacketKeys := unit;
  initial_local _ := Some tt;
  initial_remote _ := Some tt;
  seal _ _ _ body := if decide (bytes_ok body) then Some (body, replicate TAG_LEN 0%Z) else None;
  unseal _ _ _ cipher := let body := take (length cipher - TAG_LEN) cipher in if decide (bytes_ok body) then Some body else None;
  header_encrypt _ _ first pn := Some (first, pn);
  header_decrypt _ _ first pn := Some (first, pn)
|}.

#[local] Instance clear_laws : QuicLaws clear_crypto.
Proof.
  split; cbn -[TAG_LEN]; try by eauto.
  - intros _ pn _ body _ Hb _. rewrite decide_True by done. by eexists.
  - intros _ _ _ body c t E. case_decide as Hb; [|done]. injection E as <- <-. split; [done|]. split; [done|]. apply Forall_app. split; [done|]. by repeat constructor.
  - intros _ _ _ body c t E. case_decide as Hb; [|done]. apply (inj Some), (inj2 pair) in E as [<- <-].
    assert (length (body ++ replicate TAG_LEN 0%Z) - TAG_LEN = length body) as -> by (rewrite length_app, length_replicate; lia).
    rewrite take_app_length. by rewrite decide_True by done.
  - intros _ _ _ body plain E. case_decide; [by injection E as <-|done].
  - intros _ _ first pn first' pn' Hf Hp [= <- <-]. done.
  - intros _ _ first pn first' pn' rest _ _ [= <- <-]. done.
  - intros _ _ first pn first' pn' Hf Hp [= <- <-]. done.
Qed.

#[local] Instance clear_tls : QuicTls := {|
  Conn := nat;
  tls_new _ := Some 0;
  read_hs _ _ := (true, 1);
  write_hs c := match c with
    | 1 => ([2; 0; 0; 0]%Z, Some (HandshakeKeys (tt : @PacketKeys clear_crypto)), 2)
    | 2 => ([8; 0; 0; 0]%Z, Some OneRtt, 3)
    | _ => ([], None, 0)
    end;
  tls_alert _ := None
|}.

#[local] Instance clear_tls_laws : TlsLaws.
Proof. split. intros [|[|[|c]]]; [by eapply quiet_empty| |by eapply quiet_end|by eapply quiet_empty]. eapply quiet_more; [done|]. by eapply quiet_end. Qed.

Definition hello_text : bytes := [1; 0; 0; 2; 7; 9]%Z.
Definition piece_at (offset : nat) : Frame := Crypto (mkCryptoChunk (Z.of_nat offset) (take 3 (drop offset hello_text))).
Definition probe_packet (pn : Z) (fs : list Frame) : bytes :=
  head_text PACKET_TYPE_INITIAL [5; 5]%Z [6]%Z ([0]%Z ++ []) (write_varint (Z.of_nat (1 + length (frames_text fs) + TAG_LEN))) 1
  ++ be_bytes 1 pn ++ frames_text fs ++ replicate TAG_LEN 0%Z.
Definition probe_event (now pn : Z) (fs : list Frame) : Event (Addr := nat) := mkEvent now (replicate SCID_LEN 3%Z) 1 (probe_packet pn fs).

(** The second half, something else from elsewhere, the first half. *)
Definition probe_trace : list (Event (Addr := nat) * Own) :=
  [(probe_event 10 0 [piece_at 3], Some (0%Z, chunks_of [piece_at 3])); (mkEvent 20 (replicate SCID_LEN 4%Z) 2 [1; 2; 3]%Z, None)].
Definition probe_last : Event (Addr := nat) := probe_event 30 1 [Padding; piece_at 0].

Lemma probe_probe now pn fs : (0 ≤ pn < 256)%Z -> Forall frame_ok fs -> Forall chunk_ok (chunks_of fs) -> Forall (piece_of hello_text) (chunks_of fs) ->
  3 ≤ length (frames_text fs) < 100 -> bytes_ok (frames_text fs) ->
  classified tt 1 [5; 5]%Z [6]%Z hello_text (probe_event now pn fs, Some (pn, chunks_of fs)).
Proof.
  intros Hpn Hfs Hcs Hpc Hl Hb. split; [done|]. cbn [fst snd e_packet probe_event]. unfold probe_packet. set (P := _ ++ _).
  rewrite <- (app_nil_r P). apply (probe_intro _ _ _ _ [0%Z] [] (write_varint (Z.of_nat (1 + length (frames_text fs) + TAG_LEN))) pn 1 fs P []); [lia|lia|lia|..]; try done.
  - apply write_varint_text. unfold varint_ok, TAG_LEN. lia.
  - exists (frames_text fs), (replicate TAG_LEN 0%Z), (first_byte PACKET_TYPE_INITIAL 1), (be_bytes 1 pn). cbv zeta. split; [|split; [done|done]].
    cbn -[TAG_LEN frames_text]. by rewrite decide_True.
Qed.

Definition probe_flight : TlsFlight := mkTlsFlight [2; 0; 0; 0]%Z [8; 0; 0; 0]%Z (Some (tt : @PacketKeys clear_crypto)) None.

Lemma quic_responder_safe_witness : let evs := fst <$> probe_trace ++ [(probe_last, None)] in
  Forall event_ok evs /\ exists F, forall fuel, F ≤ fuel -> exists dss r, length dss = length evs /\ run fuel evs ∅ = (replies evs dss, r)
    /\ size r ≤ MAX_PENDING /\ map_Forall (fun _ p => Z.of_nat (length (buffer p)) ≤ MAX_CRYPTO_BYTES)%Z r
    /\ forall a, (sent_total a evs dss ≤ 3 * got_total a evs)%Z.
Proof.
  assert (Forall event_ok (fst <$> probe_trace ++ [(probe_last, None : Own)])) as Hok.
  { repeat (apply Forall_cons; split; [split; [|done]; apply (bool_decide_unpack _); vm_compute; exact I|]). constructor. }
  split; [exact Hok|]. apply quic_responder_safe. exact Hok.
Defined.

Lemma quic_probe_answered_witness : let l := probe_trace ++ [(probe_last, Some (1%Z, chunks_of [Padding; piece_at 0]))] in
  exists (out : list (result unit (list (nat * bytes)))) (ds : list bytes) (r' : gmap (nat * bytes) Pending) (st : Pending),
    run 20 (fst <$> l) ∅ = (out ++ [Ok (map (pair 1) ds)], r') /\ Forall2 own_silent probe_trace out /\ r' !! (1, [5; 5]%Z) = None
    /\ n_scid st = [6%Z] /\ n_dcid st = [5; 5]%Z /\ packet_number st = own_largest l
    /\ answers st (replicate SCID_LEN 3%Z) probe_flight (3 * own_bytes l) ds.
Proof.
  apply (quic_probe_answered 20 (tt : @PacketKeys clear_crypto) (1 : nat) [5; 5]%Z [6]%Z hello_text 10 probe_trace probe_last 1 (chunks_of [Padding; piece_at 0]) ∅ probe_flight).
  - done.
  - cbn. lia.
  - cbn. lia.
  - exists 1%Z, [7; 9]%Z. done.
  - done.
  - apply lookup_empty.
  - rewrite map_size_empty. unfold MAX_PENDING. lia.
  - by exists (probe_event 10 0 [piece_at 3]), (0%Z, chunks_of [piece_at 3]), [(mkEvent 20 (replicate SCID_LEN 4%Z) 2 [1; 2; 3]%Z, None); (probe_last, Some (1%Z, chunks_of [Padding; piece_at 0]))].
  - assert (forall now pn fs, (0 ≤ pn < 256)%Z /\ (now < 10 + PENDING_TTL)%Z /\ Forall frame_ok fs /\ Forall chunk_ok (chunks_of fs)
      /\ Forall (piece_of hello_text) (chunks_of fs) /\ 3 ≤ length (frames_text fs) < 100 /\ bytes_ok (frames_text fs) ->
      classified tt 1 [5; 5]%Z [6]%Z hello_text (probe_event now pn fs, Some (pn, chunks_of fs)) /\ (now < 10 + PENDING_TTL)%Z) as Hown.
    { intros now pn fs (?&?&?&?&?&?&?). split; [by apply probe_probe|done]. }
    assert (forall o, o < 4 -> piece_of hello_text (mkCryptoChunk (Z.of_nat o) (take 3 (drop o hello_text))) /\ chunk_ok (mkCryptoChunk (Z.of_nat o) (take 3 (drop o hello_text)))) as Hpiece.
    { intros o Ho. do 4 (destruct o as [|o]; [split; [split; [cbn; lia|split; [done|cbn; lia]]|split; [done|by repeat constructor]]|]). lia. }
    repeat (apply Forall_cons; split); [..|constructor].
    + apply (Hown 10%Z 0%Z [piece_at 3]). pose proof (Hpiece 3 ltac:(lia)) as [P1 P2]. repeat split; try done; try (by repeat constructor); cbn; lia.
    + split; [|done]. intros i [= ].
    + apply (Hown 30%Z 1%Z [Padding; piece_at 0]). pose proof (Hpiece 0 ltac:(lia)) as [P1 P2]. repeat split; try done; try (by repeat constructor); cbn; lia.
  - intros Hw. destruct (Hw 0 ltac:(cbn; lia)) as (rg & Hin & Hrg). apply list_elem_of_singleton in Hin as ->. cbn in Hrg. lia.
  - apply all_covered_count. vm_compute. lia.
  - done.
  - done.
  - split; [by repeat constructor|]. split; [by repeat constructor|]. cbn. split; [lia|]. split; [done|]. done.
  - cbn. lia.
  - cbn. lia.
Defined.
